(* ===== verification/_CoqProject ===== *)
-Q . S2P
Prelude.v
GoState.v
GoFs.v
Utf8.v
GoStd.v
Json.v
JsonValue.v
GoTime.v
JsonText.v
TimeLayout.v
JsonDecode.v
Value.v
GoFloat.v
Wire.v
Command.v
Handshake.v
Prepared.v
ResultSet.v
BinaryResult.v
Response.v
Hash.v
WALRecord.v
WAL.v
WALRecovery.v
Auth.v
Session.v
AccountFile.v
Catalog.v
Sequencer.v
Bitmaps.v
BSIBinary.v
BitmapQuery.v
NodeQuery.v
NodeExact.v
NodeWrite.v
ClientQuery.v
ClientExact.v
Fanout.v
ClusterQuery.v
TableBuffer.v
KeyIdentity.v
KeyResolver.v
KeyResolution.v
SqlIR.v
Lowering.v
LexStrings.v
LoweringExact.v
FilterTree.v
DirectQuery.v
DirectFilter.v
ShardWindow.v
SqlQuery.v
