(* ===== verification/Prelude.v ===== *)
(** * QuantaStream verification library

    A model in Rocq of parts of QuantaStream, a bitmap-indexed SQL store with a
    MySQL-compatible front door, and proofs about them.

    ** The program

    Clients speak the MySQL protocol to the package qsmysql: packets on a stream
    (packet.go, stream.go), a greeting and a login (handshake.go,
    handshake_response.go, auth*.go), then commands (command.go, prepared.go)
    that a session (session.go, packetio.go) hands to a handler and answers with
    OK, ERR or result set packets (response.go, statement.go, resultset.go,
    binary_resultset.go).  The handler lives in qsruntime; it plans SQL with
    qsbridge and executes it on bitmaps, through the cluster client in shared,
    the nodes in server and the ingest sessions in core, which keep a local
    write-ahead log.

    ** The files

    - Prelude: bytes, the outcomes [Ok], [Err] and [Panic] of Go code, indexing
      and slicing, machine integers, bitmaps as bytes.
    - GoState, GoFs: state with errors; files, with faults of each operation.
    - Utf8, GoStd, GoTime: UTF-8, io, strings, strconv, fmt and time.
    - Json, JsonValue, JsonText, JsonDecode: string literals, values, numbers
      and instants of encoding/json, and decoding into structs.
    - Value: the value kinds and dynamic values of qsbridge.
    - Wire: packets, the packet stream, wire integers and strings.
    - Command: command payloads.  Handshake: greeting and login payloads.
    - Prepared: the parameters of a prepared execution.
    - ResultSet, BinaryResult: result sets in the text and binary protocol.
    - Response: OK and ERR packets, response envelopes, prepared statements.
    - Hash: SHA-1 and SHA-256.  Auth: authenticators and account lists.
    - Session: connection states, one command, the whole session.
    - AccountFile: account files and the configured authenticator.
    - WALRecord: records, frames and checkpoints of the write-ahead log.  WAL:
      the log's files and operations.  WALRecovery: theorems about them.
    - Catalog: tables, attributes and the attributes of primary keys.
    - Sequencer: ranges of column identifiers a node hands out, over an interface
      for roaring bitmaps.  TableBuffer: the buffers of ingest sessions, and many
      of them on one node.
    - Bitmaps: the operations of the roaring library on bitmaps and bit-sliced
      indexes, as classes with laws, and lists that satisfy them.  BSIBinary:
      indexes on the wire (shared/bsi_binary.go).
    - BitmapQuery: query trees, their messages, intermediate results and the
      reduction of a tree (shared/bitmapquery.go).  NodeQuery: the query of a node
      (server/bitmapquery.go, the seed cache of server/bitmap.go).  NodeExact: the
      rows a node's result has.
    - NodeWrite: batches, the fragment queue, writes, clears, truncation and purges
      of a node (server/bitmap.go), the effects they refine, and histories.
    - ClientQuery: the query of a client over an in-process node or a cluster
      (shared/clientquery.go, the join of server/bitmapquery.go).  ClientExact,
      Fanout: the rows of conjunctions, in process and over nodes.  ClusterQuery:
      the theorems about a client's queries, and examples.
    - KeyIdentity: encodings of primary keys.  KeyResolver: the resolver of
      primary keys over an interface for the index.  KeyResolution: theorems.
    - TimeLayout, GoFloat: layouts of the time package and float64 arithmetic.
    - SqlIR: fields, expressions, predicates and dictionaries of a bound query
      (qsbridge/ir.go, expr.go, encoding.go, dictionary.go).  Lowering: their
      translation to query fragments and filter trees (QuantaIntermediateLowerer of
      qsbridge/quanta_intermediate.go).  LexStrings: short strings as integers.
      LoweringExact: the meaning of conditions, and theorems.
    - FilterTree: the evaluator of filter trees (qsruntime/filter_evaluator.go)
      against the contract of its leaves ([FilterTree.LeafContract]).
    - DirectQuery: from a lowered request to the bitmap query of the client and back,
      with the windows of partitioned tables (qsruntime/quanta_legacy_adapter.go,
      legacy_direct_runtime.go).  ShardWindow: theorems about the windows.
    - DirectFilter: the evaluation of a fragment by a session or on materialized
      cells (qsruntime/direct_bitmap_filter_adapter.go), and that it keeps the
      contract.  SqlQuery: the whole path from a condition to the rows of a node.

    A Go struct is a record, an enumeration an inductive type, a function a
    definition of the same name; methods keep the method's name, with the type's
    name before it where two would clash.  Fallible code returns [go A]; out of
    range indexing and slicing is [Panic].  Integers are [Z] with the wrap of
    their width written out.  Readers are the bytes still to come; writers carry
    what was written and the outcomes of the coming writes (full, short, failed);
    a context is the list of its coming answers.  The session is a state monad
    over connection, stream, context, handler, calls and trace.  A file system
    maps paths to contents and the length known to be on disk; a list of coming
    faults says which operation fails and how much a failing write stores.  The
    log's operations are a state monad over the file system, the log object and
    the store its commit functions work on; the current time is an argument.

    ** What is shown

    - Sessions: a command reaches the handler only after a login that proves a
      credential, with the identity of that account; the commands are the packets
      after the login, once each and in order; a session that ends normally has
      the transcript of the protocol; every session over a finite input ends, and
      panics only when the authenticator or the handler does.  A theorem shows that the listener's constant challenge
      makes captured logins replayable.
    - Authentication: acceptance is characterised by the credential the response
      proves; clients that know the password get in, empty responses do not.
    - Formats: packets, strings, greetings, logins, parameters, result sets and
      responses are read back by a client as what was sent.  The client side of
      each format is a definition written from the protocol, not from the code.
    - Decoders: commands are exactly those of the protocol's grammar; no payload
      makes a decoder panic.

    - Account files: adding or removing an account changes that account only; an
      added user can log in.  A theorem shows that a path with space around it
      loses the other accounts.
    - The write-ahead log: what is appended is read back; when appends are synced,
      in every state reachable through appends, commits, checkpoints and restarts,
      with a restart after each append that fails with bytes in the file, the LSNs grow
      and the checkpoint is not ahead of the log; a crash, which keeps what was
      synced and any first part of the rest, loses no acknowledged record, and
      the log opens again; the recovery plan splits the log at the checkpoint
      and at the last commit; a checkpoint is replaced as a whole or not at all.
      A theorem shows that an append after a failed sync makes the log
      unreadable.
    - Queries: what a fragment means is a relation on the values and row bitmaps a
      node's shards hold, without candidates, caches and bitmaps
      ([NodeQuery.matches]); a conjunction on an in-process node returns all rows that
      satisfy it and no other row that has a value in each field compared, a query
      with candidates exactly those among them.  Comparisons are known for operands
      within the range of the values of a field ([NodeQuery.ranged]), and between
      narrowing fragments only for rows with a value ([NodeExact.settled]), as the
      roaring library documents no more.  When the shards of a node are placed on the nodes of a cluster
      ([Fanout.placed]), the cluster returns no other rows, and all of them when
      the query is sent fragment by fragment or has one narrowing fragment at most.
    - Writes: requests refine effects on a function from shards and rows to values;
      after any history of requests and queries the seed cache is coherent, so that
      queries see exactly what was written.  Workers may take the fragments of
      different shards in any order.
    - Four theorems show where the query code fails: a cluster returns no rows for
      `a = 1 AND b IS NOT NULL`; it loses rows when a query is sent whole and the
      values of a row lie on different nodes; a query with a join panics; clearing a bitmap that is not there sets it.
    - SQL conditions: a condition is given its meaning on the cells of a table
      ([LoweringExact.conditionRows]); its lowering succeeds and selects the same
      rows, merged ranges included.  The evaluator of trees keeps the rows of the
      formula whatever its order and early exits.  Put together, a supported
      condition on an in-process node of tables without partitions ends in the rows
      that satisfy it: exactly those for a tree of AND and OR, and for a conjunction
      sent as one query exactly those of the rows without NULL in its fields.  Windows
      of partitioned tables hold the shards of all instants that satisfy positive
      bounds, and cells are tested like the index.
    - Four theorems show where this path fails: NOT IN returns the members, NOT
      BETWEEN on the time column reads only the excluded range, rows without a value
      pass > on materialized cells, and float bounds from 2^63 on overflow.
    - Column identifiers: a node's ranges lie after its rows and after each other,
      and any number of sessions take identifiers without repeating one.
    - Primary keys: identities of different keys differ; resolving rows implements
      the table of keys of the batch and of the index while the session's knowledge
      of empty domains is right, so a key keeps its identifier within a batch.  Two theorems show how the knowledge of empty
      domains breaks this: after a flush a key can be stored twice, and looking up
      a missing parent makes it appear.

    ** Bounds

    The loop of a session takes fuel; more fuel than bytes of input is enough,
    since each command reads at least the four bytes of a packet header.  The
    fuel of the text functions in GoStd is the length of their argument; that of
    the JSON parser is twice the length of the text and two more, and JsonValue
    proves it enough for every text of the grammar.  The reduction of
    a query takes one more than the number of its fragments as fuel, which is enough
    for every tree; a longer chain of children is a cycle, on which the code
    overflows its stack and the model panics.  Merging bounds takes the length of
    the list, the evaluation of a filter the size of the tree; both are proved
    enough.  Cells are compared exactly below 2^53; windows are shown safe for
    instants from 1900 to 2100 and bounds that are read as milliseconds.

    ** Not modelled

    Unicode case folding, quoting with %q and IP parsing are the class
    [GoStd.TextLib]; printing of arbitrary values and reading of numbers from text
    are the class [DirectFilter.FmtLib]; fmt.Sprint, float formatting and rune
    folding are arguments of the result set encoders.  Elapsed times in traces,
    capacities of slices and the network listener are not modelled.  The texts
    of errors of encoding/json, directories and the order of renames and syncs
    on disk are not represented; the YAML library, the working directory and
    url.Parse are interfaces.  The sequencers and key lookups see of an index only
    its existence bitmap and the interface of lookups; profiles keep counters, not
    times.  The roaring library is a parameter with the laws of [Bitmaps] and
    [BSIBinary]; stratified sampling is an argument of the client query.  Sessions
    and the materialization kernel are interfaces of the filter evaluator; probes
    are dropped.  Locks, timing probes, relationship artifacts, projections,
    aggregates, persistence and synchronisation of nodes, the handler of commands
    and the mapping of rows are not modelled, because their results depend on the
    projection path, of which only the cells of a filter are here.  The lexer,
    parser, binder and optimizer of SQL, joins, grouping and the assembly of results
    are left out for their size; the model takes the bound query they produce.
    Named constants have the source's names and values. *)

From stdpp Require Export prelude list strings gmap.
From Stdlib Require Export ZArith Lia.
From Stdlib Require Strings.Byte.
From Stdlib Require String.

#[global] Open Scope Z_scope.

(** ** Bytes

    A Go [byte] is a [Byte.byte]; [ub] is its numeric value and [byte_of] the
    truncating conversion [byte(z)].  Go strings and byte slices are both
    [bytes]: the conversions between them copy the bytes. *)

Abbreviation byte := Corelib.Init.Byte.byte.
Abbreviation bytes := (list byte).

#[export] Instance byte_eq_decision : EqDecision byte := Byte.byte_eq_dec.

Definition ub (b : byte) : Z := Z.of_N (Byte.to_N b).

Definition byte_of (z : Z) : byte := default Corelib.Init.Byte.x00 (Byte.of_N (Z.to_N (z mod 256))).

(** A string literal as the bytes of a Go string. *)
Definition str (s : string) : bytes := String.list_byte_of_string s.

(** [len(l)] as a Go [int]. *)
Definition zlen {A} (l : list A) : Z := Z.of_nat (length l).
Arguments zlen : simpl never.

Lemma ub_range b : 0 <= ub b < 256.
Proof. unfold ub. pose proof (Byte.to_N_bounded b). lia. Qed.

Lemma ub_inj b1 b2 : ub b1 = ub b2 -> b1 = b2.
Proof.
  unfold ub. intros H%N2Z.inj.
  pose proof (Byte.of_to_N b1) as E1. pose proof (Byte.of_to_N b2) as E2.
  rewrite H in E1. congruence.
Qed.

Lemma ub_byte_of z : ub (byte_of z) = z mod 256.
Proof.
  unfold ub, byte_of.
  pose proof (Z.mod_pos_bound z 256 ltac:(lia)) as B.
  destruct (Byte.of_N (Z.to_N (z mod 256))) as [b|] eqn:E; simpl.
  - apply Byte.to_of_N in E. rewrite E. lia.
  - apply Byte.of_N_None_iff in E. lia.
Qed.

Lemma byte_of_ub b : byte_of (ub b) = b.
Proof. apply ub_inj. rewrite ub_byte_of. apply Z.mod_small, ub_range. Qed.

Lemma byte_of_mod z : byte_of (z mod 256) = byte_of z.
Proof. apply ub_inj. rewrite !ub_byte_of. apply Z.mod_mod. lia. Qed.

(** Adds the bounds of every byte value that occurs in the goal. *)
Ltac ub_bounds :=
  repeat match goal with
  | |- context [ub ?b] =>
      assert_fails (assert (0 <= ub b < 256) by assumption); pose proof (ub_range b)
  end.

#[export] Program Instance byte_countable : Countable byte :=
  inj_countable Byte.to_N (fun n => Byte.of_N n) _.
Next Obligation. apply Byte.of_to_N. Qed.

(** ** Errors and outcomes

    A Go [error] is kept as the format string and arguments of the call that
    made it, or as one of the sentinel errors the code compares against. *)

Inductive error : Type :=
  | Errorf (fmt : string) (args : list earg)
  | ErrEOF
  | ErrUnexpectedEOF
  | ErrShortWrite
  | ErrContext
  | ErrNotExist
  | ErrIO (detail : bytes)
with earg : Type :=
  | AInt (z : Z)
  | AStr (s : bytes)
  | AErr (e : error).

(** The outcome of a Go call: a value, an error value, or a run-time panic
    (an index or slice expression out of range). *)

Inductive go (A : Type) : Type :=
  | Ok (a : A)
  | Err (e : error)
  | Panic.
Arguments Ok {A} a.
Arguments Err {A} e.
Arguments Panic {A}.

#[export] Instance go_ret : MRet go := fun A a => Ok a.
#[export] Instance go_bind : MBind go := fun A B f m =>
  match m with Ok a => f a | Err e => Err e | Panic => Panic end.
#[export] Instance go_fmap : FMap go := fun A B f m =>
  match m with Ok a => Ok (f a) | Err e => Err e | Panic => Panic end.

Definition is_ok {A} (m : go A) : bool := match m with Ok _ => true | _ => false end.

Definition is_err {A} (m : go A) : bool := match m with Err _ => true | _ => false end.

Definition go_option {A} (m : go A) : option A :=
  match m with Ok a => Some a | _ => None end.

(** [m] evaluates without a run-time panic. *)
Definition safe {A} (m : go A) : Prop := m <> Panic.

Lemma bind_ok {A B} (m : go A) (f : A -> go B) b :
  (m ≫= f) = Ok b -> exists a, m = Ok a /\ f a = Ok b.
Proof. destruct m; simpl; try discriminate. eauto. Qed.

Lemma bind_assoc {A B C} (m : go A) (f : A -> go B) (g : B -> go C) :
  (m ≫= f) ≫= g = m ≫= (fun a => f a ≫= g).
Proof. by destruct m. Qed.

Lemma bind_Ok_iff {A B} (m : go A) (f : A -> go B) b :
  (m ≫= f) = Ok b <-> exists a, m = Ok a /\ f a = Ok b.
Proof.
  destruct m as [a|e|]; cbn; split; [eauto|by intros (? & [= <-] & ?)|done|by intros (? & ? & _)|done|by intros (? & ? & _)].
Qed.

Lemma safe_bind {A B} (m : go A) (f : A -> go B) :
  safe m -> (forall a, m = Ok a -> safe (f a)) -> safe (m ≫= f).
Proof. intros Hm Hf. destruct m; simpl; [by apply Hf|done|done]. Qed.

Lemma safe_ok {A} (a : A) : safe (Ok a).
Proof. done. Qed.

Lemma safe_err {A} e : safe (A := A) (Err e).
Proof. done. Qed.

(** [m] does not panic, and its value, if it returns one, satisfies [P]. *)
Definition returns {A} (P : A -> Prop) (m : go A) : Prop :=
  match m with Ok a => P a | Err _ => True | Panic => False end.

Lemma returns_bind {A B} (Q : A -> Prop) (P : B -> Prop) (m : go A) (f : A -> go B) :
  returns Q m -> (forall a, Q a -> returns P (f a)) -> returns P (m ≫= f).
Proof. destruct m; simpl; auto. Qed.

Lemma returns_mono {A} (P Q : A -> Prop) (m : go A) :
  returns Q m -> (forall a, Q a -> P a) -> returns P m.
Proof. destruct m; simpl; auto. Qed.

Lemma returns_ok {A} (P : A -> Prop) (m : go A) a : returns P m -> m = Ok a -> P a.
Proof. by intros H ->. Qed.

Lemma returns_safe {A} (P : A -> Prop) (m : go A) : returns P m -> safe m.
Proof. by destruct m. Qed.

Lemma safe_returns {A} (m : go A) : returns (fun _ => True) m <-> safe m.
Proof. by destruct m. Qed.

(** ** Index and slice expressions

    The bound of a slice expression on a Go slice is its capacity; the model
    uses the length, so it panics at least as often as the code does. *)

Definition index (data : bytes) (i : Z) : go byte :=
  if i <? 0 then Panic
  else match data !! Z.to_nat i with Some b => Ok b | None => Panic end.

Definition slice {A} (data : list A) (a b : Z) : go (list A) :=
  if (0 <=? a) && (a <=? b) && (b <=? zlen data)
  then Ok (take (Z.to_nat (b - a)) (drop (Z.to_nat a) data))
  else Panic.

(** [data[a:]] *)
Definition slice_from {A} (data : list A) (a : Z) : go (list A) := slice data a (zlen data).

(** ** Automation *)

Create HintDb qs.
#[export] Hint Resolve safe_ok safe_err : qs.

(** Turns boolean comparisons in the context into propositions. *)
Ltac b2p :=
  repeat match goal with
  | H : (_ && _) = true |- _ => apply andb_true_iff in H; destruct H
  | H : (_ && _) = false |- _ => apply andb_false_iff in H
  | H : (_ || _) = true |- _ => apply orb_true_iff in H
  | H : (_ || _) = false |- _ => apply orb_false_iff in H; destruct H
  | H : negb _ = true |- _ => apply negb_true_iff in H
  | H : negb _ = false |- _ => apply negb_false_iff in H
  | H : (_ <? _) = true |- _ => apply Z.ltb_lt in H
  | H : (_ <? _) = false |- _ => apply Z.ltb_ge in H
  | H : (_ <=? _) = true |- _ => apply Z.leb_le in H
  | H : (_ <=? _) = false |- _ => apply Z.leb_gt in H
  | H : (_ =? _) = true |- _ => apply Z.eqb_eq in H
  | H : (_ =? _) = false |- _ => apply Z.eqb_neq in H
  | H : (_ >? _) = _ |- _ => rewrite Z.gtb_ltb in H
  | H : (_ >=? _) = _ |- _ => rewrite Z.geb_leb in H
  end.

(** Case analysis on the condition of the outermost [if] of the goal. *)
Ltac case_if :=
  match goal with
  | |- context [if ?c then _ else _] => let E := fresh "E" in destruct c eqn:E; b2p
  end.

(** Reduces the outermost [if] of the goal when arithmetic decides its condition. *)
Ltac if_is v :=
  match goal with
  | |- context [if ?c then _ else _] =>
      let H := fresh in assert (c = v) as H by (autorewrite with zlen; lia); rewrite H; clear H
  end.
Ltac if_true := if_is true.
Ltac if_false := if_is false.

(** Evaluates the [Z.of_nat] of literals. *)
Ltac of_nat_eval :=
  repeat match goal with
  | |- context [Z.of_nat ?n] =>
      let v := eval vm_compute in (Z.of_nat n) in
      lazymatch v with Zpos _ => change (Z.of_nat n) with v end
  end.

Lemma Some_bind {A C} (a : A) (f : A -> option C) : Some a ≫= f = f a.
Proof. done. Qed.

(** ** Lists with [Z] lengths *)

Lemma zlen_nil {A} : zlen (@nil A) = 0.
Proof. done. Qed.

Lemma zlen_cons {A} (x : A) l : zlen (x :: l) = 1 + zlen l.
Proof. unfold zlen. simpl. lia. Qed.

Lemma zlen_app {A} (l1 l2 : list A) : zlen (l1 ++ l2) = zlen l1 + zlen l2.
Proof. unfold zlen. rewrite length_app. lia. Qed.

Lemma zlen_nonneg {A} (l : list A) : 0 <= zlen l.
Proof. unfold zlen. lia. Qed.

Lemma zlen_replicate {A} n (x : A) : zlen (replicate n x) = Z.of_nat n.
Proof. unfold zlen. by rewrite length_replicate. Qed.

Lemma zlen_zero {A} (l : list A) : zlen l = 0 -> l = [].
Proof. destruct l; [done|]. rewrite zlen_cons. pose proof (zlen_nonneg l). lia. Qed.

Create Rewrite HintDb zlen.
#[export] Hint Rewrite @zlen_nil @zlen_cons @zlen_app @zlen_replicate : zlen.

(** Length arithmetic on explicit lists. *)
Ltac zlen_simpl := autorewrite with zlen in *; try lia.

Lemma index_app_here pre b post : index (pre ++ b :: post) (zlen pre) = Ok b.
Proof.
  unfold index, zlen. destruct (Z.ltb_spec (Z.of_nat (length pre)) 0); [lia|].
  rewrite Nat2Z.id, lookup_app_r, Nat.sub_diag by lia. done.
Qed.

Lemma index_app_r pre l i : 0 <= i -> index (pre ++ l) (zlen pre + i) = index l i.
Proof.
  intros Hi. unfold index, zlen.
  destruct (Z.ltb_spec (Z.of_nat (length pre) + i) 0); [lia|].
  destruct (Z.ltb_spec i 0); [lia|].
  rewrite lookup_app_r by lia.
  by replace (Z.to_nat (Z.of_nat (length pre) + i) - length pre)%nat with (Z.to_nat i) by lia.
Qed.

Lemma index_safe data i : 0 <= i < zlen data -> exists b, index data i = Ok b.
Proof.
  unfold index, zlen. intros H. destruct (Z.ltb_spec i 0); [lia|].
  destruct (lookup_lt_is_Some_2 data (Z.to_nat i)) as [b ->]; [lia|eauto].
Qed.

Lemma slice_ok {A} (data : list A) a b : 0 <= a <= b -> b <= zlen data ->
  slice data a b = Ok (take (Z.to_nat (b - a)) (drop (Z.to_nat a) data)).
Proof.
  intros. unfold slice. destruct (_ && _) eqn:E; [done|]. b2p.
  destruct E as [E|E]; b2p; [destruct E; b2p; lia|lia].
Qed.

Lemma slice_length {A} (data l : list A) a b : slice data a b = Ok l -> zlen l = b - a.
Proof.
  unfold slice. case_if; [|done]. intros [= <-]. unfold zlen in *.
  rewrite length_take, length_drop. lia.
Qed.

Lemma slice_safe {A} (data : list A) a b : 0 <= a <= b -> b <= zlen data ->
  exists l, slice data a b = Ok l /\ zlen l = b - a.
Proof.
  intros H1 H2. rewrite slice_ok by lia. eexists. split; [done|].
  eapply slice_length. by apply slice_ok.
Qed.

Lemma slice_app {A} (pre mid post : list A) :
  slice (pre ++ mid ++ post) (zlen pre) (zlen pre + zlen mid) = Ok mid.
Proof.
  pose proof (zlen_nonneg pre). pose proof (zlen_nonneg mid). pose proof (zlen_nonneg post).
  rewrite slice_ok by zlen_simpl. f_equal. unfold zlen.
  rewrite Nat2Z.id, drop_app_length.
  replace (Z.to_nat _) with (length mid) by lia. by rewrite take_app_length.
Qed.

Lemma slice_app_r {A} (pre l : list A) a b : 0 <= a ->
  slice (pre ++ l) (zlen pre + a) (zlen pre + b) = slice l a b.
Proof.
  intros Ha. pose proof (zlen_nonneg pre). unfold slice. rewrite zlen_app.
  assert ((0 <=? zlen pre + a) && (zlen pre + a <=? zlen pre + b)
            && (zlen pre + b <=? zlen pre + zlen l)
          = (0 <=? a) && (a <=? b) && (b <=? zlen l)) as -> by lia.
  destruct (_ && _); [|done]. f_equal.
  replace (zlen pre + b - (zlen pre + a)) with (b - a) by lia. f_equal.
  unfold zlen. rewrite drop_app_ge by lia. f_equal. lia.
Qed.

Lemma slice_at {A} (data pre mid post : list A) a b :
  data = pre ++ mid ++ post -> a = zlen pre -> b = zlen pre + zlen mid -> slice data a b = Ok mid.
Proof. intros -> -> ->. apply slice_app. Qed.

Lemma slice_from_app {A} (pre post : list A) : slice_from (pre ++ post) (zlen pre) = Ok post.
Proof.
  unfold slice_from. rewrite zlen_app.
  rewrite <- (app_nil_r post) at 1. apply slice_app.
Qed.

Lemma index_at data pre b post i : data = pre ++ b :: post -> i = zlen pre -> index data i = Ok b.
Proof. intros -> ->. apply index_app_here. Qed.

Lemma slice_from_at {A} (data pre post : list A) a :
  data = pre ++ post -> a = zlen pre -> slice_from data a = Ok post.
Proof. intros -> ->. apply slice_from_app. Qed.

Lemma slice_prefix {A} (mid post : list A) : slice (mid ++ post) 0 (zlen mid) = Ok mid.
Proof. apply (slice_app [] mid post). Qed.

(** ** Little-endian integers *)

(** The [n] low bytes of [v], least significant first. *)
Fixpoint le_bytes (n : nat) (v : Z) : bytes :=
  match n with
  | O => []
  | S n => byte_of v :: le_bytes n (v / 256)
  end.

Fixpoint le_value (l : bytes) : Z :=
  match l with
  | [] => 0
  | b :: l => ub b + 256 * le_value l
  end.

Lemma le_bytes_length n v : length (le_bytes n v) = n.
Proof. revert v. induction n; simpl; intros; [done|]. by rewrite IHn. Qed.

Lemma zlen_le_bytes n v : zlen (le_bytes n v) = Z.of_nat n.
Proof. unfold zlen. by rewrite le_bytes_length. Qed.
Lemma zlen_le_bytes_2 v : zlen (le_bytes 2 v) = 2.
Proof. done. Qed.

Lemma zlen_le_bytes_3 v : zlen (le_bytes 3 v) = 3.
Proof. done. Qed.

Lemma zlen_le_bytes_4 v : zlen (le_bytes 4 v) = 4.
Proof. done. Qed.

Lemma zlen_le_bytes_8 v : zlen (le_bytes 8 v) = 8.
Proof. done. Qed.
#[export] Hint Rewrite zlen_le_bytes_2 zlen_le_bytes_3 zlen_le_bytes_4 zlen_le_bytes_8 : zlen.

Lemma le_value_range l : 0 <= le_value l < 256 ^ zlen l.
Proof.
  induction l as [|b l IH]; [simpl; unfold zlen; simpl; lia|].
  rewrite zlen_cons, Z.pow_add_r by (pose proof (zlen_nonneg l); lia).
  simpl. pose proof (ub_range b). lia.
Qed.

Lemma le_value_bytes n v : le_value (le_bytes n v) = v mod 256 ^ Z.of_nat n.
Proof.
  revert v. induction n as [|n IH]; intros v; simpl le_bytes; simpl le_value.
  - by rewrite Z.mod_1_r.
  - rewrite IH, ub_byte_of, Nat2Z.inj_succ, Z.pow_succ_r by lia.
    rewrite Z.rem_mul_r by lia. lia.
Qed.

Lemma le_value_bytes_small n v : 0 <= v < 256 ^ Z.of_nat n -> le_value (le_bytes n v) = v.
Proof. intros. rewrite le_value_bytes. by apply Z.mod_small. Qed.

Lemma le_bytes_value l : le_bytes (length l) (le_value l) = l.
Proof.
  induction l as [|b l IH]; [done|]. simpl. pose proof (ub_range b).
  replace ((ub b + 256 * le_value l) / 256) with (le_value l)
    by (rewrite Z.mul_comm, Z.div_add, Z.div_small by lia; lia).
  rewrite IH. f_equal. rewrite <- (byte_of_ub b) at 2. rewrite <- byte_of_mod.
  f_equal. rewrite Z.mul_comm, Z.mod_add by lia. by apply Z.mod_small.
Qed.

Lemma lor_disjoint_add a b n : 0 <= n -> 0 <= a < 2 ^ n ->
  Z.lor a (Z.shiftl b n) = a + b * 2 ^ n.
Proof.
  intros Hn Ha. rewrite <- Z.shiftl_mul_pow2 by lia.
  destruct (Z.eq_dec a 0) as [->|]; [by rewrite Z.lor_0_l|].
  rewrite <- Z.lxor_lor, <- Z.add_nocarry_lxor; try done.
  all: apply Z.bits_inj'; intros i Hi; rewrite Z.land_spec, Z.bits_0.
  all: destruct (Z.lt_ge_cases i n);
    [rewrite Z.shiftl_spec_low by lia; apply andb_false_r|].
  all: rewrite (Z.bits_above_log2 a i); [done|lia|].
  all: apply (Z.lt_le_trans _ n); [apply Z.log2_lt_pow2; lia|lia].
Qed.

(** ** Two's-complement integers *)

Definition wrap_u (w z : Z) : Z := z mod 2 ^ w.

(** [intw(z)]: the signed value of the low [w] bits of [z]. *)
Definition wrap_s (w z : Z) : Z :=
  let r := z mod 2 ^ w in if r <? 2 ^ (w - 1) then r else r - 2 ^ w.

Definition in_u (w z : Z) : Prop := 0 <= z < 2 ^ w.
Definition in_s (w z : Z) : Prop := - 2 ^ (w - 1) <= z < 2 ^ (w - 1).

Lemma wrap_s_u w z : 0 < w -> in_s w z -> wrap_s w (wrap_u w z) = z.
Proof.
  intros Hw H. unfold wrap_s, wrap_u, in_s in *.
  rewrite Z.mod_mod by (pose proof (Z.pow_pos_nonneg 2 w ltac:(lia) ltac:(lia)); lia).
  assert (E : 2 ^ w = 2 * 2 ^ (w - 1)) by (rewrite <- Z.pow_succ_r by lia; f_equal; lia).
  pose proof (Z.pow_pos_nonneg 2 (w - 1) ltac:(lia) ltac:(lia)).
  destruct (Z.lt_ge_cases z 0).
  - replace (z mod 2 ^ w) with (z + 2 ^ w)
      by (apply (Z.mod_unique _ _ (-1)); [left; lia|lia]).
    destruct (Z.ltb_spec (z + 2 ^ w) (2 ^ (w - 1))); lia.
  - rewrite Z.mod_small by lia. destruct (Z.ltb_spec z (2 ^ (w - 1))); lia.
Qed.

Lemma wrap_s_id w z : 0 < w -> in_s w z -> wrap_s w z = z.
Proof.
  intros Hw Hz. rewrite <- (wrap_s_u w z Hw Hz) at 2. unfold wrap_s, wrap_u. rewrite Z.mod_mod; [done|].
  pose proof (Z.pow_pos_nonneg 2 w). lia.
Qed.

Lemma wrap_s_range w z : 0 < w -> in_s w (wrap_s w z).
Proof.
  intros Hw. unfold wrap_s, in_s.
  assert (E : 2 ^ w = 2 * 2 ^ (w - 1)) by (rewrite <- Z.pow_succ_r by lia; f_equal; lia).
  pose proof (Z.pow_pos_nonneg 2 (w - 1) ltac:(lia) ltac:(lia)).
  pose proof (Z.mod_pos_bound z (2 ^ w) ltac:(lia)).
  destruct (Z.ltb_spec (z mod 2 ^ w) (2 ^ (w - 1))); lia.
Qed.

(** ** Splitting lists at a known length *)

Lemma zlen_split {A} (l : list A) n : 0 <= n <= zlen l ->
  exists l1 l2, l = l1 ++ l2 /\ zlen l1 = n.
Proof.
  intros H. exists (take (Z.to_nat n) l), (drop (Z.to_nat n) l).
  rewrite take_drop. split; [done|]. unfold zlen in *. rewrite length_take. lia.
Qed.

Lemma zlen_pos_cons {A} (l : list A) : 0 < zlen l -> exists x l', l = x :: l'.
Proof. destruct l; [unfold zlen; simpl; lia|eauto]. Qed.

(** ** Bitmaps: the flag [i] is bit [i mod 8] of byte [i / 8] *)

(** The bits of a list of flags as a number, least significant first. *)
Fixpoint bits_value (flags : list bool) : Z :=
  match flags with
  | [] => 0
  | b :: flags => (if b then 1 else 0) + 2 * bits_value flags
  end.

Lemma testbit_bits_value flags i : 0 <= i ->
  Z.testbit (bits_value flags) i = nth (Z.to_nat i) flags false.
Proof.
  revert i. induction flags as [|b flags IH]; intros i Hi; simpl bits_value.
  - rewrite Z.bits_0. by destruct (Z.to_nat i).
  - replace ((if b then 1 else 0) + 2 * bits_value flags)
      with (2 * bits_value flags + Z.b2z b) by (destruct b; simpl; lia).
    destruct (Z.eq_dec i 0) as [->|Hn].
    + by rewrite Z.testbit_0_r.
    + replace i with (Z.succ (i - 1)) by lia. rewrite Z.testbit_succ_r, IH by lia.
      by rewrite Z2Nat.inj_succ by lia.
Qed.

Lemma land_bit a k : 0 <= k -> negb (Z.land a (Z.shiftl 1 k) =? 0) = Z.testbit a k.
Proof.
  intros Hk. rewrite Z.shiftl_1_l.
  assert (Z.land a (2 ^ k) = if Z.testbit a k then 2 ^ k else 0) as ->.
  { apply Z.bits_inj'. intros i Hi. rewrite Z.land_spec.
    destruct (Z.eq_dec i k) as [->|Hne].
    - rewrite Z.pow2_bits_true by lia. destruct (Z.testbit a k);
        [by rewrite Z.pow2_bits_true by lia|by rewrite Z.bits_0].
    - rewrite Z.pow2_bits_false by lia. rewrite andb_false_r.
      destruct (Z.testbit a k); [by rewrite Z.pow2_bits_false by lia|by rewrite Z.bits_0]. }
  destruct (Z.testbit a k); [|done].
  pose proof (Z.pow_pos_nonneg 2 k ltac:(lia) Hk).
  destruct (Z.eqb_spec (2 ^ k) 0); [lia|done].
Qed.

Lemma lookup_le_bytes k : forall n v, (k < n)%nat ->
  le_bytes n v !! k = Some (byte_of (v / 256 ^ Z.of_nat k)).
Proof.
  induction k as [|k IH]; intros [|n] v Hk; try lia; simpl le_bytes; simpl lookup.
  - by rewrite Z.div_1_r.
  - rewrite IH by lia. rewrite Z.div_div by lia.
    rewrite <- Z.pow_succ_r, <- Nat2Z.inj_succ by lia. done.
Qed.

Lemma index_le_bytes n v j : 0 <= j < Z.of_nat n ->
  index (le_bytes n v) j = Ok (byte_of (v / 256 ^ j)).
Proof.
  intros Hj. unfold index. destruct (Z.ltb_spec j 0); [lia|].
  rewrite lookup_le_bytes by lia. by rewrite Z2Nat.id by lia.
Qed.

Lemma bitmap_test n v i : 0 <= i -> i / 8 < Z.of_nat n ->
  exists b, index (le_bytes n v) (i / 8) = Ok b /\
    negb (Z.land (ub b) (Z.shiftl 1 (i mod 8)) =? 0) = Z.testbit v i.
Proof.
  intros Hi Hn. pose proof (Z.div_pos i 8 Hi ltac:(lia)). pose proof (Z.mod_pos_bound i 8 ltac:(lia)).
  eexists. split; [by apply index_le_bytes|]. rewrite land_bit, ub_byte_of by lia.
  change 256 with (2 ^ 8) at 2. rewrite Z.mod_pow2_bits_low by lia.
  change 256 with (2 ^ 8). rewrite <- Z.pow_mul_r, Z.div_pow2_bits by lia.
  f_equal. pose proof (Z.div_mod i 8). lia.
Qed.

(** Two bytes are equal when their eight bits are. *)
Lemma byte_of_bits x y : (forall i, 0 <= i < 8 -> Z.testbit x i = Z.testbit y i) ->
  byte_of x = byte_of y.
Proof.
  intros H. apply ub_inj. rewrite !ub_byte_of. change 256 with (2 ^ 8).
  apply Z.bits_inj'. intros i Hi. destruct (Z.lt_ge_cases i 8).
  - rewrite !Z.mod_pow2_bits_low by lia. by apply H.
  - by rewrite !Z.mod_pow2_bits_high by lia.
Qed.

Lemma testbit_byte_of x i : 0 <= i < 8 -> Z.testbit (ub (byte_of x)) i = Z.testbit x i.
Proof. intros Hi. rewrite ub_byte_of. change 256 with (2 ^ 8). apply Z.mod_pow2_bits_low. lia. Qed.

(** Setting a bit of a bitmap sets the bit of the number it stands for. *)
Lemma le_bytes_set_bit n v k : 0 <= k -> k / 8 < Z.of_nat n ->
  <[Z.to_nat (k / 8) :=
      byte_of (Z.lor (ub (byte_of (v / 256 ^ (k / 8)))) (Z.shiftl 1 (k mod 8)))]> (le_bytes n v)
  = le_bytes n (Z.lor v (2 ^ k)).
Proof.
  intros Hk Hn. pose proof (Z.div_pos k 8 Hk ltac:(lia)).
  pose proof (Z.mod_pos_bound k 8 ltac:(lia)). pose proof (Z.div_mod k 8 ltac:(lia)) as Hdm.
  apply list_eq. intros j. destruct (decide (j < n)%nat) as [Hj|Hj].
  2:{ rewrite !lookup_ge_None_2; [done|rewrite le_bytes_length; lia|].
      rewrite length_insert, le_bytes_length. lia. }
  assert (Hbit : forall a i, 0 <= i < 8 ->
    Z.testbit (a / 256 ^ Z.of_nat j) i = Z.testbit a (i + 8 * Z.of_nat j)).
  { intros a i Hi. change 256 with (2 ^ 8). rewrite <- Z.pow_mul_r, Z.div_pow2_bits by lia. done. }
  rewrite (lookup_le_bytes j n (Z.lor v (2 ^ k)) Hj).
  destruct (decide (j = Z.to_nat (k / 8))) as [Ej|Ej].
  - rewrite <- Ej, list_lookup_insert_eq by (rewrite le_bytes_length; lia). f_equal.
    replace (k / 8) with (Z.of_nat j) by lia. apply byte_of_bits. intros i Hi.
    rewrite Hbit, !Z.lor_spec, testbit_byte_of, Hbit, Z.shiftl_1_l, !Z.pow2_bits_eqb by lia.
    f_equal. destruct (Z.eqb_spec (k mod 8) i), (Z.eqb_spec k (i + 8 * Z.of_nat j)); lia.
  - rewrite list_lookup_insert_ne, lookup_le_bytes by lia. f_equal. apply byte_of_bits. intros i Hi.
    rewrite !Hbit, Z.lor_spec, Z.pow2_bits_eqb by lia.
    destruct (Z.eqb_spec k (i + 8 * Z.of_nat j)); [lia|]. by rewrite orb_false_r.
Qed.

Lemma bits_value_range flags : 0 <= bits_value flags < 2 ^ zlen flags.
Proof.
  induction flags as [|b flags IH]; [done|]. cbn [bits_value].
  rewrite zlen_cons, Z.pow_add_r by (pose proof (zlen_nonneg flags); lia). destruct b; lia.
Qed.

Lemma bits_value_snoc flags b :
  bits_value (flags ++ [b]) = Z.lor (bits_value flags) (if b then 2 ^ zlen flags else 0).
Proof.
  pose proof (zlen_nonneg flags). pose proof (bits_value_range flags).
  assert (bits_value (flags ++ [b]) = bits_value flags + (if b then 1 else 0) * 2 ^ zlen flags) as ->.
  { clear. induction flags as [|a flags IH]; cbn [app bits_value]; [destruct b; done|].
    rewrite IH, zlen_cons, Z.pow_add_r by (pose proof (zlen_nonneg flags); lia). lia. }
  destruct b; [|rewrite Z.lor_0_r; lia].
  rewrite <- (lor_disjoint_add (bits_value flags) 1 (zlen flags)) by lia.
  by rewrite Z.shiftl_1_l.
Qed.
