(* ===== verification/GoState.v ===== *)
(** * Computations on a state that may fail

    Code that works on shared state and may return an error or panic: a function
    from the state to an outcome and the state afterwards.  The state survives an
    error, as the fields of a Go object do. *)

From S2P Require Import Prelude.

Definition stgo (S A : Type) : Type := S -> go A * S.

#[export] Instance stgo_ret {S} : MRet (stgo S) := fun A a s => (Ok a, s).
#[export] Instance stgo_bind {S} : MBind (stgo S) := fun A B f m s =>
  match m s with
  | (Ok a, s1) => f a s1
  | (Err e, s1) => (Err e, s1)
  | (Panic, s1) => (Panic, s1)
  end.

(** An outcome that does not touch the state. *)
Definition lift {S A} (m : go A) : stgo S A := fun s => (m, s).

(** [m] with its error as a value. *)
Definition try_ {S A} (m : stgo S A) : stgo S (A + error) := fun s =>
  match m s with
  | (Ok a, s1) => (Ok (inl a), s1)
  | (Err e, s1) => (Ok (inr e), s1)
  | (Panic, s1) => (Panic, s1)
  end.

Definition err_of {A} (r : A + error) : option error :=
  match r with inl _ => None | inr e => Some e end.

Definition outcome_of {A} (r : A + error) : go A :=
  match r with inl a => Ok a | inr e => Err e end.

(** ** Running *)

Section Running.

Context {S : Type}.

Lemma bind_run {A B} (m : stgo S A) (f : A -> stgo S B) s a s1 :
  m s = (Ok a, s1) -> (m ≫= f) s = f a s1.
Proof. intros E. unfold mbind, stgo_bind. by rewrite E. Qed.

Lemma bind_err {A B} (m : stgo S A) (f : A -> stgo S B) s e s1 :
  m s = (Err e, s1) -> (m ≫= f) s = (Err e, s1).
Proof. intros E. unfold mbind, stgo_bind. by rewrite E. Qed.

Lemma bind_lift {A B} (m : go A) (f : A -> stgo S B) s :
  (lift m ≫= f) s = match m with Ok a => f a s | Err e => (Err e, s) | Panic => (Panic, s) end.
Proof. done. Qed.

Lemma try_ok {A} (m : stgo S A) s a s1 : m s = (Ok a, s1) -> try_ m s = (Ok (inl a), s1).
Proof. intros E. unfold try_. by rewrite E. Qed.

Lemma try_err {A} (m : stgo S A) s e s1 : m s = (Err e, s1) -> try_ m s = (Ok (inr e), s1).
Proof. intros E. unfold try_. by rewrite E. Qed.

(** [m] relates the states before and after by [R], whatever its outcome. *)
Definition keeps {A} (R : S -> S -> Prop) (m : stgo S A) : Prop := forall s, R s (m s).2.

Lemma keeps_bind {A B} R (m : stgo S A) (f : A -> stgo S B) :
  (forall s1 s2 s3, R s1 s2 -> R s2 s3 -> R s1 s3) ->
  keeps R m -> (forall a, keeps R (f a)) -> keeps R (m ≫= f).
Proof.
  intros HT Hm Hf s. specialize (Hm s). unfold mbind, stgo_bind.
  destruct (m s) as [[a|e|] s1]; [|exact Hm..]. eapply HT; [exact Hm|apply Hf].
Qed.

Lemma try_keeps {A} R (m : stgo S A) : keeps R m -> keeps R (try_ m).
Proof. intros Hm s. specialize (Hm s). unfold try_. by destruct (m s) as [[]]. Qed.

(** [m] does not panic. *)
Definition calm {A} (m : stgo S A) : Prop := forall s, (m s).1 <> Panic.

Lemma calm_bind {A B} (m : stgo S A) (f : A -> stgo S B) :
  calm m -> (forall a, calm (f a)) -> calm (m ≫= f).
Proof.
  intros Hm Hf s. specialize (Hm s). unfold mbind, stgo_bind.
  destruct (m s) as [[a|e|] s1]; [apply Hf|done..].
Qed.

Lemma calm_lift {A} (m : go A) : safe m -> calm (lift m).
Proof. by intros Hm s. Qed.

Lemma calm_ret {A} (a : A) : calm (mret a).
Proof. by intros s. Qed.

Lemma calm_try {A} (m : stgo S A) s : calm m ->
  exists r s', try_ m s = (Ok r, s') /\ m s = (outcome_of r, s').
Proof.
  intros Hm. specialize (Hm s). unfold try_. destruct (m s) as [[a|e|] s1]; [..|done].
  - by exists (inl a), s1.
  - by exists (inr e), s1.
Qed.

End Running.
