(* ===== verification/GoFs.v ===== *)
(** * Files

    What the code uses of package [os], over a file system that maps path names
    to files.  Each operation asks the list of coming faults whether it fails;
    a failing write has stored a part of its data.  Directories are not
    represented: creating one only fails or not. *)

From S2P Require Import Prelude GoState.

(** The first [synced] bytes of the contents are known to be on disk. *)
Record File : Type := mkFile { contents : bytes; synced : nat }.

Record FS : Type := mkFS { files : gmap bytes File; faults : list (option (nat * error)) }.

Abbreviation io := (stgo FS).

(** The outcome of the next operation; none fails after the end of the list. *)
Definition nextFault : io (option (nat * error)) := fun fs =>
  match faults fs with
  | [] => (Ok None, fs)
  | f :: rest => (Ok f, mkFS (files fs) rest)
  end.

Definition getFile (path : bytes) : io (option File) := fun fs => (Ok (files fs !! path), fs).

Definition putFile (path : bytes) (f : File) : io unit := fun fs =>
  (Ok tt, mkFS (<[path := f]> (files fs)) (faults fs)).

Definition dropFile (path : bytes) : io unit := fun fs =>
  (Ok tt, mkFS (delete path (files fs)) (faults fs)).

(** An operation that fails with the error of the next fault, or runs [m]. *)
Definition mayFail {A} (m : io A) : io A :=
  f ← nextFault; match f with Some (_, e) => lift (Err e) | None => m end.

Definition ReadFile (path : bytes) : io bytes :=
  mayFail (f ← getFile path;
           match f with Some f => mret (contents f) | None => lift (Err ErrNotExist) end).

(** [os.Stat]: the size. *)
Definition Stat (path : bytes) : io Z :=
  mayFail (f ← getFile path;
           match f with Some f => mret (zlen (contents f)) | None => lift (Err ErrNotExist) end).

Definition MkdirAll : io unit := mayFail (mret tt).

(** [os.OpenFile] with [O_CREATE|O_TRUNC|O_WRONLY] and with [O_CREATE|O_APPEND|O_WRONLY]. *)
Definition OpenTrunc (path : bytes) : io unit := mayFail (putFile path (mkFile [] 0)).

Definition OpenAppend (path : bytes) : io unit :=
  mayFail (f ← getFile path;
           match f with Some _ => mret tt | None => putFile path (mkFile [] 0) end).

(** [os.Open] and [os.OpenFile] with [O_WRONLY], which need the file. *)
Definition OpenExisting (path : bytes) : io unit :=
  mayFail (f ← getFile path;
           match f with Some _ => mret tt | None => lift (Err ErrNotExist) end).

(** What a reader of the open file gets before the end or an error. *)
Definition ReadStream (path : bytes) : io (bytes * option error) :=
  f ← nextFault;
  old ← getFile path;
  let data := match old with Some f => contents f | None => [] end in
  mret (match f with Some (n, e) => (take n data, Some e) | None => (data, None) end).

(** [file.Write] at the end of the file. *)
Definition AppendFile (path : bytes) (data : bytes) : io unit :=
  f ← nextFault;
  old ← getFile path;
  let old := default (mkFile [] 0) old in
  match f with
  | Some (n, e) =>
    putFile path (mkFile (contents old ++ take n data) (synced old)) ≫= fun _ => lift (Err e)
  | None => putFile path (mkFile (contents old ++ data) (synced old))
  end.

Definition Sync (path : bytes) : io unit :=
  mayFail (f ← getFile path;
           match f with
           | Some f => putFile path (mkFile (contents f) (length (contents f)))
           | None => mret tt
           end).

Definition Truncate (path : bytes) (size : Z) : io unit :=
  mayFail (f ← getFile path;
           match f with
           | Some f =>
             let kept := take (Z.to_nat size) (contents f) in
             putFile path (mkFile kept (Nat.min (synced f) (length kept)))
           | None => lift (Err ErrNotExist)
           end).

Definition CloseFile : io unit := mayFail (mret tt).

Definition Rename (from to : bytes) : io unit :=
  mayFail (f ← getFile from;
           match f with
           | Some f => dropFile from ≫= fun _ => putFile to f
           | None => lift (Err ErrNotExist)
           end).

Definition Remove (path : bytes) : io unit :=
  mayFail (f ← getFile path;
           match f with Some _ => dropFile path | None => lift (Err ErrNotExist) end).

(** [os.WriteFile]: open, write, close. *)
Definition WriteFile (path : bytes) (data : bytes) : io unit :=
  OpenTrunc path ≫= fun _ =>
  written ← try_ (AppendFile path data);
  closed ← try_ CloseFile;
  match err_of written, err_of closed with
  | Some e, _ => lift (Err e)
  | None, Some e => lift (Err e)
  | None, None => mret tt
  end.

(** ** Lemmas *)

(** The coming operations do not fail. *)
Definition healthy (fs : FS) : Prop := Forall (eq None) (faults fs).

Lemma nextFault_healthy fs : healthy fs ->
  exists rest, nextFault fs = (Ok None, mkFS (files fs) rest) /\ healthy (mkFS (files fs) rest).
Proof.
  unfold healthy, nextFault. destruct fs as [m [|f fl]]; simpl; intros Hf; [by exists []|].
  apply Forall_cons in Hf as [<- Hf]. by exists fl.
Qed.

Lemma mayFail_healthy {A} (m : io A) fs : healthy fs ->
  exists rest, mayFail m fs = m (mkFS (files fs) rest) /\ healthy (mkFS (files fs) rest).
Proof.
  intros Hf. destruct (nextFault_healthy fs Hf) as (rest & E & Hr). exists rest.
  unfold mayFail. by rewrite (bind_run _ _ _ _ _ E).
Qed.

Lemma ReadFile_healthy path fs : healthy fs ->
  exists fs', ReadFile path fs =
    (match files fs !! path with Some f => Ok (contents f) | None => Err ErrNotExist end, fs') /\
    files fs' = files fs /\ healthy fs'.
Proof.
  intros Hf. edestruct (mayFail_healthy (A := bytes)) as (rest & E & Hr); [done|].
  exists (mkFS (files fs) rest). unfold ReadFile. rewrite E. unfold getFile, mbind, stgo_bind. simpl.
  by destruct (files fs !! path).
Qed.

Lemma Stat_healthy path fs : healthy fs ->
  exists fs', Stat path fs =
    (match files fs !! path with Some f => Ok (zlen (contents f)) | None => Err ErrNotExist end, fs') /\
    files fs' = files fs /\ healthy fs'.
Proof.
  intros Hf. edestruct (mayFail_healthy (A := Z)) as (rest & E & Hr); [done|].
  exists (mkFS (files fs) rest). unfold Stat. rewrite E. unfold getFile, mbind, stgo_bind. simpl.
  by destruct (files fs !! path).
Qed.

Lemma MkdirAll_healthy fs : healthy fs ->
  exists fs', MkdirAll fs = (Ok tt, fs') /\ files fs' = files fs /\ healthy fs'.
Proof.
  intros Hf. destruct (mayFail_healthy (mret tt) fs Hf) as (rest & E & Hr).
  by exists (mkFS (files fs) rest).
Qed.

Lemma OpenExisting_healthy path fs : healthy fs ->
  exists fs', OpenExisting path fs =
    (match files fs !! path with Some _ => Ok tt | None => Err ErrNotExist end, fs') /\
    files fs' = files fs /\ healthy fs'.
Proof.
  intros Hf. edestruct (mayFail_healthy (A := unit)) as (rest & E & Hr); [done|].
  exists (mkFS (files fs) rest). unfold OpenExisting. rewrite E. unfold getFile, mbind, stgo_bind. simpl.
  by destruct (files fs !! path).
Qed.

Lemma ReadStream_healthy path fs : healthy fs ->
  exists fs', ReadStream path fs =
    (Ok (match files fs !! path with Some f => contents f | None => [] end, None), fs') /\
    files fs' = files fs /\ healthy fs'.
Proof.
  intros Hf. destruct (nextFault_healthy fs Hf) as (rest & E & Hr). exists (mkFS (files fs) rest).
  unfold ReadStream. by rewrite (bind_run _ _ _ _ _ E).
Qed.

Lemma CloseFile_healthy fs : healthy fs ->
  exists fs', CloseFile fs = (Ok tt, fs') /\ files fs' = files fs /\ healthy fs'.
Proof. exact (MkdirAll_healthy fs). Qed.

Lemma Sync_healthy path f fs : healthy fs -> files fs !! path = Some f ->
  exists fs', Sync path fs = (Ok tt, fs') /\ healthy fs' /\
    files fs' = <[path := mkFile (contents f) (length (contents f))]> (files fs).
Proof.
  intros Hf Hp. edestruct (mayFail_healthy (A := unit)) as (rest & E & Hr); [done|].
  unfold Sync. rewrite E. unfold getFile, mbind, stgo_bind. simpl. rewrite Hp. by eexists (mkFS _ rest).
Qed.

Lemma Truncate_healthy path size f fs : healthy fs -> files fs !! path = Some f ->
  exists fs' n, Truncate path size fs = (Ok tt, fs') /\ healthy fs' /\
    files fs' = <[path := mkFile (take (Z.to_nat size) (contents f)) n]> (files fs).
Proof.
  intros Hf Hp. edestruct (mayFail_healthy (A := unit)) as (rest & E & Hr); [done|].
  unfold Truncate. rewrite E. unfold getFile, mbind, stgo_bind. simpl. rewrite Hp. by eexists (mkFS _ rest), _.
Qed.

Lemma OpenAppend_healthy path fs : healthy fs ->
  exists fs', OpenAppend path fs = (Ok tt, fs') /\ healthy fs' /\
    files fs' = match files fs !! path with Some _ => files fs | None => <[path := mkFile [] 0]> (files fs) end.
Proof.
  intros Hf. edestruct (mayFail_healthy (A := unit)) as (rest & E & Hr); [done|].
  unfold OpenAppend. rewrite E. unfold getFile, mbind, stgo_bind. simpl.
  destruct (files fs !! path); by eexists (mkFS _ rest).
Qed.

Lemma AppendFile_healthy path data fs : healthy fs ->
  exists fs', AppendFile path data fs = (Ok tt, fs') /\ healthy fs' /\
    let old := default (mkFile [] 0) (files fs !! path) in
    files fs' = <[path := mkFile (contents old ++ data) (synced old)]> (files fs).
Proof.
  intros Hf. destruct (nextFault_healthy fs Hf) as (rest & E & Hr). unfold AppendFile.
  rewrite (bind_run _ _ _ _ _ E). by eexists (mkFS _ rest).
Qed.

Lemma WriteFile_healthy path data fs : healthy fs ->
  exists fs', WriteFile path data fs = (Ok tt, fs') /\ healthy fs' /\
    files fs' = <[path := mkFile data 0]> (files fs).
Proof.
  intros Hf. unfold WriteFile.
  destruct (mayFail_healthy (putFile path (mkFile [] 0)) fs Hf) as (r1 & E1 & H1).
  set (fs1 := mkFS (<[path := mkFile [] 0]> (files fs)) r1).
  change (OpenTrunc path fs = (Ok tt, fs1)) in E1. rewrite (bind_run _ _ _ _ _ E1).
  destruct (AppendFile_healthy path data fs1 H1) as (fs2 & E2 & H2 & F2).
  destruct (mayFail_healthy (mret tt) fs2 H2) as (r3 & E3 & H3).
  rewrite (bind_run _ _ _ (inl tt) fs2) by (unfold try_; by rewrite E2).
  rewrite (bind_run _ _ _ (inl tt) (mkFS (files fs2) r3)) by (unfold try_, CloseFile; by rewrite E3).
  exists (mkFS (files fs2) r3). split_and!; [done..|]. simpl in *. rewrite F2, lookup_insert_eq. simpl.
  apply insert_insert_eq.
Qed.

(** Faults do not pretend that a file is missing. *)
Definition honest (fs : FS) : Prop := Forall (fun f => forall n, f <> Some (n, ErrNotExist)) (faults fs).

Lemma healthy_honest fs : healthy fs -> honest fs.
Proof. intros Hf. eapply Forall_impl; [exact Hf|]. by intros f <- n. Qed.

Lemma nextFault_files fs : exists f rest, nextFault fs = (Ok f, mkFS (files fs) rest) /\
  (honest fs -> honest (mkFS (files fs) rest) /\ forall n, f <> Some (n, ErrNotExist)).
Proof.
  unfold nextFault, honest. destruct fs as [m [|f fl]]; simpl.
  - exists None, []. split; [done|]. by intros _.
  - exists f, fl. split; [done|]. by intros [Hf Hr]%Forall_cons.
Qed.

Lemma mayFail_cases {A} (m : io A) fs :
  exists rest, (honest fs -> honest (mkFS (files fs) rest)) /\
  (mayFail m fs = m (mkFS (files fs) rest) \/
   exists e, mayFail m fs = (Err e, mkFS (files fs) rest) /\ (honest fs -> e <> ErrNotExist)).
Proof.
  destruct (nextFault_files fs) as (f & rest & E & Hh). exists rest. split; [intros; by apply Hh|].
  unfold mayFail. rewrite (bind_run _ _ _ _ _ E). destruct f as [[n e]|]; [right|by left].
  exists e. split; [done|]. intros Hf ->. by apply (proj2 (Hh Hf) n).
Qed.

Lemma ReadFile_cases path fs r fs' : ReadFile path fs = (r, fs') ->
  files fs' = files fs /\ (honest fs -> honest fs') /\
  (forall data, r = Ok data -> exists f, files fs !! path = Some f /\ contents f = data).
Proof.
  unfold ReadFile. edestruct (mayFail_cases (A := bytes)) as (rest & Hh & [->|(e & -> & He)]).
  - unfold getFile, mbind, stgo_bind. simpl. destruct (files fs !! path) as [f|] eqn:E; intros [= <- <-];
      (split_and!; [done..|]); intros data [=]; subst; eauto.
  - intros [= <- <-]. by split_and!.
Qed.

Lemma Stat_cases path fs r fs' : Stat path fs = (r, fs') ->
  files fs' = files fs /\ (honest fs -> honest fs') /\
  (forall n, r = Ok n -> is_Some (files fs !! path)) /\
  (honest fs -> r = Err ErrNotExist -> files fs !! path = None).
Proof.
  unfold Stat. edestruct (mayFail_cases (A := Z)) as (rest & Hh & [->|(e & -> & He)]).
  - unfold getFile, mbind, stgo_bind. simpl. destruct (files fs !! path) as [f|] eqn:E; intros [= <- <-];
      by split_and!.
  - intros [= <- <-]. split_and!; try done. intros Hf [= ->]. by destruct (He Hf).
Qed.

Lemma AppendFile_cases path data fs : let old := default (mkFile [] 0) (files fs !! path) in
  exists rest, (honest fs -> honest (mkFS (files fs) rest)) /\
  (AppendFile path data fs =
     (Ok tt, mkFS (<[path := mkFile (contents old ++ data) (synced old)]> (files fs)) rest) \/
   exists n e, AppendFile path data fs =
     (Err e, mkFS (<[path := mkFile (contents old ++ take n data) (synced old)]> (files fs)) rest)).
Proof.
  destruct (nextFault_files fs) as (f & rest & E & Hh). exists rest. split; [intros; by apply Hh|].
  unfold AppendFile. rewrite (bind_run _ _ _ _ _ E). destruct f as [[n e]|]; [right|by left].
  by exists n, e.
Qed.

Lemma CloseFile_cases fs : exists rest, (honest fs -> honest (mkFS (files fs) rest)) /\
  (CloseFile fs = (Ok tt, mkFS (files fs) rest) \/
   exists e, CloseFile fs = (Err e, mkFS (files fs) rest)).
Proof.
  destruct (mayFail_cases (mret tt) fs) as (rest & Hh & [E|(e & E & _)]); exists rest; eauto.
Qed.

Lemma Sync_cases path f fs : files fs !! path = Some f ->
  exists rest, (honest fs -> honest (mkFS (files fs) rest)) /\
  (Sync path fs = (Ok tt, mkFS (<[path := mkFile (contents f) (length (contents f))]> (files fs)) rest) \/
   exists e, Sync path fs = (Err e, mkFS (files fs) rest)).
Proof.
  intros Hp. unfold Sync. edestruct (mayFail_cases (A := unit)) as (rest & Hh & [->|(e & -> & He)]);
    exists rest; (split; [done|]); [left|right; eauto].
  unfold getFile, mbind, stgo_bind. simpl. by rewrite Hp.
Qed.

(** A write that reports success has stored the data. *)
Lemma WriteFile_ok path data fs fs' : WriteFile path data fs = (Ok tt, fs') ->
  files fs' = <[path := mkFile data 0]> (files fs) /\ (honest fs -> honest fs').
Proof.
  unfold WriteFile, OpenTrunc.
  edestruct (mayFail_cases (putFile path (mkFile [] 0)) fs) as (r1 & H1 & [E1|(e & E1 & _)]);
    [|by rewrite (bind_err _ _ _ _ _ E1)].
  set (fs1 := mkFS (<[path := mkFile [] 0]> (files fs)) r1).
  rewrite (bind_run _ _ _ tt fs1) by done.
  destruct (AppendFile_cases path data fs1) as (r2 & H2 & [E2|(n & e & E2)]);
    [rewrite (bind_run _ _ _ _ _ (try_ok _ _ _ _ E2))|rewrite (bind_run _ _ _ _ _ (try_err _ _ _ _ E2))].
  - edestruct CloseFile_cases as (r3 & H3 & [E3|(e3 & E3)]);
      [rewrite (bind_run _ _ _ _ _ (try_ok _ _ _ _ E3))|by rewrite (bind_run _ _ _ _ _ (try_err _ _ _ _ E3))].
    intros [= <-]. simpl in *. rewrite lookup_insert_eq in *. split; [by rewrite insert_insert_eq|].
    intros Hf. apply H3, H2, H1, Hf.
  - edestruct CloseFile_cases as (r3 & H3 & [E3|(e3 & E3)]);
      [by rewrite (bind_run _ _ _ _ _ (try_ok _ _ _ _ E3))|by rewrite (bind_run _ _ _ _ _ (try_err _ _ _ _ E3))].
Qed.

(** The operations on one path leave the other files alone. *)
Definition sameExcept (q : bytes) (fs fs' : FS) : Prop := forall p, p <> q -> files fs' !! p = files fs !! p.

Lemma sameExcept_trans q fs1 fs2 fs3 : sameExcept q fs1 fs2 -> sameExcept q fs2 fs3 -> sameExcept q fs1 fs3.
Proof. intros H1 H2 p Hp. by rewrite H2, H1. Qed.

Lemma sameExcept_insert q f fs rest : sameExcept q fs (mkFS (<[q := f]> (files fs)) rest).
Proof. intros p Hp. simpl. by rewrite lookup_insert_ne. Qed.

Lemma OpenTrunc_cases q fs :
  exists rest, OpenTrunc q fs = (Ok tt, mkFS (<[q := mkFile [] 0]> (files fs)) rest) \/
  exists e, OpenTrunc q fs = (Err e, mkFS (files fs) rest).
Proof.
  destruct (mayFail_cases (putFile q (mkFile [] 0)) fs) as (rest & _ & [E|(e & E & _)]); exists rest; eauto.
Qed.

Lemma Remove_keeps q : keeps (sameExcept q) (Remove q).
Proof.
  intros fs. unfold Remove. edestruct (mayFail_cases (A := unit)) as (rest & _ & [E|(e & E & _)]); rewrite E; [|done].
  unfold getFile, mbind, stgo_bind. simpl. destruct (files fs !! q); [|done].
  intros p Hp. simpl. by rewrite lookup_delete_ne.
Qed.

Lemma Rename_cases a b f fs : files fs !! a = Some f ->
  exists rest, Rename a b fs = (Ok tt, mkFS (<[b := f]> (delete a (files fs))) rest) \/
  exists e, Rename a b fs = (Err e, mkFS (files fs) rest).
Proof.
  intros Hf. unfold Rename. edestruct (mayFail_cases (A := unit)) as (rest & _ & [E|(e & E & _)]); exists rest;
    rewrite E; [left|right; eauto].
  unfold getFile, mbind, stgo_bind. simpl. by rewrite Hf.
Qed.

(** The operations whose errors are kept as values. *)
Lemma try_AppendFile q data f fs : files fs !! q = Some f ->
  exists r fs' f', try_ (AppendFile q data) fs = (Ok r, fs') /\ sameExcept q fs fs' /\ files fs' !! q = Some f' /\
    (err_of r = None -> contents f' = contents f ++ data).
Proof.
  intros Hf. pose proof (AppendFile_cases q data fs) as H. rewrite Hf in H. cbn [default] in H. unfold id in H.
  destruct H as (rest & _ & [E|(n & e & E)]).
  - rewrite (try_ok _ _ _ _ E). do 3 eexists. split_and!; [done|apply sameExcept_insert|apply lookup_insert_eq|done].
  - rewrite (try_err _ _ _ _ E). do 3 eexists. split_and!; [done|apply sameExcept_insert|apply lookup_insert_eq|done].
Qed.

Lemma try_Sync q f fs : files fs !! q = Some f ->
  exists r fs' f', try_ (Sync q) fs = (Ok r, fs') /\ sameExcept q fs fs' /\ files fs' !! q = Some f' /\
    contents f' = contents f /\ (err_of r = None -> synced f' = length (contents f)).
Proof.
  intros Hf. destruct (Sync_cases q f fs Hf) as (rest & _ & [E|(e & E)]).
  - rewrite (try_ok _ _ _ _ E). do 3 eexists. split_and!; [done|apply sameExcept_insert|apply lookup_insert_eq|done..].
  - rewrite (try_err _ _ _ _ E). by exists (inr e), (mkFS (files fs) rest), f.
Qed.

Lemma try_CloseFile fs : exists r fs', try_ CloseFile fs = (Ok r, fs') /\ files fs' = files fs.
Proof.
  destruct (CloseFile_cases fs) as (rest & _ & [E|(e & E)]).
  - rewrite (try_ok _ _ _ _ E). by eexists _, (mkFS (files fs) rest).
  - rewrite (try_err _ _ _ _ E). by eexists _, (mkFS (files fs) rest).
Qed.
