(* ===== verification/Utf8.v ===== *)
(** * UTF-8

    Bytes as the encodings of runes ([unicode/utf8]): [units] splits a string
    into the encodings it contains and the bytes that belong to none. *)

From S2P Require Import Prelude.

(** [b] is between [lo] and [hi]. *)
Definition between (lo hi : Z) (b : byte) : bool := (lo <=? ub b) && (ub b <=? hi).

Definition continuation : byte -> bool := between 0x80 0xbf.

(** The length of the encoding at the start of [s], 0 when there is none. *)
Definition runeLength (s : bytes) : nat :=
  match s with
  | [] => 0%nat
  | b0 :: s =>
    if ub b0 <? 0x80 then 1%nat
    else match s with
    | b1 :: s =>
      if between 0xc2 0xdf b0 then (if continuation b1 then 2%nat else 0%nat)
      else match s with
      | b2 :: s =>
        let ok3 :=
          if ub b0 =? 0xe0 then between 0xa0 0xbf b1
          else if ub b0 =? 0xed then between 0x80 0x9f b1
          else between 0xe1 0xef b0 && continuation b1 in
        if ok3 then (if continuation b2 then 3%nat else 0%nat)
        else match s with
        | b3 :: _ =>
          let ok4 :=
            if ub b0 =? 0xf0 then between 0x90 0xbf b1
            else if ub b0 =? 0xf4 then between 0x80 0x8f b1
            else between 0xf1 0xf3 b0 && continuation b1 in
          if ok4 && continuation b2 && continuation b3 then 4%nat else 0%nat
        | [] => 0%nat
        end
      | [] => 0%nat
      end
    | [] => 0%nat
    end
  end.

(** A rune's encoding, or a byte that is part of none. *)
Inductive unit8 : Type :=
  | Rune (enc : bytes)
  | BadByte (b : byte).

(** [skip] bytes belong to the rune just seen. *)
Fixpoint unitsFrom (skip : nat) (s : bytes) : list unit8 :=
  match s with
  | [] => []
  | b :: rest =>
    match skip with
    | S skip => unitsFrom skip rest
    | O =>
      match runeLength s with
      | O => BadByte b :: unitsFrom 0 rest
      | S n => Rune (take (S n) s) :: unitsFrom n rest
      end
    end
  end.

Definition units (s : bytes) : list unit8 := unitsFrom 0 s.

Definition unit_bytes (u : unit8) : bytes := match u with Rune enc => enc | BadByte b => [b] end.

(** [utf8.EncodeRune] of the replacement character. *)
Definition replacement : bytes := [byte_of 0xef; byte_of 0xbf; byte_of 0xbd].

(** The string with every byte outside an encoding replaced ([strings.ToValidUTF8]
    one byte at a time, which is what decoding rune by rune does). *)
Definition sanitize_unit (u : unit8) : bytes := match u with Rune enc => enc | BadByte _ => replacement end.

Definition sanitize (s : bytes) : bytes := concat (map sanitize_unit (units s)).

(** [utf8.Valid] *)
Definition valid8 (s : bytes) : bool :=
  forallb (fun u => match u with Rune _ => true | BadByte _ => false end) (units s).

(** [utf8.EncodeRune] for runes below 0x10000 that are not surrogates, and above. *)
Definition encodeRune (r : Z) : bytes :=
  if r <? 0x80 then [byte_of r]
  else if r <? 0x800 then [byte_of (0xc0 + r / 64); byte_of (0x80 + r mod 64)]
  else if r <? 0x10000 then
    [byte_of (0xe0 + r / 4096); byte_of (0x80 + (r / 64) mod 64); byte_of (0x80 + r mod 64)]
  else
    [byte_of (0xf0 + r / 262144); byte_of (0x80 + (r / 4096) mod 64);
     byte_of (0x80 + (r / 64) mod 64); byte_of (0x80 + r mod 64)].

(** ** Lemmas *)

Lemma runeLength_le s : (runeLength s <= length s)%nat.
Proof.
  destruct s as [|b0 [|b1 [|b2 [|b3 s]]]]; simpl; repeat case_match; simpl; lia.
Qed.

Lemma runeLength_4 s : (runeLength s <= 4)%nat.
Proof.
  destruct s as [|b0 [|b1 [|b2 [|b3 s]]]]; simpl; repeat case_match; simpl; lia.
Qed.

(** An encoding is recognised by its own bytes. *)
Lemma runeLength_app s rest : runeLength s <> O -> runeLength (take (runeLength s) s ++ rest) = runeLength s.
Proof.
  destruct s as [|b0 [|b1 [|b2 [|b3 s]]]]; [done|cbn [runeLength]..];
    repeat (case_match; try done); intros _; cbn [take app]; cbn [runeLength];
    repeat case_match; congruence.
Qed.

Lemma unitsFrom_skip skip : forall s, unitsFrom skip s = units (drop skip s).
Proof.
  induction skip as [|skip IH]; intros s; [by rewrite drop_0|].
  destruct s as [|b s]; [done|]. cbn [unitsFrom drop]. apply IH.
Qed.

Lemma units_bad b s : runeLength (b :: s) = O -> units (b :: s) = BadByte b :: units s.
Proof. intros E. unfold units at 1. cbn [unitsFrom]. by rewrite E. Qed.

Lemma units_rune s : runeLength s <> O ->
  units s = Rune (take (runeLength s) s) :: units (drop (runeLength s) s).
Proof.
  destruct s as [|b s]; [done|]. intros Hn. unfold units at 1. cbn [unitsFrom].
  destruct (runeLength (b :: s)) as [|n]; [done|]. by rewrite unitsFrom_skip.
Qed.

(** Induction over the units of a string. *)
Lemma units_ind (P : bytes -> Prop) : P [] ->
  (forall b s, runeLength (b :: s) = O -> P s -> P (b :: s)) ->
  (forall s, runeLength s <> O -> P (drop (runeLength s) s) -> P s) ->
  forall s, P s.
Proof.
  intros H0 Hbad Hrune s. remember (length s) as n eqn:En. assert (Hn : (length s <= n)%nat) by lia.
  clear En. revert s Hn. induction n as [|n IH]; intros s Hn.
  { by destruct s; [|simpl in Hn; lia]. }
  destruct s as [|b s]; [done|]. destruct (decide (runeLength (b :: s) = O)) as [E|E].
  - apply Hbad; [done|]. apply IH. simpl in Hn. lia.
  - apply Hrune; [done|]. apply IH. rewrite length_drop. simpl in *. lia.
Qed.

Lemma units_concat s : concat (map unit_bytes (units s)) = s.
Proof.
  induction s as [|b s E IH|s E IH] using units_ind; [done| |].
  - rewrite units_bad by done. simpl. by rewrite IH.
  - rewrite units_rune by done. simpl. rewrite IH. apply take_drop.
Qed.

Lemma sanitize_valid s : valid8 s = true -> sanitize s = s.
Proof.
  unfold valid8, sanitize. intros Hv. rewrite <- (units_concat s) at 2. f_equal. apply map_ext_in.
  intros u Hu. apply forallb_forall with (x := u) in Hv; [|done]. by destruct u.
Qed.

(** Every unit that is a rune is recognised alone. *)
Lemma units_Rune s enc : Rune enc ∈ units s -> runeLength enc = length enc /\ enc <> [].
Proof.
  induction s as [|b s E IH|s E IH] using units_ind.
  - by intros []%not_elem_of_nil.
  - rewrite units_bad by done. intros [[=]|Hin]%elem_of_cons. auto.
  - rewrite units_rune by done. intros [[= ->]|Hin]%elem_of_cons; [|auto].
    pose proof (runeLength_app s [] E) as Hl. rewrite app_nil_r in Hl. rewrite Hl, length_take.
    pose proof (runeLength_le s). split; [lia|]. intros Hnil.
    apply (f_equal length) in Hnil. rewrite length_take in Hnil. simpl in Hnil. lia.
Qed.

Lemma runeLength_prefix enc rest : runeLength enc = length enc -> enc <> [] ->
  runeLength (enc ++ rest) = length enc.
Proof.
  intros E Hne. destruct (decide (runeLength enc = O)) as [H0|H0].
  { rewrite H0 in E. by destruct enc. }
  pose proof (runeLength_app enc rest H0) as Hl. rewrite E, firstn_all in Hl. congruence.
Qed.

(** A rune is one byte below 0x80 or several from 0x80 on. *)
Lemma rune_bytes enc : runeLength enc = length enc -> enc <> [] ->
  (exists b, enc = [b] /\ ub b < 0x80) \/
  (2 <= length enc)%nat /\ Forall (fun b => 0x80 <= ub b) enc.
Proof.
  destruct enc as [|b0 enc]; [done|]. intros E _. cbn [runeLength] in E.
  destruct (Z.ltb_spec (ub b0) 0x80) as [H0|H0].
  { left. exists b0. destruct enc; [done|]. simpl in E. lia. }
  right. split.
  { destruct enc as [|b1 enc]; [done|]. simpl. lia. }
  unfold continuation, between in E.
  destruct enc as [|b1 [|b2 [|b3 [|b4 enc]]]]; repeat case_match; try (simpl in E; lia);
    repeat (apply Forall_cons; split); try apply Forall_nil_2; try done; lia.
Qed.

Lemma ascii_valid s : Forall (fun b => ub b < 0x80) s -> valid8 s = true.
Proof.
  unfold valid8, units. induction 1 as [|b s Hb Hs IH]; [done|]. cbn [unitsFrom].
  replace (runeLength (b :: s)) with 1%nat; [exact IH|]. unfold runeLength. by replace (ub b <? 0x80) with true by lia.
Qed.
