(* ===== verification/GoStd.v ===== *)
(** * The parts of the Go standard library the modelled code uses

    Readers and writers ([io]), white-space trimming ([strings.TrimSpace] on
    UTF-8 text), decimal and hexadecimal rendering ([strconv], [encoding/hex]).
    Every definition follows the documented behaviour of the library. *)

From S2P Require Import Prelude.

(** ** Readers: a byte source that delivers its content and then [io.EOF] *)

(** [io.ReadFull] of an [n]-byte buffer: the outcome and the unread input. *)
Definition ReadFull (r : bytes) (n : Z) : go bytes * bytes :=
  if n =? 0 then (Ok [], r)
  else if zlen r =? 0 then (Err ErrEOF, r)
  else if zlen r <? n then (Err ErrUnexpectedEOF, [])
  else (Ok (take (Z.to_nat n) r), drop (Z.to_nat n) r).

(** ** Writers

    [outcomes] lists what the next [Write] calls do; after its end every call
    accepts the whole buffer. *)

Inductive write_outcome : Type :=
  | WriteAll
  | WriteShort (n : nat)
  | WriteErr (n : nat) (e : error).

Record Writer : Type := mkWriter { written : bytes; outcomes : list write_outcome }.

(** [w.Write(p)]: the writer afterwards, the byte count and the error. *)
Definition Write (w : Writer) (p : bytes) : Writer * Z * option error :=
  match outcomes w with
  | [] => (mkWriter (written w ++ p) [], zlen p, None)
  | WriteAll :: os => (mkWriter (written w ++ p) os, zlen p, None)
  | WriteShort n :: os => (mkWriter (written w ++ take n p) os, zlen (take n p), None)
  | WriteErr n e :: os => (mkWriter (written w ++ take n p) os, zlen (take n p), Some e)
  end.

Definition reliable (w : Writer) : Prop := Forall (eq WriteAll) (outcomes w).

Lemma reliable_Write w p : reliable w ->
  exists os, Write w p = (mkWriter (written w ++ p) os, zlen p, None) /\
    reliable (mkWriter (written w ++ p) os).
Proof.
  unfold reliable, Write. destruct (outcomes w) as [|o os]; intros H.
  - exists []. split; [done|]. constructor.
  - apply Forall_cons in H as [<- H]. by exists os.
Qed.

(** ** White space

    The encodings of the code points for which [unicode.IsSpace] holds. *)

Definition space_encodings : list bytes :=
  map (fun z => [byte_of z]) [9; 10; 11; 12; 13; 32] ++
  map (map byte_of)
    [[0xc2; 0x85]; [0xc2; 0xa0]; [0xe1; 0x9a; 0x80];
     [0xe2; 0x80; 0x80]; [0xe2; 0x80; 0x81]; [0xe2; 0x80; 0x82]; [0xe2; 0x80; 0x83];
     [0xe2; 0x80; 0x84]; [0xe2; 0x80; 0x85]; [0xe2; 0x80; 0x86]; [0xe2; 0x80; 0x87];
     [0xe2; 0x80; 0x88]; [0xe2; 0x80; 0x89]; [0xe2; 0x80; 0x8a];
     [0xe2; 0x80; 0xa8]; [0xe2; 0x80; 0xa9]; [0xe2; 0x80; 0xaf];
     [0xe2; 0x81; 0x9f]; [0xe3; 0x80; 0x80]].

Fixpoint strip_prefix (p l : bytes) : option bytes :=
  match p, l with
  | [], _ => Some l
  | b :: p, c :: l => if decide (b = c) then strip_prefix p l else None
  | _ :: _, [] => None
  end.

(** Drops one leading occurrence of one of the sequences [ps]. *)
Fixpoint strip_any (ps : list bytes) (l : bytes) : option bytes :=
  match ps with
  | [] => None
  | p :: ps => match strip_prefix p l with Some l' => Some l' | None => strip_any ps l end
  end.

Fixpoint trim_left_fuel (fuel : nat) (ps : list bytes) (l : bytes) : bytes :=
  match fuel with
  | O => l
  | S fuel => match strip_any ps l with
              | Some l' => trim_left_fuel fuel ps l'
              | None => l
              end
  end.

Definition trim_left (ps : list bytes) (l : bytes) : bytes := trim_left_fuel (length l) ps l.

(** [strings.TrimSpace] and [bytes.TrimSpace]: leading, then trailing space. *)
Definition TrimSpace (s : bytes) : bytes :=
  let s := trim_left space_encodings s in
  rev (trim_left (map (@rev byte) space_encodings) (rev s)).

Lemma strip_prefix_app p l l' : strip_prefix p l = Some l' -> l = p ++ l'.
Proof.
  revert l. induction p as [|b p IH]; intros l; simpl; [by intros [= ->]|].
  destruct l as [|c l]; [done|]. case_decide; [|done]. subst.
  intros H. by rewrite (IH l H).
Qed.

Lemma strip_prefix_self p l : strip_prefix p (p ++ l) = Some l.
Proof. induction p as [|b p IH]; [done|]. cbn. by rewrite decide_True. Qed.

Lemma strip_any_app ps l l' : strip_any ps l = Some l' -> exists p, p ∈ ps /\ l = p ++ l'.
Proof.
  induction ps as [|p ps IH]; simpl; [done|].
  destruct (strip_prefix p l) as [l0|] eqn:E.
  - intros [= ->]. exists p. split; [left|by apply strip_prefix_app].
  - intros (q & Hq & ->)%IH. exists q. split; [by right|done].
Qed.

Lemma trim_left_fuel_id n ps l : strip_any ps l = None -> trim_left_fuel n ps l = l.
Proof. intros H. destruct n; simpl; [done|]. by rewrite H. Qed.

(** Text with no leading and no trailing space is left alone. *)
Lemma TrimSpace_id s :
  strip_any space_encodings s = None ->
  strip_any (map (@rev byte) space_encodings) (rev s) = None -> TrimSpace s = s.
Proof.
  intros H1 H2. unfold TrimSpace, trim_left.
  rewrite (trim_left_fuel_id _ space_encodings s H1).
  rewrite trim_left_fuel_id by done. apply rev_involutive.
Qed.

Lemma trim_left_fuel_length n ps l : zlen (trim_left_fuel n ps l) <= zlen l.
Proof.
  revert l. induction n as [|n IH]; intros l; simpl; [lia|].
  destruct (strip_any ps l) as [l'|] eqn:E; [|lia].
  apply strip_any_app in E as (p & _ & ->). specialize (IH l').
  rewrite zlen_app. pose proof (zlen_nonneg p). lia.
Qed.

Lemma zlen_rev {A} (l : list A) : zlen (rev l) = zlen l.
Proof. unfold zlen. by rewrite length_rev. Qed.

Lemma TrimSpace_length s : zlen (TrimSpace s) <= zlen s.
Proof.
  unfold TrimSpace, trim_left. rewrite zlen_rev. etrans; [apply trim_left_fuel_length|].
  rewrite zlen_rev. apply trim_left_fuel_length.
Qed.

(** After trimming no sequence of [ps] is left in front. *)
Lemma trim_left_fuel_none n ps l : Forall (fun p => p <> []) ps -> (length l <= n)%nat ->
  strip_any ps (trim_left_fuel n ps l) = None.
Proof.
  intros Hps. revert l. induction n as [|n IH]; intros l Hl; cbn [trim_left_fuel].
  - destruct l; [|simpl in Hl; lia]. destruct (strip_any ps []) as [l'|] eqn:E; [|done].
    apply strip_any_app in E as (p & Hp & E). symmetry in E. apply app_nil in E as [-> _].
    rewrite Forall_forall in Hps. by destruct (Hps [] Hp).
  - destruct (strip_any ps l) as [l'|] eqn:E; [|done]. apply strip_any_app in E as (p & Hp & ->).
    apply IH. rewrite Forall_forall in Hps. specialize (Hps p Hp). rewrite length_app in Hl.
    destruct p; [done|simpl in Hl; lia].
Qed.

Lemma strip_prefix_app_r p l1 l2 l' : strip_prefix p l1 = Some l' ->
  strip_prefix p (l1 ++ l2) = Some (l' ++ l2).
Proof. intros H. apply strip_prefix_app in H as ->. induction p as [|b p IH]; [done|].
  simpl. by rewrite decide_True. Qed.

(** A list starts with a sequence of [ps] when one of its prefixes does. *)
Lemma strip_any_prefix ps l1 l2 : strip_any ps (l1 ++ l2) = None -> strip_any ps l1 = None.
Proof.
  induction ps as [|p ps IH]; [done|]. cbn [strip_any].
  destruct (strip_prefix p l1) as [l'|] eqn:E; [by rewrite (strip_prefix_app_r _ _ l2 _ E)|].
  destruct (strip_prefix p (l1 ++ l2)); [done|apply IH].
Qed.

Lemma trim_left_fuel_suffix n ps l : exists pre, l = pre ++ trim_left_fuel n ps l.
Proof.
  revert l. induction n as [|n IH]; intros l; cbn [trim_left_fuel]; [by exists []|].
  destruct (strip_any ps l) as [l'|] eqn:E; [|by exists []].
  apply strip_any_app in E as (p & _ & ->). destruct (IH l') as [pre E].
  exists (p ++ pre). by rewrite <- app_assoc, <- E.
Qed.

Lemma space_encodings_nonempty : Forall (fun p : bytes => p <> []) space_encodings.
Proof. vm_compute. repeat (constructor; [congruence|]). constructor. Qed.

Lemma TrimSpace_idem s : TrimSpace (TrimSpace s) = TrimSpace s.
Proof.
  set (t := trim_left space_encodings s).
  set (u := trim_left (map (@rev byte) space_encodings) (rev t)).
  assert (E : TrimSpace s = rev u) by done. rewrite E. apply TrimSpace_id.
  - destruct (trim_left_fuel_suffix (length (rev t)) (map (@rev byte) space_encodings) (rev t))
      as [pre Ht].
    change (rev t = pre ++ u) in Ht. apply (f_equal (@rev byte)) in Ht.
    rewrite rev_involutive, rev_app_distr in Ht.
    apply (strip_any_prefix _ _ (rev pre)). rewrite <- Ht.
    apply trim_left_fuel_none; [apply space_encodings_nonempty|done].
  - rewrite rev_involutive. apply trim_left_fuel_none; [|done].
    apply Forall_map. eapply Forall_impl; [apply space_encodings_nonempty|].
    intros p Hp Hr. apply Hp. rewrite <- (rev_involutive p), Hr. done.
Qed.

(** ** Decimal and hexadecimal text *)

Definition digit (z : Z) : byte := byte_of (48 + z).

Fixpoint utoa_fuel (fuel : nat) (z : Z) : bytes :=
  match fuel with
  | O => []
  | S fuel => if z <? 10 then [digit z] else utoa_fuel fuel (z / 10) ++ [digit (z mod 10)]
  end.

(** [strconv.FormatUint(z, 10)]; 20 digits hold every 64-bit value. *)
Definition FormatUint (z : Z) : bytes := utoa_fuel 20 z.

(** [strconv.FormatInt(z, 10)] *)
Definition FormatInt (z : Z) : bytes :=
  if z <? 0 then str "-" ++ FormatUint (- z) else FormatUint z.

Definition hex_digit (z : Z) : byte := if z <? 10 then byte_of (48 + z) else byte_of (87 + z).

(** [hex.EncodeToString] *)
Definition hex_encode (l : bytes) : bytes :=
  flat_map (fun b => [hex_digit (ub b / 16); hex_digit (ub b mod 16)]) l.

Definition hex_value (b : byte) : option Z :=
  let z := ub b in
  if (48 <=? z) && (z <=? 57) then Some (z - 48)
  else if (97 <=? z) && (z <=? 102) then Some (z - 87)
  else if (65 <=? z) && (z <=? 70) then Some (z - 55)
  else None.

(** [hex.DecodeString], [None] for its error. *)
Fixpoint hex_decode (l : bytes) : option bytes :=
  match l with
  | [] => Some []
  | [_] => None
  | a :: b :: l =>
      x ← hex_value a; y ← hex_value b; rest ← hex_decode l;
      Some (byte_of (16 * x + y) :: rest)
  end.

Lemma hex_value_digit z : 0 <= z < 16 -> hex_value (hex_digit z) = Some z.
Proof.
  intros H.
  assert (z = 0 \/ z = 1 \/ z = 2 \/ z = 3 \/ z = 4 \/ z = 5 \/ z = 6 \/ z = 7 \/ z = 8
    \/ z = 9 \/ z = 10 \/ z = 11 \/ z = 12 \/ z = 13 \/ z = 14 \/ z = 15) as C by lia.
  by repeat destruct C as [->|C]; [..|subst].
Qed.

Lemma hex_decode_encode l : hex_decode (hex_encode l) = Some l.
Proof.
  induction l as [|b l IH]; [done|]. pose proof (ub_range b) as B.
  unfold hex_encode in *. simpl. rewrite !hex_value_digit; simpl.
  - rewrite IH. simpl. rewrite <- Z.div_mod by lia. by rewrite byte_of_ub.
  - split; [apply Z.div_pos; lia|apply Z.div_lt_upper_bound; lia].
  - apply Z.mod_pos_bound. lia.
Qed.

Lemma hex_encode_ascii l : Forall (fun b => ub b < 0x80) (hex_encode l).
Proof.
  unfold hex_encode. induction l as [|b l IH]; [constructor|]. cbn [flat_map app].
  repeat constructor; [..|exact IH]; destruct b; vm_compute; reflexivity.
Qed.

Lemma zlen_hex_encode l : zlen (hex_encode l) = 2 * zlen l.
Proof.
  induction l as [|b l IH]; [done|]. unfold hex_encode in *. simpl.
  rewrite !zlen_cons, IH. lia.
Qed.

(** ** Formatting ([fmt.Sprintf] for the verbs the code uses)

    [%s], [%v] and [%w] of a string or an error, [%d] of an integer and [%x] of
    a non-negative one, the last two zero-padded to the width given before the
    verb. *)

Inductive farg : Type := FInt (z : Z) | FStr (s : bytes).

Definition pad0 (width : Z) (s : bytes) : bytes :=
  replicate (Z.to_nat (width - zlen s)) (byte_of 48) ++ s.

(** [%0<width>d] *)
Definition formatPadded (width z : Z) : bytes :=
  if z <? 0 then str "-" ++ pad0 (width - 1) (FormatUint (- z)) else pad0 width (FormatUint z).

Fixpoint xtoa_fuel (fuel : nat) (z : Z) : bytes :=
  match fuel with
  | O => []
  | S fuel => if z <? 16 then [hex_digit z] else xtoa_fuel fuel (z / 16) ++ [hex_digit (z mod 16)]
  end.

Definition formatVerb (verb : byte) (width : Z) (a : farg) : bytes :=
  match a with
  | FStr s => s
  | FInt z => if ub verb =? 120 then pad0 width (xtoa_fuel 16 z) else formatPadded width z
  end.

(** [st] is the width read so far after a [%], if any. *)
Fixpoint formatLoop (fmt : bytes) (st : option Z) (args : list farg) : bytes :=
  match fmt with
  | [] => []
  | c :: fmt =>
    match st with
    | None => if ub c =? 37 then formatLoop fmt (Some 0) args else c :: formatLoop fmt None args
    | Some w =>
      if (48 <=? ub c) && (ub c <=? 57) then formatLoop fmt (Some (10 * w + (ub c - 48))) args
      else if ub c =? 37 then c :: formatLoop fmt None args
      else match args with
           | a :: args => formatVerb c w a ++ formatLoop fmt None args
           | [] => str "%!" ++ c :: str "(MISSING)" ++ formatLoop fmt None []
           end
    end
  end.

Definition Sprintf (fmt : string) (args : list farg) : bytes := formatLoop (str fmt) None args.

(** [err.Error()] *)
Fixpoint Error (e : error) : bytes :=
  match e with
  | Errorf fmt args => Sprintf fmt (List.map Error_arg args)
  | ErrEOF => str "EOF"
  | ErrUnexpectedEOF => str "unexpected EOF"
  | ErrShortWrite => str "short write"
  | ErrContext => str "context canceled"
  | ErrNotExist => str "file does not exist"
  | ErrIO detail => detail
  end
with Error_arg (a : earg) : farg :=
  match a with
  | AInt z => FInt z
  | AStr s => FStr s
  | AErr e => FStr (Error e)
  end.

(** ** Big integers *)

(** The number of bytes of the magnitude of [z]. *)
Definition byteLen (z : Z) : nat := if z =? 0 then O else S (Z.to_nat (Z.log2 (Z.abs z) / 8)).

(** [z.Bytes()]: the magnitude, big-endian, without leading zeros. *)
Definition BigInt_Bytes (z : Z) : bytes := rev (le_bytes (byteLen z) (Z.abs z)).

(** [new(big.Int).SetBytes] *)
Definition SetBytes (l : bytes) : Z := le_value (rev l).

Lemma byteLen_bounds z : z <> 0 ->
  256 ^ (Z.of_nat (byteLen z) - 1) <= Z.abs z < 256 ^ Z.of_nat (byteLen z).
Proof.
  intros Hz. unfold byteLen. assert ((z =? 0) = false) as -> by lia.
  pose proof (Z.log2_spec (Z.abs z)). pose proof (Z.log2_nonneg (Z.abs z)).
  set (k := Z.log2 (Z.abs z)) in *. pose proof (Z_div_mod_eq_full k 8) as Ek.
  pose proof (Z.mod_pos_bound k 8 ltac:(lia)).
  assert (0 <= k / 8) by (apply Z.div_pos; lia).
  rewrite Nat2Z.inj_succ, Z2Nat.id by lia.
  replace (Z.succ (k / 8) - 1) with (k / 8) by lia.
  change 256 with (2 ^ 8). rewrite <- !Z.pow_mul_r by lia. split.
  - transitivity (2 ^ k); [|lia]. apply Z.pow_le_mono_r; lia.
  - apply Z.lt_le_trans with (2 ^ Z.succ k); [lia|]. apply Z.pow_le_mono_r; lia.
Qed.

Lemma SetBytes_Bytes z : SetBytes (BigInt_Bytes z) = Z.abs z.
Proof.
  unfold SetBytes, BigInt_Bytes. rewrite rev_involutive. apply le_value_bytes_small.
  destruct (decide (z = 0)) as [->|Hz]; [done|]. pose proof (byteLen_bounds z Hz). lia.
Qed.

Lemma SetBytes_inj l1 l2 : length l1 = length l2 -> SetBytes l1 = SetBytes l2 -> l1 = l2.
Proof.
  intros Hl E.
  rewrite <- (rev_involutive l1), <- (rev_involutive l2). f_equal.
  rewrite <- (le_bytes_value (rev l1)), <- (le_bytes_value (rev l2)). unfold SetBytes in E.
  by rewrite E, !length_rev, Hl.
Qed.

Lemma SetBytes_range l : 0 <= SetBytes l < 256 ^ zlen l.
Proof. unfold SetBytes. pose proof (le_value_range (rev l)). by rewrite zlen_rev in *. Qed.

Lemma SetBytes_cons b l : SetBytes (b :: l) = ub b * 256 ^ zlen l + SetBytes l.
Proof.
  unfold SetBytes. cbn [rev]. rewrite <- (zlen_rev l). generalize (rev l). clear l. intros l.
  induction l as [|a l IH]; [rewrite zlen_nil; cbn [app le_value]; lia|]. cbn [app le_value]. rewrite IH, zlen_cons.
  rewrite Z.pow_add_r, Z.pow_1_r by (try apply zlen_nonneg; lia). ring.
Qed.

(** The encoding has no leading zero. *)
Lemma Bytes_head z b l : BigInt_Bytes z = b :: l -> ub b <> 0.
Proof.
  intros E Hb. pose proof (SetBytes_Bytes z) as Ez. rewrite E, SetBytes_cons, Hb in Ez.
  assert (zlen (BigInt_Bytes z) = Z.of_nat (byteLen z)) as El
    by (unfold BigInt_Bytes; by rewrite zlen_rev, zlen_le_bytes).
  rewrite E, zlen_cons in El. pose proof (SetBytes_range l).
  destruct (decide (z = 0)) as [->|Hz]; [by vm_compute in E|].
  pose proof (byteLen_bounds z Hz). replace (Z.of_nat (byteLen z) - 1) with (zlen l) in * by lia. lia.
Qed.

(** ** Text functions of the standard library that depend on Unicode tables *)

Class TextLib : Type := {
  ToLower : bytes -> bytes;                 (* strings.ToLower *)
  EqualFold : bytes -> bytes -> bool;       (* strings.EqualFold *)
  Quote : bytes -> bytes;                   (* strconv.Quote, for the verb %q *)
  LoopbackIP : bytes -> option bool         (* net.ParseIP, then IsLoopback *)
}.

(** The operations on ASCII text. *)
Definition asciiText : TextLib := {|
  ToLower := map (fun b => if (65 <=? ub b) && (ub b <=? 90) then byte_of (ub b + 32) else b);
  EqualFold a b := bool_decide
    (map (fun b => if (65 <=? ub b) && (ub b <=? 90) then byte_of (ub b + 32) else b) a =
     map (fun b => if (65 <=? ub b) && (ub b <=? 90) then byte_of (ub b + 32) else b) b);
  Quote s := byte_of 34 :: s ++ [byte_of 34];
  LoopbackIP s := if decide (s = str "127.0.0.1") then Some true else None |}.
