(* ===== verification/Json.v ===== *)
(** * JSON text

    What the code uses of [encoding/json]: the grammar of values with the nesting
    limit of the scanner, string literals (quoting with HTML escapes, unquoting),
    compaction and indentation.  A value is kept as its syntax: numbers and
    strings as their text, object members with the text of their value. *)

From S2P Require Import Prelude Utf8 GoStd.

(** ** String literals *)

Definition quote : byte := byte_of 34.
Definition backslash : byte := byte_of 92.

(** The escape of a byte below 0x80. *)
Definition escapeByte (b : byte) : bytes :=
  let z := ub b in
  if z =? 34 then [backslash; quote]
  else if z =? 92 then [backslash; backslash]
  else if z =? 8 then str "\b"
  else if z =? 12 then str "\f"
  else if z =? 10 then str "\n"
  else if z =? 13 then str "\r"
  else if z =? 9 then str "\t"
  else if (z <? 32) || (z =? 60) || (z =? 62) || (z =? 38)
  then backslash :: str "u00" ++ [hex_digit (z / 16); hex_digit (z mod 16)]
  else [b].

Definition lineSeparator : bytes := map byte_of [0xe2; 0x80; 0xa8].
Definition paragraphSeparator : bytes := map byte_of [0xe2; 0x80; 0xa9].

Definition escapeUnit (u : unit8) : bytes :=
  match u with
  | BadByte _ => backslash :: str "ufffd"
  | Rune enc =>
    if decide (enc = lineSeparator) then backslash :: str "u2028"
    else if decide (enc = paragraphSeparator) then backslash :: str "u2029"
    else match enc with [b] => escapeByte b | _ => enc end
  end.

(** The content of the literal for [s]. *)
Definition escapeString (s : bytes) : bytes := concat (map escapeUnit (units s)).

(** The states of the scanner within a literal. *)
Inductive strState : Type := InStr | InEsc | InHex (left : nat).

#[export] Instance strState_eq_dec : EqDecision strState.
Proof. solve_decision. Defined.

Definition isHex (b : byte) : bool := match hex_value b with Some _ => true | None => false end.

(** One byte of the content; the closing quote is not part of it. *)
Definition strStep (st : strState) (b : byte) : option strState :=
  match st with
  | InStr =>
    if ub b =? 34 then None else if ub b <? 32 then None
    else if ub b =? 92 then Some InEsc else Some InStr
  | InEsc =>
    if ub b =? 117 then Some (InHex 3)
    else if bool_decide (b ∈ [byte_of 34; byte_of 92; byte_of 47; byte_of 98; byte_of 102; byte_of 110;
                              byte_of 114; byte_of 116])
    then Some InStr else None
  | InHex n =>
    if isHex b then Some (match n with O => InStr | S n => InHex n end) else None
  end.

Fixpoint strRun (st : strState) (s : bytes) : option strState :=
  match s with
  | [] => Some st
  | b :: s => match strStep st b with Some st => strRun st s | None => None end
  end.

Definition strOK (raw : bytes) : Prop := strRun InStr raw = Some InStr.

(** The content up to the closing quote, and what follows it. *)
Fixpoint scanString (st : strState) (s : bytes) : option (bytes * bytes) :=
  match s with
  | [] => None
  | b :: s =>
    match st, ub b =? 34 with
    | InStr, true => Some ([], s)
    | _, _ =>
      match strStep st b with
      | Some st =>
        match scanString st s with Some (raw, rest) => Some (b :: raw, rest) | None => None end
      | None => None
      end
    end
  end.

(** [getu4] after the backslash and the letter u. *)
Definition getu4 (s : bytes) : option Z :=
  match s with
  | a :: b :: c :: d :: _ =>
    match hex_value a, hex_value b, hex_value c, hex_value d with
    | Some a, Some b, Some c, Some d => Some (((a * 16 + b) * 16 + c) * 16 + d)
    | _, _, _, _ => None
    end
  | _ => None
  end.

Definition isSurrogate (r : Z) : bool := (0xd800 <=? r) && (r <? 0xe000).

(** The second half of a pair that starts with [r], at [s]. *)
Definition decodePair (r : Z) (s : bytes) : option Z :=
  match s with
  | b :: u :: s =>
    if (ub b =? 92) && (ub u =? 117) then
      match getu4 s with
      | Some r2 =>
        if (r <? 0xdc00) && (0xdc00 <=? r2) && (r2 <? 0xe000)
        then Some ((r - 0xd800) * 1024 + (r2 - 0xdc00) + 0x10000) else None
      | None => None
      end
    else None
  | _ => None
  end.

Definition simpleEscape (e : byte) : byte :=
  let z := ub e in
  if z =? 98 then byte_of 8 else if z =? 102 then byte_of 12 else if z =? 110 then byte_of 10
  else if z =? 114 then byte_of 13 else if z =? 116 then byte_of 9 else e.

(** The string a literal's content denotes ([skip] bytes are already used). *)
Fixpoint unquoteFrom (skip : nat) (s : bytes) : bytes :=
  match s with
  | [] => []
  | b :: rest =>
    match skip with
    | S skip => unquoteFrom skip rest
    | O =>
      if ub b =? 92 then
        match rest with
        | e :: hex =>
          if ub e =? 117 then
            match getu4 hex with
            | Some r =>
              if isSurrogate r then
                match decodePair r (drop 4 hex) with
                | Some r => encodeRune r ++ unquoteFrom 11 rest
                | None => replacement ++ unquoteFrom 5 rest
                end
              else encodeRune r ++ unquoteFrom 5 rest
            | None => []
            end
          else simpleEscape e :: unquoteFrom 1 rest
        | [] => []
        end
      else match runeLength s with
           | O => replacement ++ unquoteFrom 0 rest
           | S n => take (S n) s ++ unquoteFrom n rest
           end
    end
  end.

Definition unquote (s : bytes) : bytes := unquoteFrom 0 s.

(** ** Lemmas: string literals *)

Lemma strRun_app st s t : strRun st (s ++ t) = match strRun st s with Some st => strRun st t | None => None end.
Proof. revert st. induction s as [|b s IH]; intros st; [done|]. simpl. by destruct (strStep st b). Qed.

Lemma strStep_quote st b st' : strStep st b = Some st' -> (st = InStr /\ ub b = 34) -> False.
Proof. intros E [-> Hb]. unfold strStep in E. by rewrite Hb in E. Qed.

Lemma scanString_iff s : forall st raw rest, scanString st s = Some (raw, rest) <->
  s = raw ++ quote :: rest /\ strRun st raw = Some InStr.
Proof.
  induction s as [|b s IH]; intros st raw rest.
  { split; [done|]. by intros [[]%app_cons_not_nil _]. }
  destruct (decide (st = InStr /\ ub b = 34)) as [[-> Hb]|Hq].
  - cbn [scanString]. rewrite (proj2 (Z.eqb_eq _ _) Hb). split.
    + intros [= <- <-]. split; [|done]. simpl. f_equal. apply ub_inj. by rewrite Hb.
    + intros [E Hr]. destruct raw as [|c raw]; [by injection E as _ ->|].
      injection E as <- _. cbn [strRun] in Hr. unfold strStep in Hr. by rewrite Hb in Hr.
  - assert (E : scanString st (b :: s) = match strStep st b with
      | Some st => match scanString st s with Some (raw, rest) => Some (b :: raw, rest) | None => None end
      | None => None end).
    { cbn [scanString]. destruct st; [|done..]. destruct (Z.eqb_spec (ub b) 34); [tauto|done]. }
    rewrite E. clear E. split.
    + destruct (strStep st b) as [st'|] eqn:Es; [|done].
      destruct (scanString st' s) as [[raw' rest']|] eqn:E'; [|done]. intros [= <- <-].
      apply IH in E' as [-> Hr]. split; [done|]. cbn [strRun]. by rewrite Es.
    + intros [E Hr]. destruct raw as [|c raw].
      * injection E as -> ->. injection Hr as ->. by destruct Hq.
      * injection E as <- ->. cbn [strRun] in Hr. destruct (strStep st b) as [st'|]; [|done].
        by rewrite (proj2 (IH st' raw rest)).
Qed.

Lemma scanString_ok raw rest : strOK raw -> scanString InStr (raw ++ quote :: rest) = Some (raw, rest).
Proof. intros Hr. by apply scanString_iff. Qed.

Lemma unquoteFrom_skip skip : forall s, unquoteFrom skip s = unquote (drop skip s).
Proof.
  induction skip as [|skip IH]; intros s; [by rewrite drop_0|].
  destruct s as [|b s]; [done|]. cbn [unquoteFrom drop]. apply IH.
Qed.

Lemma escapeByte_ok b : ub b < 0x80 -> strOK (escapeByte b).
Proof. unfold strOK. destruct b; vm_compute; congruence. Qed.

Lemma unquote_escapeByte b rest : ub b < 0x80 -> unquote (escapeByte b ++ rest) = b :: unquote rest.
Proof. destruct b; intros Hb; try (by vm_compute in Hb); reflexivity. Qed.

Lemma strRun_high s : Forall (fun b => 0x80 <= ub b) s -> strRun InStr s = Some InStr.
Proof.
  induction 1 as [|b s Hb _ IH]; [done|]. cbn [strRun strStep].
  rewrite (proj2 (Z.eqb_neq _ _)), (proj2 (Z.ltb_ge _ _)), (proj2 (Z.eqb_neq _ _)) by lia. done.
Qed.

Lemma escapeUnit_ok s u : u ∈ units s -> strOK (escapeUnit u).
Proof.
  destruct u as [enc|b]; [|done]. intros [Hl Hne]%units_Rune. unfold escapeUnit.
  case_decide; [done|]. case_decide; [done|].
  destruct (rune_bytes enc Hl Hne) as [(b & -> & Hb)|[Hlen Hhigh]]; [by apply escapeByte_ok|].
  destruct enc as [|b0 [|b1 enc]]; [done|simpl in Hlen; lia|]. by apply strRun_high.
Qed.

Lemma unquote_rune enc rest : runeLength enc = length enc -> Forall (fun b => 0x80 <= ub b) enc -> enc <> [] ->
  unquote (enc ++ rest) = enc ++ unquote rest.
Proof.
  intros Hl Hhigh Hne. pose proof (runeLength_prefix enc rest Hl Hne) as Hp.
  destruct enc as [|b enc]; [done|]. apply Forall_cons in Hhigh as [Hb _].
  unfold unquote at 1. cbn [app unquoteFrom]. rewrite (proj2 (Z.eqb_neq _ _)) by lia.
  change (b :: enc ++ rest) with ((b :: enc) ++ rest). rewrite Hp. cbn [length].
  change (S (length enc)) with (length (b :: enc)).
  by rewrite take_app_length, unquoteFrom_skip, drop_app_length.
Qed.

Lemma unquote_escapeUnit s u rest : u ∈ units s ->
  unquote (escapeUnit u ++ rest) = sanitize_unit u ++ unquote rest.
Proof.
  destruct u as [enc|b]; [|by intros _]. intros [Hl Hne]%units_Rune. unfold escapeUnit, sanitize_unit.
  case_decide as E1; [by rewrite E1|]. case_decide as E2; [by rewrite E2|].
  destruct (rune_bytes enc Hl Hne) as [(b & -> & Hb)|[Hlen Hhigh]]; [by apply unquote_escapeByte|].
  destruct enc as [|b0 [|b1 enc]]; [done|simpl in Hlen; lia|]. by apply unquote_rune.
Qed.

Lemma escapeString_ok s : strOK (escapeString s).
Proof.
  unfold escapeString. assert (H : Forall (fun u => strOK (escapeUnit u)) (units s)).
  { apply Forall_forall. intros u. apply escapeUnit_ok. }
  induction H as [|u us Hu _ IH]; [done|]. unfold strOK in *. simpl. by rewrite strRun_app, Hu.
Qed.

(** Unquoting the literal of a string gives the string back, with the bytes
    outside UTF-8 replaced. *)
Lemma unquote_escapeString s : unquote (escapeString s) = sanitize s.
Proof.
  unfold escapeString, sanitize.
  assert (H : Forall (fun u => forall rest, unquote (escapeUnit u ++ rest) = sanitize_unit u ++ unquote rest)
    (units s)).
  { apply Forall_forall. intros u Hu rest. by eapply unquote_escapeUnit. }
  induction H as [|u us Hu _ IH]; [done|]. simpl. by rewrite Hu, IH.
Qed.

(** ** HTML escapes in the text of a value *)

(** U+2028 or U+2029 at the start of [s]. *)
Definition separatorAt (s : bytes) : bool :=
  match s with
  | a :: b :: c :: _ => (ub a =? 0xe2) && (ub b =? 0x80) && ((ub c =? 0xa8) || (ub c =? 0xa9))
  | _ => false
  end.

Definition htmlByte (b : byte) : bool := (ub b =? 60) || (ub b =? 62) || (ub b =? 38).

(** What [compact] does to the content of a literal. *)
Fixpoint escapeHTMLFrom (skip : nat) (s : bytes) : bytes :=
  match s with
  | [] => []
  | b :: rest =>
    match skip with
    | S skip => escapeHTMLFrom skip rest
    | O =>
      if htmlByte b
      then backslash :: str "u00" ++ [hex_digit (ub b / 16); hex_digit (ub b mod 16)]
           ++ escapeHTMLFrom 0 rest
      else if separatorAt s
      then backslash :: str "u202" ++ [hex_digit (ub (nth 2 s (byte_of 0)) mod 16)] ++ escapeHTMLFrom 2 rest
      else b :: escapeHTMLFrom 0 rest
    end
  end.

Definition escapeHTML (s : bytes) : bytes := escapeHTMLFrom 0 s.

Lemma escapeHTMLFrom_skip skip : forall s, escapeHTMLFrom skip s = escapeHTML (drop skip s).
Proof.
  induction skip as [|skip IH]; intros s; [by rewrite drop_0|].
  destruct s as [|b s]; [done|]. cbn [escapeHTMLFrom drop]. apply IH.
Qed.

Lemma separatorAt_inv s : separatorAt s = true ->
  exists rest, s = lineSeparator ++ rest \/ s = paragraphSeparator ++ rest.
Proof.
  destruct s as [|a [|b [|c rest]]]; try done. unfold separatorAt.
  intros [[Ha%Z.eqb_eq Hb%Z.eqb_eq]%andb_true_iff Hc]%andb_true_iff. exists rest.
  apply orb_true_iff in Hc as [Hc%Z.eqb_eq|Hc%Z.eqb_eq]; [left|right]; simpl;
    repeat f_equal; by apply ub_inj; rewrite ?Ha, ?Hb, ?Hc.
Qed.

(** The three cases of [escapeHTML]. *)
Lemma escapeHTML_ind (P : bytes -> Prop) : P [] ->
  (forall b s, htmlByte b = true -> P s -> P (b :: s)) ->
  (forall s, P s -> P (lineSeparator ++ s)) -> (forall s, P s -> P (paragraphSeparator ++ s)) ->
  (forall b s, htmlByte b = false -> separatorAt (b :: s) = false -> P s -> P (b :: s)) ->
  forall s, P s.
Proof.
  intros H0 Hh Hl Hp Hb s. remember (length s) as n eqn:En. assert (Hn : (length s <= n)%nat) by lia.
  clear En. revert s Hn. induction n as [|n IH]; intros s Hn.
  { by destruct s; [|simpl in Hn; lia]. }
  destruct s as [|b s]; [done|]. simpl in Hn. destruct (htmlByte b) eqn:E1; [apply Hh; [done|apply IH; lia]|].
  destruct (separatorAt (b :: s)) eqn:E2; [|apply Hb; [done..|apply IH; lia]].
  destruct (separatorAt_inv _ E2) as (rest & [E|E]); injection E as -> ->; [apply Hl|apply Hp];
    apply IH; simpl in Hn; lia.
Qed.

Lemma escapeHTML_html b s : htmlByte b = true ->
  escapeHTML (b :: s) = backslash :: str "u00" ++ [hex_digit (ub b / 16); hex_digit (ub b mod 16)] ++ escapeHTML s.
Proof. intros E. unfold escapeHTML at 1. cbn [escapeHTMLFrom]. by rewrite E. Qed.

Lemma escapeHTML_plain b s : htmlByte b = false -> separatorAt (b :: s) = false ->
  escapeHTML (b :: s) = b :: escapeHTML s.
Proof. intros E1 E2. unfold escapeHTML at 1. cbn [escapeHTMLFrom]. by rewrite E1, E2. Qed.

Lemma escapeHTML_line s : escapeHTML (lineSeparator ++ s) = (backslash :: str "u2028") ++ escapeHTML s.
Proof. reflexivity. Qed.

Lemma escapeHTML_paragraph s :
  escapeHTML (paragraphSeparator ++ s) = (backslash :: str "u2029") ++ escapeHTML s.
Proof. reflexivity. Qed.

Lemma htmlByte_cases b : htmlByte b = true -> b = byte_of 60 \/ b = byte_of 62 \/ b = byte_of 38.
Proof.
  unfold htmlByte. rewrite !orb_true_iff, !Z.eqb_eq. intros [[H|H]|H]; [left|right; left|right; right];
    apply ub_inj; by rewrite H.
Qed.

Lemma escapeHTML_strRun s : forall st st', strRun st s = Some st' -> strRun st (escapeHTML s) = Some st'.
Proof.
  induction s as [|b s Hb IH|s IH|s IH|b s E1 E2 IH] using escapeHTML_ind; intros st st'; [done|..].
  - rewrite escapeHTML_html by done. destruct st as [| |n].
    + destruct (htmlByte_cases b Hb) as [->|[->| ->]]; apply IH.
    + by destruct (htmlByte_cases b Hb) as [->|[->| ->]].
    + by destruct (htmlByte_cases b Hb) as [->|[->| ->]].
  - destruct st; [|done..]. rewrite escapeHTML_line. apply IH.
  - destruct st; [|done..]. rewrite escapeHTML_paragraph. apply IH.
  - rewrite escapeHTML_plain by done. cbn [strRun]. destruct (strStep st b); [apply IH|done].
Qed.

Lemma escapeHTML_ok raw : strOK raw -> strOK (escapeHTML raw).
Proof. apply escapeHTML_strRun. Qed.

(** An escaped text starts with a backslash or with what it started with. *)
Lemma escapeHTML_head s c t : escapeHTML s = c :: t -> c <> backslash ->
  exists s', s = c :: s' /\ t = escapeHTML s'.
Proof.
  destruct s as [|b s Hb _|s _|s _|b s E1 E2 _] using escapeHTML_ind; [done|..].
  - rewrite escapeHTML_html by done. by intros [= <- _].
  - by intros [= <- _].
  - by intros [= <- _].
  - rewrite escapeHTML_plain by done. intros [= <- <-] _. by exists s.
Qed.

Lemma escapeHTML_plain_app l s : forallb (fun b => negb (htmlByte b) && negb (ub b =? 0xe2)) l = true ->
  escapeHTML (l ++ s) = l ++ escapeHTML s.
Proof.
  induction l as [|b l IH]; [done|]. cbn [forallb app].
  intros [[Hb%negb_true_iff H2%negb_true_iff]%andb_true_iff Hl]%andb_true_iff.
  rewrite escapeHTML_plain; [by rewrite IH|done|]. unfold separatorAt. rewrite H2.
  by destruct (l ++ s) as [|? [|]].
Qed.

Lemma escapeHTML_idem s : escapeHTML (escapeHTML s) = escapeHTML s.
Proof.
  induction s as [|b s Hb IH|s IH|s IH|b s E1 E2 IH] using escapeHTML_ind; [done|..].
  - rewrite escapeHTML_html by done. destruct (htmlByte_cases b Hb) as [->|[->| ->]];
      rewrite app_comm_cons, app_assoc, escapeHTML_plain_app by done; by rewrite IH.
  - rewrite escapeHTML_line, escapeHTML_plain_app by done. by rewrite IH.
  - rewrite escapeHTML_paragraph, escapeHTML_plain_app by done. by rewrite IH.
  - rewrite escapeHTML_plain by done. rewrite escapeHTML_plain; [by rewrite IH|done|].
    destruct (separatorAt (b :: escapeHTML s)) eqn:E; [|done]. exfalso.
    destruct (separatorAt_inv _ E) as (rest & [H|H]); injection H as -> H;
      (apply escapeHTML_head in H as (s1 & -> & H); [|done]); symmetry in H;
      (apply escapeHTML_head in H as (s2 & -> & _); [|done]); done.
Qed.
