(* ===== verification/JsonValue.v ===== *)
(** * JSON values

    The grammar of values as [encoding/json] scans it, printing without blanks
    ([Marshal], [Compact]) and with indentation ([MarshalIndent]), and the
    inverse lemmas between them. *)

From S2P Require Import Prelude Utf8 GoStd Json.

(** ** Numbers *)

(** The scanner's states in a number. *)
Inductive numState : Type := NNeg | NZero | NInt | NDot | NFrac | NExp | NExpSign | NExpInt.

Definition isDigit (b : byte) : bool := (48 <=? ub b) && (ub b <=? 57).

Definition numStart (b : byte) : option numState :=
  if ub b =? 45 then Some NNeg
  else if ub b =? 48 then Some NZero
  else if isDigit b then Some NInt else None.

(** A dot or an exponent after the integer part, an exponent after a fraction. *)
Definition numMark (dot : bool) (b : byte) : option numState :=
  if dot && (ub b =? 46) then Some NDot
  else if (ub b =? 101) || (ub b =? 69) then Some NExp else None.

Definition numStep (st : numState) (b : byte) : option numState :=
  match st with
  | NNeg => if ub b =? 48 then Some NZero else if isDigit b then Some NInt else None
  | NZero => numMark true b
  | NInt => if isDigit b then Some NInt else numMark true b
  | NDot => if isDigit b then Some NFrac else None
  | NFrac => if isDigit b then Some NFrac else numMark false b
  | NExp => if (ub b =? 43) || (ub b =? 45) then Some NExpSign else if isDigit b then Some NExpInt else None
  | NExpSign | NExpInt => if isDigit b then Some NExpInt else None
  end.

Definition numFinal (st : numState) : bool :=
  match st with NZero | NInt | NFrac | NExpInt => true | _ => false end.

Fixpoint numRun (st : numState) (s : bytes) : option numState :=
  match s with
  | [] => Some st
  | b :: s => match numStep st b with Some st => numRun st s | None => None end
  end.

(** The longest continuation of a number in state [st]. *)
Fixpoint scanNumber (st : numState) (s : bytes) : option (bytes * bytes) :=
  match s with
  | [] => if numFinal st then Some ([], []) else None
  | b :: rest =>
    match numStep st b with
    | Some st =>
      match scanNumber st rest with Some (raw, rest) => Some (b :: raw, rest) | None => None end
    | None => if numFinal st then Some ([], s) else None
    end
  end.

(** ** Values *)

#[local] Unset Elimination Schemes.

(** Members carry the content of their key's literal and the text of their value. *)
Inductive json : Type :=
  | JNull
  | JBool (b : bool)
  | JNum (text : bytes)
  | JStr (raw : bytes)
  | JArr (elements : list json)
  | JObj (members : list (bytes * (bytes * json))).

#[local] Set Elimination Schemes.

Definition isBlank (b : byte) : bool := (ub b =? 32) || (ub b =? 9) || (ub b =? 10) || (ub b =? 13).

Fixpoint skipBlanks (s : bytes) : bytes :=
  match s with
  | b :: rest => if isBlank b then skipBlanks rest else s
  | [] => []
  end.

(** Brackets may nest this deep. *)
Definition maxNestingDepth : Z := 10000.

(** The value at the start of [s], inside [depth] brackets, and what follows it. *)
Fixpoint parseValue (fuel : nat) (depth : Z) (s : bytes) : option (json * bytes) :=
  match fuel, s with
  | S fuel, b :: rest =>
    if ub b =? 123 then                                     (* { *)
      if maxNestingDepth <=? depth then None
      else match skipBlanks rest with
           | c :: after =>
             if ub c =? 125 then Some (JObj [], after)
             else match parseMembers fuel (depth + 1) (c :: after) with
                  | Some (ms, rest) => Some (JObj ms, rest)
                  | None => None
                  end
           | [] => None
           end
    else if ub b =? 91 then                                 (* [ *)
      if maxNestingDepth <=? depth then None
      else match skipBlanks rest with
           | c :: after =>
             if ub c =? 93 then Some (JArr [], after)
             else match parseElements fuel (depth + 1) (c :: after) with
                  | Some (es, rest) => Some (JArr es, rest)
                  | None => None
                  end
           | [] => None
           end
    else if ub b =? 34 then                                 (* a string *)
      match scanString InStr rest with Some (raw, rest) => Some (JStr raw, rest) | None => None end
    else
      match strip_prefix (str "null") s, strip_prefix (str "true") s, strip_prefix (str "false") s with
      | Some rest, _, _ => Some (JNull, rest)
      | _, Some rest, _ => Some (JBool true, rest)
      | _, _, Some rest => Some (JBool false, rest)
      | None, None, None =>
        match numStart b with
        | Some st =>
          match scanNumber st rest with Some (raw, rest) => Some (JNum (b :: raw), rest) | None => None end
        | None => None
        end
      end
  | _, _ => None
  end
with parseMembers (fuel : nat) (depth : Z) (s : bytes) : option (list (bytes * (bytes * json)) * bytes) :=
  match fuel, s with
  | S fuel, q :: rest =>
    if ub q =? 34 then
      match scanString InStr rest with
      | Some (key, rest) =>
        match skipBlanks rest with
        | c :: rest =>
          if ub c =? 58 then
            let text := skipBlanks rest in
            match parseValue fuel depth text with
            | Some (v, rest) =>
              let m := (key, (take (length text - length rest) text, v)) in
              match skipBlanks rest with
              | c :: rest =>
                if ub c =? 44 then
                  match parseMembers fuel depth (skipBlanks rest) with
                  | Some (ms, rest) => Some (m :: ms, rest)
                  | None => None
                  end
                else if ub c =? 125 then Some ([m], rest) else None
              | [] => None
              end
            | None => None
            end
          else None
        | [] => None
        end
      | None => None
      end
    else None
  | _, _ => None
  end
with parseElements (fuel : nat) (depth : Z) (s : bytes) : option (list json * bytes) :=
  match fuel with
  | O => None
  | S fuel =>
    match parseValue fuel depth s with
    | Some (v, rest) =>
      match skipBlanks rest with
      | c :: rest =>
        if ub c =? 44 then
          match parseElements fuel depth (skipBlanks rest) with
          | Some (es, rest) => Some (v :: es, rest)
          | None => None
          end
        else if ub c =? 93 then Some ([v], rest) else None
      | [] => None
      end
    | None => None
    end
  end.

(** A text that is one value with blanks around it. *)
Definition parseJSON (s : bytes) : option json :=
  match parseValue (2 * length s + 2) 0 (skipBlanks s) with
  | Some (v, rest) => match skipBlanks rest with [] => Some v | _ => None end
  | None => None
  end.

(** [json.Valid] *)
Definition Valid (s : bytes) : bool := match parseJSON s with Some _ => true | None => false end.

(** ** Printing *)

Fixpoint join (sep : bytes) (l : list bytes) : bytes :=
  match l with
  | [] => []
  | [x] => x
  | x :: l => x ++ sep ++ join sep l
  end.

Definition quoted (raw : bytes) : bytes := quote :: raw ++ [quote].

Fixpoint print (v : json) : bytes :=
  match v with
  | JNull => str "null"
  | JBool true => str "true"
  | JBool false => str "false"
  | JNum text => text
  | JStr raw => quoted raw
  | JArr es => str "[" ++ join (str ",") (map print es) ++ str "]"
  | JObj ms =>
    str "{" ++ join (str ",") (map (fun '(key, (_, v)) => quoted key ++ str ":" ++ print v) ms) ++ str "}"
  end.

(** The HTML escapes of [compact]. *)
Fixpoint escapeValue (v : json) : json :=
  match v with
  | JStr raw => JStr (escapeHTML raw)
  | JArr es => JArr (map escapeValue es)
  | JObj ms => JObj (map (fun '(key, (text, v)) => (escapeHTML key, (text, escapeValue v))) ms)
  | _ => v
  end.

(** [compact] with HTML escapes, as [Marshal] applies it to a [RawMessage]. *)
Definition compact (s : bytes) : option bytes :=
  match parseJSON s with Some v => Some (print (escapeValue v)) | None => None end.

(** [MarshalIndent] with no prefix and two blanks, [level] deep. *)
Definition newline (level : nat) : bytes := byte_of 10 :: concat (replicate level (str "  ")).

Fixpoint printIndent (level : nat) (v : json) : bytes :=
  match v with
  | JArr [] => str "[]"
  | JArr es =>
    str "[" ++ newline (S level) ++ join (str "," ++ newline (S level)) (map (printIndent (S level)) es)
    ++ newline level ++ str "]"
  | JObj [] => str "{}"
  | JObj ms =>
    str "{" ++ newline (S level)
    ++ join (str "," ++ newline (S level))
         (map (fun '(key, (_, v)) => quoted key ++ str ": " ++ printIndent (S level) v) ms)
    ++ newline level ++ str "}"
  | _ => print v
  end.

(** ** The grammar

    [renders d v s]: [s] is a text of the value [v] inside [d] brackets, with
    blanks anywhere between tokens. *)

Definition blanks (s : bytes) : Prop := forallb isBlank s = true.

Definition numOK (text : bytes) : Prop :=
  match text with
  | b :: raw => exists st st', numStart b = Some st /\ numRun st raw = Some st' /\ numFinal st' = true
  | [] => False
  end.

Inductive renders : Z -> json -> bytes -> Prop :=
  | r_null d : renders d JNull (str "null")
  | r_true d : renders d (JBool true) (str "true")
  | r_false d : renders d (JBool false) (str "false")
  | r_num d text : numOK text -> renders d (JNum text) text
  | r_str d raw : strOK raw -> renders d (JStr raw) (quoted raw)
  | r_arr_empty d w : d < maxNestingDepth -> blanks w -> renders d (JArr []) (str "[" ++ w ++ str "]")
  | r_arr d w es s : d < maxNestingDepth -> blanks w -> renders_elements (d + 1) es s ->
      renders d (JArr es) (str "[" ++ w ++ s)
  | r_obj_empty d w : d < maxNestingDepth -> blanks w -> renders d (JObj []) (str "{" ++ w ++ str "}")
  | r_obj d w ms s : d < maxNestingDepth -> blanks w -> renders_members (d + 1) ms s ->
      renders d (JObj ms) (str "{" ++ w ++ s)
with renders_members : Z -> list (bytes * (bytes * json)) -> bytes -> Prop :=
  | rm_last d key w1 w2 v t w3 : strOK key -> blanks w1 -> blanks w2 -> renders d v t -> blanks w3 ->
      renders_members d [(key, (t, v))] (quoted key ++ w1 ++ str ":" ++ w2 ++ t ++ w3 ++ str "}")
  | rm_cons d key w1 w2 v t w3 w4 ms s : strOK key -> blanks w1 -> blanks w2 -> renders d v t ->
      blanks w3 -> blanks w4 -> renders_members d ms s ->
      renders_members d ((key, (t, v)) :: ms)
        (quoted key ++ w1 ++ str ":" ++ w2 ++ t ++ w3 ++ str "," ++ w4 ++ s)
with renders_elements : Z -> list json -> bytes -> Prop :=
  | re_last d v t w : renders d v t -> blanks w -> renders_elements d [v] (t ++ w ++ str "]")
  | re_cons d v t w1 w2 es s : renders d v t -> blanks w1 -> blanks w2 -> renders_elements d es s ->
      renders_elements d (v :: es) (t ++ w1 ++ str "," ++ w2 ++ s).

Scheme renders_mind := Minimality for renders Sort Prop
  with renders_members_mind := Minimality for renders_members Sort Prop
  with renders_elements_mind := Minimality for renders_elements Sort Prop.
Combined Scheme renders_mutind from renders_mind, renders_members_mind, renders_elements_mind.

(** ** Lemmas: numbers *)

(** No number goes on with the first byte of [s]. *)
Definition stops (s : bytes) : bool :=
  match s with
  | [] => true
  | b :: _ => negb (isDigit b || (ub b =? 46) || (ub b =? 101) || (ub b =? 69) || (ub b =? 43) || (ub b =? 45))
  end.

Lemma numStep_stops st b s : stops (b :: s) = true -> numStep st b = None.
Proof.
  unfold stops. rewrite negb_true_iff, !orb_false_iff. intros (((((H1 & H2) & H3) & H4) & H5) & H6).
  unfold isDigit in H1. unfold numStep, numMark, isDigit. rewrite H1, H2, H3, H4, H5, H6.
  destruct st; try done. destruct (Z.eqb_spec (ub b) 48) as [E|]; [|done]. by rewrite E in H1.
Qed.

Lemma scanNumber_ok raw : forall st st' rest, numRun st raw = Some st' -> numFinal st' = true ->
  stops rest = true -> scanNumber st (raw ++ rest) = Some (raw, rest).
Proof.
  induction raw as [|b raw IH]; intros st st' rest; cbn [numRun app].
  - intros [= <-] Hf Hr. destruct rest as [|c rest]; cbn [scanNumber]; [by rewrite Hf|].
    by rewrite (numStep_stops _ _ _ Hr), Hf.
  - cbn [scanNumber]. destruct (numStep st b) as [st1|]; [|done]. intros Hn Hf Hr.
    by rewrite (IH st1 st' rest).
Qed.

Lemma scanNumber_sound s : forall st raw rest, scanNumber st s = Some (raw, rest) ->
  s = raw ++ rest /\ exists st', numRun st raw = Some st' /\ numFinal st' = true.
Proof.
  induction s as [|b s IH]; intros st raw rest; cbn [scanNumber].
  - destruct (numFinal st) eqn:E; [|done]. intros [= <- <-]. eauto.
  - destruct (numStep st b) as [st1|] eqn:E.
    + destruct (scanNumber st1 s) as [[raw' rest']|] eqn:Es; [|done]. intros [= <- <-].
      apply IH in Es as [-> Hr]. split; [done|]. cbn [numRun]. by rewrite E.
    + destruct (numFinal st) eqn:Ef; [|done]. intros [= <- <-]. eauto.
Qed.

(** ** Lemmas: the parser accepts the grammar *)

Lemma numStart_byte b st : numStart b = Some st -> ub b = 45 \/ 48 <= ub b <= 57.
Proof. unfold numStart, isDigit. repeat case_match; try done; intros _; lia. Qed.

(** No text of a value starts with a blank or a closing bracket. *)
Lemma renders_head d v t : renders d v t ->
  exists b t', t = b :: t' /\ isBlank b = false /\ ub b <> 93 /\ ub b <> 125.
Proof.
  destruct 1 as [| | |d text Hn| | | | |]; try (eexists _, _; split; [reflexivity|]; by split_and!).
  destruct text as [|b raw]; [done|]. destruct Hn as (st & st' & Hs & _). exists b, raw.
  apply numStart_byte in Hs. unfold isBlank. split_and!; [done| |lia..].
  rewrite !orb_false_iff, !Z.eqb_neq. lia.
Qed.

Lemma skipBlanks_app w s : blanks w -> skipBlanks (w ++ s) = skipBlanks s.
Proof. unfold blanks. induction w as [|b w IH]; [done|]. simpl. destruct (isBlank b); [apply IH|done]. Qed.

Lemma skipBlanks_id b s : isBlank b = false -> skipBlanks (b :: s) = b :: s.
Proof. intros E. cbn [skipBlanks]. by rewrite E. Qed.

Lemma skipBlanks_text d v t rest : renders d v t -> skipBlanks (t ++ rest) = t ++ rest.
Proof. intros (b & t' & -> & Hb & _)%renders_head. by apply skipBlanks_id. Qed.

Lemma blanks_stops w c s : blanks w -> stops (c :: s) = true -> stops (w ++ c :: s) = true.
Proof.
  destruct w as [|b w]; [done|]. unfold blanks, stops, isDigit. cbn [forallb app].
  intros [Hb _]%andb_true_iff _. unfold isBlank in Hb. rewrite !orb_true_iff, !Z.eqb_eq in Hb.
  by destruct Hb as [[[-> | ->]| ->]| ->].
Qed.

Lemma parseValue_string fuel d raw rest : strOK raw ->
  parseValue (S fuel) d (quoted raw ++ rest) = Some (JStr raw, rest).
Proof.
  intros Hr. unfold quoted. rewrite app_comm_cons, <- app_assoc. cbn [app parseValue].
  change (ub quote) with 34. cbn [Z.eqb Pos.eqb]. by rewrite scanString_ok.
Qed.

Lemma strip_literal c word b s : ub b < 97 -> 97 <= ub c -> strip_prefix (c :: word) (b :: s) = None.
Proof. intros Hb Hc. cbn [strip_prefix]. rewrite decide_False; [done|]. intros ->. lia. Qed.

Lemma parseValue_number fuel d text rest : numOK text -> stops rest = true ->
  parseValue (S fuel) d (text ++ rest) = Some (JNum text, rest).
Proof.
  destruct text as [|b raw]; [done|]. intros (st & st' & Hs & Hn & Hf) Hr.
  pose proof (numStart_byte b st Hs) as Hb. cbn [app parseValue].
  rewrite !(proj2 (Z.eqb_neq (ub b) _)) by lia.
  rewrite (strip_literal (byte_of 110) (str "ull")), (strip_literal (byte_of 116) (str "rue")),
    (strip_literal (byte_of 102) (str "alse")) by (lia || by vm_compute).
  rewrite Hs.
  by rewrite (scanNumber_ok raw st st').
Qed.

Lemma parseMembers_step fuel d key w1 w2 v t w3 c rest : strOK key -> blanks w1 -> blanks w2 -> blanks w3 ->
  renders d v t -> isBlank c = false -> parseValue fuel d (t ++ w3 ++ c :: rest) = Some (v, w3 ++ c :: rest) ->
  parseMembers (S fuel) d (quoted key ++ w1 ++ str ":" ++ w2 ++ t ++ w3 ++ c :: rest) =
    if ub c =? 44 then
      match parseMembers fuel d (skipBlanks rest) with
      | Some (ms, rest) => Some ((key, (t, v)) :: ms, rest)
      | None => None
      end
    else if ub c =? 125 then Some ([(key, (t, v))], rest) else None.
Proof.
  intros Hk H1 H2 H3 Ht Hc Hv. unfold quoted. rewrite app_comm_cons, <- app_assoc. cbn [app parseMembers].
  change (ub quote) with 34. cbn [Z.eqb Pos.eqb]. rewrite scanString_ok by done.
  rewrite (skipBlanks_app w1) by done. change (str ":") with [byte_of 58]. cbn [app].
  rewrite skipBlanks_id by done. change (ub (byte_of 58) =? 58) with true. cbv iota zeta.
  rewrite (skipBlanks_app w2), (skipBlanks_text _ _ _ _ Ht), Hv by done.
  rewrite (skipBlanks_app w3), skipBlanks_id by done.
  assert (take (length (t ++ w3 ++ c :: rest) - length (w3 ++ c :: rest)) (t ++ w3 ++ c :: rest) = t) as ->.
  { rewrite (length_app t), Nat.add_sub. apply take_app_length. }
  done.
Qed.

Lemma parseElements_step fuel d v t w c rest : blanks w -> isBlank c = false ->
  parseValue fuel d (t ++ w ++ c :: rest) = Some (v, w ++ c :: rest) ->
  parseElements (S fuel) d (t ++ w ++ c :: rest) =
    if ub c =? 44 then
      match parseElements fuel d (skipBlanks rest) with
      | Some (es, rest) => Some (v :: es, rest)
      | None => None
      end
    else if ub c =? 93 then Some ([v], rest) else None.
Proof. intros Hw Hc Hv. cbn [parseElements]. rewrite Hv, skipBlanks_app, skipBlanks_id by done. done. Qed.

Lemma members_head d ms s : renders_members d ms s -> exists s', s = quote :: s'.
Proof. by destruct 1; eexists. Qed.

Lemma elements_head d es s : renders_elements d es s ->
  exists b s', s = b :: s' /\ isBlank b = false /\ ub b <> 93.
Proof.
  destruct 1 as [d v t w Ht|d v t w1 w2 es s Ht]; destruct (renders_head _ _ _ Ht) as (b & t' & -> & Hb & Hn & _);
    by eexists _, _.
Qed.

Lemma parseValue_array fuel d w c s : blanks w -> d < maxNestingDepth -> isBlank c = false ->
  parseValue (S fuel) d (str "[" ++ w ++ c :: s) =
    if ub c =? 93 then Some (JArr [], s)
    else match parseElements fuel (d + 1) (c :: s) with
         | Some (es, rest) => Some (JArr es, rest)
         | None => None
         end.
Proof.
  intros Hw Hd Hc. change (str "[") with [byte_of 91]. cbn [app parseValue].
  change (ub (byte_of 91)) with 91. cbn [Z.eqb Pos.eqb]. rewrite (proj2 (Z.leb_gt _ _)) by done.
  by rewrite skipBlanks_app, skipBlanks_id.
Qed.

Lemma parseValue_object fuel d w c s : blanks w -> d < maxNestingDepth -> isBlank c = false ->
  parseValue (S fuel) d (str "{" ++ w ++ c :: s) =
    if ub c =? 125 then Some (JObj [], s)
    else match parseMembers fuel (d + 1) (c :: s) with
         | Some (ms, rest) => Some (JObj ms, rest)
         | None => None
         end.
Proof.
  intros Hw Hd Hc. change (str "{") with [byte_of 123]. cbn [app parseValue].
  change (ub (byte_of 123)) with 123. cbn [Z.eqb Pos.eqb]. rewrite (proj2 (Z.leb_gt _ _)) by done.
  by rewrite skipBlanks_app, skipBlanks_id.
Qed.

Lemma text_nonempty d v t : renders d v t -> (0 < length t)%nat.
Proof. intros (b & t' & -> & _)%renders_head. simpl. lia. Qed.

Lemma parse_complete :
  (forall d v t, renders d v t -> forall fuel rest, (2 * length t <= fuel)%nat -> stops rest = true ->
     parseValue fuel d (t ++ rest) = Some (v, rest)) /\
  (forall d ms s, renders_members d ms s -> forall fuel rest, (2 * length s <= fuel)%nat ->
     parseMembers fuel d (s ++ rest) = Some (ms, rest)) /\
  (forall d es s, renders_elements d es s -> forall fuel rest, (2 * length s <= fuel)%nat ->
     parseElements fuel d (s ++ rest) = Some (es, rest)).
Proof.
  apply renders_mutind.
  - intros d fuel rest Hf _. by destruct fuel; [simpl in Hf; lia|].
  - intros d fuel rest Hf _. by destruct fuel; [simpl in Hf; lia|].
  - intros d fuel rest Hf _. by destruct fuel; [simpl in Hf; lia|].
  - intros d text Hn fuel rest Hf Hr. destruct fuel; [|by apply parseValue_number].
    destruct text; [done|simpl in Hf; lia].
  - intros d raw Hr fuel rest Hf _. destruct fuel; [simpl in Hf; lia|]. by apply parseValue_string.
  - intros d w Hd Hw fuel rest Hf _. destruct fuel; [simpl in Hf; lia|]. rewrite <- !app_assoc.
    by apply parseValue_array.
  - intros d w es s Hd Hw He IH fuel rest Hf _. destruct fuel as [|fuel]; [simpl in Hf; lia|].
    rewrite <- !app_assoc. destruct (elements_head _ _ _ He) as (b & s' & -> & Hb & Hn). cbn [app].
    rewrite parseValue_array, (proj2 (Z.eqb_neq _ _)) by done. rewrite app_comm_cons, IH; [done|].
    rewrite !length_app in Hf. simpl in *. lia.
  - intros d w Hd Hw fuel rest Hf _. destruct fuel; [simpl in Hf; lia|]. rewrite <- !app_assoc.
    by apply parseValue_object.
  - intros d w ms s Hd Hw He IH fuel rest Hf _. destruct fuel as [|fuel]; [simpl in Hf; lia|].
    rewrite <- !app_assoc. destruct (members_head _ _ _ He) as (s' & ->). cbn [app].
    rewrite parseValue_object by done. change (ub quote =? 125) with false. cbv iota.
    rewrite app_comm_cons, IH; [done|]. rewrite !length_app in Hf. simpl in *. lia.
  - intros d key w1 w2 v t w3 Hk H1 H2 Ht IH H3 fuel rest Hf. rewrite !length_app in Hf.
    destruct fuel as [|fuel]; [simpl in Hf; lia|]. rewrite <- !app_assoc.
    change (str "}" ++ rest) with (byte_of 125 :: rest). rewrite (parseMembers_step _ _ _ _ _ v); try done.
    apply IH; [simpl in Hf; lia|]. by apply blanks_stops.
  - intros d key w1 w2 v t w3 w4 ms s Hk H1 H2 Ht IH H3 H4 Hm IHm fuel rest Hf. rewrite !length_app in Hf.
    destruct fuel as [|fuel]; [simpl in Hf; lia|]. rewrite <- !app_assoc.
    change (str "," ++ w4 ++ s ++ rest) with (byte_of 44 :: w4 ++ s ++ rest). rewrite (parseMembers_step _ _ _ _ _ v); try done.
    + change (ub (byte_of 44) =? 44) with true. cbv iota. rewrite skipBlanks_app by done.
      destruct (members_head _ _ _ Hm) as (s' & ->). cbn [app]. rewrite skipBlanks_id by done.
      rewrite app_comm_cons, IHm; [done|]. simpl in *. lia.
    + apply IH; [simpl in Hf; lia|]. by apply blanks_stops.
  - intros d v t w Ht IH Hw fuel rest Hf. rewrite !length_app in Hf.
    destruct fuel as [|fuel]; [simpl in Hf; lia|]. rewrite <- !app_assoc.
    change (str "]" ++ rest) with (byte_of 93 :: rest). rewrite (parseElements_step _ _ v); try done.
    apply IH; [simpl in Hf; lia|]. by apply blanks_stops.
  - intros d v t w1 w2 es s Ht IH H1 H2 He IHe fuel rest Hf. rewrite !length_app in Hf.
    pose proof (text_nonempty _ _ _ Ht).
    destruct fuel as [|fuel]; [simpl in Hf; lia|]. rewrite <- !app_assoc.
    change (str "," ++ w2 ++ s ++ rest) with (byte_of 44 :: w2 ++ s ++ rest).
    rewrite (parseElements_step _ _ v); try done.
    + change (ub (byte_of 44) =? 44) with true. cbv iota. rewrite skipBlanks_app by done.
      destruct (elements_head _ _ _ He) as (b & s' & -> & Hb & _). cbn [app]. rewrite skipBlanks_id by done.
      rewrite app_comm_cons, IHe; [done|]. simpl in *. lia.
    + apply IH; [simpl in Hf; lia|]. by apply blanks_stops.
Qed.

(** ** Lemmas: the parser accepts nothing else *)

Lemma skipBlanks_inv s : exists w, blanks w /\ s = w ++ skipBlanks s.
Proof.
  induction s as [|b s (w & Hw & E)]; [by exists []|]. cbn [skipBlanks].
  destruct (isBlank b) eqn:Eb; [|by exists []]. exists (b :: w). unfold blanks in *. cbn [forallb app].
  rewrite Eb. split; [done|]. by rewrite <- E.
Qed.

Lemma ub_byte b z : (ub b =? z) = true -> b = byte_of z.
Proof. intros E%Z.eqb_eq. by rewrite <- E, byte_of_ub. Qed.

Definition sound_at (fuel : nat) : Prop :=
  (forall d s v rest, parseValue fuel d s = Some (v, rest) -> exists t, s = t ++ rest /\ renders d v t) /\
  (forall d s ms rest, parseMembers fuel d s = Some (ms, rest) ->
     exists t, s = t ++ rest /\ renders_members d ms t) /\
  (forall d s es rest, parseElements fuel d s = Some (es, rest) ->
     exists t, s = t ++ rest /\ renders_elements d es t).

Lemma parseValue_sound fuel d s v rest : sound_at fuel ->
  parseValue (S fuel) d s = Some (v, rest) -> exists t, s = t ++ rest /\ renders d v t.
Proof.
  intros (_ & IHm & IHe). destruct s as [|b s]; [done|]. cbn [parseValue].
  destruct (ub b =? 123) eqn:E1; [apply ub_byte in E1 as ->|].
  { destruct (Z.leb_spec maxNestingDepth d); [done|]. destruct (skipBlanks_inv s) as (w & Hw & Es).
    destruct (skipBlanks s) as [|c after]; [done|]. destruct (ub c =? 125) eqn:E2.
    - apply ub_byte in E2 as ->. intros [= <- <-]. exists (str "{" ++ w ++ str "}").
      rewrite Es, <- !app_assoc. split; [done|]. by constructor.
    - destruct (parseMembers fuel (d + 1) (c :: after)) as [[ms r]|] eqn:Em; [|done]. intros [= <- <-].
      apply IHm in Em as (t & Et & Ht). exists (str "{" ++ w ++ t).
      rewrite Es, Et, <- !app_assoc. split; [done|]. by constructor. }
  destruct (ub b =? 91) eqn:E2; [apply ub_byte in E2 as ->|].
  { destruct (Z.leb_spec maxNestingDepth d); [done|]. destruct (skipBlanks_inv s) as (w & Hw & Es).
    destruct (skipBlanks s) as [|c after]; [done|]. destruct (ub c =? 93) eqn:E2.
    - apply ub_byte in E2 as ->. intros [= <- <-]. exists (str "[" ++ w ++ str "]").
      rewrite Es, <- !app_assoc. split; [done|]. by constructor.
    - destruct (parseElements fuel (d + 1) (c :: after)) as [[es r]|] eqn:Em; [|done]. intros [= <- <-].
      apply IHe in Em as (t & Et & Ht). exists (str "[" ++ w ++ t).
      rewrite Es, Et, <- !app_assoc. split; [done|]. by constructor. }
  destruct (ub b =? 34) eqn:E3; [apply ub_byte in E3 as ->|].
  { destruct (scanString InStr s) as [[raw r]|] eqn:Es; [|done]. intros [= <- <-].
    apply scanString_iff in Es as [-> Hr]. exists (quoted raw). unfold quoted.
    cbn [app]. rewrite <- app_assoc. split; [done|]. by constructor. }
  destruct (strip_prefix (str "null") (b :: s)) as [r|] eqn:En.
  { intros [= <- <-]. apply strip_prefix_app in En. exists (str "null"). split; [done|constructor]. }
  destruct (strip_prefix (str "true") (b :: s)) as [r|] eqn:Et.
  { intros [= <- <-]. apply strip_prefix_app in Et. exists (str "true"). split; [done|constructor]. }
  destruct (strip_prefix (str "false") (b :: s)) as [r|] eqn:Ef.
  { intros [= <- <-]. apply strip_prefix_app in Ef. exists (str "false"). split; [done|constructor]. }
  destruct (numStart b) as [st|] eqn:Eb; [|done].
  destruct (scanNumber st s) as [[raw r]|] eqn:Es; [|done]. intros [= <- <-].
  apply scanNumber_sound in Es as (-> & st' & Hn & Hf). exists (b :: raw). split; [done|].
  constructor. by exists st, st'.
Qed.

Lemma parseMembers_sound fuel d s ms rest : sound_at fuel ->
  parseMembers (S fuel) d s = Some (ms, rest) -> exists t, s = t ++ rest /\ renders_members d ms t.
Proof.
  intros (IHv & IHm & _). destruct s as [|q s]; [done|]. cbn [parseMembers].
  destruct (ub q =? 34) eqn:E1; [apply ub_byte in E1 as ->|done].
  destruct (scanString InStr s) as [[key s1]|] eqn:Ek; [|done]. apply scanString_iff in Ek as [-> Hk].
  destruct (skipBlanks_inv s1) as (w1 & H1 & Es1). destruct (skipBlanks s1) as [|c s2]; [done|].
  destruct (ub c =? 58) eqn:E2; [apply ub_byte in E2 as ->|done].
  destruct (skipBlanks_inv s2) as (w2 & H2 & Es2).
  destruct (parseValue fuel d (skipBlanks s2)) as [[v s3]|] eqn:Ev; [|done].
  apply IHv in Ev as (t & Et & Ht). rewrite Et in *. rewrite length_app, Nat.add_sub, take_app_length.
  destruct (skipBlanks_inv s3) as (w3 & H3 & Es3). destruct (skipBlanks s3) as [|c s4]; [done|].
  assert (Hs : quote :: key ++ quote :: s1 = quoted key ++ w1 ++ str ":" ++ w2 ++ t ++ w3 ++ c :: s4).
  { unfold quoted. rewrite Es1, Es2, Es3. cbn [app]. by rewrite <- !app_assoc. }
  change (byte_of 34) with quote. rewrite Hs. clear Hs Es1 Es2 Es3.
  destruct (ub c =? 44) eqn:E3; [apply ub_byte in E3 as ->|].
  - destruct (skipBlanks_inv s4) as (w4 & H4 & Es4).
    destruct (parseMembers fuel d (skipBlanks s4)) as [[ms' r]|] eqn:Em; [|done]. intros [= <- <-].
    apply IHm in Em as (t' & Et' & Ht').
    exists (quoted key ++ w1 ++ str ":" ++ w2 ++ t ++ w3 ++ str "," ++ w4 ++ t').
    rewrite Es4, Et', <- !app_assoc. split; [done|]. by constructor.
  - destruct (ub c =? 125) eqn:E4; [apply ub_byte in E4 as ->|done]. intros [= <- <-].
    exists (quoted key ++ w1 ++ str ":" ++ w2 ++ t ++ w3 ++ str "}"). rewrite <- !app_assoc.
    split; [done|]. by constructor.
Qed.

Lemma parseElements_sound fuel d s es rest : sound_at fuel ->
  parseElements (S fuel) d s = Some (es, rest) -> exists t, s = t ++ rest /\ renders_elements d es t.
Proof.
  intros (IHv & _ & IHe). cbn [parseElements].
  destruct (parseValue fuel d s) as [[v s3]|] eqn:Ev; [|done]. apply IHv in Ev as (t & -> & Ht).
  destruct (skipBlanks_inv s3) as (w3 & H3 & Es3). destruct (skipBlanks s3) as [|c s4]; [done|].
  rewrite Es3. clear Es3. destruct (ub c =? 44) eqn:E3; [apply ub_byte in E3 as ->|].
  - destruct (skipBlanks_inv s4) as (w4 & H4 & Es4).
    destruct (parseElements fuel d (skipBlanks s4)) as [[es' r]|] eqn:Em; [|done]. intros [= <- <-].
    apply IHe in Em as (t' & Et' & Ht'). exists (t ++ w3 ++ str "," ++ w4 ++ t').
    rewrite Es4, Et', <- !app_assoc. split; [done|]. by constructor.
  - destruct (ub c =? 93) eqn:E4; [apply ub_byte in E4 as ->|done]. intros [= <- <-].
    exists (t ++ w3 ++ str "]"). rewrite <- !app_assoc. split; [done|]. by constructor.
Qed.

Lemma parse_sound fuel : sound_at fuel.
Proof.
  induction fuel as [|fuel IH]; [by split_and!|]. split_and!; intros d s v rest.
  - by apply parseValue_sound.
  - by apply parseMembers_sound.
  - by apply parseElements_sound.
Qed.

(** The texts [parseJSON] accepts are those of the grammar, blanks around them. *)
Lemma parseJSON_iff s v : parseJSON s = Some v <->
  exists w1 t w2, s = w1 ++ t ++ w2 /\ blanks w1 /\ renders 0 v t /\ blanks w2.
Proof.
  unfold parseJSON. split.
  - destruct (skipBlanks_inv s) as (w1 & H1 & Es).
    destruct (parseValue _ 0 (skipBlanks s)) as [[v' rest]|] eqn:Ev; [|done].
    apply (parse_sound _) in Ev as (t & Et & Ht). destruct (skipBlanks_inv rest) as (w2 & H2 & Er).
    destruct (skipBlanks rest); [|done]. intros [= ->]. rewrite app_nil_r in Er. subst rest.
    exists w1, t, w2. by rewrite Es, Et.
  - intros (w1 & t & w2 & -> & H1 & Ht & H2). rewrite skipBlanks_app, (skipBlanks_text _ _ _ _ Ht) by done.
    rewrite (proj1 parse_complete _ _ _ Ht).
    + rewrite <- (app_nil_r w2), skipBlanks_app by done. done.
    + rewrite !length_app. lia.
    + rewrite <- (app_nil_r w2). destruct w2 as [|b w2]; [done|]. cbn [app]. apply andb_true_iff in H2 as [Hb _].
      unfold stops, isBlank, isDigit in *. rewrite !orb_true_iff, !Z.eqb_eq in Hb.
      by destruct Hb as [[[-> | ->]| ->]| ->].
Qed.

(** ** Lemmas: printing *)

Section Induction.

Variable P : json -> Prop.
Hypothesis Pnull : P JNull.
Hypothesis Pbool : forall b, P (JBool b).
Hypothesis Pnum : forall text, P (JNum text).
Hypothesis Pstr : forall raw, P (JStr raw).
Hypothesis Parr : forall es, Forall P es -> P (JArr es).
Hypothesis Pobj : forall ms, Forall (fun m : bytes * (bytes * json) => P m.2.2) ms -> P (JObj ms).

Fixpoint json_induction (v : json) : P v :=
  match v with
  | JNull => Pnull
  | JBool b => Pbool b
  | JNum text => Pnum text
  | JStr raw => Pstr raw
  | JArr es =>
    Parr es ((fix all (l : list json) : Forall P l :=
      match l with
      | [] => List.Forall_nil _
      | e :: l => List.Forall_cons _ _ _ (json_induction e) (all l)
      end) es)
  | JObj ms =>
    Pobj ms ((fix all (l : list (bytes * (bytes * json))) : Forall (fun m => P m.2.2) l :=
      match l with
      | [] => List.Forall_nil _
      | (key, (text, v)) :: l =>
        List.Forall_cons (fun m : bytes * (bytes * json) => P m.2.2) (key, (text, v)) l
          (json_induction v) (all l)
      end) ms)
  end.

End Induction.

(** The value with the text of each member as it is printed. *)
Fixpoint tidy (v : json) : json :=
  match v with
  | JArr es => JArr (map tidy es)
  | JObj ms => JObj (map (fun '(key, (_, v)) => (key, (print v, tidy v))) ms)
  | _ => v
  end.

(** How deep brackets nest in a value. *)
Fixpoint nesting (v : json) : Z :=
  match v with
  | JArr es => 1 + fold_right Z.max 0 (map nesting es)
  | JObj ms => 1 + fold_right Z.max 0 (map (fun '(_, (_, v)) => nesting v) ms)
  | _ => 0
  end.

Lemma map_ext_Forall {A B} (f g : A -> B) l : Forall (fun x => f x = g x) l -> map f l = map g l.
Proof. induction 1; simpl; congruence. Qed.

Lemma print_tidy v : print (tidy v) = print v.
Proof.
  induction v as [| | | |es IH|ms IH] using json_induction; try done; simpl.
  - do 3 f_equal. rewrite map_map. by apply map_ext_Forall.
  - do 3 f_equal. rewrite map_map. apply map_ext_Forall. eapply Forall_impl; [exact IH|].
    intros (key & text & v). simpl. by intros ->.
Qed.

Lemma print_escape_tidy v : print (escapeValue (tidy v)) = print (escapeValue v).
Proof.
  induction v as [| | | |es IH|ms IH] using json_induction; try done; simpl.
  - do 3 f_equal. rewrite !map_map. by apply map_ext_Forall.
  - do 3 f_equal. rewrite !map_map. apply map_ext_Forall. eapply Forall_impl; [exact IH|].
    intros (key & text & v). simpl. by intros ->.
Qed.

Lemma print_escape_idem v : print (escapeValue (escapeValue v)) = print (escapeValue v).
Proof.
  induction v as [| | |raw|es IH|ms IH] using json_induction; try done; simpl.
  - by rewrite escapeHTML_idem.
  - do 3 f_equal. rewrite !map_map. by apply map_ext_Forall.
  - do 3 f_equal. rewrite !map_map. apply map_ext_Forall. eapply Forall_impl; [exact IH|].
    intros (key & text & v). simpl. rewrite escapeHTML_idem. by intros ->.
Qed.

(** Printed without blanks, a value is a text of the grammar. *)
Definition printable (d : Z) (v : json) : Prop := renders d (tidy v) (print v).

Lemma members_printable d ms : ms <> [] ->
  Forall (fun m : bytes * (bytes * json) => strOK m.1 /\ printable d m.2.2) ms ->
  renders_members d (map (fun '(key, (_, v)) => (key, (print v, tidy v))) ms)
    (join (str ",") (map (fun '(key, (_, v)) => quoted key ++ str ":" ++ print v) ms) ++ str "}").
Proof.
  intros Hne. induction 1 as [|[key [text v]] ms [Hk Hv] Hms IH]; [done|]. simpl in Hk, Hv.
  destruct ms as [|m ms].
  - cbn [map join]. rewrite <- !app_assoc. by apply (rm_last d key [] [] (tidy v) (print v) []).
  - cbn [map join] in *. rewrite <- !app_assoc.
    apply (rm_cons d key [] [] (tidy v) (print v) [] []); try done. by apply IH.
Qed.

Lemma elements_printable d es : es <> [] -> Forall (printable d) es ->
  renders_elements d (map tidy es) (join (str ",") (map print es) ++ str "]").
Proof.
  intros Hne. induction 1 as [|v es Hv Hes IH]; [done|]. destruct es as [|e es].
  - cbn [map join]. by apply (re_last d (tidy v) (print v) []).
  - cbn [map join] in *. rewrite <- !app_assoc. apply (re_cons d (tidy v) (print v) [] []); try done. by apply IH.
Qed.

Lemma object_printable d ms : d < maxNestingDepth ->
  Forall (fun m : bytes * (bytes * json) => strOK m.1 /\ printable (d + 1) m.2.2) ms -> printable d (JObj ms).
Proof.
  intros Hd Hms. unfold printable. cbn [print tidy]. destruct ms as [|m ms].
  - by apply (r_obj_empty d []).
  - apply (r_obj d []); try done. by apply members_printable.
Qed.

Lemma array_printable d es : d < maxNestingDepth -> Forall (printable (d + 1)) es -> printable d (JArr es).
Proof.
  intros Hd Hes. unfold printable. cbn [print tidy]. destruct es as [|e es].
  - by apply (r_arr_empty d []).
  - apply (r_arr d []); try done. by apply elements_printable.
Qed.

Lemma renders_nesting :
  (forall d v t, renders d v t -> d <= maxNestingDepth -> d + nesting v <= maxNestingDepth) /\
  (forall d ms s, renders_members d ms s -> d <= maxNestingDepth ->
     d + fold_right Z.max 0 (map (fun '(_, (_, v)) => nesting v) ms) <= maxNestingDepth) /\
  (forall d es s, renders_elements d es s -> d <= maxNestingDepth ->
     d + fold_right Z.max 0 (map nesting es) <= maxNestingDepth).
Proof.
  apply renders_mutind; intros; simpl in *; lia.
Qed.

Lemma fold_max_nonneg l : 0 <= fold_right Z.max 0 l.
Proof. induction l; simpl; lia. Qed.

(** A value that has been read prints as a text of the grammar, also with HTML
    escapes and inside other values. *)
Lemma read_printable :
  (forall d v t, renders d v t -> forall d', d' + nesting v <= maxNestingDepth ->
     printable d' v /\ printable d' (escapeValue v)) /\
  (forall d ms s, renders_members d ms s -> forall d',
     d' + fold_right Z.max 0 (map (fun '(_, (_, v)) => nesting v) ms) <= maxNestingDepth ->
     Forall (fun m : bytes * (bytes * json) => strOK m.1 /\ printable d' m.2.2) ms /\
     Forall (fun m : bytes * (bytes * json) => strOK (escapeHTML m.1) /\ printable d' (escapeValue m.2.2)) ms) /\
  (forall d es s, renders_elements d es s -> forall d',
     d' + fold_right Z.max 0 (map nesting es) <= maxNestingDepth ->
     Forall (printable d') es /\ Forall (fun e => printable d' (escapeValue e)) es).
Proof.
  apply renders_mutind.
  - intros d d' _. split; constructor.
  - intros d d' _. split; constructor.
  - intros d d' _. split; constructor.
  - intros d text Hn d' _. split; by constructor.
  - intros d raw Hr d' _. split; constructor; [done|]. by apply escapeHTML_ok.
  - intros d w _ _ d' Hn. simpl in Hn. split; apply array_printable; (lia || constructor).
  - intros d w es s _ _ _ IH d' Hn. simpl in Hn. pose proof (fold_max_nonneg (map nesting es)).
    destruct (IH (d' + 1)) as [I1 I2]; [lia|].
    split; apply array_printable; [lia|done|lia|]. by apply Forall_fmap.
  - intros d w _ _ d' Hn. simpl in Hn. split; apply object_printable; (lia || constructor).
  - intros d w ms s _ _ _ IH d' Hn. simpl in Hn.
    pose proof (fold_max_nonneg (map (fun '(_, (_, v)) => nesting v) ms)).
    destruct (IH (d' + 1)) as [I1 I2]; [lia|].
    split; apply object_printable; [lia|done|lia|]. apply Forall_fmap. eapply Forall_impl; [exact I2|].
    by intros (key & text & v).
  - intros d key w1 w2 v t w3 Hk _ _ _ IH _ d' Hn. simpl in Hn. destruct (IH d') as [I1 I2]; [lia|].
    split; (constructor; [|constructor]); split; try done. by apply escapeHTML_ok.
  - intros d key w1 w2 v t w3 w4 ms s Hk _ _ _ IH _ _ _ IHm d' Hn. simpl in Hn.
    destruct (IH d') as [I1 I2]; [lia|]. destruct (IHm d') as [J1 J2]; [lia|].
    split; (constructor; [|done]); split; try done. by apply escapeHTML_ok.
  - intros d v t w _ IH _ d' Hn. simpl in Hn. destruct (IH d') as [I1 I2]; [lia|].
    split; (constructor; [done|constructor]).
  - intros d v t w1 w2 es s _ IH _ _ _ IHe d' Hn. simpl in Hn.
    destruct (IH d') as [I1 I2]; [lia|]. destruct (IHe d') as [J1 J2]; [lia|].
    split; by constructor.
Qed.

Lemma parseJSON_print v : printable 0 v -> parseJSON (print v) = Some (tidy v).
Proof.
  intros Hv. apply parseJSON_iff. exists [], (print v), []. by rewrite app_nil_r.
Qed.

Lemma parseJSON_nesting s v : parseJSON s = Some v -> nesting v <= maxNestingDepth.
Proof.
  intros (w1 & t & w2 & _ & _ & Ht & _)%parseJSON_iff.
  pose proof (proj1 renders_nesting _ _ _ Ht). unfold maxNestingDepth in *. lia.
Qed.

Lemma parsed_printable s v d : parseJSON s = Some v -> d + nesting v <= maxNestingDepth ->
  printable d v /\ printable d (escapeValue v).
Proof.
  intros (w1 & t & w2 & _ & _ & Ht & _)%parseJSON_iff. apply (proj1 read_printable _ _ _ Ht).
Qed.

Lemma compact_idem s c : compact s = Some c -> compact c = Some c.
Proof.
  unfold compact. destruct (parseJSON s) as [v|] eqn:E; [|done]. intros [= <-].
  pose proof (parseJSON_nesting _ _ E). rewrite parseJSON_print.
  - by rewrite print_escape_tidy, print_escape_idem.
  - by eapply parsed_printable.
Qed.

(** ** Lemmas: indentation *)

Fixpoint tidyIndent (level : nat) (v : json) : json :=
  match v with
  | JArr es => JArr (map (tidyIndent (S level)) es)
  | JObj ms =>
    JObj (map (fun '(key, (_, v)) => (key, (printIndent (S level) v, tidyIndent (S level) v))) ms)
  | _ => v
  end.

Lemma newline_blanks level : blanks (newline level).
Proof.
  unfold newline, blanks. cbn [forallb]. induction level as [|level IH]; [done|].
  cbn [replicate concat]. rewrite forallb_app, andb_assoc. by rewrite andb_true_r.
Qed.

Lemma printIndent_object level ms : ms <> [] -> printIndent level (JObj ms) =
  str "{" ++ newline (S level)
  ++ join (str "," ++ newline (S level))
       (map (fun '(key, (_, v)) => quoted key ++ str ": " ++ printIndent (S level) v) ms)
  ++ newline level ++ str "}".
Proof. by destruct ms. Qed.

Lemma printIndent_array level es : es <> [] -> printIndent level (JArr es) =
  str "[" ++ newline (S level) ++ join (str "," ++ newline (S level)) (map (printIndent (S level)) es)
  ++ newline level ++ str "]".
Proof. by destruct es. Qed.

Lemma members_nonempty d ms s : renders_members d ms s -> ms <> [].
Proof. by destruct 1. Qed.

Lemma elements_nonempty d es s : renders_elements d es s -> es <> [].
Proof. by destruct 1. Qed.

Lemma read_indentable :
  (forall d v t, renders d v t -> forall level, renders d (tidyIndent level v) (printIndent level v)) /\
  (forall d ms s, renders_members d ms s -> forall level,
     renders_members d
       (map (fun '(key, (_, v)) => (key, (printIndent (S level) v, tidyIndent (S level) v))) ms)
       (join (str "," ++ newline (S level))
          (map (fun '(key, (_, v)) => quoted key ++ str ": " ++ printIndent (S level) v) ms)
        ++ newline level ++ str "}")) /\
  (forall d es s, renders_elements d es s -> forall level,
     renders_elements d (map (tidyIndent (S level)) es)
       (join (str "," ++ newline (S level)) (map (printIndent (S level)) es) ++ newline level ++ str "]")).
Proof.
  apply renders_mutind; try (intros; constructor; done).
  - intros d w Hd _ level. by apply (r_arr_empty d []).
  - intros d w es s Hd _ He IH level. rewrite printIndent_array by (by eapply elements_nonempty).
    apply r_arr; [done|apply newline_blanks|apply IH].
  - intros d w Hd _ level. by apply (r_obj_empty d []).
  - intros d w ms s Hd _ He IH level. rewrite printIndent_object by (by eapply members_nonempty).
    apply r_obj; [done|apply newline_blanks|apply IH].
  - intros d key w1 w2 v t w3 Hk _ _ _ IH _ level. cbn [map join]. rewrite <- !app_assoc.
    apply (rm_last d key [] (str " ")); (done || apply IH || apply newline_blanks || apply IHm || apply IHe).
  - intros d key w1 w2 v t w3 w4 ms s Hk _ _ _ IH _ _ Hm IHm level.
    specialize (IHm level). destruct ms as [|m ms]; [by apply members_nonempty in Hm|].
    cbn [map join] in *. rewrite <- !app_assoc.
    apply (rm_cons d key [] (str " ") _ _ []); (done || apply IH || apply newline_blanks || apply IHm || apply IHe).
  - intros d v t w _ IH _ level. cbn [map join]. apply re_last; (apply IH || apply newline_blanks).
  - intros d v t w1 w2 es s _ IH _ _ He IHe level. specialize (IHe level).
    destruct es as [|e es]; [by apply elements_nonempty in He|]. cbn [map join] in *. rewrite <- !app_assoc.
    apply (re_cons d _ _ []); (done || apply IH || apply newline_blanks || apply IHm || apply IHe).
Qed.

Lemma printIndent_tidy v : forall level, printIndent level (tidy v) = printIndent level v.
Proof.
  induction v as [| | | |es IH|ms IH] using json_induction; intros level; try done.
  - destruct es as [|e es]; [done|]. cbn [tidy]. rewrite !printIndent_array by done. do 3 f_equal.
    rewrite map_map. f_equal. apply map_ext_Forall. eapply Forall_impl; [exact IH|]. by intros v Hv.
  - destruct ms as [|m ms]; [done|]. cbn [tidy]. rewrite !printIndent_object by done. do 3 f_equal.
    rewrite map_map. f_equal. apply map_ext_Forall. eapply Forall_impl; [exact IH|].
    intros (key & text & v) Hv. simpl in *. by rewrite Hv.
Qed.

Lemma tidyIndent_tidy v : forall level, tidyIndent level (tidy v) = tidyIndent level v.
Proof.
  induction v as [| | | |es IH|ms IH] using json_induction; intros level; try done; cbn [tidy tidyIndent];
    f_equal; rewrite map_map; apply map_ext_Forall; (eapply Forall_impl; [exact IH|]).
  - by intros v Hv.
  - intros (key & text & v) Hv. simpl in *. by rewrite Hv, printIndent_tidy.
Qed.

Lemma parseJSON_printIndent v level : printable 0 v ->
  parseJSON (printIndent level v) = Some (tidyIndent level v).
Proof.
  intros Hv. apply parseJSON_iff. exists [], (printIndent level v), []. rewrite app_nil_r.
  split_and!; try done. pose proof (proj1 read_indentable _ _ _ Hv level) as Hr.
  by rewrite printIndent_tidy, tidyIndent_tidy in Hr.
Qed.

(** ** Lemmas: printing on one line *)

Definition oneLine (s : bytes) : Prop := Forall (fun b => ub b <> 10) s.

Lemma strStep_newline st b st' : strStep st b = Some st' -> ub b <> 10.
Proof. destruct st; destruct b; vm_compute; congruence. Qed.

Lemma strRun_oneLine s : forall st st', strRun st s = Some st' -> oneLine s.
Proof.
  induction s as [|b s IH]; intros st st' H; [constructor|]. cbn [strRun] in H.
  destruct (strStep st b) as [st1|] eqn:E; [|done]. constructor; [by eapply strStep_newline|by eapply IH].
Qed.

Lemma numStep_newline st b st' : numStep st b = Some st' -> ub b <> 10.
Proof. intros H E. destruct (ub b =? 10) eqn:E10; [|lia]. apply ub_byte in E10 as ->. by destruct st. Qed.

Lemma numRun_oneLine s : forall st st', numRun st s = Some st' -> oneLine s.
Proof.
  induction s as [|b s IH]; intros st st' H; [constructor|]. cbn [numRun] in H.
  destruct (numStep st b) as [st1|] eqn:E; [|done]. constructor; [by eapply numStep_newline|by eapply IH].
Qed.

Lemma numOK_oneLine s : numOK s -> oneLine s.
Proof.
  destruct s as [|b s]; [done|]. intros (st & st' & Hb & Hs & _).
  constructor; [destruct (numStart_byte _ _ Hb); lia|by eapply numRun_oneLine].
Qed.

Lemma quoted_oneLine raw : strOK raw -> oneLine (quoted raw).
Proof.
  intros H. unfold quoted. constructor; [by vm_compute|]. apply Forall_app. split.
  - by eapply strRun_oneLine.
  - by repeat constructor.
Qed.

Lemma join_oneLine sep l : oneLine sep -> Forall oneLine l -> oneLine (join sep l).
Proof.
  intros Hs. induction 1 as [|x l Hx Hl IH]; [constructor|]. destruct l; [done|].
  change (join sep _) with (x ++ sep ++ join sep (l :: l0)). unfold oneLine in *. by rewrite !Forall_app.
Qed.

Lemma literal_oneLine s : forallb (fun b => negb (ub b =? 10)) s = true -> oneLine s.
Proof. intros H. apply Forall_forall. intros b Hb%list_elem_of_In. rewrite forallb_forall in H. specialize (H b Hb). lia. Qed.

Lemma bracketed_oneLine a b s : oneLine s -> ub a <> 10 -> ub b <> 10 -> oneLine ([a] ++ s ++ [b]).
Proof. intros Hs Ha Hb. unfold oneLine in *. rewrite !Forall_app, !Forall_singleton. auto. Qed.

Lemma renders_oneLine :
  (forall d v t, renders d v t -> oneLine (print v)) /\
  (forall d ms s, renders_members d ms s ->
     Forall oneLine (map (fun '(key, (_, v)) => quoted key ++ str ":" ++ print v) ms)) /\
  (forall d es s, renders_elements d es s -> Forall oneLine (map print es)).
Proof.
  apply renders_mutind; intros; try (apply literal_oneLine; vm_compute; reflexivity); cbn [print map] in *.
  - by apply numOK_oneLine.
  - by apply quoted_oneLine.
  - apply (bracketed_oneLine (byte_of 91) (byte_of 93)); try (vm_compute; congruence).
    apply join_oneLine; [|done]. apply literal_oneLine. reflexivity.
  - apply (bracketed_oneLine (byte_of 123) (byte_of 125)); try (vm_compute; congruence).
    apply join_oneLine; [|done]. apply literal_oneLine. reflexivity.
  - apply Forall_singleton. unfold oneLine. rewrite !Forall_app. split_and!; try done; [by apply quoted_oneLine|].
    apply literal_oneLine. reflexivity.
  - constructor; [|done]. unfold oneLine. rewrite !Forall_app. split_and!; try done; [by apply quoted_oneLine|].
    apply literal_oneLine. reflexivity.
  - by apply Forall_singleton.
  - by constructor.
Qed.

Lemma print_oneLine d v : printable d v -> oneLine (print v).
Proof. intros H. rewrite <- print_tidy. exact (proj1 renders_oneLine _ _ _ H). Qed.
