(* ===== verification/GoTime.v ===== *)
(** * Calendar time

    The part of Go's [time] package the modelled code uses: an instant with a
    zone offset, [time.Date] with its normalisation, the civil accessors,
    [UTC] and [IsZero], in the proleptic Gregorian calendar; formatting and parsing
    with the layout of an hour, 2006-01-02T15. *)

From S2P Require Import Prelude GoStd.

(** ** The calendar *)

Definition isLeap (year : Z) : bool :=
  (year mod 4 =? 0) && (negb (year mod 100 =? 0) || (year mod 400 =? 0)).

(** Days from 1 January of year 1 to 1 January of [year]. *)
Definition daysBeforeYear (year : Z) : Z :=
  let p := year - 1 in 365 * p + p / 4 - p / 100 + p / 400.

(** Days of a year before the first of [month]. *)
Definition daysBeforeMonth (leap : bool) (month : Z) : Z :=
  let l := if leap then 1 else 0 in
  if month =? 1 then 0 else if month =? 2 then 31
  else l + (if month =? 3 then 59 else if month =? 4 then 90 else if month =? 5 then 120
    else if month =? 6 then 151 else if month =? 7 then 181 else if month =? 8 then 212
    else if month =? 9 then 243 else if month =? 10 then 273 else if month =? 11 then 304
    else if month =? 12 then 334 else 365).

Definition daysIn (year month : Z) : Z :=
  daysBeforeMonth (isLeap year) (month + 1) - daysBeforeMonth (isLeap year) month.

(** The year of a day counted from 1 January of year 1: an estimate from the
    400-year cycle, corrected by at most one. *)
Definition yearOfDay (d : Z) : Z :=
  let y := d * 400 / 146097 + 1 in
  if d <? daysBeforeYear y then y - 1
  else if daysBeforeYear (y + 1) <=? d then y + 1
  else y.

(** The month of the day [yday] (from 0) of a year. *)
Fixpoint monthOfYday_from (fuel : nat) (leap : bool) (yday month : Z) : Z :=
  match fuel with
  | O => month
  | S fuel => if yday <? daysBeforeMonth leap (month + 1) then month
              else monthOfYday_from fuel leap yday (month + 1)
  end.

Definition monthOfYday (leap : bool) (yday : Z) : Z := monthOfYday_from 11 leap yday 1.

(** ** Instants *)

(** Seconds since the Unix epoch, nanoseconds, and the offset of the location. *)
Record Time : Type := mkTime { unixSec : Z; nanosecond : Z; zoneOffset : Z }.

Definition unixEpochDay : Z := 719162.

(** [t.UnixNano()], an int64. *)
Definition UnixNano (t : Time) : Z := wrap_s 64 (unixSec t * 10 ^ 9 + nanosecond t).

(** [time.Unix(0, 0)]; the location does not matter. *)
Definition epochTime : Time := mkTime 0 0 0.

(** [time.Time{}]: 1 January of year 1, UTC. *)
Definition zeroTime : Time := mkTime (- unixEpochDay * 86400) 0 0.

Definition IsZero (t : Time) : bool :=
  (unixSec t =? unixSec zeroTime) && (nanosecond t =? 0).

Definition UTC (t : Time) : Time := mkTime (unixSec t) (nanosecond t) 0.

(** [time.Date(year, month, day, hour, min, sec, nsec, time.UTC)] *)
Definition Date (year month day hour min sec nsec : Z) : Time :=
  let y := year + (month - 1) / 12 in
  let m := (month - 1) mod 12 + 1 in
  let days := daysBeforeYear y + daysBeforeMonth (isLeap y) m + (day - 1) - unixEpochDay in
  mkTime (days * 86400 + hour * 3600 + min * 60 + sec + nsec / 10 ^ 9) (nsec mod 10 ^ 9) 0.

(** [time.Unix(0, ns).UTC()] *)
Definition UnixUTC (ns : Z) : Time := mkTime (ns / 10 ^ 9) (ns mod 10 ^ 9) 0.

(** The civil fields of an instant in its location. *)
Definition localSec (t : Time) : Z := unixSec t + zoneOffset t.
Definition civilDay (t : Time) : Z := localSec t / 86400 + unixEpochDay.
Definition Year (t : Time) : Z := yearOfDay (civilDay t).
Definition YearDay0 (t : Time) : Z := civilDay t - daysBeforeYear (Year t).
Definition Month (t : Time) : Z := monthOfYday (isLeap (Year t)) (YearDay0 t).
Definition Day (t : Time) : Z := YearDay0 t - daysBeforeMonth (isLeap (Year t)) (Month t) + 1.
Definition Hour (t : Time) : Z := localSec t mod 86400 / 3600.
Definition Minute (t : Time) : Z := localSec t mod 3600 / 60.
Definition Second (t : Time) : Z := localSec t mod 60.
Definition Nanosecond (t : Time) : Z := nanosecond t.

(** A date that exists in the calendar and a time of day. *)
Record civil_valid (year month day hour min sec nsec : Z) : Prop := {
  cv_month : 1 <= month <= 12;
  cv_day : 1 <= day <= daysIn year month;
  cv_hour : 0 <= hour <= 23;
  cv_min : 0 <= min <= 59;
  cv_sec : 0 <= sec <= 59;
  cv_nsec : 0 <= nsec < 10 ^ 9 }.

(** ** Years *)

Ltac div_lia := Z.to_euclidean_division_equations; lia.

Lemma UnixNano_range t : in_s 64 (UnixNano t).
Proof. apply wrap_s_range. lia. Qed.

Lemma yearLength y :
  daysBeforeYear (y + 1) - daysBeforeYear y = if isLeap y then 366 else 365.
Proof.
  unfold daysBeforeYear, isLeap. replace (y + 1 - 1) with y by lia.
  destruct (y mod 4 =? 0) eqn:E4; destruct (y mod 100 =? 0) eqn:E100;
    destruct (y mod 400 =? 0) eqn:E400; simpl; b2p; div_lia.
Qed.

Lemma daysBeforeYear_step y : daysBeforeYear y + 365 <= daysBeforeYear (y + 1).
Proof. pose proof (yearLength y) as H. destruct (isLeap y); lia. Qed.

Lemma daysBeforeYear_mono y1 y2 : y1 <= y2 -> daysBeforeYear y1 <= daysBeforeYear y2.
Proof. unfold daysBeforeYear. intros. div_lia. Qed.

Lemma yearOfDay_spec d :
  daysBeforeYear (yearOfDay d) <= d < daysBeforeYear (yearOfDay d + 1).
Proof.
  unfold yearOfDay. set (q := d * 400 / 146097).
  assert (Hq : 146097 * q <= d * 400 < 146097 * (q + 1)) by (subst q; div_lia).
  assert (Hlo : daysBeforeYear q <= d) by (unfold daysBeforeYear; div_lia).
  assert (Hhi : d < daysBeforeYear (q + 3)) by (unfold daysBeforeYear; div_lia).
  repeat case_if; [replace (q + 1 - 1) with q by lia|replace (q + 1 + 1 + 1) with (q + 3) by lia|];
    lia.
Qed.

Lemma yearOfDay_unique d y : daysBeforeYear y <= d < daysBeforeYear (y + 1) -> yearOfDay d = y.
Proof.
  intros H. pose proof (yearOfDay_spec d) as S. set (y' := yearOfDay d) in *.
  destruct (Z.lt_trichotomy y' y) as [L|[E|L]]; [|done|].
  - pose proof (daysBeforeYear_mono (y' + 1) y). lia.
  - pose proof (daysBeforeYear_mono (y + 1) y'). lia.
Qed.

(** ** Months *)

Lemma month_cases m : 1 <= m <= 12 -> m = 1 \/ m = 2 \/ m = 3 \/ m = 4 \/ m = 5 \/ m = 6 \/ m = 7
  \/ m = 8 \/ m = 9 \/ m = 10 \/ m = 11 \/ m = 12.
Proof. lia. Qed.

Ltac month_case H := apply month_cases in H; repeat destruct H as [->|H]; [..|subst].

Lemma daysBeforeMonth_step leap m : 1 <= m <= 12 ->
  28 <= daysBeforeMonth leap (m + 1) - daysBeforeMonth leap m <= 31.
Proof. intros H. destruct leap; month_case H; by vm_compute. Qed.

Lemma daysBeforeMonth_mono leap m1 m2 : 1 <= m1 <= m2 -> m2 <= 13 ->
  daysBeforeMonth leap m1 <= daysBeforeMonth leap m2.
Proof.
  intros H1 H2. replace m2 with (m1 + Z.of_nat (Z.to_nat (m2 - m1))) in * by lia.
  induction (Z.to_nat (m2 - m1)) as [|n IH]; [rewrite Z.add_0_r; lia|].
  rewrite Nat2Z.inj_succ in *. specialize (IH ltac:(lia) ltac:(lia)).
  pose proof (daysBeforeMonth_step leap (m1 + Z.of_nat n)).
  replace (m1 + Z.succ (Z.of_nat n)) with (m1 + Z.of_nat n + 1) by lia. lia.
Qed.

Lemma monthOfYday_from_spec leap yday n m : 1 <= m -> m + Z.of_nat n = 12 ->
  daysBeforeMonth leap m <= yday < daysBeforeMonth leap 13 ->
  let r := monthOfYday_from n leap yday m in
  m <= r <= 12 /\ daysBeforeMonth leap r <= yday < daysBeforeMonth leap (r + 1).
Proof.
  revert m. induction n as [|n IH]; intros m Hm Hn Hy; cbn [monthOfYday_from].
  - assert (m = 12) as -> by lia. cbv zeta. change (12 + 1) with 13. lia.
  - case_if; [cbv zeta; lia|]. destruct (IH (m + 1)) as [H1 H2]; [lia..|]. cbv zeta. lia.
Qed.

Lemma monthOfYday_spec leap yday : 0 <= yday < daysBeforeMonth leap 13 ->
  1 <= monthOfYday leap yday <= 12 /\
  daysBeforeMonth leap (monthOfYday leap yday) <= yday
    < daysBeforeMonth leap (monthOfYday leap yday + 1).
Proof. intros H. by apply (monthOfYday_from_spec leap yday 11 1). Qed.

Lemma monthOfYday_unique leap yday m : 1 <= m <= 12 ->
  daysBeforeMonth leap m <= yday < daysBeforeMonth leap (m + 1) -> monthOfYday leap yday = m.
Proof.
  intros Hm Hy. pose proof (daysBeforeMonth_mono leap 1 m).
  pose proof (daysBeforeMonth_mono leap (m + 1) 13).
  change (daysBeforeMonth leap 1) with 0 in *.
  destruct (monthOfYday_spec leap yday) as [H1 H2]; [lia|].
  set (m' := monthOfYday leap yday) in *.
  destruct (Z.lt_trichotomy m' m) as [L|[E|L]]; [|done|].
  - pose proof (daysBeforeMonth_mono leap (m' + 1) m). lia.
  - pose proof (daysBeforeMonth_mono leap (m + 1) m'). lia.
Qed.

(** ** The accessors and [time.Date] *)

Lemma YearDay0_range t : 0 <= YearDay0 t < daysBeforeMonth (isLeap (Year t)) 13.
Proof.
  unfold YearDay0. pose proof (yearOfDay_spec (civilDay t)) as H. fold (Year t) in H.
  pose proof (yearLength (Year t)) as L. destruct (isLeap (Year t)); simpl;
    unfold daysBeforeMonth; simpl; lia.
Qed.

(** The accessors always report a date of the calendar. *)
Lemma accessors_valid t : 0 <= nanosecond t < 10 ^ 9 ->
  civil_valid (Year t) (Month t) (Day t) (Hour t) (Minute t) (Second t) (Nanosecond t).
Proof.
  intros Hn. destruct (monthOfYday_spec _ _ (YearDay0_range t)) as [Hm Hd]. constructor.
  - exact Hm.
  - unfold Day, daysIn. fold (Month t) in *. lia.
  - unfold Hour. div_lia.
  - unfold Minute. div_lia.
  - unfold Second. div_lia.
  - exact Hn.
Qed.

(** The accessors of [time.Date] give back the fields of a valid date. *)
Lemma Date_accessors y m d h mi s ns : civil_valid y m d h mi s ns ->
  let t := Date y m d h mi s ns in
  Year t = y /\ Month t = m /\ Day t = d /\ Hour t = h /\ Minute t = mi /\ Second t = s /\
  Nanosecond t = ns.
Proof.
  intros [Hm Hd Hh Hmi Hs Hns]. unfold daysIn in Hd. set (t := Date y m d h mi s ns).
  assert (Hloc : localSec t = (daysBeforeYear y + daysBeforeMonth (isLeap y) m + (d - 1)
    - unixEpochDay) * 86400 + h * 3600 + mi * 60 + s).
  { unfold t, localSec, Date. cbn [unixSec zoneOffset].
    rewrite (Z.div_small (m - 1)), (Z.mod_small (m - 1)), (Z.div_small ns) by lia.
    replace (m - 1 + 1) with m by lia. rewrite !Z.add_0_r. done. }
  assert (Hday : civilDay t = daysBeforeYear y + daysBeforeMonth (isLeap y) m + (d - 1)).
  { unfold civilDay. rewrite Hloc. div_lia. }
  pose proof (daysBeforeMonth_mono (isLeap y) 1 m).
  pose proof (daysBeforeMonth_mono (isLeap y) (m + 1) 13).
  change (daysBeforeMonth (isLeap y) 1) with 0 in *.
  assert (H13 : daysBeforeYear (y + 1) = daysBeforeYear y + daysBeforeMonth (isLeap y) 13).
  { pose proof (yearLength y). destruct (isLeap y); unfold daysBeforeMonth; simpl; lia. }
  assert (HY : Year t = y) by (apply yearOfDay_unique; lia).
  assert (HM : Month t = m)
    by (unfold Month; apply monthOfYday_unique; unfold YearDay0; rewrite ?HY; lia).
  split; [done|]. split; [done|]. split; [unfold Day, YearDay0; rewrite HM, HY; lia|].
  unfold Hour, Minute, Second. rewrite Hloc.
  split; [div_lia|]. split; [div_lia|]. split; [div_lia|].
  unfold t. cbn [Nanosecond nanosecond Date]. apply Z.mod_small. lia.
Qed.

Lemma Date_nanosecond_range y m d h mi s ns : 0 <= nanosecond (Date y m d h mi s ns) < 10 ^ 9.
Proof. cbn [nanosecond Date]. apply Z.mod_pos_bound. lia. Qed.

(** The local reading of an instant, taken as a date. *)
Lemma Date_local t ns : 0 <= ns < 10 ^ 9 ->
  Date (Year t) (Month t) (Day t) (Hour t) (Minute t) (Second t) ns = mkTime (localSec t) ns 0.
Proof.
  intros Hns. destruct (monthOfYday_spec _ _ (YearDay0_range t)) as [Hm _]. fold (Month t) in Hm.
  unfold Date. cbv zeta. rewrite (Z.div_small (Month t - 1)), (Z.mod_small (Month t - 1)) by lia.
  rewrite (Z.div_small ns), (Z.mod_small ns) by done.
  replace (Month t - 1 + 1) with (Month t) by lia. rewrite !Z.add_0_r.
  assert (daysBeforeYear (Year t) + daysBeforeMonth (isLeap (Year t)) (Month t) + (Day t - 1)
    - unixEpochDay = localSec t / 86400) as -> by (unfold Day, YearDay0, civilDay; lia).
  f_equal. unfold Hour, Minute, Second. generalize (localSec t). intros z. div_lia.
Qed.

(** An instant in UTC is the date its accessors report, to the second. *)
Lemma Date_of_accessors t : zoneOffset t = 0 ->
  Date (Year t) (Month t) (Day t) (Hour t) (Minute t) (Second t) 0 = mkTime (unixSec t) 0 0.
Proof. intros Hz. rewrite Date_local by lia. unfold localSec. by rewrite Hz, Z.add_0_r. Qed.

(** ** Hours as text *)

(** [t.Format("2006-01-02T15")] *)
Definition FormatYMDH (t : Time) : bytes :=
  Sprintf "%04d-%02d-%02dT%02d" [FInt (Year t); FInt (Month t); FInt (Day t); FInt (Hour t)].

Definition digitValue (b : byte) : option Z :=
  if (48 <=? ub b) && (ub b <=? 57) then Some (ub b - 48) else None.

Fixpoint digitsValue (acc : Z) (l : bytes) : option Z :=
  match l with
  | [] => Some acc
  | b :: l => d ← digitValue b; digitsValue (10 * acc + d) l
  end.

(** The function getnum of the time package: two digits, or one unless [fixed]. *)
Definition getnum (fixed : bool) (s : bytes) : option (Z * bytes) :=
  match s with
  | [] => None
  | a :: s =>
    d ← digitValue a;
    match s with
    | [] => if fixed then None else Some (d, [])
    | b :: s' => match digitValue b with
                 | Some e => Some (10 * d + e, s')
                 | None => if fixed then None else Some (d, s)
                 end
    end
  end.

(** [time.Parse("2006-01-02T15", s)], without the text of its error. *)
Definition ParseYMDH (s : bytes) : option Time :=
  if zlen s <? 4 then None else
  year ← digitsValue 0 (take 4 s);
  s ← strip_prefix (str "-") (drop 4 s);
  '(month, s) ← getnum true s;
  if (month <=? 0) || (12 <? month) then None else
  s ← strip_prefix (str "-") s;
  '(day, s) ← getnum true s;
  s ← strip_prefix (str "T") s;
  '(hour, s) ← getnum false s;
  if (hour <? 0) || (24 <=? hour) then None else
  if negb (bool_decide (s = [])) then None else
  if (day <? 1) || (daysIn year month <? day) then None else
  Some (Date year month day hour 0 0 0).

Lemma digitValue_digit d : 0 <= d < 10 -> digitValue (digit d) = Some d.
Proof.
  intros Hd. unfold digitValue, digit. rewrite ub_byte_of, Z.mod_small by lia.
  assert ((48 <=? 48 + d) && (48 + d <=? 57) = true) as -> by lia. f_equal. lia.
Qed.

Lemma formatPadded_2 z : 0 <= z < 100 -> formatPadded 2 z = [digit (z / 10); digit (z mod 10)].
Proof.
  intros Hz. unfold formatPadded. assert ((z <? 0) = false) as -> by lia.
  unfold FormatUint. cbn [utoa_fuel]. case_if.
  - rewrite Z.div_small, Z.mod_small by lia. done.
  - assert ((z / 10 <? 10) = true) as -> by div_lia. done.
Qed.

Lemma formatPadded_4 z : 0 <= z < 10000 -> formatPadded 4 z =
  [digit (z / 10 / 10 / 10); digit (z / 10 / 10 mod 10); digit (z / 10 mod 10); digit (z mod 10)].
Proof.
  intros Hz. unfold formatPadded. assert ((z <? 0) = false) as -> by lia.
  unfold FormatUint. cbn [utoa_fuel]. case_if.
  { rewrite (Z.div_small z), (Z.mod_small z) by lia. done. }
  case_if. { rewrite (Z.div_small (z / 10)), (Z.mod_small (z / 10)) by div_lia. done. }
  case_if. { rewrite (Z.div_small (z / 10 / 10)), (Z.mod_small (z / 10 / 10)) by div_lia. done. }
  assert ((z / 10 / 10 / 10 <? 10) = true) as -> by div_lia. done.
Qed.

Lemma getnum_two fixed z s : 0 <= z < 100 ->
  getnum fixed (digit (z / 10) :: digit (z mod 10) :: s) = Some (z, s).
Proof.
  intros Hz. unfold getnum. rewrite !digitValue_digit, Some_bind by div_lia. do 2 f_equal. div_lia.
Qed.

(** An hour reads back as it was written. *)
Lemma ParseYMDH_Format t : 0 <= Year t < 10000 ->
  ParseYMDH (FormatYMDH t) = Some (Date (Year t) (Month t) (Day t) (Hour t) 0 0 0).
Proof.
  intros Hy. destruct (accessors_valid (mkTime (unixSec t) 0 (zoneOffset t))) as [Hm Hd Hh _ _ _];
    [cbn; lia|].
  change (Year (mkTime _ _ _)) with (Year t) in *. change (Month (mkTime _ _ _)) with (Month t) in *.
  change (Day (mkTime _ _ _)) with (Day t) in *. change (Hour (mkTime _ _ _)) with (Hour t) in *.
  assert (daysIn (Year t) (Month t) <= 31) as H31.
  { unfold daysIn. pose proof (month_cases (Month t) Hm) as Hc.
    destruct (isLeap (Year t)); repeat destruct Hc as [->|Hc]; try rewrite Hc; vm_compute; done. }
  assert (FormatYMDH t = formatPadded 4 (Year t) ++ str "-" ++ formatPadded 2 (Month t) ++ str "-" ++
    formatPadded 2 (Day t) ++ str "T" ++ formatPadded 2 (Hour t) ++ []) as -> by reflexivity.
  rewrite formatPadded_4, !formatPadded_2 by lia. unfold ParseYMDH. rewrite zlen_app.
  match goal with |- context [?a <? 4] => assert ((a <? 4) = false) as ->
    by (rewrite !zlen_cons, zlen_nil; match goal with |- context [zlen ?l] => pose proof (zlen_nonneg l) end; lia) end.
  change (take 4 _) with [digit (Year t / 10 / 10 / 10); digit (Year t / 10 / 10 mod 10);
    digit (Year t / 10 mod 10); digit (Year t mod 10)].
  cbn [digitsValue]. rewrite !digitValue_digit, !Some_bind by div_lia.
  change (drop 4 _) with (str "-" ++ [digit (Month t / 10); digit (Month t mod 10)] ++ str "-" ++
    [digit (Day t / 10); digit (Day t mod 10)] ++ str "T" ++ [digit (Hour t / 10); digit (Hour t mod 10)] ++ []).
  rewrite strip_prefix_self, Some_bind. cbn [app]. rewrite getnum_two, Some_bind by lia.
  if_false. rewrite strip_prefix_self, Some_bind. cbn [app]. rewrite getnum_two, Some_bind by lia.
  rewrite strip_prefix_self, Some_bind. cbn [app]. rewrite getnum_two, Some_bind by lia.
  replace (10 * (10 * (10 * (10 * 0 + Year t / 10 / 10 / 10) + Year t / 10 / 10 mod 10) + Year t / 10 mod 10)
    + Year t mod 10) with (Year t) by div_lia.
  if_false. rewrite bool_decide_true by done. cbn [negb]. by if_false.
Qed.
