(* ===== verification/JsonText.v ===== *)
(** * Numbers and instants in JSON texts

    Decimal numbers ([strconv]) and the RFC 3339 texts of [time.Time]
    ([MarshalJSON], [UnmarshalJSON]), with their inverse lemmas. *)

From S2P Require Import Prelude GoStd GoTime Utf8 Json JsonValue.

(** ** Decimal numbers *)

Fixpoint decFrom (acc : Z) (s : bytes) : option Z :=
  match s with
  | [] => Some acc
  | b :: s => if isDigit b then decFrom (acc * 10 + (ub b - 48)) s else None
  end.

(** [strconv.ParseUint(s, 10, 64)] *)
Definition ParseUint (s : bytes) : option Z :=
  match s with
  | [] => None
  | _ => match decFrom 0 s with Some z => if z <? 2 ^ 64 then Some z else None | None => None end
  end.

(** [strconv.ParseInt(s, 10, 64)] *)
Definition ParseInt (s : bytes) : option Z :=
  match s with
  | b :: rest =>
    let digits := if (ub b =? 45) || (ub b =? 43) then rest else s in
    match digits, decFrom 0 digits with
    | _ :: _, Some z =>
      let z := if ub b =? 45 then - z else z in
      if (- 2 ^ 63 <=? z) && (z <? 2 ^ 63) then Some z else None
    | _, _ => None
    end
  | [] => None
  end.

(** ** RFC 3339 *)

(** The fraction of a second, without trailing zeros. *)
Fixpoint trimZerosLeft (s : bytes) : bytes :=
  match s with
  | b :: rest => if ub b =? 48 then trimZerosLeft rest else s
  | [] => []
  end.

Definition formatFraction (ns : Z) : bytes :=
  if ns =? 0 then [] else str "." ++ rev (trimZerosLeft (rev (formatPadded 9 ns))).

(** [Z07:00] *)
Definition formatZone (offset : Z) : bytes :=
  if offset =? 0 then str "Z"
  else
    let minutes := Z.abs (Z.quot offset 60) in
    (if Z.quot offset 60 <? 0 then str "-" else str "+")
    ++ formatPadded 2 (minutes / 60) ++ str ":" ++ formatPadded 2 (minutes mod 60).

(** [time.Time.MarshalJSON], without the quotes; years of more than four digits
    and offsets of a day or more are refused. *)
Definition formatRFC3339 (t : Time) : go bytes :=
  if (Year t <? 0) || (9999 <? Year t)
  then Err (Errorf "Time.MarshalJSON: year outside of range [0,9999]" [])
  else if 24 * 60 <=? Z.abs (Z.quot (zoneOffset t) 60)
  then Err (Errorf "Time.MarshalJSON: timezone hour outside of range [0,23]" [])
  else Ok (formatPadded 4 (Year t) ++ str "-" ++ formatPadded 2 (Month t) ++ str "-" ++ formatPadded 2 (Day t)
           ++ str "T" ++ formatPadded 2 (Hour t) ++ str ":" ++ formatPadded 2 (Minute t) ++ str ":"
           ++ formatPadded 2 (Second t) ++ formatFraction (Nanosecond t) ++ formatZone (zoneOffset t)).

(** A number of the text between two bounds. *)
Definition numberIn (s : bytes) (lo hi : Z) : option Z :=
  match decFrom 0 s with Some z => if (lo <=? z) && (z <=? hi) then Some z else None | None => None end.

Fixpoint spanDigits (s : bytes) : bytes * bytes :=
  match s with
  | b :: rest => if isDigit b then let '(ds, rest) := spanDigits rest in (b :: ds, rest) else ([], s)
  | [] => ([], [])
  end.

(** The nanoseconds of the digits after the point; those after the ninth are ignored. *)
Definition fractionValue (ds : bytes) : option Z :=
  match decFrom 0 (take 9 ds) with
  | Some z => Some (z * 10 ^ (9 - zlen (take 9 ds)))
  | None => None
  end.

(** The fraction at the start of [s], and the rest. *)
Definition parseFraction (s : bytes) : option (Z * bytes) :=
  match s with
  | p :: rest =>
    if ub p =? 46 then
      match spanDigits rest with
      | ([], _) => Some (0, s)
      | (ds, rest) => match fractionValue ds with Some ns => Some (ns, rest) | None => None end
      end
    else Some (0, s)
  | [] => Some (0, s)
  end.

(** The zone: the offset in seconds. *)
Definition parseZone (s : bytes) : option Z :=
  match s with
  | [z] => if ub z =? 90 then Some 0 else None
  | [sign; h1; h2; colon; m1; m2] =>
    match numberIn [h1; h2] 0 23, numberIn [m1; m2] 0 59 with
    | Some h, Some m =>
      if ((ub sign =? 45) || (ub sign =? 43)) && (ub colon =? 58)
      then Some ((if ub sign =? 45 then -1 else 1) * (h * 60 + m) * 60) else None
    | _, _ => None
    end
  | _ => None
  end.

(** [time.Time.UnmarshalJSON] within the quotes ([parseStrictRFC3339]). *)
Definition parseRFC3339 (s : bytes) : option Time :=
  match s with
  | y1 :: y2 :: y3 :: y4 :: d1 :: o1 :: o2 :: d2 :: a1 :: a2 :: t :: h1 :: h2 :: c1 :: m1 :: m2 :: c2 :: s1 :: s2 :: rest =>
    match numberIn [y1; y2; y3; y4] 0 9999, numberIn [o1; o2] 1 12, numberIn [h1; h2] 0 23,
          numberIn [m1; m2] 0 59, numberIn [s1; s2] 0 59 with
    | Some year, Some month, Some hour, Some min, Some sec =>
      match numberIn [a1; a2] 1 (daysIn year month) with
      | Some day =>
        if (ub d1 =? 45) && (ub d2 =? 45) && (ub t =? 84) && (ub c1 =? 58) && (ub c2 =? 58) then
          match parseFraction rest with
          | Some (ns, zone) =>
            match parseZone zone with
            | Some offset =>
              let u := Date year month day hour min sec ns in
              Some (mkTime (unixSec u - offset) (nanosecond u) offset)
            | None => None
            end
          | None => None
          end
        else None
      | None => None
      end
    | _, _, _, _, _ => None
    end
  | _ => None
  end.

(** ** Lemmas: decimal numbers *)

Lemma decFrom_app s t : forall acc,
  decFrom acc (s ++ t) = match decFrom acc s with Some z => decFrom z t | None => None end.
Proof.
  induction s as [|b s IH]; intros acc; [done|]. cbn [app decFrom]. by destruct (isDigit b).
Qed.

Lemma ub_digit d : 0 <= d < 10 -> ub (digit d) = 48 + d.
Proof. intros H. unfold digit. rewrite ub_byte_of. apply Z.mod_small. lia. Qed.

Lemma isDigit_digit d : 0 <= d < 10 -> isDigit (digit d) = true.
Proof. intros H. unfold isDigit. rewrite ub_digit by done. apply andb_true_intro. lia. Qed.

Lemma decFrom_digit acc d : 0 <= d < 10 -> decFrom acc [digit d] = Some (acc * 10 + d).
Proof.
  intros H. cbn [decFrom]. rewrite isDigit_digit, ub_digit by done. f_equal. lia.
Qed.

Lemma decFrom_utoa n : forall z, 0 <= z < 10 ^ Z.of_nat n -> (0 < n)%nat -> decFrom 0 (utoa_fuel n z) = Some z.
Proof.
  induction n as [|n IH]; intros z Hz Hn; [lia|]. cbn [utoa_fuel].
  destruct (Z.ltb_spec z 10); [rewrite decFrom_digit by lia; f_equal; lia|].
  rewrite Nat2Z.inj_succ, Z.pow_succ_r in Hz by lia. assert (0 < n)%nat by (destruct n; [cbn in Hz; lia|lia]).
  assert (z / 10 < 10 ^ Z.of_nat n) by (apply Z.div_lt_upper_bound; lia).
  pose proof (Z.mod_pos_bound z 10 ltac:(lia)). pose proof (Z.div_mod z 10 ltac:(lia)).
  pose proof (Z.div_pos z 10 ltac:(lia) ltac:(lia)).
  rewrite decFrom_app, IH by done. rewrite decFrom_digit by done. f_equal. lia.
Qed.

Lemma utoa_length n : forall k z, 0 <= z < 10 ^ k -> 1 <= k -> zlen (utoa_fuel n z) <= k.
Proof.
  induction n as [|n IH]; intros k z Hz Hk; [change (zlen _) with 0; lia|]. cbn [utoa_fuel].
  destruct (Z.ltb_spec z 10); [change (zlen [digit z]) with 1; lia|].
  assert (Hk2 : 1 < k) by (destruct (Z.eq_dec k 1) as [->|]; [cbn in Hz; lia|lia]).
  rewrite zlen_app. change (zlen [_]) with 1.
  assert (Hd : 0 <= z / 10 < 10 ^ (k - 1)).
  { split; [apply Z.div_pos; lia|]. apply Z.div_lt_upper_bound; [lia|].
    rewrite <- Z.pow_succ_r by lia. replace (Z.succ (k - 1)) with k by lia. apply Hz. }
  specialize (IH (k - 1) (z / 10) Hd ltac:(lia)). lia.
Qed.

Lemma utoa_digits n : forall z, 0 <= z -> forallb isDigit (utoa_fuel n z) = true.
Proof.
  induction n as [|n IH]; intros z Hz; [done|]. cbn [utoa_fuel]. destruct (Z.ltb_spec z 10).
  - cbn. by rewrite isDigit_digit by lia.
  - rewrite forallb_app, IH by (apply Z.div_pos; lia). cbn.
    by rewrite isDigit_digit by (apply Z.mod_pos_bound; lia).
Qed.

Lemma utoa_nonempty n z : (0 < n)%nat -> utoa_fuel n z <> [].
Proof.
  destruct n; [lia|]. cbn [utoa_fuel]. intros _. destruct (_ <? _); [done|]. by destruct (utoa_fuel n (z / 10)).
Qed.

Lemma ParseUint_FormatUint z : 0 <= z < 2 ^ 64 -> ParseUint (FormatUint z) = Some z.
Proof.
  intros Hz. unfold ParseUint, FormatUint. pose proof (utoa_nonempty 20 z ltac:(lia)).
  rewrite decFrom_utoa by (cbn; lia). destruct (utoa_fuel 20 z); [done|].
  by replace (z <? 2 ^ 64) with true by lia.
Qed.

Lemma formatPadded_inj z1 z2 : in_s 64 z1 -> in_s 64 z2 -> formatPadded 0 z1 = formatPadded 0 z2 -> z1 = z2.
Proof.
  intros [H1 H2] [H3 H4].
  assert (forall w s, w <= 0 -> pad0 w s = s) as Hp.
  { intros w s Hw. unfold pad0. pose proof (zlen_nonneg s). by replace (Z.to_nat (w - zlen s)) with O by lia. }
  assert (forall z, 0 <= z < 2 ^ 64 -> ParseUint (FormatUint z) = Some z) as Hu by apply ParseUint_FormatUint.
  assert (forall s, ParseUint (str "-" ++ s) = None) as Hm by done.
  unfold formatPadded. rewrite !Hp by lia.
  destruct (Z.ltb_spec z1 0), (Z.ltb_spec z2 0).
  - intros E%(app_inv_head (str "-")). apply (f_equal ParseUint) in E. rewrite !Hu in E by lia.
    injection E as E. lia.
  - intros E%(f_equal ParseUint). by rewrite Hm, Hu in E by lia.
  - intros E%(f_equal ParseUint). by rewrite Hm, Hu in E by lia.
  - intros E%(f_equal ParseUint). rewrite !Hu in E by lia. by injection E.
Qed.

(** The first digit of a positive number is not zero. *)
Lemma utoa_head n : forall z, 0 < z < 10 ^ Z.of_nat n ->
  exists d s, utoa_fuel n z = digit d :: s /\ 1 <= d < 10 /\ forallb isDigit s = true.
Proof.
  induction n as [|n IH]; intros z Hz; [cbn in Hz; lia|]. cbn [utoa_fuel].
  destruct (Z.ltb_spec z 10); [exists z, []; split_and!; try done; lia|].
  rewrite Nat2Z.inj_succ, Z.pow_succ_r in Hz by lia.
  destruct (IH (z / 10)) as (d & s & -> & Hd & Hs).
  { split; [apply Z.div_str_pos; lia|apply Z.div_lt_upper_bound; lia]. }
  exists d, (s ++ [digit (z mod 10)]). split_and!; [done|lia|lia|].
  rewrite forallb_app, Hs. cbn. by rewrite isDigit_digit by (apply Z.mod_pos_bound; lia).
Qed.

Lemma numRun_digits s : forallb isDigit s = true -> numRun NInt s = Some NInt.
Proof.
  induction s as [|b s IH]; [done|]. cbn [forallb numRun numStep]. intros [Hb Hs]%andb_true_iff.
  rewrite Hb. auto.
Qed.

Lemma FormatUint_ok z : 0 <= z < 2 ^ 64 -> numOK (FormatUint z).
Proof.
  intros Hz. destruct (Z.eq_dec z 0) as [->|Hz0]; [vm_compute; eauto|].
  unfold FormatUint. destruct (utoa_head 20 z) as (d & s & -> & Hd & Hs); [cbn; lia|].
  unfold numOK. exists NInt, NInt. split_and!; [|by apply numRun_digits|done].
  unfold numStart. rewrite isDigit_digit, ub_digit by lia.
  replace (48 + d =? 45) with false by lia. by replace (48 + d =? 48) with false by lia.
Qed.

(** ** Lemmas: instants *)

Lemma decFrom_zeros n s : decFrom 0 (replicate n (byte_of 48) ++ s) = decFrom 0 s.
Proof. induction n as [|n IH]; [done|]. exact IH. Qed.

Lemma decFrom_pad0 width s : decFrom 0 (pad0 width s) = decFrom 0 s.
Proof. apply decFrom_zeros. Qed.

Lemma formatPadded_value width z : 0 <= z < 10 ^ 19 -> decFrom 0 (formatPadded width z) = Some z.
Proof.
  intros Hz. unfold formatPadded. if_false. rewrite decFrom_pad0. apply decFrom_utoa; [cbn; lia|lia].
Qed.

Lemma formatPadded_digits width z : 0 <= z -> forallb isDigit (formatPadded width z) = true.
Proof.
  intros Hz. unfold formatPadded, pad0. if_false. rewrite forallb_app.
  unfold FormatUint. rewrite utoa_digits by done. rewrite andb_true_r.
  apply forallb_forall. by intros b [-> _]%list_elem_of_In%elem_of_replicate.
Qed.

Lemma formatPadded_length width z : 0 <= z < 10 ^ width -> 1 <= width -> zlen (formatPadded width z) = width.
Proof.
  intros Hz Hw. unfold formatPadded, pad0. if_false.
  pose proof (utoa_length 20 width z Hz Hw). fold (FormatUint z) in *.
  rewrite zlen_app. unfold zlen at 1. rewrite length_replicate. lia.
Qed.

Lemma numberIn_padded width z lo hi : 0 <= z < 10 ^ 19 -> lo <= z <= hi ->
  numberIn (formatPadded width z) lo hi = Some z.
Proof.
  intros Hz Hr. unfold numberIn. rewrite formatPadded_value by done.
  replace ((lo <=? z) && (z <=? hi)) with true; [done|]. symmetry. apply andb_true_intro. lia.
Qed.

(** The texts of two and four digits, byte by byte. *)
Lemma two_digits z : 0 <= z < 100 -> exists a b, formatPadded 2 z = [a; b].
Proof.
  intros Hz. pose proof (formatPadded_length 2 z ltac:(lia) ltac:(lia)) as Hl.
  destruct (formatPadded 2 z) as [|a [|b [|]]]; try (unfold zlen in Hl; cbn in Hl; lia). eauto.
Qed.

Lemma four_digits z : 0 <= z < 10000 -> exists a b c d, formatPadded 4 z = [a; b; c; d].
Proof.
  intros Hz. pose proof (formatPadded_length 4 z ltac:(lia) ltac:(lia)) as Hl.
  destruct (formatPadded 4 z) as [|a [|b [|c [|d [|]]]]]; try (unfold zlen in Hl; cbn in Hl; lia). eauto 6.
Qed.

Lemma trimZerosLeft_spec s : exists n, s = replicate n (byte_of 48) ++ trimZerosLeft s.
Proof.
  induction s as [|b s [n Hn]]; [by exists O|]. cbn [trimZerosLeft].
  destruct (ub b =? 48) eqn:E; [|by exists O]. exists (S n). cbn [replicate app].
  rewrite <- Hn. f_equal. by apply ub_byte.
Qed.

Lemma decFrom_acc_zeros n : forall acc, decFrom acc (replicate n (byte_of 48)) = Some (acc * 10 ^ Z.of_nat n).
Proof.
  induction n as [|n IH]; intros acc; [cbn; f_equal; lia|]. cbn [replicate].
  change (decFrom acc (?b :: ?s)) with (decFrom (acc * 10 + (48 - 48)) s). rewrite IH. f_equal.
  rewrite Nat2Z.inj_succ, Z.pow_succ_r by lia. lia.
Qed.

Lemma spanDigits_app ds c rest : forallb isDigit ds = true -> isDigit c = false ->
  spanDigits (ds ++ c :: rest) = (ds, c :: rest).
Proof.
  intros Hd Hc. induction ds as [|b ds IH]; cbn [app spanDigits]; [by rewrite Hc|].
  cbn [forallb] in Hd. apply andb_true_iff in Hd as [-> Hd]. by rewrite IH.
Qed.

Lemma parseFraction_format ns c rest : 0 <= ns < 10 ^ 9 -> isDigit c = false -> ub c <> 46 ->
  parseFraction (formatFraction ns ++ c :: rest) = Some (ns, c :: rest).
Proof.
  intros Hns Hc Hdot. unfold formatFraction. destruct (Z.eqb_spec ns 0) as [->|Hns0].
  { cbn [app parseFraction]. by if_false. }
  destruct (trimZerosLeft_spec (rev (formatPadded 9 ns))) as [n Hn].
  set (ds := rev (trimZerosLeft _)).
  assert (Hds : formatPadded 9 ns = ds ++ replicate n (byte_of 48)).
  { rewrite <- (rev_involutive (formatPadded 9 ns)), Hn, rev_app_distr. f_equal.
    rewrite rev_alt. apply reverse_replicate. }
  pose proof (formatPadded_value 9 ns ltac:(lia)) as Hv. rewrite Hds, decFrom_app in Hv.
  destruct (decFrom 0 ds) as [z|] eqn:Ez; [|done]. rewrite decFrom_acc_zeros in Hv. injection Hv as Hv.
  pose proof (formatPadded_length 9 ns ltac:(lia) ltac:(lia)) as Hl. rewrite Hds, zlen_app in Hl.
  unfold zlen in Hl at 2. rewrite length_replicate in Hl.
  pose proof (formatPadded_digits 9 ns ltac:(lia)) as Hdig. rewrite Hds, forallb_app in Hdig.
  apply andb_true_iff in Hdig as [Hdig _].
  change ((str "." ++ ds) ++ c :: rest) with (byte_of 46 :: ds ++ c :: rest). cbn [parseFraction].
  change (ub (byte_of 46) =? 46) with true. cbv iota. rewrite spanDigits_app by done.
  destruct ds as [|b ds']; [cbn in Ez; injection Ez as <-; lia|]. unfold fractionValue.
  rewrite take_ge by (unfold zlen in Hl; lia). rewrite Ez. do 3 f_equal.
  replace (9 - zlen (b :: ds')) with (Z.of_nat n) by lia. done.
Qed.

Lemma parseZone_format offset : offset mod 60 = 0 -> Z.abs (Z.quot offset 60) < 24 * 60 ->
  parseZone (formatZone offset) = Some offset.
Proof.
  intros Hm Ha. unfold formatZone. destruct (Z.eqb_spec offset 0) as [->|Ho]; [done|].
  assert (Ho60 : offset = 60 * (offset / 60)) by (pose proof (Z.div_mod offset 60 ltac:(lia)); lia).
  set (k := offset / 60) in *. assert (Hq : Z.quot offset 60 = k) by (rewrite Ho60, Z.mul_comm; apply Z.quot_mul; lia).
  rewrite Hq in *. set (h := Z.abs k / 60). set (m := Z.abs k mod 60).
  pose proof (Z.mod_pos_bound (Z.abs k) 60 ltac:(lia)) as Hmb. fold m in Hmb.
  pose proof (Z.div_mod (Z.abs k) 60 ltac:(lia)) as Hdm. fold h m in Hdm.
  assert (Hh : 0 <= h < 24) by lia.
  pose proof (numberIn_padded 2 h 0 23 ltac:(lia) ltac:(lia)) as Nh.
  pose proof (numberIn_padded 2 m 0 59 ltac:(lia) ltac:(lia)) as Nm.
  destruct (two_digits h ltac:(lia)) as (a & b & Eh), (two_digits m ltac:(lia)) as (c & d & Em).
  rewrite Eh in *. rewrite Em in *. destruct (Z.ltb_spec k 0).
  - change (match numberIn [a; b] 0 23, numberIn [c; d] 0 59 with
            | Some h, Some m => Some (-1 * (h * 60 + m) * 60) | _, _ => None end = Some offset).
    rewrite Nh, Nm. f_equal. lia.
  - change (match numberIn [a; b] 0 23, numberIn [c; d] 0 59 with
            | Some h, Some m => Some (1 * (h * 60 + m) * 60) | _, _ => None end = Some offset).
    rewrite Nh, Nm. f_equal. lia.
Qed.

(** What [MarshalJSON] prints without loss: whole minutes of offset. *)
Record printableTime (t : Time) : Prop := {
  pt_nanosecond : 0 <= nanosecond t < 10 ^ 9;
  pt_year : 0 <= Year t <= 9999;
  pt_minutes : zoneOffset t mod 60 = 0;
  pt_offset : Z.abs (Z.quot (zoneOffset t) 60) < 24 * 60 }.

Definition plainByte (b : byte) : bool :=
  (32 <=? ub b) && (ub b <? 128) && negb (ub b =? 34) && negb (ub b =? 92).

Lemma strStep_plain b : plainByte b = true -> strStep InStr b = Some InStr.
Proof. destruct b; vm_compute; congruence. Qed.

Lemma plain_ok s : forallb plainByte s = true -> strOK s.
Proof.
  unfold strOK. induction s as [|b s IH]; [done|]. cbn [forallb]. intros [Hb Hs]%andb_true_iff.
  cbn [strRun]. rewrite strStep_plain by done. auto.
Qed.

Lemma digit_plain b : isDigit b = true -> plainByte b = true.
Proof. destruct b; vm_compute; congruence. Qed.

Lemma digits_plain s : forallb isDigit s = true -> forallb plainByte s = true.
Proof. rewrite !forallb_forall. auto using digit_plain. Qed.

Lemma padded_plain width z : 0 <= z -> forallb plainByte (formatPadded width z) = true.
Proof. intros Hz. by apply digits_plain, formatPadded_digits. Qed.

Lemma fraction_plain ns : 0 <= ns -> forallb plainByte (formatFraction ns) = true.
Proof.
  intros Hns. unfold formatFraction. destruct (_ =? _); [done|].
  rewrite forallb_app. apply andb_true_iff. split; [done|]. apply digits_plain, forallb_forall.
  intros b Hb%in_rev. destruct (trimZerosLeft_spec (rev (formatPadded 9 ns))) as [n Hn].
  pose proof (formatPadded_digits 9 ns Hns) as Hd. rewrite forallb_forall in Hd. apply Hd, in_rev.
  rewrite Hn. apply in_app_iff. by right.
Qed.

Lemma zone_plain offset : forallb plainByte (formatZone offset) = true.
Proof.
  unfold formatZone. destruct (_ =? _); [done|]. cbv zeta.
  rewrite !forallb_app, !padded_plain; [by destruct (_ <? 0)| |]; [apply Z.mod_pos_bound|apply Z.div_pos]; lia.
Qed.

(** An instant read back from its text is the instant printed. *)
Lemma parse_formatRFC3339 t : printableTime t ->
  exists s, formatRFC3339 t = Ok s /\ parseRFC3339 s = Some t /\ forallb plainByte s = true.
Proof.
  intros [Hns Hy Hm Ho]. unfold formatRFC3339. if_false. if_false.
  eexists. split; [done|]. destruct (accessors_valid t Hns) as [Cmo Cd Ch Cmi Cs _].
  assert (Hd31 : daysIn (Year t) (Month t) <= 31).
  { unfold daysIn. destruct (month_cases _ Cmo) as [E|[E|[E|[E|[E|[E|[E|[E|[E|[E|[E|E]]]]]]]]]]];
      rewrite E; destruct (isLeap _); vm_compute; congruence. }
  split; [|rewrite !forallb_app, !padded_plain, fraction_plain, zone_plain by (apply Hns || lia); done].
  pose proof (numberIn_padded 4 (Year t) 0 9999 ltac:(lia) ltac:(lia)) as Ny.
  pose proof (numberIn_padded 2 (Month t) 1 12 ltac:(lia) ltac:(lia)) as Nmo.
  pose proof (numberIn_padded 2 (Day t) 1 (daysIn (Year t) (Month t)) ltac:(lia) ltac:(lia)) as Nd.
  pose proof (numberIn_padded 2 (Hour t) 0 23 ltac:(lia) ltac:(lia)) as Nh.
  pose proof (numberIn_padded 2 (Minute t) 0 59 ltac:(lia) ltac:(lia)) as Nmi.
  pose proof (numberIn_padded 2 (Second t) 0 59 ltac:(lia) ltac:(lia)) as Ns.
  destruct (four_digits (Year t) ltac:(lia)) as (y1 & y2 & y3 & y4 & Ey).
  destruct (two_digits (Month t) ltac:(lia)) as (o1 & o2 & Eo), (two_digits (Day t) ltac:(lia)) as (a1 & a2 & Ea),
    (two_digits (Hour t) ltac:(lia)) as (h1 & h2 & Eh), (two_digits (Minute t) ltac:(lia)) as (m1 & m2 & Em),
    (two_digits (Second t) ltac:(lia)) as (s1 & s2 & Es).
  rewrite Ey, Eo, Ea, Eh, Em, Es in *. change (str "-") with [byte_of 45]. change (str "T") with [byte_of 84]. change (str ":") with [byte_of 58].
  cbn [app parseRFC3339].
  rewrite Ny, Nmo, Nd, Nh, Nmi, Ns. cbv iota.
  match goal with |- (if ?c then _ else _) = _ => change c with true end. cbv iota.
  assert (Hz : exists c rest, formatZone (zoneOffset t) = c :: rest /\ isDigit c = false /\ ub c <> 46).
  { unfold formatZone. destruct (_ =? 0); [by eexists _, _|]. by destruct (_ <? 0); eexists _, _. }
  pose proof (parseZone_format _ Hm Ho) as Pz. destruct Hz as (c & rest & Ez & Hc & Hdot). rewrite Ez in *.
  rewrite parseFraction_format by done. rewrite Pz. cbv zeta. unfold Nanosecond. rewrite Date_local by done.
  destruct t as [u n z]. cbn. f_equal. f_equal. unfold localSec. cbn. lia.
Qed.
