(* ===== verification/TimeLayout.v ===== *)
(** * Instants as text

    [time.Parse] for the layouts the program reads literals with: the layout is the
    list of its elements, in the order the time package splits it into. *)

From S2P Require Import Prelude GoStd GoTime JsonValue JsonText.

(** ** Layouts *)

Inductive layoutElement : Type :=
  | LText (s : bytes)            (* text between two elements *)
  | LYear                        (* 2006 *)
  | LMonth                       (* 01 *)
  | LDay                         (* 02 *)
  | LHour                        (* 15 *)
  | LMinute                      (* 04 *)
  | LSecond                      (* 05 *)
  | LFraction0 (digits : nat)    (* .000 *)
  | LFraction9                   (* .999999999 *)
  | LZone.                       (* Z07:00 *)

Definition dateLayout : list layoutElement := [LYear; LText (str "-"); LMonth; LText (str "-"); LDay].
Definition clockLayout : list layoutElement := [LHour; LText (str ":"); LMinute; LText (str ":"); LSecond].

(** time.RFC3339Nano, "2006-01-02T15:04:05", "2006-01-02 15:04:05.000Z",
    "2006-01-02 15:04:05" and "2006-01-02" *)
Definition layoutRFC3339Nano : list layoutElement :=
  dateLayout ++ [LText (str "T")] ++ clockLayout ++ [LFraction9; LZone].
Definition layoutDateTClock : list layoutElement := dateLayout ++ [LText (str "T")] ++ clockLayout.
Definition layoutDateClockMilliZ : list layoutElement :=
  dateLayout ++ [LText (str " ")] ++ clockLayout ++ [LFraction0 3; LText (str "Z")].
Definition layoutDateClock : list layoutElement := dateLayout ++ [LText (str " ")] ++ clockLayout.

(** ** Reading *)

Definition isSpaceByte (b : byte) : bool := ub b =? 32.

Fixpoint cutspace (s : bytes) : bytes :=
  match s with
  | b :: rest => if isSpaceByte b then cutspace rest else s
  | [] => []
  end.

(** Spaces of the layout stand for any number of spaces; [spaced] holds after one. *)
Fixpoint skip (spaced : bool) (prefix value : bytes) : option bytes :=
  match prefix with
  | [] => Some value
  | p :: prefix =>
    if isSpaceByte p then
      if spaced then skip true prefix value
      else match value with
           | b :: _ => if isSpaceByte b then skip true prefix (cutspace value) else None
           | [] => skip true prefix []
           end
    else match value with
         | b :: value => if bool_decide (b = p) then skip false prefix value else None
         | [] => None
         end
  end.

(** The date and time read so far; the zone is its offset. *)
Record civil : Type := mkCivil {
  cv_year : Z; cv_month : Z; cv_day : Z; cv_hour : Z; cv_min : Z; cv_sec : Z; cv_nsec : Z; cv_zone : option Z }.

Definition commaOrPeriod (b : byte) : bool := (ub b =? 46) || (ub b =? 44).

(** A point or comma and at least one digit: the nanoseconds, and the rest. *)
Definition readFraction (s : bytes) : option (Z * bytes) :=
  match s with
  | p :: rest =>
    if commaOrPeriod p then
      match spanDigits rest with
      | ([], _) => None
      | (ds, rest) => ns ← fractionValue ds; Some (ns, rest)
      end
    else None
  | [] => None
  end.

(** The function atoi of the time package on digits that a sign may precede; a negative
    fraction is refused. *)
Definition signedFraction (s : bytes) : option Z :=
  match s with
  | b :: rest =>
    if (ub b =? 43) || (ub b =? 45) then
      z ← decFrom 0 rest; if (ub b =? 45) && (0 <? z) then None else Some z
    else decFrom 0 s
  | [] => Some 0
  end.

Fixpoint nextIsFraction (l : list layoutElement) : bool :=
  match l with
  | LText _ :: l => nextIsFraction l
  | LFraction0 _ :: _ | LFraction9 :: _ => true
  | _ => false
  end.

(** Z, or an offset with a colon. *)
Definition readZone (s : bytes) : option (Z * bytes) :=
  match s with
  | z :: rest =>
    if ub z =? 90 then Some (0, rest)
    else match s with
         | sign :: h1 :: h2 :: colon :: m1 :: m2 :: rest =>
           if negb (ub colon =? 58) then None else
           '(hr, _) ← getnum true [h1; h2];
           '(mm, _) ← getnum true [m1; m2];
           if (24 <? hr) || (60 <? mm) then None else
           if ub sign =? 43 then Some ((hr * 60 + mm) * 60, rest)
           else if ub sign =? 45 then Some (- ((hr * 60 + mm) * 60), rest) else None
         | _ => None
         end
  | [] => None
  end.

Fixpoint parseElements (l : list layoutElement) (s : bytes) (c : civil) : option (civil * bytes) :=
  match l with
  | [] => Some (c, s)
  | e :: l =>
    let '(mkCivil y mo d h mi se ns z) := c in
    match e with
    | LText p => s ← skip false p s; parseElements l s c
    | LYear =>
      if zlen s <? 4 then None else
      y ← digitsValue 0 (take 4 s); parseElements l (drop 4 s) (mkCivil y mo d h mi se ns z)
    | LMonth =>
      '(mo, s) ← getnum true s;
      if (mo <=? 0) || (12 <? mo) then None else parseElements l s (mkCivil y mo d h mi se ns z)
    | LDay => '(d, s) ← getnum true s; parseElements l s (mkCivil y mo d h mi se ns z)
    | LHour =>
      '(h, s) ← getnum false s;
      if (h <? 0) || (24 <=? h) then None else parseElements l s (mkCivil y mo d h mi se ns z)
    | LMinute =>
      '(mi, s) ← getnum true s;
      if (mi <? 0) || (60 <=? mi) then None else parseElements l s (mkCivil y mo d h mi se ns z)
    | LSecond =>
      '(se, s) ← getnum true s;
      if (se <? 0) || (60 <=? se) then None else
      (* a fraction the layout does not have *)
      match (if nextIsFraction l then None else readFraction s) with
      | Some (ns, s) => parseElements l s (mkCivil y mo d h mi se ns z)
      | None => parseElements l s (mkCivil y mo d h mi se ns z)
      end
    | LFraction0 n =>
      match s with
      | p :: s =>
        if commaOrPeriod p && (n <=? length s)%nat then
          ns ← signedFraction (take n s);
          parseElements l (drop n s) (mkCivil y mo d h mi se (ns * 10 ^ (9 - Z.of_nat n)) z)
        else None
      | [] => None
      end
    | LFraction9 =>
      match readFraction s with
      | Some (ns, s) => parseElements l s (mkCivil y mo d h mi se ns z)
      | None => parseElements l s c
      end
    | LZone => '(z, s) ← readZone s; parseElements l s (mkCivil y mo d h mi se ns (Some z))
    end
  end.

(** [time.Parse(layout, s)], without the text of its error. *)
Definition ParseLayout (l : list layoutElement) (s : bytes) : option Time :=
  '(c, rest) ← parseElements l s (mkCivil 0 1 1 0 0 0 0 None);
  if negb (bool_decide (rest = [])) then None else
  if (cv_day c <? 1) || (daysIn (cv_year c) (cv_month c) <? cv_day c) then None else
  let u := Date (cv_year c) (cv_month c) (cv_day c) (cv_hour c) (cv_min c) (cv_sec c) (cv_nsec c) in
  Some (match cv_zone c with
        | None => u
        | Some offset => GoTime.mkTime (unixSec u - offset) (nanosecond u) offset
        end).

(** ** Other operations of the time package *)

Definition UnixMilli (t : Time) : Z := wrap_s 64 (unixSec t * 1000 + Z.quot (nanosecond t) 1000000).
Definition UnixMicro (t : Time) : Z := wrap_s 64 (unixSec t * 1000000 + Z.quot (nanosecond t) 1000).
Definition Unix (t : Time) : Z := wrap_s 64 (unixSec t).

(** [t.Add(d)] for a duration in nanoseconds. *)
Definition AddDuration (t : Time) (d : Z) : Time :=
  let ns := nanosecond t + d in
  GoTime.mkTime (unixSec t + ns / 10 ^ 9) (ns mod 10 ^ 9) (zoneOffset t).

(** [t.AddDate(0, 0, days)] in UTC. *)
Definition AddDays (t : Time) (days : Z) : Time := GoTime.mkTime (unixSec t + 86400 * days) (nanosecond t) (zoneOffset t).

(** [time.UnixMilli(ms).UTC()] *)
Definition FromUnixMilli (ms : Z) : Time := GoTime.mkTime (ms / 1000) (ms mod 1000 * 1000000) 0.

(** [t.Truncate(24 * time.Hour).Unix() / 86400]: days since the epoch. *)
Definition epochDays (t : Time) : Z := Z.quot (wrap_s 64 (unixSec t / 86400 * 86400)) 86400.
