(* ===== verification/JsonDecode.v ===== *)
(** * Decoding JSON into structs

    What [json.Unmarshal] does with the fields of the repository's structs:
    keys match field names up to the case of letters, [null] leaves a field as it
    is, a member that comes twice is decoded twice, an unknown member is ignored.
    The texts of its errors are not represented. *)

From S2P Require Import Prelude GoStd GoTime Utf8 Json JsonValue JsonText.

(** [foldName]: letters in upper case; the long s and the Kelvin sign are the two
    other code points that fold to an ASCII letter. *)
Fixpoint foldName (key : bytes) : bytes :=
  match key with
  | [] => []
  | a :: rest =>
    if (ub a =? 0xc5) then
      match rest with
      | b :: rest' => if ub b =? 0xbf then byte_of 83 :: foldName rest' else a :: foldName rest
      | [] => [a]
      end
    else if (ub a =? 0xe2) then
      match rest with
      | b :: c :: rest' =>
        if (ub b =? 0x84) && (ub c =? 0xaa) then byte_of 75 :: foldName rest' else a :: foldName rest
      | _ => a :: foldName rest
      end
    else if (97 <=? ub a) && (ub a <=? 122) then byte_of (ub a - 32) :: foldName rest
    else a :: foldName rest
  end.

Definition unmarshalError : error := Errorf "json: cannot unmarshal value" [].
Definition marshalError : error := Errorf "json: error calling MarshalJSON" [].

(** ** Fields *)

Definition decodeString (old : bytes) (v : json) : go bytes :=
  match v with JStr raw => Ok (unquote raw) | JNull => Ok old | _ => Err unmarshalError end.

Definition decodeNumber (parse : bytes -> option Z) (old : Z) (v : json) : go Z :=
  match v with
  | JNum text => match parse text with Some z => Ok z | None => Err unmarshalError end
  | JNull => Ok old
  | _ => Err unmarshalError
  end.

Definition decodeInt : Z -> json -> go Z := decodeNumber ParseInt.
Definition decodeUint64 : Z -> json -> go Z := decodeNumber ParseUint.

Definition decodeTime (old : Time) (v : json) : go Time :=
  match v with
  | JStr raw => match parseRFC3339 raw with Some t => Ok t | None => Err unmarshalError end
  | JNull => Ok old
  | _ => Err unmarshalError
  end.

(** ** Structs *)

Definition member : Type := bytes * (bytes * json).

(** The name a key stands for. *)
Definition memberName (m : member) : bytes := foldName (unquote m.1).
Definition memberText (m : member) : bytes := m.2.1.
Definition memberValue (m : member) : json := m.2.2.

Section Structs.

Context {A : Type}.
Variable set : A -> member -> go A.

Fixpoint decodeMembers (ms : list member) (a : A) : go A :=
  match ms with
  | [] => Ok a
  | m :: ms => a ← set a m; decodeMembers ms a
  end.

Definition decodeStruct (a : A) (v : json) : go A :=
  match v with JObj ms => decodeMembers ms a | JNull => Ok a | _ => Err unmarshalError end.

(** [json.Unmarshal] into a fresh [zero]. *)
Definition Unmarshal (zero : A) (data : bytes) : go A :=
  match parseJSON data with
  | Some v => decodeStruct zero v
  | None => Err (Errorf "invalid JSON" [])
  end.

Lemma decodeMembers_app ms1 ms2 a :
  decodeMembers (ms1 ++ ms2) a = (a1 ← decodeMembers ms1 a; decodeMembers ms2 a1).
Proof.
  revert a. induction ms1 as [|m ms1 IH]; intros a; [done|]. cbn [app decodeMembers].
  unfold mbind, go_bind. destruct (set a m); [apply IH|done..].
Qed.

End Structs.

(** ** Encoding structs *)

(** A member under construction; the text of the value is that of its printing. *)
Definition field (name : string) (v : json) : member := (str name, (print v, tidy v)).

Definition stringField (name : string) (s : bytes) : member := field name (JStr (escapeString s)).

(** [omitempty] *)
Definition optionalField (name : string) (s : bytes) : list member :=
  if decide (s = []) then [] else [stringField name s].

(** A [json.RawMessage] as [Marshal] includes it. *)
Definition rawValue (raw : bytes) : go json :=
  match parseJSON raw with Some v => Ok (escapeValue v) | None => Err marshalError end.

Definition timeValue (t : Time) : go json :=
  match formatRFC3339 t with Ok s => Ok (JStr s) | _ => Err marshalError end.

(** ** Lemmas *)

Lemma ParseInt_FormatInt z : 0 <= z < 2 ^ 63 -> ParseInt (FormatInt z) = Some z.
Proof.
  intros Hz. unfold FormatInt. if_false. unfold FormatUint, ParseInt.
  pose proof (decFrom_utoa 20 z ltac:(cbn; lia) ltac:(lia)) as Hd.
  pose proof (utoa_digits 20 z ltac:(lia)) as Hg. pose proof (utoa_nonempty 20 z ltac:(lia)) as Hn.
  destruct (utoa_fuel 20 z) as [|b s]; [done|]. cbn [forallb] in Hg.
  apply andb_true_iff in Hg as [Hb _]. unfold isDigit in Hb. apply andb_true_iff in Hb as [Hb1 Hb2].
  replace (ub b =? 45) with false by lia. replace (ub b =? 43) with false by lia. cbn [orb].
  rewrite Hd. replace ((- 2 ^ 63 <=? z) && (z <? 2 ^ 63)) with true; [done|].
  symmetry. apply andb_true_intro. lia.
Qed.

Lemma FormatInt_ok z : 0 <= z < 2 ^ 63 -> numOK (FormatInt z).
Proof. intros Hz. unfold FormatInt. if_false. apply FormatUint_ok. lia. Qed.

Lemma tidy_tidy v : tidy (tidy v) = tidy v.
Proof.
  induction v as [| | | |es IH|ms IH] using json_induction; try done; cbn [tidy]; f_equal; rewrite map_map;
    apply map_ext_Forall; (eapply Forall_impl; [exact IH|]); [done|].
  intros (key & text & v) Hv. simpl in *. by rewrite Hv, print_tidy.
Qed.

(** Fields are tidy already. *)
Definition tidyMember (m : member) : member := (m.1, (print m.2.2, tidy m.2.2)).

Lemma tidyMember_field name v : tidyMember (field name v) = field name v.
Proof. unfold tidyMember, field. simpl. by rewrite print_tidy, tidy_tidy. Qed.

Lemma tidy_fields ms : Forall (fun m => tidyMember m = m) ms -> tidy (JObj ms) = JObj ms.
Proof.
  intros H. cbn [tidy]. f_equal. rewrite <- (map_id ms) at 2. apply map_ext_Forall.
  eapply Forall_impl; [exact H|]. by intros (key & text & v) Hm.
Qed.

Definition printableMember (d : Z) (m : member) : Prop := strOK m.1 /\ printable d m.2.2.

Lemma field_printable d name v : strOK (str name) -> printable d v -> printableMember d (field name v).
Proof.
  intros Hn Hv. split; [done|]. unfold printable in *. simpl. by rewrite tidy_tidy, print_tidy.
Qed.

Lemma stringField_printable d name s : strOK (str name) -> printableMember d (stringField name s).
Proof. intros Hn. apply field_printable; [done|]. apply r_str, escapeString_ok. Qed.

Lemma optionalField_printable d name s : strOK (str name) -> Forall (printableMember d) (optionalField name s).
Proof.
  intros Hn. unfold optionalField. case_decide; [by constructor|].
  apply Forall_singleton. by apply stringField_printable.
Qed.

Lemma optionalField_tidy name s : Forall (fun m => tidyMember m = m) (optionalField name s).
Proof. unfold optionalField. case_decide; [constructor|]. apply Forall_singleton, tidyMember_field. Qed.
