(* ===== verification/Value.v ===== *)
(** * Dynamic values

    Go's [any] as far as query parameters and result cells use it, the value
    and column type enumerations of qsbridge (expr.go, catalog.go), and the
    numeric conversions of the language that the wire encodings apply. *)

From S2P Require Import Prelude GoStd GoTime.

(** ** Kinds and types *)

Inductive ValueKind : Type :=
  | ValueUnknown | ValueNull | ValueBool | ValueInt | ValueFloat | ValueString | ValueTime.

#[export] Instance ValueKind_eq_dec : EqDecision ValueKind.
Proof. solve_decision. Defined.

(** [DataTypeOther] stands for every other string of the Go type. *)
Inductive DataType : Type :=
  | DataTypeUnknown | DataTypeBool | DataTypeInt | DataTypeFloat | DataTypeString | DataTypeTime
  | DataTypeOther (name : bytes).

#[export] Instance DataType_eq_dec : EqDecision DataType.
Proof. solve_decision. Defined.

Definition ValueKind_string (k : ValueKind) : bytes :=
  match k with
  | ValueUnknown => [] | ValueNull => str "null" | ValueBool => str "bool" | ValueInt => str "int"
  | ValueFloat => str "float" | ValueString => str "string" | ValueTime => str "time"
  end.

Definition DataType_string (t : DataType) : bytes :=
  match t with
  | DataTypeUnknown => [] | DataTypeBool => str "bool" | DataTypeInt => str "int"
  | DataTypeFloat => str "float" | DataTypeString => str "string" | DataTypeTime => str "time"
  | DataTypeOther name => name
  end.

(** ** Values *)

Inductive int_type : Type :=
  | Tint | Tint8 | Tint16 | Tint32 | Tint64 | Tuint | Tuint8 | Tuint16 | Tuint32 | Tuint64.

#[export] Instance int_type_eq_dec : EqDecision int_type.
Proof. solve_decision. Defined.

Definition int_signed (t : int_type) : bool :=
  match t with Tint | Tint8 | Tint16 | Tint32 | Tint64 => true | _ => false end.

Definition int_bits (t : int_type) : Z :=
  match t with
  | Tint8 | Tuint8 => 8 | Tint16 | Tuint16 => 16 | Tint32 | Tuint32 => 32 | _ => 64
  end.

(** The range of an integer type. *)
Definition in_int (t : int_type) (z : Z) : Prop :=
  if int_signed t then in_s (int_bits t) z else in_u (int_bits t) z.

(** Floating-point values are their IEEE 754 bit patterns; [GBigInt] is a pointer
    to a big.Int, [None] when nil; [GOther] is a value of any other dynamic type,
    known by its type name and printed form. *)
Inductive any : Type :=
  | GNil
  | GBool (b : bool)
  | GInt (t : int_type) (z : Z)
  | GFloat32 (bits : Z)
  | GFloat64 (bits : Z)
  | GString (s : bytes)
  | GBytes (s : bytes)
  | GBigInt (z : option Z)
  | GTime (t : Time)
  | GOther (typeName printed : bytes).

Definition int_type_name (t : int_type) : bytes :=
  match t with
  | Tint => str "int" | Tint8 => str "int8" | Tint16 => str "int16" | Tint32 => str "int32"
  | Tint64 => str "int64" | Tuint => str "uint" | Tuint8 => str "uint8" | Tuint16 => str "uint16"
  | Tuint32 => str "uint32" | Tuint64 => str "uint64"
  end.

(** What [%T] prints. *)
Definition typeName (v : any) : bytes :=
  match v with
  | GNil => str "<nil>" | GBool _ => str "bool" | GInt t _ => int_type_name t
  | GFloat32 _ => str "float32" | GFloat64 _ => str "float64" | GString _ => str "string"
  | GBytes _ => str "[]uint8" | GBigInt _ => str "*big.Int" | GTime _ => str "time.Time" | GOther n _ => n
  end.

Definition is_nil (v : any) : bool := match v with GNil => true | _ => false end.

(** ** Conversions to float64, on bit patterns *)

Definition float64_bits (negative : bool) (exponent fraction : Z) : Z :=
  (if negative then 2 ^ 63 else 0) + exponent * 2 ^ 52 + fraction.

(** [float64(f)] of a float32: exact; a NaN keeps its payload and is quiet. *)
Definition float64_of_float32 (bits : Z) : Z :=
  let negative := 0x80000000 <=? bits in
  let exponent := (bits / 2 ^ 23) mod 256 in
  let fraction := bits mod 2 ^ 23 in
  if exponent =? 255 then
    float64_bits negative 2047 (if fraction =? 0 then 0 else Z.lor (fraction * 2 ^ 29) (2 ^ 51))
  else if exponent =? 0 then
    if fraction =? 0 then float64_bits negative 0 0
    else
      let k := Z.log2 fraction in
      float64_bits negative (k - 149 + 1023) ((fraction - 2 ^ k) * 2 ^ (52 - k))
  else float64_bits negative (exponent - 127 + 1023) (fraction * 2 ^ 29).

(** [float64(i)] of an integer: the nearest value, ties to even. *)
Definition float64_of_int (z : Z) : Z :=
  if z =? 0 then 0
  else
    let a := Z.abs z in
    let k := Z.log2 a in
    if k <=? 52 then float64_bits (z <? 0) (k + 1023) (a * 2 ^ (52 - k) - 2 ^ 52)
    else
      let s := k - 52 in
      let q := a / 2 ^ s in
      let r := a mod 2 ^ s in
      let up := (2 ^ (s - 1) <? r) || ((r =? 2 ^ (s - 1)) && Z.odd q) in
      let m := if up then q + 1 else q in
      if m =? 2 ^ 53 then float64_bits (z <? 0) (k + 1 + 1023) 0
      else float64_bits (z <? 0) (k + 1023) (m - 2 ^ 52).

(** The finite value of a float32 and of a float64, in units of [2^-1074]. *)
Definition float32_value (bits : Z) : Z :=
  let m := bits mod 2 ^ 23 in
  let e := (bits / 2 ^ 23) mod 256 in
  (if 0x80000000 <=? bits then -1 else 1)
  * (if e =? 0 then m * 2 ^ 925 else (2 ^ 23 + m) * 2 ^ (e + 924)).

Definition float64_value (bits : Z) : Z :=
  let m := bits mod 2 ^ 52 in
  let e := (bits / 2 ^ 52) mod 2048 in
  (if 2 ^ 63 <=? bits then -1 else 1)
  * (if e =? 0 then m else (2 ^ 52 + m) * 2 ^ (e - 1)).

(** ** The conversions are exact where they should be *)

Lemma float64_value_bits negative e f : 0 < e < 2047 -> 0 <= f < 2 ^ 52 ->
  float64_value (float64_bits negative e f)
  = (if negative then -1 else 1) * ((2 ^ 52 + f) * 2 ^ (e - 1)).
Proof.
  intros He Hf. unfold float64_value, float64_bits.
  set (s := if negative then 2 ^ 63 else 0).
  assert (Hs : s = (if negative then 2048 else 0) * 2 ^ 52) by (destruct negative; done).
  assert (((s + e * 2 ^ 52 + f) / 2 ^ 52) = (if negative then 2048 else 0) + e) as ->.
  { rewrite Hs, <- Z.mul_add_distr_r, Z.div_add_l by lia. rewrite (Z.div_small f) by lia. lia. }
  assert ((s + e * 2 ^ 52 + f) mod 2 ^ 52 = f) as ->.
  { rewrite Hs, <- Z.mul_add_distr_r, Z.add_comm, Z.mod_add by lia. apply Z.mod_small. lia. }
  assert (((if negative then 2048 else 0) + e) mod 2048 = e) as ->.
  { destruct negative; [|apply Z.mod_small; lia].
    rewrite <- (Z.mul_1_l 2048) at 1. rewrite Z.add_comm, Z.mod_add by lia. apply Z.mod_small. lia. }
  rewrite (proj2 (Z.eqb_neq e 0)) by lia.
  destruct negative; unfold s; case_if; try done; lia.
Qed.

Lemma float64_value_zero negative : float64_value (float64_bits negative 0 0) = 0.
Proof. by destruct negative; vm_compute. Qed.

Lemma pow2_split a b c : 0 <= a -> 0 <= b -> c = a + b -> 2 ^ c = 2 ^ a * 2 ^ b.
Proof. intros Ha Hb ->. by apply Z.pow_add_r. Qed.

(** Widening a finite float32 keeps its value. *)
Lemma float64_of_float32_exact bits : in_u 32 bits -> (bits / 2 ^ 23) mod 256 <> 255 ->
  float64_value (float64_of_float32 bits) = float32_value bits.
Proof.
  intros Hb He. unfold float64_of_float32, float32_value.
  set (m := bits mod 2 ^ 23). set (e := (bits / 2 ^ 23) mod 256) in *.
  assert (Hm : 0 <= m < 2 ^ 23) by (apply Z.mod_pos_bound; lia).
  assert (He' : 0 <= e < 256) by (apply Z.mod_pos_bound; lia).
  rewrite (proj2 (Z.eqb_neq e 255)) by done.
  destruct (Z.eqb_spec e 0) as [E0|E0].
  - destruct (Z.eqb_spec m 0) as [M0|M0].
    { rewrite float64_value_zero, M0. lia. }
    pose proof (Z.log2_spec m ltac:(lia)) as [L1 L2]. pose proof (Z.log2_nonneg m).
    assert (Z.log2 m < 23) by (apply Z.log2_lt_pow2; lia).
    set (k := Z.log2 m) in *.
    assert (P1 : 2 ^ 52 = 2 ^ k * 2 ^ (52 - k)) by (apply pow2_split; lia).
    assert (P2 : 2 ^ Z.succ k = 2 * 2 ^ k) by (apply Z.pow_succ_r; lia).
    assert (0 < 2 ^ (52 - k)) by (apply Z.pow_pos_nonneg; lia).
    rewrite float64_value_bits by nia. f_equal.
    replace (2 ^ 52 + (m - 2 ^ k) * 2 ^ (52 - k)) with (m * 2 ^ (52 - k)) by nia.
    rewrite <- Z.mul_assoc. f_equal. symmetry. apply pow2_split; lia.
  - rewrite float64_value_bits by lia. f_equal.
    replace (2 ^ 52 + m * 2 ^ 29) with ((2 ^ 23 + m) * 2 ^ 29) by lia.
    rewrite <- Z.mul_assoc. f_equal. symmetry. apply pow2_split; lia.
Qed.

(** Integers below 2^53 are exact. *)
Lemma float64_of_int_small z : z <> 0 -> Z.abs z < 2 ^ 53 -> exists e f,
  float64_of_int z = float64_bits (z <? 0) e f /\ 0 < e < 2047 /\ 0 <= f < 2 ^ 52 /\
  (2 ^ 52 + f) * 2 ^ (e - 1) = Z.abs z * 2 ^ 1074.
Proof.
  intros Hne Hz. unfold float64_of_int. rewrite (proj2 (Z.eqb_neq z 0)) by done.
  set (a := Z.abs z) in *. assert (0 < a) by lia. pose proof (Z.log2_spec a ltac:(lia)) as [L1 L2]. pose proof (Z.log2_nonneg a).
  assert (Z.log2 a < 53) by (apply Z.log2_lt_pow2; lia). set (k := Z.log2 a) in *. if_true.
  rewrite Z.pow_succ_r in L2 by lia.
  assert (2 ^ 52 = 2 ^ k * 2 ^ (52 - k)) as P1 by (apply pow2_split; lia).
  assert (0 < 2 ^ (52 - k)) by (apply Z.pow_pos_nonneg; lia).
  assert (0 <= a * 2 ^ (52 - k) - 2 ^ 52 < 2 ^ 52) as Hf by nia.
  exists (k + 1023), (a * 2 ^ (52 - k) - 2 ^ 52). split_and!; try lia.
  replace (2 ^ 52 + (a * 2 ^ (52 - k) - 2 ^ 52)) with (a * 2 ^ (52 - k)) by lia.
  rewrite <- Z.mul_assoc, <- Z.pow_add_r by lia. by replace (52 - k + (k + 1023 - 1)) with 1074 by lia.
Qed.

Lemma float64_of_int_value z : Z.abs z < 2 ^ 53 -> float64_value (float64_of_int z) = z * 2 ^ 1074.
Proof.
  intros Hz. destruct (decide (z = 0)) as [->|Hne]; [done|].
  destruct (float64_of_int_small z Hne Hz) as (e & f & -> & He & Hf & E). rewrite float64_value_bits, E by done.
  generalize (2 ^ 1074). intros u. destruct (Z.ltb_spec z 0); lia.
Qed.

(** ** Ranges of the bit patterns *)

Lemma float64_bits_range negative e f : 0 <= e < 2048 -> 0 <= f < 2 ^ 52 ->
  in_u 64 (float64_bits negative e f).
Proof. intros. unfold in_u, float64_bits. destruct negative; lia. Qed.

Lemma float64_of_float32_range bits : in_u 32 bits -> in_u 64 (float64_of_float32 bits).
Proof.
  intros Hb. unfold float64_of_float32.
  set (m := bits mod 2 ^ 23). set (e := (bits / 2 ^ 23) mod 256).
  assert (Hm : 0 <= m < 2 ^ 23) by (apply Z.mod_pos_bound; lia).
  assert (He : 0 <= e < 256) by (apply Z.mod_pos_bound; lia).
  destruct (e =? 255); [|destruct (Z.eqb_spec e 0); [destruct (Z.eqb_spec m 0)|]];
    apply float64_bits_range; try lia.
  - destruct (m =? 0); [lia|]. split; [apply Z.lor_nonneg; lia|].
    destruct (Z.eq_dec (Z.lor (m * 2 ^ 29) (2 ^ 51)) 0) as [->|]; [lia|].
    apply Z.log2_lt_pow2; [pose proof (Z.lor_nonneg (m * 2 ^ 29) (2 ^ 51)); lia|].
    rewrite Z.log2_lor by lia. apply Z.max_lub_lt; [|by vm_compute].
    destruct (Z.eq_dec m 0) as [->|]; [by vm_compute|]. apply Z.log2_lt_pow2; lia.
  - pose proof (Z.log2_nonneg m). assert (Z.log2 m < 23) by (apply Z.log2_lt_pow2; lia). lia.
  - pose proof (Z.log2_spec m ltac:(lia)) as [L1 L2]. pose proof (Z.log2_nonneg m).
    assert (Z.log2 m < 23) by (apply Z.log2_lt_pow2; lia).
    assert (P1 : 2 ^ 52 = 2 ^ Z.log2 m * 2 ^ (52 - Z.log2 m)) by (apply pow2_split; lia).
    assert (P2 : 2 ^ Z.succ (Z.log2 m) = 2 * 2 ^ Z.log2 m) by (apply Z.pow_succ_r; lia).
    assert (0 < 2 ^ (52 - Z.log2 m)) by (apply Z.pow_pos_nonneg; lia). nia.
Qed.

Lemma float64_of_int_range z : in_s 64 z -> in_u 64 (float64_of_int z).
Proof.
  unfold in_s. intros Hz. unfold float64_of_int. destruct (Z.eqb_spec z 0); [done|].
  set (a := Z.abs z). assert (Ha : 0 < a <= 2 ^ 63) by lia.
  pose proof (Z.log2_spec a ltac:(lia)) as [L1 L2]. pose proof (Z.log2_nonneg a).
  assert (Z.log2 a < 64) by (apply Z.log2_lt_pow2; lia). set (k := Z.log2 a) in *.
  rewrite Z.pow_succ_r in L2 by lia. destruct (Z.leb_spec k 52).
  - assert (P1 : 2 ^ 52 = 2 ^ k * 2 ^ (52 - k)) by (apply pow2_split; lia).
    assert (0 < 2 ^ (52 - k)) by (apply Z.pow_pos_nonneg; lia).
    apply float64_bits_range; [lia|nia].
  - assert (P1 : 2 ^ k = 2 ^ 52 * 2 ^ (k - 52)) by (apply pow2_split; lia).
    assert (0 < 2 ^ (k - 52)) by (apply Z.pow_pos_nonneg; lia).
    assert (Hq : 2 ^ 52 <= a / 2 ^ (k - 52) < 2 ^ 53).
    { split; [apply Z.div_le_lower_bound; lia|apply Z.div_lt_upper_bound; lia]. }
    destruct (_ || _); destruct (Z.eqb_spec (a / 2 ^ (k - 52) + 1) (2 ^ 53));
      destruct (Z.eqb_spec (a / 2 ^ (k - 52)) (2 ^ 53)); apply float64_bits_range; lia.
Qed.
