(* ===== verification/GoFloat.v ===== *)
(** * Arithmetic on float64

    Products, differences and rounding of 64-bit floating-point numbers, on their
    bit patterns, through the specification of IEEE 754 in the standard library. *)

From Stdlib Require Import SpecFloat.
From S2P Require Import Prelude GoStd GoTime Value.

(** ** Bit patterns *)

Definition f64_exponent (bits : Z) : Z := (bits / 2 ^ 52) mod 2048.
Definition f64_fraction (bits : Z) : Z := bits mod 2 ^ 52.
Definition f64_negative (bits : Z) : bool := 2 ^ 63 <=? bits.

Definition f64_nan (bits : Z) : bool := (f64_exponent bits =? 2047) && negb (f64_fraction bits =? 0).
Definition f64_inf (bits : Z) : bool := (f64_exponent bits =? 2047) && (f64_fraction bits =? 0).

(** One, in the units of [float64_value]. *)
Definition f64_one : Z := 2 ^ 1074.

(** [math.Trunc(x) == x] *)
Definition f64_integral (bits : Z) : bool :=
  f64_inf bits || (negb (f64_nan bits) && (float64_value bits mod f64_one =? 0)).

(** [math.Floor], [math.Ceil] and [math.Round] of a finite number, as integers. *)
Definition f64_floor (bits : Z) : Z := float64_value bits / f64_one.
Definition f64_ceil (bits : Z) : Z := - (- float64_value bits / f64_one).
Definition f64_round (bits : Z) : Z :=
  let v := float64_value bits in
  Z.sgn v * ((2 * Z.abs v + f64_one) / (2 * f64_one)).

(** [int64(x)] of a number; out of range it is what the processor returns (amd64). *)
Definition int64_of_Z (z : Z) : Z := if (- 2 ^ 63 <=? z) && (z <? 2 ^ 63) then z else - 2 ^ 63.
Definition int64_of_f64 (bits : Z) : Z :=
  if f64_exponent bits =? 2047 then - 2 ^ 63 else int64_of_Z (Z.quot (float64_value bits) f64_one).

(** ** Operations *)

Definition f64_decode (bits : Z) : spec_float :=
  let s := f64_negative bits in
  let e := f64_exponent bits in
  let f := f64_fraction bits in
  if e =? 2047 then if f =? 0 then S754_infinity s else S754_nan
  else if e =? 0 then match f with Zpos m => S754_finite s m (-1074) | _ => S754_zero s end
  else match 2 ^ 52 + f with Zpos m => S754_finite s m (e - 1075) | _ => S754_nan end.

Definition f64_encode (x : spec_float) : Z :=
  match x with
  | S754_zero s => float64_bits s 0 0
  | S754_infinity s => float64_bits s 2047 0
  | S754_nan => float64_bits false 2047 (2 ^ 51)
  | S754_finite s m e =>
    if Zpos m <? 2 ^ 52 then float64_bits s 0 (Zpos m) else float64_bits s (e + 1075) (Zpos m - 2 ^ 52)
  end.

Definition f64_mul (x y : Z) : Z := f64_encode (SFmul 53 1024 (f64_decode x) (f64_decode y)).
Definition f64_sub (x y : Z) : Z := f64_encode (SFsub 53 1024 (f64_decode x) (f64_decode y)).
Definition f64_lt (x y : Z) : bool := SFltb (f64_decode x) (f64_decode y).
Definition f64_abs (x : Z) : Z := x mod 2 ^ 63.

(** An integer that a float64 represents. *)
Definition f64_of_Z (z : Z) : Z := f64_encode (binary_normalize 53 1024 z 0 false).

(** [math.Round(x)] as a number. *)
Definition f64_rounded (bits : Z) : Z := if f64_exponent bits =? 2047 then bits else f64_of_Z (f64_round bits).

(** [math.Pow10(n)] for [0 <= n]: two table entries and their product. *)
Definition f64_pow10 (n : Z) : Z :=
  if 308 <? n then float64_bits false 2047 0
  else f64_mul (f64_of_Z (10 ^ (n / 32 * 32))) (f64_of_Z (10 ^ (n mod 32))).

(** The constant 1e-9. *)
Definition f64_nano : Z := 0x3E112E0BE826D695.
