(* ===== verification/Wire.v ===== *)
(** * MySQL wire primitives

    Packet framing (qsmysql/packet.go), the packet stream over a reader and a
    writer (qsmysql/stream.go), and the integer and string encodings shared by
    every other message (qsmysql/handshake.go, handshake_response.go,
    resultset.go, prepared.go). *)

From S2P Require Import Prelude GoStd.

(** ** Constants of the protocol (qsmysql/constants.go) *)

Definition MaxPayloadLength : Z := 2 ^ 24 - 1.
Definition PacketHeaderLength : Z := 4.

(** ** Packets *)

Record Packet : Type := mkPacket { SequenceID : byte; Payload : bytes }.

Definition EncodePacket (packet : Packet) : go bytes :=
  let length := zlen (Payload packet) in
  if MaxPayloadLength <? length
  then Err (Errorf "mysql packet payload length %d exceeds max %d"
              [AInt length; AInt MaxPayloadLength])
  else Ok ([byte_of length; byte_of (Z.shiftr length 8); byte_of (Z.shiftr length 16);
            SequenceID packet] ++ Payload packet).

(** [int(h[0]) | int(h[1])<<8 | int(h[2])<<16], the expression both readers use. *)
Definition headerLength (h : bytes) : go Z :=
  b0 ← index h 0; b1 ← index h 1; b2 ← index h 2;
  mret (Z.lor (Z.lor (ub b0) (Z.shiftl (ub b1) 8)) (Z.shiftl (ub b2) 16)).

Definition DecodePacket (data : bytes) : go Packet :=
  if zlen data <? PacketHeaderLength
  then Err (Errorf "mysql packet too short: %d bytes" [AInt (zlen data)])
  else
    length ← headerLength data;
    if negb (zlen data - PacketHeaderLength =? length)
    then Err (Errorf "mysql packet payload length mismatch: header=%d actual=%d"
                [AInt length; AInt (zlen data - PacketHeaderLength)])
    else
      payload ← slice_from data PacketHeaderLength;
      seq ← index data 3;
      mret (mkPacket seq payload).

(** ** The packet stream *)

Record Stream : Type := mkStream { Reader : option bytes; StreamWriter : option Writer }.

(** [ctx] is the result of [ctx.Err()] at the call. *)
Definition ReadPacket (ctx : option error) (s : Stream) : go Packet * Stream :=
  match ctx with
  | Some e => (Err e, s)
  | None =>
    match Reader s with
    | None => (Err (Errorf "mysql packet stream reader is nil" []), s)
    | Some r =>
      let '(header, r1) := ReadFull r PacketHeaderLength in
      let s1 := mkStream (Some r1) (StreamWriter s) in
      match (h ← header; length ← headerLength h; seq ← index h 3; mret (length, seq)) with
      | Err e => (Err e, s1)
      | Panic => (Panic, s1)
      | Ok (length, seq) =>
        let '(payload, r2) := ReadFull r1 length in
        ((p ← payload; mret (mkPacket seq p)), mkStream (Some r2) (StreamWriter s))
      end
    end
  end.

Definition WritePacket (ctx : option error) (s : Stream) (packet : Packet) : go unit * Stream :=
  match ctx with
  | Some e => (Err e, s)
  | None =>
    match StreamWriter s with
    | None => (Err (Errorf "mysql packet stream writer is nil" []), s)
    | Some w =>
      match EncodePacket packet with
      | Err e => (Err e, s)
      | Panic => (Panic, s)
      | Ok encoded =>
        let '(w1, n, err) := Write w encoded in
        let s1 := mkStream (Reader s) (Some w1) in
        match err with
        | Some e => (Err e, s1)
        | None => if negb (n =? zlen encoded) then (Err ErrShortWrite, s1) else (Ok tt, s1)
        end
      end
    end
  end.

(** [writeResponsePackets] (packetio.go): stops at the first failed write. *)
Fixpoint writePackets (ctx : option error) (s : Stream) (packets : list Packet) : go unit * Stream :=
  match packets with
  | [] => (Ok tt, s)
  | p :: ps =>
    match WritePacket ctx s p with
    | (Ok _, s1) => writePackets ctx s1 ps
    | r => r
    end
  end.

(** Reading [n] packets one after another. *)
Fixpoint readPackets (n : nat) (s : Stream) : go (list Packet) * Stream :=
  match n with
  | O => (Ok [], s)
  | S n =>
    match ReadPacket None s with
    | (Ok p, s1) => let '(ps, s2) := readPackets n s1 in ((cons p) <$> ps, s2)
    | (Err e, s1) => (Err e, s1)
    | (Panic, s1) => (Panic, s1)
    end
  end.

(** ** Fixed-width integers *)

Definition appendUint16LE (out : bytes) (value : Z) : bytes :=
  out ++ [byte_of value; byte_of (Z.shiftr value 8)].

Definition appendUint32LE (out : bytes) (value : Z) : bytes :=
  out ++ [byte_of value; byte_of (Z.shiftr value 8); byte_of (Z.shiftr value 16);
          byte_of (Z.shiftr value 24)].

Definition appendUint64LE (out : bytes) (value : Z) : bytes :=
  out ++ [byte_of value; byte_of (Z.shiftr value 8); byte_of (Z.shiftr value 16);
          byte_of (Z.shiftr value 24); byte_of (Z.shiftr value 32); byte_of (Z.shiftr value 40);
          byte_of (Z.shiftr value 48); byte_of (Z.shiftr value 56)].

Definition readUint16LE (data : bytes) : go Z :=
  b0 ← index data 0; b1 ← index data 1;
  mret (Z.lor (ub b0) (Z.shiftl (ub b1) 8)).

Definition readUint32LE (data : bytes) : go Z :=
  b0 ← index data 0; b1 ← index data 1; b2 ← index data 2; b3 ← index data 3;
  mret (Z.lor (Z.lor (Z.lor (ub b0) (Z.shiftl (ub b1) 8)) (Z.shiftl (ub b2) 16))
          (Z.shiftl (ub b3) 24)).

Definition readUint64LE (data : bytes) : go Z :=
  b0 ← index data 0; b1 ← index data 1; b2 ← index data 2; b3 ← index data 3;
  b4 ← index data 4; b5 ← index data 5; b6 ← index data 6; b7 ← index data 7;
  mret (Z.lor (Z.lor (Z.lor (Z.lor (Z.lor (Z.lor (Z.lor (ub b0)
          (Z.shiftl (ub b1) 8)) (Z.shiftl (ub b2) 16)) (Z.shiftl (ub b3) 24))
          (Z.shiftl (ub b4) 32)) (Z.shiftl (ub b5) 40)) (Z.shiftl (ub b6) 48))
          (Z.shiftl (ub b7) 56)).

(** ** Length-encoded integers and strings *)

Definition appendLengthEncodedInteger (out : bytes) (value : Z) : bytes :=
  if value <? 251 then out ++ [byte_of value]
  else if value <=? 0xffff then out ++ [byte_of 0xfc; byte_of value; byte_of (Z.shiftr value 8)]
  else if value <=? 0xffffff
  then out ++ [byte_of 0xfd; byte_of value; byte_of (Z.shiftr value 8); byte_of (Z.shiftr value 16)]
  else appendUint64LE (out ++ [byte_of 0xfe]) value.

Definition encodeLengthEncodedInteger (value : Z) : bytes := appendLengthEncodedInteger [] value.

Definition appendLengthEncodedString (out value : bytes) : bytes :=
  appendLengthEncodedInteger out (zlen value) ++ value.

(** The value, the next offset and the [ok] flag. *)
Definition readLengthEncodedInteger (data : bytes) (offset : Z) : go (Z * Z * bool) :=
  if zlen data <=? offset then mret (0, offset, false)
  else
    first ← index data offset;
    if ub first =? 0xfc then
      if zlen data <? offset + 3 then mret (0, offset, false)
      else s ← slice data (offset + 1) (offset + 3); v ← readUint16LE s; mret (v, offset + 3, true)
    else if ub first =? 0xfd then
      if zlen data <? offset + 4 then mret (0, offset, false)
      else
        b1 ← index data (offset + 1); b2 ← index data (offset + 2); b3 ← index data (offset + 3);
        mret (Z.lor (Z.lor (ub b1) (Z.shiftl (ub b2) 8)) (Z.shiftl (ub b3) 16), offset + 4, true)
    else if ub first =? 0xfe then
      if zlen data <? offset + 9 then mret (0, offset, false)
      else s ← slice data (offset + 1) (offset + 9); v ← readUint64LE s; mret (v, offset + 9, true)
    else if 0xfb <=? ub first then mret (0, offset, false)
    else mret (ub first, offset + 1, true).

Definition readLengthEncodedBytes (data : bytes) (offset : Z) : go (bytes * Z * bool) :=
  '(length, next, ok) ← readLengthEncodedInteger data offset;
  if negb ok || (zlen data - next <? length) then mret ([], offset, false)
  else s ← slice data next (next + length); mret (s, next + length, true).

(** ** Null-terminated strings *)

(** The loop of [readNullTerminatedBytes]: [rest] is [data[i:]]. *)
Fixpoint scanNull (data rest : bytes) (offset i : Z) : go (bytes * Z * bool) :=
  match rest with
  | [] => mret ([], zlen data, false)
  | b :: rest =>
    if ub b =? 0 then s ← slice data offset i; mret (s, i + 1, true)
    else scanNull data rest offset (i + 1)
  end.

Definition readNullTerminatedBytes (data : bytes) (offset : Z) : go (bytes * Z * bool) :=
  if zlen data <? offset then mret ([], offset, false)
  else scanNull data (drop (Z.to_nat offset) data) offset offset.

Definition readNullTerminatedString (data : bytes) (offset : Z) : go (bytes * Z * bool) :=
  readNullTerminatedBytes data offset.

(** ** Properties of the integer encodings *)

Lemma shiftr_div v k : 0 <= k -> Z.shiftr v (8 * k) = v / 256 ^ k.
Proof. intros. rewrite Z.shiftr_div_pow2, Z.pow_mul_r by lia. done. Qed.

Lemma le_bytes_2 v : [byte_of v; byte_of (Z.shiftr v 8)] = le_bytes 2 v.
Proof. change 8 with (8 * 1). rewrite shiftr_div by lia. done. Qed.

Lemma le_bytes_S n v : le_bytes (S n) v = byte_of v :: le_bytes n (Z.shiftr v 8).
Proof. change 8 with (8 * 1). rewrite shiftr_div by lia. done. Qed.

Lemma le_bytes_3 v :
  [byte_of v; byte_of (Z.shiftr v 8); byte_of (Z.shiftr v 16)] = le_bytes 3 v.
Proof. rewrite !le_bytes_S, !Z.shiftr_shiftr by lia. done. Qed.

Lemma appendUint16LE_le out v : appendUint16LE out v = out ++ le_bytes 2 v.
Proof. unfold appendUint16LE. by rewrite le_bytes_2. Qed.

Lemma appendUint32LE_le out v : appendUint32LE out v = out ++ le_bytes 4 v.
Proof. unfold appendUint32LE. rewrite !le_bytes_S, !Z.shiftr_shiftr by lia. done. Qed.

Lemma appendUint64LE_le out v : appendUint64LE out v = out ++ le_bytes 8 v.
Proof. unfold appendUint64LE. rewrite !le_bytes_S, !Z.shiftr_shiftr by lia. done. Qed.

(** Rewrites a chain of [lor]s of shifted bytes into a sum. *)
Ltac lor_sum :=
  ub_bounds;
  repeat match goal with
  | |- context [Z.lor ?a (Z.shiftl ?b ?n)] =>
      lazymatch a with
      | context [Z.lor _ _] => fail
      | _ => rewrite (lor_disjoint_add a b n) by (simpl; lia)
      end
  end; simpl; lia.

Lemma lor3_value b0 b1 b2 :
  Z.lor (Z.lor (ub b0) (Z.shiftl (ub b1) 8)) (Z.shiftl (ub b2) 16) = le_value [b0; b1; b2].
Proof. simpl le_value. lor_sum. Qed.

Lemma readUint16LE_value b0 b1 rest :
  readUint16LE (b0 :: b1 :: rest) = Ok (le_value [b0; b1]).
Proof. unfold readUint16LE, mret, go_ret. simpl. f_equal. lor_sum. Qed.

Lemma readUint32LE_value b0 b1 b2 b3 rest :
  readUint32LE (b0 :: b1 :: b2 :: b3 :: rest) = Ok (le_value [b0; b1; b2; b3]).
Proof. unfold readUint32LE, mret, go_ret. simpl. f_equal. lor_sum. Qed.

Lemma readUint64LE_value b0 b1 b2 b3 b4 b5 b6 b7 rest :
  readUint64LE (b0 :: b1 :: b2 :: b3 :: b4 :: b5 :: b6 :: b7 :: rest)
  = Ok (le_value [b0; b1; b2; b3; b4; b5; b6; b7]).
Proof. unfold readUint64LE, mret, go_ret. simpl. f_equal. lor_sum. Qed.

Lemma readUint16LE_bytes v rest : in_u 16 v -> readUint16LE (le_bytes 2 v ++ rest) = Ok v.
Proof.
  intros H. etrans; [apply readUint16LE_value|].
  f_equal. by apply (le_value_bytes_small 2).
Qed.

Lemma readUint32LE_bytes v rest : in_u 32 v -> readUint32LE (le_bytes 4 v ++ rest) = Ok v.
Proof.
  intros H. etrans; [apply readUint32LE_value|].
  f_equal. by apply (le_value_bytes_small 4).
Qed.

Lemma readUint64LE_bytes v rest : in_u 64 v -> readUint64LE (le_bytes 8 v ++ rest) = Ok v.
Proof.
  intros H. etrans; [apply readUint64LE_value|].
  f_equal. by apply (le_value_bytes_small 8).
Qed.

(** The slice of a read always has the width the reader wants. *)
Lemma list_of_zlen_2 (l : bytes) : zlen l = 2 -> exists b0 b1, l = [b0; b1].
Proof.
  destruct l as [|b0 [|b1 [|? l]]]; rewrite ?zlen_cons, ?zlen_nil;
    try pose proof (zlen_nonneg l); try lia. eauto.
Qed.

Lemma list_of_zlen_4 (l : bytes) : zlen l = 4 -> exists b0 b1 b2 b3, l = [b0; b1; b2; b3].
Proof.
  destruct l as [|b0 [|b1 [|b2 [|b3 [|? l]]]]]; rewrite ?zlen_cons, ?zlen_nil;
    try pose proof (zlen_nonneg l); try lia. eauto 6.
Qed.

Lemma list_of_zlen_8 (l : bytes) : zlen l = 8 ->
  exists b0 b1 b2 b3 b4 b5 b6 b7, l = [b0; b1; b2; b3; b4; b5; b6; b7].
Proof.
  destruct l as [|b0 [|b1 [|b2 [|b3 [|b4 [|b5 [|b6 [|b7 [|? l]]]]]]]]];
    rewrite ?zlen_cons, ?zlen_nil; try pose proof (zlen_nonneg l); try lia. eauto 10.
Qed.

Lemma readUint16LE_ok l : zlen l = 2 -> exists v, readUint16LE l = Ok v /\ in_u 16 v.
Proof.
  intros (b0 & b1 & ->)%list_of_zlen_2. eexists. split; [apply readUint16LE_value|].
  apply (le_value_range [b0; b1]).
Qed.

Lemma readUint32LE_ok l : zlen l = 4 -> exists v, readUint32LE l = Ok v /\ in_u 32 v.
Proof.
  intros (b0 & b1 & b2 & b3 & ->)%list_of_zlen_4. eexists.
  split; [apply readUint32LE_value|]. apply (le_value_range [b0; b1; b2; b3]).
Qed.

Lemma readUint64LE_ok l : zlen l = 8 -> exists v, readUint64LE l = Ok v /\ in_u 64 v.
Proof.
  intros (b0 & b1 & b2 & b3 & b4 & b5 & b6 & b7 & ->)%list_of_zlen_8. eexists.
  split; [apply readUint64LE_value|]. apply (le_value_range [b0; b1; b2; b3; b4; b5; b6; b7]).
Qed.

(** ** Framing *)

Lemma headerLength_value b0 b1 b2 rest :
  headerLength (b0 :: b1 :: b2 :: rest) = Ok (le_value [b0; b1; b2]).
Proof. unfold headerLength, mret, go_ret. simpl. f_equal. lor_sum. Qed.

Lemma EncodePacket_ok p d : EncodePacket p = Ok d <->
  zlen (Payload p) < 256 ^ 3 /\
  d = le_bytes 3 (zlen (Payload p)) ++ SequenceID p :: Payload p.
Proof.
  unfold EncodePacket, MaxPayloadLength.
  destruct (Z.ltb_spec (2 ^ 24 - 1) (zlen (Payload p))).
  - split; [done|]. intros []. lia.
  - rewrite <- le_bytes_3. split; [intros [= <-]; split; [lia|done]|]. by intros [_ ->].
Qed.

Lemma split_header (d : bytes) : 4 <= zlen d ->
  exists b0 b1 b2 b3 rest, d = b0 :: b1 :: b2 :: b3 :: rest.
Proof.
  destruct d as [|b0 [|b1 [|b2 [|b3 rest]]]]; rewrite ?zlen_cons, ?zlen_nil; try lia. eauto 6.
Qed.

Lemma le_value_3_bytes b0 b1 b2 n : n = le_value [b0; b1; b2] -> le_bytes 3 n = [b0; b1; b2].
Proof. intros ->. apply (le_bytes_value [b0; b1; b2]). Qed.

Lemma le_bytes_3_split n : 0 <= n < 256 ^ 3 ->
  exists b0 b1 b2, le_bytes 3 n = [b0; b1; b2] /\ le_value [b0; b1; b2] = n.
Proof.
  intros H. do 3 eexists. split; [reflexivity|]. by apply (le_value_bytes_small 3).
Qed.

Lemma slice_from_4 (b0 b1 b2 b3 : byte) rest : slice_from (b0 :: b1 :: b2 :: b3 :: rest) 4 = Ok rest.
Proof. apply (slice_from_app [b0; b1; b2; b3] rest). Qed.

Lemma DecodePacket_ok d p : DecodePacket d = Ok p <->
  exists b0 b1 b2, d = b0 :: b1 :: b2 :: SequenceID p :: Payload p /\
    le_value [b0; b1; b2] = zlen (Payload p).
Proof.
  unfold DecodePacket, PacketHeaderLength. split.
  - case_if; [done|].
    destruct (split_header d) as (b0 & b1 & b2 & b3 & rest & ->); [lia|].
    rewrite headerLength_value. cbn [mbind go_bind]. case_if; [done|].
    rewrite slice_from_4. cbn -[le_value]. intros [= <-]. cbn [SequenceID Payload].
    exists b0, b1, b2. split; [done|]. rewrite !zlen_cons in *. lia.
  - intros (b0 & b1 & b2 & -> & E). pose proof (zlen_nonneg (Payload p)).
    case_if; [rewrite !zlen_cons in *; lia|].
    rewrite headerLength_value. cbn [mbind go_bind]. case_if; [rewrite !zlen_cons in *; lia|].
    rewrite slice_from_4. by destruct p.
Qed.

Lemma EncodePacket_DecodePacket p d : EncodePacket p = Ok d <-> DecodePacket d = Ok p.
Proof.
  rewrite EncodePacket_ok, DecodePacket_ok. pose proof (zlen_nonneg (Payload p)). split.
  - intros [Hl ->]. destruct (le_bytes_3_split (zlen (Payload p))) as (b0 & b1 & b2 & -> & E);
      [lia|]. by exists b0, b1, b2.
  - intros (b0 & b1 & b2 & -> & E). split.
    + rewrite <- E. apply (le_value_range [b0; b1; b2]).
    + by rewrite (le_value_3_bytes b0 b1 b2).
Qed.

(** ** The stream *)

Lemma ReadFull_app (x rest : bytes) : ReadFull (x ++ rest) (zlen x) = (Ok x, rest).
Proof.
  unfold ReadFull. pose proof (zlen_nonneg x). pose proof (zlen_nonneg rest).
  case_if; [by rewrite (zlen_zero x)|].
  case_if; [rewrite zlen_app in *; lia|].
  case_if; [rewrite zlen_app in *; lia|].
  unfold zlen. rewrite Nat2Z.id, take_app_length, drop_app_length. done.
Qed.

Lemma ReadFull_ok r n x rest : 0 <= n -> ReadFull r n = (Ok x, rest) -> r = x ++ rest /\ zlen x = n.
Proof.
  unfold ReadFull. intros Hn. case_if; [intros [= <- <-]; by subst|].
  case_if; [done|]. case_if; [done|]. intros [= <- <-]. split; [by rewrite take_drop|].
  unfold zlen in *. rewrite length_take. lia.
Qed.

Lemma ReadPacket_ok r w p s' : ReadPacket None (mkStream (Some r) w) = (Ok p, s') <->
  exists d rest, EncodePacket p = Ok d /\ r = d ++ rest /\ s' = mkStream (Some rest) w.
Proof.
  unfold ReadPacket, PacketHeaderLength. simpl. split.
  - destruct (ReadFull r 4) as [[h|e|] r1] eqn:E1; [|done..].
    apply ReadFull_ok in E1 as [-> Hh]; [|lia].
    destruct (split_header h) as (b0 & b1 & b2 & b3 & rest & ->); [lia|].
    cbn [mbind go_bind]. rewrite headerLength_value. cbn [mbind go_bind].
    rewrite !zlen_cons in Hh. assert (rest = []) as -> by (apply zlen_zero; lia).
    change (index [b0; b1; b2; b3] 3) with (Ok b3). cbn [mbind go_bind mret go_ret].
    destruct (ReadFull r1 _) as [[pl|e|] r2] eqn:E2; [|done..].
    apply ReadFull_ok in E2 as [-> Hpl]; [|apply (le_value_range [b0; b1; b2])].
    intros [= <- <-]. exists ([b0; b1; b2; b3] ++ pl), r2.
    split; [|by rewrite <- app_assoc].
    apply EncodePacket_DecodePacket, DecodePacket_ok. by exists b0, b1, b2.
  - intros (d & rest & (b0 & b1 & b2 & -> & E)%EncodePacket_DecodePacket%DecodePacket_ok & -> & ->).
    change ((b0 :: b1 :: b2 :: SequenceID p :: Payload p) ++ rest)
      with ([b0; b1; b2; SequenceID p] ++ (Payload p ++ rest)).
    change 4 with (zlen [b0; b1; b2; SequenceID p]).
    rewrite (ReadFull_app [b0; b1; b2; SequenceID p]). cbn [mbind go_bind].
    rewrite headerLength_value, E. cbn [mbind go_bind].
    change (index [b0; b1; b2; SequenceID p] 3) with (Ok (SequenceID p)). cbn -[ReadFull].
    rewrite ReadFull_app. cbn. by destruct p.
Qed.

Lemma WritePacket_ok s p s' : WritePacket None s p = (Ok tt, s') <->
  exists w w' d, StreamWriter s = Some w /\ EncodePacket p = Ok d /\
    Write w d = (w', zlen d, None) /\ s' = mkStream (Reader s) (Some w').
Proof.
  unfold WritePacket. destruct (StreamWriter s) as [w|]; [|split; [done|by intros (?&?&?&?&?)]].
  destruct (EncodePacket p) as [d|e|]; [|split; [done|by intros (?&?&?&?&?&?)]..].
  destruct (Write w d) as [[w' n] [e|]] eqn:E.
  - split; [done|]. intros (w0&w0'&d0&[= <-]&[= <-]&E'&_). congruence.
  - destruct (Z.eqb_spec n (zlen d)); simpl; split; try done.
    + intros [= <-]. subst. by exists w, w', d.
    + intros (w0&w0'&d0&[= <-]&[= <-]&E'&->). rewrite E in E'. by injection E' as <-.
    + intros (w0&w0'&d0&[= <-]&[= <-]&E'&->). congruence.
Qed.

Lemma ReadFull_no_panic r n : (ReadFull r n).1 <> Panic.
Proof. unfold ReadFull. by repeat case_if. Qed.

Lemma ReadPacket_no_panic ctx s : (ReadPacket ctx s).1 <> Panic.
Proof.
  unfold ReadPacket, PacketHeaderLength. destruct ctx; [done|]. destruct (Reader s) as [r|]; [|done].
  destruct (ReadFull r 4) as [[h|e|] r1] eqn:E; [|done|by pose proof (ReadFull_no_panic r 4) as N; rewrite E in N].
  apply ReadFull_ok in E as [_ Hh]; [|lia].
  destruct (split_header h) as (b0 & b1 & b2 & b3 & rest & ->); [lia|].
  cbn [mbind go_bind]. rewrite headerLength_value. cbn [mbind go_bind].
  rewrite !zlen_cons in Hh. assert (rest = []) as -> by (apply zlen_zero; lia).
  change (index [b0; b1; b2; b3] 3) with (Ok b3). cbn [mbind go_bind mret go_ret].
  pose proof (ReadFull_no_panic r1 (le_value [b0; b1; b2])) as N.
  by destruct (ReadFull r1 _) as [[pl|e|] r2].
Qed.

Lemma ReadPacket_writer ctx s : StreamWriter (ReadPacket ctx s).2 = StreamWriter s.
Proof.
  unfold ReadPacket. destruct ctx; [done|]. destruct (Reader s) as [r|]; [|done].
  destruct (ReadFull r _) as [h r1]. destruct (_ ≫= _) as [[n q]|e|]; [|done..].
  by destruct (ReadFull r1 n).
Qed.

Lemma EncodePacket_no_panic p : EncodePacket p <> Panic.
Proof. unfold EncodePacket. by case_if. Qed.

Lemma WritePacket_no_panic ctx s p : (WritePacket ctx s p).1 <> Panic.
Proof.
  unfold WritePacket. destruct ctx; [done|]. destruct (StreamWriter s) as [w|]; [|done].
  destruct (EncodePacket p) as [d|e|] eqn:E; [|done|by apply EncodePacket_no_panic in E].
  destruct (Write w d) as [[w1 n] [e|]]; [done|]. by case_if.
Qed.

Lemma Write_all w d w' : Write w d = (w', zlen d, None) -> written w' = written w ++ d.
Proof.
  unfold Write. destruct (outcomes w) as [|[|n|n e] os]; [by intros [= <-]..| |done].
  intros [= <- H]. simpl. f_equal. apply take_ge. unfold zlen in H. rewrite length_take in H. lia.
Qed.

Lemma writePackets_stream ps : forall s s', writePackets None s ps = (Ok tt, s') ->
  forall w, StreamWriter s = Some w -> exists w' bs, StreamWriter s' = Some w' /\
    written w' = written w ++ bs /\
    forall rest wr, readPackets (length ps) (mkStream (Some (bs ++ rest)) wr)
      = (Ok ps, mkStream (Some rest) wr).
Proof.
  induction ps as [|p ps IH]; intros s s'; cbn [writePackets readPackets length].
  - intros [= <-] w Hw. exists w, []. by rewrite app_nil_r.
  - destruct (WritePacket None s p) as [[[]|e|] s1] eqn:E1; [|discriminate..]. intros Hps w Hw.
    apply WritePacket_ok in E1 as (w0 & w1 & d & Hw0 & Hd & HW & ->).
    rewrite Hw in Hw0. injection Hw0 as <-.
    destruct (IH _ _ Hps w1 eq_refl) as (w' & bs & Hw' & Hwr & Hrd).
    exists w', (d ++ bs). rewrite Hwr, (Write_all _ _ _ HW), !app_assoc.
    repeat split; try done. intros rest wr. rewrite <- app_assoc.
    rewrite (proj2 (ReadPacket_ok _ _ p (mkStream (Some (bs ++ rest)) wr))) by eauto.
    by rewrite Hrd.
Qed.

(** ** Length-encoded values *)

(** The encoding of a length as a prefix-independent byte string. *)
Lemma appendLengthEncodedInteger_app out v :
  appendLengthEncodedInteger out v = out ++ encodeLengthEncodedInteger v.
Proof.
  unfold encodeLengthEncodedInteger, appendLengthEncodedInteger, appendUint64LE.
  repeat case_if; try reflexivity. by rewrite <- app_assoc.
Qed.

Lemma appendLengthEncodedString_app out s :
  appendLengthEncodedString out s = out ++ encodeLengthEncodedInteger (zlen s) ++ s.
Proof.
  unfold appendLengthEncodedString. by rewrite appendLengthEncodedInteger_app, <- app_assoc.
Qed.

Lemma encodeLengthEncodedInteger_le v :
  encodeLengthEncodedInteger v =
    if v <? 251 then [byte_of v]
    else if v <=? 0xffff then byte_of 0xfc :: le_bytes 2 v
    else if v <=? 0xffffff then byte_of 0xfd :: le_bytes 3 v
    else byte_of 0xfe :: le_bytes 8 v.
Proof.
  unfold encodeLengthEncodedInteger, appendLengthEncodedInteger. cbn [app].
  by rewrite appendUint64LE_le, <- le_bytes_2, <- le_bytes_3.
Qed.

Lemma readLengthEncodedInteger_encoded pre v rest : in_u 64 v ->
  readLengthEncodedInteger (pre ++ encodeLengthEncodedInteger v ++ rest) (zlen pre)
  = Ok (v, zlen pre + zlen (encodeLengthEncodedInteger v), true).
Proof.
  intros Hv. unfold in_u in Hv. pose proof (zlen_nonneg pre). pose proof (zlen_nonneg rest).
  rewrite encodeLengthEncodedInteger_le.
  destruct (Z.ltb_spec v 251); [|destruct (Z.leb_spec v 0xffff);
    [|destruct (Z.leb_spec v 0xffffff)]];
    unfold readLengthEncodedInteger; rewrite <- ?app_comm_cons; cbn [app];
    autorewrite with zlen; if_false; rewrite index_app_here; cbn [mbind go_bind].
  - rewrite ub_byte_of, (Z.mod_small v) by lia. do 4 if_false. done.
  - change (ub (byte_of 0xfc)) with 0xfc. if_true. if_false. rewrite slice_app_r by lia.
    rewrite (slice_at _ [byte_of 0xfc] (le_bytes 2 v) rest) by done.
    cbn [mbind go_bind].
    rewrite <- (app_nil_r (le_bytes 2 v)), readUint16LE_bytes by (unfold in_u; lia). done.
  - change (ub (byte_of 0xfd)) with 0xfd. if_false. if_true. if_false.
    rewrite !index_app_r by lia. destruct (le_bytes_3_split v) as (b0 & b1 & b2 & -> & E); [lia|].
    change (index (byte_of 0xfd :: [b0; b1; b2] ++ rest) 1) with (Ok b0).
    change (index (byte_of 0xfd :: [b0; b1; b2] ++ rest) 2) with (Ok b1).
    change (index (byte_of 0xfd :: [b0; b1; b2] ++ rest) 3) with (Ok b2).
    cbn [mbind go_bind mret go_ret]. by rewrite lor3_value, E.
  - change (ub (byte_of 0xfe)) with 0xfe. do 2 if_false. if_true. if_false.
    rewrite slice_app_r by lia.
    rewrite (slice_at _ [byte_of 0xfe] (le_bytes 8 v) rest) by done.
    cbn [mbind go_bind]. rewrite <- (app_nil_r (le_bytes 8 v)), readUint64LE_bytes by done. done.
Qed.

(** Reading at a non-negative offset never panics and never runs past the data. *)
Lemma readLengthEncodedInteger_total data offset : 0 <= offset ->
  exists v next ok, readLengthEncodedInteger data offset = Ok (v, next, ok) /\
    (ok = true -> in_u 64 v /\ offset < next <= zlen data) /\ (ok = false -> next = offset).
Proof.
  intros Ho. unfold readLengthEncodedInteger. case_if.
  { do 3 eexists. split; [done|]. split; [done|lia]. }
  destruct (index_safe data offset) as [b ->]; [lia|]. cbn [mbind go_bind].
  pose proof (ub_range b). case_if; [case_if|case_if; [case_if|case_if; [case_if|case_if]]].
  all: try (do 3 eexists; split; [done|]; split; [done|lia]).
  - destruct (slice_safe data (offset + 1) (offset + 3)) as (l & -> & Hl); [lia..|].
    cbn [mbind go_bind]. destruct (readUint16LE_ok l) as (v & -> & Hv); [lia|].
    do 3 eexists. split; [done|]. unfold in_u in *. split; [lia|done].
  - destruct (index_safe data (offset + 1)) as [b1 ->]; [lia|].
    destruct (index_safe data (offset + 2)) as [b2 ->]; [lia|].
    destruct (index_safe data (offset + 3)) as [b3 ->]; [lia|]. cbn [mbind go_bind].
    do 3 eexists. split; [done|]. rewrite lor3_value.
    pose proof (le_value_range [b1; b2; b3]). unfold in_u in *. split; [|done].
    change (256 ^ zlen [b1; b2; b3]) with (2 ^ 24) in *. lia.
  - destruct (slice_safe data (offset + 1) (offset + 9)) as (l & -> & Hl); [lia..|].
    cbn [mbind go_bind]. destruct (readUint64LE_ok l) as (v & -> & Hv); [lia|].
    do 3 eexists. split; [done|]. unfold in_u in *. split; [lia|done].
  - do 3 eexists. split; [done|]. unfold in_u. split; [lia|done].
Qed.

Lemma readLengthEncodedBytes_encoded pre s rest : in_u 64 (zlen s) ->
  readLengthEncodedBytes (pre ++ (encodeLengthEncodedInteger (zlen s) ++ s) ++ rest) (zlen pre)
  = Ok (s, zlen pre + zlen (encodeLengthEncodedInteger (zlen s)) + zlen s, true).
Proof.
  intros H. unfold readLengthEncodedBytes. rewrite <- app_assoc.
  rewrite readLengthEncodedInteger_encoded by done. cbn [mbind go_bind].
  pose proof (zlen_nonneg s). pose proof (zlen_nonneg rest). autorewrite with zlen.
  if_false. rewrite (slice_at _ (pre ++ encodeLengthEncodedInteger (zlen s)) s rest); [done|..].
  - by rewrite <- app_assoc.
  - by rewrite zlen_app.
  - rewrite zlen_app. lia.
Qed.

Lemma readLengthEncodedBytes_total data offset : 0 <= offset ->
  exists s next ok, readLengthEncodedBytes data offset = Ok (s, next, ok) /\
    (ok = true -> offset < next <= zlen data) /\ (ok = false -> next = offset).
Proof.
  intros Ho. unfold readLengthEncodedBytes.
  destruct (readLengthEncodedInteger_total data offset Ho) as (v & next & ok & -> & H1 & H2).
  cbn [mbind go_bind]. case_if; [by do 3 eexists|].
  destruct ok; [|done]. destruct (H1 eq_refl) as [[] ?].
  destruct (slice_safe data next (next + v)) as (l & -> & Hl); [lia..|].
  do 3 eexists. split; [done|]. split; [lia|done].
Qed.

(** ** Null-terminated strings *)

Definition zero_free (s : bytes) : Prop := Forall (fun b => ub b <> 0) s.

Lemma scanNull_found data pre mid s rest : data = pre ++ mid ++ s ++ byte_of 0 :: rest ->
  zero_free s ->
  scanNull data (s ++ byte_of 0 :: rest) (zlen pre) (zlen pre + zlen mid)
  = Ok (mid ++ s, zlen pre + zlen mid + zlen s + 1, true).
Proof.
  revert mid. induction s as [|b s IH]; intros mid Hd Hs; cbn [app scanNull].
  - change (ub (byte_of 0) =? 0) with true. cbv iota.
    rewrite (slice_at data pre mid (byte_of 0 :: rest)) by done.
    cbn. rewrite zlen_nil, app_nil_r. do 3 f_equal. lia.
  - apply Forall_cons in Hs as [Hb Hs]. if_false.
    replace (zlen pre + zlen mid + 1) with (zlen pre + zlen (mid ++ [b])) by zlen_simpl.
    rewrite (IH (mid ++ [b])); [|by rewrite Hd, <- app_assoc|done].
    rewrite <- app_assoc. do 3 f_equal. zlen_simpl.
Qed.

Lemma readNullTerminatedBytes_encoded pre s rest : zero_free s ->
  readNullTerminatedBytes (pre ++ s ++ byte_of 0 :: rest) (zlen pre)
  = Ok (s, zlen pre + zlen s + 1, true).
Proof.
  intros Hs. pose proof (zlen_nonneg s). pose proof (zlen_nonneg rest).
  unfold readNullTerminatedBytes. autorewrite with zlen. if_false.
  unfold zlen at 1. rewrite Nat2Z.id, drop_app_length.
  pose proof (scanNull_found (pre ++ s ++ byte_of 0 :: rest) pre [] s rest eq_refl Hs) as E.
  change (zlen (@nil byte)) with 0 in E. by rewrite Z.add_0_r in E.
Qed.

Lemma scanNull_total rest : forall data offset i, 0 <= offset <= i -> zlen data = i + zlen rest ->
  exists s next ok, scanNull data rest offset i = Ok (s, next, ok) /\
    offset <= next <= zlen data /\ (ok = true -> offset < next).
Proof.
  induction rest as [|b rest IH]; intros data offset i Hi Hl; cbn [scanNull].
  - rewrite zlen_nil in Hl. do 3 eexists. split; [done|]. split; [lia|done].
  - rewrite zlen_cons in Hl. pose proof (zlen_nonneg rest). case_if.
    + destruct (slice_safe data offset i) as (l & -> & _); [lia..|].
      do 3 eexists. split; [done|]. split; [lia|]. lia.
    + apply IH; lia.
Qed.

Lemma readNullTerminatedBytes_total data offset : 0 <= offset ->
  exists s next ok, readNullTerminatedBytes data offset = Ok (s, next, ok) /\
    (offset <= zlen data -> offset <= next <= zlen data) /\
    (ok = true -> offset < next <= zlen data).
Proof.
  intros Ho. unfold readNullTerminatedBytes. case_if.
  - do 3 eexists. split; [done|]. split; [lia|done].
  - destruct (scanNull_total (drop (Z.to_nat offset) data) data offset offset)
      as (s & next & ok & -> & H1 & H2); [lia| |].
    { unfold zlen in *. rewrite length_drop. lia. }
    do 3 eexists. split; [done|]. split; [done|]. intros Hok. specialize (H2 Hok). lia.
Qed.

(** ** Messages as concatenations of encoded fields *)

Lemma byte_of_ub_eq b z : ub b = z -> b = byte_of z.
Proof. intros <-. by rewrite byte_of_ub. Qed.

Lemma le_bytes_4_value b0 b1 b2 b3 : le_bytes 4 (le_value [b0; b1; b2; b3]) = [b0; b1; b2; b3].
Proof. apply (le_bytes_value [b0; b1; b2; b3]). Qed.

Lemma le_bytes_2_value b0 b1 : le_bytes 2 (le_value [b0; b1]) = [b0; b1].
Proof. apply (le_bytes_value [b0; b1]). Qed.

Lemma readUint32LE_le v : in_u 32 v -> readUint32LE (le_bytes 4 v) = Ok v.
Proof. intros. rewrite <- (app_nil_r (le_bytes 4 v)). by apply readUint32LE_bytes. Qed.

Lemma readUint16LE_le v : in_u 16 v -> readUint16LE (le_bytes 2 v) = Ok v.
Proof. intros. rewrite <- (app_nil_r (le_bytes 2 v)). by apply readUint16LE_bytes. Qed.

(** Four (two) bytes of a message are the encoding of a 32-bit (16-bit) value. *)
Lemma le_bytes_4_of l : zlen l = 4 -> exists v, l = le_bytes 4 v /\ in_u 32 v.
Proof.
  intros (b0 & b1 & b2 & b3 & ->)%list_of_zlen_4. eexists. split; [by rewrite le_bytes_4_value|].
  apply (le_value_range [b0; b1; b2; b3]).
Qed.

Lemma le_bytes_2_of l : zlen l = 2 -> exists v, l = le_bytes 2 v /\ in_u 16 v.
Proof.
  intros (b0 & b1 & ->)%list_of_zlen_2. eexists. split; [by rewrite le_bytes_2_value|].
  apply (le_value_range [b0; b1]).
Qed.

Lemma slice_from_1 (b : byte) rest : slice_from (b :: rest) 1 = Ok rest.
Proof. apply (slice_from_app [b] rest). Qed.

Lemma readNullTerminatedBytes_at data pre s rest o :
  data = pre ++ s ++ byte_of 0 :: rest -> o = zlen pre -> zero_free s ->
  readNullTerminatedBytes data o = Ok (s, o + zlen s + 1, true).
Proof. intros -> ->. apply readNullTerminatedBytes_encoded. Qed.

(** ** Panic freedom

    [go_steps] walks through the body of a decoder: it shows that no index or
    slice expression of it is out of range, from the length checks before it,
    and leaves the facts to show of the returned values. *)

Ltac go_step :=
  match goal with
  | |- returns _ (Ok _) => cbn [returns]
  | |- returns _ (mret _) => cbn [returns mret go_ret]
  | |- returns _ (Err _) => exact I
  | |- returns _ (index ?d ?i ≫= _) =>
      let b := fresh "b" in destruct (index_safe d i) as [b ->]; [lia|];
      pose proof (ub_range b); cbn [mbind go_bind]
  | |- returns _ (slice ?d ?i ?j ≫= _) =>
      let l := fresh "l" in let H := fresh "Hl" in
      destruct (slice_safe d i j) as (l & -> & H); [lia..|]; cbn [mbind go_bind]
  | |- returns _ (slice_from ?d ?i ≫= _) => unfold slice_from
  | |- returns _ (readUint16LE ?d ≫= _) =>
      let v := fresh "v" in let H := fresh "Hv" in
      destruct (readUint16LE_ok d) as (v & -> & H); [lia|]; cbn [mbind go_bind]
  | |- returns _ (readUint32LE ?d ≫= _) =>
      let v := fresh "v" in let H := fresh "Hv" in
      destruct (readUint32LE_ok d) as (v & -> & H); [lia|]; cbn [mbind go_bind]
  | |- returns _ (readUint64LE ?d ≫= _) =>
      let v := fresh "v" in let H := fresh "Hv" in
      destruct (readUint64LE_ok d) as (v & -> & H); [lia|]; cbn [mbind go_bind]
  | |- returns _ (readLengthEncodedBytes ?d ?o ≫= _) =>
      let s := fresh "s" in let n := fresh "next" in let k := fresh "ok" in
      let H1 := fresh "Hok" in let H2 := fresh "Hnok" in
      destruct (readLengthEncodedBytes_total d o) as (s & n & k & -> & H1 & H2); [lia|];
      cbn [mbind go_bind]
  | |- returns _ (readNullTerminatedBytes ?d ?o ≫= _) =>
      let s := fresh "s" in let n := fresh "next" in let k := fresh "ok" in
      let H1 := fresh "Hn" in let H2 := fresh "Hok" in
      destruct (readNullTerminatedBytes_total d o) as (s & n & k & -> & H1 & H2); [lia|];
      cbn [mbind go_bind]
  | |- returns _ (readNullTerminatedString _ _ ≫= _) => unfold readNullTerminatedString
  | |- returns _ ((_ ≫= _) ≫= _) => rewrite bind_assoc
  | |- returns _ (if _ then _ else _) => case_if
  | |- returns _ ((if _ then _ else _) ≫= _) => case_if
  | |- returns _ (mret _ ≫= _) => cbn [mbind go_bind mret go_ret]
  | |- returns _ (Ok _ ≫= _) => cbn [mbind go_bind]
  | |- returns _ (Err _ ≫= _) => cbn [mbind go_bind]
  end.
Ltac go_steps := repeat go_step.
Ltac go_safe := apply safe_returns; go_steps; try exact I.

(** ** The properties of the component *)

(** Packet framing is a bijection between the packets of at most
    [MaxPayloadLength] bytes and the byte strings [DecodePacket] accepts: the
    encoder and the decoder are inverse to each other in both directions. *)
Theorem packet_codec_inverse p d : EncodePacket p = Ok d <-> DecodePacket d = Ok p.
Proof. apply EncodePacket_DecodePacket. Qed.

(** C27. Whatever the writer does with the individual writes, when
    [writeResponsePackets] reports success the bytes it put on the wire are
    read back by [ReadPacket], one packet at a time, as exactly the packets
    sent, in order, leaving what follows them unread. *)
Theorem packet_stream_roundtrip ps s s' w :
  StreamWriter s = Some w -> writePackets None s ps = (Ok tt, s') ->
  exists w' sent, StreamWriter s' = Some w' /\ written w' = written w ++ sent /\
    forall rest wr, readPackets (length ps) (mkStream (Some (sent ++ rest)) wr)
      = (Ok ps, mkStream (Some rest) wr).
Proof. intros Hw Hps. by eapply writePackets_stream. Qed.

Lemma packet_stream_roundtrip_witness :
  let ps := [mkPacket (byte_of 0) (str "hello"); mkPacket (byte_of 1) []] in
  let s := mkStream None (Some (mkWriter [] [WriteAll; WriteShort 9])) in
  exists w' sent, StreamWriter (writePackets None s ps).2 = Some w' /\ written w' = sent /\
    forall rest wr, readPackets 2 (mkStream (Some (sent ++ rest)) wr)
      = (Ok ps, mkStream (Some rest) wr).
Proof.
  apply (packet_stream_roundtrip
    [mkPacket (byte_of 0) (str "hello"); mkPacket (byte_of 1) []]
    (mkStream None (Some (mkWriter [] [WriteAll; WriteShort 9]))) _
    (mkWriter [] [WriteAll; WriteShort 9])); reflexivity.
Defined.

(** Length-encoded strings round trip inside any message: reading at the
    offset where [appendLengthEncodedString] wrote gives back the string and
    the offset of the byte after it (the length prefix takes the 1, 3, 4 or 9
    byte form that fits the length). *)
Theorem length_encoded_string_roundtrip pre s rest : in_u 64 (zlen s) ->
  readLengthEncodedBytes (appendLengthEncodedString pre s ++ rest) (zlen pre)
  = Ok (s, zlen (appendLengthEncodedString pre s), true).
Proof.
  intros H. rewrite appendLengthEncodedString_app, <- app_assoc.
  rewrite readLengthEncodedBytes_encoded by done. do 3 f_equal. zlen_simpl.
Qed.

Lemma length_encoded_string_roundtrip_witness :
  readLengthEncodedBytes (appendLengthEncodedString (str "ab") (str "cde") ++ str "f") 2
  = Ok (str "cde", 6, true).
Proof.
  apply (length_encoded_string_roundtrip (str "ab") (str "cde") (str "f")).
  unfold in_u. vm_compute. split; congruence.
Defined.
