(* ===== verification/Command.v ===== *)
(** * MySQL command packets

    Decoding of the client's command packets (qsmysql/command.go) and of the
    fixed envelopes of COM_STMT_EXECUTE and COM_STMT_SEND_LONG_DATA
    (qsmysql/prepared.go). *)

From S2P Require Import Prelude GoStd Wire.

(** ** Command bytes (qsmysql/constants.go) *)

Definition CommandQuit : Z := 0x01.
Definition CommandQuery : Z := 0x03.
Definition CommandFieldList : Z := 0x04.
Definition CommandPing : Z := 0x0e.
Definition CommandStmtPrepare : Z := 0x16.
Definition CommandStmtExecute : Z := 0x17.
Definition CommandStmtSendLongData : Z := 0x18.
Definition CommandStmtClose : Z := 0x19.
Definition CommandStmtReset : Z := 0x1a.

(** ** Decoded commands *)

Inductive CommandKind : Type :=
  | CommandKindQuery
  | CommandKindFieldList
  | CommandKindStmtPrepare
  | CommandKindStmtExecute
  | CommandKindStmtSendLongData
  | CommandKindStmtClose
  | CommandKindStmtReset
  | CommandKindPing
  | CommandKindQuit
  | CommandKindDecodeError.

#[export] Instance CommandKind_eq_dec : EqDecision CommandKind.
Proof. solve_decision. Defined.

Record PreparedExecuteCommand : Type := mkExecute {
  ex_StatementID : Z;
  ex_Flags : byte;
  ex_IterationCount : Z;
  ex_ParameterPayload : bytes }.

Record PreparedLongDataCommand : Type := mkLongData {
  ld_StatementID : Z;
  ld_ParameterID : Z;
  ld_Data : bytes }.

Definition ParameterIndex (c : PreparedLongDataCommand) : Z := ld_ParameterID c + 1.

(** The zero values of the two envelopes. *)
Definition no_execute : PreparedExecuteCommand := mkExecute 0 (byte_of 0) 0 [].
Definition no_long_data : PreparedLongDataCommand := mkLongData 0 0 [].

Record Command : Type := mkCommand {
  c_Kind : CommandKind;
  c_SQL : bytes;
  c_Table : bytes;
  c_FieldPattern : bytes;
  c_StatementID : Z;
  c_Execute : PreparedExecuteCommand;
  c_LongData : PreparedLongDataCommand;
  c_ConnectionID : Z;
  c_Username : bytes;
  c_Database : bytes;
  c_Roles : list bytes }.

(** [Command{Kind: ..., SQL: ..., Table: ..., FieldPattern: ..., StatementID: ...}] *)
Definition bare_command (kind : CommandKind) (sql table pattern : bytes) (id : Z) : Command :=
  mkCommand kind sql table pattern id no_execute no_long_data 0 [] [] [].

Definition with_execute (c : Command) (e : PreparedExecuteCommand) : Command :=
  mkCommand (c_Kind c) (c_SQL c) (c_Table c) (c_FieldPattern c) (ex_StatementID e) e
    (c_LongData c) (c_ConnectionID c) (c_Username c) (c_Database c) (c_Roles c).

Definition with_long_data (c : Command) (l : PreparedLongDataCommand) : Command :=
  mkCommand (c_Kind c) (c_SQL c) (c_Table c) (c_FieldPattern c) (ld_StatementID l) (c_Execute c)
    l (c_ConnectionID c) (c_Username c) (c_Database c) (c_Roles c).

(** ** Decoders *)

Definition DecodePreparedExecuteCommand (payload : bytes) : go PreparedExecuteCommand :=
  if zlen payload <? 10
  then Err (Errorf "COM_STMT_EXECUTE payload too short: %d bytes" [AInt (zlen payload)])
  else
    b ← index payload 0;
    if negb (ub b =? CommandStmtExecute)
    then Err (Errorf "COM_STMT_EXECUTE payload has command byte 0x%02x" [AInt (ub b)])
    else
      s1 ← slice payload 1 5; id ← readUint32LE s1;
      flags ← index payload 5;
      s2 ← slice payload 6 10; iter ← readUint32LE s2;
      params ← slice_from payload 10;
      mret (mkExecute id flags iter params).

Definition DecodePreparedLongDataCommand (payload : bytes) : go PreparedLongDataCommand :=
  if zlen payload <? 7
  then Err (Errorf "COM_STMT_SEND_LONG_DATA payload too short: %d bytes" [AInt (zlen payload)])
  else
    b ← index payload 0;
    if negb (ub b =? CommandStmtSendLongData)
    then Err (Errorf "COM_STMT_SEND_LONG_DATA payload has command byte 0x%02x" [AInt (ub b)])
    else
      s1 ← slice payload 1 5; id ← readUint32LE s1;
      s2 ← slice payload 5 7; param ← readUint16LE s2;
      data ← slice_from payload 7;
      mret (mkLongData id param data).

Definition commandName (command : Z) : bytes :=
  if command =? CommandStmtSendLongData then str "COM_STMT_SEND_LONG_DATA"
  else if command =? CommandStmtClose then str "COM_STMT_CLOSE"
  else if command =? CommandStmtReset then str "COM_STMT_RESET"
  else str "command 0x" ++ [hex_digit (command / 16); hex_digit (command mod 16)].

Definition decodeStatementIDCommand (command : Z) (payload : bytes) : go Z :=
  if negb (zlen payload =? 5)
  then Err (Errorf "%s payload must include only a statement id" [AStr (commandName command)])
  else s ← slice payload 1 5; readUint32LE s.

(** The position of the first zero byte, [-1] when there is none. *)
Fixpoint firstZero (body : bytes) (i : Z) : Z :=
  match body with
  | [] => -1
  | b :: body => if ub b =? 0 then i else firstZero body (i + 1)
  end.

Definition decodeFieldListCommand (payload : bytes) : go (bytes * bytes) :=
  if zlen payload <? 3
  then Err (Errorf "COM_FIELD_LIST requires table name and terminator" [])
  else
    body ← slice_from payload 1;
    let terminator := firstZero body 0 in
    if terminator <? 0
    then Err (Errorf "COM_FIELD_LIST table name must be null-terminated" [])
    else
      name ← slice body 0 terminator;
      let table := TrimSpace name in
      if decide (table = [])
      then Err (Errorf "COM_FIELD_LIST requires table name" [])
      else pattern ← slice_from body (terminator + 1); mret (table, pattern).

Definition DecodeCommand (payload : bytes) : go Command :=
  if zlen payload =? 0 then Err (Errorf "mysql command payload is empty" [])
  else
    b ← index payload 0;
    let command := ub b in
    if command =? CommandQuery then
      sql ← slice_from payload 1;
      if decide (TrimSpace sql = []) then Err (Errorf "COM_QUERY requires SQL text" [])
      else mret (bare_command CommandKindQuery sql [] [] 0)
    else if command =? CommandFieldList then
      '(table, pattern) ← decodeFieldListCommand payload;
      mret (bare_command CommandKindFieldList [] table pattern 0)
    else if command =? CommandStmtPrepare then
      sql ← slice_from payload 1;
      if decide (TrimSpace sql = []) then Err (Errorf "COM_STMT_PREPARE requires SQL text" [])
      else mret (bare_command CommandKindStmtPrepare sql [] [] 0)
    else if command =? CommandStmtExecute then
      execute ← DecodePreparedExecuteCommand payload;
      mret (with_execute (bare_command CommandKindStmtExecute [] [] [] 0) execute)
    else if command =? CommandStmtSendLongData then
      longData ← DecodePreparedLongDataCommand payload;
      mret (with_long_data (bare_command CommandKindStmtSendLongData [] [] [] 0) longData)
    else if command =? CommandStmtClose then
      id ← decodeStatementIDCommand CommandStmtClose payload;
      mret (bare_command CommandKindStmtClose [] [] [] id)
    else if command =? CommandStmtReset then
      id ← decodeStatementIDCommand CommandStmtReset payload;
      mret (bare_command CommandKindStmtReset [] [] [] id)
    else if command =? CommandPing then
      if negb (zlen payload =? 1) then Err (Errorf "COM_PING payload must not include arguments" [])
      else mret (bare_command CommandKindPing [] [] [] 0)
    else if command =? CommandQuit then
      if negb (zlen payload =? 1) then Err (Errorf "COM_QUIT payload must not include arguments" [])
      else mret (bare_command CommandKindQuit [] [] [] 0)
    else Err (Errorf "unsupported mysql command byte 0x%02x" [AInt command]).

(** ** The command messages of the protocol

    [command_message payload c]: [payload] is a message a client may send and
    [c] is what it says. *)

Inductive command_message : bytes -> Command -> Prop :=
  | msg_query sql : TrimSpace sql <> [] ->
      command_message (byte_of CommandQuery :: sql) (bare_command CommandKindQuery sql [] [] 0)
  | msg_field_list table pattern : zero_free table -> TrimSpace table <> [] ->
      command_message (byte_of CommandFieldList :: table ++ byte_of 0 :: pattern)
        (bare_command CommandKindFieldList [] (TrimSpace table) pattern 0)
  | msg_prepare sql : TrimSpace sql <> [] ->
      command_message (byte_of CommandStmtPrepare :: sql)
        (bare_command CommandKindStmtPrepare sql [] [] 0)
  | msg_execute id flags iter params : in_u 32 id -> in_u 32 iter ->
      command_message
        (byte_of CommandStmtExecute :: le_bytes 4 id ++ flags :: le_bytes 4 iter ++ params)
        (with_execute (bare_command CommandKindStmtExecute [] [] [] 0)
           (mkExecute id flags iter params))
  | msg_long_data id param data : in_u 32 id -> in_u 16 param ->
      command_message (byte_of CommandStmtSendLongData :: le_bytes 4 id ++ le_bytes 2 param ++ data)
        (with_long_data (bare_command CommandKindStmtSendLongData [] [] [] 0)
           (mkLongData id param data))
  | msg_close id : in_u 32 id ->
      command_message (byte_of CommandStmtClose :: le_bytes 4 id)
        (bare_command CommandKindStmtClose [] [] [] id)
  | msg_reset id : in_u 32 id ->
      command_message (byte_of CommandStmtReset :: le_bytes 4 id)
        (bare_command CommandKindStmtReset [] [] [] id)
  | msg_ping : command_message [byte_of CommandPing] (bare_command CommandKindPing [] [] [] 0)
  | msg_quit : command_message [byte_of CommandQuit] (bare_command CommandKindQuit [] [] [] 0).

(** ** Lemmas *)

Lemma DecodePreparedExecuteCommand_message id flags iter params : in_u 32 id -> in_u 32 iter ->
  DecodePreparedExecuteCommand
    (byte_of CommandStmtExecute :: le_bytes 4 id ++ flags :: le_bytes 4 iter ++ params)
  = Ok (mkExecute id flags iter params).
Proof.
  intros Hid Hit. pose proof (zlen_nonneg params). unfold DecodePreparedExecuteCommand.
  if_false. change (index (byte_of CommandStmtExecute :: _) 0) with (Ok (byte_of CommandStmtExecute)).
  cbn [mbind go_bind]. change (negb _) with false. cbv iota.
  rewrite (slice_at _ [byte_of CommandStmtExecute] (le_bytes 4 id)
    (flags :: le_bytes 4 iter ++ params) 1 5) by done.
  cbn [mbind go_bind]. rewrite readUint32LE_le by done. cbn [mbind go_bind].
  rewrite (index_at _ (byte_of CommandStmtExecute :: le_bytes 4 id) flags
    (le_bytes 4 iter ++ params) 5) by done. cbn [mbind go_bind].
  rewrite (slice_at _ (byte_of CommandStmtExecute :: le_bytes 4 id ++ [flags])
    (le_bytes 4 iter) params 6 10) by done.
  cbn [mbind go_bind]. rewrite readUint32LE_le by done. cbn [mbind go_bind].
  rewrite (slice_from_at _
    (byte_of CommandStmtExecute :: le_bytes 4 id ++ flags :: le_bytes 4 iter) params 10) by done.
  done.
Qed.

Lemma DecodePreparedExecuteCommand_shape p : 10 <= zlen p ->
  exists b id flags iter params, in_u 32 id /\ in_u 32 iter /\
    p = b :: le_bytes 4 id ++ flags :: le_bytes 4 iter ++ params.
Proof.
  intros H. destruct p as [|b p]; [zlen_simpl|]. rewrite zlen_cons in H.
  destruct (zlen_split p 4) as (l1 & p1 & -> & (id & -> & Hid)%le_bytes_4_of); [lia|].
  autorewrite with zlen in H. destruct p1 as [|flags p2]; [zlen_simpl|]. rewrite zlen_cons in H.
  destruct (zlen_split p2 4) as (l2 & params & -> & (iter & -> & Hit)%le_bytes_4_of); [lia|].
  by exists b, id, flags, iter, params.
Qed.

Lemma DecodePreparedExecuteCommand_ok p e : DecodePreparedExecuteCommand p = Ok e ->
  in_u 32 (ex_StatementID e) /\ in_u 32 (ex_IterationCount e) /\
  p = byte_of CommandStmtExecute :: le_bytes 4 (ex_StatementID e) ++ ex_Flags e
        :: le_bytes 4 (ex_IterationCount e) ++ ex_ParameterPayload e.
Proof.
  intros E. assert (Hl : 10 <= zlen p).
  { unfold DecodePreparedExecuteCommand in E. destruct (Z.ltb_spec (zlen p) 10); [done|lia]. }
  destruct (DecodePreparedExecuteCommand_shape p Hl) as (b & id & fl & it & ps & Hid & Hit & ->).
  assert (b = byte_of CommandStmtExecute) as ->.
  { apply byte_of_ub_eq. revert E. unfold DecodePreparedExecuteCommand. case_if; [done|].
    change (index (b :: _) 0) with (Ok b). cbn [mbind go_bind]. by case_if. }
  rewrite DecodePreparedExecuteCommand_message in E by done. by injection E as <-.
Qed.

Lemma DecodePreparedLongDataCommand_message id param data : in_u 32 id -> in_u 16 param ->
  DecodePreparedLongDataCommand
    (byte_of CommandStmtSendLongData :: le_bytes 4 id ++ le_bytes 2 param ++ data)
  = Ok (mkLongData id param data).
Proof.
  intros Hid Hp. pose proof (zlen_nonneg data). unfold DecodePreparedLongDataCommand. if_false.
  change (index (byte_of CommandStmtSendLongData :: _) 0)
    with (Ok (byte_of CommandStmtSendLongData)).
  cbn [mbind go_bind]. change (negb _) with false. cbv iota.
  rewrite (slice_at _ [byte_of CommandStmtSendLongData] (le_bytes 4 id)
    (le_bytes 2 param ++ data) 1 5) by done.
  cbn [mbind go_bind]. rewrite readUint32LE_le by done. cbn [mbind go_bind].
  rewrite (slice_at _ (byte_of CommandStmtSendLongData :: le_bytes 4 id)
    (le_bytes 2 param) data 5 7) by done.
  cbn [mbind go_bind]. rewrite readUint16LE_le by done. cbn [mbind go_bind].
  rewrite (slice_from_at _
    (byte_of CommandStmtSendLongData :: le_bytes 4 id ++ le_bytes 2 param) data 7) by done.
  done.
Qed.

Lemma DecodePreparedLongDataCommand_shape p : 7 <= zlen p ->
  exists b id param data, in_u 32 id /\ in_u 16 param /\
    p = b :: le_bytes 4 id ++ le_bytes 2 param ++ data.
Proof.
  intros H. destruct p as [|b p]; [zlen_simpl|]. rewrite zlen_cons in H.
  destruct (zlen_split p 4) as (l1 & p1 & -> & (id & -> & Hid)%le_bytes_4_of); [lia|].
  autorewrite with zlen in H.
  destruct (zlen_split p1 2) as (l2 & data & -> & (param & -> & Hp)%le_bytes_2_of); [lia|].
  by exists b, id, param, data.
Qed.

Lemma DecodePreparedLongDataCommand_ok p l : DecodePreparedLongDataCommand p = Ok l ->
  in_u 32 (ld_StatementID l) /\ in_u 16 (ld_ParameterID l) /\
  p = byte_of CommandStmtSendLongData :: le_bytes 4 (ld_StatementID l)
        ++ le_bytes 2 (ld_ParameterID l) ++ ld_Data l.
Proof.
  intros E. assert (Hl : 7 <= zlen p).
  { unfold DecodePreparedLongDataCommand in E. destruct (Z.ltb_spec (zlen p) 7); [done|lia]. }
  destruct (DecodePreparedLongDataCommand_shape p Hl) as (b & id & pa & d & Hid & Hp & ->).
  assert (b = byte_of CommandStmtSendLongData) as ->.
  { apply byte_of_ub_eq. revert E. unfold DecodePreparedLongDataCommand. case_if; [done|].
    change (index (b :: _) 0) with (Ok b). cbn [mbind go_bind]. by case_if. }
  rewrite DecodePreparedLongDataCommand_message in E by done. by injection E as <-.
Qed.

Lemma decodeStatementIDCommand_ok k p id : decodeStatementIDCommand k p = Ok id <->
  exists b, p = b :: le_bytes 4 id /\ in_u 32 id.
Proof.
  unfold decodeStatementIDCommand. split.
  - case_if; [done|]. destruct p as [|b p]; [zlen_simpl|].
    rewrite zlen_cons in E. destruct (le_bytes_4_of p) as (v & -> & Hv); [lia|].
    rewrite (slice_at _ [b] (le_bytes 4 v) []) by done. cbn [mbind go_bind].
    rewrite readUint32LE_le by done. intros [= ->]. by exists b.
  - intros (b & -> & Hv). if_false. rewrite (slice_at _ [b] (le_bytes 4 id) []) by done.
    cbn [mbind go_bind]. by apply readUint32LE_le.
Qed.

Lemma firstZero_found s rest i : zero_free s ->
  firstZero (s ++ byte_of 0 :: rest) i = i + zlen s.
Proof.
  intros H. revert i. induction H as [|b s Hb Hs IH]; intros i; cbn [app firstZero].
  - change (ub (byte_of 0) =? 0) with true. cbv iota. autorewrite with zlen. lia.
  - if_false. rewrite IH. zlen_simpl.
Qed.

Lemma firstZero_shape body i : 0 <= i -> (firstZero body i < 0 /\ zero_free body) \/
  exists s rest, body = s ++ byte_of 0 :: rest /\ zero_free s.
Proof.
  revert i. induction body as [|b body IH]; intros i Hi; cbn [firstZero].
  { left. split; [lia|constructor]. }
  case_if.
  - right. exists [], body. split; [|constructor]. by rewrite <- (byte_of_ub b), E.
  - destruct (IH (i + 1)) as [[? ?]|(s & rest & -> & Hs)]; [lia|left; by split; [|constructor]|].
    right. exists (b :: s), rest. split; [done|by constructor].
Qed.

Lemma decodeFieldListCommand_message k table pattern : zero_free table -> TrimSpace table <> [] ->
  decodeFieldListCommand (k :: table ++ byte_of 0 :: pattern) = Ok (TrimSpace table, pattern).
Proof.
  intros Hz Ht. assert (1 <= zlen table).
  { destruct table; [done|]. rewrite zlen_cons. pose proof (zlen_nonneg table). lia. }
  pose proof (zlen_nonneg pattern). unfold decodeFieldListCommand. if_false.
  rewrite slice_from_1. cbn [mbind go_bind]. rewrite firstZero_found by done. if_false.
  rewrite (slice_prefix table). cbn [mbind go_bind]. rewrite decide_False by done.
  replace (0 + zlen table + 1) with (zlen (table ++ [byte_of 0])) by zlen_simpl.
  replace (table ++ byte_of 0 :: pattern) with ((table ++ [byte_of 0]) ++ pattern)
    by (by rewrite <- app_assoc).
  by rewrite slice_from_app.
Qed.

Lemma decodeFieldListCommand_ok p t pattern : decodeFieldListCommand p = Ok (t, pattern) ->
  exists k table, zero_free table /\ t = TrimSpace table /\ TrimSpace table <> [] /\
    p = k :: table ++ byte_of 0 :: pattern.
Proof.
  intros E. destruct p as [|k body]; [done|].
  destruct (firstZero_shape body 0) as [[Hneg _]|(table & rest & -> & Hz)]; [lia|..].
  - revert E. unfold decodeFieldListCommand. case_if; [done|]. rewrite slice_from_1.
    cbn [mbind go_bind]. by if_true.
  - assert (TrimSpace table <> []) as Ht.
    { intros Ht. revert E. unfold decodeFieldListCommand. case_if; [done|]. rewrite slice_from_1.
      cbn [mbind go_bind]. rewrite firstZero_found by done. case_if; [done|].
      rewrite (slice_prefix table). cbn [mbind go_bind]. by rewrite decide_True. }
    rewrite decodeFieldListCommand_message in E by done. injection E as <- <-.
    by exists k, table.
Qed.

Lemma DecodeCommand_complete p c : command_message p c -> DecodeCommand p = Ok c.
Proof.
  intros H. destruct H; unfold DecodeCommand;
    (destruct (zlen _ =? 0) eqn:Hl;
      [b2p; apply zlen_zero in Hl; discriminate|clear Hl];
     match goal with |- context [index (?b :: ?l) 0] => change (index (b :: l) 0) with (Ok b) end;
     cbn [mbind go_bind]; rewrite ub_byte_of;
     repeat match goal with |- context [?a mod 256 =? ?b] =>
       let v := eval vm_compute in (a mod 256 =? b) in change (a mod 256 =? b) with v end;
     cbv iota).
  - rewrite slice_from_1. cbn [mbind go_bind]. by rewrite decide_False.
  - by rewrite decodeFieldListCommand_message.
  - rewrite slice_from_1. cbn [mbind go_bind]. by rewrite decide_False.
  - by rewrite DecodePreparedExecuteCommand_message.
  - by rewrite DecodePreparedLongDataCommand_message.
  - by rewrite (proj2 (decodeStatementIDCommand_ok _ _ id)) by eauto.
  - by rewrite (proj2 (decodeStatementIDCommand_ok _ _ id)) by eauto.
  - done.
  - done.
Qed.

Lemma DecodeCommand_sound p c : DecodeCommand p = Ok c -> command_message p c.
Proof.
  unfold DecodeCommand. case_if; [done|]. destruct p as [|b p]; [zlen_simpl|].
  change (index (b :: p) 0) with (Ok b). cbn [mbind go_bind].
  repeat (case_if; [match goal with H : ub b = _ |- _ => apply byte_of_ub_eq in H; subst b end|]);
    [..|done].
  - rewrite slice_from_1. cbn [mbind go_bind]. case_decide; [done|]. intros [= <-]. by constructor.
  - destruct (decodeFieldListCommand _) as [[t pat]|e|] eqn:Ed; [|done..]. intros [= <-].
    apply decodeFieldListCommand_ok in Ed as (k & table & Hz & -> & Ht & [= <- ->]).
    by constructor.
  - rewrite slice_from_1. cbn [mbind go_bind]. case_decide; [done|]. intros [= <-]. by constructor.
  - destruct (DecodePreparedExecuteCommand _) as [[id fl it ps]|e|] eqn:Ed; [|done..].
    intros [= <-]. apply DecodePreparedExecuteCommand_ok in Ed as (Hid & Hit & ->). by constructor.
  - destruct (DecodePreparedLongDataCommand _) as [[id pa d]|e|] eqn:Ed; [|done..].
    intros [= <-]. apply DecodePreparedLongDataCommand_ok in Ed as (Hid & Hp & ->). by constructor.
  - destruct (decodeStatementIDCommand _ _) as [id|e|] eqn:Ed; [|done..]. intros [= <-].
    apply decodeStatementIDCommand_ok in Ed as (k & [= <- ->] & Hid). by constructor.
  - destruct (decodeStatementIDCommand _ _) as [id|e|] eqn:Ed; [|done..]. intros [= <-].
    apply decodeStatementIDCommand_ok in Ed as (k & [= <- ->] & Hid). by constructor.
  - case_if; [done|]. rewrite zlen_cons in *. rewrite (zlen_zero p) by lia.
    intros [= <-]. constructor.
  - case_if; [done|]. rewrite zlen_cons in *. rewrite (zlen_zero p) by lia.
    intros [= <-]. constructor.
Qed.

Lemma firstZero_range body i : 0 <= i -> firstZero body i < i + zlen body.
Proof.
  revert i. induction body as [|b body IH]; intros i Hi; cbn [firstZero]; autorewrite with zlen.
  - lia.
  - pose proof (zlen_nonneg body). case_if; [lia|]. specialize (IH (i + 1)). lia.
Qed.

Lemma decodeFieldListCommand_safe p : safe (decodeFieldListCommand p).
Proof.
  unfold decodeFieldListCommand. go_safe.
  pose proof (firstZero_range l 0). pose proof (zlen_nonneg l). go_steps. done.
Qed.

Lemma decodeStatementIDCommand_safe k p : safe (decodeStatementIDCommand k p).
Proof.
  unfold decodeStatementIDCommand. go_safe.
  by destruct (readUint32LE_ok l) as (v & -> & _); [lia|].
Qed.

Lemma DecodeCommand_safe p : safe (DecodeCommand p).
Proof.
  unfold DecodeCommand. pose proof (zlen_nonneg p). go_safe.
  all: apply safe_returns, safe_bind; [|try done; by intros []].
  - apply decodeFieldListCommand_safe.
  - unfold DecodePreparedExecuteCommand. go_safe.
  - unfold DecodePreparedLongDataCommand. go_safe.
  - apply decodeStatementIDCommand_safe.
  - apply decodeStatementIDCommand_safe.
Qed.

(** ** The properties of the component *)

(** C25. [DecodeCommand] accepts exactly the command messages of the protocol
    and extracts exactly their fields: it implements the specification
    [command_message], which lists for each supported command its byte layout
    and the decoded [Command]. *)
Theorem decode_command_refines_protocol p c : DecodeCommand p = Ok c <-> command_message p c.
Proof. split; [apply DecodeCommand_sound|apply DecodeCommand_complete]. Qed.

(** No command payload a client can send makes [DecodeCommand] panic: every
    index and slice expression of it and of the decoders it calls is in range. *)
Theorem decode_command_no_panic p : DecodeCommand p <> Panic.
Proof. apply DecodeCommand_safe. Qed.
