(* ===== verification/Handshake.v ===== *)
(** * The MySQL connection handshake

    The server greeting (qsmysql/handshake.go), the client's handshake response
    (qsmysql/handshake_response.go) and the version string the greeting carries
    (version/version.go). *)

From S2P Require Import Prelude GoStd Wire.

(** ** Capability, character-set and status values (qsmysql/constants.go) *)

Definition CapabilityLongPassword : Z := 0x00000001.
Definition CapabilityProtocol41 : Z := 0x00000200.
Definition CapabilityConnectWithDB : Z := 0x00000008.
Definition CapabilitySecureConnection : Z := 0x00008000.
Definition CapabilityPluginAuth : Z := 0x00080000.
Definition CapabilitySessionTrack : Z := 0x00800000.
Definition CharacterSetUTF8MB4GeneralCI : Z := 45.
Definition StatusAutocommit : Z := 0x0002.

(** [flags&flag != 0] *)
Definition has_flag (flags flag : Z) : bool := negb (Z.land flags flag =? 0).

Definition defaultAuthPluginName : bytes := str "caching_sha2_password".

Definition defaultCapabilityFlags : Z :=
  Z.lor (Z.lor (Z.lor (Z.lor CapabilityLongPassword CapabilityProtocol41)
    CapabilitySecureConnection) CapabilityPluginAuth) CapabilitySessionTrack.

(** ** The version string *)

Definition normalized (value fallback : bytes) : bytes :=
  let value := TrimSpace value in if decide (value = []) then fallback else value.

(** [Version] is set when the binary is linked. *)
Definition MySQLVersion (Version : bytes) : bytes :=
  str "8.0.0" ++ str " " ++ str "QuantaStream" ++ str " " ++ normalized Version (str "0.0.0-dev").

(** ** The greeting *)

Record HandshakeV10 : Type := mkHandshake {
  h_ServerVersion : bytes;
  h_ConnectionID : Z;
  h_AuthPluginData : bytes;
  h_CapabilityFlags : Z;
  h_CharacterSet : Z;
  h_StatusFlags : Z;
  h_AuthPluginName : bytes }.

Definition NewDefaultHandshake (Version : bytes) (connectionID : Z) (authPluginData : bytes)
    : HandshakeV10 :=
  mkHandshake (MySQLVersion Version) connectionID authPluginData defaultCapabilityFlags
    CharacterSetUTF8MB4GeneralCI StatusAutocommit defaultAuthPluginName.

(** [make([]byte, length)] filled by [copy] from [data]. *)
Definition authPart2 (data : bytes) (length : Z) : bytes :=
  take (Z.to_nat length) data ++ replicate (Z.to_nat length - List.length data) (byte_of 0).

Definition HandshakePayload (h : HandshakeV10) : go bytes :=
  if decide (h_ServerVersion h = [])
  then Err (Errorf "mysql handshake requires server version" [])
  else if zlen (h_AuthPluginData h) <? 8
  then Err (Errorf "mysql handshake auth plugin data must be at least 8 bytes" [])
  else
    let authPluginName :=
      if decide (h_AuthPluginName h = []) then defaultAuthPluginName else h_AuthPluginName h in
    let capabilities :=
      if h_CapabilityFlags h =? 0 then defaultCapabilityFlags else h_CapabilityFlags h in
    let charset :=
      if h_CharacterSet h =? 0 then CharacterSetUTF8MB4GeneralCI else h_CharacterSet h in
    let status := if h_StatusFlags h =? 0 then StatusAutocommit else h_StatusFlags h in
    if 255 <? zlen (h_AuthPluginData h) + 1
    then Err (Errorf "mysql handshake auth plugin data length %d exceeds max 254"
                [AInt (zlen (h_AuthPluginData h))])
    else
      let authLength := byte_of (zlen (h_AuthPluginData h) + 1) in
      let part2Length := ub authLength - 8 in
      let part2Length := if part2Length <? 13 then 13 else part2Length in
      part1 ← slice (h_AuthPluginData h) 0 8;
      part2 ← slice_from (h_AuthPluginData h) 8;
      let payload := [byte_of 0x0a] ++ h_ServerVersion h ++ [byte_of 0] in
      let payload := appendUint32LE payload (h_ConnectionID h) in
      let payload := payload ++ part1 ++ [byte_of 0] in
      let payload := appendUint16LE payload (wrap_u 16 capabilities) in
      let payload := payload ++ [byte_of charset] in
      let payload := appendUint16LE payload (wrap_u 16 status) in
      let payload := appendUint16LE payload (wrap_u 16 (Z.shiftr capabilities 16)) in
      let payload := payload ++ [authLength] ++ replicate 10 (byte_of 0) in
      let payload := payload ++ authPart2 part2 part2Length in
      mret (payload ++ authPluginName ++ [byte_of 0]).

Definition HandshakePacket (h : HandshakeV10) : go bytes :=
  payload ← HandshakePayload h; EncodePacket (mkPacket (byte_of 0) payload).

(** ** The client's response *)

Record HandshakeResponse41 : Type := mkResponse41 {
  hr_CapabilityFlags : Z;
  hr_MaxPacketSize : Z;
  hr_CharacterSet : byte;
  hr_Username : bytes;
  hr_AuthResponse : bytes;
  hr_Database : bytes;
  hr_AuthPluginName : bytes }.

(** The auth response: length-prefixed for secure connections, else null-terminated. *)
Definition readAuthResponse (payload : bytes) (caps offset : Z) : go (bytes * Z) :=
  if has_flag caps CapabilitySecureConnection then
    if zlen payload <=? offset
    then Err (Errorf "mysql handshake response missing auth response length" [])
    else
      b ← index payload offset;
      let authLength := ub b in
      let offset := offset + 1 in
      if zlen payload <? offset + authLength
      then Err (Errorf "mysql handshake response auth response truncated" [])
      else auth ← slice payload offset (offset + authLength); mret (auth, offset + authLength)
  else
    '(auth, next, ok) ← readNullTerminatedBytes payload offset;
    if negb ok then Err (Errorf "mysql handshake response missing auth response terminator" [])
    else mret (auth, next).

Definition readDatabase (payload : bytes) (caps offset : Z) : go (bytes * Z) :=
  if has_flag caps CapabilityConnectWithDB then
    '(database, next, ok) ← readNullTerminatedString payload offset;
    if negb ok then Err (Errorf "mysql handshake response missing database terminator" [])
    else mret (database, next)
  else mret ([], offset).

Definition readPluginName (payload : bytes) (caps offset : Z) : go bytes :=
  if has_flag caps CapabilityPluginAuth && (offset <? zlen payload) then
    '(plugin, _, ok) ← readNullTerminatedString payload offset;
    if negb ok then Err (Errorf "mysql handshake response missing auth plugin terminator" [])
    else mret plugin
  else mret [].

Definition DecodeHandshakeResponse41 (payload : bytes) : go HandshakeResponse41 :=
  if zlen payload <? 36
  then Err (Errorf "mysql handshake response too short: %d bytes" [AInt (zlen payload)])
  else
    s1 ← slice payload 0 4; caps ← readUint32LE s1;
    s2 ← slice payload 4 8; maxSize ← readUint32LE s2;
    charset ← index payload 8;
    if negb (has_flag caps CapabilityProtocol41)
    then Err (Errorf "mysql handshake response requires CLIENT_PROTOCOL_41" [])
    else
      '(username, offset, ok) ← readNullTerminatedString payload 32;
      if negb ok then Err (Errorf "mysql handshake response missing username terminator" [])
      else
        '(auth, offset) ← readAuthResponse payload caps offset;
        '(database, offset) ← readDatabase payload caps offset;
        plugin ← readPluginName payload caps offset;
        mret (mkResponse41 caps maxSize charset username auth database plugin).

(** ** The client's side of the exchange, as the protocol describes it *)

(** Reading the greeting: the scramble is the first [authLength - 1] bytes of
    its two parts, the second part taking [max 13 (authLength - 8)] bytes. *)
Definition clientReadGreeting (p : bytes) : go HandshakeV10 :=
  v ← index p 0;
  if negb (ub v =? 10) then Err (Errorf "protocol version" [])
  else
    '(version, o, ok) ← readNullTerminatedString p 1;
    if negb ok then Err (Errorf "server version" [])
    else
      s ← slice p o (o + 4); id ← readUint32LE s;
      part1 ← slice p (o + 4) (o + 12);
      s ← slice p (o + 13) (o + 15); low ← readUint16LE s;
      charset ← index p (o + 15);
      s ← slice p (o + 16) (o + 18); status ← readUint16LE s;
      s ← slice p (o + 18) (o + 20); high ← readUint16LE s;
      n ← index p (o + 20);
      let len2 := Z.max 13 (ub n - 8) in
      part2 ← slice p (o + 31) (o + 31 + len2);
      '(plugin, _, ok) ← readNullTerminatedString p (o + 31 + len2);
      if negb ok then Err (Errorf "plugin name" [])
      else mret (mkHandshake version id (take (Z.to_nat (ub n - 1)) (part1 ++ part2))
                   (low + 2 ^ 16 * high) (ub charset) status plugin).

(** The greeting with the defaults of [Payload] filled in. *)
Definition greetingDefaults (h : HandshakeV10) : HandshakeV10 :=
  mkHandshake (h_ServerVersion h) (h_ConnectionID h) (h_AuthPluginData h)
    (if h_CapabilityFlags h =? 0 then defaultCapabilityFlags else h_CapabilityFlags h)
    (if h_CharacterSet h =? 0 then CharacterSetUTF8MB4GeneralCI else h_CharacterSet h)
    (if h_StatusFlags h =? 0 then StatusAutocommit else h_StatusFlags h)
    (if decide (h_AuthPluginName h = []) then defaultAuthPluginName else h_AuthPluginName h).

Record greeting_wf (h : HandshakeV10) : Prop := {
  gw_version : h_ServerVersion h <> [] /\ zero_free (h_ServerVersion h);
  gw_id : in_u 32 (h_ConnectionID h);
  gw_auth : 8 <= zlen (h_AuthPluginData h) <= 254;
  gw_caps : in_u 32 (h_CapabilityFlags h);
  gw_charset : in_u 8 (h_CharacterSet h);
  gw_status : in_u 16 (h_StatusFlags h);
  gw_plugin : zero_free (h_AuthPluginName h) }.

(** The fields of the response whose form depends on the capabilities. *)
Definition authField (caps : Z) (auth : bytes) : bytes :=
  if has_flag caps CapabilitySecureConnection then byte_of (zlen auth) :: auth
  else auth ++ [byte_of 0].

Definition databaseField (caps : Z) (database : bytes) : bytes :=
  if has_flag caps CapabilityConnectWithDB then database ++ [byte_of 0] else [].

Definition pluginField (caps : Z) (plugin : bytes) : bytes :=
  if has_flag caps CapabilityPluginAuth then plugin ++ [byte_of 0] else [].

(** The response message a client sends; [filler] is the reserved 23 bytes. *)
Definition clientResponse (filler : bytes) (r : HandshakeResponse41) : bytes :=
  le_bytes 4 (hr_CapabilityFlags r) ++ le_bytes 4 (hr_MaxPacketSize r)
  ++ hr_CharacterSet r :: filler ++ hr_Username r ++ byte_of 0
  :: authField (hr_CapabilityFlags r) (hr_AuthResponse r)
  ++ databaseField (hr_CapabilityFlags r) (hr_Database r)
  ++ pluginField (hr_CapabilityFlags r) (hr_AuthPluginName r).

Record response_wf (r : HandshakeResponse41) : Prop := {
  rw_caps : in_u 32 (hr_CapabilityFlags r);
  rw_protocol : has_flag (hr_CapabilityFlags r) CapabilityProtocol41 = true;
  rw_max : in_u 32 (hr_MaxPacketSize r);
  rw_user : zero_free (hr_Username r);
  rw_auth : if has_flag (hr_CapabilityFlags r) CapabilitySecureConnection
            then zlen (hr_AuthResponse r) < 256 else zero_free (hr_AuthResponse r);
  rw_db : if has_flag (hr_CapabilityFlags r) CapabilityConnectWithDB
          then zero_free (hr_Database r) else hr_Database r = [];
  rw_plugin : if has_flag (hr_CapabilityFlags r) CapabilityPluginAuth
              then zero_free (hr_AuthPluginName r) else hr_AuthPluginName r = [] }.

(** ** Lemmas *)

Lemma readAuthResponse_field data pre caps auth rest o :
  data = pre ++ authField caps auth ++ rest -> o = zlen pre ->
  (if has_flag caps CapabilitySecureConnection then zlen auth < 256 else zero_free auth) ->
  readAuthResponse data caps o = Ok (auth, o + zlen (authField caps auth)).
Proof.
  unfold readAuthResponse, authField. pose proof (zlen_nonneg pre). pose proof (zlen_nonneg auth).
  pose proof (zlen_nonneg rest).
  destruct (has_flag caps CapabilitySecureConnection); intros Hd Ho Ha.
  - assert (Hl : zlen data = zlen pre + (1 + zlen auth + zlen rest)) by (subst data; zlen_simpl).
    rewrite Hl. if_false. rewrite (index_at data pre (byte_of (zlen auth)) (auth ++ rest)) by done.
    cbn [mbind go_bind]. rewrite ub_byte_of, Z.mod_small by lia. if_false.
    rewrite (slice_at data (pre ++ [byte_of (zlen auth)]) auth rest);
      [|by rewrite <- app_assoc|zlen_simpl..].
    cbn. do 2 f_equal. zlen_simpl.
  - rewrite (readNullTerminatedBytes_at data pre auth rest); [|by rewrite Hd, <- !app_assoc|done..].
    cbn. do 2 f_equal. zlen_simpl.
Qed.

Lemma readDatabase_field data pre caps database rest o :
  data = pre ++ databaseField caps database ++ rest -> o = zlen pre ->
  (if has_flag caps CapabilityConnectWithDB then zero_free database else database = []) ->
  readDatabase data caps o = Ok (database, o + zlen (databaseField caps database)).
Proof.
  unfold readDatabase, databaseField, readNullTerminatedString.
  destruct (has_flag caps CapabilityConnectWithDB); intros Hd Ho Ha.
  - rewrite (readNullTerminatedBytes_at data pre database rest); [|by rewrite Hd, <- !app_assoc|done..].
    cbn. do 2 f_equal. zlen_simpl.
  - subst. cbn. do 2 f_equal. zlen_simpl.
Qed.

Lemma readPluginName_field data pre caps plugin o :
  data = pre ++ pluginField caps plugin -> o = zlen pre ->
  (if has_flag caps CapabilityPluginAuth then zero_free plugin else plugin = []) ->
  readPluginName data caps o = Ok plugin.
Proof.
  unfold readPluginName, pluginField, readNullTerminatedString.
  destruct (has_flag caps CapabilityPluginAuth); intros Hd Ho Ha; [|by subst].
  pose proof (zlen_nonneg plugin).
  assert (Hl : zlen data = zlen pre + (zlen plugin + 1)) by (subst data; zlen_simpl).
  rewrite Hl. if_true. by rewrite (readNullTerminatedBytes_at data pre plugin []).
Qed.

Lemma DecodeHandshakeResponse41_roundtrip filler r : response_wf r -> zlen filler = 23 ->
  36 <= zlen (clientResponse filler r) ->
  DecodeHandshakeResponse41 (clientResponse filler r) = Ok r.
Proof.
  intros [Hc Hp Hm Hu Ha Hdb Hpl] Hf Hlen. destruct r as [caps size cs user auth db plugin].
  cbn [hr_CapabilityFlags hr_MaxPacketSize hr_CharacterSet hr_Username hr_AuthResponse hr_Database
       hr_AuthPluginName] in *.
  unfold DecodeHandshakeResponse41. if_false. unfold clientResponse in *.
  cbn [hr_CapabilityFlags hr_MaxPacketSize hr_CharacterSet hr_Username hr_AuthResponse hr_Database
       hr_AuthPluginName] in *.
  set (tail := authField _ _ ++ _) in *. set (msg := le_bytes 4 caps ++ _).
  rewrite (slice_at msg [] (le_bytes 4 caps) (le_bytes 4 size ++ cs :: filler ++ user
    ++ byte_of 0 :: tail) 0 4) by done.
  cbn [mbind go_bind]. rewrite readUint32LE_le by done. cbn [mbind go_bind].
  rewrite (slice_at msg (le_bytes 4 caps) (le_bytes 4 size) (cs :: filler ++ user
    ++ byte_of 0 :: tail) 4 8) by done.
  cbn [mbind go_bind]. rewrite readUint32LE_le by done. cbn [mbind go_bind].
  rewrite (index_at msg (le_bytes 4 caps ++ le_bytes 4 size) cs (filler ++ user
    ++ byte_of 0 :: tail) 8) by done.
  cbn [mbind go_bind]. rewrite Hp. cbn [negb].
  set (head := le_bytes 4 caps ++ le_bytes 4 size ++ cs :: filler).
  assert (Hh : zlen head = 32) by (unfold head; zlen_simpl).
  assert (Hmsg : msg = head ++ user ++ byte_of 0 :: tail)
    by (unfold msg, head; by rewrite <- !app_assoc).
  unfold readNullTerminatedString. rewrite (readNullTerminatedBytes_at msg head user tail) by done.
  cbn [mbind go_bind negb].
  rewrite (readAuthResponse_field msg (head ++ user ++ [byte_of 0]) caps auth
    (databaseField caps db ++ pluginField caps plugin));
    [|by rewrite Hmsg, <- !app_assoc|zlen_simpl|done].
  cbn [mbind go_bind].
  rewrite (readDatabase_field msg (head ++ user ++ [byte_of 0] ++ authField caps auth) caps db
    (pluginField caps plugin)); [|by rewrite Hmsg, <- !app_assoc|zlen_simpl|done].
  cbn [mbind go_bind].
  rewrite (readPluginName_field msg (head ++ user ++ [byte_of 0] ++ authField caps auth
    ++ databaseField caps db) caps plugin); [done|by rewrite Hmsg, <- !app_assoc|zlen_simpl|done].
Qed.

Lemma readAuthResponse_returns payload caps o : 0 <= o <= zlen payload ->
  returns (fun r => 0 <= r.2 <= zlen payload) (readAuthResponse payload caps o).
Proof.
  intros Ho. unfold readAuthResponse. destruct (has_flag _ _); go_steps; simpl; lia.
Qed.

Lemma readDatabase_returns payload caps o : 0 <= o <= zlen payload ->
  returns (fun r => 0 <= r.2 <= zlen payload) (readDatabase payload caps o).
Proof.
  intros Ho. unfold readDatabase. destruct (has_flag _ _); go_steps; simpl; lia.
Qed.

Lemma readPluginName_returns payload caps o : 0 <= o ->
  returns (fun _ => True) (readPluginName payload caps o).
Proof. intros Ho. unfold readPluginName. by go_steps. Qed.

Lemma DecodeHandshakeResponse41_safe p : safe (DecodeHandshakeResponse41 p).
Proof.
  unfold DecodeHandshakeResponse41. go_safe. destruct ok; [|done].
  eapply returns_bind; [apply (readAuthResponse_returns p v next); lia|]. intros [auth o1] R1.
  eapply returns_bind; [apply (readDatabase_returns p v o1); simpl in *; lia|]. intros [db o2] R2.
  eapply returns_bind; [apply (readPluginName_returns p v o2); simpl in *; lia|]. done.
Qed.

Lemma zlen_authPart2 d n : 0 <= n -> zlen (authPart2 d n) = n.
Proof.
  intros H. unfold authPart2. rewrite zlen_app, zlen_replicate. unfold zlen. rewrite length_take.
  lia.
Qed.

Lemma take_authPart2 d n : zlen d <= n -> take (length d) (authPart2 d n) = d.
Proof.
  intros H. unfold authPart2, zlen in *. rewrite (take_ge d) by lia. apply take_app_length.
Qed.

(** Both halves of the capability word reach the client. *)
Lemma capability_halves c : in_u 32 c ->
  wrap_u 16 c + 2 ^ 16 * wrap_u 16 (Z.shiftr c 16) = c.
Proof.
  unfold in_u, wrap_u. intros H. rewrite Z.shiftr_div_pow2 by lia.
  rewrite (Z.mod_small (c / 2 ^ 16)).
  - pose proof (Z.div_mod c (2 ^ 16)). lia.
  - split; [apply Z.div_pos; lia|apply Z.div_lt_upper_bound; lia].
Qed.

Lemma wrap_u_range w z : 0 <= w -> in_u w (wrap_u w z).
Proof. intros. apply Z.mod_pos_bound. lia. Qed.

(** The greeting as one concatenation. *)
Lemma HandshakePayload_ok h : greeting_wf h ->
  let d := greetingDefaults h in
  let n := zlen (h_AuthPluginData h) in
  exists part1 part2, h_AuthPluginData h = part1 ++ part2 /\ zlen part1 = 8 /\
  HandshakePayload h = Ok (byte_of 10 :: h_ServerVersion d ++ byte_of 0 ::
    le_bytes 4 (h_ConnectionID d) ++ part1 ++ byte_of 0 ::
    le_bytes 2 (wrap_u 16 (h_CapabilityFlags d)) ++ byte_of (h_CharacterSet d) ::
    le_bytes 2 (h_StatusFlags d) ++ le_bytes 2 (wrap_u 16 (Z.shiftr (h_CapabilityFlags d) 16)) ++
    byte_of (n + 1) :: replicate 10 (byte_of 0) ++
    authPart2 part2 (Z.max 13 (n - 7)) ++ h_AuthPluginName d ++ [byte_of 0]).
Proof.
  intros [[Hv _] _ Ha _ _ Hs _]. destruct (zlen_split (h_AuthPluginData h) 8) as (p1 & p2 & E & H8);
    [lia|]. exists p1, p2. split; [done|]. split; [done|].
  unfold HandshakePayload. rewrite decide_False by done. do 2 if_false.
  rewrite ub_byte_of, Z.mod_small by lia.
  replace (if zlen (h_AuthPluginData h) + 1 - 8 <? 13 then 13
           else zlen (h_AuthPluginData h) + 1 - 8)
    with (Z.max 13 (zlen (h_AuthPluginData h) - 7)) by (case_if; lia).
  rewrite (slice_at _ [] p1 p2) by done. cbn [mbind go_bind].
  rewrite (slice_from_at _ p1 p2) by done. cbn [mbind go_bind mret go_ret].
  rewrite !appendUint16LE_le, appendUint32LE_le, <- !app_assoc. cbn [app].
  unfold greetingDefaults. cbn [h_ServerVersion h_ConnectionID h_CapabilityFlags h_CharacterSet
    h_StatusFlags h_AuthPluginName]. do 4 f_equal.
  set (st := if h_StatusFlags h =? 0 then _ else _).
  assert (wrap_u 16 st = st) as -> by (apply Z.mod_small; subst st; unfold in_u in *; case_if;
    unfold StatusAutocommit; lia).
  done.
Qed.

(** What the client reads after the version string, from the greeting's fields. *)
Lemma clientReadGreeting_fields version id part1 low cs status high n part2 plugin :
  zero_free version -> in_u 32 id -> zlen part1 = 8 -> in_u 16 low -> in_u 16 status ->
  in_u 16 high -> 0 <= n < 256 -> zlen part2 = Z.max 13 (n - 8) -> zero_free plugin ->
  clientReadGreeting (byte_of 10 :: version ++ byte_of 0 :: le_bytes 4 id ++ part1 ++ byte_of 0 ::
    le_bytes 2 low ++ cs :: le_bytes 2 status ++ le_bytes 2 high ++ byte_of n ::
    replicate 10 (byte_of 0) ++ part2 ++ plugin ++ [byte_of 0])
  = Ok (mkHandshake version id (take (Z.to_nat (n - 1)) (part1 ++ part2)) (low + 2 ^ 16 * high)
          (ub cs) status plugin).
Proof.
  intros Hv Hid H1 Hlo Hst Hhi Hn H2 Hpl.
  set (rest6 := replicate 10 (byte_of 0) ++ part2 ++ plugin ++ [byte_of 0]).
  set (tail := le_bytes 4 id ++ _). set (msg := byte_of 10 :: _).
  unfold clientReadGreeting, readNullTerminatedString.
  change (index msg 0) with (Ok (byte_of 10)). cbn [mbind go_bind].
  change (negb (ub (byte_of 10) =? 10)) with false. cbv iota.
  rewrite (readNullTerminatedBytes_at msg [byte_of 10] version tail) by done.
  cbn [mbind go_bind negb].
  set (pre := byte_of 10 :: version ++ [byte_of 0]).
  assert (1 + zlen version + 1 = zlen pre) as -> by (unfold pre; zlen_simpl).
  assert (Hm : msg = pre ++ tail) by (unfold msg, pre; simpl; by rewrite <- app_assoc).
  rewrite <- (Z.add_0_r (zlen pre)) at 1. rewrite Hm, !slice_app_r, !index_app_r by lia.
  rewrite (slice_at tail [] (le_bytes 4 id) (drop 4 tail) 0 4) by done. cbn [mbind go_bind].
  rewrite readUint32LE_le by done. cbn [mbind go_bind].
  erewrite (slice_at tail (le_bytes 4 id) part1 _ 4 12); [|done|done|zlen_simpl].
  cbn [mbind go_bind].
  set (pre1 := le_bytes 4 id ++ part1 ++ [byte_of 0]).
  assert (Ht : tail = pre1 ++ le_bytes 2 low ++ cs :: le_bytes 2 status ++ le_bytes 2 high ++
    byte_of n :: rest6) by (unfold tail, pre1; by rewrite <- !app_assoc).
  assert (Hp1 : zlen pre1 = 13) by (unfold pre1; zlen_simpl).
  rewrite Ht. erewrite (slice_at _ pre1 (le_bytes 2 low) _ 13 15); [|done|zlen_simpl..].
  cbn [mbind go_bind]. rewrite readUint16LE_le by done. cbn [mbind go_bind].
  erewrite (index_at _ (pre1 ++ le_bytes 2 low) cs _ 15); [|by rewrite <- app_assoc|zlen_simpl].
  cbn [mbind go_bind].
  erewrite (slice_at _ (pre1 ++ le_bytes 2 low ++ [cs]) (le_bytes 2 status) _ 16 18);
    [|by rewrite <- !app_assoc|zlen_simpl..].
  cbn [mbind go_bind]. rewrite readUint16LE_le by done. cbn [mbind go_bind].
  erewrite (slice_at _ (pre1 ++ le_bytes 2 low ++ cs :: le_bytes 2 status) (le_bytes 2 high)
    _ 18 20); [|by rewrite <- !app_assoc|zlen_simpl..].
  cbn [mbind go_bind]. rewrite readUint16LE_le by done. cbn [mbind go_bind].
  set (pre2 := pre1 ++ le_bytes 2 low ++ cs :: le_bytes 2 status ++ le_bytes 2 high).
  assert (Hp2 : zlen pre2 = 20) by (unfold pre2; zlen_simpl).
  rewrite (index_at _ pre2 (byte_of n) rest6 20); [|unfold pre2; by rewrite <- !app_assoc|done].
  cbn [mbind go_bind]. rewrite ub_byte_of, Z.mod_small by lia.
  rewrite <- Ht, <- Hm.
  set (pre3 := pre ++ pre2 ++ byte_of n :: replicate 10 (byte_of 0)).
  assert (Hp3 : zlen pre3 = zlen pre + 31) by (unfold pre3; zlen_simpl).
  assert (Hm3 : msg = pre3 ++ part2 ++ plugin ++ [byte_of 0]).
  { rewrite Hm, Ht. unfold pre3, pre2, rest6. by rewrite <- !app_assoc. }
  rewrite (slice_at msg pre3 part2 (plugin ++ [byte_of 0])) by (try done; lia).
  cbn [mbind go_bind].
  rewrite (readNullTerminatedBytes_at msg (pre3 ++ part2) plugin []); [done|..|done].
  - by rewrite Hm3, <- app_assoc.
  - rewrite zlen_app. lia.
Qed.

Lemma take_scramble (part1 part2 : bytes) n len2 :
  zlen part1 + zlen part2 = n -> zlen part2 <= len2 ->
  take (Z.to_nat (n + 1 - 1)) (part1 ++ authPart2 part2 len2) = part1 ++ part2.
Proof.
  intros Hn Hl. replace (Z.to_nat (n + 1 - 1)) with (length part1 + length part2)%nat
    by (unfold zlen in *; lia).
  rewrite take_app_ge by lia. rewrite Nat.add_comm, Nat.add_sub. by rewrite take_authPart2.
Qed.

Lemma greeting_client_reads h : greeting_wf h ->
  exists p, HandshakePayload h = Ok p /\ clientReadGreeting p = Ok (greetingDefaults h).
Proof.
  intros Hwf. destruct (HandshakePayload_ok h Hwf) as (part1 & part2 & E & H1 & ->).
  eexists. split; [done|]. destruct Hwf as [[_ Hv] Hid Ha Hc Hcs Hs Hpl].
  assert (Hn : zlen part1 + zlen part2 = zlen (h_AuthPluginData h)) by (rewrite E; zlen_simpl).
  rewrite clientReadGreeting_fields; try done.
  - rewrite take_scramble, <- E, capability_halves, ub_byte_of by
      first [lia | unfold greetingDefaults, in_u in *; simpl; case_if; [by vm_compute|done]].
    rewrite Z.mod_small; [done|]. unfold greetingDefaults, in_u in *. simpl.
    case_if; unfold CharacterSetUTF8MB4GeneralCI; lia.
  - by apply wrap_u_range.
  - unfold greetingDefaults, in_u in *. simpl. case_if; [by vm_compute|done].
  - by apply wrap_u_range.
  - lia.
  - rewrite zlen_authPart2; lia.
  - unfold greetingDefaults. simpl. case_decide; [|done].
    repeat (constructor; [by vm_compute|]). constructor.
Qed.

(** ** The properties of the component *)

(** For every greeting whose fields fit the protocol, [Payload] succeeds and
    a client that reads it by the protocol's rules recovers the version, the
    connection id, the complete scramble (both parts, whatever its length
    between 8 and 254), the 32 capability bits, character set, status and
    plugin name, with the documented defaults in place of zero values. *)
Theorem greeting_client_roundtrip h : greeting_wf h ->
  exists p, HandshakePayload h = Ok p /\ clientReadGreeting p = Ok (greetingDefaults h).
Proof. apply greeting_client_reads. Qed.

Lemma greeting_client_roundtrip_witness :
  let h := NewDefaultHandshake (str "0.1.3") 7 (str "quantastream-auth-v1") in
  exists p, HandshakePayload h = Ok p /\ clientReadGreeting p = Ok h.
Proof.
  apply (greeting_client_roundtrip
    (NewDefaultHandshake (str "0.1.3") 7 (str "quantastream-auth-v1"))).
  constructor; try (unfold in_u; vm_compute; split; congruence).
  - split; [by vm_compute|]. vm_compute. repeat (constructor; [congruence|]). constructor.
  - vm_compute. repeat (constructor; [congruence|]). constructor.
Defined.

(** Decoding a client's handshake response recovers every field, for each
    combination of the secure-connection, database and plugin capabilities
    (a response shorter than 36 bytes is refused). *)
Theorem handshake_response_roundtrip filler r : response_wf r -> zlen filler = 23 ->
  36 <= zlen (clientResponse filler r) ->
  DecodeHandshakeResponse41 (clientResponse filler r) = Ok r.
Proof. apply DecodeHandshakeResponse41_roundtrip. Qed.

Lemma handshake_response_roundtrip_witness :
  let r := mkResponse41 (Z.lor defaultCapabilityFlags CapabilityConnectWithDB) 16777216
    (byte_of 45) (str "root") (str "12345678901234567890") (str "shop")
    (str "mysql_native_password") in
  DecodeHandshakeResponse41 (clientResponse (replicate 23 (byte_of 0)) r) = Ok r.
Proof.
  apply handshake_response_roundtrip; [|done|by vm_compute].
  constructor; try (unfold in_u; vm_compute; split; congruence); try done.
  all: vm_compute; repeat (constructor; [congruence|]); constructor.
Defined.

(** No handshake response a client can send makes the decoder panic. *)
Theorem handshake_response_no_panic p : DecodeHandshakeResponse41 p <> Panic.
Proof. apply DecodeHandshakeResponse41_safe. Qed.
