(* ===== verification/Prepared.v ===== *)
(** * Prepared-statement parameters

    Decoding of the binary parameter block of COM_STMT_EXECUTE
    (qsmysql/prepared.go): null bitmap, parameter types, long data and the
    binary values, including calendar values. *)

From S2P Require Import Prelude GoStd GoTime Value Wire Command.

(** ** Column types (qsmysql/prepared.go, qsmysql/resultset.go) *)

Definition ColumnTypeDecimal : Z := 0x00.
Definition ColumnTypeTiny : Z := 0x01.
Definition ColumnTypeShort : Z := 0x02.
Definition ColumnTypeLong : Z := 0x03.
Definition ColumnTypeFloat : Z := 0x04.
Definition ColumnTypeDouble : Z := 0x05.
Definition ColumnTypeNull : Z := 0x06.
Definition ColumnTypeTimestamp : Z := 0x07.
Definition ColumnTypeLongLong : Z := 0x08.
Definition ColumnTypeInt24 : Z := 0x09.
Definition ColumnTypeDate : Z := 0x0a.
Definition ColumnTypeTime : Z := 0x0b.
Definition ColumnTypeDateTime : Z := 0x0c.
Definition ColumnTypeNewDate : Z := 0x0e.
Definition ColumnTypeVarchar : Z := 0x0f.
Definition ColumnTypeBit : Z := 0x10.
Definition ColumnTypeNewDecimal : Z := 0xf6.
Definition ColumnTypeTinyBlob : Z := 0xf9.
Definition ColumnTypeMediumBlob : Z := 0xfa.
Definition ColumnTypeLongBlob : Z := 0xfb.
Definition ColumnTypeBlob : Z := 0xfc.
Definition ColumnTypeVarString : Z := 0xfd.
Definition ColumnTypeString : Z := 0xfe.

Definition dateTimeTypes : list Z :=
  [ColumnTypeDate; ColumnTypeNewDate; ColumnTypeDateTime; ColumnTypeTimestamp].

Definition lengthEncodedTypes : list Z :=
  [ColumnTypeString; ColumnTypeVarString; ColumnTypeVarchar; ColumnTypeBlob; ColumnTypeTinyBlob;
   ColumnTypeMediumBlob; ColumnTypeLongBlob; ColumnTypeDecimal; ColumnTypeNewDecimal;
   ColumnTypeBit].

Record PreparedParameterType : Type := mkParameterType { pt_Type : Z; pt_Unsigned : bool }.

(** ** Placeholders and values (qsbridge/ir.go, qsbridge/parameters.go) *)

Record ParameterRef : Type := mkParameterRef {
  pr_Index : Z; pr_Name : bytes; pr_Type : DataType; pr_Nullable : bool }.

Record ParameterValue : Type := mkParameterValue {
  pv_Index : Z; pv_Name : bytes; pv_Kind : ValueKind; pv_Value : any }.

Definition IndexedParameterValue (index : Z) (kind : ValueKind) (value : any) : ParameterValue :=
  mkParameterValue index [] kind value.

Record PreparedExecuteDecodeOptions : Type := mkDecodeOptions {
  do_CachedTypes : list PreparedParameterType;
  do_LongData : gmap Z bytes }.

(** ** Calendar values *)

Definition invalidDateTime (year month day hour minute second microsecond : Z) : error :=
  Errorf "invalid datetime %04d-%02d-%02d %02d:%02d:%02d.%06d"
    [AInt year; AInt month; AInt day; AInt hour; AInt minute; AInt second; AInt microsecond].

Definition validateBinaryDateTime (year month day hour minute second microsecond : Z)
    : option error :=
  if (month <? 1) || (12 <? month) || (day <? 1) || (23 <? hour) || (59 <? minute)
     || (59 <? second) || (999999 <? microsecond)
  then Some (invalidDateTime year month day hour minute second microsecond)
  else
    let nanosecond := microsecond * 1000 in
    let value := Date year month day hour minute second nanosecond in
    if negb (Year value =? year) || negb (Month value =? month) || negb (Day value =? day)
       || negb (Hour value =? hour) || negb (Minute value =? minute)
       || negb (Second value =? second) || negb (Nanosecond value =? nanosecond)
    then Some (invalidDateTime year month day hour minute second microsecond)
    else None.

Definition readBinaryDateTime (payload : bytes) (offset : Z) : go (Time * Z) :=
  if zlen payload <=? offset then Err (Errorf "datetime length truncated" [])
  else
    b ← index payload offset;
    let length := ub b in
    let offset := offset + 1 in
    if length =? 0 then mret (zeroTime, offset)
    else if negb (length =? 4) && negb (length =? 7) && negb (length =? 11)
    then Err (Errorf "unsupported datetime length %d" [AInt length])
    else if zlen payload <? offset + length then Err (Errorf "datetime payload truncated" [])
    else
      s ← slice payload offset (offset + 2); year ← readUint16LE s;
      month ← index payload (offset + 2);
      day ← index payload (offset + 3);
      '(hour, minute, second) ←
        (if 7 <=? length then
           h ← index payload (offset + 4); mi ← index payload (offset + 5);
           se ← index payload (offset + 6); mret (ub h, ub mi, ub se)
         else mret (0, 0, 0));
      microsecond ←
        (if length =? 11 then s ← slice payload (offset + 7) (offset + 11); readUint32LE s
         else mret 0);
      match validateBinaryDateTime year (ub month) (ub day) hour minute second microsecond with
      | Some e => Err e
      | None => mret (Date year (ub month) (ub day) hour minute second (microsecond * 1000),
                      offset + length)
      end.

Definition readBinaryTimeString (payload : bytes) (offset : Z) : go (bytes * Z) :=
  if zlen payload <=? offset then Err (Errorf "time length truncated" [])
  else
    b ← index payload offset;
    let length := ub b in
    let offset := offset + 1 in
    if length =? 0 then mret (str "00:00:00", offset)
    else if negb (length =? 8) && negb (length =? 12)
    then Err (Errorf "unsupported time length %d" [AInt length])
    else if zlen payload <? offset + length then Err (Errorf "time payload truncated" [])
    else
      sg ← index payload offset;
      let sign := if negb (ub sg =? 0) then str "-" else [] in
      s ← slice payload (offset + 1) (offset + 5); days ← readUint32LE s;
      hours ← index payload (offset + 5);
      minutes ← index payload (offset + 6);
      seconds ← index payload (offset + 7);
      let next := offset + length in
      let totalHours := days * 24 + ub hours in
      if length =? 12 then
        s ← slice payload (offset + 8) (offset + 12); microseconds ← readUint32LE s;
        mret (Sprintf "%s%02d:%02d:%02d.%06d" [FStr sign; FInt totalHours; FInt (ub minutes);
                FInt (ub seconds); FInt microseconds], next)
      else mret (Sprintf "%s%02d:%02d:%02d" [FStr sign; FInt totalHours; FInt (ub minutes);
                   FInt (ub seconds)], next).

(** ** One binary value: its kind, the value and the next offset *)

Definition decodePreparedBinaryValue (payload : bytes) (offset : Z)
    (parameterType : PreparedParameterType) : go (ValueKind * any * Z) :=
  let type := pt_Type parameterType in
  let unsigned := pt_Unsigned parameterType in
  if type =? ColumnTypeNull then mret (ValueNull, GNil, offset)
  else if type =? ColumnTypeTiny then
    if zlen payload <? offset + 1 then Err (Errorf "tiny integer truncated" [])
    else
      b ← index payload offset;
      mret (ValueInt, (if unsigned then GInt Tuint64 (ub b) else GInt Tint64 (wrap_s 8 (ub b))),
            offset + 1)
  else if type =? ColumnTypeShort then
    if zlen payload <? offset + 2 then Err (Errorf "short integer truncated" [])
    else
      s ← slice payload offset (offset + 2); raw ← readUint16LE s;
      mret (ValueInt, (if unsigned then GInt Tuint64 raw else GInt Tint64 (wrap_s 16 raw)),
            offset + 2)
  else if (type =? ColumnTypeLong) || (type =? ColumnTypeInt24) then
    if zlen payload <? offset + 4 then Err (Errorf "integer truncated" [])
    else
      s ← slice payload offset (offset + 4); raw ← readUint32LE s;
      mret (ValueInt, (if unsigned then GInt Tuint64 raw else GInt Tint64 (wrap_s 32 raw)),
            offset + 4)
  else if type =? ColumnTypeLongLong then
    if zlen payload <? offset + 8 then Err (Errorf "long integer truncated" [])
    else
      s ← slice payload offset (offset + 8); raw ← readUint64LE s;
      mret (ValueInt, (if unsigned then GInt Tuint64 raw else GInt Tint64 (wrap_s 64 raw)),
            offset + 8)
  else if type =? ColumnTypeFloat then
    if zlen payload <? offset + 4 then Err (Errorf "float truncated" [])
    else
      s ← slice payload offset (offset + 4); raw ← readUint32LE s;
      mret (ValueFloat, GFloat64 (float64_of_float32 raw), offset + 4)
  else if type =? ColumnTypeDouble then
    if zlen payload <? offset + 8 then Err (Errorf "double truncated" [])
    else
      s ← slice payload offset (offset + 8); raw ← readUint64LE s;
      mret (ValueFloat, GFloat64 raw, offset + 8)
  else if decide (type ∈ dateTimeTypes) then
    '(value, next) ← readBinaryDateTime payload offset; mret (ValueTime, GTime value, next)
  else if type =? ColumnTypeTime then
    '(value, next) ← readBinaryTimeString payload offset; mret (ValueString, GString value, next)
  else if decide (type ∈ lengthEncodedTypes) then
    '(raw, next, ok) ← readLengthEncodedBytes payload offset;
    if negb ok then Err (Errorf "length-encoded value truncated" [])
    else mret (ValueString, GString raw, next)
  else Err (Errorf "unsupported mysql prepared parameter type 0x%02x" [AInt type]).

(** ** The parameter block *)

Definition preparedParameterTypeFromRef (ref : ParameterRef) : PreparedParameterType :=
  match pr_Type ref with
  | DataTypeBool => mkParameterType ColumnTypeTiny false
  | DataTypeInt => mkParameterType ColumnTypeLongLong false
  | DataTypeFloat => mkParameterType ColumnTypeDouble false
  | DataTypeTime => mkParameterType ColumnTypeDateTime false
  | DataTypeString => mkParameterType ColumnTypeVarString false
  | _ => mkParameterType ColumnTypeVarString false
  end.

(** A nil slice and an empty one are the same list. *)
Definition clonePreparedParameterTypes (types : list PreparedParameterType)
    : list PreparedParameterType := types.

(** The loop that reads [n] two-byte parameter types. *)
Fixpoint readParameterTypes (payload : bytes) (offset : Z) (n : nat)
    : go (list PreparedParameterType * Z) :=
  match n with
  | O => mret ([], offset)
  | S n =>
    t ← index payload offset; f ← index payload (offset + 1);
    '(types, next) ← readParameterTypes payload (offset + 2) n;
    mret (mkParameterType (ub t) (negb (Z.land (ub f) 0x80 =? 0)) :: types, next)
  end.

(** The index a placeholder binds: its own, or its position from 1. *)
Definition param_index (i : Z) (ref : ParameterRef) : Z :=
  if pr_Index ref =? 0 then i + 1 else pr_Index ref.

(** The loop over the placeholders; [i] counts them from 0. *)
Fixpoint readParameterValues (payload nullBitmap : bytes) (longData : gmap Z bytes)
    (types : list PreparedParameterType) (refs : list ParameterRef) (i offset : Z)
    : go (list ParameterValue * Z) :=
  match refs with
  | [] => mret ([], offset)
  | ref :: refs =>
    let idx := param_index i ref in
    b ← index nullBitmap (i / 8);
    if negb (Z.land (ub b) (Z.shiftl 1 (i mod 8)) =? 0) then
      '(values, next) ← readParameterValues payload nullBitmap longData types refs (i + 1) offset;
      mret (IndexedParameterValue idx ValueNull GNil :: values, next)
    else
      match longData !! idx with
      | Some data =>
        '(values, next) ← readParameterValues payload nullBitmap longData types refs (i + 1) offset;
        mret (IndexedParameterValue idx ValueString (GString data) :: values, next)
      | None =>
        t ← match types !! Z.to_nat i with Some t => Ok t | None => Panic end;
        match decodePreparedBinaryValue payload offset t with
        | Err e => Err (Errorf "decode COM_STMT_EXECUTE parameter %d: %w" [AInt (i + 1); AErr e])
        | Panic => Panic
        | Ok (kind, value, next) =>
          '(values, next) ← readParameterValues payload nullBitmap longData types refs (i + 1) next;
          mret (IndexedParameterValue idx kind value :: values, next)
        end
      end
  end.

Definition DecodePreparedExecuteParametersWithOptions (execute : PreparedExecuteCommand)
    (refs : list ParameterRef) (options : PreparedExecuteDecodeOptions)
    : go (list ParameterValue * list PreparedParameterType) :=
  let parameterCount := zlen refs in
  if parameterCount =? 0 then mret ([], [])
  else
    let payload := ex_ParameterPayload execute in
    let nullBitmapLength := (parameterCount + 7) / 8 in
    if zlen payload <? nullBitmapLength + 1
    then Err (Errorf "COM_STMT_EXECUTE parameter payload truncated: got %d bytes, want at least %d"
                [AInt (zlen payload); AInt (nullBitmapLength + 1)])
    else
      nullBitmap ← slice payload 0 nullBitmapLength;
      flag ← index payload nullBitmapLength;
      let offset := nullBitmapLength + 1 in
      '(types, offset) ←
        (if negb (ub flag =? 0) then
           let typeBytes := parameterCount * 2 in
           if zlen payload - offset <? typeBytes
           then Err (Errorf "COM_STMT_EXECUTE parameter types truncated: got %d bytes, want %d"
                       [AInt (zlen payload - offset); AInt typeBytes])
           else readParameterTypes payload offset (length refs)
         else if zlen (do_CachedTypes options) =? parameterCount
         then mret (do_CachedTypes options, offset)
         else mret (map preparedParameterTypeFromRef refs, offset));
      '(values, offset) ←
        readParameterValues payload nullBitmap (do_LongData options) types refs 0 offset;
      if negb (offset =? zlen payload)
      then Err (Errorf "COM_STMT_EXECUTE parameter payload has %d trailing bytes"
                  [AInt (zlen payload - offset)])
      else mret (values, clonePreparedParameterTypes types).

Definition DecodePreparedExecuteParameters (execute : PreparedExecuteCommand)
    (refs : list ParameterRef) : go (list ParameterValue) :=
  fst <$> DecodePreparedExecuteParametersWithOptions execute refs (mkDecodeOptions [] ∅).

(** ** The binary encodings of the protocol

    [wire_value t w k v]: the bytes [w] are the protocol's encoding, under the
    parameter type [t], of the value [v] of kind [k]. *)

Definition int_widths : list (Z * nat) :=
  [(ColumnTypeTiny, 1%nat); (ColumnTypeShort, 2%nat); (ColumnTypeLong, 4%nat);
   (ColumnTypeInt24, 4%nat); (ColumnTypeLongLong, 8%nat)].

(** The four lengths of a calendar value. *)
Inductive datetime_wire : bytes -> Time -> Prop :=
  | dw_zero : datetime_wire [byte_of 0] zeroTime
  | dw_date y m d : in_u 16 y -> civil_valid y m d 0 0 0 0 ->
      datetime_wire (byte_of 4 :: le_bytes 2 y ++ [byte_of m; byte_of d]) (Date y m d 0 0 0 0)
  | dw_seconds y m d h mi s : in_u 16 y -> civil_valid y m d h mi s 0 ->
      datetime_wire
        (byte_of 7 :: le_bytes 2 y ++ [byte_of m; byte_of d; byte_of h; byte_of mi; byte_of s])
        (Date y m d h mi s 0)
  | dw_micros y m d h mi s us : in_u 16 y -> civil_valid y m d h mi s (us * 1000) ->
      datetime_wire
        (byte_of 11 :: le_bytes 2 y ++ [byte_of m; byte_of d; byte_of h; byte_of mi; byte_of s]
           ++ le_bytes 4 us)
        (Date y m d h mi s (us * 1000)).

(** The text of a duration of at most 2^32 days. *)
Definition timeText (negative : bool) (days h mi s : Z) : bytes :=
  (if negative then str "-" else []) ++ formatPadded 2 (days * 24 + h) ++ str ":"
  ++ formatPadded 2 mi ++ str ":" ++ formatPadded 2 s.

Inductive time_wire : bytes -> bytes -> Prop :=
  | tw_zero : time_wire [byte_of 0] (str "00:00:00")
  | tw_seconds sg days h mi s : in_u 32 days ->
      time_wire (byte_of 8 :: sg :: le_bytes 4 days ++ [h; mi; s])
        (timeText (negb (ub sg =? 0)) days (ub h) (ub mi) (ub s))
  | tw_micros sg days h mi s us : in_u 32 days -> in_u 32 us ->
      time_wire (byte_of 12 :: sg :: le_bytes 4 days ++ [h; mi; s] ++ le_bytes 4 us)
        (timeText (negb (ub sg =? 0)) days (ub h) (ub mi) (ub s) ++ str "." ++ formatPadded 6 us).

Inductive wire_value : PreparedParameterType -> bytes -> ValueKind -> any -> Prop :=
  | wv_null u : wire_value (mkParameterType ColumnTypeNull u) [] ValueNull GNil
  | wv_unsigned t n z : (t, n) ∈ int_widths -> in_u (8 * Z.of_nat n) z ->
      wire_value (mkParameterType t true) (le_bytes n z) ValueInt (GInt Tuint64 z)
  | wv_signed t n z : (t, n) ∈ int_widths -> in_s (8 * Z.of_nat n) z ->
      wire_value (mkParameterType t false) (le_bytes n z) ValueInt (GInt Tint64 z)
  | wv_float u bits : in_u 32 bits ->
      wire_value (mkParameterType ColumnTypeFloat u) (le_bytes 4 bits) ValueFloat
        (GFloat64 (float64_of_float32 bits))
  | wv_double u bits : in_u 64 bits ->
      wire_value (mkParameterType ColumnTypeDouble u) (le_bytes 8 bits) ValueFloat (GFloat64 bits)
  | wv_datetime t u w v : t ∈ dateTimeTypes -> datetime_wire w v ->
      wire_value (mkParameterType t u) w ValueTime (GTime v)
  | wv_time u w v : time_wire w v ->
      wire_value (mkParameterType ColumnTypeTime u) w ValueString (GString v)
  | wv_string t u s : t ∈ lengthEncodedTypes -> in_u 64 (zlen s) ->
      wire_value (mkParameterType t u) (encodeLengthEncodedInteger (zlen s) ++ s) ValueString
        (GString s).

(** One parameter of an execution: its type, and its encoded value unless null. *)
Record wire_param : Type := mkWireParam {
  wp_type : PreparedParameterType;
  wp_value : option (bytes * ValueKind * any) }.

Definition wire_param_ok (p : wire_param) : Prop :=
  match wp_value p with None => True | Some (w, k, v) => wire_value (wp_type p) w k v end.

Definition null_bitmap (ps : list wire_param) : bytes :=
  le_bytes (Z.to_nat ((zlen ps + 7) / 8))
    (bits_value (map (fun p => match wp_value p with None => true | _ => false end) ps)).

Definition type_bytes (ps : list wire_param) : bytes :=
  flat_map (fun p => [byte_of (pt_Type (wp_type p));
                      byte_of (if pt_Unsigned (wp_type p) then 0x80 else 0)]) ps.

(** The bytes a client sends for the values: nothing for a null or for a
    parameter sent as long data before. *)
Fixpoint value_bytes (longData : gmap Z bytes) (i : Z) (refs : list ParameterRef)
    (ps : list wire_param) : bytes :=
  match refs, ps with
  | ref :: refs, p :: ps =>
    match wp_value p, longData !! param_index i ref with
    | Some (w, _, _), None => w
    | _, _ => []
    end ++ value_bytes longData (i + 1) refs ps
  | _, _ => []
  end.

(** The values the execution binds. *)
Fixpoint bound_values (longData : gmap Z bytes) (i : Z) (refs : list ParameterRef)
    (ps : list wire_param) : list ParameterValue :=
  match refs, ps with
  | ref :: refs, p :: ps =>
    let idx := param_index i ref in
    match wp_value p, longData !! idx with
    | None, _ => IndexedParameterValue idx ValueNull GNil
    | Some _, Some data => IndexedParameterValue idx ValueString (GString data)
    | Some (_, k, v), None => IndexedParameterValue idx k v
    end :: bound_values longData (i + 1) refs ps
  | _, _ => []
  end.

(** ** Calendar values *)

Lemma validateBinaryDateTime_spec y m d h mi s us : 0 <= h -> 0 <= mi -> 0 <= s -> 0 <= us ->
  validateBinaryDateTime y m d h mi s us = None <-> civil_valid y m d h mi s (us * 1000).
Proof.
  intros Hh Hmi Hs Hus. unfold validateBinaryDateTime. split.
  - case_if; [done|]. case_if; [done|]. intros _.
    pose proof (accessors_valid _ (Date_nanosecond_range y m d h mi s (us * 1000))) as V.
    repeat match goal with H : _ = _ |- _ => rewrite H in V; clear H end. done.
  - intros V. destruct (Date_accessors _ _ _ _ _ _ _ V) as (-> & -> & -> & -> & -> & -> & ->).
    rewrite !Z.eqb_refl. destruct V. if_false. done.
Qed.

Lemma validateBinaryDateTime_valid y m d h mi s us : civil_valid y m d h mi s (us * 1000) ->
  validateBinaryDateTime y m d h mi s us = None.
Proof. intros V. apply validateBinaryDateTime_spec; [destruct V; lia..|done]. Qed.

Lemma civil_valid_bytes y m d h mi s us : civil_valid y m d h mi s (us * 1000) ->
  ub (byte_of m) = m /\ ub (byte_of d) = d /\ ub (byte_of h) = h /\ ub (byte_of mi) = mi /\
  ub (byte_of s) = s /\ in_u 32 us.
Proof.
  intros [Hm Hd Hh Hmi Hs Hus]. pose proof (daysBeforeMonth_step (isLeap y) m Hm).
  unfold daysIn in Hd. unfold in_u. rewrite !ub_byte_of, !Z.mod_small by lia. lia.
Qed.

(** Moves the reads of a message behind a prefix to the front of the rest. *)
Ltac skip_prefix :=
  rewrite <- ?Z.add_assoc; rewrite ?index_app_r, ?slice_app_r by lia.

Lemma readBinaryDateTime_bytes pre n body rest : 0 <= n < 256 -> zlen body = n ->
  n = 4 \/ n = 7 \/ n = 11 ->
  readBinaryDateTime (pre ++ (byte_of n :: body) ++ rest) (zlen pre) =
  match body with
  | y0 :: y1 :: m :: d :: tod =>
    let '(h, mi, s, us) :=
      match tod with
      | [h; mi; s] => (ub h, ub mi, ub s, 0)
      | [h; mi; s; u0; u1; u2; u3] => (ub h, ub mi, ub s, le_value [u0; u1; u2; u3])
      | _ => (0, 0, 0, 0)
      end in
    let y := le_value [y0; y1] in
    match validateBinaryDateTime y (ub m) (ub d) h mi s us with
    | Some e => Err e
    | None => Ok (Date y (ub m) (ub d) h mi s (us * 1000), zlen pre + (1 + n))
    end
  | _ => Panic
  end.
Proof.
  intros Hn Hb Hc. pose proof (zlen_nonneg pre). pose proof (zlen_nonneg rest).
  assert (Hl : zlen (pre ++ (byte_of n :: body) ++ rest) = zlen pre + (1 + n + zlen rest))
    by (autorewrite with zlen; lia).
  unfold readBinaryDateTime. rewrite Hl. if_false. 
  rewrite (index_at _ pre (byte_of n) (body ++ rest) (zlen pre)) by done.
  cbn [mbind go_bind]. rewrite ub_byte_of, Z.mod_small by lia. if_false. if_false. if_false.
  skip_prefix. destruct body as [|y0 [|y1 [|m [|d tod]]]]; try (autorewrite with zlen in Hb; lia).
  set (msg := (byte_of n :: _) ++ rest).
  rewrite (slice_at msg [byte_of n] [y0; y1] (m :: d :: tod ++ rest) 1 (1 + 2)) by done.
  cbn [mbind go_bind]. rewrite readUint16LE_value. cbn [mbind go_bind].
  change (index msg (1 + 2)) with (Ok m). change (index msg (1 + 3)) with (Ok d).
  cbn [mbind go_bind]. rewrite !zlen_cons in Hb. destruct Hc as [->|[->| ->]].
  - rewrite (zlen_zero tod) in * by lia. done.
  - destruct tod as [|h [|mi [|s [|? tod]]]]; try (autorewrite with zlen in Hb;
      try pose proof (zlen_nonneg tod); lia). done.
  - destruct tod as [|h [|mi [|s tod]]]; try (autorewrite with zlen in Hb; lia).
    destruct (list_of_zlen_4 tod) as (u0 & u1 & u2 & u3 & ->); [autorewrite with zlen in Hb; lia|].
    rewrite (slice_at msg [byte_of 11; y0; y1; m; d; h; mi; s] [u0; u1; u2; u3] rest
      (1 + 7) (1 + 11)) by done.
    change (index msg (1 + 4)) with (Ok h). change (index msg (1 + 5)) with (Ok mi).
    change (index msg (1 + 6)) with (Ok s). change (7 <=? 11) with true.
    cbn [mbind go_bind mret go_ret]. change (11 =? 11) with true. cbv iota.
    by rewrite readUint32LE_value.
Qed.

Lemma le_value_2_small y : in_u 16 y -> le_value [byte_of y; byte_of (y / 256)] = y.
Proof. apply (le_value_bytes_small 2). Qed.

Lemma readBinaryDateTime_wire pre w v rest : datetime_wire w v ->
  readBinaryDateTime (pre ++ w ++ rest) (zlen pre) = Ok (v, zlen pre + zlen w).
Proof.
  pose proof (zlen_nonneg pre). pose proof (zlen_nonneg rest).
  intros H1. destruct H1 as [|y m d Hy V|y m d h mi s Hy V|y m d h mi s us Hy V].
  - unfold readBinaryDateTime. autorewrite with zlen. if_false.
    rewrite (index_at _ pre (byte_of 0) rest (zlen pre)) by done. done.
  - rewrite (readBinaryDateTime_bytes pre 4) by (try done; lia). cbn -[le_value zlen].
    destruct (civil_valid_bytes y m d 0 0 0 0 V) as (-> & -> & _).
    rewrite le_value_2_small by done. by rewrite validateBinaryDateTime_valid.
  - rewrite (readBinaryDateTime_bytes pre 7) by (try done; lia). cbn -[le_value zlen].
    destruct (civil_valid_bytes y m d h mi s 0 V) as (-> & -> & -> & -> & -> & _).
    rewrite le_value_2_small by done. by rewrite validateBinaryDateTime_valid.
  - rewrite (readBinaryDateTime_bytes pre 11) by (try done; lia). cbn -[le_value zlen].
    destruct (civil_valid_bytes y m d h mi s us V) as (-> & -> & -> & -> & -> & Hus).
    rewrite le_value_2_small by done.
    change (le_value [byte_of us; _; _; _]) with (le_value (le_bytes 4 us)).
    rewrite (le_value_bytes_small 4) by done. by rewrite validateBinaryDateTime_valid.
Qed.

Lemma readBinaryTimeString_wire pre w v rest : time_wire w v ->
  readBinaryTimeString (pre ++ w ++ rest) (zlen pre) = Ok (v, zlen pre + zlen w).
Proof.
  pose proof (zlen_nonneg pre). pose proof (zlen_nonneg rest).
  intros H1. destruct H1 as [|sg days h mi s Hd|sg days h mi s us Hd Hu];
    unfold readBinaryTimeString; autorewrite with zlen; if_false.
  - rewrite (index_at _ pre (byte_of 0) rest (zlen pre)) by done. done.
  - erewrite (index_at _ pre (byte_of 8) _ (zlen pre)) by done.
    cbn [mbind go_bind]. change (ub (byte_of 8)) with 8. do 3 if_false. skip_prefix.
    set (msg := (byte_of 8 :: _) ++ rest).
    change (index msg 1) with (Ok sg). cbn [mbind go_bind].
    rewrite (slice_at msg [byte_of 8; sg] (le_bytes 4 days) (h :: mi :: s :: rest) (1 + 1) (1 + 5))
      by done.
    cbn [mbind go_bind]. rewrite readUint32LE_le by done. cbn [mbind go_bind].
    change (index msg (1 + 5)) with (Ok h). change (index msg (1 + 6)) with (Ok mi).
    change (index msg (1 + 7)) with (Ok s). cbn [mbind go_bind]. unfold timeText. if_false.
    unfold Sprintf. cbn -[formatPadded]. by rewrite app_nil_r.
  - erewrite (index_at _ pre (byte_of 12) _ (zlen pre)) by done.
    cbn [mbind go_bind]. change (ub (byte_of 12)) with 12. do 3 if_false. skip_prefix.
    set (msg := (byte_of 12 :: _) ++ rest).
    change (index msg 1) with (Ok sg). cbn [mbind go_bind].
    rewrite (slice_at msg [byte_of 12; sg] (le_bytes 4 days)
      ([h; mi; s] ++ le_bytes 4 us ++ rest) (1 + 1) (1 + 5)) by done.
    cbn [mbind go_bind]. rewrite readUint32LE_le by done. cbn [mbind go_bind].
    change (index msg (1 + 5)) with (Ok h). change (index msg (1 + 6)) with (Ok mi).
    change (index msg (1 + 7)) with (Ok s). cbn [mbind go_bind]. if_true.
    rewrite (slice_at msg ([byte_of 12; sg] ++ le_bytes 4 days ++ [h; mi; s]) (le_bytes 4 us) rest
      (1 + 8) (1 + 12)) by done.
    cbn [mbind go_bind]. rewrite readUint32LE_le by done. cbn [mbind go_bind].
    unfold Sprintf, timeText. cbn -[formatPadded].
    rewrite app_nil_r. rewrite <- !app_assoc. cbn [app]. by rewrite <- !app_assoc.
Qed.

(** ** One value *)

Lemma readUint16LE_wrap z : readUint16LE (le_bytes 2 z) = Ok (wrap_u 16 z).
Proof. etrans; [apply readUint16LE_value|]. f_equal. apply (le_value_bytes 2). Qed.

Lemma readUint32LE_wrap z : readUint32LE (le_bytes 4 z) = Ok (wrap_u 32 z).
Proof. etrans; [apply readUint32LE_value|]. f_equal. apply (le_value_bytes 4). Qed.

Lemma readUint64LE_wrap z : readUint64LE (le_bytes 8 z) = Ok (wrap_u 64 z).
Proof. etrans; [apply readUint64LE_value|]. f_equal. apply (le_value_bytes 8). Qed.

Lemma wrap_u_small w z : in_u w z -> wrap_u w z = z.
Proof. apply Z.mod_small. Qed.

(** The integer types read their width and extend the sign unless unsigned. *)
Lemma decode_int_wire pre t n u z rest : (t, n) ∈ int_widths ->
  decodePreparedBinaryValue (pre ++ le_bytes n z ++ rest) (zlen pre) (mkParameterType t u)
  = Ok (ValueInt, (if u then GInt Tuint64 (wrap_u (8 * Z.of_nat n) z)
                   else GInt Tint64 (wrap_s (8 * Z.of_nat n) (wrap_u (8 * Z.of_nat n) z))),
        zlen pre + Z.of_nat n).
Proof.
  intros Ht. pose proof (zlen_nonneg pre). pose proof (zlen_nonneg rest).
  assert (Hl : zlen (pre ++ le_bytes n z ++ rest) = zlen pre + (Z.of_nat n + zlen rest))
    by (rewrite !zlen_app, zlen_le_bytes; lia).
  unfold int_widths in Ht. rewrite !elem_of_cons, elem_of_nil in Ht.
  destruct Ht as [[= -> ->]|[[= -> ->]|[[= -> ->]|[[= -> ->]|[[= -> ->]|[]]]]]];
    unfold decodePreparedBinaryValue; cbn [pt_Type pt_Unsigned];
    rewrite Hl; cbn -[le_bytes zlen index slice wrap_s wrap_u Z.add Z.ltb]; of_nat_eval; if_false.
  - rewrite (index_at _ pre (byte_of z) rest) by done. cbn [mbind go_bind mret go_ret].
    by rewrite ub_byte_of.
  - rewrite (slice_at _ pre (le_bytes 2 z) rest) by done. cbn [mbind go_bind].
    by rewrite readUint16LE_wrap.
  - rewrite (slice_at _ pre (le_bytes 4 z) rest) by done. cbn [mbind go_bind].
    by rewrite readUint32LE_wrap.
  - rewrite (slice_at _ pre (le_bytes 4 z) rest) by done. cbn [mbind go_bind].
    by rewrite readUint32LE_wrap.
  - rewrite (slice_at _ pre (le_bytes 8 z) rest) by done. cbn [mbind go_bind].
    by rewrite readUint64LE_wrap.
Qed.

Lemma decode_datetime_type payload o t u : t ∈ dateTimeTypes ->
  decodePreparedBinaryValue payload o (mkParameterType t u)
  = ('(v, next) ← readBinaryDateTime payload o; mret (ValueTime, GTime v, next)).
Proof.
  unfold dateTimeTypes. rewrite !elem_of_cons, elem_of_nil.
  intros [->|[->|[->|[->|[]]]]]; reflexivity.
Qed.

Lemma decode_string_type payload o t u : t ∈ lengthEncodedTypes ->
  decodePreparedBinaryValue payload o (mkParameterType t u)
  = ('(raw, next, ok) ← readLengthEncodedBytes payload o;
     if negb ok then Err (Errorf "length-encoded value truncated" [])
     else mret (ValueString, GString raw, next)).
Proof.
  unfold lengthEncodedTypes. rewrite !elem_of_cons, elem_of_nil.
  intros H. repeat destruct H as [->|H]; try reflexivity. done.
Qed.

Lemma decode_wire_value pre t w k v rest : wire_value t w k v ->
  decodePreparedBinaryValue (pre ++ w ++ rest) (zlen pre) t = Ok (k, v, zlen pre + zlen w).
Proof.
  pose proof (zlen_nonneg pre). pose proof (zlen_nonneg rest).
  intros H1. destruct H1 as [u|t n z Ht Hz|t n z Ht Hz|u bits Hb|u bits Hb|t u w v Ht Hw|u w v Hw
    |t u s Ht Hs].
  - change (zlen (@nil byte)) with 0. by rewrite Z.add_0_r.
  - rewrite decode_int_wire, wrap_u_small, zlen_le_bytes by done. done.
  - rewrite decode_int_wire, wrap_s_u, zlen_le_bytes; [done|..|done|done].
    unfold int_widths in Ht. rewrite !elem_of_cons, elem_of_nil in Ht.
    by destruct Ht as [[= -> ->]|[[= -> ->]|[[= -> ->]|[[= -> ->]|[[= -> ->]|[]]]]]].
  - unfold decodePreparedBinaryValue. cbn [pt_Type pt_Unsigned]. autorewrite with zlen.
    cbn -[le_bytes slice Z.add Z.ltb float64_of_float32]. if_false.
    rewrite (slice_at _ pre (le_bytes 4 bits) rest) by done. cbn [mbind go_bind].
    by rewrite readUint32LE_le.
  - unfold decodePreparedBinaryValue. cbn [pt_Type pt_Unsigned]. autorewrite with zlen.
    cbn -[le_bytes slice Z.add Z.ltb]. if_false.
    rewrite (slice_at _ pre (le_bytes 8 bits) rest) by done. cbn [mbind go_bind].
    by rewrite readUint64LE_wrap, wrap_u_small.
  - rewrite decode_datetime_type by done. by rewrite (readBinaryDateTime_wire pre w v rest).
  - change (decodePreparedBinaryValue (pre ++ w ++ rest) (zlen pre) (mkParameterType ColumnTypeTime u))
      with ('(value, next) ← readBinaryTimeString (pre ++ w ++ rest) (zlen pre);
            mret (ValueString, GString value, next)).
    by rewrite (readBinaryTimeString_wire pre w v rest).
  - rewrite decode_string_type by done. rewrite readLengthEncodedBytes_encoded by done.
    cbn [mbind go_bind mret go_ret negb]. do 2 f_equal. zlen_simpl.
Qed.

Lemma decode_wire_value_at data pre t w k v rest o :
  data = pre ++ w ++ rest -> o = zlen pre -> wire_value t w k v ->
  decodePreparedBinaryValue data o t = Ok (k, v, o + zlen w).
Proof. intros -> ->. apply decode_wire_value. Qed.

(** ** The parameter block *)

(** The block a client sends: with the types when [bound], without them when
    they are those of the previous execution. *)
Definition parameter_block (longData : gmap Z bytes) (refs : list ParameterRef)
    (ps : list wire_param) (bound : bool) : bytes :=
  null_bitmap ps ++ (if bound then byte_of 1 :: type_bytes ps else [byte_of 0])
  ++ value_bytes longData 0 refs ps.

Lemma zlen_type_bytes ps : zlen (type_bytes ps) = 2 * zlen ps.
Proof.
  induction ps as [|p ps IH]; [done|]. unfold type_bytes in *. simpl.
  rewrite !zlen_cons, IH. lia.
Qed.

Lemma unsigned_flag (u : bool) : negb (Z.land (ub (byte_of (if u then 0x80 else 0))) 0x80 =? 0) = u.
Proof. by destruct u. Qed.

Lemma readParameterTypes_wire data ps : forall pre rest o,
  data = pre ++ type_bytes ps ++ rest -> o = zlen pre ->
  Forall (fun p => in_u 8 (pt_Type (wp_type p))) ps ->
  readParameterTypes data o (length ps) = Ok (map wp_type ps, o + 2 * zlen ps).
Proof.
  induction ps as [|[[t u] v] ps IH]; intros pre rest o Hd Ho Hps; cbn [length readParameterTypes].
  - autorewrite with zlen. by rewrite Z.add_0_r.
  - apply Forall_cons in Hps as [Ht Hps]. cbn [wp_type pt_Type] in Ht.
    rewrite (index_at data pre (byte_of t) (byte_of (if u then 0x80 else 0)
      :: type_bytes ps ++ rest) o) by done. cbn [mbind go_bind].
    rewrite (index_at data (pre ++ [byte_of t]) (byte_of (if u then 0x80 else 0))
      (type_bytes ps ++ rest) (o + 1)); [|by rewrite Hd, <- app_assoc|zlen_simpl].
    cbn [mbind go_bind].
    rewrite (IH (pre ++ [byte_of t; byte_of (if u then 0x80 else 0)]) rest);
      [|by rewrite Hd, <- app_assoc|zlen_simpl|done].
    cbn [mbind go_bind mret go_ret map wp_type]. rewrite unsigned_flag, ub_byte_of, Z.mod_small by done.
    do 2 f_equal. zlen_simpl.
Qed.

Lemma null_bitmap_test (seen : list wire_param) p ps :
  exists b, index (null_bitmap (seen ++ p :: ps)) (zlen seen / 8) = Ok b /\
    negb (Z.land (ub b) (Z.shiftl 1 (zlen seen mod 8)) =? 0)
    = match wp_value p with None => true | _ => false end.
Proof.
  unfold null_bitmap. pose proof (zlen_nonneg seen). pose proof (zlen_nonneg ps).
  set (l := map _ _). destruct (bitmap_test (Z.to_nat ((zlen (seen ++ p :: ps) + 7) / 8))
    (bits_value l) (zlen seen)) as (b & -> & E); [done|..].
  - autorewrite with zlen. rewrite Z2Nat.id by div_lia. div_lia.
  - exists b. split; [done|]. rewrite E, testbit_bits_value by done. subst l.
    unfold zlen. rewrite Nat2Z.id, map_app. simpl.
    rewrite <- (length_map (fun p : wire_param => match wp_value p with None => true | _ => false end) seen).
    apply nth_middle.
Qed.

Lemma types_lookup (seen : list wire_param) p ps :
  map wp_type (seen ++ p :: ps) !! Z.to_nat (zlen seen) = Some (wp_type p).
Proof.
  unfold zlen. rewrite Nat2Z.id, map_app. simpl.
  rewrite <- (length_map wp_type seen). by apply list_lookup_middle.
Qed.

Lemma readParameterValues_wire data longData refs : forall ps seen pre rest o,
  length refs = length ps -> Forall wire_param_ok ps ->
  data = pre ++ value_bytes longData (zlen seen) refs ps ++ rest -> o = zlen pre ->
  readParameterValues data (null_bitmap (seen ++ ps)) longData (map wp_type (seen ++ ps)) refs
    (zlen seen) o
  = Ok (bound_values longData (zlen seen) refs ps,
        o + zlen (value_bytes longData (zlen seen) refs ps)).
Proof.
  induction refs as [|ref refs IH]; intros [|p ps] seen pre rest o Hlen Hok Hd Ho; try (by inversion Hlen).
  { cbn. autorewrite with zlen. by rewrite Z.add_0_r. }
  cbn [readParameterValues bound_values value_bytes] in *. injection Hlen as Hlen.
  apply Forall_cons in Hok as [Hp Hok].
  destruct (null_bitmap_test seen p ps) as (b & -> & Hbit). cbn [mbind go_bind]. rewrite Hbit.
  assert (Hnext : zlen seen + 1 = zlen (seen ++ [p])) by zlen_simpl.
  assert (Hall : seen ++ p :: ps = (seen ++ [p]) ++ ps) by (by rewrite <- app_assoc).
  rewrite Hnext, Hall in *.
  unfold wire_param_ok in Hp. destruct (wp_value p) as [[[w k] v]|] eqn:Ev.
  - destruct (longData !! param_index (zlen seen) ref) as [d|] eqn:El.
    + by rewrite (IH ps (seen ++ [p]) pre rest o).
    + rewrite <- Hall, types_lookup. cbn [mbind go_bind].
      erewrite (decode_wire_value_at data pre _ w k v); [|by rewrite Hd, <- app_assoc|done..].
      rewrite Hall, (IH ps (seen ++ [p]) (pre ++ w) rest);
        [|done..|by rewrite Hd, <- !app_assoc|zlen_simpl].
      cbn [mbind go_bind mret go_ret]. do 2 f_equal. zlen_simpl.
  - rewrite (IH ps (seen ++ [p]) pre rest o) by done. done.
Qed.

Lemma zlen_null_bitmap ps : zlen (null_bitmap ps) = (zlen ps + 7) / 8.
Proof.
  unfold null_bitmap. rewrite zlen_le_bytes, Z2Nat.id; [done|].
  pose proof (zlen_nonneg ps). div_lia.
Qed.

Lemma DecodePreparedExecuteParameters_block longData refs ps bound cached id fl it :
  refs <> [] -> length refs = length ps -> Forall wire_param_ok ps ->
  Forall (fun p => in_u 8 (pt_Type (wp_type p))) ps ->
  (bound = false -> cached = map wp_type ps) ->
  DecodePreparedExecuteParametersWithOptions
    (mkExecute id fl it (parameter_block longData refs ps bound)) refs
    (mkDecodeOptions cached longData)
  = Ok (bound_values longData 0 refs ps, map wp_type ps).
Proof.
  intros Hne Hlen Hok Ht Hc. assert (Hz : zlen refs = zlen ps) by (unfold zlen; lia).
  assert (0 < zlen refs) by (destruct refs; [done|]; rewrite zlen_cons;
    pose proof (zlen_nonneg refs); lia).
  unfold DecodePreparedExecuteParametersWithOptions. rewrite Hz in *. if_false.
  cbn [ex_ParameterPayload do_CachedTypes do_LongData].
  rewrite <- zlen_null_bitmap, Hlen. set (vals := value_bytes longData 0 refs ps).
  set (mid := if bound then byte_of 1 :: type_bytes ps else [byte_of 0]).
  assert (Hmid : zlen mid = 1 + if bound then 2 * zlen ps else 0)
    by (unfold mid; destruct bound; autorewrite with zlen; rewrite ?zlen_type_bytes; lia).
  set (payload := parameter_block longData refs ps bound).
  assert (Hp : payload = null_bitmap ps ++ mid ++ vals) by done.
  pose proof (zlen_nonneg vals).
  assert (Hpl : zlen payload = zlen (null_bitmap ps) + (zlen mid + zlen vals))
    by (rewrite Hp, !zlen_app; done).
  rewrite Hpl. case_if; [destruct bound; lia|].
  rewrite (slice_at payload [] (null_bitmap ps) (mid ++ vals)) by done. cbn [mbind go_bind].
  rewrite (index_at payload (null_bitmap ps) (if bound then byte_of 1 else byte_of 0)
    ((if bound then type_bytes ps else []) ++ vals) (zlen (null_bitmap ps)));
    [|rewrite Hp; unfold mid; by destruct bound|done].
  cbn [mbind go_bind].
  assert (Hv : forall o, o = zlen (null_bitmap ps ++ mid) ->
    readParameterValues payload (null_bitmap ps) longData (map wp_type ps) refs 0 o
    = Ok (bound_values longData 0 refs ps, zlen payload)).
  { intros o ->. pose proof (readParameterValues_wire payload longData refs ps []
      (null_bitmap ps ++ mid) [] (zlen (null_bitmap ps ++ mid)) Hlen Hok) as Ev.
    cbn [app] in Ev. change (zlen (@nil wire_param)) with 0 in Ev. fold vals in Ev.
    rewrite app_nil_r, <- app_assoc in Ev. rewrite Ev by done. do 2 f_equal.
    rewrite Hpl, zlen_app. lia. }
  destruct bound; cbn [negb].
  - change (ub (byte_of 1) =? 0) with false. cbn [negb]. case_if; [lia|].
    rewrite (readParameterTypes_wire payload ps (null_bitmap ps ++ [byte_of 1]) vals);
      [|by rewrite Hp, <- app_assoc|zlen_simpl|done].
    cbn [mbind go_bind]. rewrite Hv, Hpl by (rewrite zlen_app; lia).
    cbn [mbind go_bind]. by rewrite Z.eqb_refl.
  - change (ub (byte_of 0) =? 0) with true. cbn [negb].
    assert (zlen cached = zlen ps) as -> by (rewrite Hc by done; unfold zlen; by rewrite length_map).
    rewrite Z.eqb_refl. cbn [mbind go_bind mret go_ret]. rewrite Hc by done.
    rewrite Hv, Hpl by (rewrite zlen_app; lia). cbn [mbind go_bind]. by rewrite Z.eqb_refl.
Qed.

(** ** Panic freedom *)

Lemma readBinaryDateTime_returns payload o : 0 <= o ->
  returns (fun r => o <= r.2 <= zlen payload) (readBinaryDateTime payload o).
Proof.
  intros Ho. unfold readBinaryDateTime. go_steps; try (simpl; lia).
  all: destruct (validateBinaryDateTime _ _ _ _ _ _ _); simpl; lia.
Qed.

Lemma readBinaryTimeString_returns payload o : 0 <= o ->
  returns (fun r => o <= r.2 <= zlen payload) (readBinaryTimeString payload o).
Proof. intros Ho. unfold readBinaryTimeString. go_steps; simpl; lia. Qed.

Lemma decodePreparedBinaryValue_returns payload o t : 0 <= o <= zlen payload ->
  returns (fun r => o <= r.2 <= zlen payload) (decodePreparedBinaryValue payload o t).
Proof.
  intros Ho. unfold decodePreparedBinaryValue. go_steps; try (simpl; lia).
  - eapply returns_bind; [apply readBinaryDateTime_returns; lia|]. intros [v nx]. simpl. lia.
  - eapply returns_bind; [apply readBinaryTimeString_returns; lia|]. intros [v nx]. simpl. lia.
  - destruct ok; [|done]. specialize (Hok eq_refl). simpl. lia.
Qed.

Lemma readParameterTypes_returns payload n : forall o, 0 <= o -> o + 2 * Z.of_nat n <= zlen payload ->
  returns (fun r => length r.1 = n /\ r.2 = o + 2 * Z.of_nat n) (readParameterTypes payload o n).
Proof.
  induction n as [|n IH]; intros o Ho Hl; cbn [readParameterTypes]; [simpl; lia|].
  go_steps. eapply returns_bind; [apply (IH (o + 2)); lia|]. intros [ts o']. simpl. lia.
Qed.

Lemma readParameterValues_returns payload bitmap longData types refs : forall i o,
  0 <= i -> i + zlen refs <= zlen types -> i + zlen refs <= 8 * zlen bitmap ->
  0 <= o <= zlen payload ->
  returns (fun r => o <= r.2 <= zlen payload)
    (readParameterValues payload bitmap longData types refs i o).
Proof.
  induction refs as [|ref refs IH]; intros i o Hi Ht Hb Ho; cbn [readParameterValues]; [simpl; lia|].
  rewrite zlen_cons in *. pose proof (zlen_nonneg refs).
  destruct (index_safe bitmap (i / 8)) as [b ->]; [div_lia|]. cbn [mbind go_bind].
  assert (Hrec : forall o' (f : list ParameterValue -> list ParameterValue), o <= o' <= zlen payload ->
    returns (fun r => o <= r.2 <= zlen payload)
      ('(values, next) ← readParameterValues payload bitmap longData types refs (i + 1) o';
       mret (f values, next))).
  { intros o' f Ho'. eapply returns_bind; [apply (IH (i + 1) o'); lia|]. intros [vs n]. simpl. lia. }
  case_if; [by apply (Hrec o (cons _)); lia|].
  destruct (longData !! param_index i ref); [by apply (Hrec o (cons _)); lia|].
  destruct (lookup_lt_is_Some_2 types (Z.to_nat i)) as [t ->]; [unfold zlen in *; lia|].
  cbn [mbind go_bind].
  pose proof (decodePreparedBinaryValue_returns payload o t Ho) as R.
  destruct (decodePreparedBinaryValue payload o t) as [[[k v] n]|e|]; [|done|done].
  apply (Hrec n (cons _)). exact R.
Qed.

Lemma readValues_tail_returns payload bitmap longData types refs o :
  zlen refs <= zlen types -> zlen refs <= 8 * zlen bitmap -> 0 <= o <= zlen payload ->
  returns (fun _ => True)
    ('(values, offset) ← readParameterValues payload bitmap longData types refs 0 o;
     if negb (offset =? zlen payload)
     then Err (Errorf "COM_STMT_EXECUTE parameter payload has %d trailing bytes"
                 [AInt (zlen payload - offset)])
     else mret (values, clonePreparedParameterTypes types)).
Proof.
  intros Ht Hb Ho. eapply returns_bind; [by apply readParameterValues_returns|].
  intros [vs n] _. by case_if.
Qed.

Lemma DecodePreparedExecuteParameters_safe execute refs options :
  safe (DecodePreparedExecuteParametersWithOptions execute refs options).
Proof.
  unfold DecodePreparedExecuteParametersWithOptions. pose proof (zlen_nonneg refs).
  assert (0 <= (zlen refs + 7) / 8 /\ zlen refs <= 8 * ((zlen refs + 7) / 8)) as [] by div_lia.
  set (nb := (zlen refs + 7) / 8) in *. go_safe.
  - eapply returns_bind; [apply readParameterTypes_returns; [|unfold zlen in *]; lia|].
    intros [ts o] [Hts Ho]. cbn [fst snd] in *.
    apply readValues_tail_returns; unfold zlen in *; lia.
  - apply readValues_tail_returns; unfold zlen in *; lia.
  - apply readValues_tail_returns; unfold zlen in *; rewrite ?length_map; lia.
Qed.

(** ** The properties of the component *)

(** C20. Executing a prepared statement binds exactly the values the client sent.
    For every list of parameters encoded by the protocol (integers of all
    widths and signs, floats, calendar values of all four lengths, durations,
    strings and blobs, nulls, and values sent before as long data), with the
    parameter types in the message or remembered from the previous execution,
    [DecodePreparedExecuteParametersWithOptions] succeeds and returns the
    values in order together with the types to remember. *)
Theorem execute_parameters_roundtrip longData refs ps bound cached id fl it :
  refs <> [] -> length refs = length ps -> Forall wire_param_ok ps ->
  Forall (fun p => in_u 8 (pt_Type (wp_type p))) ps ->
  (bound = false -> cached = map wp_type ps) ->
  DecodePreparedExecuteParametersWithOptions
    (mkExecute id fl it (parameter_block longData refs ps bound)) refs
    (mkDecodeOptions cached longData)
  = Ok (bound_values longData 0 refs ps, map wp_type ps).
Proof. apply DecodePreparedExecuteParameters_block. Qed.

Lemma execute_parameters_roundtrip_witness :
  let refs := replicate 3 (mkParameterRef 0 [] DataTypeInt true) in
  let ps := [mkWireParam (mkParameterType ColumnTypeShort false)
               (Some (le_bytes 2 (-7), ValueInt, GInt Tint64 (-7)));
             mkWireParam (mkParameterType ColumnTypeVarString false) None;
             mkWireParam (mkParameterType ColumnTypeBlob false)
               (Some (encodeLengthEncodedInteger 0, ValueString, GString []))] in
  DecodePreparedExecuteParametersWithOptions
    (mkExecute 1 (byte_of 0) 1 (parameter_block {[3 := str "chunk"]} refs ps true)) refs
    (mkDecodeOptions [] {[3 := str "chunk"]})
  = Ok ([IndexedParameterValue 1 ValueInt (GInt Tint64 (-7));
         IndexedParameterValue 2 ValueNull GNil;
         IndexedParameterValue 3 ValueString (GString (str "chunk"))], map wp_type ps).
Proof.
  intros refs ps. etrans; [apply (execute_parameters_roundtrip _ refs ps)|reflexivity]; try done.
  - constructor; [|constructor; [done|constructor; [|done]]].
    + apply (wv_signed ColumnTypeShort 2); [|by vm_compute]. right. left.
    + apply (wv_string ColumnTypeBlob false []); [|by vm_compute]. do 3 right. left.
  - repeat (constructor; [by vm_compute|]). constructor.
Defined.

(** No parameter payload makes the decoder panic, whatever the placeholders,
    the remembered types and the long data of the session are. *)
Theorem execute_parameters_no_panic execute refs options :
  DecodePreparedExecuteParametersWithOptions execute refs options <> Panic.
Proof. apply DecodePreparedExecuteParameters_safe. Qed.

(** [validateBinaryDateTime] accepts exactly the dates of the Gregorian
    calendar with a time of day: the comparison with the fields of the
    normalised [time.Date] rejects every day that its month does not have. *)
Theorem binary_datetime_validation y m d h mi s us : 0 <= h -> 0 <= mi -> 0 <= s -> 0 <= us ->
  validateBinaryDateTime y m d h mi s us = None <-> civil_valid y m d h mi s (us * 1000).
Proof. apply validateBinaryDateTime_spec. Qed.

Lemma binary_datetime_validation_witness :
  validateBinaryDateTime 2024 2 29 23 59 59 999999 = None <->
  civil_valid 2024 2 29 23 59 59 (999999 * 1000).
Proof. apply (binary_datetime_validation 2024 2 29 23 59 59 999999); lia. Defined.
