(* ===== verification/ResultSet.v ===== *)
(** * Text result sets and column metadata

    Column definitions, text rows, the packet sequence of a text result set and
    of COM_FIELD_LIST with its name patterns (qsmysql/resultset.go), over the
    protocol metadata of result columns (qsbridge/result_schema.go). *)

From S2P Require Import Prelude GoStd GoTime Value Wire Handshake Prepared.

Definition columnFlagNotNull : Z := 0x0001.
Definition nullTextValue : byte := byte_of 0xfb.
Definition eofPacketHeader : byte := byte_of 0xfe.

(** ** Results (qsbridge/query.go, qsbridge/result.go) *)

Record ResultColumn : Type := mkResultColumn {
  rc_Name : bytes; rc_Type : DataType; rc_Nullable : bool; rc_Source : bytes }.

Record ResultCell : Type := mkCell { cell_Kind : ValueKind; cell_Value : any }.

Abbreviation ResultRow := (list ResultCell).

Record ExecutionResult : Type := mkExecutionResult {
  er_Columns : list ResultColumn;
  er_Chunks : list (list ResultRow) }.

(** ** Protocol metadata (qsbridge/result_schema.go), for the MySQL profile *)

Inductive ProtocolColumnFlag : Type :=
  | ProtocolColumnNullable | ProtocolColumnDirectSource | ProtocolColumnDerived
  | ProtocolColumnBoolean | ProtocolColumnNumeric | ProtocolColumnString | ProtocolColumnTemporal.

Record ProtocolColumn : Type := mkProtocolColumn {
  pc_Name : bytes;
  pc_Source : bytes;
  pc_Nullable : bool;
  pc_LogicalType : DataType;
  pc_TypeName : bytes;
  pc_WireType : bytes;
  pc_Flags : list ProtocolColumnFlag }.

Definition mysqlProtocolTypeNames (dataType : DataType) : bytes * bytes :=
  match dataType with
  | DataTypeBool => (str "BOOL", str "MYSQL_TYPE_TINY")
  | DataTypeInt => (str "BIGINT", str "MYSQL_TYPE_LONGLONG")
  | DataTypeFloat => (str "DOUBLE", str "MYSQL_TYPE_DOUBLE")
  | DataTypeString => (str "VARCHAR", str "MYSQL_TYPE_VAR_STRING")
  | DataTypeTime => (str "DATETIME", str "MYSQL_TYPE_DATETIME")
  | _ => (str "TEXT", str "MYSQL_TYPE_STRING")
  end.

Definition protocolColumnFlags (column : ResultColumn) : list ProtocolColumnFlag :=
  (if rc_Nullable column then [ProtocolColumnNullable] else [])
  ++ (if decide (rc_Source column = []) then [ProtocolColumnDerived]
      else [ProtocolColumnDirectSource])
  ++ match rc_Type column with
     | DataTypeBool => [ProtocolColumnBoolean]
     | DataTypeInt | DataTypeFloat => [ProtocolColumnNumeric]
     | DataTypeString => [ProtocolColumnString]
     | DataTypeTime => [ProtocolColumnTemporal]
     | _ => []
     end.

Definition protocolColumn (c : ResultColumn) : ProtocolColumn :=
  let '(typeName, wireType) := mysqlProtocolTypeNames (rc_Type c) in
  mkProtocolColumn (rc_Name c) (rc_Source c) (rc_Nullable c) (rc_Type c) typeName wireType
    (protocolColumnFlags c).

Definition NewProtocolResultSchema (columns : list ResultColumn) : list ProtocolColumn :=
  map protocolColumn columns.

(** ** Column definitions *)

Record ColumnDefinition : Type := mkColumnDefinition {
  cd_Catalog : bytes;
  cd_Schema : bytes;
  cd_Table : bytes;
  cd_OriginalTable : bytes;
  cd_Name : bytes;
  cd_OriginalName : bytes;
  cd_CharacterSet : Z;
  cd_ColumnLength : Z;
  cd_Type : Z;
  cd_Flags : Z;
  cd_Decimals : Z }.

(** [strings.Split(s, ".")]: [acc] is the current part, reversed. *)
Fixpoint splitDot (s acc : bytes) : list bytes :=
  match s with
  | [] => [rev acc]
  | b :: s => if ub b =? 46 then rev acc :: splitDot s [] else splitDot s (b :: acc)
  end.

(** Schema, table and column of a source name: the last three parts. *)
Definition sourceParts (source : bytes) : bytes * bytes * bytes :=
  if decide (source = []) then ([], [], [])
  else
    match rev (splitDot source []) with
    | [c] => ([], [], c)
    | [c; t] => ([], t, c)
    | c :: t :: s :: _ => (s, t, c)
    | [] => ([], [], [])
    end.

Definition columnType (column : ProtocolColumn) : Z :=
  match pc_LogicalType column with
  | DataTypeBool => ColumnTypeTiny
  | DataTypeInt => ColumnTypeLongLong
  | DataTypeFloat => ColumnTypeDouble
  | DataTypeTime => ColumnTypeDateTime
  | DataTypeString => ColumnTypeVarString
  | _ =>
    let w := pc_WireType column in
    if decide (w = str "MYSQL_TYPE_TINY") then ColumnTypeTiny
    else if decide (w = str "MYSQL_TYPE_LONGLONG") then ColumnTypeLongLong
    else if decide (w = str "MYSQL_TYPE_DOUBLE") then ColumnTypeDouble
    else if decide (w = str "MYSQL_TYPE_DATETIME") then ColumnTypeDateTime
    else if decide (w = str "MYSQL_TYPE_VAR_STRING") then ColumnTypeVarString
    else ColumnTypeString
  end.

Definition columnLength (column : ProtocolColumn) : Z :=
  match pc_LogicalType column with
  | DataTypeBool => 1
  | DataTypeInt => 20
  | DataTypeFloat => 22
  | DataTypeTime => 19
  | DataTypeString => 1024
  | _ => 1024
  end.

Definition columnDecimals (column : ProtocolColumn) : Z :=
  if decide (pc_LogicalType column = DataTypeFloat) then 31 else 0.

(** [defaultSchema] is the [DefaultSchema] of the result-set options. *)
Definition NewColumnDefinitionWithOptions (column : ProtocolColumn) (defaultSchema : bytes)
    : ColumnDefinition :=
  let '(schema, table, originalName) := sourceParts (pc_Source column) in
  let schema :=
    if bool_decide (schema = []) && bool_decide (table <> []) then TrimSpace defaultSchema
    else schema in
  mkColumnDefinition (str "def") schema table table (pc_Name column)
    (if decide (originalName = []) then pc_Name column else originalName)
    CharacterSetUTF8MB4GeneralCI (columnLength column) (columnType column)
    (if pc_Nullable column then 0 else columnFlagNotNull) (columnDecimals column).

Definition NewColumnDefinition (column : ProtocolColumn) : ColumnDefinition :=
  NewColumnDefinitionWithOptions column [].

Definition ColumnDefinitionPayload (c : ColumnDefinition) : bytes :=
  let payload := appendLengthEncodedString [] (cd_Catalog c) in
  let payload := appendLengthEncodedString payload (cd_Schema c) in
  let payload := appendLengthEncodedString payload (cd_Table c) in
  let payload := appendLengthEncodedString payload (cd_OriginalTable c) in
  let payload := appendLengthEncodedString payload (cd_Name c) in
  let payload := appendLengthEncodedString payload (cd_OriginalName c) in
  let payload := payload ++ [byte_of 0x0c] in
  let payload := appendUint16LE payload (wrap_u 16 (cd_CharacterSet c)) in
  let payload := appendUint32LE payload (cd_ColumnLength c) in
  let payload := payload ++ [byte_of (cd_Type c)] in
  let payload := appendUint16LE payload (cd_Flags c) in
  let payload := payload ++ [byte_of (cd_Decimals c)] in
  payload ++ [byte_of 0; byte_of 0].

Definition FieldListPayload (c : ColumnDefinition) : bytes :=
  ColumnDefinitionPayload c ++ [nullTextValue].

Definition eofPayload (warnings : Z) : bytes :=
  appendUint16LE (appendUint16LE [eofPacketHeader] warnings) StatusAutocommit.

(** [sequence++] after every appended packet. *)
Fixpoint numberPackets (sequence : Z) (payloads : list bytes) : list Packet :=
  match payloads with
  | [] => []
  | p :: ps => mkPacket (byte_of sequence) p :: numberPackets (sequence + 1) ps
  end.

(** ** Text cells and rows *)

Section Text.

(** [fmt.Sprint(v)] and [strconv.FormatFloat(f, 'f', -1, bitSize)], the latter
    on the bits of a value of that size. *)
Variable Sprint : any -> bytes.
Variable FormatFloat : Z -> Z -> bytes.

Definition integerTextValue (value : any) : go bytes :=
  match value with
  | GInt t z => mret (if int_signed t then FormatInt z else FormatUint z)
  | _ => Err (Errorf "mysql text int cell has %T value" [AStr (typeName value)])
  end.

Definition floatTextValue (value : any) : go bytes :=
  match value with
  | GFloat32 bits => mret (FormatFloat bits 32)
  | GFloat64 bits => mret (FormatFloat bits 64)
  | _ => Err (Errorf "mysql text float cell has %T value" [AStr (typeName value)])
  end.

(** [t.Format("2006-01-02 15:04:05")], in the location of [t]. *)
Definition formatYear (year : Z) : bytes :=
  if year <? 0 then str "-" ++ pad0 4 (FormatUint (- year)) else pad0 4 (FormatUint year).

Definition formatDateTime (t : Time) : bytes :=
  formatYear (Year t) ++ str "-" ++ formatPadded 2 (Month t) ++ str "-" ++ formatPadded 2 (Day t)
  ++ str " " ++ formatPadded 2 (Hour t) ++ str ":" ++ formatPadded 2 (Minute t)
  ++ str ":" ++ formatPadded 2 (Second t).

Definition textCellValue (cell : ResultCell) : go bytes :=
  match cell_Kind cell with
  | ValueBool =>
    match cell_Value cell with
    | GBool true => mret (str "1")
    | GBool false => mret (str "0")
    | v => Err (Errorf "mysql text bool cell has %T value" [AStr (typeName v)])
    end
  | ValueInt => integerTextValue (cell_Value cell)
  | ValueFloat => floatTextValue (cell_Value cell)
  | ValueTime =>
    match cell_Value cell with
    | GTime t => mret (formatDateTime t)
    | v => mret (Sprint v)
    end
  | ValueString | ValueUnknown => mret (Sprint (cell_Value cell))
  | _ => mret (Sprint (cell_Value cell))
  end.

(** [cell.Kind == ValueNull || cell.Value == nil] *)
Definition nullCell (cell : ResultCell) : bool :=
  bool_decide (cell_Kind cell = ValueNull) || is_nil (cell_Value cell).

Fixpoint appendTextCells (payload : bytes) (row : ResultRow) : go bytes :=
  match row with
  | [] => mret payload
  | cell :: row =>
    if nullCell cell then appendTextCells (payload ++ [nullTextValue]) row
    else
      value ← textCellValue cell;
      appendTextCells (appendLengthEncodedString payload value) row
  end.

Definition textRowPayload (row : ResultRow) (columnCount : Z) : go bytes :=
  if negb (zlen row =? columnCount)
  then Err (Errorf "mysql text row has %d cells for %d columns"
              [AInt (zlen row); AInt columnCount])
  else appendTextCells [] row.

(** ** The packets of a text result set *)

Fixpoint rowPayloads (encode : ResultRow -> go bytes) (rows : list ResultRow) : go (list bytes) :=
  match rows with
  | [] => mret []
  | row :: rows =>
    payload ← encode row; payloads ← rowPayloads encode rows; mret (payload :: payloads)
  end.

Definition columnPayloads (columns : list ProtocolColumn) (defaultSchema : bytes) : list bytes :=
  map (fun c => ColumnDefinitionPayload (NewColumnDefinitionWithOptions c defaultSchema)) columns.

Definition TextResultSetPacketsWithOptions (result : ExecutionResult) (defaultSchema : bytes)
    : go (list Packet) :=
  if zlen (er_Columns result) =? 0
  then Err (Errorf "mysql text resultset requires at least one column" [])
  else
    let schema := NewProtocolResultSchema (er_Columns result) in
    rows ← rowPayloads (fun row => textRowPayload row (zlen schema)) (concat (er_Chunks result));
    mret (numberPackets 1
      ([encodeLengthEncodedInteger (zlen schema)] ++ columnPayloads schema defaultSchema
       ++ [eofPayload 0] ++ rows ++ [eofPayload 0])).

End Text.

(** ** COM_FIELD_LIST *)

(** The matcher on runes; [pattern] and [value] are the rests from the
    positions [p] and [v] of the source.  The loop of a ['%'] tries every rest
    of the value, the longest first. *)
Definition seqWildcard (r : Z) : bool := (r =? 37) || (r =? 42).
Definition oneWildcard (r : Z) : bool := (r =? 95) || (r =? 63).

Fixpoint fieldListPatternMatchRunes (pattern value : list Z) {struct pattern} : bool :=
  match pattern with
  | [] => match value with [] => true | _ => false end
  | r :: pattern =>
    if seqWildcard r then
      (fix tryFrom (value : list Z) : bool :=
         fieldListPatternMatchRunes pattern value
         || match value with [] => false | _ :: value => tryFrom value end) value
    else if oneWildcard r then
      match value with [] => false | _ :: value => fieldListPatternMatchRunes pattern value end
    else
      match value with
      | [] => false
      | x :: value => (r =? x) && fieldListPatternMatchRunes pattern value
      end
  end.

Section FieldList.

(** [[]rune(strings.ToLower(s))] *)
Variable lowerRunes : bytes -> list Z.

Definition fieldListPatternMatches (pattern value : bytes) : bool :=
  let pattern := TrimSpace pattern in
  if bool_decide (pattern = []) || bool_decide (pattern = str "%") || bool_decide (pattern = str "*")
  then true
  else fieldListPatternMatchRunes (lowerRunes pattern) (lowerRunes value).

Definition FieldListPacketsWithOptions (result : ExecutionResult) (defaultSchema pattern : bytes)
    : go (list Packet) :=
  if zlen (er_Columns result) =? 0
  then Err (Errorf "mysql field list requires at least one column" [])
  else
    let schema := NewProtocolResultSchema (er_Columns result) in
    let matching := List.filter (fun c => fieldListPatternMatches pattern (pc_Name c)) schema in
    mret (numberPackets 1
      (map (fun c => FieldListPayload (NewColumnDefinitionWithOptions c defaultSchema)) matching
       ++ [eofPayload 0])).

End FieldList.

(** ** The client's side *)

(** Reading length-encoded fields from a message, one after the other. *)
Definition readStringField (data : bytes) (o : Z) : go (bytes * Z) :=
  '(s, next, ok) ← readLengthEncodedBytes data o;
  if negb ok then Err (Errorf "truncated field" []) else mret (s, next).

(** The fixed-length fields at the end of a column definition: character set,
    length, type, flags and decimals. *)
Definition clientReadFixed (p : bytes) (o : Z) : go (Z * Z * Z * Z * Z) :=
  n ← index p o;
  if negb (ub n =? 12) then Err (Errorf "fixed fields" [])
  else
    s ← slice p (o + 1) (o + 3); charset ← readUint16LE s;
    s ← slice p (o + 3) (o + 7); length ← readUint32LE s;
    type ← index p (o + 7);
    s ← slice p (o + 8) (o + 10); flags ← readUint16LE s;
    decimals ← index p (o + 10);
    mret (charset, length, ub type, flags, ub decimals).

Definition clientReadColumn (p : bytes) : go ColumnDefinition :=
  '(catalog, o) ← readStringField p 0;
  '(schema, o) ← readStringField p o;
  '(table, o) ← readStringField p o;
  '(orgTable, o) ← readStringField p o;
  '(name, o) ← readStringField p o;
  '(orgName, o) ← readStringField p o;
  '(charset, length, type, flags, decimals) ← clientReadFixed p o;
  mret (mkColumnDefinition catalog schema table orgTable name orgName charset length type flags
          decimals).

(** A text row of [n] columns: [None] for NULL. *)
Fixpoint clientReadTextRow (p : bytes) (o : Z) (n : nat) : go (list (option bytes)) :=
  match n with
  | O => if o =? zlen p then mret [] else Err (Errorf "trailing bytes" [])
  | S n =>
    b ← index p o;
    if ub b =? 0xfb then rest ← clientReadTextRow p (o + 1) n; mret (None :: rest)
    else '(s, o) ← readStringField p o; rest ← clientReadTextRow p o n; mret (Some s :: rest)
  end.

(** An EOF packet is a short packet with the EOF header. *)
Definition isEOFPayload (p : bytes) : bool :=
  match p with b :: _ => (ub b =? 0xfe) && (zlen p <? 9) | [] => false end.

(** The payloads up to the EOF packet and those after it. *)
Fixpoint untilEOF (ps : list bytes) : go (list bytes * list bytes) :=
  match ps with
  | [] => Err (Errorf "missing EOF" [])
  | p :: ps =>
    if isEOFPayload p then mret ([], ps)
    else '(before, after) ← untilEOF ps; mret (p :: before, after)
  end.

(** The payloads of packets numbered consecutively from [sequence]. *)
Fixpoint clientPayloads (sequence : Z) (ps : list Packet) : go (list bytes) :=
  match ps with
  | [] => mret []
  | p :: ps =>
    if decide (SequenceID p = byte_of sequence)
    then rest ← clientPayloads (sequence + 1) ps; mret (Payload p :: rest)
    else Err (Errorf "packets out of order" [])
  end.

Definition clientReadTextResult (ps : list Packet)
    : go (list ColumnDefinition * list (list (option bytes))) :=
  payloads ← clientPayloads 1 ps;
  match payloads with
  | [] => Err (Errorf "missing column count" [])
  | first :: rest =>
    '(n, _, ok) ← readLengthEncodedInteger first 0;
    if negb ok then Err (Errorf "column count" [])
    else
      '(cols, rest) ← untilEOF rest;
      '(rows, _) ← untilEOF rest;
      columns ← mapM clientReadColumn cols;
      cells ← mapM (fun r => clientReadTextRow r 0 (Z.to_nat n)) rows;
      mret (columns, cells)
  end.

(** ** Lemmas: fields of a message *)

(** A string short enough for its length to be written in 64 bits. *)
Definition fits (s : bytes) : Prop := zlen s < 2 ^ 64.

Lemma fits_in_u s : fits s -> in_u 64 (zlen s).
Proof. unfold fits, in_u. pose proof (zlen_nonneg s). lia. Qed.

Definition lenenc (s : bytes) : bytes := encodeLengthEncodedInteger (zlen s) ++ s.

Lemma appendLengthEncodedString_lenenc out s : appendLengthEncodedString out s = out ++ lenenc s.
Proof. apply appendLengthEncodedString_app. Qed.

Lemma readStringField_at data pre s rest o : data = pre ++ lenenc s ++ rest -> o = zlen pre ->
  fits s -> readStringField data o = Ok (s, o + zlen (lenenc s)).
Proof.
  intros -> -> Hs. unfold readStringField, lenenc.
  rewrite readLengthEncodedBytes_encoded by (by apply fits_in_u).
  cbn. do 2 f_equal. zlen_simpl.
Qed.

(** The first byte of a length prefix is never the NULL marker, and it is the
    EOF header only in front of a long string. *)
Lemma lenenc_first s : fits s ->
  exists b l, lenenc s = b :: l /\ ub b <> 0xfb /\ (ub b = 0xfe -> 9 <= zlen (lenenc s)).
Proof.
  intros Hs. unfold lenenc. rewrite encodeLengthEncodedInteger_le. pose proof (zlen_nonneg s).
  repeat case_if; do 2 eexists; (split; [reflexivity|]).
  - rewrite ub_byte_of, Z.mod_small by lia. lia.
  - by split; vm_compute.
  - by split; vm_compute.
  - split; [by vm_compute|]. intros _. autorewrite with zlen. lia.
Qed.

(** ** Lemmas: packet numbers *)

Lemma clientPayloads_numbered ps : forall s, clientPayloads s (numberPackets s ps) = Ok ps.
Proof.
  induction ps as [|p ps IH]; intros s; cbn [numberPackets clientPayloads]; [done|].
  rewrite decide_True by done. by rewrite IH.
Qed.

(** ** Lemmas: column definitions *)

Record column_wf (c : ColumnDefinition) : Prop := {
  cw_strings : Forall fits [cd_Catalog c; cd_Schema c; cd_Table c; cd_OriginalTable c; cd_Name c;
                            cd_OriginalName c];
  cw_charset : in_u 16 (cd_CharacterSet c);
  cw_length : in_u 32 (cd_ColumnLength c);
  cw_type : in_u 8 (cd_Type c);
  cw_flags : in_u 16 (cd_Flags c);
  cw_decimals : in_u 8 (cd_Decimals c) }.

Definition fixedFields (c : ColumnDefinition) : bytes :=
  byte_of 12 :: le_bytes 2 (cd_CharacterSet c) ++ le_bytes 4 (cd_ColumnLength c)
  ++ byte_of (cd_Type c) :: le_bytes 2 (cd_Flags c) ++ [byte_of (cd_Decimals c); byte_of 0; byte_of 0].

Lemma ColumnDefinitionPayload_app c : in_u 16 (cd_CharacterSet c) ->
  ColumnDefinitionPayload c = lenenc (cd_Catalog c) ++ lenenc (cd_Schema c) ++ lenenc (cd_Table c)
    ++ lenenc (cd_OriginalTable c) ++ lenenc (cd_Name c) ++ lenenc (cd_OriginalName c)
    ++ fixedFields c.
Proof.
  intros H. unfold ColumnDefinitionPayload, fixedFields.
  rewrite !appendLengthEncodedString_lenenc, !appendUint16LE_le, appendUint32LE_le, wrap_u_small by done.
  cbn [app]. by rewrite <- !app_assoc.
Qed.

Lemma clientReadFixed_roundtrip p pre c rest o : column_wf c ->
  p = pre ++ fixedFields c ++ rest -> o = zlen pre ->
  clientReadFixed p o
  = Ok (cd_CharacterSet c, cd_ColumnLength c, cd_Type c, cd_Flags c, cd_Decimals c).
Proof.
  intros [_ Hcs Hl Ht Hf Hd] Hp ->. pose proof (zlen_nonneg pre). unfold clientReadFixed.
  set (ff := fixedFields c) in *. rewrite <- (Z.add_0_r (zlen pre)) at 1.
  rewrite Hp, !index_app_r, !slice_app_r by lia.
  change (index (ff ++ rest) 0) with (Ok (byte_of 12)).
  rewrite (slice_at (ff ++ rest) [byte_of 12] (le_bytes 2 (cd_CharacterSet c))
    (drop 3 ff ++ rest) 1 3) by done.
  rewrite (slice_at (ff ++ rest) (take 3 ff) (le_bytes 4 (cd_ColumnLength c))
    (drop 7 ff ++ rest) 3 7) by done.
  change (index (ff ++ rest) 7) with (Ok (byte_of (cd_Type c))).
  rewrite (slice_at (ff ++ rest) (take 8 ff) (le_bytes 2 (cd_Flags c)) (drop 10 ff ++ rest) 8 10)
    by done.
  change (index (ff ++ rest) 10) with (Ok (byte_of (cd_Decimals c))).
  cbn [mbind go_bind]. change (negb (ub (byte_of 12) =? 12)) with false. cbv iota.
  rewrite readUint16LE_le by done. cbn [mbind go_bind].
  rewrite readUint32LE_le by done. cbn [mbind go_bind].
  rewrite readUint16LE_le by done. cbn [mbind go_bind].
  unfold in_u in *. by rewrite !ub_byte_of, !Z.mod_small by lia.
Qed.

Lemma clientReadColumn_roundtrip c rest : column_wf c ->
  clientReadColumn (ColumnDefinitionPayload c ++ rest) = Ok c.
Proof.
  intros W. pose proof (cw_strings c W) as Hs. rewrite !Forall_cons in Hs.
  destruct Hs as (H1 & H2 & H3 & H4 & H5 & H6 & _).
  rewrite ColumnDefinitionPayload_app by apply W. destruct c as [c1 c2 c3 c4 c5 c6 cs cl ct cf cdc].
  cbn [cd_Catalog cd_Schema cd_Table cd_OriginalTable cd_Name cd_OriginalName] in *.
  set (ff := fixedFields _). rewrite <- !app_assoc. set (p := lenenc c1 ++ _).
  unfold clientReadColumn.
  rewrite (readStringField_at p [] c1 (lenenc c2 ++ lenenc c3 ++ lenenc c4 ++ lenenc c5
    ++ lenenc c6 ++ ff ++ rest) 0) by done. cbn [mbind go_bind].
  rewrite (readStringField_at p (lenenc c1) c2 (lenenc c3 ++ lenenc c4 ++ lenenc c5
    ++ lenenc c6 ++ ff ++ rest)) by done. cbn [mbind go_bind].
  rewrite (readStringField_at p (lenenc c1 ++ lenenc c2) c3 (lenenc c4 ++ lenenc c5
    ++ lenenc c6 ++ ff ++ rest)); [|by rewrite <- !app_assoc|zlen_simpl|done]. cbn [mbind go_bind].
  rewrite (readStringField_at p (lenenc c1 ++ lenenc c2 ++ lenenc c3) c4 (lenenc c5
    ++ lenenc c6 ++ ff ++ rest)); [|by rewrite <- !app_assoc|zlen_simpl|done]. cbn [mbind go_bind].
  rewrite (readStringField_at p (lenenc c1 ++ lenenc c2 ++ lenenc c3 ++ lenenc c4) c5
    (lenenc c6 ++ ff ++ rest)); [|by rewrite <- !app_assoc|zlen_simpl|done]. cbn [mbind go_bind].
  rewrite (readStringField_at p (lenenc c1 ++ lenenc c2 ++ lenenc c3 ++ lenenc c4 ++ lenenc c5) c6
    (ff ++ rest)); [|by rewrite <- !app_assoc|zlen_simpl|done]. cbn [mbind go_bind].
  rewrite (clientReadFixed_roundtrip p (lenenc c1 ++ lenenc c2 ++ lenenc c3 ++ lenenc c4
    ++ lenenc c5 ++ lenenc c6) _ rest _ W); [done|unfold p; by rewrite <- !app_assoc|zlen_simpl].
Qed.

Lemma splitDot_length s acc part : part ∈ splitDot s acc -> zlen part <= zlen s + zlen acc.
Proof.
  revert acc. induction s as [|b s IH]; intros acc; cbn [splitDot].
  - intros ->%list_elem_of_singleton. rewrite zlen_rev. autorewrite with zlen. lia.
  - pose proof (zlen_nonneg s). pose proof (zlen_nonneg acc). case_if.
    + intros [->|H1]%elem_of_cons; [rewrite zlen_rev, zlen_cons; lia|].
      apply IH in H1. autorewrite with zlen in *. lia.
    + intros H1%IH. autorewrite with zlen in *. lia.
Qed.

Lemma sourceParts_length source s t c : sourceParts source = (s, t, c) ->
  zlen s <= zlen source /\ zlen t <= zlen source /\ zlen c <= zlen source.
Proof.
  assert (P : forall part, part ∈ rev (splitDot source []) -> zlen part <= zlen source).
  { intros part H1. apply list_elem_of_In, in_rev, list_elem_of_In in H1.
    apply splitDot_length in H1. autorewrite with zlen in H1. lia. }
  pose proof (zlen_nonneg source). change (zlen (@nil byte)) with 0 in *.
  unfold sourceParts. case_decide; [intros [= <- <- <-]; done|].
  destruct (rev (splitDot source [])) as [|c0 [|t0 [|s0 l]]]; intros [= <- <- <-];
    repeat split; try (change (zlen (@nil byte)) with 0; lia); apply P; set_solver.
Qed.

(** Names short enough for the column definitions of a result. *)
Definition column_fits (defaultSchema : bytes) (c : ResultColumn) : Prop :=
  fits (rc_Name c) /\ fits (rc_Source c) /\ fits defaultSchema.

Lemma NewColumnDefinition_wf ds c : column_fits ds c ->
  column_wf (NewColumnDefinitionWithOptions (protocolColumn c) ds).
Proof.
  intros (Hn & Hs & Hd). unfold NewColumnDefinitionWithOptions, protocolColumn, fits in *.
  destruct (mysqlProtocolTypeNames (rc_Type c)) as [tn wt].
  cbn [pc_Source pc_Name pc_Nullable].
  destruct (sourceParts (rc_Source c)) as [[s t] o] eqn:E. apply sourceParts_length in E.
  pose proof (TrimSpace_length ds). constructor; cbn [cd_Catalog cd_Schema cd_Table
    cd_OriginalTable cd_Name cd_OriginalName cd_CharacterSet cd_ColumnLength cd_Type cd_Flags
    cd_Decimals].
  - rewrite !Forall_cons. unfold fits. change (zlen (str "def")) with 3.
    split; [lia|]. split; [case_if; lia|]. split; [lia|]. split; [lia|]. split; [lia|].
    split; [case_decide; lia|apply Forall_nil_2].
  - by vm_compute.
  - unfold columnLength, in_u. destruct (pc_LogicalType _); lia.
  - unfold columnType. cbn [pc_LogicalType]. destruct (rc_Type c);
      repeat case_decide; by vm_compute.
  - destruct (rc_Nullable c); by vm_compute.
  - unfold columnDecimals, in_u. case_decide; lia.
Qed.

(** A column definition is never taken for an EOF packet: it starts with the
    length of ["def"]. *)
Lemma NewColumnDefinition_not_EOF ds c :
  isEOFPayload (ColumnDefinitionPayload (NewColumnDefinitionWithOptions (protocolColumn c) ds))
  = false.
Proof.
  rewrite ColumnDefinitionPayload_app.
  - unfold NewColumnDefinitionWithOptions. destruct (sourceParts _) as [[s t] o].
    reflexivity.
  - unfold NewColumnDefinitionWithOptions. destruct (sourceParts _) as [[s t] o]. by vm_compute.
Qed.

(** ** Lemmas: text rows *)

Section TextLemmas.

Variable Sprint : any -> bytes.
Variable FormatFloat : Z -> Z -> bytes.

(** The texts of a row: [None] for NULL. *)
Definition textCell (cell : ResultCell) : go (option bytes) :=
  if nullCell cell then mret None else Some <$> textCellValue Sprint FormatFloat cell.

Definition cell_fits (c : option bytes) : Prop := match c with Some s => fits s | None => True end.

(** The encoding of one text cell. *)
Definition textField (c : option bytes) : bytes :=
  match c with None => [nullTextValue] | Some s => lenenc s end.

Lemma appendTextCells_ok row : forall cells payload, mapM textCell row = Ok cells ->
  appendTextCells Sprint FormatFloat payload row = Ok (payload ++ flat_map textField cells).
Proof.
  induction row as [|cell row IH]; intros cells payload; cbn [mapM appendTextCells].
  - intros [= <-]. by rewrite app_nil_r.
  - intros (c & Hc & (cs & Hcs & [= <-])%bind_ok)%bind_ok.
    unfold textCell in Hc. cbn [flat_map]. rewrite app_assoc.
    destruct (nullCell cell).
    + injection Hc as <-. by apply IH.
    + destruct (textCellValue Sprint FormatFloat cell) as [v|e|]; [|done..].
      injection Hc as <-. cbn [mbind go_bind]. rewrite appendLengthEncodedString_lenenc.
      by apply IH.
Qed.

Lemma clientReadTextRow_ok cells : forall data pre o, Forall cell_fits cells ->
  data = pre ++ flat_map textField cells -> o = zlen pre ->
  clientReadTextRow data o (length cells) = Ok cells.
Proof.
  induction cells as [|c cells IH]; intros data pre o Hf Hd Ho;
    cbn [flat_map length clientReadTextRow] in *.
  - rewrite app_nil_r in Hd. subst. by rewrite Z.eqb_refl.
  - apply Forall_cons in Hf as [Hc Hf]. destruct c as [s|]; cbn [textField cell_fits] in *.
    + destruct (lenenc_first s Hc) as (b & l & El & Hb & _).
      rewrite (index_at data pre b (l ++ flat_map textField cells));
        [|by rewrite Hd, El|done]. cbn [mbind go_bind]. if_false.
      rewrite (readStringField_at data pre s (flat_map textField cells)) by done.
      cbn [mbind go_bind]. rewrite (IH data (pre ++ lenenc s)); [done|done|..].
      * by rewrite Hd, <- app_assoc.
      * rewrite zlen_app. lia.
    + rewrite (index_at data pre nullTextValue (flat_map textField cells) o) by done.
      cbn [mbind go_bind]. change (ub nullTextValue =? 0xfb) with true. cbv iota.
      rewrite (IH data (pre ++ [nullTextValue])); [done|done|..].
      * by rewrite Hd, <- app_assoc.
      * rewrite zlen_app, zlen_cons. change (zlen (@nil byte)) with 0. lia.
Qed.

Lemma textRow_not_EOF c cells : cell_fits c ->
  isEOFPayload (flat_map textField (c :: cells)) = false.
Proof.
  intros Hc. cbn [flat_map]. destruct c as [s|]; [|done]. cbn [textField cell_fits] in *.
  destruct (lenenc_first s Hc) as (b & l & El & _ & H9). rewrite El in *. cbn [app isEOFPayload].
  destruct (Z.eqb_spec (ub b) 0xfe) as [Eb|]; [|done]. specialize (H9 Eb).
  pose proof (zlen_nonneg (flat_map textField cells)).
  rewrite app_comm_cons, zlen_app. lia.
Qed.

Lemma untilEOF_app ps eof rest : Forall (fun p => isEOFPayload p = false) ps ->
  isEOFPayload eof = true -> untilEOF (ps ++ eof :: rest) = Ok (ps, rest).
Proof.
  intros H He. induction H as [|p ps Hp Hps IH]; cbn [app untilEOF].
  - by rewrite He.
  - by rewrite Hp, IH.
Qed.

Lemma mapM_ok {A B} (f : A -> go B) l r :
  Forall2 (fun x y => f x = Ok y) l r -> mapM f l = Ok r.
Proof. induction 1 as [|x y l r Hf Hl IH]; [done|]. cbn [mapM]. by rewrite Hf, IH. Qed.

Lemma rowPayloads_ok encode rows ps :
  Forall2 (fun row p => encode row = Ok p) rows ps -> rowPayloads encode rows = Ok ps.
Proof. induction 1 as [|x y l r Hf Hl IH]; [done|]. cbn [rowPayloads]. by rewrite Hf, IH. Qed.

(** A row with the texts [cells], one per column of a result with [n] columns. *)
Definition text_row (n : nat) (row : ResultRow) (cells : list (option bytes)) : Prop :=
  length row = n /\ mapM textCell row = Ok cells /\ Forall cell_fits cells.

Lemma mapM_length {A B} (f : A -> go B) l : forall r, mapM f l = Ok r -> length r = length l.
Proof.
  induction l as [|x l IH]; intros r; cbn [mapM]; [by intros [= <-]|].
  intros (y & _ & (ys & Hys & [= <-])%bind_ok)%bind_ok. cbn. by rewrite (IH ys Hys).
Qed.

Lemma text_row_payload n row cells : text_row n row cells -> (0 < n)%nat ->
  textRowPayload Sprint FormatFloat row (Z.of_nat n) = Ok (flat_map textField cells) /\
  isEOFPayload (flat_map textField cells) = false /\
  clientReadTextRow (flat_map textField cells) 0 n = Ok cells.
Proof.
  intros (Hn & Hc & Hf) Hpos. pose proof (mapM_length _ _ _ Hc) as Hl. split; [|split].
  - unfold textRowPayload, zlen. rewrite Hn, Z.eqb_refl. cbn [negb].
    by rewrite (appendTextCells_ok row cells []).
  - destruct cells as [|c cells]; [simpl in Hl; lia|]. apply Forall_cons in Hf as [Hc1 _].
    by apply textRow_not_EOF.
  - rewrite <- Hn, <- Hl. by apply (clientReadTextRow_ok cells _ []).
Qed.

Lemma TextResultSet_read result ds cells :
  er_Columns result <> [] -> zlen (er_Columns result) < 2 ^ 64 ->
  Forall (column_fits ds) (er_Columns result) ->
  Forall2 (text_row (length (er_Columns result))) (concat (er_Chunks result)) cells ->
  exists packets, TextResultSetPacketsWithOptions Sprint FormatFloat result ds = Ok packets /\
    clientReadTextResult packets
    = Ok (map (fun c => NewColumnDefinitionWithOptions (protocolColumn c) ds) (er_Columns result),
          cells).
Proof.
  intros Hne Hsz Hcols Hrows. unfold TextResultSetPacketsWithOptions.
  set (cols := er_Columns result) in *. set (n := length cols) in *.
  assert (Hn : (0 < n)%nat) by (unfold n; destruct cols; [done|simpl; lia]).
  assert (Hzs : zlen (NewProtocolResultSchema cols) = Z.of_nat n)
    by (unfold NewProtocolResultSchema, zlen; by rewrite length_map).
  rewrite (proj2 (Z.eqb_neq (zlen cols) 0)) by (unfold zlen; lia). rewrite Hzs.
  rewrite (rowPayloads_ok _ _ (map (flat_map textField) cells));
    [|rewrite <- (map_id (concat _)); apply Forall2_fmap_2; eapply Forall2_impl; [exact Hrows|];
      intros row cs H; by apply text_row_payload].
  eexists. split; [done|]. unfold clientReadTextResult.
  rewrite clientPayloads_numbered. cbn [mbind go_bind app].
  pose proof (readLengthEncodedInteger_encoded [] (Z.of_nat n) []) as E.
  cbn [app] in E. rewrite app_nil_r in E. change (zlen (@nil byte)) with 0 in E.
  rewrite E by (unfold in_u, zlen in *; lia). cbn [mbind go_bind negb].
  rewrite untilEOF_app; [|..|done].
  2:{ unfold columnPayloads, NewProtocolResultSchema. rewrite map_map. apply Forall_map, Forall_true.
      intros c. apply NewColumnDefinition_not_EOF. }
  cbn [mbind go_bind]. rewrite untilEOF_app; [|..|done].
  2:{ apply Forall_map. clear -Hrows Hn. induction Hrows as [|row cs rs css Hr Hrs IH];
      constructor; [|done]. by eapply text_row_payload. }
  cbn [mbind go_bind].
  rewrite (mapM_ok clientReadColumn _
    (map (fun c => NewColumnDefinitionWithOptions (protocolColumn c) ds) cols)).
  2:{ unfold columnPayloads, NewProtocolResultSchema. rewrite map_map. apply Forall2_fmap_2.
      clear -Hcols. induction Hcols as [|c cs Hc Hcs IH]; constructor; [|done].
      rewrite <- (app_nil_r (ColumnDefinitionPayload _)).
      by apply clientReadColumn_roundtrip, NewColumnDefinition_wf. }
  cbn [mbind go_bind]. rewrite Nat2Z.id, (mapM_ok _ _ cells); [done|].
  clear -Hrows Hn. induction Hrows as [|row cs rs css Hr Hrs IH]; constructor; [|done].
  by eapply text_row_payload.
Qed.

End TextLemmas.

(** ** Lemmas: name patterns *)

(** What a pattern means: ['%'] and ['*'] stand for any run of characters, ['_']
    and ['?'] for any one, every other character for itself. *)
Inductive like : list Z -> list Z -> Prop :=
  | like_nil : like [] []
  | like_seq r pattern skipped value : seqWildcard r = true ->
      like pattern value -> like (r :: pattern) (skipped ++ value)
  | like_one r pattern x value : oneWildcard r = true ->
      like pattern value -> like (r :: pattern) (x :: value)
  | like_char r pattern value : seqWildcard r = false -> oneWildcard r = false ->
      like pattern value -> like (r :: pattern) (r :: value).

(** The loop of a ['%'] as a function of its own. *)
Definition tryFrom (pattern : list Z) : list Z -> bool :=
  fix loop value :=
    fieldListPatternMatchRunes pattern value
    || match value with [] => false | _ :: value => loop value end.

Lemma tryFrom_spec pattern value : tryFrom pattern value = true <->
  exists skipped rest, value = skipped ++ rest /\ fieldListPatternMatchRunes pattern rest = true.
Proof.
  induction value as [|x value IH]; cbn [tryFrom]; rewrite orb_true_iff.
  - split.
    + intros [H|H]; [|done]. by exists [], [].
    + intros (sk & rest & E & H). symmetry in E. apply app_nil in E as [-> ->]. by left.
  - fold (tryFrom pattern). rewrite IH. split.
    + intros [H|(sk & rest & -> & H)]; [by exists [], (x :: value)|by exists (x :: sk), rest].
    + intros ([|y sk] & rest & E & H); simpl in E; subst; [by left|].
      injection E as -> ->. right. by exists sk, rest.
Qed.

Lemma fieldListPatternMatchRunes_like pattern : forall value,
  fieldListPatternMatchRunes pattern value = true <-> like pattern value.
Proof.
  induction pattern as [|r pattern IH]; intros value; cbn [fieldListPatternMatchRunes].
  { destruct value; split; intros H; try done; [constructor|inversion H]. }
  destruct (seqWildcard r) eqn:Es; [|destruct (oneWildcard r) eqn:Eo].
  - fold (tryFrom pattern). rewrite tryFrom_spec. setoid_rewrite IH. split.
    + intros (sk & rest & -> & H). by constructor.
    + intros H. inversion H; subst; try congruence; [by do 2 eexists|].
      unfold seqWildcard, oneWildcard in *. lia.
  - destruct value as [|x value]; [split; [done|intros H; inversion H; congruence]|].
    rewrite IH. split; [by constructor|]. intros H. inversion H; subst; congruence.
  - destruct value as [|x value]; [split; [done|intros H; inversion H; congruence]|].
    rewrite andb_true_iff, Z.eqb_eq, IH. split; [intros [-> H]; by constructor|].
    intros H. inversion H; subst; try congruence. done.
Qed.

(** ** The properties of the component *)

(** C22. A client that reads the packets of a text result set recovers the result:
    one column definition per column, and for every row the texts of its cells
    with NULL kept apart from every text.  The packets carry consecutive
    sequence ids modulo 256, and no column or row is taken for the EOF packet
    that ends its list, however long its first value is. *)
Theorem text_resultset_roundtrip Sprint FormatFloat result ds cells :
  er_Columns result <> [] -> zlen (er_Columns result) < 2 ^ 64 ->
  Forall (column_fits ds) (er_Columns result) ->
  Forall2 (text_row Sprint FormatFloat (length (er_Columns result)))
    (concat (er_Chunks result)) cells ->
  exists packets, TextResultSetPacketsWithOptions Sprint FormatFloat result ds = Ok packets /\
    clientReadTextResult packets
    = Ok (map (fun c => NewColumnDefinitionWithOptions (protocolColumn c) ds) (er_Columns result),
          cells).
Proof. apply TextResultSet_read. Qed.

Lemma text_resultset_roundtrip_witness :
  let Sprint := fun v => match v with GString s => s | _ => [] end in
  let FormatFloat := fun _ _ : Z => str "0.5" in
  let cols := [mkResultColumn (str "id") DataTypeInt false (str "shop.orders.id");
               mkResultColumn (str "note") DataTypeString true []] in
  let rows := [[mkCell ValueInt (GInt Tint64 (-12)); mkCell ValueString (GString (str "hello"))];
               [mkCell ValueInt (GInt Tint64 7); mkCell ValueNull GNil]] in
  exists packets,
    TextResultSetPacketsWithOptions Sprint FormatFloat (mkExecutionResult cols [rows]) [] = Ok packets
    /\ clientReadTextResult packets
       = Ok (map (fun c => NewColumnDefinitionWithOptions (protocolColumn c) []) cols,
             [[Some (str "-12"); Some (str "hello")]; [Some (str "7"); None]]).
Proof.
  intros Sprint FormatFloat cols rows.
  apply (text_resultset_roundtrip Sprint FormatFloat (mkExecutionResult cols [rows]) []);
    [done|by vm_compute|..].
  - constructor; [|constructor; [|constructor]]; repeat split; by vm_compute.
  - constructor; [|constructor; [|constructor]]; (split; [done|]); (split; [reflexivity|]);
      repeat (constructor; [by vm_compute|]); constructor.
Defined.

(** The recursive matcher of COM_FIELD_LIST decides exactly the wildcard
    patterns: ['%'] and ['*'] any run of characters, ['_'] and ['?'] any single
    one, all others themselves, against the whole name. *)
Theorem field_list_pattern_semantics pattern value :
  fieldListPatternMatchRunes pattern value = true <-> like pattern value.
Proof. apply fieldListPatternMatchRunes_like. Qed.
