(* ===== verification/BinaryResult.v ===== *)
(** * Binary result sets

    The rows of a prepared statement's result (qsmysql/binary_resultset.go):
    null bitmap, typed cells, and the packets of the result. *)

From S2P Require Import Prelude GoStd GoTime Value Wire Handshake Prepared ResultSet.

(** ** Cell conversions *)

Definition boolCellValue (cell : ResultCell) : option bool :=
  match cell_Value cell with
  | GBool b => Some b
  | GInt _ z => Some (negb (z =? 0))
  | _ => None
  end.

(** [int64(value)] wraps an unsigned value of 64 bits. *)
Definition int64CellValue (cell : ResultCell) : option Z :=
  match cell_Value cell with
  | GInt t z => Some (if int_signed t then z else wrap_s 64 z)
  | _ => None
  end.

(** The bits of the float64; unsigned integers are refused. *)
Definition float64CellValue (cell : ResultCell) : option Z :=
  match cell_Value cell with
  | GFloat32 bits => Some (float64_of_float32 bits)
  | GFloat64 bits => Some bits
  | GInt t z => if int_signed t then Some (float64_of_int z) else None
  | _ => None
  end.

Definition timeCellValue (cell : ResultCell) : option Time :=
  match cell_Value cell with GTime t => Some t | _ => None end.

Definition appendBinaryDateTime (out : bytes) (value : Time) : bytes :=
  if IsZero value then out ++ [byte_of 0]
  else
    let value := UTC value in
    let out := out ++ [byte_of 7] in
    let out := appendUint16LE out (wrap_u 16 (Year value)) in
    out ++ [byte_of (Month value); byte_of (Day value); byte_of (Hour value);
            byte_of (Minute value); byte_of (Second value)].

(** ** Rows *)

Definition setBinaryResultNullBit (bitmap : bytes) (column : Z) : go bytes :=
  let bit := column + 2 in
  b ← index bitmap (bit / 8);
  mret (<[Z.to_nat (bit / 8) := byte_of (Z.lor (ub b) (Z.shiftl 1 (bit mod 8)))]> bitmap).

Section Binary.

(** [fmt.Sprint(v)] *)
Variable Sprint : any -> bytes.

Definition cannotEncode (cell : ResultCell) (column : ProtocolColumn) : error :=
  Errorf "cannot encode %s cell %T as %s"
    [AStr (ValueKind_string (cell_Kind cell)); AStr (typeName (cell_Value cell));
     AStr (DataType_string (pc_LogicalType column))].

Definition appendBinaryCellValue (out : bytes) (cell : ResultCell) (column : ProtocolColumn)
    : go bytes :=
  match pc_LogicalType column with
  | DataTypeBool =>
    match boolCellValue cell with
    | Some value => mret (out ++ [byte_of (if value then 1 else 0)])
    | None => Err (cannotEncode cell column)
    end
  | DataTypeInt =>
    match int64CellValue cell with
    | Some value => mret (appendUint64LE out (wrap_u 64 value))
    | None => Err (cannotEncode cell column)
    end
  | DataTypeFloat =>
    match float64CellValue cell with
    | Some bits => mret (appendUint64LE out bits)
    | None => Err (cannotEncode cell column)
    end
  | DataTypeTime =>
    match timeCellValue cell with
    | Some value => mret (appendBinaryDateTime out value)
    | None => Err (cannotEncode cell column)
    end
  | DataTypeString | DataTypeUnknown =>
    mret (appendLengthEncodedString out (Sprint (cell_Value cell)))
  | DataTypeOther _ => Err (cannotEncode cell column)
  end.

(** The loop over the cells; a null cell sets its bit in [payload[1:]]. *)
Fixpoint appendBinaryCells (payload : bytes) (i : Z) (row : ResultRow)
    (columns : list ProtocolColumn) : go bytes :=
  match row with
  | [] => mret payload
  | cell :: row =>
    if nullCell cell then
      head ← slice payload 0 1;
      tail ← slice_from payload 1;
      tail ← setBinaryResultNullBit tail i;
      appendBinaryCells (head ++ tail) (i + 1) row columns
    else
      column ← match columns !! Z.to_nat i with Some c => Ok c | None => Panic end;
      match appendBinaryCellValue payload cell column with
      | Ok payload => appendBinaryCells payload (i + 1) row columns
      | Err e => Err (Errorf "mysql binary column %d: %w" [AInt (i + 1); AErr e])
      | Panic => Panic
      end
  end.

Definition binaryRowPayload (row : ResultRow) (columns : list ProtocolColumn) : go bytes :=
  if negb (zlen row =? zlen columns)
  then Err (Errorf "mysql binary row has %d cells for %d columns"
              [AInt (zlen row); AInt (zlen columns)])
  else
    let nullBitmap := replicate (Z.to_nat ((zlen columns + 9) / 8)) (byte_of 0) in
    appendBinaryCells ([byte_of 0] ++ nullBitmap) 0 row columns.

Definition BinaryResultSetPacketsWithOptions (result : ExecutionResult) (defaultSchema : bytes)
    : go (list Packet) :=
  if zlen (er_Columns result) =? 0
  then Err (Errorf "mysql binary resultset requires at least one column" [])
  else
    let schema := NewProtocolResultSchema (er_Columns result) in
    rows ← rowPayloads (fun row => binaryRowPayload row schema) (concat (er_Chunks result));
    mret (numberPackets 1
      ([encodeLengthEncodedInteger (zlen schema)] ++ columnPayloads schema defaultSchema
       ++ [eofPayload 0] ++ rows ++ [eofPayload 0])).

(** The value on the wire for a cell, [None] for NULL. *)
Definition binaryCell (cell : ResultCell) (column : ProtocolColumn)
    : option (option (ValueKind * any)) :=
  if nullCell cell then Some None
  else
    match pc_LogicalType column with
    | DataTypeBool =>
      option_map (fun b : bool => Some (ValueInt, GInt Tint64 (if b then 1 else 0)))
        (boolCellValue cell)
    | DataTypeInt => option_map (fun z => Some (ValueInt, GInt Tint64 z)) (int64CellValue cell)
    | DataTypeFloat =>
      option_map (fun bits => Some (ValueFloat, GFloat64 bits)) (float64CellValue cell)
    | DataTypeTime =>
      option_map (fun t => Some (ValueTime, GTime (mkTime (unixSec t) 0 0))) (timeCellValue cell)
    | DataTypeString | DataTypeUnknown =>
      Some (Some (ValueString, GString (Sprint (cell_Value cell))))
    | DataTypeOther _ => None
    end.

(** The ranges of the Go types, and a year that fits the two bytes of the wire. *)
Definition cell_wf (cell : ResultCell) : Prop :=
  match cell_Value cell with
  | GInt t z => in_int t z
  | GFloat32 bits => in_u 32 bits
  | GFloat64 bits => in_u 64 bits
  | GTime t => in_u 16 (Year (UTC t)) /\ 0 <= nanosecond t < 10 ^ 9
  | _ => True
  end /\ fits (Sprint (cell_Value cell)).

(** ** What a row says

    The cells that can be sent in a column of a type: integers that an int64 holds, finite
    float32 values, integers that a float64 holds exactly. *)
Definition encodableCell (type : DataType) (cell : ResultCell) : Prop :=
  cell_wf cell /\
  (nullCell cell = true \/
   match type, cell_Value cell with
   | DataTypeBool, (GBool _ | GInt _ _) => True
   | DataTypeInt, GInt _ z => - 2 ^ 63 <= z < 2 ^ 63
   | DataTypeFloat, GFloat64 _ => True
   | DataTypeFloat, GFloat32 bits => (bits / 2 ^ 23) mod 256 <> 255
   | DataTypeFloat, GInt t z => int_signed t = true /\ Z.abs z < 2 ^ 53
   | DataTypeTime, GTime _ => True
   | (DataTypeString | DataTypeUnknown), _ => True
   | _, _ => False
   end).

(** What a client is to receive for a cell: NULL, a truth value as 0 or 1, the integer
    itself, a float of the same value, the instant to the second, or the printed text. *)
Definition receives (type : DataType) (cell : ResultCell) (received : option (ValueKind * any)) : Prop :=
  if nullCell cell then received = None
  else match type, cell_Value cell with
       | DataTypeBool, GBool b => received = Some (ValueInt, GInt Tint64 (if b then 1 else 0))
       | DataTypeBool, GInt _ z => received = Some (ValueInt, GInt Tint64 (if decide (z = 0) then 0 else 1))
       | DataTypeInt, GInt _ z => received = Some (ValueInt, GInt Tint64 z)
       | DataTypeFloat, GFloat64 bits => received = Some (ValueFloat, GFloat64 bits)
       | DataTypeFloat, GFloat32 bits =>
         exists bits', received = Some (ValueFloat, GFloat64 bits') /\ float64_value bits' = float32_value bits
       | DataTypeFloat, GInt _ z =>
         exists bits', received = Some (ValueFloat, GFloat64 bits') /\ float64_value bits' = z * 2 ^ 1074
       | DataTypeTime, GTime t => received = Some (ValueTime, GTime (mkTime (unixSec t) 0 0))
       | (DataTypeString | DataTypeUnknown), v => received = Some (ValueString, GString (Sprint v))
       | _, _ => False
       end.

Lemma encodable_receives cell c : encodableCell (rc_Type c) cell ->
  exists v, binaryCell cell (protocolColumn c) = Some v /\ receives (rc_Type c) cell v.
Proof.
  intros [[Hwf _] He]. unfold binaryCell, receives.
  assert (pc_LogicalType (protocolColumn c) = rc_Type c) as ->
    by (unfold protocolColumn; by destruct (mysqlProtocolTypeNames (rc_Type c))).
  destruct (nullCell cell); [by eexists|]. destruct He as [?|He]; [done|].
  unfold boolCellValue, int64CellValue, float64CellValue, timeCellValue.
  destruct (rc_Type c), (cell_Value cell) as [| |t z|bits| | | | | |]; try done; cbn [option_map]; try (by eexists).
  - eexists. split; [done|]. do 3 f_equal. destruct (Z.eqb_spec z 0); by case_decide.
  - eexists. split; [done|]. do 3 f_equal. destruct (int_signed t); [done|]. by apply wrap_s_id.
  - destruct He as [-> Hz]. eexists. split; [done|]. eexists. split; [done|]. by apply float64_of_int_value.
  - eexists. split; [done|]. eexists. split; [done|]. by apply float64_of_float32_exact.
Qed.

End Binary.

(** ** The client's side *)

Fixpoint clientReadBinaryCells (p bitmap : bytes) (types : list Z) (i o : Z)
    : go (list (option (ValueKind * any))) :=
  match types with
  | [] => if o =? zlen p then mret [] else Err (Errorf "trailing bytes" [])
  | t :: types =>
    b ← index bitmap ((i + 2) / 8);
    if negb (Z.land (ub b) (Z.shiftl 1 ((i + 2) mod 8)) =? 0) then
      rest ← clientReadBinaryCells p bitmap types (i + 1) o; mret (None :: rest)
    else
      '(kind, value, o) ← decodePreparedBinaryValue p o (mkParameterType t false);
      rest ← clientReadBinaryCells p bitmap types (i + 1) o; mret (Some (kind, value) :: rest)
  end.

Definition clientReadBinaryRow (p : bytes) (types : list Z) : go (list (option (ValueKind * any))) :=
  h ← index p 0;
  if negb (ub h =? 0) then Err (Errorf "row header" [])
  else
    let n := (zlen types + 9) / 8 in
    bitmap ← slice p 1 (1 + n);
    clientReadBinaryCells p bitmap types 0 (1 + n).

Definition clientReadBinaryResult (ps : list Packet)
    : go (list ColumnDefinition * list (list (option (ValueKind * any)))) :=
  payloads ← clientPayloads 1 ps;
  match payloads with
  | [] => Err (Errorf "missing column count" [])
  | first :: rest =>
    '(cols, rest) ← untilEOF rest;
    '(rows, _) ← untilEOF rest;
    columns ← mapM clientReadColumn cols;
    cells ← mapM (fun r => clientReadBinaryRow r (map cd_Type columns)) rows;
    mret (columns, cells)
  end.

(** ** Lemmas: cells *)

Definition cellType (c : ResultColumn) : PreparedParameterType :=
  mkParameterType (columnType (protocolColumn c)) false.

Lemma int64CellValue_range t z : in_int t z ->
  in_s 64 (if int_signed t then z else wrap_s 64 z).
Proof.
  unfold in_int. destruct (int_signed t) eqn:E; [|intros _; by apply wrap_s_range].
  unfold in_s. by destruct t; simpl in *; try done; lia.
Qed.

Lemma appendBinaryDateTime_wire out t : in_u 16 (Year (UTC t)) ->
  exists w, appendBinaryDateTime out t = out ++ w /\ datetime_wire w (mkTime (unixSec t) 0 0).
Proof.
  intros Hy. unfold appendBinaryDateTime, IsZero. case_if.
  - exists [byte_of 0]. split; [done|]. replace (unixSec t) with (unixSec zeroTime) by done. constructor.
  - eexists. split.
    + rewrite appendUint16LE_le, wrap_u_small by done. rewrite <- !app_assoc. reflexivity.
    + change (unixSec t) with (unixSec (UTC t)). rewrite <- (Date_of_accessors (UTC t)) by done.
      apply dw_seconds; [done|]. by apply (accessors_valid (mkTime (unixSec t) 0 0)).
Qed.

Lemma le_bytes_wrap_8 z : le_bytes 8 (wrap_u 64 z) = le_bytes 8 z.
Proof.
  rewrite <- (le_bytes_value (le_bytes 8 z)) at 1. rewrite le_bytes_length, le_value_bytes. done.
Qed.

Section BinaryLemmas.

Variable Sprint : any -> bytes.

Lemma appendBinaryCellValue_wire out cell c k v : cell_wf Sprint cell -> nullCell cell = false ->
  binaryCell Sprint cell (protocolColumn c) = Some (Some (k, v)) ->
  exists w, appendBinaryCellValue Sprint out cell (protocolColumn c) = Ok (out ++ w) /\
    wire_value (cellType c) w k v.
Proof.
  intros [Hwf Hfit] Hn. unfold binaryCell, appendBinaryCellValue, cellType, columnType. rewrite Hn.
  assert (pc_LogicalType (protocolColumn c) = rc_Type c) as ->.
  { unfold protocolColumn. by destruct (mysqlProtocolTypeNames (rc_Type c)). }
  destruct (rc_Type c) eqn:Et.
  - intros [= <- <-]. eexists. rewrite appendLengthEncodedString_lenenc. split; [done|].
    unfold protocolColumn. rewrite Et. cbn [pc_WireType mysqlProtocolTypeNames].
    apply (wv_string ColumnTypeString); [left|by apply fits_in_u].
  - unfold boolCellValue. destruct (cell_Value cell); try done; intros [= <- <-].
    + exists (le_bytes 1 (if b then 1 else 0)). split; [done|].
      apply (wv_signed ColumnTypeTiny 1); [left|by destruct b].
    + exists (le_bytes 1 (if negb (z =? 0) then 1 else 0)). split; [done|].
      apply (wv_signed ColumnTypeTiny 1); [left|by destruct (z =? 0)].
  - unfold int64CellValue. destruct (cell_Value cell) as [| |t z| | | | | | |]; try done.
    intros [= <- <-]. eexists. rewrite appendUint64LE_le, le_bytes_wrap_8. split; [done|].
    apply (wv_signed ColumnTypeLongLong 8); [do 4 right; left|]. by apply int64CellValue_range.
  - assert (H8 : forall bits, in_u 64 bits ->
      exists w, Ok (appendUint64LE out bits) = Ok (out ++ w) /\
        wire_value (mkParameterType ColumnTypeDouble false) w ValueFloat (GFloat64 bits)).
    { intros bits Hb. eexists. rewrite appendUint64LE_le. split; [done|]. by apply wv_double. }
    unfold float64CellValue. destruct (cell_Value cell) as [| |t z| | | | | | |]; try done.
    + destruct (int_signed t) eqn:Es; [|done]. intros [= <- <-]. apply H8, float64_of_int_range.
      pose proof (int64CellValue_range t z Hwf) as R. by rewrite Es in R.
    + intros [= <- <-]. by apply H8, float64_of_float32_range.
    + intros [= <- <-]. by apply H8.
  - intros [= <- <-]. eexists. rewrite appendLengthEncodedString_lenenc. split; [done|].
    apply (wv_string ColumnTypeVarString); [right; left|by apply fits_in_u].
  - unfold timeCellValue. destruct (cell_Value cell) as [| | | | | | | |t|]; try done.
    intros [= <- <-]. destruct (appendBinaryDateTime_wire out t) as (w & -> & Hw); [apply Hwf|].
    exists w. split; [done|]. apply wv_datetime; [do 2 right; left|done].
  - done.
Qed.

(** ** Lemmas: rows *)

Definition is_null_value (v : option (ValueKind * any)) : bool :=
  match v with None => true | Some _ => false end.

(** The cells of a row say the values [vals]. *)
Definition binary_row (row : ResultRow) (cols : list ResultColumn)
    (vals : list (option (ValueKind * any))) : Prop :=
  Forall3 (fun cell c v => cell_wf Sprint cell /\ binaryCell Sprint cell (protocolColumn c) = Some v)
    row cols vals.

(** The bytes of the cells. *)
Definition cell_bytes (c : ResultColumn) (v : option (ValueKind * any)) (w : bytes) : Prop :=
  match v with None => w = [] | Some (k, v) => wire_value (cellType c) w k v end.

(** The bitmap of a row: two reserved bits, then one per cell. *)
Definition row_bitmap (n : nat) (flags : list bool) : bytes :=
  le_bytes n (bits_value (false :: false :: flags)).

Lemma row_bitmap_snoc n flags (b : bool) : (zlen flags + 2) / 8 < Z.of_nat n ->
  (if b then setBinaryResultNullBit (row_bitmap n flags) (zlen flags)
   else Ok (row_bitmap n flags)) = Ok (row_bitmap n (flags ++ [b])).
Proof.
  intros Hn. pose proof (zlen_nonneg flags). unfold row_bitmap.
  change (false :: false :: flags ++ [b]) with ((false :: false :: flags) ++ [b]).
  rewrite (bits_value_snoc _ b). destruct b; [|by rewrite Z.lor_0_r].
  assert (Hz : zlen (false :: false :: flags) = zlen flags + 2) by zlen_simpl.
  rewrite Hz. unfold setBinaryResultNullBit.
  rewrite index_le_bytes by (split; [apply Z.div_pos; lia|done]). cbn [mbind go_bind mret go_ret].
  f_equal. apply le_bytes_set_bit; [lia|done].
Qed.

Lemma binaryCell_null cell c v : binaryCell Sprint cell (protocolColumn c) = Some v ->
  is_null_value v = nullCell cell.
Proof.
  unfold binaryCell. destruct (nullCell cell); [by intros [= <-]|].
  destruct (pc_LogicalType _); try (by intros [= <-]); try done.
  - by destruct (boolCellValue cell); intros [= <-].
  - by destruct (int64CellValue cell); intros [= <-].
  - by destruct (float64CellValue cell); intros [= <-].
  - by destruct (timeCellValue cell); intros [= <-].
Qed.

(** Setting the null bit of [payload[1:]] leaves the cells behind the bitmap alone. *)
Lemma setBinaryResultNullBit_app bitmap data i b' : 0 <= i -> (i + 2) / 8 < zlen bitmap ->
  setBinaryResultNullBit bitmap i = Ok b' -> setBinaryResultNullBit (bitmap ++ data) i = Ok (b' ++ data).
Proof.
  intros Hi Hl. pose proof (Z.div_pos (i + 2) 8 ltac:(lia) ltac:(lia)).
  unfold setBinaryResultNullBit.
  destruct (index_safe bitmap ((i + 2) / 8)) as [b Hb]; [lia|].
  assert (index (bitmap ++ data) ((i + 2) / 8) = Ok b) as ->.
  { revert Hb. unfold index. case_if; [done|]. unfold zlen in Hl. by rewrite lookup_app_l by lia. }
  rewrite Hb. cbn [mbind go_bind mret go_ret]. intros [= <-]. f_equal.
  apply insert_app_l. unfold zlen in Hl. lia.
Qed.

Lemma appendBinaryCells_ok row cols vals : binary_row row cols vals ->
  forall n cseen flags data, length cseen = length flags ->
  (zlen flags + zlen row + 1) / 8 < Z.of_nat n ->
  exists ws, appendBinaryCells Sprint (byte_of 0 :: row_bitmap n flags ++ data) (zlen flags) row
      (map protocolColumn (cseen ++ cols))
    = Ok (byte_of 0 :: row_bitmap n (flags ++ map is_null_value vals) ++ data ++ concat ws) /\
    Forall3 cell_bytes cols vals ws.
Proof.
  induction 1 as [|cell c v row cols vals [Hwf Hv] Hrest IH]; intros n cseen flags data Hlen Hn.
  { exists []. cbn. rewrite !app_nil_r. split; [done|constructor]. }
  cbn [appendBinaryCells map]. pose proof (zlen_nonneg flags). pose proof (zlen_nonneg row).
  rewrite zlen_cons in Hn.
  assert (Hbit : (zlen flags + 2) / 8 < Z.of_nat n)
    by (eapply Z.le_lt_trans; [|exact Hn]; apply Z.div_le_mono; lia).
  pose proof (row_bitmap_snoc n flags (is_null_value v) Hbit) as Hset.
  assert (Hi : zlen flags + 1 = zlen (flags ++ [is_null_value v])) by zlen_simpl.
  assert (Hcols : cseen ++ c :: cols = (cseen ++ [c]) ++ cols) by (by rewrite <- app_assoc).
  assert (Hstep : (zlen (flags ++ [is_null_value v]) + zlen row + 1) / 8 < Z.of_nat n)
    by (rewrite <- Hi; replace (zlen flags + 1 + zlen row) with (zlen flags + (1 + zlen row)); [done|lia]).
  assert (Hl2 : length (cseen ++ [c]) = length (flags ++ [is_null_value v]))
    by (rewrite !length_app; simpl; lia).
  rewrite (cons_middle (is_null_value v)), app_assoc, Hi, Hcols.
  rewrite (binaryCell_null _ _ _ Hv) in *. destruct (nullCell cell) eqn:En.
  - assert (v = None) as -> by (unfold binaryCell in Hv; rewrite En in Hv; congruence).
    cbn [app].
    rewrite (slice_at _ [] [byte_of 0] (row_bitmap n flags ++ data) 0 1) by done. cbn [mbind go_bind].
    rewrite (slice_from_at _ [byte_of 0] (row_bitmap n flags ++ data) 1) by done.
    cbn [mbind go_bind].
    rewrite (setBinaryResultNullBit_app (row_bitmap n flags) data (zlen flags)
      (row_bitmap n (flags ++ [true]))); [|done|unfold row_bitmap; by rewrite zlen_le_bytes|done].
    cbn [mbind go_bind app]. destruct (IH n (cseen ++ [c]) (flags ++ [true]) data Hl2 Hstep)
      as (ws & E & Hws). exists ([] :: ws). split; [exact E|by constructor].
  - destruct v as [[k v]|]; [|by apply binaryCell_null in Hv; simpl in Hv; congruence].
    assert (Hc : map protocolColumn ((cseen ++ [c]) ++ cols) !! Z.to_nat (zlen flags)
      = Some (protocolColumn c)).
    { rewrite <- Hcols, map_app. cbn [map]. apply list_lookup_middle.
      rewrite length_map. unfold zlen. lia. }
    rewrite Hc. cbn [mbind go_bind].
    destruct (appendBinaryCellValue_wire (byte_of 0 :: row_bitmap n flags ++ data) cell c k v Hwf En Hv)
      as (w & -> & Hw).
    injection Hset as Hset. rewrite Hset.
    destruct (IH n (cseen ++ [c]) (flags ++ [false]) (data ++ w) Hl2 Hstep) as (ws & E & Hws).
    exists (w :: ws). split; [|by constructor].
    cbn [app concat] in *. rewrite <- !app_assoc in *. exact E.
Qed.

Lemma clientReadBinaryCells_ok cols : forall vals ws n flags data pre o,
  Forall3 cell_bytes cols vals ws -> data = pre ++ concat ws -> o = zlen pre ->
  (zlen flags + zlen cols + 1) / 8 < Z.of_nat n ->
  clientReadBinaryCells data (row_bitmap n (flags ++ map is_null_value vals))
    (map (fun c => columnType (protocolColumn c)) cols) (zlen flags) o = Ok vals.
Proof.
  induction cols as [|c cols IH]; intros vals ws n flags data pre o Hws Hd Ho Hn;
    inversion Hws as [|? v w ? vals' ws' Hw Hws']; subst; cbn [map clientReadBinaryCells concat].
  { rewrite app_nil_r, Z.eqb_refl. done. }
  pose proof (zlen_nonneg flags). pose proof (zlen_nonneg cols). rewrite zlen_cons in Hn.
  set (fl := flags ++ is_null_value v :: map is_null_value vals').
  destruct (bitmap_test n (bits_value (false :: false :: fl)) (zlen flags + 2)) as (b & Hb & Hbit);
    [lia|eapply Z.le_lt_trans; [|exact Hn]; apply Z.div_le_mono; lia|].
  fold (row_bitmap n fl) in Hb. rewrite Hb. cbn [mbind go_bind]. rewrite Hbit.
  rewrite testbit_bits_value by lia.
  replace (Z.to_nat (zlen flags + 2)) with (S (S (length flags))) by (unfold zlen; lia).
  cbn [nth]. unfold fl. rewrite nth_middle.
  rewrite (cons_middle (is_null_value v)), (app_assoc flags).
  replace (zlen flags + 1) with (zlen (flags ++ [is_null_value v])) by zlen_simpl.
  assert (Hn' : (zlen (flags ++ [is_null_value v]) + zlen cols + 1) / 8 < Z.of_nat n).
  { autorewrite with zlen. replace (zlen flags + (1 + 0) + zlen cols) with
      (zlen flags + (1 + zlen cols)) by lia. done. }
  destruct v as [[k v]|]; cbn [is_null_value].
  - fold (cellType c).
    rewrite (decode_wire_value_at _ pre (cellType c) w k v (concat ws') _ eq_refl eq_refl Hw).
    cbn [mbind go_bind]. rewrite (IH vals' ws' n _ _ (pre ++ w)); [done|done|..|done].
    + by rewrite <- app_assoc.
    + by rewrite zlen_app.
  - rewrite Hw. cbn [app]. by rewrite (IH vals' ws' n _ _ pre).
Qed.

(** The payload of a row and what a client reads from it. *)
Lemma binary_row_payload row cols vals : binary_row row cols vals ->
  exists p, binaryRowPayload Sprint row (map protocolColumn cols) = Ok p /\
    isEOFPayload p = false /\
    clientReadBinaryRow p (map (fun c => columnType (protocolColumn c)) cols) = Ok vals.
Proof.
  intros Hr. pose proof (Forall3_length_lm _ _ _ _ Hr) as Hlen.
  assert (Hz : zlen (map protocolColumn cols) = zlen cols) by (unfold zlen; by rewrite length_map).
  assert (Hz2 : zlen (map (fun c => columnType (protocolColumn c)) cols) = zlen cols)
    by (unfold zlen; by rewrite length_map).
  assert (Hzr : zlen row = zlen cols) by (unfold zlen; by rewrite Hlen).
  pose proof (zlen_nonneg cols). set (n := Z.to_nat ((zlen cols + 9) / 8)).
  assert (Hn : Z.of_nat n = (zlen cols + 9) / 8) by (apply Z2Nat.id, Z.div_pos; lia).
  assert (Hb : (zlen (@nil bool) + zlen cols + 1) / 8 < Z.of_nat n)
    by (rewrite Hn; change (zlen (@nil bool)) with 0; div_lia).
  destruct (appendBinaryCells_ok row cols vals Hr n [] [] []) as (ws & E & Hws);
    [done|by rewrite Hzr|].
  unfold binaryRowPayload. rewrite Hz, Hzr, Z.eqb_refl. cbn [negb]. fold n.
  assert (replicate n (byte_of 0) = row_bitmap n []) as ->.
  { unfold row_bitmap. cbn [bits_value]. clear. induction n as [|n IH]; [done|].
    cbn [replicate le_bytes]. by rewrite IH. }
  rewrite app_nil_r in E. cbn [app] in *. change (zlen (@nil bool)) with 0 in E. rewrite E.
  eexists. split; [done|]. split; [done|]. unfold clientReadBinaryRow.
  change (index (byte_of 0 :: _) 0) with (Ok (byte_of 0)). cbn [mbind go_bind].
  change (negb (ub (byte_of 0) =? 0)) with false. cbv iota. rewrite Hz2, <- Hn.
  rewrite (slice_at _ [byte_of 0] (row_bitmap n (map is_null_value vals)) (concat ws));
    [|done|done|unfold row_bitmap; rewrite zlen_le_bytes; done].
  cbn [mbind go_bind].
  apply (clientReadBinaryCells_ok cols vals ws n [] _
    (byte_of 0 :: row_bitmap n (map is_null_value vals))); [done|done| |done].
  unfold row_bitmap. rewrite zlen_cons, zlen_le_bytes. done.
Qed.

End BinaryLemmas.

Lemma binary_rows_payloads Sprint rows cols vals :
  Forall2 (fun row v => binary_row Sprint row cols v) rows vals ->
  exists ps, rowPayloads (fun row => binaryRowPayload Sprint row (NewProtocolResultSchema cols)) rows
    = Ok ps /\ Forall (fun p => isEOFPayload p = false) ps /\
    mapM (fun p => clientReadBinaryRow p (map (fun c => columnType (protocolColumn c)) cols)) ps
    = Ok vals.
Proof.
  induction 1 as [|row v rows vals Hr Hrs (ps & E & Hn & Hm)]; [by exists []|].
  destruct (binary_row_payload Sprint row cols v Hr) as (p & Ep & Hp & Hc).
  exists (p :: ps). cbn [rowPayloads mapM]. unfold NewProtocolResultSchema in *.
  rewrite Ep. cbn [mbind go_bind]. rewrite E. cbn [mbind go_bind].
  split; [done|]. split; [by constructor|]. rewrite Hc. cbn [mbind go_bind]. by rewrite Hm.
Qed.

Lemma cd_Type_NewColumnDefinition c ds :
  cd_Type (NewColumnDefinitionWithOptions (protocolColumn c) ds) = columnType (protocolColumn c).
Proof.
  unfold NewColumnDefinitionWithOptions. by destruct (sourceParts _) as [[s t] o].
Qed.

Lemma BinaryResultSet_read Sprint result ds vals :
  er_Columns result <> [] -> Forall (column_fits ds) (er_Columns result) ->
  Forall2 (fun row v => binary_row Sprint row (er_Columns result) v)
    (concat (er_Chunks result)) vals ->
  exists packets, BinaryResultSetPacketsWithOptions Sprint result ds = Ok packets /\
    clientReadBinaryResult packets
    = Ok (map (fun c => NewColumnDefinitionWithOptions (protocolColumn c) ds) (er_Columns result),
          vals).
Proof.
  intros Hne Hcols Hrows. unfold BinaryResultSetPacketsWithOptions.
  set (cols := er_Columns result) in *.
  rewrite (proj2 (Z.eqb_neq (zlen cols) 0)) by (destruct cols; [done|]; rewrite zlen_cons;
    pose proof (zlen_nonneg cols); lia).
  destruct (binary_rows_payloads Sprint _ cols vals Hrows) as (ps & -> & Hn & Hm).
  eexists. split; [done|]. unfold clientReadBinaryResult.
  rewrite clientPayloads_numbered. cbn [mbind go_bind app].
  rewrite untilEOF_app; [|..|done].
  2:{ unfold columnPayloads, NewProtocolResultSchema. rewrite map_map. apply Forall_map, Forall_true.
      intros c. apply NewColumnDefinition_not_EOF. }
  cbn [mbind go_bind]. rewrite untilEOF_app by done. cbn [mbind go_bind].
  rewrite (mapM_ok clientReadColumn _
    (map (fun c => NewColumnDefinitionWithOptions (protocolColumn c) ds) cols)).
  2:{ unfold columnPayloads, NewProtocolResultSchema. rewrite map_map. apply Forall2_fmap_2.
      clear -Hcols. induction Hcols as [|c cs Hc Hcs IH]; constructor; [|done].
      rewrite <- (app_nil_r (ColumnDefinitionPayload _)).
      by apply clientReadColumn_roundtrip, NewColumnDefinition_wf. }
  cbn [mbind go_bind]. rewrite map_map.
  rewrite (map_ext _ (fun c => columnType (protocolColumn c)))
    by (intros c; apply cd_Type_NewColumnDefinition).
  by rewrite Hm.
Qed.

(** The values of encodable rows. *)
Lemma encodable_rows Sprint rows cols :
  Forall (fun row => Forall2 (fun cell c => encodableCell Sprint (rc_Type c) cell) row cols) rows ->
  exists vals, Forall2 (fun row v => binary_row Sprint row cols v) rows vals /\
    Forall2 (fun row => Forall3 (fun cell c v => receives Sprint (rc_Type c) cell v) row cols) rows vals.
Proof.
  induction 1 as [|row rows Hrow _ (vals & Hb & Hr)]; [by exists []|].
  assert (exists v, binary_row Sprint row cols v /\ Forall3 (fun cell c v => receives Sprint (rc_Type c) cell v) row cols v) as (v & Hv & Hv').
  { clear -Hrow. induction Hrow as [|cell c row cols Hcell _ (v & Hv & Hv')]; [exists []; split; constructor|].
    destruct (encodable_receives Sprint cell c Hcell) as (v0 & E & Hv0). exists (v0 :: v). split; [|by constructor].
    constructor; [|done]. split; [apply Hcell|done]. }
  exists (v :: vals). split; by constructor.
Qed.

(** ** The properties of the component *)

(** C21. A client that reads the packets of a prepared statement's result, by the
    types the column definitions announce, recovers every cell: NULLs from the
    bitmap, truth values as 0 or 1, integers of the int64 range as themselves, finite
    floats and integers below 2^53 of a float column as floats of the same value,
    instants to the second, everything else as its printed text. *)
Theorem binary_resultset_roundtrip Sprint result ds :
  er_Columns result <> [] -> Forall (column_fits ds) (er_Columns result) ->
  Forall (fun row => Forall2 (fun cell c => encodableCell Sprint (rc_Type c) cell) row (er_Columns result))
    (concat (er_Chunks result)) ->
  exists packets vals, BinaryResultSetPacketsWithOptions Sprint result ds = Ok packets /\
    clientReadBinaryResult packets
    = Ok (map (fun c => NewColumnDefinitionWithOptions (protocolColumn c) ds) (er_Columns result), vals) /\
    Forall2 (fun row => Forall3 (fun cell c v => receives Sprint (rc_Type c) cell v) row (er_Columns result))
      (concat (er_Chunks result)) vals.
Proof.
  intros Hne Hfit Hrows.
  destruct (encodable_rows Sprint _ _ Hrows) as (vals & Hvals & Hrec).
  destruct (BinaryResultSet_read Sprint result ds vals Hne Hfit Hvals) as (packets & E & Hread).
  by exists packets, vals.
Qed.

Lemma binary_resultset_roundtrip_witness :
  let Sprint := fun v => match v with GString s => s | _ => [] end in
  let cols := [mkResultColumn (str "id") DataTypeInt false []; mkResultColumn (str "t") DataTypeTime true [];
               mkResultColumn (str "note") DataTypeString true []] in
  let rows := [[mkCell ValueInt (GInt Tint32 (-5)); mkCell ValueTime (GTime (mkTime 1709164799 5 3600));
                mkCell ValueString (GString (str "x"))];
               [mkCell ValueInt (GInt Tint64 7); mkCell ValueNull GNil; mkCell ValueNull GNil]] in
  exists packets vals,
    BinaryResultSetPacketsWithOptions Sprint (mkExecutionResult cols [rows]) [] = Ok packets /\
    clientReadBinaryResult packets
      = Ok (map (fun c => NewColumnDefinitionWithOptions (protocolColumn c) []) cols, vals) /\
    Forall2 (fun row => Forall3 (fun cell c v => receives Sprint (rc_Type c) cell v) row cols) (concat [rows]) vals.
Proof.
  intros Sprint cols rows.
  apply (binary_resultset_roundtrip Sprint (mkExecutionResult cols [rows]) []); [done|..].
  - constructor; [|constructor; [|constructor; [|constructor]]]; repeat split; by vm_compute.
  - constructor; [|constructor; [|constructor]]; (constructor; [|constructor; [|constructor; [|constructor]]]);
      (split; [split; try done; by vm_compute|]); first [by left; vm_compute|right; cbn; lia|by right; vm_compute].
Defined.

(** A value of 2^63 or more in an integer column reads differently in the two
    protocols: the text row shows the unsigned number, the binary row a negative
    one, since the value is converted to [int64] and the column is not flagged
    unsigned. *)
Theorem unsigned_bigint_protocols_differ z : 2 ^ 63 <= z < 2 ^ 64 ->
  let cell := mkCell ValueInt (GInt Tuint64 z) in
  integerTextValue (cell_Value cell) = Ok (FormatUint z) /\
  int64CellValue cell = Some (z - 2 ^ 64) /\ z - 2 ^ 64 < 0 /\
  forall c ds, cd_Flags (NewColumnDefinitionWithOptions (protocolColumn c) ds)
    = if rc_Nullable c then 0 else columnFlagNotNull.
Proof.
  intros Hz cell. split; [done|]. split.
  - cbn. unfold wrap_s. rewrite Z.mod_small by lia.
    destruct (Z.ltb_spec z (2 ^ (64 - 1))); [lia|done].
  - split; [lia|]. intros c ds. unfold NewColumnDefinitionWithOptions, protocolColumn.
    destruct (mysqlProtocolTypeNames _) as [a b]. by destruct (sourceParts _) as [[s t] o].
Qed.

Lemma unsigned_bigint_protocols_differ_witness :
  int64CellValue (mkCell ValueInt (GInt Tuint64 (2 ^ 64 - 1))) = Some (-1).
Proof. apply (unsigned_bigint_protocols_differ (2 ^ 64 - 1)). lia. Defined.
