(* ===== verification/Response.v ===== *)
(** * Responses

    OK and ERR packets (qsmysql/statement.go), the response values a command
    produces (qsmysql/response.go) and the answer to COM_STMT_PREPARE
    (qsmysql/prepared.go). *)

From S2P Require Import Prelude GoStd GoTime Value Wire Handshake Prepared ResultSet BinaryResult.

(** ** Statement results and errors (qsbridge/ir.go, qsbridge/protocol_error.go)

    The notices, session actions and diagnostics these records also carry are
    copied along by this component and never read. *)

Record StatementResult : Type := mkStatementResult {
  sr_AffectedRows : Z; sr_LastInsertID : Z; sr_Warnings : Z; sr_Status : bytes }.

Definition noStatementResult : StatementResult := mkStatementResult 0 0 0 [].

Record ProtocolError : Type := mkProtocolError {
  pe_SQLState : bytes; pe_VendorCode : Z; pe_Message : bytes }.

Definition SQLStateGeneralError : bytes := str "HY000".

(** ** OK and ERR packets *)

Definition okPacketHeader : byte := byte_of 0x00.
Definition errPacketHeader : byte := byte_of 0xff.
Definition sqlStateMarker : byte := byte_of 35.

Definition OKPayloadWithCapabilities (statement : StatementResult) (capabilities : Z) : bytes :=
  let payload := [okPacketHeader] in
  let payload := appendLengthEncodedInteger payload (sr_AffectedRows statement) in
  let payload := appendLengthEncodedInteger payload (sr_LastInsertID statement) in
  let payload := appendUint16LE payload StatusAutocommit in
  let payload := appendUint16LE payload (sr_Warnings statement) in
  if bool_decide (sr_Status statement <> []) || has_flag capabilities CapabilitySessionTrack
  then appendLengthEncodedString payload (sr_Status statement)
  else payload.

Definition OKPacketWithCapabilities (sequenceID : byte) (statement : StatementResult)
    (capabilities : Z) : Packet :=
  mkPacket sequenceID (OKPayloadWithCapabilities statement capabilities).

Definition OKPacket (sequenceID : byte) (statement : StatementResult) : Packet :=
  OKPacketWithCapabilities sequenceID statement 0.

Definition normalizedSQLState (sqlState : bytes) : bytes :=
  let value := TrimSpace sqlState in
  if negb (zlen value =? 5) then SQLStateGeneralError else value.

Definition ERRPayload (protocolError : ProtocolError) : bytes :=
  let vendorCode := if pe_VendorCode protocolError =? 0 then 1105 else pe_VendorCode protocolError in
  let message :=
    if decide (pe_Message protocolError = []) then str "unknown error"
    else pe_Message protocolError in
  let sqlState := normalizedSQLState (pe_SQLState protocolError) in
  let payload := appendUint16LE [errPacketHeader] (wrap_u 16 vendorCode) in
  payload ++ [sqlStateMarker] ++ sqlState ++ message.

Definition ERRPacket (sequenceID : byte) (protocolError : ProtocolError) : Packet :=
  mkPacket sequenceID (ERRPayload protocolError).

Definition ProtocolErrorFromError (err : option error) : ProtocolError :=
  mkProtocolError SQLStateGeneralError 1105
    match err with Some e => Error e | None => str "unknown error" end.

(** ** Command responses *)

Inductive CommandResponseKind : Type :=
  | CommandResponseNone | CommandResponseQuery | CommandResponseFieldList | CommandResponsePrepared
  | CommandResponseOK | CommandResponseError | CommandResponseNoResponse | CommandResponseClose.

#[export] Instance CommandResponseKind_eq_dec : EqDecision CommandResponseKind.
Proof. solve_decision. Defined.

Record CommandResponse : Type := mkCommandResponse {
  r_Kind : CommandResponseKind;
  r_Packets : list Packet;
  r_Close : bool;
  r_Statement : option StatementResult;
  r_ProtocolError : option ProtocolError }.

(** [CommandResponse{}] *)
Definition noCommandResponse : CommandResponse :=
  mkCommandResponse CommandResponseNone [] false None None.

Definition StatementOKResponse (statement : StatementResult) : CommandResponse :=
  mkCommandResponse CommandResponseOK [OKPacket (byte_of 1) statement] false (Some statement) None.

(** Adds the empty info string an OK packet needs with session tracking. *)
Definition padOKPacket (p : Packet) : Packet :=
  match Payload p with
  | b :: _ => if (zlen (Payload p) =? 7) && bool_decide (b = okPacketHeader)
              then mkPacket (SequenceID p) (Payload p ++ [byte_of 0]) else p
  | [] => p
  end.

Definition WithCapabilities (r : CommandResponse) (capabilities : Z) : CommandResponse :=
  match r_Kind r with
  | CommandResponseOK =>
    match r_Statement r with
    | Some statement =>
      let sequenceID := match r_Packets r with p :: _ => SequenceID p | [] => byte_of 1 end in
      mkCommandResponse (r_Kind r) [OKPacketWithCapabilities sequenceID statement capabilities]
        (r_Close r) (Some statement) (r_ProtocolError r)
    | None =>
      if negb (has_flag capabilities CapabilitySessionTrack) then r
      else mkCommandResponse (r_Kind r) (map padOKPacket (r_Packets r)) (r_Close r) None
             (r_ProtocolError r)
    end
  | _ => r
  end.

Definition AuthSuccessResponse (pluginName : bytes) (capabilities : Z) : CommandResponse :=
  WithCapabilities (StatementOKResponse noStatementResult) capabilities.

Definition PingResponse : CommandResponse := StatementOKResponse noStatementResult.

Definition QuitResponse : CommandResponse :=
  mkCommandResponse CommandResponseClose [] true None None.

Definition NoResponse : CommandResponse :=
  mkCommandResponse CommandResponseNoResponse [] false None None.

Definition ErrorResponse (protocolError : ProtocolError) : CommandResponse :=
  mkCommandResponse CommandResponseError [ERRPacket (byte_of 1) protocolError] false None
    (Some protocolError).

Definition ErrorResponseFromError (err : option error) : CommandResponse :=
  ErrorResponse (ProtocolErrorFromError err).

Section Query.

Variable Sprint : any -> bytes.
Variable FormatFloat : Z -> Z -> bytes.
Variable lowerRunes : bytes -> list Z.

Definition QueryResponseWithOptions (result : ExecutionResult) (defaultSchema : bytes)
    : go CommandResponse :=
  packets ← TextResultSetPacketsWithOptions Sprint FormatFloat result defaultSchema;
  mret (mkCommandResponse CommandResponseQuery packets false None None).

Definition FieldListResponseWithOptions (result : ExecutionResult) (defaultSchema pattern : bytes)
    : go CommandResponse :=
  packets ← FieldListPacketsWithOptions lowerRunes result defaultSchema pattern;
  mret (mkCommandResponse CommandResponseFieldList packets false None None).

Definition BinaryQueryResponseWithOptions (result : ExecutionResult) (defaultSchema : bytes)
    : go CommandResponse :=
  packets ← BinaryResultSetPacketsWithOptions Sprint result defaultSchema;
  mret (mkCommandResponse CommandResponseQuery packets false None None).

End Query.

(** ** The answer to COM_STMT_PREPARE *)

Record PreparedPlanDescription : Type := mkPreparedPlan {
  pd_HandleID : Z;
  pd_Parameters : list ParameterRef;
  pd_ResultColumns : list ResultColumn;
  pd_Warnings : Z }.

Definition parameterColumnDefinition (ref : ParameterRef) : ColumnDefinition :=
  let name := if decide (pr_Name ref = []) then str "?" ++ FormatInt (pr_Index ref)
              else pr_Name ref in
  let d := NewColumnDefinition
    (mkProtocolColumn name [] (pr_Nullable ref) (pr_Type ref) [] [] []) in
  mkColumnDefinition (cd_Catalog d) (cd_Schema d) (cd_Table d) (cd_OriginalTable d) (cd_Name d) name
    (cd_CharacterSet d) (cd_ColumnLength d) (cd_Type d) (cd_Flags d) (cd_Decimals d).

Definition PreparedStatementResponse (description : PreparedPlanDescription)
    : go CommandResponse :=
  let params := pd_Parameters description in
  let columns := pd_ResultColumns description in
  if 0xffff <? zlen params
  then Err (Errorf "prepared statement has too many parameters: %d" [AInt (zlen params)])
  else if 0xffff <? zlen columns
  then Err (Errorf "prepared statement has too many result columns: %d" [AInt (zlen columns)])
  else
    let payload := [okPacketHeader] in
    let payload := appendUint32LE payload (wrap_u 32 (pd_HandleID description)) in
    let payload := appendUint16LE payload (wrap_u 16 (zlen columns)) in
    let payload := appendUint16LE payload (wrap_u 16 (zlen params)) in
    let payload := payload ++ [byte_of 0] in
    let payload := appendUint16LE payload (pd_Warnings description) in
    let paramPayloads :=
      if 0 <? zlen params
      then map (fun p => ColumnDefinitionPayload (parameterColumnDefinition p)) params
           ++ [eofPayload (pd_Warnings description)]
      else [] in
    let columnPayloads :=
      if 0 <? zlen columns
      then map (fun c => ColumnDefinitionPayload (NewColumnDefinition c))
             (NewProtocolResultSchema columns)
           ++ [eofPayload (pd_Warnings description)]
      else [] in
    mret (mkCommandResponse CommandResponsePrepared
            (numberPackets 1 ([payload] ++ paramPayloads ++ columnPayloads)) false None None).

(** ** The client's side *)

(** Affected rows, insert id, status, warnings and info of an OK packet. *)
Definition clientReadOK (p : bytes) : go (Z * Z * Z * Z * bytes) :=
  h ← index p 0;
  if negb (ub h =? 0) then Err (Errorf "OK header" [])
  else
    '(affected, o, ok1) ← readLengthEncodedInteger p 1;
    '(lastID, o, ok2) ← readLengthEncodedInteger p o;
    if negb (ok1 && ok2) then Err (Errorf "OK counters" [])
    else
      s ← slice p o (o + 2); status ← readUint16LE s;
      s ← slice p (o + 2) (o + 4); warnings ← readUint16LE s;
      if o + 4 =? zlen p then mret (affected, lastID, status, warnings, [])
      else '(info, _) ← readStringField p (o + 4); mret (affected, lastID, status, warnings, info).

(** Code, SQLSTATE and message of an ERR packet. *)
Definition clientReadERR (p : bytes) : go (Z * bytes * bytes) :=
  h ← index p 0;
  m ← index p 3;
  if negb (ub h =? 0xff) || negb (ub m =? 35) then Err (Errorf "ERR header" [])
  else
    s ← slice p 1 3; code ← readUint16LE s;
    state ← slice p 4 9;
    message ← slice_from p 9;
    mret (code, state, message).

(** A list of definitions closed by an EOF packet, absent when its count is 0. *)
Definition clientReadDefinitions (n : Z) (ps : list bytes)
    : go (list ColumnDefinition * list bytes) :=
  if n =? 0 then mret ([], ps)
  else '(defs, rest) ← untilEOF ps; cols ← mapM clientReadColumn defs; mret (cols, rest).

(** Statement id, warnings, and the definitions of parameters and columns. *)
Definition clientReadPrepare (ps : list Packet)
    : go (Z * Z * list ColumnDefinition * list ColumnDefinition) :=
  payloads ← clientPayloads 1 ps;
  match payloads with
  | [] => Err (Errorf "missing header" [])
  | p :: rest =>
    s ← slice p 1 5; id ← readUint32LE s;
    s ← slice p 5 7; ncols ← readUint16LE s;
    s ← slice p 7 9; nparams ← readUint16LE s;
    s ← slice p 10 12; warnings ← readUint16LE s;
    '(params, rest) ← clientReadDefinitions nparams rest;
    '(cols, rest) ← clientReadDefinitions ncols rest;
    match rest with
    | [] => mret (id, warnings, params, cols)
    | _ => Err (Errorf "trailing packets" [])
    end
  end.

(** ** Lemmas *)

Lemma readLengthEncodedInteger_at data pre v rest o :
  data = pre ++ encodeLengthEncodedInteger v ++ rest -> o = zlen pre -> in_u 64 v ->
  readLengthEncodedInteger data o = Ok (v, o + zlen (encodeLengthEncodedInteger v), true).
Proof. intros -> ->. apply readLengthEncodedInteger_encoded. Qed.

Lemma OKPayload_app st caps : OKPayloadWithCapabilities st caps =
  byte_of 0 :: encodeLengthEncodedInteger (sr_AffectedRows st)
  ++ encodeLengthEncodedInteger (sr_LastInsertID st) ++ le_bytes 2 StatusAutocommit
  ++ le_bytes 2 (sr_Warnings st)
  ++ (if bool_decide (sr_Status st <> []) || has_flag caps CapabilitySessionTrack
      then lenenc (sr_Status st) else []).
Proof.
  unfold OKPayloadWithCapabilities.
  rewrite !appendLengthEncodedInteger_app, !appendUint16LE_le, appendLengthEncodedString_lenenc.
  destruct (_ || _); rewrite ?app_nil_r, <- !app_assoc; done.
Qed.

Lemma clientReadOK_roundtrip st caps : in_u 64 (sr_AffectedRows st) -> in_u 64 (sr_LastInsertID st) ->
  in_u 16 (sr_Warnings st) -> fits (sr_Status st) ->
  clientReadOK (OKPayloadWithCapabilities st caps)
  = Ok (sr_AffectedRows st, sr_LastInsertID st, StatusAutocommit, sr_Warnings st, sr_Status st).
Proof.
  intros Ha Hl Hw Hs. rewrite OKPayload_app. destruct st as [a l w s].
  cbn [sr_AffectedRows sr_LastInsertID sr_Warnings sr_Status] in *.
  set (ea := encodeLengthEncodedInteger a). set (el := encodeLengthEncodedInteger l).
  set (info := if bool_decide (s <> []) || has_flag caps CapabilitySessionTrack
               then lenenc s else []).
  set (p := byte_of 0 :: _).
  unfold clientReadOK. change (index p 0) with (Ok (byte_of 0)). cbn [mbind go_bind].
  change (negb (ub (byte_of 0) =? 0)) with false. cbv iota.
  rewrite (readLengthEncodedInteger_at p [byte_of 0] a
    (el ++ le_bytes 2 StatusAutocommit ++ le_bytes 2 w ++ info) 1) by done.
  cbn [mbind go_bind]. fold ea.
  rewrite (readLengthEncodedInteger_at p (byte_of 0 :: ea) l
    (le_bytes 2 StatusAutocommit ++ le_bytes 2 w ++ info)) by (try done; zlen_simpl).
  cbn [mbind go_bind andb negb]. fold el.
  assert (Hp : p = (byte_of 0 :: ea ++ el) ++ le_bytes 2 StatusAutocommit ++ le_bytes 2 w ++ info)
    by (unfold p; simpl; by rewrite <- app_assoc).
  set (o := 1 + zlen ea + zlen el). assert (Ho : o = zlen (byte_of 0 :: ea ++ el)) by zlen_simpl.
  rewrite (slice_at p (byte_of 0 :: ea ++ el) (le_bytes 2 StatusAutocommit)
    (le_bytes 2 w ++ info) o (o + 2)); [|done|done|rewrite Ho; zlen_simpl].
  cbn [mbind go_bind]. rewrite readUint16LE_le by done. cbn [mbind go_bind].
  rewrite (slice_at p ((byte_of 0 :: ea ++ el) ++ le_bytes 2 StatusAutocommit)
    (le_bytes 2 w) info (o + 2) (o + 4));
    [|by rewrite Hp, <- app_assoc|rewrite Ho; autorewrite with zlen; lia..].
  cbn [mbind go_bind]. rewrite readUint16LE_le by done. cbn [mbind go_bind].
  assert (Hl' : zlen p = o + 4 + zlen info) by (rewrite Hp; autorewrite with zlen; lia).
  rewrite Hl'. destruct (Z.eqb_spec (o + 4) (o + 4 + zlen info)) as [E|E].
  - assert (Hi : info = []) by (apply zlen_zero; lia). unfold info in Hi.
    case_bool_decide as Eb; [|by rewrite Eb].
    cbn [orb] in Hi. destruct (lenenc_first s Hs) as (b & r & El & _). congruence.
  - rewrite (readStringField_at p ((byte_of 0 :: ea ++ el) ++ le_bytes 2 StatusAutocommit
      ++ le_bytes 2 w) s []); [done|..|done].
    + rewrite Hp, app_nil_r, <- !app_assoc. do 4 f_equal. unfold info in *.
      destruct (_ || _); [done|]. autorewrite with zlen in E. lia.
    + rewrite Ho. autorewrite with zlen. lia.
Qed.

Lemma normalizedSQLState_length s : zlen (normalizedSQLState s) = 5.
Proof. unfold normalizedSQLState. case_if; done. Qed.

Lemma clientReadERR_roundtrip e :
  clientReadERR (ERRPayload e) =
  Ok (wrap_u 16 (if pe_VendorCode e =? 0 then 1105 else pe_VendorCode e),
      normalizedSQLState (pe_SQLState e),
      if decide (pe_Message e = []) then str "unknown error" else pe_Message e).
Proof.
  unfold ERRPayload. set (code := if _ =? 0 then _ else _). set (msg := if decide _ then _ else _).
  pose proof (normalizedSQLState_length (pe_SQLState e)) as H5.
  set (state := normalizedSQLState (pe_SQLState e)) in *.
  rewrite appendUint16LE_le. set (p := (_ ++ le_bytes 2 _) ++ _). unfold clientReadERR.
  change (index p 0) with (Ok errPacketHeader). change (index p 3) with (Ok sqlStateMarker).
  cbn [mbind go_bind]. change (negb _ || negb _) with false. cbv iota.
  rewrite (slice_at p [errPacketHeader] (le_bytes 2 (wrap_u 16 code))
    (sqlStateMarker :: state ++ msg) 1 3) by done.
  cbn [mbind go_bind]. rewrite readUint16LE_le by (by apply wrap_u_range). cbn [mbind go_bind].
  rewrite (slice_at p ([errPacketHeader] ++ le_bytes 2 (wrap_u 16 code) ++ [sqlStateMarker]) state msg
    4 9); [|done|done|autorewrite with zlen; lia].
  cbn [mbind go_bind].
  rewrite (slice_from_at p ([errPacketHeader] ++ le_bytes 2 (wrap_u 16 code) ++ [sqlStateMarker]
    ++ state) msg 9); [done|..].
  - unfold p. by rewrite <- !app_assoc.
  - autorewrite with zlen. lia.
Qed.

Lemma zlen_pos_ne {A} (l : list A) : (0 <? zlen l) = negb (zlen l =? 0).
Proof. pose proof (zlen_nonneg l). lia. Qed.

(** A list of definitions with its EOF packet, in front of other packets. *)
Lemma clientReadDefinitions_ok {A} (f : A -> ColumnDefinition) (l : list A) warnings rest :
  (forall a, a ∈ l -> column_wf (f a)) ->
  (forall a, a ∈ l -> isEOFPayload (ColumnDefinitionPayload (f a)) = false) ->
  clientReadDefinitions (zlen l)
    ((if 0 <? zlen l then map (fun a => ColumnDefinitionPayload (f a)) l ++ [eofPayload warnings]
      else []) ++ rest) = Ok (map f l, rest).
Proof.
  intros Hwf Heof. unfold clientReadDefinitions. rewrite zlen_pos_ne.
  destruct (Z.eqb_spec (zlen l) 0) as [E|E]; cbn [negb].
  { by rewrite (zlen_zero l E). }
  rewrite <- app_assoc. cbn [app]. rewrite untilEOF_app; [|..|done].
  - cbn [mbind go_bind]. rewrite (mapM_ok clientReadColumn _ (map f l)); [done|].
    apply Forall2_fmap_2, Forall_Forall2_diag, Forall_forall. intros a Ha.
    rewrite <- (app_nil_r (ColumnDefinitionPayload _)). by apply clientReadColumn_roundtrip, Hwf.
  - apply Forall_map, Forall_forall. exact Heof.
Qed.

Lemma FormatUint_length z : zlen (FormatUint z) <= 20.
Proof.
  assert (forall n z, zlen (utoa_fuel n z) <= Z.of_nat n) as L.
  { clear. induction n as [|n IH]; intros z; cbn [utoa_fuel]; [done|].
    case_if; [rewrite zlen_cons; change (zlen (@nil byte)) with 0; lia|].
    specialize (IH (z / 10)). autorewrite with zlen. lia. }
  apply (L 20%nat).
Qed.

Lemma parameterColumnDefinition_wf ref : fits (pr_Name ref) ->
  column_wf (parameterColumnDefinition ref).
Proof.
  intros Hn. unfold parameterColumnDefinition.
  set (name := if decide _ then _ else _).
  assert (Hf : zlen name < 2 ^ 64).
  { unfold name. case_decide; [|done]. unfold FormatInt.
    pose proof (FormatUint_length (pr_Index ref)). pose proof (FormatUint_length (- pr_Index ref)).
    case_if; rewrite !zlen_app; change (zlen (str "?")) with 1; change (zlen (str "-")) with 1; lia. }
  constructor; cbn -[FormatInt zlen in_u].
  - rewrite !Forall_cons. unfold fits. repeat split; try done.
  - by vm_compute.
  - unfold columnLength. cbn [pc_LogicalType]. destruct (pr_Type ref); by vm_compute.
  - unfold columnType. cbn [pc_LogicalType]. destruct (pr_Type ref); by vm_compute.
  - destruct (pr_Nullable ref); by vm_compute.
  - unfold columnDecimals. cbn [pc_LogicalType]. destruct (pr_Type ref); by vm_compute.
Qed.

Lemma parameterColumnDefinition_not_EOF ref :
  isEOFPayload (ColumnDefinitionPayload (parameterColumnDefinition ref)) = false.
Proof. rewrite ColumnDefinitionPayload_app; [reflexivity|by vm_compute]. Qed.

Lemma clientReadPrepare_roundtrip d : in_u 16 (pd_Warnings d) ->
  zlen (pd_Parameters d) < 2 ^ 16 -> zlen (pd_ResultColumns d) < 2 ^ 16 ->
  Forall (fun p => fits (pr_Name p)) (pd_Parameters d) ->
  Forall (column_fits []) (pd_ResultColumns d) ->
  exists r, PreparedStatementResponse d = Ok r /\
    clientReadPrepare (r_Packets r)
    = Ok (wrap_u 32 (pd_HandleID d), pd_Warnings d, map parameterColumnDefinition (pd_Parameters d),
          map (fun c => NewColumnDefinition (protocolColumn c)) (pd_ResultColumns d)).
Proof.
  intros Hw Hnp Hnc Hp Hc. destruct d as [id params cols w].
  cbn [pd_HandleID pd_Parameters pd_ResultColumns pd_Warnings] in *.
  pose proof (zlen_nonneg params). pose proof (zlen_nonneg cols).
  unfold PreparedStatementResponse. cbn [pd_HandleID pd_Parameters pd_ResultColumns pd_Warnings].
  do 2 if_false. eexists. split; [done|]. cbn [r_Packets]. unfold clientReadPrepare.
  rewrite clientPayloads_numbered. cbn [mbind go_bind app].
  rewrite !appendUint16LE_le, appendUint32LE_le, !(wrap_u_small 16) by (unfold in_u; lia).
  set (h := (_ ++ _) ++ le_bytes 2 w).
  rewrite (slice_at h [okPacketHeader] (le_bytes 4 (wrap_u 32 id)) (drop 5 h) 1 5) by done.
  rewrite (slice_at h (take 5 h) (le_bytes 2 (zlen cols)) (drop 7 h) 5 7) by done.
  rewrite (slice_at h (take 7 h) (le_bytes 2 (zlen params)) (drop 9 h) 7 9) by done.
  rewrite (slice_at h (take 10 h) (le_bytes 2 w) [] 10 12) by done.
  cbn [mbind go_bind]. rewrite readUint32LE_le by (by apply wrap_u_range). cbn [mbind go_bind].
  repeat (rewrite readUint16LE_le by (unfold in_u in *; lia); cbn [mbind go_bind]).
  rewrite clientReadDefinitions_ok.
  - cbn [mbind go_bind]. unfold NewProtocolResultSchema. rewrite map_map.
    rewrite <- (app_nil_r (if 0 <? zlen cols then _ else _)).
    rewrite (clientReadDefinitions_ok (fun c => NewColumnDefinition (protocolColumn c))); [done|..].
    + intros a Ha. rewrite Forall_forall in Hc. by apply NewColumnDefinition_wf, Hc.
    + intros a Ha. apply NewColumnDefinition_not_EOF.
  - intros a Ha. rewrite Forall_forall in Hp. by apply parameterColumnDefinition_wf, Hp.
  - intros a Ha. apply parameterColumnDefinition_not_EOF.
Qed.

(** Reshaping a response twice for the same client changes nothing. *)
Lemma padOKPacket_idem p : padOKPacket (padOKPacket p) = padOKPacket p.
Proof.
  unfold padOKPacket. destruct p as [s [|b l]]; [done|]. cbn [Payload SequenceID].
  destruct ((zlen (b :: l) =? 7) && bool_decide (b = okPacketHeader)) eqn:E;
    [|cbn [Payload]; by rewrite E].
  b2p. cbn [Payload app SequenceID]. rewrite (proj2 (Z.eqb_neq _ 7)); [done|].
  autorewrite with zlen in *. lia.
Qed.

Lemma WithCapabilities_idem r caps :
  WithCapabilities (WithCapabilities r caps) caps = WithCapabilities r caps.
Proof.
  destruct r as [[] ps c [st|] e]; try reflexivity. unfold WithCapabilities.
  cbn [r_Kind r_Statement r_Packets r_Close r_ProtocolError].
  destruct (has_flag caps CapabilitySessionTrack); cbn [negb]; [|reflexivity].
  cbn [r_Kind r_Statement r_Packets r_Close r_ProtocolError]. f_equal. rewrite map_map.
  apply map_ext. apply padOKPacket_idem.
Qed.

(** ** The properties of the component *)

(** An OK packet carries the statement's result to the client whatever the
    negotiated capabilities are: affected rows, insert id, warnings and the
    status text, the latter present also when it is empty and the client tracks
    the session. *)
Theorem ok_packet_roundtrip st caps :
  in_u 64 (sr_AffectedRows st) -> in_u 64 (sr_LastInsertID st) -> in_u 16 (sr_Warnings st) ->
  fits (sr_Status st) ->
  clientReadOK (OKPayloadWithCapabilities st caps)
  = Ok (sr_AffectedRows st, sr_LastInsertID st, StatusAutocommit, sr_Warnings st, sr_Status st).
Proof. apply clientReadOK_roundtrip. Qed.

Lemma ok_packet_roundtrip_witness :
  clientReadOK (OKPayloadWithCapabilities (mkStatementResult 70000 3 1 (str "done"))
    CapabilitySessionTrack) = Ok (70000, 3, 2, 1, str "done").
Proof.
  apply (ok_packet_roundtrip (mkStatementResult 70000 3 1 (str "done")) CapabilitySessionTrack);
    by vm_compute.
Defined.

(** Every ERR packet is well formed for any protocol error: the client reads
    the vendor code (1105 for none), a SQLSTATE of exactly five bytes, and the
    non-empty message. *)
Theorem err_packet_roundtrip e :
  clientReadERR (ERRPayload e) =
    Ok (wrap_u 16 (if pe_VendorCode e =? 0 then 1105 else pe_VendorCode e),
        normalizedSQLState (pe_SQLState e),
        if decide (pe_Message e = []) then str "unknown error" else pe_Message e) /\
  zlen (normalizedSQLState (pe_SQLState e)) = 5.
Proof. split; [apply clientReadERR_roundtrip|apply normalizedSQLState_length]. Qed.

(** The packets that answer COM_STMT_PREPARE give the client the statement
    id, the warnings, and one definition per placeholder and per result column,
    for every number of either that fits the protocol. *)
Theorem prepare_response_roundtrip d : in_u 16 (pd_Warnings d) ->
  zlen (pd_Parameters d) < 2 ^ 16 -> zlen (pd_ResultColumns d) < 2 ^ 16 ->
  Forall (fun p => fits (pr_Name p)) (pd_Parameters d) ->
  Forall (column_fits []) (pd_ResultColumns d) ->
  exists r, PreparedStatementResponse d = Ok r /\
    clientReadPrepare (r_Packets r)
    = Ok (wrap_u 32 (pd_HandleID d), pd_Warnings d, map parameterColumnDefinition (pd_Parameters d),
          map (fun c => NewColumnDefinition (protocolColumn c)) (pd_ResultColumns d)).
Proof. apply clientReadPrepare_roundtrip. Qed.

Lemma prepare_response_roundtrip_witness :
  let d := mkPreparedPlan 9 [mkParameterRef 1 [] DataTypeInt true]
    [mkResultColumn (str "id") DataTypeInt false (str "orders.id")] 0 in
  exists r, PreparedStatementResponse d = Ok r /\
    clientReadPrepare (r_Packets r)
    = Ok (wrap_u 32 9, 0, map parameterColumnDefinition (pd_Parameters d),
          map (fun c => NewColumnDefinition (protocolColumn c)) (pd_ResultColumns d)).
Proof.
  intros d. apply (prepare_response_roundtrip d); [by vm_compute|by vm_compute|by vm_compute|..].
  - constructor; [by vm_compute|constructor].
  - constructor; [repeat split; by vm_compute|constructor].
Defined.

(** Shaping a response for a client's capabilities is idempotent. *)
Theorem with_capabilities_idempotent r caps :
  WithCapabilities (WithCapabilities r caps) caps = WithCapabilities r caps.
Proof. apply WithCapabilities_idem. Qed.
