(* ===== verification/Hash.v ===== *)
(** * SHA-1 and SHA-256

    The digests of [crypto/sha1] and [crypto/sha256], as FIPS 180-4 defines
    them, on 32-bit words in [Z]. *)

From S2P Require Import Prelude GoStd.

(** ** Words *)

Definition w32 (z : Z) : Z := z mod 2 ^ 32.
Definition rotl (n x : Z) : Z := Z.lor (w32 (Z.shiftl x n)) (Z.shiftr x (32 - n)).
Definition rotr (n x : Z) : Z := rotl (32 - n) x.
Definition not32 (x : Z) : Z := 2 ^ 32 - 1 - x.

(** Big-endian words of a list of bytes. *)
Fixpoint be_words (l : bytes) : list Z :=
  match l with
  | a :: b :: c :: d :: l =>
    (ub a * 2 ^ 24 + ub b * 2 ^ 16 + ub c * 2 ^ 8 + ub d) :: be_words l
  | _ => []
  end.

(** The [n] low bytes of [v], most significant first. *)
Definition be_bytes (n : nat) (v : Z) : bytes := rev (le_bytes n v).

(** The message with its padding, in blocks of 16 words. *)
Definition padded (m : bytes) : bytes :=
  m ++ [byte_of 0x80] ++ replicate (Z.to_nat ((55 - zlen m) mod 64)) (byte_of 0)
  ++ be_bytes 8 (8 * zlen m).

Fixpoint blocks (fuel : nat) (ws : list Z) : list (list Z) :=
  match fuel with
  | O => []
  | S fuel => match ws with [] => [] | _ => take 16 ws :: blocks fuel (drop 16 ws) end
  end.

Definition message_blocks (m : bytes) : list (list Z) :=
  let ws := be_words (padded m) in blocks (length ws) ws.

(** ** SHA-1 *)

Definition sha1_init : list Z := [0x67452301; 0xefcdab89; 0x98badcfe; 0x10325476; 0xc3d2e1f0].

Definition sha1_f (t b c d : Z) : Z * Z :=
  if t <? 20 then (Z.lor (Z.land b c) (Z.land (not32 b) d), 0x5a827999)
  else if t <? 40 then (Z.lxor (Z.lxor b c) d, 0x6ed9eba1)
  else if t <? 60 then (Z.lor (Z.lor (Z.land b c) (Z.land b d)) (Z.land c d), 0x8f1bbcdc)
  else (Z.lxor (Z.lxor b c) d, 0xca62c1d6).

(** One round; [w] is the window of the next 16 schedule words. *)
Fixpoint sha1_rounds (fuel : nat) (t : Z) (w s : list Z) : list Z :=
  match fuel, w, s with
  | S fuel, w0 :: w, [a; b; c; d; e] =>
    let '(f, k) := sha1_f t b c d in
    let a' := w32 (rotl 5 a + f + e + k + w0) in
    let next := rotl 1 (Z.lxor (Z.lxor (nth 12 w 0) (nth 7 w 0)) (Z.lxor (nth 1 w 0) w0)) in
    sha1_rounds fuel (t + 1) (w ++ [next]) [a'; a; rotl 30 b; c; d]
  | _, _, _ => s
  end.

Definition add_words (s1 s2 : list Z) : list Z := zip_with (fun a b => w32 (a + b)) s1 s2.

Definition sha1_block (s block : list Z) : list Z := add_words s (sha1_rounds 80 0 block s).

(** [sha1.Sum] *)
Definition sha1 (m : bytes) : bytes :=
  flat_map (be_bytes 4) (fold_left sha1_block (message_blocks m) sha1_init).

(** ** SHA-256 *)

(** The initial words are the fractional parts of the square roots of the first
    eight primes, the round constants those of the cube roots of the first 64. *)
Definition primes (n : nat) : list Z :=
  take n (List.filter (fun p => forallb (fun d => negb (p mod Z.of_nat d =? 0)) (seq 2 (Z.to_nat p - 2)))
            (map Z.of_nat (seq 2 310))).

Fixpoint cube_root (bits : nat) (root n : Z) : Z :=
  match bits with
  | O => root
  | S bits =>
    let next := root + 2 ^ Z.of_nat bits in
    cube_root bits (if next ^ 3 <=? n then next else root) n
  end.

Definition sha256_init : list Z :=
  Eval vm_compute in map (fun p => w32 (Z.sqrt (p * 2 ^ 64))) (primes 8).

Definition sha256_k : list Z :=
  Eval vm_compute in map (fun p => w32 (cube_root 36 0 (p * 2 ^ 96))) (primes 64).

Definition xor3 (a b c : Z) : Z := Z.lxor (Z.lxor a b) c.

Fixpoint sha256_rounds (ks w s : list Z) : list Z :=
  match ks, w, s with
  | k :: ks, w0 :: w, [a; b; c; d; e; f; g; h] =>
    let S1 := xor3 (rotr 6 e) (rotr 11 e) (rotr 25 e) in
    let ch := Z.lxor (Z.land e f) (Z.land (not32 e) g) in
    let t1 := w32 (h + S1 + ch + k + w0) in
    let S0 := xor3 (rotr 2 a) (rotr 13 a) (rotr 22 a) in
    let maj := xor3 (Z.land a b) (Z.land a c) (Z.land b c) in
    let t2 := w32 (S0 + maj) in
    let w1 := nth 0 w 0 in
    let w14 := nth 13 w 0 in
    let s0 := xor3 (rotr 7 w1) (rotr 18 w1) (Z.shiftr w1 3) in
    let s1 := xor3 (rotr 17 w14) (rotr 19 w14) (Z.shiftr w14 10) in
    let next := w32 (s1 + nth 8 w 0 + s0 + w0) in
    sha256_rounds ks (w ++ [next]) [w32 (t1 + t2); a; b; c; w32 (d + t1); e; f; g]
  | _, _, _ => s
  end.

Definition sha256_block (s block : list Z) : list Z := add_words s (sha256_rounds sha256_k block s).

(** [sha256.Sum256] *)
Definition sha256 (m : bytes) : bytes :=
  flat_map (be_bytes 4) (fold_left sha256_block (message_blocks m) sha256_init).

(** ** Test vectors of FIPS 180-4 *)

Lemma sha1_abc : hex_encode (sha1 (str "abc")) = str "a9993e364706816aba3e25717850c26c9cd0d89d".
Proof. vm_compute. reflexivity. Qed.

Lemma sha256_abc : hex_encode (sha256 (str "abc"))
  = str "ba7816bf8f01cfea414140de5dae2223b00361a396177a9cb410ff61f20015ad".
Proof. vm_compute. reflexivity. Qed.

Lemma sha1_two_blocks :
  hex_encode (sha1 (str "abcdbcdecdefdefgefghfghighijhijkijkljklmklmnlmnomnopnopq"))
  = str "84983e441c3bd26ebaae4aa1f95129e5e54670f1".
Proof. vm_compute. reflexivity. Qed.

Lemma sha256_two_blocks :
  hex_encode (sha256 (str "abcdbcdecdefdefgefghfghighijhijkijkljklmklmnlmnomnopnopq"))
  = str "248d6a61d20638b8e5c026930c3e6039a33ce45964ff2167f6ecedd419db06c1".
Proof. vm_compute. reflexivity. Qed.

(** ** Digest lengths *)

Lemma sha1_rounds_length n : forall t w s, length s = 5%nat -> length (sha1_rounds n t w s) = 5%nat.
Proof.
  induction n as [|n IH]; intros t w s Hs; [done|]. cbn [sha1_rounds].
  destruct w as [|w0 w]; [done|].
  destruct s as [|a [|b [|c [|d [|e [|? s]]]]]]; try done.
  destruct (sha1_f t b c d) as [f k]. by apply IH.
Qed.

Lemma sha256_rounds_length ks : forall w s, length s = 8%nat -> length (sha256_rounds ks w s) = 8%nat.
Proof.
  induction ks as [|k ks IH]; intros w s Hs; [done|]. cbn [sha256_rounds].
  destruct w as [|w0 w]; [done|].
  destruct s as [|a [|b [|c [|d [|e [|f [|g [|h [|? s]]]]]]]]]; try done.
  by apply IH.
Qed.

Lemma fold_length {A} (f : list A -> list A -> list A) n bs : forall s,
  (forall s b, length s = n -> length (f s b) = n) -> length s = n -> length (fold_left f bs s) = n.
Proof. induction bs as [|b bs IH]; intros s Hf Hs; [done|]. apply IH; auto. Qed.

Lemma zlen_flat_be s : zlen (flat_map (be_bytes 4) s) = 4 * Z.of_nat (length s).
Proof.
  induction s as [|w s IH]; [done|]. cbn [flat_map length]. rewrite zlen_app, IH.
  unfold be_bytes. rewrite zlen_rev. change (zlen (le_bytes 4 w)) with 4. lia.
Qed.

Lemma zlen_sha1 m : zlen (sha1 m) = 20.
Proof.
  unfold sha1. rewrite zlen_flat_be, (fold_length _ 5); [done| |done].
  intros s b Hs. unfold sha1_block, add_words. rewrite length_zip_with, sha1_rounds_length by done. lia.
Qed.

Lemma zlen_sha256 m : zlen (sha256 m) = 32.
Proof.
  unfold sha256. rewrite zlen_flat_be, (fold_length _ 8); [done| |done].
  intros s b Hs. unfold sha256_block, add_words.
  rewrite length_zip_with, sha256_rounds_length by done. lia.
Qed.
