(* ===== verification/WALRecord.v ===== *)
(** * Records of the write-ahead log

    The records, frames and checkpoints of core/local_wal.go: their JSON texts,
    checksums and validation, and the inverse lemmas between writing a frame and
    reading it back. *)

From S2P Require Import Prelude GoStd GoTime Utf8 Json JsonValue JsonText JsonDecode Hash.

Definition LocalWALFormat : bytes := str "quantastream-local-wal".
Definition LocalWALCheckpointFormat : bytes := str "quantastream-local-wal-checkpoint".
Definition LocalWALVersion : Z := 1.

Definition LocalWALRecordKindPutRow : bytes := str "put_row".
Definition LocalWALRecordKindUpdateRow : bytes := str "update_row".
Definition LocalWALRecordKindCommit : bytes := str "commit".

Record LocalWALRecord : Type := mkRecord {
  Version : Z;
  LSN : Z;
  Timestamp : Time;
  Transaction : bytes;
  Statement : bytes;
  OperationID : bytes;
  Kind : bytes;
  Table : bytes;
  Payload : bytes }.

Record LocalWALFrame : Type := mkFrame { Format : bytes; RecordOf : LocalWALRecord; SHA256 : bytes }.

Record LocalWALCheckpoint : Type := mkCheckpoint {
  ck_Version : Z;
  ck_Format : bytes;
  ck_WALPath : bytes;
  ck_LastCommittedLSN : Z;
  ck_OperationID : bytes;
  ck_UpdatedAt : Time }.

Record LocalWALCheckpointFrame : Type := mkCheckpointFrame {
  cf_Format : bytes; cf_Checkpoint : LocalWALCheckpoint; cf_SHA256 : bytes }.

Definition zeroRecord : LocalWALRecord := mkRecord 0 0 zeroTime [] [] [] [] [] [].
Definition zeroFrame : LocalWALFrame := mkFrame [] zeroRecord [].
Definition zeroCheckpoint : LocalWALCheckpoint := mkCheckpoint 0 [] [] 0 [] zeroTime.
Definition zeroCheckpointFrame : LocalWALCheckpointFrame := mkCheckpointFrame [] zeroCheckpoint [].

(** ** Encoding *)

(** [json.Marshal] of a record, before printing. *)
Definition recordJSON (r : LocalWALRecord) : go json :=
  timestamp ← timeValue (Timestamp r);
  payload ← rawValue (Payload r);
  Ok (JObj (
    [field "version" (JNum (FormatInt (Version r))); field "lsn" (JNum (FormatUint (LSN r)));
     field "timestamp" timestamp]
    ++ optionalField "transaction" (Transaction r)
    ++ optionalField "statement" (Statement r)
    ++ [stringField "operation_id" (OperationID r); stringField "kind" (Kind r)]
    ++ optionalField "table" (Table r)
    ++ [field "payload" payload])).

Definition frameJSON (f : LocalWALFrame) : go json :=
  record ← recordJSON (RecordOf f);
  Ok (JObj [stringField "format" (Format f); field "record" record; stringField "sha256" (SHA256 f)]).

Definition checkpointJSON (c : LocalWALCheckpoint) : go json :=
  updated ← timeValue (ck_UpdatedAt c);
  Ok (JObj (
    [field "version" (JNum (FormatInt (ck_Version c))); stringField "format" (ck_Format c);
     stringField "wal_path" (ck_WALPath c); field "last_committed_lsn" (JNum (FormatUint (ck_LastCommittedLSN c)))]
    ++ optionalField "operation_id" (ck_OperationID c)
    ++ [field "updated_at" updated])).

Definition checkpointFrameJSON (f : LocalWALCheckpointFrame) : go json :=
  checkpoint ← checkpointJSON (cf_Checkpoint f);
  Ok (JObj [stringField "format" (cf_Format f); field "checkpoint" checkpoint; stringField "sha256" (cf_SHA256 f)]).

(** ** Decoding *)

Definition setRecord (r : LocalWALRecord) (m : member) : go LocalWALRecord :=
  let '(mkRecord version lsn timestamp transaction statement operation kind table payload) := r in
  let name := memberName m in
  let v := memberValue m in
  if decide (name = str "VERSION") then
    version ← decodeInt version v;
    Ok (mkRecord version lsn timestamp transaction statement operation kind table payload)
  else if decide (name = str "LSN") then
    lsn ← decodeUint64 lsn v;
    Ok (mkRecord version lsn timestamp transaction statement operation kind table payload)
  else if decide (name = str "TIMESTAMP") then
    timestamp ← decodeTime timestamp v;
    Ok (mkRecord version lsn timestamp transaction statement operation kind table payload)
  else if decide (name = str "TRANSACTION") then
    transaction ← decodeString transaction v;
    Ok (mkRecord version lsn timestamp transaction statement operation kind table payload)
  else if decide (name = str "STATEMENT") then
    statement ← decodeString statement v;
    Ok (mkRecord version lsn timestamp transaction statement operation kind table payload)
  else if decide (name = str "OPERATION_ID") then
    operation ← decodeString operation v;
    Ok (mkRecord version lsn timestamp transaction statement operation kind table payload)
  else if decide (name = str "KIND") then
    kind ← decodeString kind v;
    Ok (mkRecord version lsn timestamp transaction statement operation kind table payload)
  else if decide (name = str "TABLE") then
    table ← decodeString table v;
    Ok (mkRecord version lsn timestamp transaction statement operation kind table payload)
  else if decide (name = str "PAYLOAD") then
    Ok (mkRecord version lsn timestamp transaction statement operation kind table (memberText m))
  else Ok r.

Definition setFrame (f : LocalWALFrame) (m : member) : go LocalWALFrame :=
  let name := memberName m in
  let v := memberValue m in
  if decide (name = str "FORMAT") then
    format ← decodeString (Format f) v; Ok (mkFrame format (RecordOf f) (SHA256 f))
  else if decide (name = str "RECORD") then
    record ← decodeStruct setRecord (RecordOf f) v; Ok (mkFrame (Format f) record (SHA256 f))
  else if decide (name = str "SHA256") then
    sum ← decodeString (SHA256 f) v; Ok (mkFrame (Format f) (RecordOf f) sum)
  else Ok f.

Definition setCheckpoint (c : LocalWALCheckpoint) (m : member) : go LocalWALCheckpoint :=
  let '(mkCheckpoint version format path lsn operation updated) := c in
  let name := memberName m in
  let v := memberValue m in
  if decide (name = str "VERSION") then
    version ← decodeInt version v; Ok (mkCheckpoint version format path lsn operation updated)
  else if decide (name = str "FORMAT") then
    format ← decodeString format v; Ok (mkCheckpoint version format path lsn operation updated)
  else if decide (name = str "WAL_PATH") then
    path ← decodeString path v; Ok (mkCheckpoint version format path lsn operation updated)
  else if decide (name = str "LAST_COMMITTED_LSN") then
    lsn ← decodeUint64 lsn v; Ok (mkCheckpoint version format path lsn operation updated)
  else if decide (name = str "OPERATION_ID") then
    operation ← decodeString operation v; Ok (mkCheckpoint version format path lsn operation updated)
  else if decide (name = str "UPDATED_AT") then
    updated ← decodeTime updated v; Ok (mkCheckpoint version format path lsn operation updated)
  else Ok c.

Definition setCheckpointFrame (f : LocalWALCheckpointFrame) (m : member) : go LocalWALCheckpointFrame :=
  let name := memberName m in
  let v := memberValue m in
  if decide (name = str "FORMAT") then
    format ← decodeString (cf_Format f) v; Ok (mkCheckpointFrame format (cf_Checkpoint f) (cf_SHA256 f))
  else if decide (name = str "CHECKPOINT") then
    checkpoint ← decodeStruct setCheckpoint (cf_Checkpoint f) v;
    Ok (mkCheckpointFrame (cf_Format f) checkpoint (cf_SHA256 f))
  else if decide (name = str "SHA256") then
    sum ← decodeString (cf_SHA256 f) v; Ok (mkCheckpointFrame (cf_Format f) (cf_Checkpoint f) sum)
  else Ok f.

(** ** Checksums and validation *)

(** [fmt.Errorf("...: %w", err)] *)
Definition wrapErr {A} (fmt : string) (args : list earg) (m : go A) : go A :=
  match m with Err e => Err (Errorf fmt (args ++ [AErr e])) | m => m end.

Definition sumOf (v : json) : bytes := hex_encode (sha256 (print v)).

Definition localWALRecordChecksum (r : LocalWALRecord) : go bytes :=
  v ← wrapErr "marshal WAL record for checksum: %w" [] (recordJSON r);
  Ok (sumOf v).

Definition localWALCheckpointChecksum (c : LocalWALCheckpoint) : go bytes :=
  v ← wrapErr "marshal WAL checkpoint for checksum: %w" [] (checkpointJSON c);
  Ok (sumOf v).

Definition newLocalWALFrame (r : LocalWALRecord) : go LocalWALFrame :=
  checksum ← localWALRecordChecksum r;
  Ok (mkFrame LocalWALFormat r checksum).

Definition newLocalWALCheckpointFrame (c : LocalWALCheckpoint) : go LocalWALCheckpointFrame :=
  checksum ← localWALCheckpointChecksum c;
  Ok (mkCheckpointFrame LocalWALCheckpointFormat c checksum).

Definition validateLocalWALRecord (r : LocalWALRecord) : go unit :=
  if negb (Version r =? LocalWALVersion) then Err (Errorf "unsupported WAL record version %d" [AInt (Version r)])
  else if LSN r =? 0 then Err (Errorf "WAL record LSN is required" [])
  else if decide (TrimSpace (Kind r) = []) then Err (Errorf "WAL record kind is required" [])
  else if decide (TrimSpace (OperationID r) = []) then Err (Errorf "WAL record operation_id is required" [])
  else if decide (Payload r = []) then Err (Errorf "WAL record payload is required" [])
  else if negb (Valid (Payload r)) then Err (Errorf "WAL record payload is not valid JSON" [])
  else Ok tt.

Definition validateLocalWALFrame (f : LocalWALFrame) : go unit :=
  if decide (Format f <> LocalWALFormat) then Err (Errorf "unsupported WAL format %q" [AStr (Format f)])
  else
    validateLocalWALRecord (RecordOf f) ≫= fun _ =>
    checksum ← localWALRecordChecksum (RecordOf f);
    if decide (checksum <> SHA256 f) then Err (Errorf "checksum mismatch for lsn=%d" [AInt (LSN (RecordOf f))])
    else Ok tt.

Definition validateLocalWALCheckpointFrame (f : LocalWALCheckpointFrame) : go unit :=
  let c := cf_Checkpoint f in
  if decide (cf_Format f <> LocalWALCheckpointFormat) then
    Err (Errorf "unsupported WAL checkpoint format %q" [AStr (cf_Format f)])
  else if negb (ck_Version c =? LocalWALVersion) then
    Err (Errorf "unsupported WAL checkpoint version %d" [AInt (ck_Version c)])
  else if decide (ck_Format c <> LocalWALCheckpointFormat) then
    Err (Errorf "unsupported WAL checkpoint inner format %q" [AStr (ck_Format c)])
  else
    checksum ← localWALCheckpointChecksum c;
    if decide (checksum <> cf_SHA256 f) then Err (Errorf "WAL checkpoint checksum mismatch" [])
    else Ok tt.

(** [json.Marshal] of a new frame. *)
Definition frameText (r : LocalWALRecord) : go bytes :=
  frame ← newLocalWALFrame r;
  v ← wrapErr "marshal WAL frame: %w" [] (frameJSON frame);
  Ok (print v).

(** [json.MarshalIndent] of a new checkpoint frame. *)
Definition checkpointText (c : LocalWALCheckpoint) : go bytes :=
  frame ← newLocalWALCheckpointFrame c;
  v ← wrapErr "marshal WAL checkpoint: %w" [] (checkpointFrameJSON frame);
  Ok (printIndent 0 v).

(** ** Lemmas: a record read back *)

(** What can be written and read back: an LSN of 64 bits, an instant that prints,
    strings in UTF-8, and a payload that nests two brackets less than the scanner
    allows, since a frame puts two around it. *)
Record storable (r : LocalWALRecord) : Prop := {
  st_version : Version r = LocalWALVersion;
  st_lsn : 0 < LSN r < 2 ^ 64;
  st_time : printableTime (Timestamp r);
  st_transaction : valid8 (Transaction r) = true;
  st_statement : valid8 (Statement r) = true;
  st_operation : valid8 (OperationID r) = true;
  st_kind : valid8 (Kind r) = true;
  st_table : valid8 (Table r) = true;
  st_kind_given : TrimSpace (Kind r) <> [];
  st_operation_given : TrimSpace (OperationID r) <> [];
  st_payload : exists v, parseJSON (Payload r) = Some v /\ nesting v + 2 <= maxNestingDepth }.

(** The record with the payload as a frame holds it. *)
Definition stored (r : LocalWALRecord) : LocalWALRecord :=
  let '(mkRecord version lsn timestamp transaction statement operation kind table payload) := r in
  mkRecord version lsn timestamp transaction statement operation kind table (default payload (compact payload)).

Lemma decodeString_escape old s : valid8 s = true -> decodeString old (JStr (escapeString s)) = Ok s.
Proof. intros Hs. simpl. by rewrite unquote_escapeString, sanitize_valid. Qed.

Section SetRecord.

Variables (version lsn : Z) (timestamp : Time) (transaction statement operation kind table payload : bytes).

Let r := mkRecord version lsn timestamp transaction statement operation kind table payload.

Lemma set_version z : 0 <= z < 2 ^ 63 -> setRecord r (field "version" (JNum (FormatInt z)))
  = Ok (mkRecord z lsn timestamp transaction statement operation kind table payload).
Proof.
  intros Hz. change (setRecord r _) with (version ← decodeInt version (JNum (FormatInt z));
    Ok (mkRecord version lsn timestamp transaction statement operation kind table payload)).
  unfold decodeInt, decodeNumber. by rewrite ParseInt_FormatInt.
Qed.

Lemma set_lsn z : 0 <= z < 2 ^ 64 -> setRecord r (field "lsn" (JNum (FormatUint z)))
  = Ok (mkRecord version z timestamp transaction statement operation kind table payload).
Proof.
  intros Hz. change (setRecord r _) with (lsn ← decodeUint64 lsn (JNum (FormatUint z));
    Ok (mkRecord version lsn timestamp transaction statement operation kind table payload)).
  unfold decodeUint64, decodeNumber. by rewrite ParseUint_FormatUint.
Qed.

Lemma set_timestamp s t : parseRFC3339 s = Some t -> setRecord r (field "timestamp" (JStr s))
  = Ok (mkRecord version lsn t transaction statement operation kind table payload).
Proof.
  intros Hs. change (setRecord r _) with (timestamp ← decodeTime timestamp (JStr s);
    Ok (mkRecord version lsn timestamp transaction statement operation kind table payload)).
  simpl. by rewrite Hs.
Qed.

Lemma set_operation s : valid8 s = true -> setRecord r (stringField "operation_id" s)
  = Ok (mkRecord version lsn timestamp transaction statement s kind table payload).
Proof.
  intros Hs. change (setRecord r _) with (operation ← decodeString operation (JStr (escapeString s));
    Ok (mkRecord version lsn timestamp transaction statement operation kind table payload)).
  by rewrite decodeString_escape.
Qed.

Lemma set_kind s : valid8 s = true -> setRecord r (stringField "kind" s)
  = Ok (mkRecord version lsn timestamp transaction statement operation s table payload).
Proof.
  intros Hs. change (setRecord r _) with (kind ← decodeString kind (JStr (escapeString s));
    Ok (mkRecord version lsn timestamp transaction statement operation kind table payload)).
  by rewrite decodeString_escape.
Qed.

Lemma set_transaction s : valid8 s = true -> transaction = [] ->
  decodeMembers setRecord (optionalField "transaction" s) r
  = Ok (mkRecord version lsn timestamp s statement operation kind table payload).
Proof.
  intros Hs Ht. unfold optionalField. case_decide as E; [by rewrite E, <- Ht|].
  change (decodeMembers setRecord _ r) with (transaction ← decodeString transaction (JStr (escapeString s));
    decodeMembers setRecord [] (mkRecord version lsn timestamp transaction statement operation kind table payload)).
  by rewrite decodeString_escape.
Qed.

Lemma set_statement s : valid8 s = true -> statement = [] ->
  decodeMembers setRecord (optionalField "statement" s) r
  = Ok (mkRecord version lsn timestamp transaction s operation kind table payload).
Proof.
  intros Hs Ht. unfold optionalField. case_decide as E; [by rewrite E, <- Ht|].
  change (decodeMembers setRecord _ r) with (statement ← decodeString statement (JStr (escapeString s));
    decodeMembers setRecord [] (mkRecord version lsn timestamp transaction statement operation kind table payload)).
  by rewrite decodeString_escape.
Qed.

Lemma set_table s : valid8 s = true -> table = [] ->
  decodeMembers setRecord (optionalField "table" s) r
  = Ok (mkRecord version lsn timestamp transaction statement operation kind s payload).
Proof.
  intros Hs Ht. unfold optionalField. case_decide as E; [by rewrite E, <- Ht|].
  change (decodeMembers setRecord _ r) with (table ← decodeString table (JStr (escapeString s));
    decodeMembers setRecord [] (mkRecord version lsn timestamp transaction statement operation kind table payload)).
  by rewrite decodeString_escape.
Qed.

Lemma set_payload v : setRecord r (field "payload" v)
  = Ok (mkRecord version lsn timestamp transaction statement operation kind table (print v)).
Proof. reflexivity. Qed.

End SetRecord.

Lemma timeValue_ok t : printableTime t ->
  exists s, timeValue t = Ok (JStr s) /\ parseRFC3339 s = Some t /\ forall d, printable d (JStr s).
Proof.
  intros Ht. destruct (parse_formatRFC3339 t Ht) as (s & E & P & Hp). exists s. unfold timeValue. rewrite E.
  split_and!; [done..|]. intros d. by apply r_str, plain_ok.
Qed.

(** The record as JSON: printable inside a frame, and decoded to what is stored. *)
Lemma recordJSON_ok r : storable r ->
  exists v, recordJSON r = Ok v /\ tidy v = v /\ printable 1 v /\ decodeStruct setRecord zeroRecord v = Ok (stored r).
Proof.
  intros [Hv Hl Ht Htr Hst Hop Hk Htb _ _ (p & Hp & Hd)].
  destruct r as [version lsn timestamp transaction statement operation kind table payload].
  cbn [Version LSN Timestamp Transaction Statement OperationID Kind Table Payload] in *.
  destruct (timeValue_ok timestamp Ht) as (s & Es & Ps & Prs).
  unfold recordJSON, rawValue. cbn [Version LSN Timestamp Transaction Statement OperationID Kind Table Payload].
  rewrite Es, Hp. eexists. split; [done|]. split; [|split].
  - apply tidy_fields. rewrite !Forall_app. split_and!; try apply optionalField_tidy;
      repeat (apply List.Forall_cons; [apply tidyMember_field|]); constructor.
  - apply object_printable; [unfold maxNestingDepth; lia|].
    change (Forall (printableMember 2) (
      [field "version" (JNum (FormatInt version)); field "lsn" (JNum (FormatUint lsn)); field "timestamp" (JStr s)]
      ++ optionalField "transaction" transaction ++ optionalField "statement" statement
      ++ [stringField "operation_id" operation; stringField "kind" kind]
      ++ optionalField "table" table ++ [field "payload" (escapeValue p)])).
    rewrite !Forall_app. split_and!; try (apply optionalField_printable; vm_compute; reflexivity).
    + repeat apply Forall_cons_2; [..|constructor]; (apply field_printable; [vm_compute; reflexivity|]);
        [apply r_num, FormatInt_ok; unfold LocalWALVersion in *; lia|apply r_num, FormatUint_ok; lia|apply Prs].
    + repeat apply Forall_cons_2; [..|constructor]; (apply stringField_printable; vm_compute; reflexivity).
    + apply Forall_singleton, field_printable; [vm_compute; reflexivity|].
      apply (parsed_printable _ _ 2 Hp). lia.
  - cbn [decodeStruct]. rewrite decodeMembers_app. cbn [decodeMembers]. unfold zeroRecord, stored.
    rewrite set_version by (unfold LocalWALVersion in *; lia). cbn [mbind go_bind].
    rewrite set_lsn by lia. cbn [mbind go_bind]. rewrite (set_timestamp _ _ _ _ _ _ _ _ _ _ _ Ps). cbn [mbind go_bind].
    rewrite decodeMembers_app, set_transaction by done. cbn [mbind go_bind].
    rewrite decodeMembers_app, set_statement by done. cbn [mbind go_bind app decodeMembers].
    rewrite set_operation by done. cbn [mbind go_bind]. rewrite set_kind by done. cbn [mbind go_bind].
    rewrite decodeMembers_app, set_table by done. cbn [mbind go_bind decodeMembers]. rewrite set_payload.
    unfold compact. by rewrite Hp.
Qed.

Lemma stored_payload r v : parseJSON (Payload r) = Some v -> nesting v <= maxNestingDepth ->
  parseJSON (Payload (stored r)) = Some (tidy (escapeValue v)).
Proof.
  intros Hp Hd. destruct r as [? ? ? ? ? ? ? ? payload]. cbn [stored Payload] in *. unfold compact.
  rewrite Hp. simpl. apply parseJSON_print. by eapply (parsed_printable _ _ 0).
Qed.

Lemma sumOf_print v w : print v = print w -> sumOf v = sumOf w.
Proof. unfold sumOf. by intros ->. Qed.

(** The stored record has the checksum of the record. *)
Lemma checksum_stored r : storable r -> localWALRecordChecksum (stored r) = localWALRecordChecksum r.
Proof.
  intros Hr. destruct (st_payload r Hr) as (p & Hp & Hd).
  pose proof (stored_payload r p Hp ltac:(lia)) as Hs.
  destruct (timeValue_ok _ (st_time r Hr)) as (s & Es & _).
  destruct r as [version lsn timestamp transaction statement operation kind table payload].
  unfold localWALRecordChecksum, recordJSON, rawValue. cbn [stored Payload] in *.
  cbn [Version LSN Timestamp Transaction Statement OperationID Kind Table Payload] in *.
  rewrite Es, Hs, Hp. cbn [mbind go_bind wrapErr]. apply (f_equal (@Ok bytes)), sumOf_print.
  cbn [print]. rewrite !map_app. do 7 f_equal.
  cbn [map field]. by rewrite !print_tidy, print_escape_tidy, print_escape_idem.
Qed.

(** ** Lemmas: a frame read back *)

Lemma validate_storable r : storable r -> validateLocalWALRecord r = Ok tt.
Proof.
  intros [Hv Hl _ _ _ _ _ _ Hk Ho (p & Hp & _)]. unfold validateLocalWALRecord, Valid. rewrite Hp, Hv.
  replace (negb (_ =? _)) with false by done. if_false.
  rewrite decide_False by done. rewrite decide_False by done.
  rewrite decide_False; [done|]. intros E. by rewrite E in Hp.
Qed.

Lemma fold_max_map {A} (f g : A -> Z) l : Forall (fun x => f x = g x) l ->
  fold_right Z.max 0 (map f l) = fold_right Z.max 0 (map g l).
Proof. intros H. f_equal. by apply map_ext_Forall. Qed.

Lemma nesting_tidy_escape v : nesting (tidy (escapeValue v)) = nesting v.
Proof.
  induction v as [| | | |es IH|ms IH] using json_induction; try done; cbn [escapeValue tidy nesting]; rewrite !map_map;
    f_equal; apply fold_max_map; (eapply Forall_impl; [exact IH|]); [done|].
  by intros (key & text & v) Hv.
Qed.

(** What is stored can be stored. *)
Lemma stored_storable r : storable r -> storable (stored r).
Proof.
  intros Hr. destruct (st_payload r Hr) as (p & Hp & Hd).
  pose proof (stored_payload r p Hp ltac:(lia)) as Hs.
  destruct Hr as [Hv Hl Ht Htr Hst Hop Hk Htb Hkg Hog _]. destruct r. constructor; try done.
  exists (tidy (escapeValue p)). by rewrite nesting_tidy_escape.
Qed.

Lemma validate_stored r : storable r -> validateLocalWALRecord (stored r) = Ok tt.
Proof. intros Hr. by apply validate_storable, stored_storable. Qed.

Lemma sumOf_valid v : valid8 (sumOf v) = true.
Proof. apply ascii_valid, hex_encode_ascii. Qed.

Lemma setFrame_format f s : valid8 s = true ->
  setFrame f (stringField "format" s) = Ok (mkFrame s (RecordOf f) (SHA256 f)).
Proof.
  intros Hs. change (setFrame f _) with (x ← decodeString (Format f) (JStr (escapeString s));
    Ok (mkFrame x (RecordOf f) (SHA256 f))). by rewrite decodeString_escape.
Qed.

Lemma setFrame_sum f s : valid8 s = true ->
  setFrame f (stringField "sha256" s) = Ok (mkFrame (Format f) (RecordOf f) s).
Proof.
  intros Hs. change (setFrame f _) with (x ← decodeString (SHA256 f) (JStr (escapeString s));
    Ok (mkFrame (Format f) (RecordOf f) x)). by rewrite decodeString_escape.
Qed.

Lemma setFrame_record f v r : tidy v = v -> decodeStruct setRecord (RecordOf f) v = Ok r ->
  setFrame f (field "record" v) = Ok (mkFrame (Format f) r (SHA256 f)).
Proof.
  intros Ht Hr. change (setFrame f _) with (x ← decodeStruct setRecord (RecordOf f) (tidy v);
    Ok (mkFrame (Format f) x (SHA256 f))). by rewrite Ht, Hr.
Qed.

(** The frame of a record that can be stored: one line in braces, which is read back
    as a valid frame of the stored record. *)
Lemma frameText_ok r : storable r ->
  exists text frame, frameText r = Ok text /\ oneLine text /\
    (exists inner, text = str "{" ++ inner ++ str "}") /\
    Unmarshal setFrame zeroFrame text = Ok frame /\ RecordOf frame = stored r /\
    validateLocalWALFrame frame = Ok tt.
Proof.
  intros Hr. destruct (recordJSON_ok r Hr) as (v & Ev & Tv & Pv & Dv).
  assert (Ec : localWALRecordChecksum r = Ok (sumOf v)) by (unfold localWALRecordChecksum; by rewrite Ev).
  pose proof (checksum_stored r Hr) as Es. rewrite Ec in Es.
  unfold frameText, newLocalWALFrame. rewrite Ec. cbn [mbind go_bind]. unfold frameJSON. cbn [RecordOf Format SHA256].
  rewrite Ev. cbn [mbind go_bind wrapErr].
  set (ms := [stringField "format" LocalWALFormat; field "record" v; stringField "sha256" (sumOf v)]).
  assert (Pm : printable 0 (JObj ms)).
  { apply object_printable; [unfold maxNestingDepth; lia|]. change (Forall (printableMember 1) ms).
    repeat apply Forall_cons_2; [..|constructor].
    - apply stringField_printable. vm_compute. reflexivity.
    - apply field_printable; [vm_compute; reflexivity|done].
    - apply stringField_printable. vm_compute. reflexivity. }
  exists (print (JObj ms)), (mkFrame LocalWALFormat (stored r) (sumOf v)). split_and!; [done|by eapply print_oneLine| | |done|].
  - eexists. cbn [print]. reflexivity.
  - unfold Unmarshal. rewrite parseJSON_print by done. rewrite tidy_fields.
    + cbn [decodeStruct decodeMembers ms]. rewrite setFrame_format by (vm_compute; reflexivity). cbn [mbind go_bind].
      rewrite (setFrame_record _ v (stored r)) by done. cbn [mbind go_bind].
      by rewrite setFrame_sum by apply sumOf_valid.
    + repeat (apply List.Forall_cons; [apply tidyMember_field|]). constructor.
  - unfold validateLocalWALFrame. cbn [Format RecordOf SHA256]. rewrite decide_False by (intros H; by apply H).
    rewrite validate_stored by done. cbn [mbind go_bind]. rewrite Es. cbn [mbind go_bind].
    rewrite decide_False; [done|]. intros H. by apply H.
Qed.

(** ** Lemmas: a checkpoint read back *)

Record storableCheckpoint (c : LocalWALCheckpoint) : Prop := {
  sc_version : ck_Version c = LocalWALVersion;
  sc_format : ck_Format c = LocalWALCheckpointFormat;
  sc_path : valid8 (ck_WALPath c) = true;
  sc_lsn : 0 <= ck_LastCommittedLSN c < 2 ^ 64;
  sc_operation : valid8 (ck_OperationID c) = true;
  sc_time : printableTime (ck_UpdatedAt c) }.

Section SetCheckpoint.

Variables (version : Z) (format path : bytes) (lsn : Z) (operation : bytes) (updated : Time).

Let c := mkCheckpoint version format path lsn operation updated.

Lemma setck_version z : 0 <= z < 2 ^ 63 -> setCheckpoint c (field "version" (JNum (FormatInt z)))
  = Ok (mkCheckpoint z format path lsn operation updated).
Proof.
  intros Hz. change (setCheckpoint c _) with (version ← decodeInt version (JNum (FormatInt z));
    Ok (mkCheckpoint version format path lsn operation updated)).
  unfold decodeInt, decodeNumber. by rewrite ParseInt_FormatInt.
Qed.

Lemma setck_format s : valid8 s = true -> setCheckpoint c (stringField "format" s)
  = Ok (mkCheckpoint version s path lsn operation updated).
Proof.
  intros Hs. change (setCheckpoint c _) with (format ← decodeString format (JStr (escapeString s));
    Ok (mkCheckpoint version format path lsn operation updated)). by rewrite decodeString_escape.
Qed.

Lemma setck_path s : valid8 s = true -> setCheckpoint c (stringField "wal_path" s)
  = Ok (mkCheckpoint version format s lsn operation updated).
Proof.
  intros Hs. change (setCheckpoint c _) with (path ← decodeString path (JStr (escapeString s));
    Ok (mkCheckpoint version format path lsn operation updated)). by rewrite decodeString_escape.
Qed.

Lemma setck_lsn z : 0 <= z < 2 ^ 64 -> setCheckpoint c (field "last_committed_lsn" (JNum (FormatUint z)))
  = Ok (mkCheckpoint version format path z operation updated).
Proof.
  intros Hz. change (setCheckpoint c _) with (lsn ← decodeUint64 lsn (JNum (FormatUint z));
    Ok (mkCheckpoint version format path lsn operation updated)).
  unfold decodeUint64, decodeNumber. by rewrite ParseUint_FormatUint.
Qed.

Lemma setck_operation s : valid8 s = true -> operation = [] ->
  decodeMembers setCheckpoint (optionalField "operation_id" s) c
  = Ok (mkCheckpoint version format path lsn s updated).
Proof.
  intros Hs Ht. unfold optionalField. case_decide as E; [by rewrite E, <- Ht|].
  change (decodeMembers setCheckpoint _ c) with (operation ← decodeString operation (JStr (escapeString s));
    decodeMembers setCheckpoint [] (mkCheckpoint version format path lsn operation updated)).
  by rewrite decodeString_escape.
Qed.

Lemma setck_updated s t : parseRFC3339 s = Some t -> setCheckpoint c (field "updated_at" (JStr s))
  = Ok (mkCheckpoint version format path lsn operation t).
Proof.
  intros Hs. change (setCheckpoint c _) with (updated ← decodeTime updated (JStr s);
    Ok (mkCheckpoint version format path lsn operation updated)). simpl. by rewrite Hs.
Qed.

End SetCheckpoint.

(** Values without brackets print the same with indentation. *)
Definition leaf (m : member) : Prop := forall level, tidyIndent level m.2.2 = m.2.2.

Lemma leaf_optional name s : Forall leaf (optionalField name s).
Proof. unfold optionalField. case_decide; [constructor|]. by apply Forall_singleton. Qed.

Lemma checkpointJSON_ok c : storableCheckpoint c ->
  exists ms, checkpointJSON c = Ok (JObj ms) /\ Forall (printableMember 2) ms /\ Forall leaf ms /\
    Forall (fun m => tidyMember m = m) ms /\ decodeMembers setCheckpoint ms zeroCheckpoint = Ok c.
Proof.
  intros [Hv Hf Hp Hl Ho Ht]. destruct c as [version format path lsn operation updated].
  cbn [ck_Version ck_Format ck_WALPath ck_LastCommittedLSN ck_OperationID ck_UpdatedAt] in *.
  destruct (timeValue_ok updated Ht) as (s & Es & Ps & Prs). unfold checkpointJSON.
  cbn [ck_Version ck_Format ck_WALPath ck_LastCommittedLSN ck_OperationID ck_UpdatedAt]. rewrite Es.
  eexists. split; [done|]. split_and!.
  - rewrite !Forall_app. split_and!; [|apply optionalField_printable; vm_compute; reflexivity|].
    + repeat apply Forall_cons_2; [..|constructor]; try (apply stringField_printable; vm_compute; reflexivity);
        (apply field_printable; [vm_compute; reflexivity|]); apply r_num;
        [apply FormatInt_ok; unfold LocalWALVersion in *; lia|apply FormatUint_ok; lia].
    + apply Forall_singleton, field_printable; [vm_compute; reflexivity|apply Prs].
  - rewrite !Forall_app. split_and!; [by repeat apply Forall_cons_2|apply leaf_optional|by apply Forall_singleton].
  - rewrite !Forall_app. split_and!; try apply optionalField_tidy;
      repeat (apply List.Forall_cons; [apply tidyMember_field|]); constructor.
  - rewrite decodeMembers_app. cbn [decodeMembers]. unfold zeroCheckpoint.
    rewrite setck_version by (unfold LocalWALVersion in *; lia). cbn [mbind go_bind].
    rewrite setck_format by (rewrite Hf; vm_compute; reflexivity). cbn [mbind go_bind].
    rewrite setck_path by done. cbn [mbind go_bind]. rewrite setck_lsn by done. cbn [mbind go_bind].
    rewrite decodeMembers_app, setck_operation by done. cbn [mbind go_bind decodeMembers].
    by rewrite (setck_updated _ _ _ _ _ _ _ _ Ps).
Qed.

Lemma decode_indented level ms : Forall leaf ms -> forall c,
  decodeStruct setCheckpoint c (tidyIndent level (JObj ms)) = decodeMembers setCheckpoint ms c.
Proof.
  intros Hms. cbn [tidyIndent decodeStruct]. induction Hms as [|[key [text v]] ms Hm Hms IH]; intros c; [done|].
  cbn [map decodeMembers]. rewrite (Hm (S level) : tidyIndent (S level) v = v).
  change (setCheckpoint c (key, (printIndent (S level) v, v))) with (setCheckpoint c (key, (text, v))).
  unfold mbind, go_bind. destruct (setCheckpoint c (key, (text, v))); [apply IH|done..].
Qed.

(** A checkpoint that can be stored is read back from its text. *)
Lemma checkpointText_ok c : storableCheckpoint c ->
  exists text frame, checkpointText c = Ok text /\
    Unmarshal setCheckpointFrame zeroCheckpointFrame text = Ok frame /\ cf_Checkpoint frame = c /\
    validateLocalWALCheckpointFrame frame = Ok tt.
Proof.
  intros Hc. destruct (checkpointJSON_ok c Hc) as (ms & Ev & Pm & Lm & Tm & Dm).
  assert (Ec : localWALCheckpointChecksum c = Ok (sumOf (JObj ms))) by (unfold localWALCheckpointChecksum; by rewrite Ev).
  unfold checkpointText, newLocalWALCheckpointFrame. rewrite Ec. cbn [mbind go_bind]. unfold checkpointFrameJSON.
  cbn [cf_Checkpoint cf_Format cf_SHA256]. rewrite Ev. cbn [mbind go_bind wrapErr].
  set (sum := sumOf (JObj ms)) in *.
  set (fs := [stringField "format" LocalWALCheckpointFormat; field "checkpoint" (JObj ms); stringField "sha256" sum]).
  assert (Pf : printable 0 (JObj fs)).
  { apply object_printable; [unfold maxNestingDepth; lia|]. change (Forall (printableMember 1) fs).
    repeat apply Forall_cons_2; [..|constructor]; try (apply stringField_printable; vm_compute; reflexivity).
    apply field_printable; [vm_compute; reflexivity|]. apply object_printable; [unfold maxNestingDepth; lia|done]. }
  exists (printIndent 0 (JObj fs)), (mkCheckpointFrame LocalWALCheckpointFormat c sum). split_and!; [done| |done|].
  - unfold Unmarshal. rewrite parseJSON_printIndent by done.
    change (decodeStruct setCheckpointFrame zeroCheckpointFrame (tidyIndent 0 (JObj fs))) with
      (f1 ← setCheckpointFrame zeroCheckpointFrame (stringField "format" LocalWALCheckpointFormat);
       f2 ← (x ← decodeStruct setCheckpoint (cf_Checkpoint f1) (tidyIndent 1 (tidy (JObj ms)));
             Ok (mkCheckpointFrame (cf_Format f1) x (cf_SHA256 f1)));
       f3 ← (x ← decodeString (cf_SHA256 f2) (JStr (escapeString sum));
             Ok (mkCheckpointFrame (cf_Format f2) (cf_Checkpoint f2) x));
       Ok f3).
    change (setCheckpointFrame zeroCheckpointFrame (stringField "format" LocalWALCheckpointFormat)) with
      (x ← decodeString [] (JStr (escapeString LocalWALCheckpointFormat));
       Ok (mkCheckpointFrame x zeroCheckpoint [])).
    rewrite decodeString_escape by (vm_compute; reflexivity). cbn [mbind go_bind cf_Checkpoint cf_Format cf_SHA256].
    rewrite tidy_fields, decode_indented, Dm by done. cbn [mbind go_bind cf_Checkpoint cf_Format cf_SHA256].
    by rewrite decodeString_escape by apply sumOf_valid.
  - unfold validateLocalWALCheckpointFrame. cbn [cf_Format cf_Checkpoint cf_SHA256].
    rewrite decide_False by (intros H; by apply H). rewrite (sc_version c Hc).
    replace (negb (_ =? _)) with false by done. rewrite decide_False by (intros H; apply H, Hc).
    rewrite Ec. cbn [mbind go_bind]. rewrite decide_False; [done|]. intros H. by apply H.
Qed.
