(* ===== verification/WAL.v ===== *)
(** * The write-ahead log

    The local write-ahead log of core/local_wal.go: reading and repairing the
    log file, opening it, appending records, commit boundaries, checkpoints, the
    recovery plan and replay, over the model of files in GoFs. *)

From S2P Require Import Prelude GoState GoFs GoStd GoTime Json JsonValue JsonText JsonDecode Hash WALRecord.

(** ** Paths *)

Record URL : Type := mkURL { url_Scheme : bytes; url_Host : bytes; url_Path : bytes }.

(** The process: its working directory, and [url.Parse]. *)
Class Process : Type := {
  Getwd : go bytes;
  url_Parse : bytes -> go URL }.

Fixpoint splitOn (c : Z) (s : bytes) : list bytes :=
  match s with
  | [] => [[]]
  | b :: s =>
    if ub b =? c then [] :: splitOn c s
    else match splitOn c s with [] => [[b]] | w :: ws => (b :: w) :: ws end
  end.

(** One element of a path on the stack of those before it. *)
Definition cleanStep (rooted : bool) (stack : list bytes) (element : bytes) : list bytes :=
  if decide (element = []) then stack
  else if decide (element = str ".") then stack
  else if decide (element = str "..") then
    match stack with
    | [] => if rooted then [] else [str ".."]
    | top :: below => if decide (top = str "..") then str ".." :: stack else below
    end
  else element :: stack.

Definition isAbs (path : bytes) : bool := match path with b :: _ => ub b =? 47 | [] => false end.

(** [filepath.Clean] *)
Definition Clean (path : bytes) : bytes :=
  let rooted := isAbs path in
  let body := join (str "/") (rev (fold_left (cleanStep rooted) (splitOn 47 path) [])) in
  if rooted then str "/" ++ body else if decide (body = []) then str "." else body.

(** [strings.Contains] *)
Fixpoint Contains (s sub : bytes) : bool :=
  match strip_prefix sub s with
  | Some _ => true
  | None => match s with [] => false | _ :: s => Contains s sub end
  end.

Section Log.

Context `{P : Process}.

(** [filepath.Abs] *)
Definition Abs (path : bytes) : go bytes :=
  if isAbs path then Ok (Clean path)
  else wd ← Getwd; Ok (Clean (wd ++ str "/" ++ path)).

Definition ResolveLocalFileTarget (location : bytes) : go bytes :=
  let location := TrimSpace location in
  if decide (location = []) then Err (Errorf "local backup target is required" [])
  else
    location ←
      (if Contains location (str "://") then
         parsed ← wrapErr "parse backup target %q: %w" [AStr location] (url_Parse location);
         if decide (url_Scheme parsed <> str "file") then
           Err (Errorf "unsupported backup target scheme %q; only file:// is supported. Use a local path or file:///path; cloud backup targets are adapter work outside the core local snapshot path" [AStr (url_Scheme parsed)])
         else if decide (url_Host parsed <> []) then
           Err (Errorf "file backup target must not include a host: %q" [AStr location])
         else Ok (url_Path parsed)
       else Ok location);
    if decide (TrimSpace location = []) then Err (Errorf "local backup target path is required" [])
    else
      abs ← wrapErr "resolve backup target %q: %w" [AStr location] (Abs location);
      Ok (Clean abs).

Definition localWALCheckpointPath (walPath override : bytes) : go bytes :=
  if decide (TrimSpace override <> []) then ResolveLocalFileTarget override
  else if decide (TrimSpace walPath = []) then Err (Errorf "WAL path is required" [])
  else Ok (Clean walPath ++ str ".checkpoint.json").

(** ** Reading *)

Record localWALReadResult : Type := mkRead {
  Records : list LocalWALRecord;
  ByteCount : Z;
  ValidByteCount : Z;
  TornTailBytes : Z;
  TornTailLine : Z }.

Definition emptyRead : localWALReadResult := mkRead [] 0 0 0 0.

(** The lines of the data with their ends, and what follows the last one. *)
Fixpoint splitLines (s : bytes) : list bytes * bytes :=
  match s with
  | [] => ([], [])
  | b :: s =>
    let '(lines, tail) := splitLines s in
    if ub b =? 10 then ([b] :: lines, tail)
    else match lines with [] => ([], b :: tail) | l :: lines => ((b :: l) :: lines, tail) end
  end.

(** The loop's variables: the result, [lastLSN] and [lineNumber]. *)
Record scan : Type := mkScan { scanned : localWALReadResult; scanLSN : Z; scanLine : Z }.

Definition scanStart : scan := mkScan emptyRead 0 0.

(** A line, past the test for a torn tail. *)
Definition readFrameLine (st : scan) (line : bytes) : go scan :=
  let '(mkRead records count valid torn tornLine) := scanned st in
  let count := count + zlen line in
  let lineNumber := scanLine st + 1 in
  let line := TrimSpace line in
  if decide (line = []) then Ok (mkScan (mkRead records count count torn tornLine) (scanLSN st) lineNumber)
  else
    frame ← wrapErr "parse WAL frame line %d: %w" [AInt lineNumber] (Unmarshal setFrame zeroFrame line);
    wrapErr "validate WAL frame line %d: %w" [AInt lineNumber] (validateLocalWALFrame frame) ≫= fun _ =>
    let lsn := LSN (RecordOf frame) in
    if lsn <=? scanLSN st then
      Err (Errorf "WAL LSN sequence is not increasing at line %d: got %d after %d"
             [AInt lineNumber; AInt lsn; AInt (scanLSN st)])
    else Ok (mkScan (mkRead (records ++ [RecordOf frame]) count count torn tornLine) lsn lineNumber).

Fixpoint readFrameLines (st : scan) (lines : list bytes) : go scan :=
  match lines with
  | [] => Ok st
  | line :: lines => st ← readFrameLine st line; readFrameLines st lines
  end.

(** The reader gives [data] and then its end or the error [failure]. *)
Definition readLocalWAL (data : bytes) (failure : option error) : go localWALReadResult :=
  let '(lines, tail) := splitLines data in
  st ← readFrameLines scanStart lines;
  match failure with
  | None | Some ErrEOF =>
    let '(mkRead records count valid torn tornLine) := scanned st in
    match tail with
    | [] => Ok (scanned st)
    | _ => Ok (mkRead records (count + zlen tail) valid (count + zlen tail - valid) (scanLine st + 1))
    end
  | Some e =>
    st ← match tail with [] => Ok st | _ => readFrameLine st tail end;
    Err (Errorf "read WAL frame line %d: %w" [AInt (scanLine st + 1); AErr e])
  end.

(** [m] with its error in the message of the code. *)
Definition wrapIO {S A} (fmt : string) (args : list earg) (m : stgo S A) : stgo S A := fun s =>
  let '(r, s) := m s in (wrapErr fmt args r, s).

Definition readLocalWALPath (path : bytes) : io localWALReadResult :=
  resolved ← lift (ResolveLocalFileTarget path);
  opened ← try_ (OpenExisting resolved);
  match opened with
  | inr ErrNotExist => mret emptyRead
  | inr e => lift (Err (Errorf "open WAL %q: %w" [AStr resolved; AErr e]))
  | inl _ =>
    read ← ReadStream resolved;
    closed ← try_ CloseFile;
    lift (readLocalWAL read.1 read.2)
  end.

Definition ReadLocalWAL (path : bytes) : io (list LocalWALRecord) :=
  read ← readLocalWALPath path; mret (Records read).

(** The loop that checks the order of the records; the last LSN. *)
Fixpoint checkSequence (lastLSN : Z) (records : list LocalWALRecord) : go Z :=
  match records with
  | [] => Ok lastLSN
  | r :: records =>
    if LSN r <=? lastLSN then
      Err (Errorf "WAL LSN sequence is not increasing: got %d after %d" [AInt (LSN r); AInt lastLSN])
    else checkSequence (LSN r) records
  end.

Definition truncateLocalWALTail (path : bytes) (size : Z) : io unit :=
  wrapIO "open WAL for torn-tail repair %q: %w" [AStr path] (OpenExisting path) ≫= fun _ =>
  truncated ← try_ (Truncate path size);
  synced ← try_ (Sync path);
  closed ← try_ CloseFile;
  match err_of truncated, err_of synced, err_of closed with
  | Some e, _, _ => lift (Err (Errorf "truncate WAL torn tail %q: %w" [AStr path; AErr e]))
  | None, Some e, _ => lift (Err (Errorf "sync WAL torn-tail repair %q: %w" [AStr path; AErr e]))
  | None, None, Some e => lift (Err (Errorf "close WAL after torn-tail repair %q: %w" [AStr path; AErr e]))
  | None, None, None => mret tt
  end.

(** ** Checkpoint files *)

Definition LoadLocalWALCheckpoint (path : bytes) : io (LocalWALCheckpoint * bool) :=
  resolved ← lift (ResolveLocalFileTarget path);
  data ← try_ (ReadFile resolved);
  match data with
  | inr ErrNotExist => mret (zeroCheckpoint, false)
  | inr e => lift (Err (Errorf "read WAL checkpoint %q: %w" [AStr resolved; AErr e]))
  | inl data =>
    frame ← lift (wrapErr "parse WAL checkpoint %q: %w" [AStr resolved]
                    (Unmarshal setCheckpointFrame zeroCheckpointFrame data));
    lift (validateLocalWALCheckpointFrame frame) ≫= fun _ =>
    mret (cf_Checkpoint frame, true)
  end.

(** [now] is what [time.Now] returns. *)
Definition normalizeCheckpoint (now : Time) (c : LocalWALCheckpoint) : LocalWALCheckpoint :=
  mkCheckpoint LocalWALVersion LocalWALCheckpointFormat (ck_WALPath c) (ck_LastCommittedLSN c)
    (ck_OperationID c) (UTC (if IsZero (ck_UpdatedAt c) then now else ck_UpdatedAt c)).

(** [_ = os.Remove(tmpPath)] and the error. *)
Definition abandon (tmpPath : bytes) (e : error) : io unit :=
  removed ← try_ (Remove tmpPath); lift (Err e).

Definition WriteLocalWALCheckpoint (now : Time) (path : bytes) (checkpoint : LocalWALCheckpoint) : io unit :=
  resolved ← lift (ResolveLocalFileTarget path);
  wrapIO "create WAL checkpoint parent directory: %w" [] MkdirAll ≫= fun _ =>
  data ← lift (checkpointText (normalizeCheckpoint now checkpoint));
  let tmpPath := resolved ++ str ".tmp" in
  wrapIO "write WAL checkpoint %q: %w" [AStr resolved] (OpenTrunc tmpPath) ≫= fun _ =>
  written ← try_ (AppendFile tmpPath data);
  synced ← try_ (Sync tmpPath);
  closed ← try_ CloseFile;
  match err_of written, err_of synced, err_of closed with
  | Some e, _, _ => abandon tmpPath (Errorf "write WAL checkpoint %q: %w" [AStr resolved; AErr e])
  | None, Some e, _ => abandon tmpPath (Errorf "sync WAL checkpoint %q: %w" [AStr resolved; AErr e])
  | None, None, Some e => abandon tmpPath (Errorf "close WAL checkpoint %q: %w" [AStr resolved; AErr e])
  | None, None, None =>
    renamed ← try_ (Rename tmpPath resolved);
    match renamed with
    | inl _ => mret tt
    | inr e => abandon tmpPath (Errorf "commit WAL checkpoint %q: %w" [AStr resolved; AErr e])
    end
  end.

(** ** Opening *)

(** A nil [*LocalWAL] answers like a closed one. *)
Record LocalWAL : Type := mkWAL {
  path : bytes;
  checkpointPath : bytes;
  isOpen : bool;
  nextLSN : Z;
  checkpointLSN : Z;
  syncOnAppend : bool }.

Record LocalWALOptions : Type := mkOptions { SyncOnAppend : bool; CheckpointPath : bytes }.

(** [w.nextLSN++] on a [uint64] *)
Definition succ64 (n : Z) : Z := (n + 1) mod 2 ^ 64.

Definition aheadOfTail (c : LocalWALCheckpoint) (exists_ : bool) (lastLSN : Z) : bool :=
  exists_ && (lastLSN <? ck_LastCommittedLSN c).

Definition OpenLocalWALWithOptions (path_ : bytes) (opts : LocalWALOptions) : io LocalWAL :=
  resolved ← lift (ResolveLocalFileTarget path_);
  ckPath ← lift (localWALCheckpointPath resolved (CheckpointPath opts));
  wrapIO "create WAL parent directory: %w" [] MkdirAll ≫= fun _ =>
  wrapIO "create WAL checkpoint parent directory: %w" [] MkdirAll ≫= fun _ =>
  read ← readLocalWALPath resolved;
  (if TornTailBytes read =? 0 then mret tt else truncateLocalWALTail resolved (ValidByteCount read)) ≫= fun _ =>
  lastLSN ← lift (checkSequence 0 (Records read));
  checkpoint ← LoadLocalWALCheckpoint ckPath;
  if aheadOfTail checkpoint.1 checkpoint.2 lastLSN then
    lift (Err (Errorf "WAL checkpoint LSN %d is ahead of WAL tail %d. Run `qstream-admin wal validate --path %s` and verify the WAL/checkpoint files belong to the same data directory before startup"
                 [AInt (ck_LastCommittedLSN checkpoint.1); AInt lastLSN; AStr resolved]))
  else
    wrapIO "open WAL %q: %w" [AStr resolved] (OpenAppend resolved) ≫= fun _ =>
    mret (mkWAL resolved ckPath true (succ64 lastLSN) (ck_LastCommittedLSN checkpoint.1) (SyncOnAppend opts)).

Definition OpenLocalWAL (path_ : bytes) : io LocalWAL := OpenLocalWALWithOptions path_ (mkOptions true []).

(** ** The recovery plan *)

Record LocalWALRecoveryPlan : Type := mkPlan {
  pl_WALPath : bytes;
  pl_CheckpointPath : bytes;
  pl_CheckpointExists : bool;
  pl_CheckpointLSN : Z;
  pl_LastLSN : Z;
  pl_RecordCount : Z;
  pl_TornTailBytes : Z;
  pl_TornTailLine : Z;
  pl_CheckpointedRecordCount : Z;
  pl_ReplayRecords : list LocalWALRecord;
  pl_PendingRecords : list LocalWALRecord;
  pl_ReplayCommitBoundaryCount : Z }.

Definition isCommit (r : LocalWALRecord) : bool := bool_decide (Kind r = LocalWALRecordKindCommit).

(** The loop that separates the records the checkpoint covers from the tail. *)
Fixpoint planTail (checkpoint count : Z) (tail records : list LocalWALRecord) : Z * list LocalWALRecord :=
  match records with
  | [] => (count, tail)
  | r :: records =>
    if LSN r <=? checkpoint then planTail checkpoint (count + 1) tail records
    else planTail checkpoint count (tail ++ [r]) records
  end.

(** The loop that finds the index of the last commit, -1 when there is none. *)
Fixpoint lastCommitIndexFrom (i last : Z) (tail : list LocalWALRecord) : Z :=
  match tail with
  | [] => last
  | r :: tail => lastCommitIndexFrom (i + 1) (if isCommit r then i else last) tail
  end.

Definition lastCommitIndex (tail : list LocalWALRecord) : Z := lastCommitIndexFrom 0 (-1) tail.

Definition commitCount (records : list LocalWALRecord) : Z :=
  fold_left (fun n r => if isCommit r then n + 1 else n) records 0.

Definition planRecords (resolved ckPath : bytes) (read : localWALReadResult) (lastLSN : Z)
    (checkpoint : LocalWALCheckpoint) (exists_ : bool) : LocalWALRecoveryPlan :=
  let '(count, tail) := planTail (ck_LastCommittedLSN checkpoint) 0 [] (Records read) in
  let index := lastCommitIndex tail in
  let '(replay, pending) :=
    if 0 <=? index then (take (Z.to_nat (index + 1)) tail, drop (Z.to_nat (index + 1)) tail) else ([], tail) in
  mkPlan resolved ckPath exists_ (ck_LastCommittedLSN checkpoint) lastLSN (zlen (Records read))
    (TornTailBytes read) (TornTailLine read) count replay pending (commitCount replay).

Definition PlanLocalWALRecoveryWithOptions (path_ : bytes) (opts : LocalWALOptions) : io LocalWALRecoveryPlan :=
  resolved ← lift (ResolveLocalFileTarget path_);
  ckPath ← lift (localWALCheckpointPath resolved (CheckpointPath opts));
  read ← readLocalWALPath resolved;
  lastLSN ← lift (checkSequence 0 (Records read));
  checkpoint ← LoadLocalWALCheckpoint ckPath;
  if aheadOfTail checkpoint.1 checkpoint.2 lastLSN then
    lift (Err (Errorf "WAL checkpoint LSN %d is ahead of WAL tail %d. Run `qstream-admin wal validate --path %s` and verify the WAL/checkpoint files belong to the same data directory before planning recovery"
                 [AInt (ck_LastCommittedLSN checkpoint.1); AInt lastLSN; AStr resolved]))
  else mret (planRecords resolved ckPath read lastLSN checkpoint.1 checkpoint.2).

Definition PlanLocalWALRecovery (path_ : bytes) : io LocalWALRecoveryPlan :=
  PlanLocalWALRecoveryWithOptions path_ (mkOptions false []).

Definition ReplayRecordCount (p : LocalWALRecoveryPlan) : Z := zlen (pl_ReplayRecords p).
Definition PendingRecordCount (p : LocalWALRecoveryPlan) : Z := zlen (pl_PendingRecords p).
Definition NeedsReplay (p : LocalWALRecoveryPlan) : bool := negb (zlen (pl_ReplayRecords p) =? 0).
Definition HasPendingTail (p : LocalWALRecoveryPlan) : bool := negb (zlen (pl_PendingRecords p) =? 0).

(** ** Validation *)

Record LocalWALSummary : Type := mkSummary {
  sm_RecordCount : Z;
  sm_LastLSN : Z;
  sm_CheckpointLSN : Z;
  sm_CheckpointPath : bytes;
  sm_CheckpointExists : bool;
  sm_ByteCount : Z;
  sm_TornTailBytes : Z;
  sm_TornTailLine : Z }.

Definition ValidateLocalWAL (path_ : bytes) : io LocalWALSummary :=
  resolved ← lift (ResolveLocalFileTarget path_);
  ckPath ← lift (localWALCheckpointPath resolved []);
  read ← readLocalWALPath resolved;
  size ← try_ (Stat resolved);
  match size with
  | inr ErrNotExist => mret (mkSummary 0 0 0 [] false 0 0 0)
  | inr e => lift (Err (Errorf "stat WAL %q: %w" [AStr resolved; AErr e]))
  | inl size =>
    lastLSN ← lift (checkSequence 0 (Records read));
    checkpoint ← LoadLocalWALCheckpoint ckPath;
    if aheadOfTail checkpoint.1 checkpoint.2 lastLSN then
      lift (Err (Errorf "WAL checkpoint LSN %d is ahead of WAL tail %d. Verify the WAL/checkpoint files belong to the same data directory before retrying validation"
                   [AInt (ck_LastCommittedLSN checkpoint.1); AInt lastLSN]))
    else mret (mkSummary (zlen (Records read)) lastLSN (ck_LastCommittedLSN checkpoint.1) ckPath checkpoint.2
                 size (TornTailBytes read) (TornTailLine read))
  end.

(** ** Appending and committing *)

Section Writing.

(** What the commit function works on. *)
Context {Store : Type}.

Record World : Type := mkWorld { disk : FS; wal : LocalWAL; store : Store }.

Definition onDisk {A} (m : io A) : stgo World A := fun w =>
  let '(r, fs) := m (disk w) in (r, mkWorld fs (wal w) (store w)).

Definition getWAL : stgo World LocalWAL := fun w => (Ok (wal w), w).
Definition setWAL (l : LocalWAL) : stgo World unit := fun w => (Ok tt, mkWorld (disk w) l (store w)).

(** A function the caller passes, which may fail. *)
Definition callback {A} (f : Store -> go A * Store) : stgo World A := fun w =>
  let '(r, s) := f (store w) in (r, mkWorld (disk w) (wal w) s).

Definition notOpen : error := Errorf "WAL is not open" [].

Definition withNextLSN (l : LocalWAL) (n : Z) : LocalWAL :=
  mkWAL (path l) (checkpointPath l) (isOpen l) n (checkpointLSN l) (syncOnAppend l).
Definition withCheckpointLSN (l : LocalWAL) (n : Z) : LocalWAL :=
  mkWAL (path l) (checkpointPath l) (isOpen l) (nextLSN l) n (syncOnAppend l).

(** The record as it will be written. *)
Definition stamp (now : Time) (lsn : Z) (r : LocalWALRecord) : LocalWALRecord :=
  mkRecord LocalWALVersion lsn (UTC (if IsZero (Timestamp r) then now else Timestamp r))
    (Transaction r) (Statement r) (OperationID r) (Kind r) (Table r)
    (if decide (Payload r = []) then str "{}" else Payload r).

Definition appendLocked (now : Time) (record : LocalWALRecord) : stgo World LocalWALRecord :=
  w ← getWAL;
  let record := stamp now (nextLSN w) record in
  lift (validateLocalWALRecord record) ≫= fun _ =>
  data ← lift (frameText record);
  wrapIO "append WAL frame: %w" [] (onDisk (AppendFile (path w) (data ++ [byte_of 10]))) ≫= fun _ =>
  (if syncOnAppend w then wrapIO "sync WAL frame: %w" [] (onDisk (Sync (path w))) else mret tt) ≫= fun _ =>
  setWAL (withNextLSN w (succ64 (nextLSN w))) ≫= fun _ =>
  mret record.

Definition advanceCheckpointLocked (now : Time) (record : LocalWALRecord) : stgo World LocalWALCheckpoint :=
  w ← getWAL;
  let checkpoint := mkCheckpoint LocalWALVersion LocalWALCheckpointFormat (path w) (LSN record)
                      (OperationID record) (UTC now) in
  if ck_LastCommittedLSN checkpoint <=? checkpointLSN w then mret checkpoint
  else
    onDisk (WriteLocalWALCheckpoint now (checkpointPath w) checkpoint) ≫= fun _ =>
    setWAL (withCheckpointLSN w (ck_LastCommittedLSN checkpoint)) ≫= fun _ =>
    mret checkpoint.

(** [ctx] is what [ctx.Err()] returns. *)
Definition Append (ctx : option error) (now : Time) (record : LocalWALRecord) : stgo World LocalWALRecord :=
  w ← getWAL;
  if negb (isOpen w) then lift (Err notOpen)
  else match ctx with
       | Some e => lift (Err e)
       | None => appendLocked now record
       end.

(** The record and the checkpoint are returned beside the error; [commit] is the
    function passed, [None] for nil. *)
Definition CommitBoundary (ctx : option error) (now : Time) (record : LocalWALRecord)
    (commit : option (Store -> go unit * Store)) :
    stgo World (LocalWALRecord * LocalWALCheckpoint * option error) :=
  w ← getWAL;
  if negb (isOpen w) then mret (zeroRecord, zeroCheckpoint, Some notOpen)
  else match commit, ctx with
  | None, _ => mret (zeroRecord, zeroCheckpoint, Some (Errorf "WAL commit function is required" []))
  | Some _, Some e => mret (zeroRecord, zeroCheckpoint, Some e)
  | Some commit, None =>
    appended ← try_ (appendLocked now record);
    match appended with
    | inr e => mret (zeroRecord, zeroCheckpoint, Some e)
    | inl committedRecord =>
      committed ← try_ (callback commit);
      match committed with
      | inr e => mret (committedRecord, zeroCheckpoint, Some e)
      | inl _ =>
        advanced ← try_ (advanceCheckpointLocked now committedRecord);
        match advanced with
        | inr e => mret (committedRecord, zeroCheckpoint, Some e)
        | inl checkpoint => mret (committedRecord, checkpoint, None)
        end
      end
    end
  end.

Definition CheckpointCommittedRecord (ctx : option error) (now : Time) (record : LocalWALRecord) :
    stgo World LocalWALCheckpoint :=
  w ← getWAL;
  if negb (isOpen w) then lift (Err notOpen)
  else if negb (isCommit record) then
    lift (Err (Errorf "WAL checkpoint can only advance to commit records, got %q" [AStr (Kind record)]))
  else match ctx with
       | Some e => lift (Err e)
       | None =>
         if LSN record =? 0 then lift (Err (Errorf "WAL checkpoint record LSN is required" []))
         else advanceCheckpointLocked now record
       end.

Definition Close : stgo World unit :=
  w ← getWAL;
  if negb (isOpen w) then mret tt
  else
    closed ← try_ (onDisk CloseFile);
    setWAL (mkWAL (path w) (checkpointPath w) false (nextLSN w) (checkpointLSN w) (syncOnAppend w)) ≫= fun _ =>
    lift (outcome_of closed).

(** ** Replay *)

Section Replay.

(** [None] for a nil function. *)
Variable apply : option (LocalWALRecord -> Store -> go unit * Store).

Definition replayMissing : error := Errorf "WAL replay function is required" [].

Fixpoint replayRecords (apply : LocalWALRecord -> Store -> go unit * Store) (lastLSN : Z)
    (records : list LocalWALRecord) : stgo Store unit :=
  match records with
  | [] => mret tt
  | r :: records =>
    if LSN r <=? lastLSN then
      lift (Err (Errorf "WAL LSN sequence is not increasing: got %d after %d" [AInt (LSN r); AInt lastLSN]))
    else
      wrapIO "replay WAL record lsn=%d operation_id=%s: %w" [AInt (LSN r); AStr (OperationID r)] (apply r) ≫= fun _ =>
      replayRecords apply (LSN r) records
  end.

Definition ReplayLocalWAL (path_ : bytes) : stgo World unit :=
  match apply with
  | None => lift (Err replayMissing)
  | Some apply =>
    records ← onDisk (ReadLocalWAL path_);
    callback (replayRecords apply 0 records)
  end.

Fixpoint replayPlanned (apply : LocalWALRecord -> Store -> go unit * Store)
    (records : list LocalWALRecord) : stgo Store unit :=
  match records with
  | [] => mret tt
  | r :: records =>
    wrapIO "replay WAL recovery record lsn=%d operation_id=%s: %w" [AInt (LSN r); AStr (OperationID r)] (apply r)
      ≫= fun _ =>
    replayPlanned apply records
  end.

Definition ReplayLocalWALRecoveryPlan (plan : LocalWALRecoveryPlan) : stgo Store unit :=
  match apply with
  | None => lift (Err replayMissing)
  | Some apply => replayPlanned apply (pl_ReplayRecords plan)
  end.

End Replay.
End Writing.
End Log.

Arguments World : clear implicits.
