(* ===== verification/WALRecovery.v ===== *)
(** * What the write-ahead log guarantees

    Theorems about WAL: records appended are read back, a crash loses at most
    records that were not yet on disk, the recovery plan splits the log at the
    checkpoint and at the last commit, checkpoints are replaced as a whole and
    never run ahead of the log. *)

From S2P Require Import Prelude GoState GoFs GoStd GoTime Utf8 Json JsonValue JsonText JsonDecode Hash WALRecord WAL.

(** ** Lines *)

Lemma splitLines_oneLine s : oneLine s -> splitLines s = ([], s).
Proof.
  induction 1 as [|b s Hb Hs IH]; [done|]. cbn [splitLines]. rewrite IH. by if_false.
Qed.

(** What a first part of the data contributes to the lines of the whole. *)
Definition joinLines (a b : list bytes * bytes) : list bytes * bytes :=
  match b.1 with
  | [] => (a.1, a.2 ++ b.2)
  | l :: ls => (a.1 ++ (a.2 ++ l) :: ls, b.2)
  end.

Lemma splitLines_app s t : splitLines (s ++ t) = joinLines (splitLines s) (splitLines t).
Proof.
  induction s as [|b s IH]; cbn [app splitLines].
  - unfold joinLines. by destruct (splitLines t) as [[|l ls] tl].
  - rewrite IH. unfold joinLines. destruct (splitLines s) as [ls tl], (splitLines t) as [[|l' ls'] tl']; cbn [fst snd];
      destruct (ub b =? 10); try done; by destruct ls.
Qed.

Lemma splitLines_concat s : concat (splitLines s).1 ++ (splitLines s).2 = s.
Proof.
  induction s as [|b s IH]; [done|]. cbn [splitLines]. destruct (splitLines s) as [ls tl]. simpl in IH.
  destruct (ub b =? 10); [simpl; by rewrite IH|]. destruct ls; simpl in *; by rewrite IH.
Qed.

Lemma splitLines_tail s : oneLine (splitLines s).2.
Proof.
  induction s as [|b s IH]; [constructor|]. cbn [splitLines]. destruct (splitLines s) as [[|l ls] tl]; simpl in *;
    destruct (Z.eqb_spec (ub b) 10); try done. by constructor.
Qed.

Lemma splitLines_line s rest : oneLine s ->
  splitLines (s ++ byte_of 10 :: rest) = ((s ++ [byte_of 10]) :: (splitLines rest).1, (splitLines rest).2).
Proof.
  intros Hs. rewrite splitLines_app, (splitLines_oneLine s Hs). cbn [splitLines].
  change (ub (byte_of 10) =? 10) with true. destruct (splitLines rest). done.
Qed.

(** A part of the data at its start has lines of the data, and a part of the next one. *)
Lemma splitLines_prefix a b :
  exists more, (splitLines (a ++ b)).1 = (splitLines a).1 ++ more.
Proof.
  rewrite splitLines_app. unfold joinLines. destruct (splitLines b) as [[|l ls] tl]; simpl; [exists []|eauto].
  by rewrite app_nil_r.
Qed.

(** ** Reading lines *)

Lemma readFrameLines_app st ls1 ls2 :
  readFrameLines st (ls1 ++ ls2) = (st1 ← readFrameLines st ls1; readFrameLines st1 ls2).
Proof.
  revert st. induction ls1 as [|l ls1 IH]; intros st; [done|]. cbn [app readFrameLines].
  unfold mbind, go_bind. destruct (readFrameLine st l); [apply IH|done..].
Qed.

(** What a line does to the loop's state. *)
Lemma readFrameLine_inv st line st' : readFrameLine st line = Ok st' ->
  ByteCount (scanned st') = ByteCount (scanned st) + zlen line /\
  ValidByteCount (scanned st') = ByteCount (scanned st') /\
  TornTailBytes (scanned st') = TornTailBytes (scanned st) /\ TornTailLine (scanned st') = TornTailLine (scanned st) /\
  ((Records (scanned st') = Records (scanned st) /\ scanLSN st' = scanLSN st) \/
   exists r, Records (scanned st') = Records (scanned st) ++ [r] /\ scanLSN st' = LSN r /\ scanLSN st < LSN r).
Proof.
  unfold readFrameLine. destruct st as [[records count valid torn tornLine] last n]. cbn [scanned scanLine scanLSN].
  case_decide; [intros [= <-]; cbn [scanned scanLine scanLSN Records ByteCount ValidByteCount TornTailBytes TornTailLine]; split_and!; auto|].
  destruct (Unmarshal setFrame zeroFrame (TrimSpace line)) as [frame|e|]; cbn [wrapErr mbind go_bind]; [|done..].
  destruct (validateLocalWALFrame frame) as [u|e|]; cbn [wrapErr mbind go_bind]; [|done..].
  destruct (Z.leb_spec (LSN (RecordOf frame)) last); [done|]. intros [= <-]. cbn. split_and!; try done. right. eauto.
Qed.

(** [increasing last rs last']: the LSNs of [rs] grow from [last] to [last']. *)
Fixpoint increasing (last : Z) (rs : list LocalWALRecord) : Prop :=
  match rs with [] => True | r :: rs => last < LSN r /\ increasing (LSN r) rs end.

Definition lastOf (last : Z) (rs : list LocalWALRecord) : Z := fold_left (fun _ r => LSN r) rs last.

Lemma increasing_app rs1 : forall last rs2,
  increasing last (rs1 ++ rs2) <-> increasing last rs1 /\ increasing (lastOf last rs1) rs2.
Proof. induction rs1 as [|r rs1 IH]; intros last rs2; simpl; [tauto|]. rewrite IH. tauto. Qed.

Lemma lastOf_app last rs1 rs2 : lastOf last (rs1 ++ rs2) = lastOf (lastOf last rs1) rs2.
Proof. apply fold_left_app. Qed.

Lemma lastOf_ge rs : forall last, increasing last rs -> last <= lastOf last rs.
Proof.
  induction rs as [|r rs IH]; intros last H; [cbn; lia|]. destruct H as [H1 H2]. specialize (IH _ H2).
  change (lastOf last (r :: rs)) with (lastOf (LSN r) rs). lia.
Qed.

(** The state of the loop after [data]. *)
Record scanOf (st : scan) (bytesRead : Z) (rs : list LocalWALRecord) : Prop := {
  so_records : Records (scanned st) = rs;
  so_count : ByteCount (scanned st) = bytesRead;
  so_valid : ValidByteCount (scanned st) = bytesRead;
  so_torn : TornTailBytes (scanned st) = 0;
  so_line : TornTailLine (scanned st) = 0;
  so_lsn : scanLSN st = lastOf 0 rs;
  so_increasing : increasing 0 rs }.

Lemma scanOf_start : scanOf scanStart 0 [].
Proof. by constructor. Qed.

Lemma scanOf_line st n rs line st' : scanOf st n rs -> readFrameLine st line = Ok st' ->
  exists more, scanOf st' (n + zlen line) (rs ++ more) /\ (more = [] \/ exists r, more = [r]).
Proof.
  intros [H1 H2 H3 H4 H5 H6 H7] E.
  destruct (readFrameLine_inv _ _ _ E) as (E1 & E2 & E3 & E4 & [[E5 E6]|(r & E5 & E6 & E7)]).
  - exists []. split; [|by left]. rewrite app_nil_r. constructor; try congruence; lia.
  - exists [r]. split; [|right; eauto]. constructor; try congruence; try lia.
    + rewrite lastOf_app. by rewrite E6.
    + rewrite increasing_app, <- H6. by simpl.
Qed.

Lemma scanOf_lines lines : forall st n rs st', scanOf st n rs -> readFrameLines st lines = Ok st' ->
  exists more, scanOf st' (n + zlen (concat lines)) (rs ++ more).
Proof.
  induction lines as [|l ls IH]; intros st n rs st' Hs E; cbn [readFrameLines] in E.
  - injection E as <-. exists []. rewrite app_nil_r. cbn. by rewrite Z.add_0_r.
  - apply bind_Ok_iff in E as (st1 & E1 & E2). destruct (scanOf_line _ _ _ _ _ Hs E1) as (m1 & H1 & _).
    destruct (IH _ _ _ _ H1 E2) as (m2 & H2). exists (m1 ++ m2). cbn [concat]. rewrite zlen_app, Z.add_assoc, app_assoc.
    done.
Qed.

(** ** Logs *)

(** [data] is whole lines that read as the records [rs]. *)
Definition logs (data : bytes) (rs : list LocalWALRecord) : Prop :=
  (splitLines data).2 = [] /\
  exists st, readFrameLines scanStart (splitLines data).1 = Ok st /\ Records (scanned st) = rs.

Lemma logs_nil : logs [] [].
Proof. split; [done|]. by exists scanStart. Qed.

Lemma logs_scan data rs : logs data rs ->
  exists st, readFrameLines scanStart (splitLines data).1 = Ok st /\ scanOf st (zlen data) rs.
Proof.
  intros [Ht (st & E & Hr)]. exists st. split; [done|].
  destruct (scanOf_lines _ _ _ _ _ scanOf_start E) as (more & H).
  pose proof (splitLines_concat data) as Hc. rewrite Ht, app_nil_r in Hc. rewrite Hc in H. simpl in H.
  destruct H as [H1 ?]. rewrite H1 in Hr. subst more. by constructor.
Qed.

Lemma logs_increasing data rs : logs data rs -> increasing 0 rs.
Proof. intros (st & _ & H)%logs_scan. apply H. Qed.

Lemma readFrameLines_line lines : forall st st', readFrameLines st lines = Ok st' -> scanLine st <= scanLine st'.
Proof.
  induction lines as [|l ls IH]; intros s s' H; cbn [readFrameLines] in H; [injection H as <-; lia|].
  apply bind_Ok_iff in H as (s1 & H1 & H2). specialize (IH _ _ H2).
  enough (scanLine s1 = scanLine s + 1) by lia. revert H1. unfold readFrameLine.
  destruct s as [[records count valid torn line] last n]. cbn [scanned scanLine scanLSN].
  case_decide; [by intros [= <-]|]. intros (f & _ & (u & _ & H3)%bind_Ok_iff)%bind_Ok_iff.
  destruct (_ <=? _); [done|]. by injection H3 as <-.
Qed.

(** A log with a torn tail reads as its records, and reports the tail. *)
Lemma readLocalWAL_logs data rs tail : logs data rs -> oneLine tail ->
  exists read, readLocalWAL (data ++ tail) None = Ok read /\ Records read = rs /\
    ValidByteCount read = zlen data /\ TornTailBytes read = zlen tail /\
    (TornTailLine read = 0 <-> tail = []).
Proof.
  intros Hl Ht. destruct (logs_scan _ _ Hl) as (st & E & [H1 H2 H3 H4 H5 _ _]).
  unfold readLocalWAL. rewrite splitLines_app, (splitLines_oneLine tail Ht). unfold joinLines. cbn [fst snd].
  rewrite E, (proj1 Hl). cbn [mbind go_bind app].
  destruct st as [[records count valid torn line] last n]. cbn [scanned scanLine Records ByteCount ValidByteCount TornTailBytes TornTailLine] in *.
  pose proof (readFrameLines_line _ _ _ E) as Hn. cbn [scanLine scanStart] in Hn.
  destruct tail as [|b tail].
  - eexists. split; [done|]. cbn. split_and!; try done.
  - eexists. split; [done|]. cbn [Records ValidByteCount TornTailBytes TornTailLine]. split_and!; try done; [lia|].
    split; [lia|done].
Qed.

Lemma TrimSpace_braces inner :
  TrimSpace ((str "{" ++ inner ++ str "}") ++ [byte_of 10]) = str "{" ++ inner ++ str "}".
Proof.
  unfold TrimSpace. set (s := str "{" ++ inner ++ str "}").
  assert (H1 : trim_left space_encodings (s ++ [byte_of 10]) = s ++ [byte_of 10]) by (by apply trim_left_fuel_id).
  rewrite H1. rewrite rev_app_distr.
  change (rev [byte_of 10] ++ rev s) with (byte_of 10 :: rev s).
  assert (H2 : rev s = byte_of 125 :: rev (str "{" ++ inner)).
  { unfold s. rewrite app_assoc, rev_app_distr. done. }
  unfold trim_left. cbn [length trim_left_fuel].
  change (strip_any (map (@rev byte) space_encodings) (byte_of 10 :: rev s)) with (Some (rev s)). cbv iota.
  rewrite trim_left_fuel_id; [apply rev_involutive|]. rewrite H2. reflexivity.
Qed.

(** A log with one more frame. *)
Lemma logs_append data rs r text : logs data rs -> storable r -> lastOf 0 rs < LSN r -> frameText r = Ok text ->
  logs (data ++ text ++ [byte_of 10]) (rs ++ [stored r]).
Proof.
  intros Hl Hr Hlsn Et. destruct (frameText_ok r Hr) as (text' & frame & Et' & H1 & (inner & Hi) & Hu & Hf & Hv).
  rewrite Et in Et'. injection Et' as <-.
  destruct (logs_scan _ _ Hl) as (st & E & Hs). unfold logs.
  assert (Hsplit : splitLines (data ++ text ++ [byte_of 10]) = ((splitLines data).1 ++ [text ++ [byte_of 10]], [])).
  { rewrite splitLines_app, (splitLines_line text [] H1). unfold joinLines. cbn. by rewrite (proj1 Hl). }
  rewrite Hsplit. split; [done|]. cbn [fst]. rewrite readFrameLines_app, E. cbn [mbind go_bind readFrameLines].
  destruct Hs as [S1 S2 S3 S4 S5 S6 S7].
  destruct st as [[records count valid torn line] last n]. cbn [scanned scanLine scanLSN Records] in *.
  unfold readFrameLine. cbn [scanned scanLine scanLSN]. rewrite Hi, TrimSpace_braces, <- Hi.
  rewrite decide_False by (rewrite Hi; done). rewrite Hu. cbn [wrapErr mbind go_bind].
  rewrite Hv. cbn [wrapErr mbind go_bind]. rewrite Hf.
  replace (LSN (stored r)) with (LSN r) by (by destruct r). if_false.
  eexists. split; [done|]. cbn. by rewrite S1.
Qed.

(** Cut anywhere, a log is a log of its first records and a torn tail. *)
Lemma splitLines_lines s : splitLines (concat (splitLines s).1) = ((splitLines s).1, []).
Proof.
  set (good := concat (splitLines s).1).
  assert (Hs : s = good ++ (splitLines s).2) by (symmetry; apply splitLines_concat).
  pose proof (splitLines_app good (splitLines s).2) as E. rewrite <- Hs in E.
  rewrite (splitLines_oneLine _ (splitLines_tail s)) in E. unfold joinLines in E. cbn [fst snd] in E.
  rewrite (surjective_pairing (splitLines s)) in E. injection E as E1 E2.
  rewrite (surjective_pairing (splitLines good)). f_equal; [done|].
  apply (f_equal length) in E2. rewrite length_app in E2. apply nil_length_inv. lia.
Qed.

Lemma logs_cut data rs part rest : logs data rs -> data = part ++ rest ->
  exists good torn rs1 rs2, part = good ++ torn /\ oneLine torn /\ logs good rs1 /\ rs = rs1 ++ rs2.
Proof.
  intros [Ht (st & E & Hr)] ->. destruct (splitLines_prefix part rest) as [more Hm]. rewrite Hm in E.
  rewrite readFrameLines_app in E. apply bind_Ok_iff in E as (st1 & E1 & E2).
  exists (concat (splitLines part).1), (splitLines part).2, (Records (scanned st1)).
  destruct (scanOf_lines _ _ _ _ _ scanOf_start E1) as (rs1 & H1).
  destruct (scanOf_lines _ _ _ _ _ H1 E2) as (rs2 & H2). exists rs2. split_and!.
  - symmetry. apply splitLines_concat.
  - apply splitLines_tail.
  - unfold logs. rewrite splitLines_lines. split; [done|]. eauto.
  - destruct H1 as [H1 ?], H2 as [H2 ?]. simpl in *. congruence.
Qed.

(** The records of a log are those of a first part, and more. *)
Lemma logs_extends a b rs1 rs2 : logs a rs1 -> logs (a ++ b) rs2 -> exists more, rs2 = rs1 ++ more.
Proof.
  intros Ha [_ (st & E & Hr)]. destruct (logs_scan _ _ Ha) as (st1 & E1 & H1).
  destruct (splitLines_prefix a b) as [more Hm]. rewrite Hm, readFrameLines_app, E1 in E. cbn [mbind go_bind] in E.
  destruct (scanOf_lines _ _ _ _ _ H1 E) as (rs & [H2 ?]). exists rs. congruence.
Qed.

(** ** The log on disk *)

Section Disk.

Context `{P : Process}.

(** A path that names itself. *)
Definition settled (p : bytes) : Prop := ResolveLocalFileTarget p = Ok p.

Lemma wrapIO_ok {S A} fmt args (m : stgo S A) s a s' : m s = (Ok a, s') -> wrapIO fmt args m s = (Ok a, s').
Proof. intros E. unfold wrapIO. by rewrite E. Qed.

Lemma readLocalWALPath_healthy p fs : settled p -> healthy fs ->
  exists fs', readLocalWALPath p fs =
    (match files fs !! p with Some f => readLocalWAL (contents f) None | None => Ok emptyRead end, fs') /\
    files fs' = files fs /\ healthy fs'.
Proof.
  intros Hp Hf. unfold readLocalWALPath. rewrite bind_lift, Hp.
  destruct (OpenExisting_healthy p fs Hf) as (fs1 & E1 & F1 & H1).
  destruct (files fs !! p) as [f|] eqn:Ef.
  - rewrite (bind_run _ _ _ _ _ (try_ok _ _ _ _ E1)).
    destruct (ReadStream_healthy p fs1 H1) as (fs2 & E2 & F2 & H2). rewrite (bind_run _ _ _ _ _ E2).
    destruct (CloseFile_healthy fs2 H2) as (fs3 & E3 & F3 & H3). rewrite (bind_run _ _ _ _ _ (try_ok _ _ _ _ E3)).
    exists fs3. rewrite F1, Ef. split_and!; [done|congruence|done].
  - rewrite (bind_run _ _ _ _ _ (try_err _ _ _ _ E1)). by exists fs1.
Qed.

(** The checkpoint file at [p] holds [lsn]; no file stands for zero. *)
Definition checkpointAt (fs : FS) (p : bytes) (lsn : Z) : Prop :=
  match files fs !! p with
  | None => lsn = 0
  | Some f => exists frame, Unmarshal setCheckpointFrame zeroCheckpointFrame (contents f) = Ok frame /\
      validateLocalWALCheckpointFrame frame = Ok tt /\ ck_LastCommittedLSN (cf_Checkpoint frame) = lsn
  end.

Lemma LoadLocalWALCheckpoint_healthy p lsn fs : settled p -> healthy fs -> checkpointAt fs p lsn ->
  exists c b fs', LoadLocalWALCheckpoint p fs = (Ok (c, b), fs') /\ ck_LastCommittedLSN c = lsn /\
    files fs' = files fs /\ healthy fs'.
Proof.
  intros Hp Hf Hc. unfold LoadLocalWALCheckpoint. rewrite bind_lift, Hp.
  destruct (ReadFile_healthy p fs Hf) as (fs1 & E1 & F1 & H1). unfold checkpointAt in Hc.
  destruct (files fs !! p) as [f|].
  - destruct Hc as (frame & Hu & Hv & Hn). rewrite (bind_run _ _ _ _ _ (try_ok _ _ _ _ E1)).
    rewrite bind_lift, Hu. cbn [wrapErr]. rewrite bind_lift, Hv. by eexists _, _, fs1.
  - rewrite (bind_run _ _ _ _ _ (try_err _ _ _ _ E1)). by exists zeroCheckpoint, false, fs1.
Qed.


Lemma checkSequence_increasing rs : forall last, increasing last rs -> checkSequence last rs = Ok (lastOf last rs).
Proof.
  induction rs as [|r rs IH]; intros last H; [done|]. destruct H as [H1 H2]. cbn [checkSequence]. if_false.
  by rewrite IH.
Qed.

(** An open log: its file reads as [rs], the next LSN follows the last one, and the
    checkpoint does not run ahead. *)
Record walState (w : LocalWAL) (fs : FS) (rs : list LocalWALRecord) : Prop := {
  ws_open : isOpen w = true;
  ws_path : settled (path w);
  ws_ckpath : settled (checkpointPath w);
  ws_distinct : checkpointPath w <> path w;
  ws_tmp : checkpointPath w ++ str ".tmp" <> path w;
  ws_file : exists f, files fs !! path w = Some f /\ logs (contents f) rs;
  ws_next : nextLSN w = lastOf 0 rs + 1;
  ws_room : nextLSN w < 2 ^ 64;
  ws_checkpoint : checkpointAt fs (checkpointPath w) (checkpointLSN w);
  ws_behind : checkpointLSN w <= lastOf 0 rs }.

(** What opening needs: a log with a torn tail, or no file, and a checkpoint in it. *)
Record recoverable (fs : FS) (p ck : bytes) (data torn : bytes) (rs : list LocalWALRecord) (lsn : Z) : Prop := {
  rc_file : match files fs !! p with Some f => contents f = data ++ torn | None => data = [] /\ torn = [] end;
  rc_logs : logs data rs;
  rc_torn : oneLine torn;
  rc_room : lastOf 0 rs + 1 < 2 ^ 64;
  rc_checkpoint : checkpointAt fs ck lsn;
  rc_behind : lsn <= lastOf 0 rs }.

(** The file at [p] is on disk as a whole. *)
Definition durable (fs : FS) (p : bytes) : Prop :=
  match files fs !! p with Some f => synced f = length (contents f) | None => True end.


Lemma checkpointAt_files fs fs' q lsn : files fs' !! q = files fs !! q -> checkpointAt fs q lsn -> checkpointAt fs' q lsn.
Proof. unfold checkpointAt. by intros ->. Qed.


(** ** Appending *)

Section Writes.

Context {Store : Type}.

Implicit Types (W : World Store).

Lemma onDisk_run {A} (m : io A) W r fs' : m (disk W) = (r, fs') -> onDisk m W = (r, mkWorld fs' (wal W) (store W)).
Proof. intros E. unfold onDisk. by rewrite E. Qed.

Lemma wrapIO_run {S A} fmt args (m : stgo S A) s r s' : m s = (r, s') -> wrapIO fmt args m s = (wrapErr fmt args r, s').
Proof. intros E. unfold wrapIO. by rewrite E. Qed.

(** The file of the log with [data] at its end; the append returns an error, and then
    only a part of the frame may be there, or the record. *)
Definition appendEffect W (r : LocalWALRecord) (f : File) (text : bytes) (res : go LocalWALRecord) W' : Prop :=
  let line := text ++ [byte_of 10] in
  store W' = store W /\
  ((exists n, files (disk W') = <[path (wal W) := mkFile (contents f ++ line) n]> (files (disk W)) /\
      n = (if syncOnAppend (wal W) then length (contents f ++ line) else synced f) /\
      res = Ok r /\ wal W' = withNextLSN (wal W) (succ64 (nextLSN (wal W)))) \/
   (exists k e, files (disk W') = <[path (wal W) := mkFile (contents f ++ take k line) (synced f)]> (files (disk W)) /\
      res = Err e /\ wal W' = wal W)).

Lemma appendLocked_cases W now r f : files (disk W) !! path (wal W) = Some f ->
  let r1 := stamp now (nextLSN (wal W)) r in storable r1 ->
  exists text res W', frameText r1 = Ok text /\ appendLocked now r W = (res, W') /\ appendEffect W r1 f text res W'.
Proof.
  intros Hf r1 Hr. destruct (frameText_ok r1 Hr) as (text & _ & Et & _). exists text.
  destruct W as [fs w s]. cbn [disk wal] in *. unfold appendLocked. rewrite (bind_run _ _ _ w (mkWorld fs w s)) by done.
  cbv zeta. fold r1. rewrite bind_lift, (validate_storable _ Hr), bind_lift, Et.
  pose proof (AppendFile_cases (path w) (text ++ [byte_of 10]) fs) as Ha. cbv zeta in Ha. rewrite Hf in Ha.
  cbn [default] in Ha. unfold id in Ha. destruct Ha as (rest & _ & [E|(n & e & E)]).
  - rewrite (bind_run _ _ _ _ _ (wrapIO_run _ _ _ _ _ _ (onDisk_run _ (mkWorld fs w s) _ _ E))). cbn [wal store].
    set (f1 := mkFile (contents f ++ text ++ [byte_of 10]) (synced f)) in *.
    set (fs1 := mkFS (<[path w := f1]> (files fs)) rest) in *.
    destruct (syncOnAppend w) eqn:Esync.
    + assert (Hf1 : files fs1 !! path w = Some f1) by apply lookup_insert_eq.
      destruct (Sync_cases (path w) f1 fs1 Hf1) as (rest2 & _ & [E2|(e & E2)]).
      * rewrite (bind_run _ _ _ _ _ (wrapIO_run _ _ _ _ _ _ (onDisk_run _ (mkWorld fs1 w s) _ _ E2))).
        eexists _, _. split_and!; [done|reflexivity|]. split; [done|]. left. cbn [disk wal]. rewrite Esync. eexists.
        split; [|split_and!; done]. cbn [files fs1]. by rewrite insert_insert_eq.
      * rewrite (bind_err _ _ _ _ _ (wrapIO_run _ _ _ _ _ _ (onDisk_run _ (mkWorld fs1 w s) _ _ E2))).
        eexists _, _. split_and!; [done|reflexivity|]. split; [done|]. right. exists (length (text ++ [byte_of 10])).
        eexists. split; [|split; done]. by rewrite firstn_all.
    + rewrite (bind_run _ _ _ tt (mkWorld fs1 w s)) by done.
      eexists _, _. split_and!; [done|reflexivity|]. split; [done|]. left. cbn [disk wal]. rewrite Esync. eexists. by split_and!.
  - rewrite (bind_err _ _ _ _ _ (wrapIO_run _ _ _ _ _ _ (onDisk_run _ (mkWorld fs w s) _ _ E))).
    eexists _, _. split_and!; [done|reflexivity|]. split; [done|]. right. exists n. eexists. by split_and!.
Qed.

Lemma LSN_stored r : LSN (stored r) = LSN r.
Proof. by destruct r. Qed.

(** The state with one more record in the file. *)
Lemma walState_append w fs rs r text f : walState w fs rs -> nextLSN w + 1 < 2 ^ 64 -> storable r -> LSN r = nextLSN w ->
  files fs !! path w = Some f -> frameText r = Ok text ->
  forall fs' n, files fs' = <[path w := mkFile (contents f ++ text ++ [byte_of 10]) n]> (files fs) ->
  walState (withNextLSN w (succ64 (nextLSN w))) fs' (rs ++ [stored r]).
Proof.
  intros [H1 H2 H3 H4 H5 (f0 & H6 & Hl) H7 H8 H9 H10] Hroom Hr Hlsn Hf Et fs' n Hfs.
  rewrite Hf in H6. injection H6 as <-.
  pose proof (lastOf_ge _ _ (logs_increasing _ _ Hl)) as Hpos.
  assert (Hn : succ64 (nextLSN w) = nextLSN w + 1) by (unfold succ64; apply Z.mod_small; lia).
  assert (Hlast : lastOf 0 (rs ++ [stored r]) = nextLSN w) by (rewrite lastOf_app; cbn; by rewrite LSN_stored).
  constructor; cbn [withNextLSN isOpen path checkpointPath nextLSN checkpointLSN]; rewrite ?Hn, ?Hlast; try done; try lia.
  - eexists. rewrite Hfs, lookup_insert_eq. split; [done|]. apply logs_append; try done. lia.
  - apply (checkpointAt_files fs); [|done]. by rewrite Hfs, lookup_insert_ne.
Qed.

Lemma appendLocked_ok W now r rs r' W' : walState (wal W) (disk W) rs -> nextLSN (wal W) + 1 < 2 ^ 64 ->
  storable (stamp now (nextLSN (wal W)) r) -> appendLocked now r W = (Ok r', W') ->
  r' = stamp now (nextLSN (wal W)) r /\ walState (wal W') (disk W') (rs ++ [stored r']) /\ store W' = store W /\
  wal W' = withNextLSN (wal W) (succ64 (nextLSN (wal W))) /\
  (forall q, q <> path (wal W) -> files (disk W') !! q = files (disk W) !! q) /\
  (syncOnAppend (wal W) = true -> durable (disk W') (path (wal W))).
Proof.
  intros Hw Hroom Hr E. destruct (ws_file _ _ _ Hw) as (f & Hf & Hl).
  destruct (appendLocked_cases W now r f Hf Hr) as (text & res & W1 & Et & E1 & Hs & Heff).
  rewrite E in E1. injection E1 as <- <-. destruct Heff as [(n & F & Hn & [= ->] & Ew)|(k & e & _ & [=] & _)].
  split_and!; try done.
  - rewrite Ew. by eapply walState_append.
  - intros q Hq. by rewrite F, lookup_insert_ne.
  - intros Hsync. rewrite Hsync in Hn. unfold durable. by rewrite F, lookup_insert_eq, Hn.
Qed.

(** ** Crashes *)






Lemma walState_room w fs rs : walState w fs rs -> 0 <= nextLSN w.
Proof.
  intros [_ _ _ _ _ (f & _ & Hl) H _ _ _]. pose proof (lastOf_ge _ _ (logs_increasing _ _ Hl)). lia.
Qed.


(** ** Checkpoints *)

Lemma abandon_run q e fs : exists fs', abandon q e fs = (Err e, fs') /\ sameExcept q fs fs'.
Proof.
  pose proof (Remove_keeps q fs) as Hk. unfold abandon, try_, mbind, stgo_bind, lift.
  destruct (Remove q fs) as [[u|e'|] fs'] eqn:E; cbn [snd] in Hk; [by exists fs'..|].
  exfalso. revert E. unfold Remove.
  edestruct (mayFail_cases (A := unit)) as (rest & _ & [E|(e'' & E & _)]); rewrite E; [|done].
  unfold getFile, mbind, stgo_bind. simpl. by destruct (files fs !! q).
Qed.

(** The checkpoint file is the old one, or, on success, the new one as a whole. *)
Definition checkpointEffect (p text : bytes) (fs : FS) (res : go unit) (fs' : FS) : Prop :=
  (forall q, q <> p -> q <> p ++ str ".tmp" -> files fs' !! q = files fs !! q) /\
  (res = Ok tt /\ files fs' !! p = Some (mkFile text (length text)) \/
   (exists e, res = Err e) /\ files fs' !! p = files fs !! p).

Lemma tmp_ne (p : bytes) : p <> p ++ str ".tmp".
Proof. intros E. apply (f_equal length) in E. rewrite length_app in E. cbn in E. lia. Qed.

Lemma checkpointEffect_failed p text e fs fs' : sameExcept (p ++ str ".tmp") fs fs' ->
  checkpointEffect p text fs (Err e) fs'.
Proof. intros H. split; [intros q _ Hq; by apply H|]. right. split; [eauto|]. apply H, tmp_ne. Qed.

Lemma WriteLocalWALCheckpoint_cases now p c text fs : settled p -> checkpointText (normalizeCheckpoint now c) = Ok text ->
  exists res fs', WriteLocalWALCheckpoint now p c fs = (res, fs') /\ checkpointEffect p text fs res fs'.
Proof.
  intros Hp Et. unfold WriteLocalWALCheckpoint. rewrite bind_lift, Hp. set (q := p ++ str ".tmp").
  destruct (CloseFile_cases fs) as (rest0 & _ & [E0|(e0 & E0)]); change CloseFile with MkdirAll in E0;
    [rewrite (bind_run _ _ _ _ _ (wrapIO_ok _ _ _ _ _ _ E0))
    |rewrite (bind_err _ _ _ _ _ (wrapIO_run _ _ _ _ _ _ E0)); do 2 eexists; split; [done|by apply checkpointEffect_failed]].
  rewrite bind_lift, Et. set (fs0 := mkFS (files fs) rest0).
  destruct (OpenTrunc_cases q fs0) as (rest1 & [E1|(e1 & E1)]);
    [rewrite (bind_run _ _ _ _ _ (wrapIO_ok _ _ _ _ _ _ E1))
    |rewrite (bind_err _ _ _ _ _ (wrapIO_run _ _ _ _ _ _ E1)); do 2 eexists; split; [done|by apply checkpointEffect_failed]].
  set (fs1 := mkFS _ rest1). assert (K1 : sameExcept q fs fs1) by (exact (sameExcept_insert q _ fs0 rest1)).
  assert (F1 : files fs1 !! q = Some (mkFile [] 0)) by apply lookup_insert_eq.
  destruct (try_AppendFile q text _ fs1 F1) as (r2 & fs2 & f2 & E2 & K2 & F2 & C2). rewrite (bind_run _ _ _ _ _ E2).
  destruct (try_Sync q f2 fs2 F2) as (r3 & fs3 & f3 & E3 & K3 & F3 & C3 & S3). rewrite (bind_run _ _ _ _ _ E3).
  destruct (try_CloseFile fs3) as (r4 & fs4 & E4 & F4). rewrite (bind_run _ _ _ _ _ E4).
  assert (K : sameExcept q fs fs4).
  { intros x Hx. rewrite F4. by apply (sameExcept_trans q _ _ _ K1 (sameExcept_trans q _ _ _ K2 K3)). }
  assert (Gone : forall e, exists res fs', abandon q e fs4 = (res, fs') /\ checkpointEffect p text fs res fs').
  { intros e. destruct (abandon_run q e fs4) as (fs5 & E5 & K5). exists (Err e), fs5. split; [done|].
    apply checkpointEffect_failed. by apply (sameExcept_trans q _ _ _ K). }
  destruct (err_of r2) eqn:Er2; [apply Gone|]. destruct (err_of r3) eqn:Er3; [apply Gone|].
  destruct (err_of r4) eqn:Er4; [apply Gone|].
  assert (F5 : files fs4 !! q = Some (mkFile text (length text))).
  { rewrite F4, F3. f_equal. destruct f3 as [cs sy]. cbn [contents synced] in *. rewrite C3, S3, C2 by done. done. }
  destruct (Rename_cases q p _ fs4 F5) as (rest6 & [E6|(e & E6)]).
  - rewrite (bind_run _ _ _ _ _ (try_ok _ _ _ _ E6)). do 2 eexists. split; [done|]. split.
    + intros x Hx Hq. simpl. rewrite lookup_insert_ne, lookup_delete_ne by done. by apply K.
    + left. split; [done|]. apply lookup_insert_eq.
  - rewrite (bind_run _ _ _ _ _ (try_err _ _ _ _ E6)).
    destruct (abandon_run q (Errorf "commit WAL checkpoint %q: %w" [AStr p; AErr e]) (mkFS (files fs4) rest6)) as (fs5 & E5 & K5).
    do 2 eexists. split; [exact E5|]. apply checkpointEffect_failed. intros x Hx. rewrite K5 by done. by apply K.
Qed.

Lemma UTC_UTC t : UTC (UTC t) = UTC t.
Proof. done. Qed.

(** What the checkpoint for a record holds. *)
Definition checkpointFor (w : LocalWAL) (now : Time) (r : LocalWALRecord) : LocalWALCheckpoint :=
  mkCheckpoint LocalWALVersion LocalWALCheckpointFormat (path w) (LSN r) (OperationID r) (UTC now).

Lemma normalize_checkpointFor w now r : normalizeCheckpoint now (checkpointFor w now r) = checkpointFor w now r.
Proof. unfold normalizeCheckpoint, checkpointFor. cbn [ck_UpdatedAt]. by destruct (IsZero (UTC now)). Qed.

Lemma walState_files w fs fs' rs : walState w fs rs -> files fs' !! path w = files fs !! path w ->
  files fs' !! checkpointPath w = files fs !! checkpointPath w -> walState w fs' rs.
Proof.
  intros [H1 H2 H3 H4 H5 H6 H7 H8 H9 H10] E1 E2. constructor; try done; [by rewrite E1|].
  by apply (checkpointAt_files fs).
Qed.

(** Advancing the checkpoint to a record of the log: the log stays as it is, and the
    checkpoint is the old one or that of the record. *)
Lemma advanceCheckpoint_cases W now r rs : walState (wal W) (disk W) rs -> LSN r <= lastOf 0 rs ->
  storableCheckpoint (checkpointFor (wal W) now r) ->
  exists res W', advanceCheckpointLocked now r W = (res, W') /\ walState (wal W') (disk W') rs /\ store W' = store W /\
    files (disk W') !! path (wal W) = files (disk W) !! path (wal W) /\
    (durable (disk W) (checkpointPath (wal W)) -> durable (disk W') (checkpointPath (wal W))) /\
    ((exists c, res = Ok c /\ wal W' = withCheckpointLSN (wal W) (Z.max (checkpointLSN (wal W)) (LSN r))) \/
     (exists e, res = Err e /\ wal W' = wal W)).
Proof.
  intros Hw Hr Hc. destruct W as [fs w s]. cbn [disk wal] in *. unfold advanceCheckpointLocked.
  rewrite (bind_run _ _ _ w (mkWorld fs w s)) by done. fold (checkpointFor w now r). cbn [ck_LastCommittedLSN checkpointFor].
  destruct (Z.leb_spec (LSN r) (checkpointLSN w)) as [Hle|Hlt].
  { do 2 eexists. split; [reflexivity|]. cbn [disk wal store]. split_and!; try done. left. eexists. split; [done|].
    rewrite Z.max_l by lia. by destruct w. }
  destruct (checkpointText_ok _ Hc) as (text & frame & Et & Hu & Hf & Hv).
  destruct (WriteLocalWALCheckpoint_cases now (checkpointPath w) (checkpointFor w now r) text fs (ws_ckpath _ _ _ Hw))
    as (res & fs' & E & Hother & Hres); [by rewrite normalize_checkpointFor|].
  assert (Hpath : files fs' !! path w = files fs !! path w) by (apply Hother; apply not_eq_sym, Hw).
  destruct Hres as [(-> & Hnew)|[(e & ->) Hold]].
  - rewrite (bind_run _ _ _ _ _ (onDisk_run _ (mkWorld fs w s) _ _ E)). do 2 eexists. split; [reflexivity|].
    cbn [disk wal store]. destruct Hw as [H1 H2 H3 H4 H5 H6 H7 H8 H9 H10]. split_and!; try done.
    + constructor; cbn [withCheckpointLSN isOpen path checkpointPath nextLSN checkpointLSN]; try done.
      * by rewrite Hpath.
      * unfold checkpointAt. rewrite Hnew. exists frame. by rewrite Hf.
    + intros _. unfold durable. by rewrite Hnew.
    + left. eexists. split; [done|]. by rewrite Z.max_r by lia.
  - rewrite (bind_err _ _ _ _ _ (onDisk_run _ (mkWorld fs w s) _ _ E)). do 2 eexists. split; [reflexivity|].
    cbn [disk wal store]. split_and!; try done; [by eapply walState_files|by unfold durable; rewrite Hold|right; eauto].
Qed.

(** ** Commit boundaries *)

(** The four outcomes of a commit boundary: the append failed; the record is in the
    log and the commit function failed; it succeeded and the checkpoint stayed; the
    checkpoint has reached the record. *)
Inductive boundary W (commit : Store -> go unit * Store) (rs : list LocalWALRecord) (r1 : LocalWALRecord) W' :
    LocalWALRecord * LocalWALCheckpoint * option error -> Prop :=
  | b_append e : store W' = store W -> wal W' = wal W ->
      boundary W commit rs r1 W' (zeroRecord, zeroCheckpoint, Some e)
  | b_commit e s : walState (wal W') (disk W') (rs ++ [stored r1]) -> commit (store W) = (Err e, s) -> store W' = s ->
      checkpointLSN (wal W') = checkpointLSN (wal W) ->
      boundary W commit rs r1 W' (r1, zeroCheckpoint, Some e)
  | b_checkpoint e s : walState (wal W') (disk W') (rs ++ [stored r1]) -> commit (store W) = (Ok tt, s) -> store W' = s ->
      checkpointLSN (wal W') = checkpointLSN (wal W) ->
      boundary W commit rs r1 W' (r1, zeroCheckpoint, Some e)
  | b_done c s : walState (wal W') (disk W') (rs ++ [stored r1]) -> commit (store W) = (Ok tt, s) -> store W' = s ->
      checkpointLSN (wal W') = LSN r1 -> 
      boundary W commit rs r1 W' (r1, c, None).

Lemma CommitBoundary_cases W now r commit rs : let r1 := stamp now (nextLSN (wal W)) r in
  walState (wal W) (disk W) rs -> nextLSN (wal W) + 1 < 2 ^ 64 -> storable r1 ->
  storableCheckpoint (checkpointFor (wal W) now r1) -> (commit (store W)).1 <> Panic ->
  exists out W', CommitBoundary None now r (Some commit) W = (Ok out, W') /\ boundary W commit rs r1 W' out /\
    (out.1.1 = r1 -> syncOnAppend (wal W) = true -> durable (disk W) (checkpointPath (wal W)) ->
     durable (disk W') (path (wal W)) /\ durable (disk W') (checkpointPath (wal W))) /\
    path (wal W') = path (wal W) /\ checkpointPath (wal W') = checkpointPath (wal W) /\
    syncOnAppend (wal W') = syncOnAppend (wal W).
Proof.
  intros r1 Hw Hroom Hr Hc Hp. unfold CommitBoundary. rewrite (bind_run _ _ _ (wal W) W) by done.
  rewrite (ws_open _ _ _ Hw). cbn [negb]. cbv iota.
  destruct (ws_file _ _ _ Hw) as (f & Hf & _).
  destruct (appendLocked_cases W now r f Hf Hr) as (text & res & W1 & Et & E1 & Hs & Heff).
  destruct Heff as [(n & F & Hn & -> & Ew)|(k & e & F & -> & Ew)].
  2:{ rewrite (bind_run _ _ _ _ _ (try_err _ _ _ _ E1)). do 2 eexists. split; [reflexivity|]. rewrite Ew. split; [by constructor|].
      by split_and!. }
  rewrite (bind_run _ _ _ _ _ (try_ok _ _ _ _ E1)). fold r1.
  destruct (appendLocked_ok W now r rs r1 W1 Hw Hroom Hr E1) as (_ & Hw1 & _ & _ & Hq1 & Hd1).
  assert (Hdck : durable (disk W) (checkpointPath (wal W)) -> durable (disk W1) (checkpointPath (wal W))).
  { unfold durable. rewrite Hq1; [done|apply Hw]. }
  destruct (commit (store W)) as [res s] eqn:Ec.
  assert (Ecb : callback commit W1 = (res, mkWorld (disk W1) (wal W1) s)) by (unfold callback; by rewrite Hs, Ec).
  destruct res as [[]|e|]; [..|done].
  2:{ rewrite (bind_run _ _ _ _ _ (try_err _ _ _ _ Ecb)). do 2 eexists. split; [reflexivity|].
      cbn [wal disk store]. rewrite Ew in *. split; [|by split_and!; auto].
      eapply b_commit; cbn [wal disk store]; done. }
  rewrite (bind_run _ _ _ _ _ (try_ok _ _ _ _ Ecb)). set (W2 := mkWorld (disk W1) (wal W1) s).
  assert (Hlast : lastOf 0 (rs ++ [stored r1]) = LSN r1).
  { rewrite lastOf_app. change (lastOf ?x [stored r1]) with (LSN (stored r1)). apply LSN_stored. }
  destruct (advanceCheckpoint_cases W2 now r1 (rs ++ [stored r1]) Hw1) as (res & W3 & E3 & Hw3 & Hs3 & Hp3 & Hd3 & Hres).
  { lia. }
  { cbn [wal W2]. by rewrite Ew. }
  destruct Hres as [(c & -> & Ew3)|(e & -> & Ew3)]; cbn [wal disk store W2] in *.
  - rewrite (bind_run _ _ _ _ _ (try_ok _ _ _ _ E3)). do 2 eexists. split; [reflexivity|].
    rewrite Ew in *. cbn [withNextLSN checkpointPath path] in *. split.
    + eapply b_done; try done. rewrite Ew3. cbn. apply Z.max_r. pose proof (ws_behind _ _ _ Hw).
      pose proof (ws_next _ _ _ Hw). change (LSN r1) with (nextLSN (wal W)). lia.
    + rewrite Ew3. split_and!; try done. intros _ Hsync Hdc.
      split; [unfold durable; rewrite Hp3; by apply Hd1|by apply Hd3, Hdck].
  - rewrite (bind_run _ _ _ _ _ (try_err _ _ _ _ E3)). do 2 eexists. split; [reflexivity|].
    rewrite Ew in *. cbn [withNextLSN checkpointPath path] in *. split.
    + eapply b_checkpoint; [done..|by rewrite Ew3].
    + rewrite Ew3. split_and!; try done. intros _ Hsync Hdc.
      split; [unfold durable; rewrite Hp3; by apply Hd1|by apply Hd3, Hdck].
Qed.

End Writes.

(** ** The recovery plan *)

Lemma filter_all {A} (Q : A -> Prop) `{!forall x, Decision (Q x)} l : Forall Q l -> filter Q l = l.
Proof. induction 1 as [|x l Hx Hl IH]; [done|]. by rewrite filter_cons_True, IH. Qed.

Lemma filter_none {A} (Q : A -> Prop) `{!forall x, Decision (Q x)} l : Forall (fun x => ~ Q x) l -> filter Q l = [].
Proof. induction 1 as [|x l Hx Hl IH]; [done|]. by rewrite filter_cons_False, IH. Qed.

Lemma planTail_spec ck rs : forall count tail,
  planTail ck count tail rs =
    (count + zlen (filter (fun r => LSN r <= ck) rs), tail ++ filter (fun r => ck < LSN r) rs).
Proof.
  induction rs as [|r rs IH]; intros count tail; cbn [planTail]; [by rewrite app_nil_r, Z.add_0_r|].
  destruct (Z.leb_spec (LSN r) ck) as [H|H]; rewrite IH.
  - rewrite (filter_cons_True (fun r => LSN r <= ck)) by done. rewrite (filter_cons_False (fun r => ck < LSN r)) by lia.
    rewrite zlen_cons. f_equal. lia.
  - rewrite (filter_cons_False (fun r => LSN r <= ck)) by lia. rewrite (filter_cons_True (fun r => ck < LSN r)) by done.
    by rewrite <- app_assoc.
Qed.

Lemma increasing_all rs : forall last, increasing last rs -> Forall (fun r => last < LSN r) rs.
Proof.
  induction rs as [|r rs IH]; intros last H; [constructor|]. destruct H as [H1 H2]. constructor; [done|].
  eapply Forall_impl; [apply IH, H2|]. intros r' Hr'. cbn in Hr'. lia.
Qed.

(** In an increasing log the records the checkpoint covers come first. *)
Lemma increasing_split ck rs : forall last, increasing last rs ->
  rs = filter (fun r => LSN r <= ck) rs ++ filter (fun r => ck < LSN r) rs.
Proof.
  induction rs as [|r rs IH]; intros last H; [done|]. destruct H as [_ H2].
  destruct (Z.leb_spec (LSN r) ck) as [Hr|Hr].
  - rewrite (filter_cons_True (fun r => LSN r <= ck)) by done. rewrite (filter_cons_False (fun r => ck < LSN r)) by lia.
    cbn [app]. f_equal. by apply (IH (LSN r)).
  - rewrite (filter_cons_False (fun r => LSN r <= ck)) by lia. rewrite (filter_cons_True (fun r => ck < LSN r)) by done.
    pose proof (increasing_all _ _ H2) as Hall. rewrite filter_none, filter_all; [done|..];
      (eapply Forall_impl; [exact Hall|]); intros x Hx; cbn in Hx; lia.
Qed.

(** The loop's index is that of the last commit. *)
Lemma lastCommitIndexFrom_spec tail : forall i last, last < i ->
  let k := lastCommitIndexFrom i last tail in
  (k = last /\ Forall (fun r => isCommit r = false) tail) \/
  (i <= k < i + zlen tail /\ exists before r after, tail = before ++ r :: after /\ zlen before = k - i /\
     isCommit r = true /\ Forall (fun r => isCommit r = false) after).
Proof.
  induction tail as [|r tail IH]; intros i last Hi k; [by left|].
  unfold k. cbn [lastCommitIndexFrom]. rewrite zlen_cons. pose proof (zlen_nonneg tail).
  destruct (isCommit r) eqn:Er; [destruct (IH (i + 1) i ltac:(lia)) as [[E H1]|(Hk & b & r' & a & -> & Hb & Hr' & Ha)]
    |destruct (IH (i + 1) last ltac:(lia)) as [[E H1]|(Hk & b & r' & a & -> & Hb & Hr' & Ha)]].
  - right. rewrite E. split; [lia|]. exists [], r, tail. split_and!; try done. change (@zlen LocalWALRecord []) with 0. lia.
  - right. split; [lia|]. exists (r :: b), r', a. rewrite zlen_cons. split_and!; try done. lia.
  - left. split; [done|]. by constructor.
  - right. split; [lia|]. exists (r :: b), r', a. rewrite zlen_cons. split_and!; try done. lia.
Qed.

Lemma commitCount_acc records : forall n,
  fold_left (fun n r => if isCommit r then n + 1 else n) records n = n + zlen (filter (fun r => isCommit r = true) records).
Proof.
  induction records as [|r records IH]; intros n; cbn [fold_left]; [change (zlen _) with 0; lia|]. rewrite IH.
  destruct (isCommit r) eqn:E.
  - rewrite (filter_cons_True (fun r => isCommit r = true)) by done. rewrite zlen_cons. lia.
  - by rewrite (filter_cons_False (fun r => isCommit r = true)) by (by rewrite E).
Qed.

(** How a plan cuts the records of a log: those the checkpoint covers, those up to the
    last commit after it, and the rest. *)
Record planSplit (plan : LocalWALRecoveryPlan) (rs covered : list LocalWALRecord) : Prop := {
  ps_split : rs = covered ++ pl_ReplayRecords plan ++ pl_PendingRecords plan;
  ps_covered : Forall (fun r => LSN r <= pl_CheckpointLSN plan) covered;
  ps_after : Forall (fun r => pl_CheckpointLSN plan < LSN r) (pl_ReplayRecords plan ++ pl_PendingRecords plan);
  ps_replay : pl_ReplayRecords plan = [] \/
    exists before r, pl_ReplayRecords plan = before ++ [r] /\ isCommit r = true;
  ps_pending : Forall (fun r => isCommit r = false) (pl_PendingRecords plan);
  ps_count : pl_CheckpointedRecordCount plan = zlen covered;
  ps_commits : pl_ReplayCommitBoundaryCount plan = zlen (filter (fun r => isCommit r = true) (pl_ReplayRecords plan)) }.

Lemma planRecords_split resolved ck read last c b : increasing 0 (Records read) ->
  exists covered, planSplit (planRecords resolved ck read last c b) (Records read) covered.
Proof.
  intros Hi. unfold planRecords. rewrite planTail_spec. cbn [app].
  set (covered := filter (fun r => LSN r <= ck_LastCommittedLSN c) (Records read)).
  set (tail := filter (fun r => ck_LastCommittedLSN c < LSN r) (Records read)).
  pose proof (increasing_split (ck_LastCommittedLSN c) _ _ Hi) as Hsplit. fold covered tail in Hsplit.
  assert (Hc : Forall (fun r => LSN r <= ck_LastCommittedLSN c) covered) by (apply Forall_forall; intros x Hx; apply list_elem_of_filter in Hx; apply Hx).
  assert (Ht : Forall (fun r => ck_LastCommittedLSN c < LSN r) tail) by (apply Forall_forall; intros x Hx; apply list_elem_of_filter in Hx; apply Hx).
  exists covered. pose proof (lastCommitIndexFrom_spec tail 0 (-1) ltac:(lia)) as Hx. cbv zeta in Hx.
  fold (lastCommitIndex tail) in Hx. destruct Hx as [[-> Hn]|(Hk & before & r & after & E & Hb & Hr & Ha)].
  - by constructor; cbn; auto.
  - replace (0 <=? lastCommitIndex tail) with true by lia.
    assert (Hcut : Z.to_nat (lastCommitIndex tail + 1) = length (before ++ [r])) by (rewrite length_app; cbn; unfold zlen in Hb; lia).
    assert (E' : tail = (before ++ [r]) ++ after) by (by rewrite <- app_assoc).
    assert (Htake : take (length (before ++ [r])) tail = before ++ [r]) by (rewrite E'; apply take_app_length).
    assert (Hdrop : drop (length (before ++ [r])) tail = after) by (rewrite E'; apply drop_app_length).
    rewrite Hcut, Htake, Hdrop.
    constructor; cbn [pl_ReplayRecords pl_PendingRecords pl_CheckpointLSN pl_CheckpointedRecordCount pl_ReplayCommitBoundaryCount];
      try done; [by rewrite Hsplit, E'|by rewrite <- E'|right; eauto|].
    unfold commitCount. rewrite commitCount_acc. apply Z.add_0_l.
Qed.

(** Planning succeeds on a log with a torn tail, and changes nothing. *)
Lemma PlanLocalWALRecovery_ok fs p ck opts data torn rs lsn : healthy fs -> settled p -> settled ck ->
  localWALCheckpointPath p (CheckpointPath opts) = Ok ck -> recoverable fs p ck data torn rs lsn ->
  exists plan fs' covered, PlanLocalWALRecoveryWithOptions p opts fs = (Ok plan, fs') /\ files fs' = files fs /\
    planSplit plan rs covered /\ pl_CheckpointLSN plan = lsn /\ pl_LastLSN plan = lastOf 0 rs /\
    pl_TornTailBytes plan = zlen torn.
Proof.
  intros Hf Hp Hck Eck [Hfile Hl Ht Hroom Hc Hb]. unfold PlanLocalWALRecoveryWithOptions.
  rewrite bind_lift, Hp, bind_lift, Eck. destruct (readLocalWALPath_healthy p fs Hp Hf) as (fs1 & E1 & F1 & H1).
  assert (Hread : exists read, readLocalWALPath p fs = (Ok read, fs1) /\ Records read = rs /\ TornTailBytes read = zlen torn).
  { destruct (readLocalWAL_logs data rs torn Hl Ht) as (read & Er & R1 & R2 & R3 & _).
    destruct (files fs !! p) as [f|]; [rewrite Hfile, Er in E1; eauto|]. destruct Hfile as [-> ->].
    exists emptyRead. split_and!; [done| |done]. cbn [app] in Er. injection Er as <-. done. }
  destruct Hread as (read & Er & R1 & R2). rewrite (bind_run _ _ _ _ _ Er), bind_lift, R1.
  pose proof (logs_increasing _ _ Hl) as Hi. rewrite (checkSequence_increasing _ _ Hi).
  destruct (LoadLocalWALCheckpoint_healthy ck lsn fs1 Hck H1) as (c & b & fs2 & E2 & C2 & F2 & H2).
  { apply (checkpointAt_files fs); [by rewrite F1|done]. }
  rewrite (bind_run _ _ _ _ _ E2). cbn [fst snd]. unfold aheadOfTail. rewrite C2.
  replace (lastOf 0 rs <? lsn) with false by lia. rewrite andb_false_r. cbv iota.
  destruct (planRecords_split p ck read (lastOf 0 rs) c b) as [covered Hs]; [by rewrite R1|].
  eexists _, fs2, covered. split; [reflexivity|]. rewrite R1 in Hs. split_and!; try done; [congruence|..];
    unfold planRecords; destruct (planTail _ _ _ _) as [n tail]; cbv zeta;
    destruct (if 0 <=? lastCommitIndex tail then _ else _); done.
Qed.

(** ** Reading the log *)

Lemma ReadLocalWAL_ok w fs fs2 rs : walState w fs rs -> healthy fs2 -> files fs2 = files fs ->
  exists fs3, ReadLocalWAL (path w) fs2 = (Ok rs, fs3) /\ files fs3 = files fs.
Proof.
  intros Hw Hf Hfs. destruct (ws_file _ _ _ Hw) as (f & Hp & Hl).
  destruct (readLocalWALPath_healthy (path w) fs2 (ws_path _ _ _ Hw) Hf) as (fs3 & E & F & _).
  destruct (readLocalWAL_logs (contents f) rs [] Hl ltac:(constructor)) as (read & Er & R & _).
  rewrite app_nil_r in Er. rewrite Hfs, Hp, Er in E. exists fs3. unfold ReadLocalWAL. rewrite (bind_run _ _ _ _ _ E), R.
  split; [done|congruence].
Qed.

(** A frame with an LSN that is not new makes the log unreadable. *)
Lemma logs_repeated data rs r text : logs data rs -> storable r -> LSN r <= lastOf 0 rs -> frameText r = Ok text ->
  exists n, readLocalWAL (data ++ text ++ [byte_of 10]) None
    = Err (Errorf "WAL LSN sequence is not increasing at line %d: got %d after %d" [AInt n; AInt (LSN r); AInt (lastOf 0 rs)]).
Proof.
  intros Hl Hr Hlsn Et. destruct (frameText_ok r Hr) as (text' & frame & Et' & H1 & (inner & Hi) & Hu & Hf & Hv).
  rewrite Et in Et'. injection Et' as <-. destruct (logs_scan _ _ Hl) as (st & E & Hs). unfold readLocalWAL.
  assert (Hsplit : splitLines (data ++ text ++ [byte_of 10]) = ((splitLines data).1 ++ [text ++ [byte_of 10]], [])).
  { rewrite splitLines_app, (splitLines_line text [] H1). unfold joinLines. cbn. by rewrite (proj1 Hl). }
  rewrite Hsplit. rewrite readFrameLines_app, E. cbn [mbind go_bind readFrameLines]. pose proof (so_lsn _ _ _ Hs) as Hlast.
  destruct st as [[records count valid torn line] last n]. cbn [scanLSN] in Hlast. subst last. exists (n + 1).
  unfold readFrameLine. cbn [scanned scanLine scanLSN]. rewrite Hi, TrimSpace_braces, <- Hi.
  rewrite decide_False by (rewrite Hi; done). rewrite Hu. cbn [wrapErr mbind go_bind].
  rewrite Hv. cbn [wrapErr mbind go_bind]. rewrite Hf, LSN_stored. by if_true.
Qed.

(** Opening reports a log that cannot be read. *)
Lemma OpenLocalWAL_unreadable p ck opts f e fs : healthy fs -> settled p ->
  localWALCheckpointPath p (CheckpointPath opts) = Ok ck -> files fs !! p = Some f ->
  readLocalWAL (contents f) None = Err e -> exists fs', OpenLocalWALWithOptions p opts fs = (Err e, fs').
Proof.
  intros Hf Hp Eck Hfile Hr. unfold OpenLocalWALWithOptions. rewrite bind_lift, Hp, bind_lift, Eck.
  destruct (MkdirAll_healthy fs Hf) as (fs1 & E1 & F1 & H1). rewrite (bind_run _ _ _ _ _ (wrapIO_ok _ _ _ _ _ _ E1)).
  destruct (MkdirAll_healthy fs1 H1) as (fs2 & E2 & F2 & H2). rewrite (bind_run _ _ _ _ _ (wrapIO_ok _ _ _ _ _ _ E2)).
  destruct (readLocalWALPath_healthy p fs2 Hp H2) as (fs3 & E3 & F3 & H3). rewrite F2, F1, Hfile, Hr in E3.
  exists fs3. by rewrite (bind_err _ _ _ _ _ E3).
Qed.

(** ** Executions *)

Section Executions.

Context {Store : Type}.
Implicit Types (W : World Store).

(** A record that can be written by the next append, and checkpointed. *)
Record acceptable W (now : Time) (r : LocalWALRecord) : Prop := {
  ac_room : nextLSN (wal W) + 1 < 2 ^ 64;
  ac_record : storable (stamp now (nextLSN (wal W)) r);
  ac_checkpoint : storableCheckpoint (checkpointFor (wal W) now (stamp now (nextLSN (wal W)) r)) }.





Lemma Append_open W now r : isOpen (wal W) = true -> Append None now r W = appendLocked now r W.
Proof. intros H. unfold Append. rewrite (bind_run _ _ _ (wal W) W) by done. by rewrite H. Qed.









(** What every use of the options assumes of the paths. *)
Record goodPaths (p ck : bytes) (opts : LocalWALOptions) : Prop := {
  gp_path : settled p;
  gp_ckpath : settled ck;
  gp_option : localWALCheckpointPath p (CheckpointPath opts) = Ok ck;
  gp_distinct : ck <> p;
  gp_tmp : ck ++ str ".tmp" <> p;
  gp_sync : SyncOnAppend opts = true }.




(** ** An append after a failed sync *)

(** The frame is written and the sync fails; the next append repeats the LSN. *)
Lemma failed_sync_repeats W now1 r1 now2 r2 rs p ck opts k e rest : goodPaths p ck opts ->
  walState (wal W) (disk W) rs -> path (wal W) = p -> syncOnAppend (wal W) = true -> nextLSN (wal W) + 1 < 2 ^ 64 ->
  storable (stamp now1 (nextLSN (wal W)) r1) -> storable (stamp now2 (nextLSN (wal W)) r2) ->
  faults (disk W) = None :: Some (k, e) :: rest -> Forall (eq None) rest ->
  exists W1 r' W2 e' fs', Append None now1 r1 W = (Err (Errorf "sync WAL frame: %w" [AErr e]), W1) /\
    Append None now2 r2 W1 = (Ok r', W2) /\ OpenLocalWALWithOptions p opts (disk W2) = (Err e', fs').
Proof.
  intros G Hw Hp Hsync Hroom Hr1 Hr2 Hfaults Hrest. pose proof (ws_open _ _ _ Hw) as Hopen.
  destruct (ws_file _ _ _ Hw) as (f & Hf & Hl). destruct W as [[m fl] w s]. cbn [disk wal faults files] in *. subst fl.
  destruct (frameText_ok _ Hr1) as (text1 & _ & Et1 & _). destruct (frameText_ok _ Hr2) as (text2 & _ & Et2 & _).
  set (f1 := mkFile (contents f ++ text1 ++ [byte_of 10]) (synced f)).
  set (W1 := mkWorld (mkFS (<[path w := f1]> m) rest) w s).
  assert (E1 : appendLocked now1 r1 (mkWorld (mkFS m (None :: Some (k, e) :: rest)) w s) =
    (Err (Errorf "sync WAL frame: %w" [AErr e]), W1)).
  { unfold appendLocked. rewrite (bind_run _ _ _ w (mkWorld (mkFS m (None :: Some (k, e) :: rest)) w s)) by done.
    rewrite bind_lift, (validate_storable _ Hr1), bind_lift, Et1.
    rewrite (bind_run _ _ _ tt (mkWorld (mkFS (<[path w := f1]> m) (Some (k, e) :: rest)) w s)).
    - by rewrite Hsync.
    - apply wrapIO_ok, onDisk_run. unfold AppendFile. cbn [disk].
      rewrite (bind_run _ _ _ None (mkFS m (Some (k, e) :: rest))) by done.
      rewrite (bind_run _ _ _ (Some f) (mkFS m (Some (k, e) :: rest))) by (unfold getFile; cbn [files]; by rewrite Hf).
      done. }
  assert (Hw1 : files (disk W1) !! path (wal W1) = Some f1) by apply lookup_insert_eq.
  assert (H1 : healthy (disk W1)) by done.
  destruct (AppendFile_healthy (path w) (text2 ++ [byte_of 10]) (disk W1) H1) as (fs2 & E2 & H2 & F2).
  cbv zeta in F2. cbn [wal W1] in Hw1. rewrite Hw1 in F2. cbn [default] in F2. unfold id in F2.
  set (f2 := mkFile (contents f1 ++ text2 ++ [byte_of 10]) (synced f1)) in *.
  assert (Hf2 : files fs2 !! path w = Some f2) by (rewrite F2; apply lookup_insert_eq).
  destruct (Sync_healthy (path w) f2 fs2 H2 Hf2) as (fs3 & E3 & H3 & F3).
  assert (E4 : exists W2, appendLocked now2 r2 W1 = (Ok (stamp now2 (nextLSN w) r2), W2) /\ disk W2 = fs3).
  { unfold appendLocked. rewrite (bind_run _ _ _ w W1) by done.
    rewrite bind_lift, (validate_storable _ Hr2), bind_lift, Et2.
    rewrite (bind_run _ _ _ _ _ (wrapIO_ok _ _ _ _ _ _ (onDisk_run _ W1 _ _ E2))), Hsync.
    rewrite (bind_run _ _ _ _ _ (wrapIO_ok _ _ _ _ _ _ (onDisk_run _ (mkWorld fs2 (wal W1) (store W1)) _ _ E3))).
    by eexists. }
  destruct E4 as (W2 & E4 & Hd2). destruct G as [G1 G2 G3 G4 G5 G6]. pose proof (ws_next _ _ _ Hw) as Hnext.
  assert (Hl1 : logs (contents f1) (rs ++ [stored (stamp now1 (nextLSN w) r1)])).
  { apply logs_append; try done. change (LSN (stamp now1 (nextLSN w) r1)) with (nextLSN w). lia. }
  destruct (logs_repeated _ _ _ text2 Hl1 Hr2) as (n & Hrep); [|done|].
  { rewrite lastOf_app. change (LSN (stamp now2 (nextLSN w) r2)) with (nextLSN w).
    change (lastOf ?x [?y]) with (LSN y). rewrite LSN_stored. change (LSN (stamp now1 (nextLSN w) r1)) with (nextLSN w). lia. }
  edestruct (OpenLocalWAL_unreadable p ck opts (mkFile (contents f2) (length (contents f2)))) as (fs' & E5);
    [exact H3|exact G1|exact G3|..];
    [by rewrite F3, <- Hp, lookup_insert_eq|exact Hrep|].
  exists W1, (stamp now2 (nextLSN w) r2), W2. do 2 eexists. rewrite !Append_open by done.
  split_and!; [exact E1|exact E4|]. rewrite Hd2. exact E5.
Qed.

End Executions.

(** ** Properties *)

Section Properties.

Context {Store : Type}.
Implicit Types (W : World Store).

(** A record whose append is acknowledged is what the log reads next: it has the
    stamp of the log, its LSN is the last one, and reading the file gives the records
    that were there before and then this one, its payload in compact form. *)
Theorem appended_record_is_read W now r rs r' W' fs2 :
  walState (wal W) (disk W) rs -> acceptable W now r -> Append None now r W = (Ok r', W') ->
  healthy fs2 -> files fs2 = files (disk W') ->
  r' = stamp now (nextLSN (wal W)) r /\ nextLSN (wal W') = LSN r' + 1 /\
  exists fs3, ReadLocalWAL (path (wal W)) fs2 = (Ok (rs ++ [stored r']), fs3).
Proof.
  intros Hw [Hroom Hr _] E Hf F. rewrite Append_open in E by apply Hw.
  destruct (appendLocked_ok W now r rs r' W' Hw Hroom Hr E) as (Er & Hw' & _ & Ew & _).
  destruct (ReadLocalWAL_ok _ _ fs2 _ Hw' Hf F) as (fs3 & E3 & _). rewrite Ew in E3. split_and!; [done| |by exists fs3].
  rewrite (ws_next _ _ _ Hw'), lastOf_app. change (lastOf ?x [?y]) with (LSN y). by rewrite LSN_stored.
Qed.



(** C14. The recovery plan of a log, with a torn tail or not, splits its records in
    order into those the checkpoint covers, those to replay, which end with a commit,
    and a tail without commits; it counts them and changes no file. *)
Theorem recovery_plan_splits_log fs p ck opts data torn rs lsn :
  healthy fs -> goodPaths p ck opts -> recoverable fs p ck data torn rs lsn ->
  exists plan fs' covered, PlanLocalWALRecoveryWithOptions p opts fs = (Ok plan, fs') /\ files fs' = files fs /\
    planSplit plan rs covered /\ pl_CheckpointLSN plan = lsn /\ pl_LastLSN plan = lastOf 0 rs /\
    pl_TornTailBytes plan = zlen torn.
Proof. intros Hf [G1 G2 G3 _ _ _]. by apply PlanLocalWALRecovery_ok. Qed.

(** A commit boundary runs the commit function once, after its record is in the
    log, and moves the checkpoint to the record only after the function succeeded;
    when the append fails neither the store nor the log object changes. *)
Theorem commit_boundary_order W now r commit rs :
  walState (wal W) (disk W) rs -> acceptable W now r -> (commit (store W)).1 <> Panic ->
  exists out W', CommitBoundary None now r (Some commit) W = (Ok out, W') /\
    boundary W commit rs (stamp now (nextLSN (wal W)) r) W' out.
Proof.
  intros Hw [Hroom Hr Hc] Hp. destruct (CommitBoundary_cases W now r commit rs Hw Hroom Hr Hc Hp) as (out & W' & E & Hb & _).
  by exists out, W'.
Qed.

(** C15. Whatever operation of the disk fails while a checkpoint is written, the
    checkpoint file is afterwards the old one, or, if no error is returned, the new
    one as a whole and on disk, which loads as the checkpoint written; no file but
    this one and its temporary file changes. *)
Theorem checkpoint_write_is_atomic now p c fs :
  settled p -> storableCheckpoint (normalizeCheckpoint now c) ->
  exists res fs', WriteLocalWALCheckpoint now p c fs = (res, fs') /\
    (forall q, q <> p -> q <> p ++ str ".tmp" -> files fs' !! q = files fs !! q) /\
    ((exists e, res = Err e) /\ files fs' !! p = files fs !! p \/
     res = Ok tt /\ durable fs' p /\ exists fs'',
       LoadLocalWALCheckpoint p (mkFS (files fs') []) = (Ok (normalizeCheckpoint now c, true), fs'')).
Proof.
  intros Hp Hc. destruct (checkpointText_ok _ Hc) as (text & frame & Et & Hu & Hf & Hv).
  destruct (WriteLocalWALCheckpoint_cases now p c text fs Hp Et) as (res & fs' & E & Hother & Hres).
  exists res, fs'. split_and!; try done. destruct Hres as [(-> & Hnew)|[He Hold]]; [right|by left].
  split_and!; [done|unfold durable; by rewrite Hnew|]. eexists. unfold LoadLocalWALCheckpoint. rewrite bind_lift, Hp.
  rewrite (bind_run _ _ _ (inl text) (mkFS (files fs') [])).
  - rewrite bind_lift, Hu. cbn [wrapErr]. by rewrite bind_lift, Hv, Hf.
  - apply try_ok. unfold ReadFile, mayFail, nextFault, getFile, mbind, stgo_bind. cbn [faults files]. by rewrite Hnew.
Qed.

(** C35. An append whose sync fails leaves its frame in the file and the next LSN
    unchanged: the next append succeeds, writes a second frame with the same LSN, and
    the log can no longer be opened. *)
Theorem append_after_failed_sync_breaks_log W now1 r1 now2 r2 rs p ck opts k e rest :
  goodPaths p ck opts -> walState (wal W) (disk W) rs -> path (wal W) = p -> syncOnAppend (wal W) = true ->
  acceptable W now1 r1 -> acceptable W now2 r2 ->
  faults (disk W) = None :: Some (k, e) :: rest -> Forall (eq None) rest ->
  exists W1 r' W2 e' fs', Append None now1 r1 W = (Err (Errorf "sync WAL frame: %w" [AErr e]), W1) /\
    Append None now2 r2 W1 = (Ok r', W2) /\ OpenLocalWALWithOptions p opts (disk W2) = (Err e', fs').
Proof. intros G Hw Hp Hs [Hroom Hr1 _] [_ Hr2 _]. by apply failed_sync_repeats with (rs := rs) (ck := ck). Qed.

End Properties.
End Disk.

(** ** A sample log *)

#[local] Instance sampleProcess : Process :=
  {| Getwd := Ok (str "/srv"); url_Parse := fun _ => Err (Errorf "parse" []) |}.

Definition samplePath : bytes := str "/srv/data.wal".
Definition sampleCheckpointPath : bytes := str "/srv/data.wal.checkpoint.json".
Definition sampleOptions : LocalWALOptions := mkOptions true [].
Definition sampleNow : Time := Date 2026 11 15 8 30 0 250000000.
Definition sampleRecord : LocalWALRecord :=
  mkRecord 0 0 zeroTime [] [] (str "commit:1") (str "commit") [] [].
Definition sampleWAL : LocalWAL := mkWAL samplePath sampleCheckpointPath true 1 0 true.
Definition sampleDisk (fl : list (option (nat * error))) : FS := mkFS {[samplePath := mkFile [] 0]} fl.
Definition sampleWorld (fl : list (option (nat * error))) : World unit := mkWorld (sampleDisk fl) sampleWAL tt.
Definition sampleCommit : unit -> go unit * unit := fun s => (Ok tt, s).

Lemma sample_paths : goodPaths samplePath sampleCheckpointPath sampleOptions.
Proof. constructor; vm_compute; congruence. Qed.

Lemma sample_time : printableTime (UTC sampleNow).
Proof. constructor; vm_compute; (done || (split; congruence)). Qed.

Lemma sample_acceptable fl : acceptable (sampleWorld fl) sampleNow sampleRecord.
Proof.
  constructor; [vm_compute; reflexivity|..].
  - constructor; try (vm_compute; congruence); [vm_compute; done|exact sample_time|].
    exists (JObj []). split; vm_compute; congruence.
  - constructor; try (vm_compute; congruence); [vm_compute; split; congruence|exact sample_time].
Qed.

Lemma sample_state fl : walState sampleWAL (sampleDisk fl) [].
Proof.
  constructor; [done|vm_compute; reflexivity..|vm_compute; congruence|vm_compute; congruence| |done|done| |done].
  - exists (mkFile [] 0). split; [apply lookup_singleton_eq|apply logs_nil].
  - unfold checkpointAt, sampleDisk. cbn [files]. by rewrite lookup_singleton_ne by (vm_compute; congruence).
Qed.

Definition sampleStored : LocalWALRecord := stored (stamp sampleNow 1 sampleRecord).

Definition sampleAppended (fl : list (option (nat * error))) : go LocalWALRecord * World unit :=
  Append None sampleNow sampleRecord (sampleWorld fl).

Lemma appended_record_is_read_witness :
  (sampleAppended []).1 = Ok (stamp sampleNow 1 sampleRecord) /\
  nextLSN (wal (sampleAppended []).2) = 2 /\
  exists fs3, ReadLocalWAL samplePath (disk (sampleAppended []).2) = (Ok [sampleStored], fs3).
Proof.
  destruct (appended_record_is_read (sampleWorld []) sampleNow sampleRecord [] (stamp sampleNow 1 sampleRecord)
    (sampleAppended []).2 (disk (sampleAppended []).2)) as (_ & H2 & H3).
  - apply sample_state.
  - apply sample_acceptable.
  - vm_compute. reflexivity.
  - unfold healthy. replace (faults (disk (sampleAppended []).2)) with (@nil (option (nat * error))) by (vm_compute; reflexivity).
    constructor.
  - reflexivity.
  - split; [vm_compute; reflexivity|]. split; [exact H2|exact H3].
Defined.


Definition sampleLine : bytes := Eval vm_compute in
  match frameText (stamp sampleNow 1 sampleRecord) with Ok t => t ++ [byte_of 10] | _ => [] end.

Definition sampleFaults : list (option (nat * error)) := [None; Some (0%nat, ErrIO (str "disk"))].






Lemma sample_logs : logs sampleLine [sampleStored].
Proof.
  change sampleLine with ([] ++ removelast sampleLine ++ [byte_of 10]).
  apply (logs_append [] [] (stamp sampleNow 1 sampleRecord) (removelast sampleLine) logs_nil).
  - apply (ac_record _ _ _ (sample_acceptable [])).
  - vm_compute. reflexivity.
  - vm_compute. reflexivity.
Qed.

Definition sampleUnplanned : FS := mkFS {[samplePath := mkFile (sampleLine ++ str "{") 0]} [].

Lemma recovery_plan_splits_log_witness :
  exists plan fs' covered, PlanLocalWALRecoveryWithOptions samplePath sampleOptions sampleUnplanned = (Ok plan, fs') /\
    files fs' = files sampleUnplanned /\ planSplit plan [sampleStored] covered /\ pl_CheckpointLSN plan = 0 /\
    pl_LastLSN plan = lastOf 0 [sampleStored] /\ pl_TornTailBytes plan = zlen (str "{").
Proof.
  apply (recovery_plan_splits_log sampleUnplanned samplePath sampleCheckpointPath sampleOptions sampleLine (str "{")
    [sampleStored] 0).
  - constructor.
  - apply sample_paths.
  - constructor.
    + unfold sampleUnplanned. cbn [files]. by rewrite lookup_singleton_eq.
    + apply sample_logs.
    + repeat constructor. vm_compute. congruence.
    + vm_compute. reflexivity.
    + unfold checkpointAt, sampleUnplanned. cbn [files]. by rewrite lookup_singleton_ne by (vm_compute; congruence).
    + vm_compute. congruence.
Defined.

Lemma commit_boundary_order_witness :
  exists out W', CommitBoundary None sampleNow sampleRecord (Some sampleCommit) (sampleWorld []) = (Ok out, W') /\
    boundary (sampleWorld []) sampleCommit [] (stamp sampleNow 1 sampleRecord) W' out.
Proof.
  apply (commit_boundary_order (sampleWorld []) sampleNow sampleRecord sampleCommit []).
  - apply sample_state.
  - apply sample_acceptable.
  - done.
Defined.

Definition sampleCheckpoint : LocalWALCheckpoint := checkpointFor sampleWAL sampleNow (stamp sampleNow 1 sampleRecord).

Lemma checkpoint_write_is_atomic_witness :
  exists res fs', WriteLocalWALCheckpoint sampleNow sampleCheckpointPath sampleCheckpoint (sampleDisk []) = (res, fs') /\
    (forall q, q <> sampleCheckpointPath -> q <> sampleCheckpointPath ++ str ".tmp" ->
       files fs' !! q = files (sampleDisk []) !! q) /\
    ((exists e, res = Err e) /\ files fs' !! sampleCheckpointPath = files (sampleDisk []) !! sampleCheckpointPath \/
     res = Ok tt /\ durable fs' sampleCheckpointPath /\ exists fs'',
       LoadLocalWALCheckpoint sampleCheckpointPath (mkFS (files fs') [])
       = (Ok (normalizeCheckpoint sampleNow sampleCheckpoint, true), fs'')).
Proof.
  apply (checkpoint_write_is_atomic sampleNow sampleCheckpointPath sampleCheckpoint (sampleDisk [])).
  - apply sample_paths.
  - unfold sampleCheckpoint. rewrite normalize_checkpointFor. apply (ac_checkpoint _ _ _ (sample_acceptable [])).
Defined.

Lemma append_after_failed_sync_breaks_log_witness :
  exists W1 r' W2 e' fs',
    Append None sampleNow sampleRecord (sampleWorld sampleFaults)
    = (Err (Errorf "sync WAL frame: %w" [AErr (ErrIO (str "disk"))]), W1) /\
    Append None sampleNow sampleRecord W1 = (Ok r', W2) /\
    OpenLocalWALWithOptions samplePath sampleOptions (disk W2) = (Err e', fs').
Proof.
  apply (append_after_failed_sync_breaks_log (sampleWorld sampleFaults) sampleNow sampleRecord sampleNow sampleRecord []
    samplePath sampleCheckpointPath sampleOptions 0 (ErrIO (str "disk")) []).
  - apply sample_paths.
  - apply sample_state.
  - reflexivity.
  - reflexivity.
  - apply sample_acceptable.
  - apply sample_acceptable.
  - reflexivity.
  - constructor.
Defined.
