(* ===== verification/Auth.v ===== *)
(** * Authentication

    Authenticators and decisions (qsmysql/auth.go), static accounts and the
    password exchanges (qsmysql/auth_static.go), the account file
    (qsmysql/auth_file.go) and the configuration (qsmysql/auth_config.go). *)

From S2P Require Import Prelude GoStd GoTime Value Wire Handshake Prepared ResultSet Response Hash.

(** ** Requests and decisions *)

Definition cachingSHA2PasswordPluginName : bytes := str "caching_sha2_password".
Definition mysqlNativePasswordPluginName : bytes := str "mysql_native_password".
Definition mysqlClearPasswordPluginName : bytes := str "mysql_clear_password".
Definition sha1VerifierSize : Z := 20.
Definition sha256VerifierSize : Z := 32.

Record AuthRequest : Type := mkAuthRequest {
  rq_ConnectionID : Z;
  rq_Username : bytes;
  rq_Database : bytes;
  rq_AuthPluginName : bytes;
  rq_AuthPluginData : bytes;
  rq_AuthResponse : bytes;
  rq_CapabilityFlags : Z;
  rq_CharacterSet : byte;
  rq_MaxPacketSize : Z;
  rq_HandshakeResponse : HandshakeResponse41 }.

Record AuthDecision : Type := mkAuthDecision {
  ad_Accepted : bool;
  ad_Username : bytes;
  ad_Database : bytes;
  ad_Roles : list bytes;
  ad_AuthPluginName : bytes;
  ad_Failure : ProtocolError }.

Definition noProtocolError : ProtocolError := mkProtocolError [] 0 [].

Definition authRequestFromHandshake (connectionID : Z) (response : HandshakeResponse41)
    (authPluginData : bytes) : AuthRequest :=
  mkAuthRequest connectionID (hr_Username response) (hr_Database response)
    (hr_AuthPluginName response) authPluginData (hr_AuthResponse response)
    (hr_CapabilityFlags response) (hr_CharacterSet response) (hr_MaxPacketSize response) response.

(** ** Password exchanges *)

(** [out[i] = a[i] ^ b[i]] over the length of [a]. *)
Definition xor_bytes (a b : bytes) : bytes :=
  zip_with (fun x y => byte_of (Z.lxor (ub x) (ub y))) a b.

Definition constantTimeBytesEqual (left right : bytes) : bool :=
  if negb (zlen left =? zlen right) then false else bool_decide (left = right).

Definition constantTimeStringEqual (left right : bytes) : bool := constantTimeBytesEqual left right.

Definition mysqlNativePasswordToken (seed password : bytes) : bytes :=
  if decide (password = []) then []
  else
    let stage1 := sha1 password in
    let stage2 := sha1 stage1 in
    let scramble := sha1 (seed ++ stage2) in
    xor_bytes stage1 scramble.

Definition mysqlNativeVerifier (password : bytes) : bytes :=
  if decide (password = []) then [] else hex_encode (sha1 (sha1 password)).

Definition decodeHexVerifier (value : bytes) (size : Z) : option bytes :=
  let value := TrimSpace value in
  if decide (value = []) then None
  else match hex_decode value with
       | Some decoded => if negb (zlen decoded =? size) then None else Some decoded
       | None => None
       end.

Definition mysqlNativeVerifierMatches (verifier seed token : bytes) : bool :=
  match decodeHexVerifier verifier 20 with
  | Some expected =>
    if negb (zlen token =? 20) then false
    else
      let scramble := sha1 (seed ++ expected) in
      let stage1 := xor_bytes token scramble in
      constantTimeBytesEqual (sha1 stage1) expected
  | None => false
  end.

Definition cachingSHA2PasswordToken (seed password : bytes) : bytes :=
  if decide (password = []) then []
  else
    let message1 := sha256 password in
    let message1Hash := sha256 message1 in
    let message2 := sha256 (message1Hash ++ seed) in
    xor_bytes message1 message2.

Definition cachingSHA2Verifier (password : bytes) : bytes :=
  if decide (password = []) then [] else hex_encode (sha256 (sha256 password)).

Definition cachingSHA2VerifierMatches (verifier seed token : bytes) : bool :=
  match decodeHexVerifier verifier 32 with
  | Some expected =>
    if negb (zlen token =? 32) then false
    else
      let message2 := sha256 (expected ++ seed) in
      let message1 := xor_bytes token message2 in
      constantTimeBytesEqual (sha256 message1) expected
  | None => false
  end.

(** [bytes.TrimSuffix(s, []byte{0})] *)
Definition trimNulSuffix (s : bytes) : bytes :=
  match rev s with b :: l => if ub b =? 0 then rev l else s | [] => s end.

(** ** Static accounts *)

Record StaticAccount : Type := mkAccount {
  ac_Username : bytes;
  ac_Password : bytes;
  ac_MySQLNativePasswordVerifier : bytes;
  ac_CachingSHA2PasswordVerifier : bytes;
  ac_DefaultDatabase : bytes;
  ac_Roles : list bytes }.

#[export] Instance StaticAccount_eq_dec : EqDecision StaticAccount.
Proof. solve_decision. Defined.

Definition StaticAccountWithPasswordVerifiers (username password defaultDatabase : bytes)
    : StaticAccount :=
  mkAccount (TrimSpace username) [] (mysqlNativeVerifier password) (cachingSHA2Verifier password)
    (TrimSpace defaultDatabase) [].

Definition staticAuthPluginName (plugin : bytes) : bytes :=
  if decide (plugin = []) then defaultAuthPluginName else plugin.

Definition staticAuthPasswordMatches (account : StaticAccount) (request : AuthRequest) : bool :=
  if bool_decide (ac_Password account = [])
     && bool_decide (ac_MySQLNativePasswordVerifier account = [])
     && bool_decide (ac_CachingSHA2PasswordVerifier account = [])
  then zlen (rq_AuthResponse request) =? 0
  else
    let plugin := staticAuthPluginName (rq_AuthPluginName request) in
    if decide (plugin = cachingSHA2PasswordPluginName) then
      if decide (ac_Password account <> [])
      then constantTimeBytesEqual (rq_AuthResponse request)
             (cachingSHA2PasswordToken (rq_AuthPluginData request) (ac_Password account))
      else cachingSHA2VerifierMatches (ac_CachingSHA2PasswordVerifier account)
             (rq_AuthPluginData request) (rq_AuthResponse request)
    else if decide (plugin = mysqlNativePasswordPluginName) then
      if decide (ac_Password account <> [])
      then constantTimeBytesEqual (rq_AuthResponse request)
             (mysqlNativePasswordToken (rq_AuthPluginData request) (ac_Password account))
      else mysqlNativeVerifierMatches (ac_MySQLNativePasswordVerifier account)
             (rq_AuthPluginData request) (rq_AuthResponse request)
    else if decide (plugin = mysqlClearPasswordPluginName) then
      bool_decide (ac_Password account <> [])
      && constantTimeStringEqual (trimNulSuffix (rq_AuthResponse request)) (ac_Password account)
    else false.

(** The first account with the name. *)
Fixpoint findAccount (accounts : list StaticAccount) (username : bytes) : option StaticAccount :=
  match accounts with
  | [] => None
  | account :: accounts =>
    if decide (ac_Username account = username) then Some account else findAccount accounts username
  end.

Section Authenticators.

Context `{TextLib}.

Definition isMySQLAuthPluginName (value : bytes) : bool :=
  let v := ToLower (TrimSpace value) in
  bool_decide (v = cachingSHA2PasswordPluginName)
  || bool_decide (v = mysqlNativePasswordPluginName)
  || bool_decide (v = mysqlClearPasswordPluginName).

Definition authDefaultDatabase (request : AuthRequest) (defaultDatabase : bytes) : bytes :=
  let database := TrimSpace (rq_Database request) in
  let defaultDatabase := TrimSpace defaultDatabase in
  if decide (defaultDatabase = []) then database
  else if decide (database = []) then defaultDatabase
  else if EqualFold database (TrimSpace (rq_AuthPluginName request))
          || isMySQLAuthPluginName database
  then defaultDatabase
  else database.

Definition accessDenied (request : AuthRequest) (message : bytes) : AuthDecision :=
  mkAuthDecision false (rq_Username request) (rq_Database request) [] []
    (mkProtocolError SQLStateGeneralError 1045 message).

Definition accessDeniedMessage (username : bytes) : bytes :=
  str "access denied for user " ++ Quote username.

Definition staticAuthDenied (request : AuthRequest) (message : bytes) : AuthDecision :=
  accessDenied request message.

(** The authenticators of the package; [ctx] is [ctx.Err()]. *)
Inductive Authenticator : Type :=
  | PermissiveAuthenticator (DefaultDatabase : bytes)
  | RejectingAuthenticator (Message : bytes)
  | StaticAuthenticator (Accounts : list StaticAccount).

Definition Authenticate (a : Authenticator) (ctx : option error) (request : AuthRequest)
    : go AuthDecision :=
  match ctx with
  | Some e => Err e
  | None =>
    match a with
    | PermissiveAuthenticator defaultDatabase =>
      mret (mkAuthDecision true (rq_Username request) (authDefaultDatabase request defaultDatabase)
              [] (rq_AuthPluginName request) noProtocolError)
    | RejectingAuthenticator message =>
      mret (accessDenied request
              (if decide (message = []) then accessDeniedMessage (rq_Username request) else message))
    | StaticAuthenticator accounts =>
      match findAccount accounts (rq_Username request) with
      | None => mret (staticAuthDenied request (accessDeniedMessage (rq_Username request)))
      | Some account =>
        if negb (staticAuthPasswordMatches account request)
        then mret (staticAuthDenied request (accessDeniedMessage (rq_Username request)))
        else mret (mkAuthDecision true (rq_Username request)
                     (authDefaultDatabase request (ac_DefaultDatabase account))
                     (ac_Roles account) (staticAuthPluginName (rq_AuthPluginName request))
                     noProtocolError)
      end
    end
  end.

(** ** Validation of account lists *)

Fixpoint normalizeRoles (seen : gset bytes) (roles : list bytes) : go (list bytes) :=
  match roles with
  | [] => mret []
  | role :: roles =>
    let role := TrimSpace role in
    if decide (role = []) then Err (Errorf "role is empty" [])
    else if decide (role ∈ seen) then Err (Errorf "role %q is duplicated" [AStr (Quote role)])
    else rest ← normalizeRoles ({[role]} ∪ seen) roles; mret (role :: rest)
  end.

Definition normalizeStaticAccountRoles (roles : list bytes) : go (list bytes) :=
  normalizeRoles ∅ roles.

Definition invalidVerifier (v : bytes) (size : Z) : bool :=
  bool_decide (v <> []) && match decodeHexVerifier v size with Some _ => false | None => true end.

Fixpoint validateAccounts (seen : gset bytes) (i : Z) (accounts : list StaticAccount)
    : go (list StaticAccount) :=
  match accounts with
  | [] => mret []
  | account :: accounts =>
    let username := TrimSpace (ac_Username account) in
    let native := TrimSpace (ac_MySQLNativePasswordVerifier account) in
    let sha2 := TrimSpace (ac_CachingSHA2PasswordVerifier account) in
    match normalizeStaticAccountRoles (ac_Roles account) with
    | Err e => Err (Errorf "mysql static auth account %q: %w" [AStr (Quote username); AErr e])
    | Panic => Panic
    | Ok roles =>
      if decide (username = [])
      then Err (Errorf "mysql static auth account %d has empty username" [AInt (i + 1)])
      else if decide (username ∈ seen)
      then Err (Errorf "mysql static auth account %q is duplicated" [AStr (Quote username)])
      else if invalidVerifier native sha1VerifierSize
      then Err (Errorf "mysql static auth account %q has invalid mysql_native_password_verifier"
                  [AStr (Quote username)])
      else if invalidVerifier sha2 sha256VerifierSize
      then Err (Errorf "mysql static auth account %q has invalid caching_sha2_password_verifier"
                  [AStr (Quote username)])
      else
        rest ← validateAccounts ({[username]} ∪ seen) (i + 1) accounts;
        mret (mkAccount username (ac_Password account) native sha2
                (TrimSpace (ac_DefaultDatabase account)) roles :: rest)
    end
  end.

Definition validateStaticAccounts (accounts : list StaticAccount) : go (list StaticAccount) :=
  if zlen accounts =? 0
  then Err (Errorf "mysql static auth account file has no accounts" [])
  else validateAccounts ∅ 0 accounts.

End Authenticators.

(** ** Lemmas: exclusive or *)

Lemma log2_ub b : Z.log2 (ub b) < 8.
Proof.
  pose proof (ub_range b). destruct (Z.eq_dec (ub b) 0) as [->|]; [done|].
  apply Z.log2_lt_pow2; lia.
Qed.

Lemma xor_byte_cancel x y :
  byte_of (Z.lxor (ub (byte_of (Z.lxor (ub x) (ub y)))) (ub y)) = x.
Proof.
  pose proof (ub_range x). pose proof (ub_range y).
  assert (R : 0 <= Z.lxor (ub x) (ub y) < 2 ^ 8).
  { split; [apply Z.lxor_nonneg; lia|]. destruct (Z.eq_dec (Z.lxor (ub x) (ub y)) 0) as [->|N]; [lia|].
    apply Z.log2_lt_pow2; [pose proof (Z.lxor_nonneg (ub x) (ub y)); lia|].
    eapply Z.le_lt_trans; [apply Z.log2_lxor; lia|].
    apply Z.max_lub_lt; apply log2_ub. }
  rewrite ub_byte_of, (Z.mod_small (Z.lxor _ _)) by lia.
  by rewrite Z.lxor_assoc, Z.lxor_nilpotent, Z.lxor_0_r, byte_of_ub.
Qed.

Lemma xor_bytes_cancel a : forall b, length a = length b -> xor_bytes (xor_bytes a b) b = a.
Proof.
  induction a as [|x a IH]; intros [|y b] H; try done. cbn. rewrite xor_byte_cancel.
  f_equal. apply IH. by injection H.
Qed.

Lemma xor_bytes_length a b : length a = length b -> length (xor_bytes a b) = length a.
Proof. intros H. unfold xor_bytes. rewrite length_zip_with. lia. Qed.

Lemma zlen_length {A B} (a : list A) (b : list B) : zlen a = zlen b -> length a = length b.
Proof. unfold zlen. lia. Qed.

Lemma constantTimeBytesEqual_eq a b : constantTimeBytesEqual a b = true <-> a = b.
Proof.
  unfold constantTimeBytesEqual. destruct (Z.eqb_spec (zlen a) (zlen b)) as [E|E]; cbn [negb].
  - by rewrite bool_decide_eq_true.
  - split; [done|]. by intros ->.
Qed.

(** ** Lemmas: verifiers *)

(** No space encoding starts with the byte [d]. *)
Definition starts_none (ps : list bytes) (d : byte) : bool :=
  forallb (fun p => match p with b :: _ => negb (bool_decide (b = d)) | [] => false end) ps.

Lemma starts_none_strip ps d l : starts_none ps d = true -> strip_any ps (d :: l) = None.
Proof.
  induction ps as [|[|b p] ps IH]; cbn; [done|done|]. intros [Hb Hps]%andb_true_iff.
  apply negb_true_iff, bool_decide_eq_false in Hb. by rewrite decide_False, IH.
Qed.

Lemma hex_digit_not_space z : 0 <= z < 16 -> starts_none space_encodings (hex_digit z) = true /\
  starts_none (map (@rev byte) space_encodings) (hex_digit z) = true.
Proof.
  intros H. assert (z = 0 \/ z = 1 \/ z = 2 \/ z = 3 \/ z = 4 \/ z = 5 \/ z = 6 \/ z = 7 \/ z = 8
    \/ z = 9 \/ z = 10 \/ z = 11 \/ z = 12 \/ z = 13 \/ z = 14 \/ z = 15) as C by lia.
  repeat destruct C as [->|C]; [by vm_compute..|subst; by vm_compute].
Qed.

Lemma nibbles b : 0 <= ub b / 16 < 16 /\ 0 <= ub b mod 16 < 16.
Proof.
  pose proof (ub_range b). split; [split; [apply Z.div_pos; lia|apply Z.div_lt_upper_bound; lia]|].
  apply Z.mod_pos_bound. lia.
Qed.

Lemma TrimSpace_hex l : TrimSpace (hex_encode l) = hex_encode l.
Proof.
  destruct l as [|b0 l]; [by vm_compute|]. apply TrimSpace_id.
  - unfold hex_encode. cbn [flat_map app]. apply starts_none_strip, hex_digit_not_space, nibbles.
  - destruct (@exists_last _ (b0 :: l)) as (l' & b & ->); [done|].
    unfold hex_encode. rewrite flat_map_app, rev_app_distr. cbn [flat_map app rev].
    apply starts_none_strip, hex_digit_not_space, nibbles.
Qed.

Lemma decodeHexVerifier_encode l size : zlen l = size -> 0 < size ->
  decodeHexVerifier (hex_encode l) size = Some l.
Proof.
  intros Hl Hs. unfold decodeHexVerifier. rewrite TrimSpace_hex, hex_decode_encode.
  rewrite decide_False.
  - by rewrite (proj2 (Z.eqb_eq _ _) Hl).
  - intros E. pose proof (zlen_hex_encode l) as Z2. rewrite E in Z2.
    change (zlen (@nil byte)) with 0 in Z2. lia.
Qed.

Lemma decodeHexVerifier_ok v size e : decodeHexVerifier v size = Some e -> zlen e = size.
Proof.
  unfold decodeHexVerifier. case_decide; [done|]. destruct (hex_decode _); [|done].
  case_if; [done|]. intros [= <-]. done.
Qed.

(** ** Lemmas: the password exchanges *)

Lemma nativeVerifier_token seed password : password <> [] ->
  mysqlNativeVerifierMatches (mysqlNativeVerifier password) seed
    (mysqlNativePasswordToken seed password) = true.
Proof.
  intros Hp. unfold mysqlNativeVerifierMatches, mysqlNativeVerifier, mysqlNativePasswordToken.
  rewrite !decide_False by done. rewrite decodeHexVerifier_encode by (try apply zlen_sha1; lia).
  set (s1 := sha1 password). set (sc := sha1 (seed ++ sha1 s1)).
  assert (Hlen : length s1 = length sc) by (apply zlen_length; unfold s1, sc; by rewrite !zlen_sha1).
  assert (zlen (xor_bytes s1 sc) = 20) as ->.
  { unfold zlen. rewrite xor_bytes_length by done. apply zlen_sha1. }
  cbn [negb]. rewrite xor_bytes_cancel by done. by apply constantTimeBytesEqual_eq.
Qed.

Lemma sha2Verifier_token seed password : password <> [] ->
  cachingSHA2VerifierMatches (cachingSHA2Verifier password) seed
    (cachingSHA2PasswordToken seed password) = true.
Proof.
  intros Hp. unfold cachingSHA2VerifierMatches, cachingSHA2Verifier, cachingSHA2PasswordToken.
  rewrite !decide_False by done. rewrite decodeHexVerifier_encode by (try apply zlen_sha256; lia).
  set (m1 := sha256 password). set (m2 := sha256 (sha256 m1 ++ seed)).
  assert (Hlen : length m1 = length m2) by (apply zlen_length; unfold m1, m2; by rewrite !zlen_sha256).
  assert (zlen (xor_bytes m1 m2) = 32) as ->.
  { unfold zlen. rewrite xor_bytes_length by done. apply zlen_sha256. }
  cbn [negb]. rewrite xor_bytes_cancel by done. by apply constantTimeBytesEqual_eq.
Qed.

(** ** The account of a user: the first with the name *)

Definition first_named (accounts : list StaticAccount) (username : bytes) (account : StaticAccount)
    : Prop :=
  exists before after, accounts = before ++ account :: after /\ ac_Username account = username /\
    Forall (fun a => ac_Username a <> username) before.

Lemma findAccount_iff accounts username account :
  findAccount accounts username = Some account <-> first_named accounts username account.
Proof.
  unfold first_named. induction accounts as [|a accounts IH]; cbn [findAccount].
  { split; [done|]. by intros ([|] & ? & ? & _). }
  case_decide as E.
  - split.
    + intros [= <-]. exists [], accounts. by split_and!.
    + intros ([|b before] & after & [= -> Ha] & Hn & Hb); [done|]. by apply Forall_cons in Hb as [].
  - rewrite IH. split.
    + intros (before & after & -> & Hn & Hb). exists (a :: before), after. by split_and!; [| |constructor].
    + intros ([|b before] & after & [= -> Ha] & Hn & Hb); [done|]. exists before, after.
      apply Forall_cons in Hb as [_ Hb]. by split_and!.
Qed.

(** ** What a client must show

    [proves_credential account request]: the response is one that a client
    knowing a secret of the account computes for the server's challenge. *)

Definition no_credentials (account : StaticAccount) : Prop :=
  ac_Password account = [] /\ ac_MySQLNativePasswordVerifier account = [] /\
  ac_CachingSHA2PasswordVerifier account = [].

Inductive proves_credential (account : StaticAccount) (request : AuthRequest) : Prop :=
  | pc_open : no_credentials account -> rq_AuthResponse request = [] ->
      proves_credential account request
  | pc_sha2_password :
      staticAuthPluginName (rq_AuthPluginName request) = cachingSHA2PasswordPluginName ->
      ac_Password account <> [] ->
      rq_AuthResponse request
        = cachingSHA2PasswordToken (rq_AuthPluginData request) (ac_Password account) ->
      proves_credential account request
  | pc_sha2_verifier m1 :
      staticAuthPluginName (rq_AuthPluginName request) = cachingSHA2PasswordPluginName ->
      ac_Password account = [] -> zlen m1 = 32 ->
      decodeHexVerifier (ac_CachingSHA2PasswordVerifier account) 32 = Some (sha256 m1) ->
      rq_AuthResponse request = xor_bytes m1 (sha256 (sha256 m1 ++ rq_AuthPluginData request)) ->
      proves_credential account request
  | pc_native_password :
      staticAuthPluginName (rq_AuthPluginName request) = mysqlNativePasswordPluginName ->
      ac_Password account <> [] ->
      rq_AuthResponse request
        = mysqlNativePasswordToken (rq_AuthPluginData request) (ac_Password account) ->
      proves_credential account request
  | pc_native_verifier stage1 :
      staticAuthPluginName (rq_AuthPluginName request) = mysqlNativePasswordPluginName ->
      ac_Password account = [] -> zlen stage1 = 20 ->
      decodeHexVerifier (ac_MySQLNativePasswordVerifier account) 20 = Some (sha1 stage1) ->
      rq_AuthResponse request = xor_bytes stage1 (sha1 (rq_AuthPluginData request ++ sha1 stage1)) ->
      proves_credential account request
  | pc_clear :
      staticAuthPluginName (rq_AuthPluginName request) = mysqlClearPasswordPluginName ->
      ac_Password account <> [] -> trimNulSuffix (rq_AuthResponse request) = ac_Password account ->
      proves_credential account request.

Lemma nativeVerifier_iff verifier seed token : mysqlNativeVerifierMatches verifier seed token = true <->
  exists stage1, zlen stage1 = 20 /\ decodeHexVerifier verifier 20 = Some (sha1 stage1) /\
    token = xor_bytes stage1 (sha1 (seed ++ sha1 stage1)).
Proof.
  split.
  - unfold mysqlNativeVerifierMatches. destruct (decodeHexVerifier verifier 20) as [e|]; [|done].
    case_if; [done|]. intros H%constantTimeBytesEqual_eq.
    assert (Hl : length token = length (sha1 (seed ++ e))) by (apply zlen_length; by rewrite zlen_sha1).
    exists (xor_bytes token (sha1 (seed ++ e))). rewrite H. split; [|split; [done|]].
    + unfold zlen. by rewrite xor_bytes_length.
    + by rewrite xor_bytes_cancel.
  - intros (stage1 & Hl & Hd & ->). unfold mysqlNativeVerifierMatches. rewrite Hd.
    assert (Hlen : length stage1 = length (sha1 (seed ++ sha1 stage1)))
      by (apply zlen_length; by rewrite zlen_sha1).
    assert (zlen (xor_bytes stage1 (sha1 (seed ++ sha1 stage1))) = 20) as ->
      by (unfold zlen; rewrite xor_bytes_length by done; exact Hl).
    cbn [negb]. rewrite xor_bytes_cancel by done. by apply constantTimeBytesEqual_eq.
Qed.

Lemma sha2Verifier_iff verifier seed token : cachingSHA2VerifierMatches verifier seed token = true <->
  exists m1, zlen m1 = 32 /\ decodeHexVerifier verifier 32 = Some (sha256 m1) /\
    token = xor_bytes m1 (sha256 (sha256 m1 ++ seed)).
Proof.
  split.
  - unfold cachingSHA2VerifierMatches. destruct (decodeHexVerifier verifier 32) as [e|]; [|done].
    case_if; [done|]. intros H%constantTimeBytesEqual_eq.
    assert (Hl : length token = length (sha256 (e ++ seed))) by (apply zlen_length; by rewrite zlen_sha256).
    exists (xor_bytes token (sha256 (e ++ seed))). rewrite H. split; [|split; [done|]].
    + unfold zlen. by rewrite xor_bytes_length.
    + by rewrite xor_bytes_cancel.
  - intros (m1 & Hl & Hd & ->). unfold cachingSHA2VerifierMatches. rewrite Hd.
    assert (Hlen : length m1 = length (sha256 (sha256 m1 ++ seed)))
      by (apply zlen_length; by rewrite zlen_sha256).
    assert (zlen (xor_bytes m1 (sha256 (sha256 m1 ++ seed))) = 32) as ->
      by (unfold zlen; rewrite xor_bytes_length by done; exact Hl).
    cbn [negb]. rewrite xor_bytes_cancel by done. by apply constantTimeBytesEqual_eq.
Qed.

(** The plugin names are distinct. *)
Lemma plugins_distinct :
  cachingSHA2PasswordPluginName <> mysqlNativePasswordPluginName /\
  cachingSHA2PasswordPluginName <> mysqlClearPasswordPluginName /\
  mysqlNativePasswordPluginName <> mysqlClearPasswordPluginName.
Proof. repeat split; by vm_compute. Qed.

Lemma staticAuthPasswordMatches_iff account request :
  staticAuthPasswordMatches account request = true <-> proves_credential account request.
Proof.
  unfold staticAuthPasswordMatches. destruct plugins_distinct as (D1 & D2 & D3).
  case_bool_decide as Hp; cbn [andb]; [case_bool_decide as Hn; cbn [andb];
    [case_bool_decide as Hc|]|].
  1:{ rewrite Z.eqb_eq. split.
      - intros E. apply zlen_zero in E. by apply pc_open.
      - intros [_ ->|_ ?|m1 _ _ _ Hd _|_ ?|s1 _ _ _ Hd _|_ ?]; try done.
        + by rewrite Hc in Hd.
        + by rewrite Hn in Hd. }
  all: assert (Hcred : ~ no_credentials account) by (intros (? & ? & ?); done).
  all: case_decide as E1; [|case_decide as E2; [|case_decide as E3]].
  all: try (case_decide as Hpw; try done).
  all: rewrite ?constantTimeBytesEqual_eq, ?sha2Verifier_iff, ?nativeVerifier_iff, ?andb_true_iff,
    ?bool_decide_eq_true.
  all: unfold constantTimeStringEqual; rewrite ?constantTimeBytesEqual_eq.
  all: split; [|intros [? ?|? ? ?|m1 ? ? ? ? ?|? ? ?|s1 ? ? ? ? ?|? ? ?]; try done; try congruence].
  all: try (intros (x & ? & ? & ?); first [by eapply pc_sha2_verifier|by eapply pc_native_verifier]).
  all: try (by eauto 6).
  all: try (intros [? ?]; by apply pc_clear).
  all: intros ?; first [by apply pc_sha2_password|by apply pc_native_password].
Qed.

(** An account with a credential never accepts an empty response. *)
Lemma proves_credential_nonempty account request : ~ no_credentials account ->
  proves_credential account request -> rq_AuthResponse request <> [].
Proof.
  intros Hc [? ?|_ Hp E|m1 _ _ Hl _ E|_ Hp E|s1 _ _ Hl _ E|_ Hp E] Hr; [done|..]; try rewrite E in Hr.
  - unfold cachingSHA2PasswordToken in Hr. rewrite decide_False in Hr by done.
    apply (f_equal length) in Hr. rewrite xor_bytes_length in Hr;
      [|apply zlen_length; by rewrite !zlen_sha256].
    pose proof (zlen_sha256 (ac_Password account)) as L. unfold zlen in L. simpl in Hr. lia.
  - apply (f_equal length) in Hr. rewrite xor_bytes_length in Hr;
      [|apply zlen_length; by rewrite zlen_sha256]. unfold zlen in Hl. simpl in Hr. lia.
  - unfold mysqlNativePasswordToken in Hr. rewrite decide_False in Hr by done.
    apply (f_equal length) in Hr. rewrite xor_bytes_length in Hr;
      [|apply zlen_length; by rewrite !zlen_sha1].
    pose proof (zlen_sha1 (ac_Password account)) as L. unfold zlen in L. simpl in Hr. lia.
  - apply (f_equal length) in Hr. rewrite xor_bytes_length in Hr;
      [|apply zlen_length; by rewrite zlen_sha1]. unfold zlen in Hl. simpl in Hr. lia.
  - rewrite Hr in E. by symmetry in E.
Qed.

Section Decisions.

Context `{TextLib}.

Lemma Authenticate_static accounts request d :
  Authenticate (StaticAuthenticator accounts) None request = Ok d ->
  (ad_Accepted d = true /\ exists account, findAccount accounts (rq_Username request) = Some account /\
     proves_credential account request /\ ad_Username d = rq_Username request /\
     ad_Roles d = ac_Roles account /\
     ad_Database d = authDefaultDatabase request (ac_DefaultDatabase account)) \/
  (ad_Accepted d = false /\ ad_Roles d = [] /\ pe_VendorCode (ad_Failure d) = 1045 /\
     forall account, findAccount accounts (rq_Username request) = Some account ->
       ~ proves_credential account request).
Proof.
  unfold Authenticate. destruct (findAccount accounts (rq_Username request)) as [acc|].
  - destruct (staticAuthPasswordMatches acc request) eqn:E; cbn [negb]; intros [= <-].
    + left. apply staticAuthPasswordMatches_iff in E. split; [done|]. by exists acc.
    + right. repeat split; try done. intros account [= <-] Hp.
      apply staticAuthPasswordMatches_iff in Hp. congruence.
  - intros [= <-]. by right.
Qed.

Lemma Authenticate_static_total accounts request :
  exists d, Authenticate (StaticAuthenticator accounts) None request = Ok d.
Proof.
  unfold Authenticate. destruct (findAccount accounts (rq_Username request)) as [acc|]; [|eauto].
  destruct (staticAuthPasswordMatches acc request); eauto.
Qed.

End Decisions.

(** The response a client computes from the password for the plugin it uses. *)
Definition clientToken (plugin seed password : bytes) : bytes :=
  if decide (plugin = mysqlNativePasswordPluginName) then mysqlNativePasswordToken seed password
  else if decide (plugin = mysqlClearPasswordPluginName) then password ++ [byte_of 0]
  else cachingSHA2PasswordToken seed password.

(** The two ways an account stores a password. *)
Definition stores_password (account : StaticAccount) (password : bytes) : Prop :=
  ac_Password account = password \/
  ac_Password account = [] /\ ac_MySQLNativePasswordVerifier account = mysqlNativeVerifier password /\
  ac_CachingSHA2PasswordVerifier account = cachingSHA2Verifier password.

Lemma password_accepted account password request : password <> [] ->
  stores_password account password ->
  let plugin := staticAuthPluginName (rq_AuthPluginName request) in
  plugin = cachingSHA2PasswordPluginName \/ plugin = mysqlNativePasswordPluginName ->
  rq_AuthResponse request = clientToken plugin (rq_AuthPluginData request) password ->
  staticAuthPasswordMatches account request = true.
Proof.
  intros Hp Hs plugin Hpl Hr. destruct plugins_distinct as (D1 & D2 & D3).
  unfold clientToken in Hr. apply staticAuthPasswordMatches_iff.
  destruct Hpl as [E|E]; rewrite E in Hr.
  - rewrite !decide_False in Hr by done. destruct Hs as [<-|(Hpw & _ & Hv)].
    + by apply pc_sha2_password.
    + pose proof (sha2Verifier_token (rq_AuthPluginData request) password Hp) as M.
      rewrite <- Hv, <- Hr in M. apply sha2Verifier_iff in M as (m1 & ? & ? & ?).
      by eapply pc_sha2_verifier.
  - rewrite decide_True in Hr by done. destruct Hs as [<-|(Hpw & Hv & _)].
    + by apply pc_native_password.
    + pose proof (nativeVerifier_token (rq_AuthPluginData request) password Hp) as M.
      rewrite <- Hv, <- Hr in M. apply nativeVerifier_iff in M as (s1 & ? & ? & ?).
      by eapply pc_native_verifier.
Qed.

(** ** The properties of the component *)

(** C24. Static authentication decides exactly by knowledge of a credential.  It
    always returns a decision; it accepts if and only if the first account with
    the requested name exists and the response is the one the client's plugin
    computes, for this challenge, from the password of the account or from a
    preimage of its stored verifier (an account without any credential takes
    only the empty response); the accepted session gets the account's roles and
    the database the request names, the account's default when it names none; a
    refused one gets no roles and error 1045. *)
Theorem static_authentication_exact `{TextLib} accounts request :
  exists d, Authenticate (StaticAuthenticator accounts) None request = Ok d /\
  ((ad_Accepted d = true /\ exists account, first_named accounts (rq_Username request) account /\
     proves_credential account request /\ ad_Username d = rq_Username request /\
     ad_Roles d = ac_Roles account /\
     ad_Database d = authDefaultDatabase request (ac_DefaultDatabase account)) \/
   (ad_Accepted d = false /\ ad_Roles d = [] /\ pe_VendorCode (ad_Failure d) = 1045 /\
     forall account, first_named accounts (rq_Username request) account ->
       ~ proves_credential account request)).
Proof.
  destruct (Authenticate_static_total accounts request) as [d E]. exists d. split; [done|].
  destruct (Authenticate_static accounts request d E) as [(Ha & account & Hf & ?)|(Ha & ? & ? & Hn)];
    [left; split; [done|]; exists account; by rewrite <- findAccount_iff|right].
  split_and!; try done. intros account. rewrite <- findAccount_iff. apply Hn.
Qed.

(** A client that knows the password is let in: for each challenge the token
    it computes is accepted, by mysql_native_password and by
    caching_sha2_password, whether the account stores the password or only the
    two verifiers [StaticAccountWithPasswordVerifiers] derives from it. *)
Theorem password_login_accepted account password request : password <> [] ->
  stores_password account password ->
  let plugin := staticAuthPluginName (rq_AuthPluginName request) in
  plugin = cachingSHA2PasswordPluginName \/ plugin = mysqlNativePasswordPluginName ->
  rq_AuthResponse request = clientToken plugin (rq_AuthPluginData request) password ->
  staticAuthPasswordMatches account request = true.
Proof. apply password_accepted. Qed.

Lemma password_login_accepted_witness :
  let account := StaticAccountWithPasswordVerifiers (str "root") (str "secret") [] in
  let seed := str "12345678901234567890" in
  staticAuthPasswordMatches account
    (mkAuthRequest 1 (str "root") [] [] seed
       (clientToken (staticAuthPluginName []) seed (str "secret")) 0
       (byte_of 45) 0 (mkResponse41 0 0 (byte_of 45) [] [] [] [])) = true.
Proof.
  intros account seed. apply (password_login_accepted account (str "secret")).
  - discriminate.
  - right. split; [|split]; reflexivity.
  - left. reflexivity.
  - reflexivity.
Defined.

(** An account that has a password or a verifier cannot be entered with an
    empty response, whatever plugin the client names. *)
Theorem empty_response_refused account request : ~ no_credentials account ->
  rq_AuthResponse request = [] -> staticAuthPasswordMatches account request = false.
Proof.
  intros Hc Hr. destruct (staticAuthPasswordMatches account request) eqn:E; [|done].
  apply staticAuthPasswordMatches_iff in E. by apply proves_credential_nonempty in E.
Qed.

Lemma empty_response_refused_witness :
  staticAuthPasswordMatches (mkAccount (str "root") (str "secret") [] [] [] [])
    (mkAuthRequest 1 (str "root") [] (str "mysql_clear_password") [] [] 0 (byte_of 45) 0
       (mkResponse41 0 0 (byte_of 45) [] [] [] [])) = false.
Proof. apply empty_response_refused; [by intros [? _]|done]. Defined.
