(* ===== verification/Session.v ===== *)
(** * MySQL sessions

    The connection state machine (qsmysql/connection.go), one command of the
    command loop with its trace (qsmysql/packetio.go, qsmysql/command_trace.go)
    and the session runner (qsmysql/session.go): greeting, authentication and
    commands over a packet stream, with the handler and the authenticator as
    interfaces. *)

From S2P Require Import Prelude GoState GoStd GoTime Value Wire Command Handshake Prepared ResultSet Response Hash Auth.

(** ** Connections *)

Inductive ConnectionState : Type :=
  | ConnectionStateNew
  | ConnectionStateHandshakeSent
  | ConnectionStateAuthPending
  | ConnectionStateReady
  | ConnectionStateClosing.

#[export] Instance ConnectionState_eq_dec : EqDecision ConnectionState.
Proof. solve_decision. Defined.

Definition ConnectionState_string (s : ConnectionState) : bytes :=
  match s with
  | ConnectionStateNew => str "new"
  | ConnectionStateHandshakeSent => str "handshake_sent"
  | ConnectionStateAuthPending => str "auth_pending"
  | ConnectionStateReady => str "ready"
  | ConnectionStateClosing => str "closing"
  end.

Record Connection : Type := mkConnection {
  cn_ID : Z;
  cn_State : ConnectionState;
  cn_Username : bytes;
  cn_Database : bytes;
  cn_Roles : list bytes;
  cn_AuthPluginName : bytes;
  cn_CapabilityFlags : Z }.

Definition NewConnection (id : Z) : Connection := mkConnection id ConnectionStateNew [] [] [] [] 0.

Definition set_state (c : Connection) (s : ConnectionState) : Connection :=
  mkConnection (cn_ID c) s (cn_Username c) (cn_Database c) (cn_Roles c) (cn_AuthPluginName c)
    (cn_CapabilityFlags c).

Definition stateError (what : string) (c : Connection) : error :=
  Errorf what [AStr (ConnectionState_string (cn_State c))].

Definition WithHandshakeSent (c : Connection) : go Connection :=
  if decide (cn_State c <> ConnectionStateNew)
  then Err (stateError "cannot send handshake from state %s" c)
  else mret (set_state c ConnectionStateHandshakeSent).

Definition WithAuthPending (c : Connection) : go Connection :=
  if decide (cn_State c <> ConnectionStateHandshakeSent)
  then Err (stateError "cannot mark auth pending from state %s" c)
  else mret (set_state c ConnectionStateAuthPending).

Definition WithReady (c : Connection) : go Connection :=
  match cn_State c with
  | ConnectionStateHandshakeSent | ConnectionStateAuthPending =>
    mret (set_state c ConnectionStateReady)
  | _ => Err (stateError "cannot mark ready from state %s" c)
  end.

Definition AcceptHandshakeResponse (c : Connection) (response : HandshakeResponse41)
    : go Connection :=
  if decide (cn_State c <> ConnectionStateHandshakeSent)
  then Err (stateError "cannot accept handshake response from state %s" c)
  else mret (mkConnection (cn_ID c) ConnectionStateAuthPending (hr_Username response)
               (hr_Database response) (cn_Roles c) (hr_AuthPluginName response)
               (hr_CapabilityFlags response)).

Definition AcceptPermissiveAuth (c : Connection) : go (Connection * CommandResponse) :=
  if decide (cn_State c <> ConnectionStateAuthPending)
  then Err (stateError "cannot accept auth from state %s" c)
  else mret (set_state c ConnectionStateReady,
             AuthSuccessResponse (cn_AuthPluginName c) (cn_CapabilityFlags c)).

Definition WithClosing (c : Connection) : Connection := set_state c ConnectionStateClosing.

Definition CanAcceptCommand (c : Connection) : bool :=
  bool_decide (cn_State c = ConnectionStateReady).

(** ** Command traces; elapsed times are not modelled *)

Record CommandTraceEvent : Type := mkTraceEvent {
  ev_ConnectionID : Z;
  ev_Username : bytes;
  ev_Database : bytes;
  ev_Kind : CommandKind;
  ev_SQL : bytes;
  ev_Table : bytes;
  ev_FieldPattern : bytes;
  ev_StatementID : Z;
  ev_ParameterID : Z;
  ev_LongDataBytes : Z;
  ev_ResponseKind : CommandResponseKind;
  ev_Error : bytes }.

Definition TraceEvent (c : Command) : CommandTraceEvent :=
  let long := bool_decide (c_Kind c = CommandKindStmtSendLongData) in
  mkTraceEvent (c_ConnectionID c) (c_Username c) (c_Database c) (c_Kind c) (c_SQL c) (c_Table c)
    (c_FieldPattern c) (c_StatementID c)
    (if long then ParameterIndex (c_LongData c) else 0)
    (if long then zlen (ld_Data (c_LongData c)) else 0)
    CommandResponseNone [].

Definition with_outcome (e : CommandTraceEvent) (kind : CommandResponseKind) (err : bytes)
    : CommandTraceEvent :=
  mkTraceEvent (ev_ConnectionID e) (ev_Username e) (ev_Database e) (ev_Kind e) (ev_SQL e)
    (ev_Table e) (ev_FieldPattern e) (ev_StatementID e) (ev_ParameterID e) (ev_LongDataBytes e)
    kind err.

(** The messages of the errors that occurred, joined by ["; "]. *)
Fixpoint joinMessages (messages : list bytes) : bytes :=
  match messages with
  | [] => []
  | [m] => m
  | m :: ms => m ++ str "; " ++ joinMessages ms
  end.

Definition commandTraceError (errs : list (option error)) : bytes :=
  joinMessages (omap (fun e => option_map Error e) errs).

Definition commandTraceResponseError (response : CommandResponse) (handlerErr writeErr : option error)
    : bytes :=
  match handlerErr, writeErr with
  | None, None =>
    match r_ProtocolError response with Some e => pe_Message e | None => [] end
  | _, _ => commandTraceError [handlerErr; writeErr]
  end.

(** ** The runner *)

Section Runner.

Context `{TextLib}.

(** The command handler with its own state: it answers, returns an error, which
    replaces the response, or panics, which nothing in a session recovers.  The
    authenticator of the configuration, [None] for nil. *)
Context {HS : Type}.
Variable HandleCommand : HS -> Command -> go CommandResponse * HS.

(** What a session works on: its connection, the stream, the results of the
    coming calls of [ctx.Err()] ([nil] after the list ends), the handler, the
    commands handed to it so far, and the trace. *)
Record Session : Type := mkSession {
  s_Connection : Connection;
  s_Stream : Stream;
  s_ctx : list (option error);
  s_handler : HS;
  s_calls : list Command;
  s_log : list CommandTraceEvent }.

(** The unchanging part of a runner; the first two flags say that its stream and
    its handler are not nil. *)
Record RunnerConfig : Type := mkRunnerConfig {
  rn_hasStream : bool;
  rn_hasHandler : bool;
  rn_Handshake : HandshakeV10;
  rn_Authenticator : option (option error -> AuthRequest -> go AuthDecision);
  rn_CommandLogger : bool }.

(** Computations on a session. *)
Abbreviation sess := (stgo Session).

Definition getConnection : sess Connection := fun s => (Ok (s_Connection s), s).

Definition setConnection (c : Connection) : sess unit := fun s =>
  (Ok tt, mkSession c (s_Stream s) (s_ctx s) (s_handler s) (s_calls s) (s_log s)).

(** [ctx.Err()] *)
Definition ctxErr : sess (option error) := fun s =>
  match s_ctx s with
  | [] => (Ok None, s)
  | e :: es => (Ok e, mkSession (s_Connection s) (s_Stream s) es (s_handler s) (s_calls s) (s_log s))
  end.

Definition onStream {A} (f : Stream -> go A * Stream) : sess A := fun s =>
  let '(r, st) := f (s_Stream s) in
  (r, mkSession (s_Connection s) st (s_ctx s) (s_handler s) (s_calls s) (s_log s)).

Definition streamReadPacket : sess Packet := ctx ← ctxErr; onStream (ReadPacket ctx).

Definition streamWritePacket (p : Packet) : sess unit :=
  ctx ← ctxErr; onStream (fun st => WritePacket ctx st p).

Fixpoint writeResponsePackets (packets : list Packet) : sess unit :=
  match packets with
  | [] => mret tt
  | p :: ps => streamWritePacket p ≫= fun _ => writeResponsePackets ps
  end.

Definition handle (c : Command) : sess CommandResponse := fun s =>
  let '(r, h) := HandleCommand (s_handler s) c in
  (r, mkSession (s_Connection s) (s_Stream s) (s_ctx s) h (s_calls s ++ [c]) (s_log s)).

Definition logCommandTrace (cfg : RunnerConfig) (e : CommandTraceEvent) : sess unit := fun s =>
  (Ok tt, if rn_CommandLogger cfg
          then mkSession (s_Connection s) (s_Stream s) (s_ctx s) (s_handler s) (s_calls s)
                 (s_log s ++ [e])
          else s).

Definition requireStream (cfg : RunnerConfig) : go unit :=
  if rn_hasStream cfg then Ok tt else Err (Errorf "mysql session runner stream is nil" []).

Definition requireHandler (cfg : RunnerConfig) : go unit :=
  if rn_hasHandler cfg then Ok tt else Err (Errorf "mysql session runner handler is nil" []).

(** ** One command *)

(** The identity of the command loop, written over a decoded command. *)
Definition with_identity (l : Connection) (command : Command) : Command :=
  mkCommand (c_Kind command) (c_SQL command) (c_Table command)
    (c_FieldPattern command) (c_StatementID command) (c_Execute command) (c_LongData command)
    (cn_ID l) (cn_Username l) (cn_Database l) (cn_Roles l).

(** The response and the error of [ServeNext]; a failed read gives the zero
    response.  The identity of the command loop is that of the connection [l]. *)
Definition ServeNext (cfg : RunnerConfig) (l : Connection)
    : sess (CommandResponse * option error) :=
  read ← try_ streamReadPacket;
  match read with
  | inr err => mret (noCommandResponse, Some err)
  | inl packet =>
    match DecodeCommand (Payload packet) with
    | Panic => lift Panic
    | Err err =>
      let response := ErrorResponseFromError (Some err) in
      written ← try_ (writeResponsePackets (r_Packets response));
      logCommandTrace cfg
        (mkTraceEvent (cn_ID l) (cn_Username l) (cn_Database l) CommandKindDecodeError [] [] [] 0 0 0
           (r_Kind response) (commandTraceError [Some err; err_of written])) ≫= fun _ =>
      mret (response, err_of written)
    | Ok command =>
      let command := with_identity l command in
      handled ← try_ (handle command);
      let response := match handled with
                      | inl response => response
                      | inr err => ErrorResponseFromError (Some err)
                      end in
      let response := WithCapabilities response (cn_CapabilityFlags l) in
      written ← try_ (writeResponsePackets (r_Packets response));
      logCommandTrace cfg
        (with_outcome (TraceEvent command) (r_Kind response)
           (commandTraceResponseError response (err_of handled) (err_of written))) ≫= fun _ =>
      mret (response, err_of written)
    end
  end.

Definition ServeNextCommand (cfg : RunnerConfig) : sess (CommandResponse * option error) :=
  lift (requireStream cfg) ≫= fun _ =>
  lift (requireHandler cfg) ≫= fun _ =>
  c ← getConnection;
  if negb (CanAcceptCommand c)
  then mret (noCommandResponse,
             Some (stateError "mysql connection is not ready for commands: %s" c))
  else
    '(response, err) ← ServeNext cfg c;
    match err with
    | Some _ => mret (response, err)
    | None =>
      if r_Close response
      then c ← getConnection; setConnection (WithClosing c) ≫= fun _ => mret (response, None)
      else mret (response, None)
    end.

(** ** Greeting and authentication *)

Fixpoint clonePacketsWithSequence (packets : list Packet) (sequenceID : Z) : list Packet :=
  match packets with
  | [] => []
  | p :: ps => mkPacket (byte_of sequenceID) (Payload p) :: clonePacketsWithSequence ps (sequenceID + 1)
  end.

Definition with_packets (r : CommandResponse) (packets : list Packet) : CommandResponse :=
  mkCommandResponse (r_Kind r) packets (r_Close r) (r_Statement r) (r_ProtocolError r).

Definition SendHandshake (cfg : RunnerConfig) : sess unit :=
  lift (requireStream cfg) ≫= fun _ =>
  payload ← lift (HandshakePayload (rn_Handshake cfg));
  c ← getConnection;
  connection ← lift (WithHandshakeSent c);
  streamWritePacket (mkPacket (byte_of 0) payload) ≫= fun _ =>
  setConnection connection.

Definition authenticatorOf (cfg : RunnerConfig) : option error -> AuthRequest -> go AuthDecision :=
  match rn_Authenticator cfg with
  | Some a => a
  | None => Authenticate (PermissiveAuthenticator [])
  end.

(** The plugin name of a response that has none. *)
Definition defaultPlugin (cfg : RunnerConfig) (r : HandshakeResponse41) : HandshakeResponse41 :=
  if decide (hr_AuthPluginName r = []) then
    mkResponse41 (hr_CapabilityFlags r) (hr_MaxPacketSize r) (hr_CharacterSet r) (hr_Username r)
      (hr_AuthResponse r) (hr_Database r)
      (if decide (h_AuthPluginName (rn_Handshake cfg) = []) then defaultAuthPluginName
       else h_AuthPluginName (rn_Handshake cfg))
  else r.

Definition runnerAcceptHandshakeResponse (cfg : RunnerConfig) : sess CommandResponse :=
  lift (requireStream cfg) ≫= fun _ =>
  packet ← streamReadPacket;
  response ← lift (DecodeHandshakeResponse41 (Payload packet));
  let response := defaultPlugin cfg response in
  c ← getConnection;
  connection ← lift (AcceptHandshakeResponse c response);
  ctx ← ctxErr;
  decision ← lift (authenticatorOf cfg ctx
    (authRequestFromHandshake (cn_ID connection) response (h_AuthPluginData (rn_Handshake cfg))));
  if negb (ad_Accepted decision) then
    let failure := ErrorResponse (ad_Failure decision) in
    let failure := with_packets failure
      (clonePacketsWithSequence (r_Packets failure) (ub (SequenceID packet) + 1)) in
    writeResponsePackets (r_Packets failure) ≫= fun _ =>
    setConnection connection ≫= fun _ =>
    mret failure
  else
    let connection := mkConnection (cn_ID connection) (cn_State connection) (ad_Username decision)
      (ad_Database decision) (ad_Roles decision) (ad_AuthPluginName decision)
      (cn_CapabilityFlags connection) in
    '(connection, authOK) ← lift (AcceptPermissiveAuth connection);
    let authOK := with_packets authOK
      (clonePacketsWithSequence (r_Packets authOK) (ub (SequenceID packet) + 1)) in
    writeResponsePackets (r_Packets authOK) ≫= fun _ =>
    setConnection connection ≫= fun _ =>
    mret authOK.

(** ** Serving *)

(** The command loop: [None] when the fuel is used up. *)
Fixpoint serveLoop (fuel : nat) (cfg : RunnerConfig) : sess (option unit) :=
  match fuel with
  | O => mret None
  | S fuel =>
    ctx ← ctxErr;
    match ctx with
    | Some err => lift (Err err)
    | None =>
      '(response, err) ← ServeNextCommand cfg;
      match err with
      | Some err => lift (Err err)
      | None =>
        c ← getConnection;
        if r_Close response || bool_decide (cn_State c = ConnectionStateClosing)
        then mret (Some tt)
        else serveLoop fuel cfg
      end
    end
  end.

Definition Serve (fuel : nat) (cfg : RunnerConfig) : sess (option unit) :=
  SendHandshake cfg ≫= fun _ =>
  authResponse ← runnerAcceptHandshakeResponse cfg;
  if decide (r_Kind authResponse = CommandResponseError)
  then c ← getConnection; setConnection (WithClosing c) ≫= fun _ => mret (Some tt)
  else serveLoop fuel cfg.

(** ** New sessions *)

Definition defaultChallenge : bytes := str "quantastream-auth-v1".

(** The zero handshake, which [NewSessionRunner] replaces. *)
Definition noHandshake : HandshakeV10 := mkHandshake [] 0 [] 0 0 0 [].

(** [version] is the build's version. *)
Definition NewSessionRunner (version : bytes) (connectionID : Z) (authPluginData : bytes)
    (handshake : HandshakeV10) (hasStream hasHandler : bool)
    (authenticator : option (option error -> AuthRequest -> go AuthDecision)) (logger : bool)
    : RunnerConfig * Connection :=
  let connectionID := if connectionID =? 0 then 1 else connectionID in
  let handshake :=
    if decide (h_ServerVersion handshake = []) then
      NewDefaultHandshake version connectionID
        (if zlen authPluginData =? 0 then defaultChallenge else authPluginData)
    else handshake in
  (mkRunnerConfig hasStream hasHandler handshake
     (Some match authenticator with
           | Some a => a
           | None => Authenticate (PermissiveAuthenticator [])
           end) logger,
   NewConnection connectionID).

(** [NativeProxyMySQLSessionConfig.WithDefaults] *)
Definition sessionConfigWithDefaults (connectionID : Z) (authPluginData : bytes) : Z * bytes :=
  (if connectionID =? 0 then 1 else connectionID,
   if zlen authPluginData =? 0 then str "quantastream-auth-v1" else authPluginData).

(** The runner of [ServeMySQLSessionWithConfig], with the front door's authenticator and logger. *)
Definition proxySessionRunner (version : bytes)
    (authenticator : option (option error -> AuthRequest -> go AuthDecision)) (logger : bool)
    (connectionID : Z) (authPluginData : bytes) : RunnerConfig * Connection :=
  let '(connectionID, authPluginData) := sessionConfigWithDefaults connectionID authPluginData in
  NewSessionRunner version connectionID authPluginData noHandshake true true authenticator logger.

(** The runner [serveMySQLConn] starts for an accepted connection. *)
Definition connSessionRunner (version : bytes)
    (authenticator : option (option error -> AuthRequest -> go AuthDecision)) (logger : bool)
    (connectionID : Z) : RunnerConfig * Connection :=
  proxySessionRunner version authenticator logger connectionID [].

(** ** Lemmas: what computations leave alone *)

(** Input and output leave the connection, the handler, the calls and the log. *)
Definition io_only (s s' : Session) : Prop :=
  s_Connection s' = s_Connection s /\ s_handler s' = s_handler s /\ s_calls s' = s_calls s /\
  s_log s' = s_log s.

(** Writing also leaves the input. *)
Definition output_only (s s' : Session) : Prop :=
  io_only s s' /\ Reader (s_Stream s') = Reader (s_Stream s).

Lemma io_only_refl s : io_only s s.
Proof. done. Qed.

Lemma io_only_trans s1 s2 s3 : io_only s1 s2 -> io_only s2 s3 -> io_only s1 s3.
Proof. unfold io_only. intuition congruence. Qed.

Lemma output_only_trans s1 s2 s3 : output_only s1 s2 -> output_only s2 s3 -> output_only s1 s3.
Proof. unfold output_only, io_only. intuition congruence. Qed.

Lemma ctxErr_keeps : keeps output_only ctxErr.
Proof. intros s. unfold ctxErr. by destruct (s_ctx s). Qed.

Lemma onStream_keeps {A} (f : Stream -> go A * Stream) : keeps io_only (onStream f).
Proof. intros s. unfold onStream. by destruct (f (s_Stream s)). Qed.

Lemma WritePacket_reader ctx st p : Reader (WritePacket ctx st p).2 = Reader st.
Proof.
  unfold WritePacket. destruct ctx; [done|]. destruct (StreamWriter st) as [w|]; [|done].
  destruct (EncodePacket p) as [d|e|]; [|done..]. destruct (Write w d) as [[w' n] [e|]]; [done|].
  by case_if.
Qed.

Lemma streamWritePacket_keeps p : keeps output_only (streamWritePacket p).
Proof.
  apply keeps_bind; [apply output_only_trans|apply ctxErr_keeps|]. intros ctx s.
  pose proof (WritePacket_reader ctx (s_Stream s) p) as E. unfold onStream.
  by destruct (WritePacket ctx (s_Stream s) p).
Qed.

Lemma writeResponsePackets_keeps ps : keeps output_only (writeResponsePackets ps).
Proof.
  induction ps as [|p ps IH]; [done|]. cbn [writeResponsePackets].
  apply keeps_bind; [apply output_only_trans|apply streamWritePacket_keeps|done].
Qed.

Lemma streamReadPacket_keeps : keeps io_only streamReadPacket.
Proof.
  apply keeps_bind; [apply io_only_trans|intros s; apply ctxErr_keeps|]. intros ctx. apply onStream_keeps.
Qed.

(** A packet that was read is the front of the input, and the rest is left. *)
Lemma streamReadPacket_ok s p s' : streamReadPacket s = (Ok p, s') ->
  exists d rest, EncodePacket p = Ok d /\ Reader (s_Stream s) = Some (d ++ rest) /\
    Reader (s_Stream s') = Some rest.
Proof.
  unfold streamReadPacket, mbind, stgo_bind. pose proof (ctxErr_keeps s) as [_ Hr].
  destruct (ctxErr s) as [[ctx|e|] s1]; [|done..]. simpl in Hr. unfold onStream.
  destruct (s_Stream s1) as [rd wr]. simpl in Hr.
  destruct ctx as [e|]; [done|]. destruct rd as [r|]; [|done].
  destruct (ReadPacket None (mkStream (Some r) wr)) as [[p'|e|] st] eqn:E; [|done..].
  intros [= <- <-]. apply ReadPacket_ok in E as (d & rest & Hd & -> & ->).
  exists d, rest. by rewrite <- Hr.
Qed.

(** ** Lemmas: what one command does *)

(** The bytes of packets sent one after another. *)
Inductive Framed : list Packet -> bytes -> Prop :=
  | Framed_nil : Framed [] []
  | Framed_cons p d ps bs : EncodePacket p = Ok d -> Framed ps bs -> Framed (p :: ps) (d ++ bs).

Lemma Framed_app ps1 bs1 ps2 bs2 : Framed ps1 bs1 -> Framed ps2 bs2 -> Framed (ps1 ++ ps2) (bs1 ++ bs2).
Proof.
  induction 1 as [|p d ps bs Hd _ IH]; [done|]. intros H2. simpl. rewrite <- app_assoc.
  constructor; auto.
Qed.

Definition input (s : Session) : bytes := default [] (Reader (s_Stream s)).

Definition output (s : Session) : bytes := from_option written [] (StreamWriter (s_Stream s)).

(** The response to a packet and the handler afterwards; there is none when the
    handler panics. *)
Definition answer (l : Connection) (h : HS) (p : Packet) : option (CommandResponse * HS) :=
  match DecodeCommand (Payload p) with
  | Ok c =>
    match HandleCommand h (with_identity l c) with
    | (Ok response, h') => Some (WithCapabilities response (cn_CapabilityFlags l), h')
    | (Err err, h') =>
      Some (WithCapabilities (ErrorResponseFromError (Some err)) (cn_CapabilityFlags l), h')
    | (Panic, _) => None
    end
  | Err e => Some (ErrorResponseFromError (Some e), h)
  | Panic => None
  end.

(** The command the handler sees for a packet, if any. *)
Definition called (l : Connection) (p : Packet) : option Command :=
  match DecodeCommand (Payload p) with Ok c => Some (with_identity l c) | _ => None end.

Lemma streamWritePacket_ok p s s' : streamWritePacket p s = (Ok tt, s') ->
  exists d, EncodePacket p = Ok d /\ output s' = output s ++ d.
Proof.
  unfold streamWritePacket, mbind, stgo_bind, ctxErr, onStream.
  assert (G : forall ctx s, let '(r, st) := WritePacket ctx (s_Stream s) p in r = Ok tt ->
    exists d, EncodePacket p = Ok d /\ from_option written [] (StreamWriter st) = output s ++ d).
  { intros ctx s0. destruct (WritePacket ctx (s_Stream s0) p) as [r st] eqn:E. intros ->.
    destruct ctx as [e|]; [done|]. apply WritePacket_ok in E as (w & w' & d & Hw & Hd & HW & ->).
    exists d. split; [done|]. simpl. unfold output. rewrite Hw. simpl. by apply Write_all. }
  destruct (s_ctx s) as [|ctx ctxs]; [specialize (G None s)|specialize (G ctx s)];
    cbn [s_Stream]; destruct (WritePacket _ (s_Stream s) p) as [r st]; intros [= -> <-]; by apply G.
Qed.

Lemma writeResponsePackets_ok ps : forall s s', writeResponsePackets ps s = (Ok tt, s') ->
  exists sent, Framed ps sent /\ output s' = output s ++ sent.
Proof.
  induction ps as [|p ps IH]; intros s s'; cbn [writeResponsePackets].
  - intros [= <-]. exists []. by rewrite app_nil_r; split; [constructor|].
  - unfold mbind, stgo_bind. destruct (streamWritePacket p s) as [[[]|e|] s1] eqn:E; [|done..].
    intros Hps. apply streamWritePacket_ok in E as (d & Hd & E1).
    apply IH in Hps as (sent & Hf & E2). exists (d ++ sent). split; [by constructor|].
    by rewrite E2, E1, app_assoc.
Qed.

Lemma calm_ctxErr : calm ctxErr.
Proof. intros s. unfold ctxErr. by destruct (s_ctx s). Qed.

Lemma calm_onStream {A} (f : Stream -> go A * Stream) : (forall st, (f st).1 <> Panic) -> calm (onStream f).
Proof. intros Hf s. specialize (Hf (s_Stream s)). unfold onStream. by destruct (f (s_Stream s)). Qed.

Lemma calm_read : calm streamReadPacket.
Proof.
  apply calm_bind; [apply calm_ctxErr|]. intros ctx. apply calm_onStream. intros st.
  apply ReadPacket_no_panic.
Qed.

Lemma calm_write ps : calm (writeResponsePackets ps).
Proof.
  induction ps as [|p ps IH]; [apply calm_ret|]. apply calm_bind; [|done].
  apply calm_bind; [apply calm_ctxErr|]. intros ctx. apply calm_onStream. intros st.
  apply WritePacket_no_panic.
Qed.

Lemma streamReadPacket_output s : output (streamReadPacket s).2 = output s.
Proof.
  unfold streamReadPacket, mbind, stgo_bind, output.
  assert (E : StreamWriter (s_Stream (ctxErr s).2) = StreamWriter (s_Stream s)).
  { unfold ctxErr. by destruct (s_ctx s). }
  destruct (ctxErr s) as [[ctx|e|] s1]; simpl in E; [|by rewrite <- E..].
  pose proof (ReadPacket_writer ctx (s_Stream s1)) as W. unfold onStream.
  destruct (ReadPacket ctx (s_Stream s1)) as [r st]. simpl in *. by rewrite W, E.
Qed.

(** What a call of [ServeNext] that has read the packet [p] does to the session:
    its answer is [response], and [err] the error of writing it. *)
Definition served (l : Connection) (p : Packet) (s s' : Session) (response : CommandResponse)
    (err : option error) : Prop :=
  (exists d rest, EncodePacket p = Ok d /\ Reader (s_Stream s) = Some (d ++ rest) /\
     Reader (s_Stream s') = Some rest) /\
  answer l (s_handler s) p = Some (response, s_handler s') /\
  s_calls s' = s_calls s ++ option_list (called l p) /\
  (err = None -> exists sent, Framed (r_Packets response) sent /\ output s' = output s ++ sent).

(** The handler panicked on the command of the packet [p]. *)
Definition panicked (l : Connection) (p : Packet) (s s' : Session) : Prop :=
  (exists d rest, EncodePacket p = Ok d /\ Reader (s_Stream s) = Some (d ++ rest) /\
     Reader (s_Stream s') = Some rest) /\
  s_calls s' = s_calls s ++ option_list (called l p) /\
  exists h k, (HandleCommand h k).1 = Panic.

Lemma handle_run k s r h : HandleCommand (s_handler s) k = (r, h) ->
  handle k s = (r, mkSession (s_Connection s) (s_Stream s) (s_ctx s) h (s_calls s ++ [k]) (s_log s)).
Proof. intros E. unfold handle. by rewrite E. Qed.

(** Writing the response and logging it, the end of both branches. *)
Lemma respond_spec cfg (response : CommandResponse) ps (e : unit + error -> CommandTraceEvent) s :
  exists err s', (written ← try_ (writeResponsePackets ps);
     logCommandTrace cfg (e written) ≫= fun _ => mret (response, err_of written)) s
    = (Ok (response, err), s') /\
  s_Connection s' = s_Connection s /\ s_handler s' = s_handler s /\ s_calls s' = s_calls s /\
  Reader (s_Stream s') = Reader (s_Stream s) /\
  (err = None -> exists sent, Framed ps sent /\ output s' = output s ++ sent).
Proof.
  destruct (calm_try (writeResponsePackets ps) s (calm_write ps)) as (w & s1 & E & Ew).
  unfold mbind, stgo_bind. rewrite E. unfold logCommandTrace, mret, stgo_ret.
  pose proof (writeResponsePackets_keeps ps s) as K. rewrite Ew in K.
  destruct K as [(K1 & K2 & K3 & _) K4]. simpl in K1, K2, K3, K4.
  assert (O : err_of w = None -> exists sent, Framed ps sent /\ output s1 = output s ++ sent).
  { destruct w as [[]|]; [|done]. intros _. by apply writeResponsePackets_ok. }
  destruct (rn_CommandLogger cfg); eexists _, _; split_and!; try done; exact O.
Qed.

Lemma ServeNext_step cfg l s :
  (exists err s', ServeNext cfg l s = (Ok (noCommandResponse, Some err), s') /\ io_only s s') \/
  (exists p response err s', ServeNext cfg l s = (Ok (response, err), s') /\
     s_Connection s' = s_Connection s /\ served l p s s' response err) \/
  (exists p s', ServeNext cfg l s = (Panic, s') /\ panicked l p s s').
Proof.
  destruct (calm_try streamReadPacket s calm_read) as (r & s1 & E & Er).
  pose proof (streamReadPacket_keeps s) as K. pose proof (streamReadPacket_output s) as Ho.
  rewrite Er in K, Ho. destruct K as (K1 & K2 & K3 & K4). simpl in K1, K2, K3, K4, Ho.
  unfold ServeNext. rewrite (bind_run _ _ _ _ _ E).
  destruct r as [p|err]; [right|by left; exists err, s1].
  apply streamReadPacket_ok in Er as (d & rest & Hd & Hr & Hr1).
  assert (Fin : forall h response ps e s0, answer l (s_handler s) p = Some (response, h) ->
    r_Packets response = ps -> s_handler s0 = h -> s_calls s0 = s_calls s ++ option_list (called l p) ->
    s_Connection s0 = s_Connection s -> s_Stream s0 = s_Stream s1 ->
    exists err s', (written ← try_ (writeResponsePackets ps);
      logCommandTrace cfg (e written) ≫= fun _ => mret (response, err_of written)) s0
      = (Ok (response, err), s') /\ s_Connection s' = s_Connection s /\ served l p s s' response err).
  { intros h response ps e s0 Ha <- Hh Hk Hc Hs0.
    destruct (respond_spec cfg response (r_Packets response) e s0)
      as (err & s2 & E2 & C1 & C2 & C3 & C4 & C5).
    exists err, s2. unfold served. rewrite E2, C1, C2, C3, C4, Hs0, Hh. split_and!; try done.
    { by exists d, rest. }
    intros He. destruct (C5 He) as (sent & Hf & Hs). exists sent. split; [done|].
    rewrite Hs. unfold output in *. by rewrite Hs0, Ho. }
  unfold answer, called in Fin. unfold panicked, called.
  destruct (DecodeCommand (Payload p)) as [c|e|] eqn:Ec; [..|by apply DecodeCommand_safe in Ec].
  - set (k := with_identity l c) in *.
    destruct (HandleCommand (s_handler s) k) as [hr h] eqn:Eh. pose proof Eh as Eh1. rewrite <- K2 in Eh1.
    apply handle_run in Eh1.
    set (s2 := mkSession _ _ _ _ _ _) in Eh1.
    assert (Hk : s_calls s2 = s_calls s ++ [k]) by (by simpl; rewrite K3).
    destruct hr as [response|err|]; [left; eexists p, _..|right; exists p, s2].
    + rewrite (bind_run _ _ _ _ _ (try_ok _ _ _ _ Eh1)). by eapply (Fin h _ _ _ s2).
    + rewrite (bind_run _ _ _ _ _ (try_err _ _ _ _ Eh1)). by eapply (Fin h _ _ _ s2).
    + unfold mbind at 1, stgo_bind at 1, try_ at 1. rewrite Eh1, Ec.
      split_and!; [done|by exists d, rest|done|].
      exists (s_handler s), k. by rewrite Eh.
  - left. eexists p, _. eapply (Fin (s_handler s) _ _ _ s1); try done. by rewrite K3, app_nil_r.
Qed.

Definition closes (response : CommandResponse) (err : option error) : bool :=
  match err with Some _ => false | None => r_Close response end.

Lemma ServeNextCommand_step cfg s :
  (exists r s', ServeNextCommand cfg s = (r, s') /\ r <> Panic /\ io_only s s' /\
     forall response, r <> Ok (response, None)) \/
  (exists p response err s', ServeNextCommand cfg s = (Ok (response, err), s') /\
     cn_State (s_Connection s) = ConnectionStateReady /\
     s_Connection s' = (if closes response err then WithClosing (s_Connection s) else s_Connection s) /\
     served (s_Connection s) p s s' response err) \/
  (exists p s', ServeNextCommand cfg s = (Panic, s') /\ panicked (s_Connection s) p s s').
Proof.
  unfold ServeNextCommand, requireStream, requireHandler.
  destruct (rn_hasStream cfg); [|by left; eexists _, s].
  destruct (rn_hasHandler cfg); [|by left; eexists _, s].
  rewrite !(bind_run (lift (Ok tt)) _ s tt s) by done.
  rewrite (bind_run getConnection _ s (s_Connection s) s) by done.
  destruct (CanAcceptCommand (s_Connection s)) eqn:Eready; [|by left; eexists _, s].
  apply bool_decide_eq_true in Eready. cbn [negb].
  destruct (ServeNext_step cfg (s_Connection s) s)
    as [(err & s' & E & K)|[(p & response & err & s' & E & Hc & K)|(p & s' & E & K)]].
  { rewrite (bind_run _ _ _ _ _ E). left. by eexists _, s'. }
  2:{ right. right. exists p, s'. split; [|done]. unfold mbind, stgo_bind. by rewrite E. }
  rewrite (bind_run _ _ _ _ _ E). right. left.
  exists p, response, err. destruct err as [e|]; [by exists s'|]. cbn [closes].
  destruct (r_Close response); [|by exists s'].
  eexists. split; [reflexivity|]. split_and!; [done| |done]. simpl. by rewrite Hc.
Qed.

(** The answers to the packets [ps], the handler going from one to the next;
    there are none when it panics on one of them. *)
Fixpoint converse (l : Connection) (h : HS) (ps : list Packet) : option (list CommandResponse * HS) :=
  match ps with
  | [] => Some ([], h)
  | p :: ps =>
    '(r, h1) ← answer l h p;
    '(rs, h2) ← converse l h1 ps;
    Some (r :: rs, h2)
  end.

(** Only the last response closes the session. *)
Definition closed_by_last (rs : list CommandResponse) : Prop :=
  exists rs0 r, rs = rs0 ++ [r] /\ r_Close r = true /\ Forall (fun x => r_Close x = false) rs0.

Definition loop_ran (l : Connection) (s : Session) (r : go (option unit)) (s' : Session) : Prop :=
  exists ps rs sent rest, Framed ps sent /\ input s = sent ++ rest /\
    (r <> Panic -> converse l (s_handler s) ps = Some (rs, s_handler s')) /\
    s_calls s' = s_calls s ++ omap (called l) ps /\
    (r = Panic -> exists h k, (HandleCommand h k).1 = Panic) /\
    (r = Ok (Some tt) -> rest = input s' /\ closed_by_last rs /\
       cn_State (s_Connection s') = ConnectionStateClosing /\
       exists out, Framed (concat (map r_Packets rs)) out /\ output s' = output s ++ out).

Lemma loop_ran_stop l s r s' : io_only s s' -> r <> Panic -> r <> Ok (Some tt) -> loop_ran l s r s'.
Proof.
  intros (_ & K2 & K3 & _) Hp Hr. exists [], [], [], (input s).
  rewrite K2, K3, app_nil_r. split_and!; try done. constructor.
Qed.

Lemma loop_ran_cons l p s s1 response r s' : served l p s s1 response None ->
  r_Close response = false -> loop_ran l s1 r s' -> loop_ran l s r s'.
Proof.
  intros ((d & rest & Hd & Hr & Hr1) & Ha & Hk & Ho) Hc (ps & rs & sent & rest' & Hf & Hi & Hv & Hk' & Hpan & Hok).
  exists (p :: ps), (response :: rs), (d ++ sent), rest'. split_and!.
  - by constructor.
  - unfold input in *. rewrite Hr. rewrite Hr1 in Hi. simpl in *. by rewrite Hi, app_assoc.
  - intros Hr'. cbn [converse]. rewrite Ha. cbn. by rewrite Hv.
  - rewrite Hk', Hk. simpl. destruct (called l p); simpl; by rewrite <- ?app_assoc, ?app_nil_r.
  - done.
  - intros ->. destruct (Hok eq_refl) as (-> & (rs0 & z & -> & Hz & Hz0) & Hst & out & Hfo & Hout).
    destruct (Ho eq_refl) as (out1 & Hf1 & Hout1). split_and!; try done.
    + exists (response :: rs0), z. split_and!; [done..|]. by constructor.
    + exists (out1 ++ out). rewrite Hout, Hout1, app_assoc. split; [|done]. by apply Framed_app.
Qed.

Lemma loop_ran_last l p s s' response err r : served l p s s' response err ->
  r <> Panic ->
  (r = Ok (Some tt) -> err = None /\ r_Close response = true /\
     cn_State (s_Connection s') = ConnectionStateClosing) ->
  loop_ran l s r s'.
Proof.
  intros ((d & rest & Hd & Hr & Hr1) & Ha & Hk & Ho) Hp Hok.
  exists [p], [response], d, rest. unfold input. rewrite Hr, Hr1. split_and!.
  - rewrite <- (app_nil_r d). by constructor; [|constructor].
  - done.
  - intros _. cbn [converse]. by rewrite Ha.
  - rewrite Hk. simpl. by destruct (called l p).
  - done.
  - intros Er. destruct (Hok Er) as (-> & Hc & Hst). destruct (Ho eq_refl) as (out & Hf & Hout).
    split_and!; try done.
    + by exists [], response.
    + exists out. simpl. by rewrite app_nil_r.
Qed.

Lemma loop_ran_panic l p s s' : panicked l p s s' -> loop_ran l s Panic s'.
Proof.
  intros ((d & rest & Hd & Hr & Hr1) & Hk & Hp).
  exists [p], [], d, rest. unfold input. rewrite Hr. split_and!; try done.
  rewrite <- (app_nil_r d). by constructor; [|constructor].
Qed.

Lemma loop_ran_ctx l s ctx r s' :
  loop_ran l (mkSession (s_Connection s) (s_Stream s) ctx (s_handler s) (s_calls s) (s_log s)) r s' ->
  loop_ran l s r s'.
Proof. done. Qed.

Lemma ctxErr_run s : exists e ctx, ctxErr s =
  (Ok e, mkSession (s_Connection s) (s_Stream s) ctx (s_handler s) (s_calls s) (s_log s)).
Proof.
  unfold ctxErr. destruct s as [c st [|e ctx] h k g]; simpl; [by exists None, []|by exists e, ctx].
Qed.

(** The command loop answers a prefix of the packets of its input, in order, the
    handler being called once for each that decodes; it stops successfully only
    after a response that closes the session, with all responses sent. *)
Lemma serveLoop_ran fuel cfg : forall s,
  loop_ran (s_Connection s) s (serveLoop fuel cfg s).1 (serveLoop fuel cfg s).2.
Proof.
  induction fuel as [|fuel IH]; intros s; cbn [serveLoop]; [by apply loop_ran_stop|].
  destruct (ctxErr_run s) as (e & ctx & E). rewrite (bind_run _ _ _ _ _ E).
  apply (loop_ran_ctx _ _ ctx). clear E.
  change (s_Connection s) with
    (s_Connection (mkSession (s_Connection s) (s_Stream s) ctx (s_handler s) (s_calls s) (s_log s)))
    at 1.
  generalize (mkSession (s_Connection s) (s_Stream s) ctx (s_handler s) (s_calls s) (s_log s)).
  clear s ctx. intros s. destruct e as [e|]; [by apply loop_ran_stop|].
  destruct (ServeNextCommand_step cfg s)
    as [(r & s' & E & Hp & K & Hr)|[(p & response & err & s' & E & Hready & Hc & K)|(p & s' & E & K)]].
  3:{ unfold mbind, stgo_bind. rewrite E. by eapply loop_ran_panic. }
  - unfold mbind, stgo_bind. rewrite E. destruct r as [[response [err|]]|e|];
      [by apply loop_ran_stop|by destruct (Hr response)|by apply loop_ran_stop|done].
  - rewrite (bind_run _ _ _ _ _ E). destruct err as [err|].
    { by eapply loop_ran_last. }
    rewrite (bind_run getConnection _ s' (s_Connection s') s') by done. rewrite Hc. cbn [closes] in *.
    destruct (r_Close response) eqn:Ec; cbn [orb].
    { eapply loop_ran_last; [done..|]. intros _. simpl. by rewrite Hc. }
    rewrite Hready, bool_decide_false by done. eapply loop_ran_cons; [done..|]. rewrite <- Hc. apply IH.
Qed.

(** Each command takes at least four bytes of the input. *)
Lemma served_shorter l p s s' response err :
  served l p s s' response err -> zlen (input s') < zlen (input s).
Proof.
  intros ((d & rest & Hd & Hr & Hr1) & _). unfold input. rewrite Hr, Hr1. simpl.
  rewrite zlen_app. apply EncodePacket_DecodePacket, DecodePacket_ok in Hd as (b0 & b1 & b2 & -> & _).
  rewrite !zlen_cons. pose proof (zlen_nonneg (Payload p)). lia.
Qed.

Lemma serveLoop_terminates fuel cfg : forall s, zlen (input s) < Z.of_nat fuel ->
  (serveLoop fuel cfg s).1 <> Ok None.
Proof.
  induction fuel as [|fuel IH]; intros s Hs.
  { pose proof (zlen_nonneg (input s)). lia. }
  cbn [serveLoop]. destruct (ctxErr_run s) as (e & ctx & E). rewrite (bind_run _ _ _ _ _ E). clear E.
  destruct e as [e|]; [done|].
  set (s1 := mkSession _ _ _ _ _ _). change (input s) with (input s1) in Hs. clearbody s1.
  unfold mbind at 1, stgo_bind at 1.
  destruct (ServeNextCommand_step cfg s1)
    as [(r & s' & -> & Hp & K & Hr)|[(p & response & err & s' & -> & Hready & Hc & K)|(p & s' & -> & K)]];
    [| |done].
  - destruct r as [[response [err|]]|e|]; [done|by destruct (Hr response)|done..].
  - destruct err as [err|]; [done|].
    rewrite (bind_run getConnection _ s' (s_Connection s') s') by done. case_if; [done|].
    apply IH. apply served_shorter in K. lia.
Qed.

(** ** Lemmas: greeting and authentication *)

Lemma HandshakePayload_safe h : safe (HandshakePayload h).
Proof. unfold HandshakePayload. pose proof (zlen_nonneg (h_AuthPluginData h)). go_safe. Qed.

Lemma bind_getConnection {B} (f : Connection -> sess B) s :
  (getConnection ≫= f) s = f (s_Connection s) s.
Proof. done. Qed.

Definition greeted (cfg : RunnerConfig) (s s' : Session) : Prop :=
  exists payload d, HandshakePayload (rn_Handshake cfg) = Ok payload /\
    EncodePacket (mkPacket (byte_of 0) payload) = Ok d /\ output s' = output s ++ d /\
    s_Connection s' = set_state (s_Connection s) ConnectionStateHandshakeSent.

Lemma SendHandshake_step cfg s r s' : SendHandshake cfg s = (r, s') ->
  r <> Panic /\ s_handler s' = s_handler s /\ s_calls s' = s_calls s /\
  Reader (s_Stream s') = Reader (s_Stream s) /\ (r = Ok tt -> greeted cfg s s').
Proof.
  unfold SendHandshake, requireStream. rewrite bind_lift.
  destruct (rn_hasStream cfg); [|by intros [= <- <-]]. rewrite bind_lift.
  pose proof (HandshakePayload_safe (rn_Handshake cfg)) as Hs.
  destruct (HandshakePayload (rn_Handshake cfg)) as [payload|e|] eqn:Ep; [|by intros [= <- <-]|done].
  rewrite bind_getConnection, bind_lift. unfold WithHandshakeSent.
  case_decide; [by intros [= <- <-]|]. cbn [mret go_ret].
  set (p := mkPacket (byte_of 0) payload). pose proof (streamWritePacket_keeps p s) as K.
  pose proof (calm_write [p] s) as Hcalm. unfold mbind, stgo_bind.
  cbn [writeResponsePackets] in Hcalm. unfold mbind, stgo_bind in Hcalm.
  destruct (streamWritePacket p s) as [[[]|e|] s1] eqn:E; [| |by destruct Hcalm];
    destruct K as [(K1 & K2 & K3 & K4) K5]; intros [= <- <-]; split_and!; try done.
  intros _. apply streamWritePacket_ok in E as (d & Hd & Ho). by exists payload, d.
Qed.

(** The response to the client's authentication and the connection afterwards. *)
Definition authenticated (cfg : RunnerConfig) (s : Session) (response : CommandResponse) (s' : Session)
    (packet : Packet) (login : HandshakeResponse41) (decision : AuthDecision) : Prop :=
  (exists d rest, EncodePacket packet = Ok d /\ Reader (s_Stream s) = Some (d ++ rest) /\
     Reader (s_Stream s') = Some rest) /\
  DecodeHandshakeResponse41 (Payload packet) = Ok login /\
  (exists ctx, authenticatorOf cfg ctx (authRequestFromHandshake (cn_ID (s_Connection s))
     (defaultPlugin cfg login) (h_AuthPluginData (rn_Handshake cfg))) = Ok decision) /\
  (exists sent, Framed (r_Packets response) sent /\ output s' = output s ++ sent) /\
  s_Connection s' = mkConnection (cn_ID (s_Connection s))
    (if ad_Accepted decision then ConnectionStateReady else ConnectionStateAuthPending)
    (if ad_Accepted decision then ad_Username decision else hr_Username login)
    (if ad_Accepted decision then ad_Database decision else hr_Database login)
    (if ad_Accepted decision then ad_Roles decision else cn_Roles (s_Connection s))
    (if ad_Accepted decision then ad_AuthPluginName decision
     else hr_AuthPluginName (defaultPlugin cfg login))
    (hr_CapabilityFlags login) /\
  (r_Kind response = CommandResponseError <-> ad_Accepted decision = false).

Lemma finish_auth_step ps c (a : CommandResponse) s r s' :
  (writeResponsePackets ps ≫= fun _ => setConnection c ≫= fun _ => mret a) s = (r, s') ->
  r <> Panic /\ s_handler s' = s_handler s /\ s_calls s' = s_calls s /\
  (forall x, r = Ok x -> x = a /\ s_Connection s' = c /\ Reader (s_Stream s') = Reader (s_Stream s) /\
     exists sent, Framed ps sent /\ output s' = output s ++ sent).
Proof.
  pose proof (writeResponsePackets_keeps ps s) as K. pose proof (calm_write ps s) as Hcalm.
  unfold mbind, stgo_bind.
  destruct (writeResponsePackets ps s) as [[[]|e|] s1] eqn:E; [| |by destruct Hcalm];
    destruct K as [(K1 & K2 & K3 & K4) K5]; intros [= <- <-]; split_and!; try done.
  intros x [= <-]. split_and!; try done. by apply writeResponsePackets_ok in E.
Qed.

Lemma authOK_kind name caps ps :
  r_Kind (with_packets (AuthSuccessResponse name caps) ps) <> CommandResponseError.
Proof. done. Qed.

Lemma accept_step cfg s r s' :
  runnerAcceptHandshakeResponse cfg s = (r, s') ->
  (r = Panic -> exists ctx request, authenticatorOf cfg ctx request = Panic) /\
  s_handler s' = s_handler s /\ s_calls s' = s_calls s /\
  (forall response, r = Ok response ->
     exists packet login decision, authenticated cfg s response s' packet login decision).
Proof.
  unfold runnerAcceptHandshakeResponse, requireStream. rewrite bind_lift.
  destruct (rn_hasStream cfg); [|by intros [= <- <-]].
  pose proof (calm_read s) as Hcalm. pose proof (streamReadPacket_keeps s) as K.
  pose proof (streamReadPacket_output s) as Ho. unfold mbind at 1, stgo_bind at 1.
  destruct (streamReadPacket s) as [[packet|e|] s1] eqn:E; [| |by destruct Hcalm];
    destruct K as (K1 & K2 & K3 & K4); simpl in K1, K2, K3, K4, Ho; [|by intros [= <- <-]].
  apply streamReadPacket_ok in E as (d & rest & Hd & Hr & Hr1). rewrite bind_lift.
  destruct (DecodeHandshakeResponse41 (Payload packet)) as [login|e|] eqn:El;
    [|by intros [= <- <-]|by apply DecodeHandshakeResponse41_safe in El].
  rewrite bind_getConnection, bind_lift, K1. unfold AcceptHandshakeResponse.
  case_decide; [by intros [= <- <-]|]. cbn [mret go_ret].
  destruct (ctxErr_run s1) as (ctx & ctxs & Ec). rewrite (bind_run _ _ _ _ _ Ec), bind_lift. clear Ec.
  set (s2 := mkSession _ _ _ _ _ _). cbn [cn_ID].
  destruct (authenticatorOf cfg ctx _) as [decision|e|] eqn:Ea;
    [|by intros [= <- <-]|by intros [= <- <-]; split; [eauto|]].
  assert (Hlogin : hr_CapabilityFlags (defaultPlugin cfg login) = hr_CapabilityFlags login /\
    hr_Username (defaultPlugin cfg login) = hr_Username login /\
    hr_Database (defaultPlugin cfg login) = hr_Database login).
  { unfold defaultPlugin. by case_decide. }
  destruct Hlogin as (Hl1 & Hl2 & Hl3).
  destruct (ad_Accepted decision) eqn:Eacc; cbn [negb].
  - rewrite bind_lift. unfold AcceptPermissiveAuth. cbn [cn_State]. rewrite decide_False by tauto.
    cbn [mret go_ret]. intros F. apply finish_auth_step in F as (F1 & F2 & F3 & F4).
    split_and!; [done|by rewrite F2|by rewrite F3|]. intros response Hres.
    destruct (F4 _ Hres) as (-> & F5 & F6 & sent & F7 & F8).
    exists packet, login, decision. unfold authenticated. rewrite F5, F6, Eacc. split_and!; try done.
    + by exists d, rest.
    + by exists ctx.
    + exists sent. split; [done|]. by rewrite F8, <- Ho.
    + cbn. by rewrite Hl1.
  - intros F. apply finish_auth_step in F as (F1 & F2 & F3 & F4).
    split_and!; [done|by rewrite F2|by rewrite F3|]. intros response Hres.
    destruct (F4 _ Hres) as (-> & F5 & F6 & sent & F7 & F8).
    exists packet, login, decision. unfold authenticated. rewrite F5, F6, Eacc. split_and!; try done.
    + by exists d, rest.
    + by exists ctx.
    + exists sent. split; [done|]. by rewrite F8, <- Ho.
    + by rewrite Hl1, Hl2, Hl3.
Qed.

(** A session that gets past authentication runs its command loop from [s2]. *)
Lemma Serve_cases fuel cfg s :
  let '(r, s') := Serve fuel cfg s in
  (s_calls s' = s_calls s /\ s_handler s' = s_handler s /\
   (r = Panic -> exists ctx request, authenticatorOf cfg ctx request = Panic) /\ r <> Ok None /\
   (r = Ok (Some tt) -> exists s1 s2 response packet login decision, greeted cfg s s1 /\
      Reader (s_Stream s1) = Reader (s_Stream s) /\
      authenticated cfg s1 response s2 packet login decision /\ ad_Accepted decision = false /\
      s_Stream s' = s_Stream s2)) \/
  exists s1 s2 response packet login decision, greeted cfg s s1 /\
    s_calls s2 = s_calls s /\ s_handler s2 = s_handler s /\
    Reader (s_Stream s1) = Reader (s_Stream s) /\
    authenticated cfg s1 response s2 packet login decision /\ ad_Accepted decision = true /\
    serveLoop fuel cfg s2 = (r, s').
Proof.
  unfold Serve. destruct (SendHandshake cfg s) as [r1 s1] eqn:E1.
  pose proof (SendHandshake_step _ _ _ _ E1) as (N1 & H1 & C1 & R1 & G).
  unfold mbind at 1, stgo_bind at 1. rewrite E1.
  destruct r1 as [[]|e|]; [specialize (G eq_refl)|by left|done].
  unfold mbind at 1, stgo_bind at 1.
  destruct (runnerAcceptHandshakeResponse cfg s1) as [r2 s2] eqn:E2.
  pose proof (accept_step _ _ _ _ E2) as (N2 & H2 & C2 & A).
  destruct r2 as [response|e|]; [|left; split_and!; first [done|congruence|by intros _; apply N2]..].
  destruct (A response eq_refl) as (packet & login & decision & Ha).
  pose proof Ha as (_ & _ & _ & _ & _ & Hkind).
  case_decide as Hk.
  - left. simpl. split_and!; try done; try congruence. intros _.
    exists s1, s2, response, packet, login, decision. split_and!; try done. by apply Hkind.
  - destruct (serveLoop fuel cfg s2) as [r s'] eqn:El. right.
    exists s1, s2, response, packet, login, decision. split_and!; try done; try congruence.
    destruct (ad_Accepted decision); [done|]. destruct Hk. by apply Hkind.
Qed.

Lemma Serve_terminates fuel cfg s : zlen (input s) < Z.of_nat fuel ->
  (Serve fuel cfg s).1 <> Ok None.
Proof.
  intros Hf. pose proof (Serve_cases fuel cfg s) as C. destruct (Serve fuel cfg s) as [r s'].
  destruct C as [(_ & _ & _ & N & _)|(s1 & s2 & response & packet & login & decision & _ & _ & _ & R &
    ((d & rest & _ & R1 & R2) & _) & _ & El)]; [done|].
  pose proof (serveLoop_terminates fuel cfg s2) as T. rewrite El in T. apply T.
  unfold input in *. rewrite R2. rewrite <- R, R1 in Hf. cbn [default] in *.
  simpl in Hf. rewrite zlen_app in Hf. simpl. pose proof (zlen_nonneg d). lia.
Qed.

Lemma Serve_panic fuel cfg s : (Serve fuel cfg s).1 = Panic ->
  (exists ctx request, authenticatorOf cfg ctx request = Panic) \/
  exists h k, (HandleCommand h k).1 = Panic.
Proof.
  pose proof (Serve_cases fuel cfg s) as C. destruct (Serve fuel cfg s) as [r s'].
  destruct C as [(_ & _ & N & _)|(s1 & s2 & response & packet & login & decision & _ & _ & _ & _ & _ & _ & El)];
    [by left; apply N|].
  intros Hr. right. pose proof (serveLoop_ran fuel cfg s2) as (? & ? & ? & ? & _ & _ & _ & _ & Hp & _).
  apply Hp. by rewrite El.
Qed.

(** The connection a login leads to. *)
Definition loggedIn (id : Z) (login : HandshakeResponse41) (decision : AuthDecision) : Connection :=
  mkConnection id ConnectionStateReady (ad_Username decision) (ad_Database decision)
    (ad_Roles decision) (ad_AuthPluginName decision) (hr_CapabilityFlags login).

Definition loginRequest (cfg : RunnerConfig) (id : Z) (login : HandshakeResponse41) : AuthRequest :=
  authRequestFromHandshake id (defaultPlugin cfg login) (h_AuthPluginData (rn_Handshake cfg)).

(** The commands after an accepted login. *)
Lemma accepted_loop fuel cfg s s1 s2 response packet login decision r s' :
  greeted cfg s s1 -> authenticated cfg s1 response s2 packet login decision ->
  ad_Accepted decision = true -> serveLoop fuel cfg s2 = (r, s') ->
  cn_ID (s_Connection s1) = cn_ID (s_Connection s) /\
  loop_ran (loggedIn (cn_ID (s_Connection s)) login decision) s2 r s'.
Proof.
  intros (? & ? & _ & _ & _ & G) (_ & _ & _ & _ & Hc & _) Acc El.
  pose proof (serveLoop_ran fuel cfg s2) as L. rewrite El in L.
  rewrite Acc, G in Hc. rewrite Hc in L. by rewrite G.
Qed.

Lemma Serve_calls fuel cfg s : let s' := (Serve fuel cfg s).2 in
  s_calls s' = s_calls s \/
  exists packet d login ctx decision ps sent rest,
    input s = d ++ sent ++ rest /\ EncodePacket packet = Ok d /\ Framed ps sent /\
    DecodeHandshakeResponse41 (Payload packet) = Ok login /\
    authenticatorOf cfg ctx (loginRequest cfg (cn_ID (s_Connection s)) login) = Ok decision /\
    ad_Accepted decision = true /\
    s_calls s' = s_calls s ++ omap (called (loggedIn (cn_ID (s_Connection s)) login decision)) ps.
Proof.
  pose proof (Serve_cases fuel cfg s) as C. destruct (Serve fuel cfg s) as [r s']. cbn zeta.
  destruct C as [[C _]|(s1 & s2 & response & packet & login & decision & G & C1 & C2 & R & A & Acc & El)];
    [by left|right].
  destruct (accepted_loop _ _ _ _ _ _ _ _ _ _ _ G A Acc El) as [Hid L].
  destruct A as ((d & rest & Hd & R1 & R2) & Hl & (ctx & Ha) & _).
  destruct L as (ps & rs & sent & rest' & Hf & Hi & _ & Hk & _).
  exists packet, d, login, ctx, decision, ps, sent, rest'. unfold loginRequest. rewrite <- Hid.
  split_and!; try done.
  - unfold input in *. rewrite <- R, R1. rewrite R2 in Hi. simpl in *. by rewrite Hi.
  - simpl. by rewrite Hk, C1, Hid.
Qed.

Lemma called_identity l (ps : list Packet) k : k ∈ omap (called l) ps ->
  c_ConnectionID k = cn_ID l /\ c_Username k = cn_Username l /\ c_Database k = cn_Database l /\
  c_Roles k = cn_Roles l.
Proof.
  rewrite list_elem_of_omap. intros (p & _ & E). unfold called in E.
  destruct (DecodeCommand (Payload p)); by simplify_eq.
Qed.

Lemma Serve_static accounts fuel cfg s k :
  rn_Authenticator cfg = Some (Authenticate (StaticAuthenticator accounts)) ->
  s_calls s = [] -> k ∈ s_calls (Serve fuel cfg s).2 ->
  exists packet d rest login account,
    input s = d ++ rest /\ EncodePacket packet = Ok d /\
    DecodeHandshakeResponse41 (Payload packet) = Ok login /\
    c_ConnectionID k = cn_ID (s_Connection s) /\ c_Username k = hr_Username login /\
    first_named accounts (c_Username k) account /\
    proves_credential account (loginRequest cfg (cn_ID (s_Connection s)) login) /\
    c_Roles k = ac_Roles account.
Proof.
  intros Ha Hs Hk. destruct (Serve_calls fuel cfg s) as [E|(packet & d & login & ctx & decision & ps & sent &
    rest & Hi & Hd & Hf & Hl & Hdec & Hacc & E)]; rewrite E, Hs in Hk; [set_solver|].
  simpl in Hk. apply called_identity in Hk as (K1 & K2 & K3 & K4). cbn in K1, K2, K3, K4.
  unfold authenticatorOf in Hdec. rewrite Ha in Hdec. destruct ctx as [e|]; [done|].
  apply Authenticate_static in Hdec as [(_ & account & Hfind%findAccount_iff & Hp & Hu & Hr & _)|(Hacc' & _)];
    [|congruence].
  assert (Hname : ad_Username decision = hr_Username login).
  { rewrite Hu. unfold loginRequest, defaultPlugin. by case_decide. }
  exists packet, d, (sent ++ rest), login, account. split_and!; try done; congruence.
Qed.

(** The packets of a session that ended normally: the client sends [login_packet :: ps],
    the server the greeting, the response [auth] and the responses [rs]. *)
Definition transcript (cfg : RunnerConfig) (s s' : Session) : Prop :=
  exists greeting login_packet login ctx decision auth ps rs sent out,
    HandshakePayload (rn_Handshake cfg) = Ok greeting /\
    DecodeHandshakeResponse41 (Payload login_packet) = Ok login /\
    authenticatorOf cfg ctx (loginRequest cfg (cn_ID (s_Connection s)) login) = Ok decision /\
    (r_Kind auth = CommandResponseError <-> ad_Accepted decision = false) /\
    (if ad_Accepted decision then
       let l := loggedIn (cn_ID (s_Connection s)) login decision in
       converse l (s_handler s) ps = Some (rs, s_handler s') /\ closed_by_last rs /\
       s_calls s' = s_calls s ++ omap (called l) ps
     else ps = [] /\ rs = [] /\ s_handler s' = s_handler s /\ s_calls s' = s_calls s) /\
    input s = sent ++ input s' /\ Framed (login_packet :: ps) sent /\
    output s' = output s ++ out /\
    Framed (mkPacket (byte_of 0) greeting :: r_Packets auth ++ concat (map r_Packets rs)) out.

(** The two phases of a session joined; [s3] is where the loop left it. *)
Lemma transcript_join cfg s s1 s2 response packet login decision ps rs sent out s' :
  greeted cfg s s1 -> Reader (s_Stream s1) = Reader (s_Stream s) ->
  authenticated cfg s1 response s2 packet login decision ->
  (if ad_Accepted decision then
     let l := loggedIn (cn_ID (s_Connection s)) login decision in
     converse l (s_handler s) ps = Some (rs, s_handler s') /\ closed_by_last rs /\
     s_calls s' = s_calls s ++ omap (called l) ps
   else ps = [] /\ rs = [] /\ s_handler s' = s_handler s /\ s_calls s' = s_calls s) ->
  Framed ps sent -> input s2 = sent ++ input s' ->
  Framed (concat (map r_Packets rs)) out -> output s' = output s2 ++ out ->
  transcript cfg s s'.
Proof.
  intros (greeting & g & Hg & Hge & Hgo & Hgc) R
    ((d & rest & Hd & R1 & R2) & Hl & (ctx & Ha) & (a & Hfa & Hoa) & Hc & Hkind) Hv Hf Hi Hfo Hout.
  exists greeting, packet, login, ctx, decision, response, ps, rs, (d ++ sent), (g ++ a ++ out).
  rewrite Hgc in Ha. split_and!; try done.
  - unfold input in *. rewrite <- R, R1. rewrite R2 in Hi. simpl in *. by rewrite Hi, app_assoc.
  - by constructor.
  - by rewrite Hout, Hoa, Hgo, !app_assoc.
  - constructor; [done|]. by apply Framed_app.
Qed.

Lemma Serve_transcript fuel cfg s s' : Serve fuel cfg s = (Ok (Some tt), s') -> transcript cfg s s'.
Proof.
  intros E. pose proof (Serve_cases fuel cfg s) as C. rewrite E in C.
  destruct C as [(C1 & C2 & _ & _ & Hok)|(s1 & s2 & response & packet & login & decision & G & C1 & C2 & R &
    A & Acc & El)].
  - destruct (Hok eq_refl) as (s1 & s2 & response & packet & login & decision & G & R & A & Acc & Hst).
    apply (transcript_join cfg s s1 s2 response packet login decision [] [] [] []); try done.
    + by rewrite Acc.
    + constructor.
    + unfold input. by rewrite Hst.
    + constructor.
    + unfold output. by rewrite Hst, app_nil_r.
  - destruct (accepted_loop _ _ _ _ _ _ _ _ _ _ _ G A Acc El)
      as [_ (ps & rs & sent & rest & Hf & Hi & Hv & Hk & _ & Hend)].
    destruct (Hend eq_refl) as (-> & Hcl & _ & out & Hfo & Hout).
    apply (transcript_join cfg s s1 s2 response packet login decision ps rs sent out); try done.
    rewrite Acc, <- C2, <- C1. cbn zeta. by rewrite Hv.
Qed.

(** ** Lemmas: logins over a working transport *)

Lemma read_works s p d rest w : s_ctx s = [] -> EncodePacket p = Ok d ->
  s_Stream s = mkStream (Some (d ++ rest)) w ->
  streamReadPacket s = (Ok p, mkSession (s_Connection s) (mkStream (Some rest) w) [] (s_handler s)
    (s_calls s) (s_log s)).
Proof.
  intros Hctx Hd Hst. destruct s as [c st ctx h k g]. simpl in Hctx, Hst. subst.
  unfold streamReadPacket, mbind, stgo_bind, ctxErr, onStream. cbn [s_ctx s_Stream].
  by rewrite (proj2 (ReadPacket_ok _ _ p (mkStream (Some rest) w))) by eauto.
Qed.

Lemma write_works s p d w : s_ctx s = [] -> EncodePacket p = Ok d ->
  StreamWriter (s_Stream s) = Some w -> reliable w ->
  exists s', writeResponsePackets [p] s = (Ok tt, s').
Proof.
  intros Hctx Hd Hw Hr. destruct s as [c st ctx h k g]. simpl in Hctx, Hw. subst.
  destruct (reliable_Write w d Hr) as (os & HW & _).
  unfold writeResponsePackets, streamWritePacket, mbind, stgo_bind, ctxErr, onStream. cbn [s_ctx s_Stream].
  rewrite (proj2 (WritePacket_ok st p (mkStream (Reader st) (Some (mkWriter (written w ++ d) os)))))
    by eauto 10.
  eauto.
Qed.

Lemma ctx_works {B} (f : option error -> sess B) s : s_ctx s = [] -> (ctxErr ≫= f) s = f None s.
Proof. intros E. unfold mbind, stgo_bind, ctxErr. by rewrite E. Qed.

Lemma authOK_encodes name caps seq : exists p d,
  clonePacketsWithSequence (r_Packets (AuthSuccessResponse name caps)) seq = [p] /\ EncodePacket p = Ok d.
Proof.
  unfold AuthSuccessResponse, WithCapabilities, OKPacketWithCapabilities, OKPayloadWithCapabilities. simpl.
  destruct (has_flag caps CapabilitySessionTrack); eexists _, _; by split.
Qed.

Lemma accept_works cfg s packet d rest w login decision : rn_hasStream cfg = true ->
  cn_State (s_Connection s) = ConnectionStateHandshakeSent -> s_ctx s = [] ->
  s_Stream s = mkStream (Some (d ++ rest)) (Some w) -> reliable w ->
  EncodePacket packet = Ok d -> DecodeHandshakeResponse41 (Payload packet) = Ok login ->
  authenticatorOf cfg None (loginRequest cfg (cn_ID (s_Connection s)) login) = Ok decision ->
  ad_Accepted decision = true ->
  exists r s', runnerAcceptHandshakeResponse cfg s = (Ok r, s') /\
    s_Connection s' = loggedIn (cn_ID (s_Connection s)) login decision.
Proof.
  intros Hcfg Hstate Hctx Hst Hw Hd Hl Ha Hacc.
  unfold runnerAcceptHandshakeResponse, requireStream. rewrite Hcfg, bind_lift.
  rewrite (bind_run _ _ _ _ _ (read_works _ _ _ _ _ Hctx Hd Hst)), bind_lift, Hl.
  rewrite bind_getConnection, bind_lift. cbn [s_Connection]. unfold AcceptHandshakeResponse.
  rewrite decide_False by (rewrite Hstate; tauto). cbn [mret go_ret].
  rewrite ctx_works, bind_lift by done. cbn [cn_ID].
  unfold loginRequest in Ha. rewrite Ha, Hacc. cbn [negb]. rewrite bind_lift.
  unfold AcceptPermissiveAuth. cbn [cn_State]. rewrite decide_False by tauto. cbn [mret go_ret].
  destruct (authOK_encodes (cn_AuthPluginName (loggedIn (cn_ID (s_Connection s)) login decision))
    (hr_CapabilityFlags (defaultPlugin cfg login)) (ub (SequenceID packet) + 1)) as (p & dp & Ep & Hdp).
  cbn [cn_AuthPluginName cn_CapabilityFlags loggedIn with_packets r_Packets] in *. rewrite Ep.
  edestruct (write_works (mkSession (s_Connection s) (mkStream (Some rest) (Some w)) [] (s_handler s)
    (s_calls s) (s_log s)) p) as [s' Hs']; [done..|].
  rewrite (bind_run _ _ _ _ _ Hs'). eexists _, _. split; [reflexivity|].
  unfold set_state, loggedIn, defaultPlugin. simpl. by case_decide.
Qed.

(** ** Lemmas: every connection uses the same challenge *)

Definition staticConfig (version : bytes) (accounts : list StaticAccount) (logger : bool) (id : Z)
    : RunnerConfig :=
  (connSessionRunner version (Some (Authenticate (StaticAuthenticator accounts))) logger id).1.

(** The decision on a login does not depend on the connection. *)
Lemma static_decision_shared version accounts logger ctx id1 id2 c1 c2 login decision :
  authenticatorOf (staticConfig version accounts logger id1) ctx
    (loginRequest (staticConfig version accounts logger id1) c1 login) = Ok decision ->
  authenticatorOf (staticConfig version accounts logger id2) None
    (loginRequest (staticConfig version accounts logger id2) c2 login) = Ok decision.
Proof. destruct ctx as [e|]; [done|]. intros <-. reflexivity. Qed.

Lemma login_replays version accounts logger id1 id2 s1 r1 s1' s2 d rest w :
  runnerAcceptHandshakeResponse (staticConfig version accounts logger id1) s1 = (Ok r1, s1') ->
  CanAcceptCommand (s_Connection s1') = true -> input s1 = d ++ input s1' ->
  cn_State (s_Connection s2) = ConnectionStateHandshakeSent -> s_ctx s2 = [] ->
  s_Stream s2 = mkStream (Some (d ++ rest)) (Some w) -> reliable w ->
  exists r2 s2', runnerAcceptHandshakeResponse (staticConfig version accounts logger id2) s2 = (Ok r2, s2') /\
    CanAcceptCommand (s_Connection s2') = true /\
    cn_Username (s_Connection s2') = cn_Username (s_Connection s1') /\
    cn_Database (s_Connection s2') = cn_Database (s_Connection s1') /\
    cn_Roles (s_Connection s2') = cn_Roles (s_Connection s1').
Proof.
  intros E1 Hready Hd Hstate Hctx Hst Hw. apply accept_step in E1 as (_ & _ & _ & A).
  destruct (A _ eq_refl) as (packet & login & decision & (d' & rest' & Hp & R1 & R2) & Hl & (ctx & Ha) & _ & Hc & _).
  assert (d = d') as ->.
  { unfold input in Hd. rewrite R1, R2 in Hd. simpl in Hd. by apply app_inv_tail in Hd. }
  destruct (ad_Accepted decision) eqn:Hacc; rewrite Hc in Hready; [|by apply bool_decide_eq_true in Hready].
  edestruct (accept_works (staticConfig version accounts logger id2) s2 packet d' rest w login decision)
    as (r2 & s2' & E2 & Hc2); try done.
  { by eapply static_decision_shared. }
  exists r2, s2'. by rewrite Hc2, Hc.
Qed.

End Runner.

(** ** A concrete session

    An account, a client that logs in and sends a ping
    and a quit. *)

Definition sampleAccounts : list StaticAccount :=
  [StaticAccountWithPasswordVerifiers (str "root") (str "secret") (str "shop")].

(** The response of a client that knows the password of [root]. *)
Definition sampleLogin : bytes :=
  clientResponse (replicate 23 (byte_of 0))
    (mkResponse41 defaultCapabilityFlags 16777216 (byte_of 45) (str "root")
       (mysqlNativePasswordToken defaultChallenge (str "secret")) [] (str "mysql_native_password")).

Definition frame (seq : Z) (payload : bytes) : bytes :=
  match EncodePacket (mkPacket (byte_of seq) payload) with Ok d => d | _ => [] end.

Definition sampleInput : bytes :=
  frame 1 sampleLogin ++ frame 0 [byte_of CommandPing] ++ frame 0 [byte_of CommandQuit].

(** A handler that counts the commands, answering pings and closing on quit. *)
Definition countingHandler (n : Z) (c : Command) : go CommandResponse * Z :=
  (Ok (if decide (c_Kind c = CommandKindQuit) then QuitResponse else PingResponse), n + 1).

Definition sampleSession (c : Connection) (input : bytes) : Session :=
  mkSession c (mkStream (Some input) (Some (mkWriter [] []))) [] 0 [] [].

Definition sampleConfig (id : Z) : RunnerConfig :=
  @staticConfig asciiText (str "0.1.3") sampleAccounts true id.

Definition sampleStart : Session := sampleSession (NewConnection 7) sampleInput.

Definition sampleEnd : Session := (@Serve asciiText Z countingHandler 300 (sampleConfig 7) sampleStart).2.

(** A session that has sent its greeting to the client. *)
Definition sampleGreeted (id : Z) : Session :=
  sampleSession (set_state (NewConnection id) ConnectionStateHandshakeSent) sampleInput.

(** ** Properties *)

(** C7. With static accounts, a command reaches the handler only in a session
    whose first packet is a handshake response that proves the credential of a
    configured account for this server's challenge; the command carries the user
    name and the roles of that account and the identifier of this connection,
    whatever the client sends and however the transport and the context fail. *)
Theorem no_command_without_credential `{TextLib} {HS} HandleCommand accounts fuel cfg (s : @Session HS) k :
  rn_Authenticator cfg = Some (Authenticate (StaticAuthenticator accounts)) ->
  s_calls s = [] -> k ∈ s_calls (Serve HandleCommand fuel cfg s).2 ->
  exists packet d rest login account,
    input s = d ++ rest /\ EncodePacket packet = Ok d /\
    DecodeHandshakeResponse41 (Payload packet) = Ok login /\
    c_ConnectionID k = cn_ID (s_Connection s) /\ c_Username k = hr_Username login /\
    first_named accounts (c_Username k) account /\
    proves_credential account (loginRequest cfg (cn_ID (s_Connection s)) login) /\
    c_Roles k = ac_Roles account.
Proof. apply Serve_static. Qed.

Lemma no_command_without_credential_witness :
  let k := with_identity (s_Connection sampleEnd) (bare_command CommandKindPing [] [] [] 0) in
  exists packet d rest login account,
    input sampleStart = d ++ rest /\ EncodePacket packet = Ok d /\
    DecodeHandshakeResponse41 (Payload packet) = Ok login /\
    c_ConnectionID k = cn_ID (s_Connection sampleStart) /\ c_Username k = hr_Username login /\
    first_named sampleAccounts (c_Username k) account /\
    proves_credential account (loginRequest (sampleConfig 7) (cn_ID (s_Connection sampleStart)) login) /\
    c_Roles k = ac_Roles account.
Proof.
  intros k.
  apply (@no_command_without_credential asciiText Z countingHandler sampleAccounts 300 (sampleConfig 7)
    sampleStart k); [reflexivity|reflexivity|].
  apply list_elem_of_In. vm_compute. left. reflexivity.
Defined.

(** For every authenticator: the commands of a session are exactly those of
    the packets that follow the login in the input, in order, each stamped with
    the identity of the decision; without an accepting decision there is none. *)
Theorem commands_follow_accepted_login `{TextLib} {HS} HandleCommand fuel cfg (s : @Session HS) :
  let s' := (Serve HandleCommand fuel cfg s).2 in
  s_calls s' = s_calls s \/
  exists packet d login ctx decision ps sent rest,
    input s = d ++ sent ++ rest /\ EncodePacket packet = Ok d /\ Framed ps sent /\
    DecodeHandshakeResponse41 (Payload packet) = Ok login /\
    authenticatorOf cfg ctx (loginRequest cfg (cn_ID (s_Connection s)) login) = Ok decision /\
    ad_Accepted decision = true /\
    s_calls s' = s_calls s ++ omap (called (loggedIn (cn_ID (s_Connection s)) login decision)) ps.
Proof. apply Serve_calls. Qed.

(** C8. A session that ends normally has the transcript of the protocol: the
    client's bytes are a login and commands, the server's bytes the greeting,
    the answer to the login and the handler's answers, each in full, in order
    and nothing else; only the last answer closes the session, and after a
    refused login nothing follows. *)
Theorem session_transcript `{TextLib} {HS} HandleCommand fuel cfg (s s' : @Session HS) :
  Serve HandleCommand fuel cfg s = (Ok (Some tt), s') -> transcript HandleCommand cfg s s'.
Proof. apply Serve_transcript. Qed.

Lemma session_transcript_witness :
  @transcript asciiText Z countingHandler (sampleConfig 7) sampleStart sampleEnd.
Proof.
  apply (@session_transcript asciiText Z countingHandler 300). vm_compute. reflexivity.
Defined.

(** C23. A session ends: with more fuel than bytes of input it returns normally,
    with an error or with a panic, and a panic is one of the authenticator or of
    the command handler, so no input makes the session itself panic. *)
Theorem session_terminates `{TextLib} {HS} HandleCommand fuel cfg (s : @Session HS) :
  zlen (input s) < Z.of_nat fuel ->
  (Serve HandleCommand fuel cfg s).1 = Ok (Some tt) \/
  (exists e, (Serve HandleCommand fuel cfg s).1 = Err e) \/
  ((Serve HandleCommand fuel cfg s).1 = Panic /\
   ((exists ctx request, authenticatorOf cfg ctx request = Panic) \/
    exists h k, (HandleCommand h k).1 = Panic)).
Proof.
  intros Hf. pose proof (Serve_terminates HandleCommand fuel cfg s Hf) as T.
  pose proof (Serve_panic HandleCommand fuel cfg s) as P.
  destruct (Serve HandleCommand fuel cfg s).1 as [[[]|]|e|]; eauto; done.
Qed.

Lemma session_terminates_witness :
  let run := @Serve asciiText Z countingHandler 300 (sampleConfig 7) sampleStart in
  run.1 = Ok (Some tt) \/ (exists e, run.1 = Err e) \/
  (run.1 = Panic /\
   ((exists ctx request, @authenticatorOf asciiText (sampleConfig 7) ctx request = Panic) \/
    exists h k, (countingHandler h k).1 = Panic)).
Proof.
  apply (@session_terminates asciiText Z countingHandler 300 (sampleConfig 7) sampleStart).
  vm_compute. reflexivity.
Defined.

(** C34. The listener gives every connection the same challenge, so a login
    packet seen once logs in again: the bytes of a handshake response accepted
    on one connection are accepted, with the same identity, on every other. *)
Theorem captured_login_replays `{TextLib} {HS} version accounts logger id1 id2
    (s1 s1' s2 : @Session HS) r1 d rest w :
  runnerAcceptHandshakeResponse (staticConfig version accounts logger id1) s1 = (Ok r1, s1') ->
  CanAcceptCommand (s_Connection s1') = true -> input s1 = d ++ input s1' ->
  cn_State (s_Connection s2) = ConnectionStateHandshakeSent -> s_ctx s2 = [] ->
  s_Stream s2 = mkStream (Some (d ++ rest)) (Some w) -> reliable w ->
  exists r2 s2',
    runnerAcceptHandshakeResponse (staticConfig version accounts logger id2) s2 = (Ok r2, s2') /\
    CanAcceptCommand (s_Connection s2') = true /\
    cn_Username (s_Connection s2') = cn_Username (s_Connection s1') /\
    cn_Database (s_Connection s2') = cn_Database (s_Connection s1') /\
    cn_Roles (s_Connection s2') = cn_Roles (s_Connection s1').
Proof. apply login_replays. Qed.

Lemma captured_login_replays_witness :
  let s1' := (@runnerAcceptHandshakeResponse asciiText Z (sampleConfig 7) (sampleGreeted 7)).2 in
  exists r2 s2',
    @runnerAcceptHandshakeResponse asciiText Z (sampleConfig 8) (sampleGreeted 8) = (Ok r2, s2') /\
    CanAcceptCommand (s_Connection s2') = true /\
    cn_Username (s_Connection s2') = cn_Username (s_Connection s1') /\
    cn_Database (s_Connection s2') = cn_Database (s_Connection s1') /\
    cn_Roles (s_Connection s2') = cn_Roles (s_Connection s1').
Proof.
  intros s1'.
  apply (@captured_login_replays asciiText Z (str "0.1.3") sampleAccounts true 7 8 (sampleGreeted 7) s1'
    (sampleGreeted 8) (with_packets (AuthSuccessResponse [] defaultCapabilityFlags)
       (clonePacketsWithSequence (r_Packets (AuthSuccessResponse [] defaultCapabilityFlags)) 2))
    (frame 1 sampleLogin) (frame 0 [byte_of CommandPing] ++ frame 0 [byte_of CommandQuit]) (mkWriter [] [])).
  - vm_compute. reflexivity.
  - vm_compute. reflexivity.
  - vm_compute. reflexivity.
  - reflexivity.
  - reflexivity.
  - vm_compute. reflexivity.
  - constructor.
Defined.
