(* ===== verification/AccountFile.v ===== *)
(** * Account files

    The files of static accounts (qsmysql/auth_file.go) and the configuration
    that selects an authenticator (qsmysql/auth_config.go), over the model of
    files in GoFs.  The YAML library is an interface: [YAML] names its two
    operations on account lists, [YAML_roundtrip] what the code relies on. *)

From S2P Require Import Prelude GoState GoFs GoStd Wire Command Handshake Response Hash Auth.

(** [yaml.Marshal] and [yaml.UnmarshalStrict] at [StaticAccountFile]. *)
Class YAML : Type := {
  yaml_Marshal : list StaticAccount -> go bytes;
  yaml_UnmarshalStrict : bytes -> go (list StaticAccount) }.

(** Unmarshalling what was marshalled gives it back. *)
Definition YAML_roundtrip (Y : YAML) : Prop :=
  forall accounts data, yaml_Marshal accounts = Ok data -> yaml_UnmarshalStrict data = Ok accounts.

Section Files.

Context `{TL : TextLib} `{Y : YAML}.

Definition pathEmpty : error := Errorf "mysql static auth account file path is empty" [].

Definition DecodeStaticAccountFile (data : bytes) : go (list StaticAccount) :=
  accounts ← yaml_UnmarshalStrict data;
  validateStaticAccounts accounts.

Definition LoadStaticAccountFile (path : bytes) : io (list StaticAccount) :=
  let path := TrimSpace path in
  if decide (path = []) then lift (Err pathEmpty)
  else data ← ReadFile path; lift (DecodeStaticAccountFile data).

Definition SaveStaticAccountFile (path : bytes) (accounts : list StaticAccount) : io unit :=
  let path := TrimSpace path in
  if decide (path = []) then lift (Err pathEmpty)
  else
    normalized ← lift (validateStaticAccounts accounts);
    data ← lift (yaml_Marshal normalized);
    MkdirAll ≫= fun _ =>
    WriteFile path data.

(** The loop that replaces the first account with the name, or appends. *)
Fixpoint replaceAccount (accounts : list StaticAccount) (account : StaticAccount) : list StaticAccount :=
  match accounts with
  | [] => [account]
  | a :: accounts =>
    if decide (ac_Username a = ac_Username account) then account :: accounts
    else a :: replaceAccount accounts account
  end.

Definition trimAccount (account : StaticAccount) : StaticAccount :=
  mkAccount (TrimSpace (ac_Username account)) (ac_Password account)
    (ac_MySQLNativePasswordVerifier account) (ac_CachingSHA2PasswordVerifier account)
    (TrimSpace (ac_DefaultDatabase account)) (ac_Roles account).

(** The accounts to change; [os.Stat] is asked about the path as given, the other
    operations trim it. *)
Definition existingAccounts (path : bytes) : io (list StaticAccount) :=
  stat ← try_ (Stat path);
  match stat with
  | inl _ => LoadStaticAccountFile path
  | inr ErrNotExist => mret []
  | inr e => lift (Err e)
  end.

Definition UpsertStaticAccountFile (path : bytes) (account : StaticAccount) : io (list StaticAccount) :=
  accounts ← existingAccounts path;
  let accounts := replaceAccount accounts (trimAccount account) in
  SaveStaticAccountFile path accounts ≫= fun _ =>
  mret accounts.

Definition RemoveStaticAccountFile (path username : bytes) : io (list StaticAccount * bool) :=
  accounts ← LoadStaticAccountFile path;
  let username := TrimSpace username in
  let remaining := List.filter (fun a => negb (bool_decide (ac_Username a = username))) accounts in
  let removed := existsb (fun a => bool_decide (ac_Username a = username)) accounts in
  if negb removed then mret (accounts, false)
  else if zlen remaining =? 0
  then lift (Err (Errorf "cannot remove the last mysql static auth account" []))
  else SaveStaticAccountFile path remaining ≫= fun _ => mret (remaining, true).

(** ** Configuration *)

Definition AuthModePermissive : bytes := str "permissive".
Definition AuthModeStatic : bytes := str "static".
Definition defaultAuthUser : bytes := str "qstream".

Record AuthConfig : Type := mkAuthConfig {
  af_Mode : bytes;
  af_Username : bytes;
  af_Password : bytes;
  af_Database : bytes;
  af_AccountFile : bytes }.

Definition AuthConfigWithDefaults (c : AuthConfig) (defaultDatabase : bytes) : AuthConfig :=
  mkAuthConfig (ToLower (TrimSpace (af_Mode c)))
    (if decide (TrimSpace (af_Username c) = []) then defaultAuthUser else af_Username c)
    (af_Password c)
    (if decide (TrimSpace (af_Database c) = []) then TrimSpace defaultDatabase else af_Database c)
    (af_AccountFile c).

Definition ConfigAuthenticator (c : AuthConfig) (defaultDatabase : bytes) : io Authenticator :=
  let c := AuthConfigWithDefaults c defaultDatabase in
  if decide (af_Mode c = []) then
    lift (Err (Errorf "mysql auth mode is required; choose %q for isolated local evaluation or %q with configured credentials"
                 [AStr (Quote AuthModePermissive); AStr (Quote AuthModeStatic)]))
  else if decide (af_Mode c = AuthModePermissive) then mret (PermissiveAuthenticator (af_Database c))
  else if decide (af_Mode c = AuthModeStatic) then
    if decide (TrimSpace (af_AccountFile c) <> []) then
      loaded ← try_ (LoadStaticAccountFile (af_AccountFile c));
      match loaded with
      | inl accounts => mret (StaticAuthenticator accounts)
      | inr e => lift (Err (Errorf "load mysql static auth account file: %w" [AErr e]))
      end
    else mret (StaticAuthenticator [mkAccount (af_Username c) (af_Password c) [] [] (af_Database c) []])
  else lift (Err (Errorf "unsupported mysql auth mode %q" [AStr (Quote (af_Mode c))])).

(** [strings.Trim] with the characters "[" and "]". *)
Fixpoint trimBracketsLeft (s : bytes) : bytes :=
  match s with
  | b :: rest => if (ub b =? 91) || (ub b =? 93) then trimBracketsLeft rest else s
  | [] => []
  end.

Definition trimBrackets (s : bytes) : bytes := rev (trimBracketsLeft (rev (trimBracketsLeft s))).

Definition ValidateModeForBind (mode bindAddress : bytes) : go unit :=
  if negb (bool_decide (ToLower (TrimSpace mode) = AuthModePermissive)) then mret tt
  else
    let host := trimBrackets (TrimSpace bindAddress) in
    if EqualFold host (str "localhost") then mret tt
    else match LoopbackIP host with
         | Some true => mret tt
         | _ => Err (Errorf "mysql auth mode %q requires a loopback bind; use %q with configured credentials for bind address %q"
                       [AStr (Quote AuthModePermissive); AStr (Quote AuthModeStatic); AStr (Quote bindAddress)])
         end.

Definition SummaryMode (c : AuthConfig) (defaultDatabase : bytes) : bytes :=
  af_Mode (AuthConfigWithDefaults c defaultDatabase).

Definition SummaryUser (c : AuthConfig) (defaultDatabase : bytes) : bytes :=
  let c := AuthConfigWithDefaults c defaultDatabase in
  if bool_decide (af_Mode c <> AuthModeStatic) || bool_decide (TrimSpace (af_AccountFile c) <> [])
  then [] else af_Username c.

Definition SummaryAccountFile (c : AuthConfig) (defaultDatabase : bytes) : bytes :=
  let c := AuthConfigWithDefaults c defaultDatabase in
  if decide (af_Mode c <> AuthModeStatic) then [] else TrimSpace (af_AccountFile c).

(** ** Lemmas: what validation accepts *)

(** An account with its text fields trimmed. *)
Definition norm (a : StaticAccount) : StaticAccount :=
  mkAccount (TrimSpace (ac_Username a)) (ac_Password a)
    (TrimSpace (ac_MySQLNativePasswordVerifier a)) (TrimSpace (ac_CachingSHA2PasswordVerifier a))
    (TrimSpace (ac_DefaultDatabase a)) (map TrimSpace (ac_Roles a)).

(** What a trimmed account must satisfy: a user name, distinct roles that are not
    empty, and verifiers that are absent or the digest size in hexadecimal. *)
Record acceptable (a : StaticAccount) : Prop := {
  acc_user : ac_Username a <> [];
  acc_roles : Forall (fun r => r <> []) (ac_Roles a) /\ NoDup (ac_Roles a);
  acc_native : invalidVerifier (ac_MySQLNativePasswordVerifier a) sha1VerifierSize = false;
  acc_sha2 : invalidVerifier (ac_CachingSHA2PasswordVerifier a) sha256VerifierSize = false }.

Lemma Forall_not_seen (x : bytes) (seen : gset bytes) (l : list bytes) :
  Forall (fun y => y ∉ {[x]} ∪ seen) l <-> (x ∉ l) /\ Forall (fun y => y ∉ seen) l.
Proof.
  rewrite !Forall_forall. split.
  - intros Hl. split; [|intros y Hy]; [intros Hx; apply (Hl x Hx)|specialize (Hl y Hy)]; set_solver.
  - intros [Hx Hl] y Hy [->%elem_of_singleton|Hs]%elem_of_union; [done|by apply (Hl y)].
Qed.

Lemma normalizeRoles_iff roles : forall seen rs, normalizeRoles seen roles = Ok rs <->
  rs = map TrimSpace roles /\ Forall (fun r => r <> []) rs /\ NoDup rs /\ Forall (fun r => r ∉ seen) rs.
Proof.
  induction roles as [|r roles IH]; intros seen rs; cbn [normalizeRoles map].
  { split; [intros [= <-]; repeat split; constructor|by intros (-> & _)]. }
  case_decide as E1; [split; [done|]; intros (-> & Hn & _); by apply Forall_cons in Hn as []|].
  case_decide as E2; [split; [done|]; intros (-> & _ & _ & Hs); by apply Forall_cons in Hs as []|].
  rewrite bind_Ok_iff. setoid_rewrite IH. setoid_rewrite Forall_not_seen. split.
  - intros (rest & (-> & Hn & Hd & Hx & Hs) & [= <-]).
    by split_and!; [|constructor|constructor|constructor].
  - intros (-> & [_ Hn]%Forall_cons & [Hx Hd]%NoDup_cons & [_ Hs]%Forall_cons). eauto 10.
Qed.

(** The checks on one account, in the order of the loop. *)
Lemma roles_acceptable a : acceptable (norm a) ->
  normalizeStaticAccountRoles (ac_Roles a) = Ok (ac_Roles (norm a)).
Proof.
  intros [_ [Hr Hd] _ _]. apply normalizeRoles_iff. split_and!; try done. by apply Forall_forall.
Qed.

Lemma validateAccounts_iff accounts : forall seen i ns, validateAccounts seen i accounts = Ok ns <->
  ns = map norm accounts /\ Forall acceptable ns /\ NoDup (map ac_Username ns) /\
  Forall (fun u => u ∉ seen) (map ac_Username ns).
Proof.
  induction accounts as [|a accounts IH]; intros seen i ns; cbn [validateAccounts map].
  { split; [intros [= <-]; repeat split; constructor|by intros (-> & _)]. }
  destruct (normalizeStaticAccountRoles (ac_Roles a)) as [roles|e|] eqn:Er.
  2,3: split; [done|]; intros (-> & [Ha%roles_acceptable _]%Forall_cons & _); congruence.
  apply normalizeRoles_iff in Er as (-> & Hr & Hd & _).
  case_decide as E1; [split; [done|]; intros (-> & [[Hu _ _ _] _]%Forall_cons & _); done|].
  case_decide as E2; [split; [done|]; intros (-> & _ & _ & [Hu _]%Forall_cons); done|].
  case_match eqn:E3; [split; [done|]; intros (-> & [[_ _ Hn _] _]%Forall_cons & _); simpl in Hn; congruence|].
  case_match eqn:E4; [split; [done|]; intros (-> & [[_ _ _ Hs] _]%Forall_cons & _); simpl in Hs; congruence|].
  rewrite bind_Ok_iff. setoid_rewrite IH. setoid_rewrite Forall_not_seen. split.
  - intros (rest & (-> & Ha & Hn & Hx & Hs) & [= <-]).
    split_and!; [done|by constructor; [split|]|by constructor|by constructor].
  - intros (-> & [_ Ha]%Forall_cons & [Hx Hn]%NoDup_cons & [_ Hs]%Forall_cons). eauto 10.
Qed.

Lemma validateStaticAccounts_iff accounts ns : validateStaticAccounts accounts = Ok ns <->
  accounts <> [] /\ ns = map norm accounts /\ Forall acceptable ns /\ NoDup (map ac_Username ns).
Proof.
  unfold validateStaticAccounts. destruct accounts as [|a accounts]; [split; [done|by intros []]|].
  rewrite (proj2 (Z.eqb_neq _ _)) by (rewrite zlen_cons; pose proof (zlen_nonneg accounts); lia).
  rewrite validateAccounts_iff. split; [by intros (? & ? & ? & _)|].
  intros (_ & ? & ? & ?). split_and!; try done. by apply Forall_forall.
Qed.

Lemma norm_idem a : norm (norm a) = norm a.
Proof.
  unfold norm. simpl. rewrite !TrimSpace_idem, map_map. f_equal.
  apply map_ext. intros. apply TrimSpace_idem.
Qed.

Lemma map_norm_idem accounts : map norm (map norm accounts) = map norm accounts.
Proof. rewrite map_map. apply map_ext, norm_idem. Qed.

Lemma validateStaticAccounts_idem accounts ns :
  validateStaticAccounts accounts = Ok ns -> validateStaticAccounts ns = Ok ns.
Proof.
  rewrite !validateStaticAccounts_iff. intros (Hne & -> & Ha & Hn). rewrite map_norm_idem.
  split_and!; try done. by destruct accounts.
Qed.

(** ** Lemmas: loading and saving *)

(** The accounts a file holds; none when there is no file. *)
Definition stored (fs : FS) (path : bytes) : go (list StaticAccount) :=
  match files fs !! path with
  | Some f => DecodeStaticAccountFile (contents f)
  | None => Err ErrNotExist
  end.

Lemma Decode_normal data ns : DecodeStaticAccountFile data = Ok ns ->
  map norm ns = ns /\ ns <> [] /\ Forall acceptable ns /\ NoDup (map ac_Username ns).
Proof.
  unfold DecodeStaticAccountFile. rewrite bind_Ok_iff.
  intros (accounts & _ & (Hne & -> & Ha & Hn)%validateStaticAccounts_iff).
  rewrite map_norm_idem. split_and!; try done. by destruct accounts.
Qed.

Lemma LoadStaticAccountFile_ok path fs accounts fs' : LoadStaticAccountFile path fs = (Ok accounts, fs') ->
  stored fs (TrimSpace path) = Ok accounts /\ files fs' = files fs /\ (honest fs -> honest fs').
Proof.
  unfold LoadStaticAccountFile. case_decide; [done|].
  destruct (ReadFile (TrimSpace path) fs) as [r fs1] eqn:E.
  apply ReadFile_cases in E as E'. destruct E' as (F & Hh & Hr).
  destruct r as [data|e|]; [rewrite (bind_run _ _ _ _ _ E)|by rewrite (bind_err _ _ _ _ _ E)|
    by unfold mbind, stgo_bind; rewrite E].
  intros [= Hd <-]. destruct (Hr data eq_refl) as (f & Hf & <-). unfold stored. by rewrite Hf.
Qed.

Lemma LoadStaticAccountFile_healthy path fs : healthy fs -> TrimSpace path <> [] ->
  exists fs', LoadStaticAccountFile path fs = (stored fs (TrimSpace path), fs') /\
    files fs' = files fs /\ healthy fs'.
Proof.
  intros Hf Hp. unfold LoadStaticAccountFile. rewrite decide_False by done.
  destruct (ReadFile_healthy (TrimSpace path) fs Hf) as (fs1 & E & F & H1). unfold stored.
  exists fs1. destruct (files fs !! TrimSpace path) as [f|];
    [by rewrite (bind_run _ _ _ _ _ E)|by rewrite (bind_err _ _ _ _ _ E)].
Qed.

Lemma SaveStaticAccountFile_ok path accounts fs fs' : YAML_roundtrip Y ->
  SaveStaticAccountFile path accounts fs = (Ok tt, fs') ->
  validateStaticAccounts accounts = Ok (map norm accounts) /\
  stored fs' (TrimSpace path) = Ok (map norm accounts) /\ (honest fs -> honest fs') /\
  forall other, other <> TrimSpace path -> files fs' !! other = files fs !! other.
Proof.
  intros HY. unfold SaveStaticAccountFile. case_decide; [done|]. rewrite bind_lift.
  destruct (validateStaticAccounts accounts) as [ns|e|] eqn:Ev; [|done..]. rewrite bind_lift.
  destruct (yaml_Marshal ns) as [data|e|] eqn:Em; [|done..].
  destruct (mayFail_cases (mret tt) fs) as (rest & Hh & [E|(e & E & _)]);
    [rewrite (bind_run MkdirAll _ _ _ _ E)|by rewrite (bind_err MkdirAll _ _ _ _ E)].
  intros Hw. apply WriteFile_ok in Hw as (F & Hh'). simpl in F.
  pose proof (validateStaticAccounts_idem _ _ Ev) as Hidem.
  apply validateStaticAccounts_iff in Ev as (_ & -> & _). unfold stored, DecodeStaticAccountFile.
  rewrite F, lookup_insert_eq. cbn [contents]. rewrite (HY _ _ Em). cbn [mbind go_bind].
  split_and!; [done..|intros Hf; by apply Hh', Hh|]. intros other Ho. by rewrite lookup_insert_ne.
Qed.

(** ** Lemmas: changing one account *)

Lemma findAccount_replace accounts account u :
  findAccount (replaceAccount accounts account) u =
    if decide (ac_Username account = u) then Some account else findAccount accounts u.
Proof.
  induction accounts as [|a accounts IH]; cbn [replaceAccount findAccount]; [done|].
  destruct (decide (ac_Username a = ac_Username account)); cbn [findAccount]; rewrite ?IH; clear IH;
    repeat case_decide; congruence.
Qed.

Lemma findAccount_norm accounts u : map norm accounts = accounts ->
  findAccount (map norm accounts) u = findAccount accounts u.
Proof. by intros ->. Qed.

Lemma map_norm_replace accounts account : map norm accounts = accounts ->
  map norm (replaceAccount accounts (trimAccount account)) = replaceAccount accounts (norm account).
Proof.
  assert (Ht : norm (trimAccount account) = norm account).
  { unfold norm, trimAccount. simpl. by rewrite !TrimSpace_idem. }
  induction accounts as [|a accounts IH]; cbn [replaceAccount map]; [by rewrite Ht|].
  intros [= Ha Hl]. change (ac_Username (trimAccount account)) with (ac_Username (norm account)).
  case_decide; cbn [map]; rewrite ?Ht, ?IH, ?Ha, ?Hl by done; done.
Qed.

(** The accounts before a change: those of the file, or none without a file. *)
Definition storedOrNone (fs : FS) (path : bytes) : go (list StaticAccount) :=
  match files fs !! path with
  | Some f => DecodeStaticAccountFile (contents f)
  | None => Ok []
  end.

Lemma existingAccounts_ok path fs accounts fs1 : honest fs -> TrimSpace path = path ->
  existingAccounts path fs = (Ok accounts, fs1) ->
  storedOrNone fs path = Ok accounts /\ map norm accounts = accounts /\ files fs1 = files fs /\ honest fs1.
Proof.
  intros Hf Hp. unfold existingAccounts. destruct (Stat path fs) as [r fs0] eqn:E. apply Stat_cases in E as E'.
  destruct E' as (F0 & H0 & Hok & Hno).
  destruct r as [n|e|]; [rewrite (bind_run _ _ _ _ _ (try_ok _ _ _ _ E))
    |rewrite (bind_run _ _ _ _ _ (try_err _ _ _ _ E))|by unfold mbind, stgo_bind, try_; rewrite E].
  - intros Hl. apply LoadStaticAccountFile_ok in Hl as (Hs & F1 & H1). rewrite Hp in Hs.
    destruct (Hok n eq_refl) as [f Hfile]. unfold stored in Hs. rewrite F0, Hfile in Hs.
    unfold storedOrNone. rewrite Hfile. split_and!; [done|by apply Decode_normal in Hs as (? & _)|congruence|auto].
  - destruct e; try done. intros [= <- <-]. unfold storedOrNone. rewrite (Hno Hf eq_refl). by split_and!; auto.
Qed.

Lemma Upsert_ok path account fs accounts fs' : YAML_roundtrip Y -> honest fs -> TrimSpace path = path ->
  UpsertStaticAccountFile path account fs = (Ok accounts, fs') ->
  exists old new, storedOrNone fs path = Ok old /\ stored fs' path = Ok new /\ honest fs' /\
    new = replaceAccount old (norm account).
Proof.
  intros HY Hf Hp. unfold UpsertStaticAccountFile.
  destruct (existingAccounts path fs) as [[old|e|] fs1] eqn:E1;
    [rewrite (bind_run _ _ _ _ _ E1)|by rewrite (bind_err _ _ _ _ _ E1)|
     by unfold mbind, stgo_bind; rewrite E1].
  apply existingAccounts_ok in E1 as (Hs & Hn & F1 & H1); [|done..].
  destruct (SaveStaticAccountFile path (replaceAccount old (trimAccount account)) fs1) as [[[]|e|] fs2] eqn:E2;
    [rewrite (bind_run _ _ _ _ _ E2)|by rewrite (bind_err _ _ _ _ _ E2)|
     by unfold mbind, stgo_bind; rewrite E2].
  intros [= _ <-]. apply SaveStaticAccountFile_ok in E2 as (_ & Hs2 & H2 & _); [|done].
  rewrite Hp, map_norm_replace in Hs2 by done. exists old, (replaceAccount old (norm account)).
  by split_and!; auto.
Qed.

Lemma findAccount_filter accounts u v :
  findAccount (List.filter (fun a => negb (bool_decide (ac_Username a = u))) accounts) v =
    if decide (v = u) then None else findAccount accounts v.
Proof.
  induction accounts as [|a accounts IH]; cbn [List.filter findAccount]; [by case_decide|].
  destruct (bool_decide_reflect (ac_Username a = u)); cbn [negb findAccount]; rewrite IH; clear IH;
    repeat case_decide; congruence.
Qed.

Lemma filter_norm (f : StaticAccount -> bool) accounts : map norm accounts = accounts ->
  map norm (List.filter f accounts) = List.filter f accounts.
Proof.
  induction accounts as [|a accounts IH]; [done|]. intros [= Ha Hl]. cbn [List.filter].
  destruct (f a); cbn [map]; by rewrite ?Ha, IH.
Qed.

Lemma Remove_ok path u fs remaining fs' : YAML_roundtrip Y -> honest fs ->
  RemoveStaticAccountFile path u fs = (Ok (remaining, true), fs') ->
  exists old, stored fs (TrimSpace path) = Ok old /\ stored fs' (TrimSpace path) = Ok remaining /\
    remaining <> [] /\
    remaining = List.filter (fun a => negb (bool_decide (ac_Username a = TrimSpace u))) old.
Proof.
  intros HY Hf. unfold RemoveStaticAccountFile.
  destruct (LoadStaticAccountFile path fs) as [[old|e|] fs1] eqn:E1;
    [rewrite (bind_run _ _ _ _ _ E1)|by rewrite (bind_err _ _ _ _ _ E1)|
     by unfold mbind, stgo_bind; rewrite E1].
  apply LoadStaticAccountFile_ok in E1 as (Hs & F1 & H1). case_match; [done|].
  case_match eqn:Elen; [done|]. set (rest := List.filter _ old) in *.
  destruct (SaveStaticAccountFile path rest fs1) as [[[]|e|] fs2] eqn:E2;
    [rewrite (bind_run _ _ _ _ _ E2)|by rewrite (bind_err _ _ _ _ _ E2)|
     by unfold mbind, stgo_bind; rewrite E2].
  intros [= <- <-]. apply SaveStaticAccountFile_ok in E2 as (_ & Hs2 & _); [|done].
  assert (Hn : map norm old = old).
  { unfold stored in Hs. destruct (files fs !! TrimSpace path); [|done]. by apply Decode_normal in Hs as []. }
  unfold rest in Hs2. rewrite filter_norm in Hs2 by done. exists old. split_and!; try done.
  intros Hnil. by rewrite Hnil in Elen.
Qed.

(** Saving where no operation fails. *)
Lemma SaveStaticAccountFile_healthy path accounts data fs : healthy fs -> TrimSpace path <> [] ->
  validateStaticAccounts accounts = Ok (map norm accounts) -> yaml_Marshal (map norm accounts) = Ok data ->
  exists fs', SaveStaticAccountFile path accounts fs = (Ok tt, fs').
Proof.
  intros Hf Hp Hv Hm. unfold SaveStaticAccountFile. rewrite decide_False by done.
  rewrite bind_lift, Hv, bind_lift, Hm. destruct (MkdirAll_healthy fs Hf) as (fs1 & E1 & _ & H1).
  rewrite (bind_run _ _ _ _ _ E1). destruct (WriteFile_healthy (TrimSpace path) data fs1 H1) as (fs2 & E2 & _).
  eauto.
Qed.

Lemma Upsert_untrimmed path account data fs : YAML_roundtrip Y -> healthy fs -> TrimSpace path <> [] ->
  files fs !! path = None -> acceptable (norm account) -> yaml_Marshal [norm account] = Ok data ->
  exists accounts fs', UpsertStaticAccountFile path account fs = (Ok accounts, fs') /\
    stored fs' (TrimSpace path) = Ok [norm account].
Proof.
  intros HY Hf Hp Hfile Ha Hm. unfold UpsertStaticAccountFile, existingAccounts.
  destruct (Stat_healthy path fs Hf) as (fs1 & E1 & F1 & H1). rewrite Hfile in E1.
  rewrite (bind_run _ _ _ [] fs1) by (by rewrite (bind_run _ _ _ _ _ (try_err _ _ _ _ E1))).
  cbn [replaceAccount].
  assert (Ht : norm (trimAccount account) = norm account).
  { unfold norm, trimAccount. simpl. by rewrite !TrimSpace_idem. }
  destruct (SaveStaticAccountFile_healthy path [trimAccount account] data fs1) as (fs2 & E2); try done.
  { apply validateStaticAccounts_iff. cbn [map]. rewrite Ht. split_and!; try done.
    - by constructor.
    - apply NoDup_singleton. }
  { cbn [map]. by rewrite Ht. }
  rewrite (bind_run _ _ _ _ _ E2). eexists _, _. split; [done|].
  apply SaveStaticAccountFile_ok in E2 as (_ & Hs & _); [|done]. cbn [map] in Hs. by rewrite Hs, Ht.
Qed.

(** ** Lemmas: from the file to the login *)

Lemma ConfigAuthenticator_file c db path fs accounts : healthy fs ->
  ToLower (TrimSpace (af_Mode c)) = AuthModeStatic -> af_AccountFile c = path ->
  TrimSpace path = path -> path <> [] -> stored fs path = Ok accounts ->
  exists fs', ConfigAuthenticator c db fs = (Ok (StaticAuthenticator accounts), fs').
Proof.
  intros Hf Hmode Hfile Hp Hne Hs. unfold ConfigAuthenticator, AuthConfigWithDefaults.
  cbn [af_Mode af_AccountFile]. rewrite Hmode, Hfile, !decide_False by done.
  rewrite decide_True by done. rewrite decide_True by (by rewrite Hp).
  destruct (LoadStaticAccountFile_healthy path fs Hf) as (fs1 & E & _); [by rewrite Hp|].
  rewrite Hp, Hs in E. rewrite (bind_run _ _ _ _ _ (try_ok _ _ _ _ E)). by exists fs1.
Qed.

Lemma norm_verifiers username password database :
  norm (StaticAccountWithPasswordVerifiers username password database) =
  StaticAccountWithPasswordVerifiers username password database.
Proof.
  unfold norm, StaticAccountWithPasswordVerifiers, mysqlNativeVerifier, cachingSHA2Verifier. simpl.
  rewrite !TrimSpace_idem. case_decide; [done|]. by rewrite !TrimSpace_hex.
Qed.

(** A user added with a password logs in with it. *)
Lemma upserted_user_logs_in path username password database fs fs' accounts c db :
  YAML_roundtrip Y -> honest fs -> TrimSpace path = path -> path <> [] -> password <> [] ->
  UpsertStaticAccountFile path (StaticAccountWithPasswordVerifiers username password database) fs
    = (Ok accounts, fs') ->
  healthy fs' -> ToLower (TrimSpace (af_Mode c)) = AuthModeStatic -> af_AccountFile c = path ->
  exists auth fs'', ConfigAuthenticator c db fs' = (Ok auth, fs'') /\
    forall request, rq_Username request = TrimSpace username ->
      let plugin := staticAuthPluginName (rq_AuthPluginName request) in
      plugin = cachingSHA2PasswordPluginName \/ plugin = mysqlNativePasswordPluginName ->
      rq_AuthResponse request = clientToken plugin (rq_AuthPluginData request) password ->
      exists d, Authenticate auth None request = Ok d /\ ad_Accepted d = true /\
        ad_Username d = TrimSpace username.
Proof.
  intros HY Hf Hp Hne Hpw Hup Hf' Hmode Hfile.
  apply Upsert_ok in Hup as (old & new & Ho & Hs & _ & ->); [|done..].
  destruct (ConfigAuthenticator_file c db path fs' _ Hf' Hmode Hfile Hp Hne Hs) as (fs'' & E).
  eexists _, fs''. split; [done|]. intros request Hu plugin Hplugin Htoken.
  set (account := StaticAccountWithPasswordVerifiers username password database) in *.
  assert (Hfind : findAccount (replaceAccount old (norm account)) (rq_Username request) = Some account).
  { rewrite findAccount_replace. unfold account. rewrite norm_verifiers. by rewrite decide_True. }
  unfold Authenticate. rewrite Hfind.
  rewrite (password_accepted account password request) by (done || by right).
  eexists. split; [done|]. by rewrite <- Hu.
Qed.

Lemma permissive_config c db fs d fs' : ConfigAuthenticator c db fs = (Ok (PermissiveAuthenticator d), fs') ->
  ToLower (TrimSpace (af_Mode c)) = AuthModePermissive.
Proof.
  unfold ConfigAuthenticator. case_decide; [done|]. case_decide; [done|]. case_decide; [|done].
  case_decide; [|done]. unfold mbind, stgo_bind, try_. by destruct (LoadStaticAccountFile _ fs) as [[]].
Qed.

End Files.

(** ** A concrete serialization

    Lists of strings with a mark before each element, in place of YAML. *)

Definition enc_list {A} (enc : A -> bytes) (l : list A) : bytes :=
  concat (map (fun a => byte_of 1 :: enc a) l) ++ [byte_of 0].

Fixpoint dec_list {A} (dec : bytes -> option (A * bytes)) (fuel : nat) (d : bytes)
    : option (list A * bytes) :=
  match fuel, d with
  | S fuel, b :: d =>
    if ub b =? 0 then Some ([], d)
    else match dec d with
         | Some (a, d) =>
           match dec_list dec fuel d with Some (l, d) => Some (a :: l, d) | None => None end
         | None => None
         end
  | _, _ => None
  end.

Lemma enc_list_cons {A} (enc : A -> bytes) a l rest :
  enc_list enc (a :: l) ++ rest = byte_of 1 :: enc a ++ (enc_list enc l ++ rest).
Proof. unfold enc_list. simpl. by rewrite <- !app_assoc. Qed.

Lemma dec_enc_list {A} (enc : A -> bytes) dec l : (forall a rest, dec (enc a ++ rest) = Some (a, rest)) ->
  forall fuel rest, (length l < fuel)%nat -> dec_list dec fuel (enc_list enc l ++ rest) = Some (l, rest).
Proof.
  intros Hdec. induction l as [|a l IH]; intros [|fuel] rest Hf; try (simpl in Hf; lia); [done|].
  rewrite enc_list_cons. cbn [dec_list]. change (ub (byte_of 1) =? 0) with false. cbv iota.
  rewrite Hdec, IH by (simpl in Hf; lia). done.
Qed.

Definition enc_string : bytes -> bytes := enc_list (fun b => [b]).

Definition dec_byte (d : bytes) : option (byte * bytes) :=
  match d with b :: d => Some (b, d) | [] => None end.

Definition dec_string (d : bytes) : option (bytes * bytes) := dec_list dec_byte (length d) d.

Lemma enc_list_length {A} (enc : A -> bytes) l : (length l < length (enc_list enc l))%nat.
Proof.
  unfold enc_list. rewrite length_app. induction l as [|a l IH]; simpl in *; [lia|].
  rewrite length_app. lia.
Qed.

Lemma dec_enc_string s rest : dec_string (enc_string s ++ rest) = Some (s, rest).
Proof.
  unfold dec_string, enc_string. apply dec_enc_list; [done|]. rewrite length_app.
  pose proof (enc_list_length (fun b : byte => [b]) s). lia.
Qed.

Definition enc_account (a : StaticAccount) : bytes :=
  enc_string (ac_Username a) ++ enc_string (ac_Password a) ++
  enc_string (ac_MySQLNativePasswordVerifier a) ++ enc_string (ac_CachingSHA2PasswordVerifier a) ++
  enc_string (ac_DefaultDatabase a) ++ enc_list enc_string (ac_Roles a).

Definition dec_account (d : bytes) : option (StaticAccount * bytes) :=
  '(u, d) ← dec_string d; '(p, d) ← dec_string d; '(n, d) ← dec_string d; '(s, d) ← dec_string d;
  '(db, d) ← dec_string d; '(rs, d) ← dec_list dec_string (length d) d;
  Some (mkAccount u p n s db rs, d).

Lemma dec_enc_account a rest : dec_account (enc_account a ++ rest) = Some (a, rest).
Proof.
  unfold dec_account, enc_account. rewrite <- !app_assoc.
  do 5 (rewrite dec_enc_string; cbn [mbind option_bind]).
  rewrite dec_enc_list; [by destruct a|apply dec_enc_string|]. rewrite length_app.
  pose proof (enc_list_length enc_string (ac_Roles a)). lia.
Qed.

Definition sampleYAML : YAML := {|
  yaml_Marshal accounts := Ok (enc_list enc_account accounts);
  yaml_UnmarshalStrict data :=
    match dec_list dec_account (length data) data with
    | Some (accounts, []) => Ok accounts
    | _ => Err (Errorf "yaml: not an account list" [])
    end |}.

Lemma sampleYAML_roundtrip : YAML_roundtrip sampleYAML.
Proof.
  intros accounts data [= <-]. cbn [yaml_UnmarshalStrict sampleYAML].
  rewrite <- (app_nil_r (enc_list enc_account accounts)) at 2.
  rewrite dec_enc_list; [done|apply dec_enc_account|apply enc_list_length].
Qed.

Definition samplePath : bytes := str "accounts.yaml".

Definition sampleUser (name : string) : StaticAccount :=
  StaticAccountWithPasswordVerifiers (str name) (str "secret") (str "shop").

Definition emptyFS : FS := mkFS ∅ [].

(** A file with the accounts of root and of guest. *)
Definition sampleFS : FS :=
  let fs := (@UpsertStaticAccountFile asciiText sampleYAML samplePath (sampleUser "root") emptyFS).2 in
  (@UpsertStaticAccountFile asciiText sampleYAML samplePath (sampleUser "guest") fs).2.

(** ** Properties *)

(** The validation of account lists accepts exactly the lists whose trimmed
    accounts are acceptable and have distinct names, and returns the trimmed
    accounts. *)
Theorem account_validation_exact `{TextLib} accounts ns : validateStaticAccounts accounts = Ok ns <->
  accounts <> [] /\ ns = map norm accounts /\ Forall acceptable ns /\ NoDup (map ac_Username ns).
Proof. apply validateStaticAccounts_iff. Qed.

(** When an upsert reports success, whatever operations fail around it, the
    file holds the trimmed account under its name, and under every other name
    what it held before. *)
Theorem upsert_changes_one_account `{TextLib} `{Y : YAML} path account fs accounts fs' :
  YAML_roundtrip Y -> honest fs -> TrimSpace path = path ->
  UpsertStaticAccountFile path account fs = (Ok accounts, fs') ->
  exists old new, storedOrNone fs path = Ok old /\ stored fs' path = Ok new /\
    forall u, findAccount new u =
      if decide (TrimSpace (ac_Username account) = u) then Some (norm account) else findAccount old u.
Proof.
  intros HY Hf Hp Hup. apply Upsert_ok in Hup as (old & new & Ho & Hn & _ & ->); [|done..].
  exists old, (replaceAccount old (norm account)). split_and!; try done.
  intros u. apply findAccount_replace.
Qed.

Lemma upsert_changes_one_account_witness :
  exists old new, @storedOrNone asciiText sampleYAML sampleFS samplePath = Ok old /\
    @stored asciiText sampleYAML
      (@UpsertStaticAccountFile asciiText sampleYAML samplePath (sampleUser "root") sampleFS).2 samplePath = Ok new /\
    forall u, findAccount new u =
      if decide (TrimSpace (ac_Username (sampleUser "root")) = u) then Some (norm (sampleUser "root"))
      else findAccount old u.
Proof.
  apply (@upsert_changes_one_account asciiText sampleYAML samplePath (sampleUser "root") sampleFS
    [sampleUser "root"; sampleUser "guest"]).
  - apply sampleYAML_roundtrip.
  - unfold honest. replace (faults sampleFS) with (@nil (option (nat * error))) by (vm_compute; reflexivity).
    constructor.
  - vm_compute. reflexivity.
  - vm_compute. reflexivity.
Defined.

(** When a removal reports success, the file holds all accounts but those
    with the name, and at least one. *)
Theorem remove_deletes_one_account `{TextLib} `{Y : YAML} path username fs remaining fs' :
  YAML_roundtrip Y -> honest fs ->
  RemoveStaticAccountFile path username fs = (Ok (remaining, true), fs') ->
  remaining <> [] /\ stored fs' (TrimSpace path) = Ok remaining /\
  exists old, stored fs (TrimSpace path) = Ok old /\
    forall u, findAccount remaining u = if decide (u = TrimSpace username) then None else findAccount old u.
Proof.
  intros HY Hf Hr. apply Remove_ok in Hr as (old & Ho & Hs & Hne & ->); [|done..].
  split_and!; try done. exists old. split; [done|]. intros u. apply findAccount_filter.
Qed.

Lemma remove_deletes_one_account_witness :
  let remaining := [sampleUser "root"] in
  remaining <> [] /\
  @stored asciiText sampleYAML
    (@RemoveStaticAccountFile asciiText sampleYAML samplePath (str "guest") sampleFS).2
    (TrimSpace samplePath) = Ok remaining /\
  exists old, @stored asciiText sampleYAML sampleFS (TrimSpace samplePath) = Ok old /\
    forall u, findAccount remaining u = if decide (u = TrimSpace (str "guest")) then None else findAccount old u.
Proof.
  apply (@remove_deletes_one_account asciiText sampleYAML samplePath (str "guest") sampleFS
    [sampleUser "root"]).
  - apply sampleYAML_roundtrip.
  - unfold honest. replace (faults sampleFS) with (@nil (option (nat * error))) by (vm_compute; reflexivity).
    constructor.
  - vm_compute. reflexivity.
Defined.

(** C26. A user added with a password can log in: after a successful upsert of the
    account the server configured with the file accepts, for each plugin that
    does not send the password and each challenge, the token computed from it. *)
Theorem added_user_can_log_in `{TextLib} `{Y : YAML} path username password database fs fs' accounts c db :
  YAML_roundtrip Y -> honest fs -> TrimSpace path = path -> path <> [] -> password <> [] ->
  UpsertStaticAccountFile path (StaticAccountWithPasswordVerifiers username password database) fs
    = (Ok accounts, fs') ->
  healthy fs' -> ToLower (TrimSpace (af_Mode c)) = AuthModeStatic -> af_AccountFile c = path ->
  exists auth fs'', ConfigAuthenticator c db fs' = (Ok auth, fs'') /\
    forall request, rq_Username request = TrimSpace username ->
      let plugin := staticAuthPluginName (rq_AuthPluginName request) in
      plugin = cachingSHA2PasswordPluginName \/ plugin = mysqlNativePasswordPluginName ->
      rq_AuthResponse request = clientToken plugin (rq_AuthPluginData request) password ->
      exists d, Authenticate auth None request = Ok d /\ ad_Accepted d = true /\
        ad_Username d = TrimSpace username.
Proof. apply upserted_user_logs_in. Qed.

Lemma added_user_can_log_in_witness :
  let fs' := (@UpsertStaticAccountFile asciiText sampleYAML samplePath (sampleUser "root") emptyFS).2 in
  exists auth fs'',
    @ConfigAuthenticator asciiText sampleYAML (mkAuthConfig (str " Static ") [] [] [] samplePath) [] fs'
      = (Ok auth, fs'') /\
    forall request, rq_Username request = TrimSpace (str "root") ->
      let plugin := staticAuthPluginName (rq_AuthPluginName request) in
      plugin = cachingSHA2PasswordPluginName \/ plugin = mysqlNativePasswordPluginName ->
      rq_AuthResponse request = clientToken plugin (rq_AuthPluginData request) (str "secret") ->
      exists d, @Authenticate asciiText auth None request = Ok d /\ ad_Accepted d = true /\
        ad_Username d = TrimSpace (str "root").
Proof.
  intros fs'.
  apply (@added_user_can_log_in asciiText sampleYAML samplePath (str "root") (str "secret") (str "shop")
    emptyFS fs' [sampleUser "root"]).
  - apply sampleYAML_roundtrip.
  - constructor.
  - vm_compute. reflexivity.
  - discriminate.
  - discriminate.
  - vm_compute. reflexivity.
  - unfold healthy. replace (faults fs') with (@nil (option (nat * error))) by (vm_compute; reflexivity).
    constructor.
  - vm_compute. reflexivity.
  - reflexivity.
Defined.

(** The upsert asks whether the file exists with the path as given but loads
    and saves under the trimmed path: with blanks around the path it finds no
    file and replaces all accounts of the existing file by the one account. *)
Theorem untrimmed_path_loses_accounts `{TextLib} `{Y : YAML} path account data fs :
  YAML_roundtrip Y -> healthy fs -> TrimSpace path <> [] -> files fs !! path = None ->
  acceptable (norm account) -> yaml_Marshal [norm account] = Ok data ->
  exists accounts fs', UpsertStaticAccountFile path account fs = (Ok accounts, fs') /\
    stored fs' (TrimSpace path) = Ok [norm account].
Proof. apply Upsert_untrimmed. Qed.

Lemma untrimmed_path_loses_accounts_witness :
  @stored asciiText sampleYAML sampleFS samplePath = Ok [sampleUser "root"; sampleUser "guest"] /\
  exists accounts fs',
    @UpsertStaticAccountFile asciiText sampleYAML (str " accounts.yaml") (sampleUser "root") sampleFS
      = (Ok accounts, fs') /\
    @stored asciiText sampleYAML fs' (TrimSpace (str " accounts.yaml")) = Ok [norm (sampleUser "root")].
Proof.
  split; [vm_compute; reflexivity|].
  apply (@untrimmed_path_loses_accounts asciiText sampleYAML (str " accounts.yaml") (sampleUser "root")
    (enc_list enc_account [norm (sampleUser "root")])).
  - apply sampleYAML_roundtrip.
  - unfold healthy. replace (faults sampleFS) with (@nil (option (nat * error))) by (vm_compute; reflexivity).
    constructor.
  - vm_compute. discriminate.
  - vm_compute. reflexivity.
  - split; [vm_compute; discriminate|split; vm_compute; constructor|vm_compute; reflexivity..].
  - reflexivity.
Defined.

(** The permissive authenticator serves only loopback listeners: a
    configuration that selects it passes the check of the bind address only for
    localhost or a loopback address. *)
Theorem permissive_only_on_loopback `{TextLib} `{YAML} c db fs d fs' bindAddress :
  ConfigAuthenticator c db fs = (Ok (PermissiveAuthenticator d), fs') ->
  ValidateModeForBind (af_Mode c) bindAddress = Ok tt ->
  let host := trimBrackets (TrimSpace bindAddress) in
  EqualFold host (str "localhost") = true \/ LoopbackIP host = Some true.
Proof.
  intros Hc%permissive_config. unfold ValidateModeForBind. rewrite Hc, bool_decide_true by done.
  cbn [negb]. destruct (EqualFold _ _); [by left|]. destruct (LoopbackIP _) as [[]|]; [by right|done..].
Qed.

Lemma permissive_only_on_loopback_witness :
  let host := trimBrackets (TrimSpace (str "[127.0.0.1] ")) in
  @EqualFold asciiText host (str "localhost") = true \/ @LoopbackIP asciiText host = Some true.
Proof.
  apply (@permissive_only_on_loopback asciiText sampleYAML
    (mkAuthConfig (str "Permissive") [] [] [] []) [] emptyFS [] emptyFS);
    vm_compute; reflexivity.
Defined.
