(* ===== verification/Catalog.v ===== *)
(** * Tables and attributes

    The catalog's tables and attributes as far as primary keys use them
    (shared/table.go, core/table.go, core/mapper.go), the attributes of a primary
    key, the hidden attribute of compound keys (shared/primary_key_authority.go)
    and the classification of keys (core/primary_key_authority_eligibility.go).

    The pointer from an attribute to its table is represented by passing the
    table; a nil attribute, or one without its BasicAttribute, is [None]. *)

From S2P Require Import Prelude GoStd.

(** ** strings.Split for a separator of one byte *)

Fixpoint Split (s : bytes) (sep : byte) : list bytes :=
  match s with
  | [] => [[]]
  | b :: s =>
    if decide (b = sep) then [] :: Split s sep
    else match Split s sep with
         | part :: parts => (b :: part) :: parts
         | [] => [[b]]
         end
  end.

Definition plusSign : byte := byte_of 43.

(** ** Attributes and tables *)

Record Attribute : Type := mkAttribute {
  FieldName : bytes;
  SourceName : bytes;
  at_Type : bytes;
  MappingStrategy : bytes;
  at_Desc : bytes;
  at_System : bool;
  at_ColumnID : bool;
  at_TimeQuantumType : bytes }.

Definition withFieldName (a : Attribute) (name : bytes) : Attribute :=
  mkAttribute name (SourceName a) (at_Type a) (MappingStrategy a) (at_Desc a) (at_System a)
    (at_ColumnID a) (at_TimeQuantumType a).

Definition withTimeQuantumType (a : Attribute) (tq : bytes) : Attribute :=
  mkAttribute (FieldName a) (SourceName a) (at_Type a) (MappingStrategy a) (at_Desc a) (at_System a)
    (at_ColumnID a) tq.

(** [attributeNameMap] holds positions in [Attributes], since the Go map points
    into that slice; [None] is the nil map. *)
Record BasicTable : Type := mkBasicTable {
  tb_Name : bytes;
  PrimaryKey : bytes;
  TimeQuantumType : bytes;
  TimeQuantumField : bytes;
  Attributes : list Attribute;
  attributeNameMap : option (gmap bytes nat) }.

(** The table of an ingest session: its own attributes by name. *)
Record Table : Type := mkTable {
  t_Basic : BasicTable;
  AttributeNameMap : option (gmap bytes Attribute) }.

(** ** Attributes by name *)

(** The attribute as the lazy construction of the map leaves it. *)
Definition namedAttribute (attr : Attribute) : Attribute :=
  if decide (FieldName attr = []) then withFieldName attr (SourceName attr) else attr.

Definition addAttributeNames (m : gmap bytes nat) (i : nat) (attr : Attribute) : gmap bytes nat :=
  let m := if decide (FieldName attr = []) then m else <[FieldName attr := i]> m in
  if decide (SourceName attr = [] \/ SourceName attr = FieldName attr) then m
  else <[SourceName attr := i]> m.

Fixpoint attributeNames (m : gmap bytes nat) (i : nat) (attrs : list Attribute) : gmap bytes nat :=
  match attrs with
  | [] => m
  | attr :: attrs => attributeNames (addAttributeNames m i attr) (S i) attrs
  end.

(** The table with its name map, built on first use. *)
Definition withNameMap (t : BasicTable) : BasicTable :=
  match attributeNameMap t with
  | Some _ => t
  | None =>
    let attrs := map namedAttribute (Attributes t) in
    mkBasicTable (tb_Name t) (PrimaryKey t) (TimeQuantumType t) (TimeQuantumField t) attrs
      (Some (attributeNames ∅ 0 attrs))
  end.

(** The method of shared.BasicTable; the receiver may be nil. *)
Definition BasicTable_GetAttribute (t : option BasicTable) (name : bytes) : go Attribute :=
  match t with
  | None => Err (Errorf "assertion failure: receiver for table is nil for fieldname %s" [AStr name])
  | Some t =>
    let t := withNameMap t in
    match default ∅ (attributeNameMap t) !! name with
    | Some i =>
      match Attributes t !! i with
      | Some attr => Ok attr
      | None => Panic
      end
    | None => Err (Errorf "attribute '%s' not found" [AStr name])
    end
  end.

Definition GetRownumAttribute : Attribute :=
  mkAttribute (str "@rownum") [] (str "Integer") (str "IntBSI") [] false false [].

(** The method of core.Table. *)
Definition GetAttribute (t : Table) (name : bytes) : go Attribute :=
  if decide (name = str "@rownum") then Ok GetRownumAttribute
  else match AttributeNameMap t with
       | None => Err (Errorf "schema cache not re-initialized " [])
       | Some m =>
         match m !! name with
         | Some attr => Ok attr
         | None => Err (Errorf "attribute '%s' not found" [AStr name])
         end
       end.

(** ** The attributes of the primary key *)

(** The body shared by the methods of the two table types: the time quantum
    field, then the fields of the key. *)
Definition primaryKeyInfo (get : bytes -> go Attribute) (primaryKey timeQuantumField : bytes)
    : go (list Attribute) :=
  if decide (TrimSpace primaryKey = [] /\ TrimSpace timeQuantumField = []) then Ok []
  else
    tq ← (if decide (timeQuantumField = []) then Ok []
          else at_ ← get (TrimSpace timeQuantumField); mret [at_]);
    pk ← (if decide (primaryKey = []) then Ok []
          else mapM (fun v => get (TrimSpace v)) (Split primaryKey plusSign));
    mret (tq ++ pk).

Definition BasicTable_GetPrimaryKeyInfo (t : BasicTable) : go (list Attribute) :=
  primaryKeyInfo (BasicTable_GetAttribute (Some t)) (PrimaryKey t) (TimeQuantumField t).

Definition GetPrimaryKeyInfo (t : Table) : go (list Attribute) :=
  primaryKeyInfo (GetAttribute t) (PrimaryKey (t_Basic t)) (TimeQuantumField (t_Basic t)).

(** ** Compound keys *)

Fixpoint moreThanOne (count : nat) (parts : list bytes) : bool :=
  match parts with
  | [] => false
  | part :: parts =>
    if decide (TrimSpace part = []) then moreThanOne count parts
    else if decide (1 < S count)%nat then true else moreThanOne (S count) parts
  end.

Definition HasCompoundPrimaryKey (primaryKey : bytes) : bool :=
  moreThanOne 0 (Split primaryKey plusSign).

Definition CompoundPrimaryKeyAuthorityFieldName : bytes := str "__qs_pk_authority".

Definition authorityAttribute : Attribute :=
  mkAttribute CompoundPrimaryKeyAuthorityFieldName [] (str "Integer") (str "IntBSI")
    (str "QuantaStream compound primary-key authority") true false [].

Definition EnsureCompoundPrimaryKeyAuthorityAttribute `{TextLib} (t : BasicTable) : bool * BasicTable :=
  if negb (HasCompoundPrimaryKey (PrimaryKey t)) then (false, t)
  else if existsb (fun attr => EqualFold (FieldName attr) CompoundPrimaryKeyAuthorityFieldName)
            (Attributes t) then (false, t)
  else (true, mkBasicTable (tb_Name t) (PrimaryKey t) (TimeQuantumType t) (TimeQuantumField t)
                (Attributes t ++ [authorityAttribute]) (attributeNameMap t)).

(** ** Types and mapping strategies *)

Inductive FieldDataType : Type :=
  | TypeNotExist | TypeString | TypeInteger | TypeFloat | TypeDate | TypeDateTime | TypeBoolean
  | TypeJSON | TypeNotDefined.

#[export] Instance FieldDataType_eq_dec : EqDecision FieldDataType.
Proof. solve_decision. Defined.

Definition TypeFromString (vt : bytes) : FieldDataType :=
  if decide (vt = str "NotExist") then TypeNotExist
  else if decide (vt = str "String") then TypeString
  else if decide (vt = str "Integer") then TypeInteger
  else if decide (vt = str "Float") then TypeFloat
  else if decide (vt = str "Boolean") then TypeBoolean
  else if decide (vt = str "JSON") then TypeJSON
  else if decide (vt = str "Date") then TypeDate
  else if decide (vt = str "DateTime") then TypeDateTime
  else TypeNotDefined.

Inductive MapperType : Type :=
  | MapperBoolDirect | MapperIntDirect | MapperIntToBoolDirect | MapperIntLinear
  | MapperIntBuckets | MapperIntBSI | MapperFloatScaleBSI | MapperFloatLinear
  | MapperFloatBuckets | MapperYearToDay | MapperYearToMonth | MapperYear | MapperDayOfYear
  | MapperDayOfMonth | MapperDayOfWeek | MapperTimeOfDay | MapperHourOfDay | MapperSysMillisBSI
  | MapperSysMicroBSI | MapperSysSecBSI | MapperTimestampBSI | MapperStringEnum
  | MapperStringLexBSI | MapperStringToIntDirect | MapperBoolRegex | MapperContains
  | MapperUUIDBSI | MapperCustom | MapperCustomBSI | MapperStringBSI | MapperUndefined.

#[export] Instance MapperType_eq_dec : EqDecision MapperType.
Proof. solve_decision. Defined.

(** The names of the strategies, in the order of the switch. *)
Definition mapperNames : list (string * MapperType) :=
  [("BoolDirect"%string, MapperBoolDirect); ("IntDirect"%string, MapperIntDirect);
   ("IntToBoolDirect"%string, MapperIntToBoolDirect); ("IntLinear"%string, MapperIntLinear);
   ("IntBuckets"%string, MapperIntBuckets); ("IntBSI"%string, MapperIntBSI);
   ("FloatScaleBSI"%string, MapperFloatScaleBSI); ("FloatLinear"%string, MapperFloatLinear);
   ("FloatBuckets"%string, MapperFloatBuckets); ("YearToDay"%string, MapperYearToDay);
   ("YearToMonth"%string, MapperYearToMonth); ("Year"%string, MapperYear);
   ("DayOfYear"%string, MapperDayOfYear); ("DayOfMonth"%string, MapperDayOfMonth);
   ("DayOfWeek"%string, MapperDayOfWeek); ("TimeOfDay"%string, MapperTimeOfDay);
   ("HourOfDay"%string, MapperHourOfDay); ("SysMillisBSI"%string, MapperSysMillisBSI);
   ("SysMicroBSI"%string, MapperSysMicroBSI); ("SysSecBSI"%string, MapperSysSecBSI);
   ("TimestampBSI"%string, MapperTimestampBSI); ("TimeStampBSI"%string, MapperTimestampBSI);
   ("StringEnum"%string, MapperStringEnum); ("StringLexBSI"%string, MapperStringLexBSI);
   ("BoolRegex"%string, MapperBoolRegex); ("Contains"%string, MapperContains);
   ("UUIDBSI"%string, MapperUUIDBSI); ("CustomBSI"%string, MapperCustomBSI)].

Fixpoint mapperByName (names : list (string * MapperType)) (mt : bytes) : MapperType :=
  match names with
  | [] => MapperUndefined
  | (name, ty) :: names => if decide (mt = str name) then ty else mapperByName names mt
  end.

Definition MapperTypeFromString (mt : bytes) : MapperType := mapperByName mapperNames mt.

Definition IsBSI (mt : MapperType) : bool :=
  match mt with
  | MapperIntBSI | MapperFloatScaleBSI | MapperSysMillisBSI | MapperSysMicroBSI | MapperSysSecBSI
  | MapperTimestampBSI | MapperStringLexBSI | MapperUUIDBSI | MapperCustomBSI => true
  | _ => false
  end.

(** ** Which keys the bit-sliced indexes can serve *)

Inductive AuthorityMode : Type := Unsupported | DirectColumnID | SingleColumnBSI | CompoundEncodedBSI.

#[export] Instance AuthorityMode_eq_dec : EqDecision AuthorityMode.
Proof. solve_decision. Defined.

Record BSIPrimaryKeyAuthorityEligibility : Type := mkEligibility {
  Eligible : bool;
  Mode : AuthorityMode;
  Reason : bytes;
  el_TableName : bytes;
  el_PrimaryKey : bytes;
  el_FieldName : bytes;
  el_FieldNames : list bytes;
  el_MappingStrategy : bytes;
  el_ColumnID : bool;
  RequiresShardScope : bool }.

Definition primaryKeyAuthorityDeclaredFields (primaryKey : bytes) : list bytes :=
  filter (fun field => field <> []) (map TrimSpace (Split primaryKey plusSign)).

Definition ObserveBSIPrimaryKeyAuthorityEligibility (table : option Table)
    : BSIPrimaryKeyAuthorityEligibility :=
  match table with
  | None => mkEligibility false Unsupported (str "table is missing") [] [] [] [] [] false false
  | Some table =>
    let name := tb_Name (t_Basic table) in
    let primaryKey := TrimSpace (PrimaryKey (t_Basic table)) in
    let scope := bool_decide (TrimSpace (TimeQuantumField (t_Basic table)) <> []) in
    if decide (primaryKey = []) then
      mkEligibility false Unsupported (str "primary key is missing") name primaryKey [] [] [] false scope
    else
      let fields := primaryKeyAuthorityDeclaredFields primaryKey in
      match fields with
      | [field] =>
        match GetAttribute table field with
        | Ok attr =>
          let result eligible mode reason :=
            mkEligibility eligible mode (str reason) name primaryKey field fields
              (MappingStrategy attr) (at_ColumnID attr) scope in
          if negb (IsBSI (MapperTypeFromString (MappingStrategy attr))) then
            result false Unsupported "primary key field is not BSI-backed"
          else if at_ColumnID attr then
            result true DirectColumnID "primary key maps directly to rownums"
          else result true SingleColumnBSI "single-column primary key can use existing BSI authority"
        | _ => mkEligibility false Unsupported (str "primary key field is missing from catalog")
                 name primaryKey field fields [] false scope
        end
      | _ => mkEligibility false CompoundEncodedBSI
               (str "compound primary key requires encoded BSI authority artifact")
               name primaryKey [] fields [] false scope
      end
  end.
