(* ===== verification/Sequencer.v ===== *)
(** * Column identifiers

    Sequencers (shared/sequencer.go), the queue of sequencers a node keeps for a
    bit-sliced index (server/sequencer.go) and the node's operation that hands out
    ranges of column identifiers (server/bitmap.go, CheckoutSequence).

    Identifiers are 64-bit unsigned integers; sums are written with their wrap. *)

From S2P Require Import Prelude GoStd GoState Catalog.
From Stdlib Require Import Sorting.Sorted.

(** ** Sequencers *)

(** The field [Index], which only the queue's Swap writes, is left out. *)
Record Sequencer : Type := mkSequencer { sq_start : Z; sq_count : Z; sq_current : Z }.

Definition NewSequencer (start count : Z) : Sequencer := mkSequencer start count start.

Definition sq_end (s : Sequencer) : Z := wrap_u 64 (sq_start s + wrap_u 64 (sq_count s)).

(** The next value, if there is one, and the sequencer afterwards. *)
Definition Next (s : Sequencer) : option Z * Sequencer :=
  if sq_current s <? sq_end s
  then (Some (sq_current s), mkSequencer (sq_start s) (sq_count s) (wrap_u 64 (sq_current s + 1)))
  else (None, s).

Definition IsFullySubscribed (s : Sequencer) : bool := negb (sq_current s <? sq_end s).

Definition Sequencer_Maximum (s : Sequencer) : Z := wrap_u 64 (sq_end s - 1).

(** ** The queue of a node *)

(** [sort.Sort] by [Less]: by insertion, which gives the same list as any other
    sort when the maxima differ. *)
Fixpoint insertByMaximum (s : Sequencer) (q : list Sequencer) : list Sequencer :=
  match q with
  | [] => [s]
  | s' :: q => if Sequencer_Maximum s <? Sequencer_Maximum s' then s :: s' :: q
               else s' :: insertByMaximum s q
  end.

Definition sortByMaximum (q : list Sequencer) : list Sequencer :=
  foldl (fun sorted s => insertByMaximum s sorted) [] q.

Definition Push (q : list Sequencer) (item : Sequencer) : list Sequencer :=
  sortByMaximum (q ++ [item]).

Fixpoint Purge (q : list Sequencer) (max : Z) : list Sequencer :=
  match q with
  | [] => []
  | s :: q' => if Sequencer_Maximum s <=? max then Purge q' max else q
  end.

Definition Queue_Maximum (q : list Sequencer) : Z :=
  match last q with
  | None => 0
  | Some s => Sequencer_Maximum s
  end.

(** ** Roaring bitmaps

    The library behind the indexes, as far as this file uses it: the documented
    meaning of its operations is stated on membership. *)

Class Roaring (B : Type) : Type := {
  NewBitmap : B;
  Contains : B -> Z -> bool;
  GetCardinality : B -> Z;
  Bitmap_Maximum : B -> Z }.

Class RoaringLaws (B : Type) `{Roaring B} : Prop := {
  NewBitmap_empty x : Contains NewBitmap x = false;
  Contains_range b x : Contains b x = true -> in_u 64 x;
  GetCardinality_pos b : 0 < GetCardinality b <-> exists x, Contains b x = true;
  Maximum_in b : 0 < GetCardinality b -> Contains b (Bitmap_Maximum b) = true;
  Maximum_ge b x : Contains b x = true -> x <= Bitmap_Maximum b }.

(** ** The indexes of a node *)

(** The existence bitmap of the index, its time quantum and its queue, nil for a
    field that is not the first of a key.  The sliced values are not used here. *)
Record BSIBitmap (B : Type) : Type := mkBSIBitmap {
  ExistenceBitmap : B;
  TQType : bytes;
  sequencerQueue : option (list Sequencer) }.
Arguments mkBSIBitmap {B}.
Arguments ExistenceBitmap {B}.
Arguments TQType {B}.
Arguments sequencerQueue {B}.

(** The indexes are kept by table, field and time. *)
Record Node (B : Type) : Type := mkNode {
  tableCache : gmap bytes BasicTable;
  bsiCache : gmap (bytes * bytes * Z) (BSIBitmap B) }.
Arguments mkNode {B}.
Arguments tableCache {B}.
Arguments bsiCache {B}.

Definition reservedQueue {B} (bsi : BSIBitmap B) (q : list Sequencer) : BSIBitmap B :=
  mkBSIBitmap (ExistenceBitmap bsi) (TQType bsi) (Some q).

Definition withBSI {B} (m : Node B) (key : bytes * bytes * Z) (bsi : BSIBitmap B) : Node B :=
  mkNode (tableCache m) (<[key := bsi]> (bsiCache m)).

Section Node.

Context {B : Type} `{Roaring B}.

Definition getFieldConfig (m : Node B) (index field : bytes) : go Attribute :=
  match BasicTable_GetAttribute (tableCache m !! index) field with
  | Ok attr =>
    let tq := default [] (TimeQuantumType <$> tableCache m !! index) in
    if decide (at_TimeQuantumType attr = [] /\ tq <> []) then Ok (withTimeQuantumType attr tq)
    else Ok attr
  | Err _ => Err (Errorf "getFieldConfig ERROR: Non existent attribute %s for index %s was referenced"
                    [AStr field; AStr index])
  | Panic => Panic
  end.

(** An unknown field leaves a nil attribute, whose table is read next. *)
Definition newBSIBitmap (m : Node B) (index field : bytes) : go (BSIBitmap B) :=
  match getFieldConfig m index field, tableCache m !! index with
  | Ok attr, Some parent =>
    if decide (PrimaryKey parent <> [] \/ TimeQuantumField parent <> []) then
      match BasicTable_GetPrimaryKeyInfo parent with
      | Ok (first :: _) =>
        let seq := if decide (FieldName attr = FieldName first) then Some [] else None in
        Ok (mkBSIBitmap NewBitmap (at_TimeQuantumType attr) seq)
      | _ => Panic
      end
    else Ok (mkBSIBitmap NewBitmap (at_TimeQuantumType attr) None)
  | _, _ => Panic
  end.

Record CheckoutSequenceRequest : Type := mkCheckout {
  co_Index : bytes; co_PkField : bytes; co_Time : Z; co_ReservationSize : Z }.

(** The start of the next range. *)
Definition nextSeqStart (maxColID : Z) (tq : bytes) (time : Z) (q : list Sequencer) : Z :=
  let maxSeq := Queue_Maximum q in
  if maxSeq =? 0 then
    if maxColID =? 0 then
      if decide (tq <> []) then wrap_u 64 (wrap_u 64 time + 1) else 1
    else wrap_u 64 (maxColID + 1)
  else wrap_u 64 (maxSeq + 1).

Definition maxColumnID (bsi : BSIBitmap B) : Z :=
  if GetCardinality (ExistenceBitmap bsi) >? 0 then Bitmap_Maximum (ExistenceBitmap bsi) else 0.

(** The range reserved on an index: its start and the index afterwards. *)
Definition reserve (bsi : BSIBitmap B) (time size : Z) : go (Z * BSIBitmap B) :=
  match sequencerQueue bsi with
  | None => Panic
  | Some q =>
    let maxColID := maxColumnID bsi in
    let q := Purge q maxColID in
    let start := nextSeqStart maxColID (TQType bsi) time q in
    Ok (start, reservedQueue bsi (Push q (NewSequencer start size)))
  end.

(** The start and the length of the range. *)
Definition CheckoutSequence (req : CheckoutSequenceRequest) : stgo (Node B) (Z * Z) := fun m =>
  let key := (co_Index req, co_PkField req, co_Time req) in
  if decide (co_Index req = []) then
    (Err (Errorf "index not specified for sequencer checkout" []), m)
  else if decide (co_PkField req = []) then
    (Err (Errorf "PK field not specified for sequencer checkout" []), m)
  else if co_ReservationSize req <=? 0 then
    (Err (Errorf "PK field not specified for sequencer checkout" []), m)
  else
    let target := match bsiCache m !! key with
                  | Some bsi => Ok bsi
                  | None => newBSIBitmap m (co_Index req) (co_PkField req)
                  end in
    match target with
    | Ok bsi =>
      match reserve bsi (co_Time req) (co_ReservationSize req) with
      | Ok (start, bsi') => (Ok (start, co_ReservationSize req), withBSI m key bsi')
      | Err e => (Err e, withBSI m key bsi)
      | Panic => (Panic, withBSI m key bsi)
      end
    | Err e => (Err e, m)
    | Panic => (Panic, m)
    end.

End Node.

(** ** The numbers of one sequencer *)

(** The values a sequencer still has. *)
Definition remaining (s : Sequencer) : list Z := seqZ (sq_current s) (sq_end s - sq_current s).

(** The values [n] calls of [Next] return. *)
Fixpoint draws (n : nat) (s : Sequencer) : list Z :=
  match n with
  | O => []
  | S n => match Next s with
           | (Some v, s') => v :: draws n s'
           | (None, s') => draws n s'
           end
  end.

(** A range of identifiers that does not wrap; zero stands for no identifier. *)
Definition fits (start size : Z) : Prop := 0 < start /\ 0 < size /\ start + size < 2 ^ 64.

Lemma sq_end_fits start size : fits start size -> sq_end (NewSequencer start size) = start + size.
Proof.
  intros (? & ? & ?). unfold sq_end, wrap_u. cbn [NewSequencer sq_start sq_count].
  rewrite (Z.mod_small size) by lia. apply Z.mod_small. lia.
Qed.

Lemma Maximum_fits start size : fits start size ->
  Sequencer_Maximum (NewSequencer start size) = start + size - 1.
Proof.
  intros Hf. unfold Sequencer_Maximum. rewrite sq_end_fits by done. destruct Hf as (? & ? & ?).
  apply Z.mod_small. lia.
Qed.

(** A sequencer within its range: what its owner holds between calls. *)
Definition within (start size : Z) (s : Sequencer) : Prop :=
  sq_start s = start /\ sq_count s = size /\ start <= sq_current s <= start + size.

Lemma within_end start size s : fits start size -> within start size s -> sq_end s = start + size.
Proof.
  intros Hf (E1 & E2 & _). rewrite <- (sq_end_fits start size Hf). unfold sq_end.
  cbn [NewSequencer sq_start sq_count]. by rewrite E1, E2.
Qed.

Lemma Next_within start size s : fits start size -> within start size s ->
  (IsFullySubscribed s = true /\ Next s = (None, s)) \/
  (IsFullySubscribed s = false /\ exists s', Next s = (Some (sq_current s), s') /\ within start size s' /\
     sq_current s < start + size /\ sq_current s' = sq_current s + 1).
Proof.
  intros Hf Hw. unfold Next, IsFullySubscribed. rewrite (within_end start size s Hf Hw).
  destruct Hf as (? & ? & ?), Hw as (E1 & E2 & ?).
  destruct (Z.ltb_spec (sq_current s) (start + size)) as [Hlt|Hge]; [right|by left].
  split; [done|]. eexists. split; [done|]. unfold within.
  cbn [sq_start sq_count sq_current]. unfold wrap_u. rewrite (Z.mod_small (_ + 1)) by lia.
  repeat split; lia.
Qed.

Lemma draws_within n : forall start size s, fits start size -> within start size s ->
  draws n s = take n (seqZ (sq_current s) (start + size - sq_current s)).
Proof.
  induction n as [|n IH]; intros start size s Hf Hw; [done|]. cbn [draws].
  destruct (Next_within start size s Hf Hw) as [[Hs ->]|(_ & s' & -> & Hw' & Hlt & Hc)].
  - rewrite (IH start size) by done. unfold IsFullySubscribed in Hs.
    rewrite (within_end start size s Hf Hw) in Hs. b2p. rewrite seqZ_nil by lia. by rewrite !take_nil.
  - rewrite (IH start size), Hc, (seqZ_cons (sq_current s)) by (done || lia). cbn [take]. do 3 f_equal; lia.
Qed.

(** A sequencer returns the values of its range in order, each once, and then none. *)
Lemma sequencer_draws start size n : fits start size ->
  draws n (NewSequencer start size) = take n (seqZ start size).
Proof.
  intros Hf. rewrite (draws_within n start size) by
    (done || (destruct Hf as (? & ? & ?); split; [|split]; cbn; lia)).
  cbn [NewSequencer sq_current]. do 2 f_equal. lia.
Qed.

(** ** The queue *)

Abbreviation below := (fun a b : Sequencer => Sequencer_Maximum a < Sequencer_Maximum b).

Lemma insertByMaximum_last s q : Forall (fun s' => Sequencer_Maximum s' < Sequencer_Maximum s) q ->
  insertByMaximum s q = q ++ [s].
Proof.
  induction 1 as [|s' q Hlt _ IH]; [done|]. cbn [insertByMaximum app].
  destruct (Z.ltb_spec (Sequencer_Maximum s) (Sequencer_Maximum s')); [lia|]. by rewrite IH.
Qed.

Lemma sorted_snoc q s : StronglySorted below (q ++ [s]) <->
  StronglySorted below q /\ Forall (fun s' => Sequencer_Maximum s' < Sequencer_Maximum s) q.
Proof.
  split.
  - induction q as [|a q IH]; cbn [app]; intros Hs; [by split; constructor|].
    inversion_clear Hs as [|? ? Hs' Hf]. apply Forall_app in Hf as [Hf Ha].
    rewrite Forall_singleton in Ha. destruct (IH Hs'). split; by constructor.
  - intros [Hs Hf]. induction Hs as [|a q Hs IH Ha]; cbn [app]; [by constructor; constructor|].
    inversion_clear Hf. constructor; [by apply IH|]. apply Forall_app. split; [done|by constructor].
Qed.

Lemma sorted_suffix purged kept : StronglySorted below (purged ++ kept) -> StronglySorted below kept.
Proof. induction purged; [done|]. inversion_clear 1. auto. Qed.

Lemma sortByMaximum_sorted q : StronglySorted below q -> sortByMaximum q = q.
Proof.
  unfold sortByMaximum. induction q as [|s q IH] using rev_ind; [done|].
  intros [Hs Hf]%sorted_snoc. rewrite foldl_snoc, IH by done. by apply insertByMaximum_last.
Qed.

Lemma Purge_suffix q m : exists purged, q = purged ++ Purge q m /\
  Forall (fun s => Sequencer_Maximum s <= m) purged.
Proof.
  induction q as [|s q (l & E & Hl)]; [by exists []|]. cbn [Purge].
  destruct (Z.leb_spec (Sequencer_Maximum s) m); [|by exists []].
  exists (s :: l). split; [cbn; by rewrite <- E|by constructor].
Qed.

Lemma Purge_head q m s q' : Purge q m = s :: q' -> m < Sequencer_Maximum s.
Proof.
  induction q as [|a q IH]; [done|]. cbn [Purge].
  destruct (Z.leb_spec (Sequencer_Maximum a) m); [done|]. by intros [= <- <-].
Qed.

(** ** Ranges handed out for one index *)

Section Ranges.

Context {B : Type} `{Roaring B}.

(** What happens to an index from the time the node creates it: its rows change
    in any way, and ranges are reserved.  The ranges come newest first.  Rows stay
    below the largest identifier and ranges below the end of the identifiers. *)
Inductive history : BSIBitmap B -> list (Z * Z) -> Prop :=
  | history_new b tq : (forall x, Contains b x = true -> x < 2 ^ 64 - 1) ->
      history (mkBSIBitmap b tq (Some [])) []
  | history_rows bsi b grants : history bsi grants ->
      (forall x, Contains b x = true -> x < 2 ^ 64 - 1) ->
      history (mkBSIBitmap b (TQType bsi) (sequencerQueue bsi)) grants
  | history_reserve bsi time size start bsi' grants : history bsi grants ->
      0 <= time < 2 ^ 63 -> 0 < size -> start + size < 2 ^ 64 ->
      reserve bsi time size = Ok (start, bsi') -> history bsi' ((start, size) :: grants).

(** A range begins after the end of another. *)
Definition after (g g' : Z * Z) : Prop := g'.1 + g'.2 <= g.1.

Definition grantSequencer (g : Z * Z) : Sequencer := NewSequencer g.1 g.2.

(** The queue holds a part of the ranges handed out, the newest one included, in
    order; the ranges are in order. *)
Definition ranged (bsi : BSIBitmap B) (grants : list (Z * Z)) : Prop :=
  exists q, sequencerQueue bsi = Some q /\
    (forall x, Contains (ExistenceBitmap bsi) x = true -> x < 2 ^ 64 - 1) /\
    StronglySorted below q /\ Forall (fun s => 0 < Sequencer_Maximum s) q /\
    last q = grantSequencer <$> head grants /\
    Forall (fun g => fits g.1 g.2) grants /\ StronglySorted after grants.

Context `{!RoaringLaws B}.

Lemma maxColumnID_spec (bsi : BSIBitmap B) :
  (forall x, Contains (ExistenceBitmap bsi) x = true -> x < 2 ^ 64 - 1) ->
  0 <= maxColumnID bsi < 2 ^ 64 - 1 /\
  (forall x, Contains (ExistenceBitmap bsi) x = true -> x <= maxColumnID bsi).
Proof.
  intros Hrows. unfold maxColumnID. rewrite Z.gtb_ltb.
  destruct (Z.ltb_spec 0 (GetCardinality (ExistenceBitmap bsi))) as [Hc|Hc].
  - pose proof (Maximum_in _ Hc) as Hin. pose proof (Contains_range _ _ Hin) as [? _].
    split; [split; [done|by apply Hrows]|]. apply Maximum_ge.
  - split; [lia|]. intros x Hx. assert (0 < GetCardinality (ExistenceBitmap bsi)); [|lia].
    apply GetCardinality_pos. by exists x.
Qed.

Lemma newest_grant grants g : Forall (fun g => fits g.1 g.2) grants -> head grants = Some g ->
  Sequencer_Maximum (grantSequencer g) = g.1 + g.2 - 1 /\ 0 < g.1 + g.2 - 1 < 2 ^ 64 - 1.
Proof.
  intros Hfits Eg. destruct grants as [|g' gs]; [done|]. injection Eg as ->.
  apply Forall_cons in Hfits as [Hfit _]. split; [by apply Maximum_fits|].
  destruct Hfit as (? & ? & ?). lia.
Qed.

(** Where the next range starts: after the rows, and after the newest range. *)
Lemma next_start bsi grants q time : ranged bsi grants -> sequencerQueue bsi = Some q ->
  0 <= time < 2 ^ 63 ->
  let start := nextSeqStart (maxColumnID bsi) (TQType bsi) time (Purge q (maxColumnID bsi)) in
  0 < start /\ maxColumnID bsi < start /\
  (forall g, head grants = Some g -> g.1 + g.2 <= start) /\
  Forall (fun s => Sequencer_Maximum s < start) (Purge q (maxColumnID bsi)).
Proof.
  intros (q' & Eq & Hrows & Hs & Hpos & Hlast & Hfits & _) Eq' Ht. rewrite Eq in Eq'.
  injection Eq' as ->. destruct (maxColumnID_spec bsi Hrows) as [Hm _].
  destruct (Purge_suffix q (maxColumnID bsi)) as (purged & Epq & Hpurged).
  remember (Purge q (maxColumnID bsi)) as kept eqn:Ek. unfold nextSeqStart, Queue_Maximum, wrap_u.
  pose proof (fun g => newest_grant grants g Hfits) as Hg.
  destruct (last kept) as [s|] eqn:El.
  - assert (last q = Some s) as Elq by (rewrite Epq, last_app, El; done).
    rewrite Elq in Hlast. destruct (head grants) as [g|] eqn:Eh; [|done]. injection Hlast as ->.
    destruct (Hg g eq_refl) as [-> Hr]. destruct (Z.eqb_spec (g.1 + g.2 - 1) 0); [lia|].
    rewrite Z.mod_small by lia. apply last_Some in El as [init ->].
    rewrite Epq in Hs. apply sorted_suffix, sorted_snoc in Hs as [_ Hlt].
    assert (maxColumnID bsi < g.1 + g.2 - 1).
    { destruct init as [|h init]; cbn [app] in Ek; symmetry in Ek; apply Purge_head in Ek;
        [by rewrite (proj1 (Hg g eq_refl)) in Ek|]. apply Forall_cons in Hlt as [Hh _].
      rewrite (proj1 (Hg g eq_refl)) in Hh. lia. }
    split; [lia|]. split; [lia|]. split; [intros ? [= <-]; lia|]. apply Forall_app. split.
    + eapply Forall_impl; [exact Hlt|]. cbn. rewrite (proj1 (Hg g eq_refl)). lia.
    + apply Forall_singleton. rewrite (proj1 (Hg g eq_refl)). lia.
  - apply last_None in El as ->. rewrite app_nil_r in Epq. subst purged. cbn [Z.eqb].
    assert (forall g, head grants = Some g -> g.1 + g.2 - 1 <= maxColumnID bsi) as Hle.
    { intros g Eg. rewrite Eg in Hlast. apply last_Some in Hlast as [init ->].
      apply Forall_app in Hpurged as [_ Hl]. rewrite Forall_singleton in Hl.
      by rewrite (proj1 (Hg g Eg)) in Hl. }
    destruct (Z.eqb_spec (maxColumnID bsi) 0) as [E0|E0].
    + assert (head grants = None) as ->.
      { destruct (head grants) as [g|] eqn:Eg; [|done]. pose proof (Hle g eq_refl).
        pose proof (Hg g eq_refl). lia. }
      case_decide; [rewrite (Z.mod_small time), Z.mod_small by lia|]; (repeat split; [lia..|done|done]).
    + rewrite Z.mod_small by lia. split; [lia|]. split; [lia|]. split; [|done].
      intros g Eg. pose proof (Hle g Eg). lia.
Qed.

Lemma history_ranged bsi grants : history bsi grants -> ranged bsi grants.
Proof.
  induction 1 as [b tq Hb|bsi b grants _ IH Hb|bsi time size start bsi' grants _ IH Ht Hsize Hfit Hr].
  - exists []. repeat split; [done|constructor..].
  - destruct IH as (q & ? & _ & ?). by exists q.
  - pose proof IH as (q & Eq & Hrows & Hs & Hpos & Hlast & Hfits & Hafter).
    unfold reserve in Hr. rewrite Eq in Hr. injection Hr as Estart <-.
    pose proof (next_start bsi grants q time IH Eq Ht) as (H1 & H2 & H3 & H4).
    rewrite Estart in *. assert (fits start size) as Hf by done.
    destruct (Purge_suffix q (maxColumnID bsi)) as (purged & Epq & _).
    remember (Purge q (maxColumnID bsi)) as kept eqn:Ek.
    assert (StronglySorted below (kept ++ [NewSequencer start size])) as Hs'.
    { apply sorted_snoc. rewrite Epq in Hs. split; [by eapply sorted_suffix|]. eapply Forall_impl; [exact H4|]. cbn. rewrite Maximum_fits by done. lia. }
    exists (kept ++ [NewSequencer start size]). cbn [reservedQueue sequencerQueue ExistenceBitmap].
    unfold Push. rewrite sortByMaximum_sorted by done. split; [done|]. split; [done|].
    split; [done|]. split.
    { rewrite Epq in Hpos. apply Forall_app in Hpos as [_ Hpos]. apply Forall_app. split; [done|].
      apply Forall_singleton. rewrite Maximum_fits by done. lia. }
    split; [by rewrite last_snoc|]. split; [by constructor|]. constructor; [done|].
    destruct grants as [|g grants]; [constructor|]. pose proof (H3 g eq_refl) as Hg.
    inversion_clear Hafter as [|? ? _ Hall]. constructor; [exact Hg|].
    apply Forall_cons in Hfits as [(? & ? & ?) _].
    eapply Forall_impl; [exact Hall|]. unfold after. cbn. lia.
Qed.

End Ranges.

(** There is room for another range of [size] identifiers. *)
Definition room {B} `{Roaring B} (bsi : BSIBitmap B) (size : Z) : Prop :=
  maxColumnID bsi + size < 2 ^ 64 - 1 /\
  Queue_Maximum (default [] (sequencerQueue bsi)) + size < 2 ^ 64 - 1.

Lemma Queue_Maximum_purge q m :
  Queue_Maximum (Purge q m) = 0 \/ Queue_Maximum (Purge q m) = Queue_Maximum q.
Proof.
  destruct (Purge_suffix q m) as (l & E & _). rewrite E at 3. unfold Queue_Maximum.
  rewrite last_app. destruct (last (Purge q m)); auto.
Qed.

Lemma Queue_Maximum_range q : 0 <= Queue_Maximum q < 2 ^ 64.
Proof.
  unfold Queue_Maximum. destruct (last q); [|lia]. unfold Sequencer_Maximum, wrap_u.
  apply Z.mod_pos_bound. lia.
Qed.

Lemma reserve_fits {B} `{RoaringLaws B} (bsi bsi' : BSIBitmap B) grants time size start :
  history bsi grants -> 0 <= time < 2 ^ 63 -> 0 < size <= 2 ^ 32 -> room bsi size ->
  reserve bsi time size = Ok (start, bsi') -> fits start size.
Proof.
  intros Hh%history_ranged Ht Hs [Hr1 Hr2] Hr.
  pose proof Hh as (q & Eq & Hrows & _). unfold reserve in Hr. rewrite Eq in Hr, Hr2.
  injection Hr as <- _. pose proof (next_start bsi grants q time Hh Eq Ht) as (H1 & _).
  split; [done|]. split; [lia|]. destruct (maxColumnID_spec bsi Hrows) as [Hm _].
  pose proof (Queue_Maximum_range q). pose proof (Queue_Maximum_purge q (maxColumnID bsi)).
  change (default [] (Some q)) with q in Hr2. clear H1. unfold nextSeqStart, wrap_u.
  do 2 try case_if; try case_decide; rewrite ?(Z.mod_small time), ?Z.mod_small by lia; lia.
Qed.

(** ** Bitmaps as lists, which satisfy the laws *)

Definition listRows (b : list Z) : list Z := filter (fun x => 0 <= x < 2 ^ 64) b.

Definition listRoaring : Roaring (list Z) := {|
  NewBitmap := [];
  Contains b x := bool_decide (x ∈ listRows b);
  GetCardinality b := zlen (remove_dups (listRows b));
  Bitmap_Maximum b := foldr Z.max 0 (listRows b) |}.

Lemma foldr_max_spec l : Forall (fun x => 0 <= x) l ->
  (forall x, x ∈ l -> x <= foldr Z.max 0 l) /\ (l <> [] -> foldr Z.max 0 l ∈ l).
Proof.
  induction 1 as [|a l Ha _ [IH1 IH2]]; [by split; [intros x Hx%elem_of_nil|]|]. cbn [foldr]. split.
  - intros x [->|Hx%IH1]%elem_of_cons; lia.
  - intros _. destruct (Z.max_spec a (foldr Z.max 0 l)) as [[? ->]|[? ->]]; [|by left].
    right. apply IH2. intros ->. cbn in *. lia.
Qed.

Lemma listRoaring_laws : @RoaringLaws (list Z) listRoaring.
Proof.
  assert (forall b x, @Contains _ listRoaring b x = true <-> x ∈ listRows b) as Hc
    by (intros; apply bool_decide_eq_true).
  assert (forall b, Forall (fun x => 0 <= x < 2 ^ 64) (listRows b)) as Hr
    by (intros b; apply Forall_forall; by intros x [? _]%list_elem_of_filter).
  assert (forall b, 0 < @GetCardinality _ listRoaring b <-> listRows b <> []) as Hn.
  { intros b. cbn [GetCardinality listRoaring]. split.
    - intros Hl E. by rewrite E in Hl.
    - intros Hne. destruct (listRows b) as [|x l] eqn:E; [done|].
      assert (x ∈ remove_dups (x :: l)) as Hx by (apply elem_of_remove_dups; left).
      destruct (remove_dups (x :: l)); [by apply elem_of_nil in Hx|unfold zlen; cbn; lia]. }
  assert (forall b, Forall (fun x => 0 <= x) (listRows b)) as Hp
    by (intros b; eapply Forall_impl; [apply Hr|]; cbn; lia).
  split.
  - done.
  - intros b x Hx%Hc. exact (proj1 (Forall_forall _ _) (Hr b) x Hx).
  - intros b. rewrite Hn. split.
    + intros Hne. destruct (listRows b) as [|x l] eqn:E; [done|]. exists x. apply Hc. rewrite E. left.
    + intros [x Hx%Hc] E. rewrite E in Hx. by apply elem_of_nil in Hx.
  - intros b Hb%Hn. apply Hc. by apply foldr_max_spec.
  - intros b x Hx%Hc. by apply foldr_max_spec.
Qed.

(** ** Reserved ranges *)

(** Whatever happened to an index before (rows written and deleted, ranges
    reserved), the next range a node reserves on it lies after every row the index
    has and after every range reserved earlier; identifiers are never zero. *)
Theorem reserved_ranges_disjoint {B} `{RoaringLaws B} (bsi bsi' : BSIBitmap B) grants time size start :
  history bsi grants -> 0 <= time < 2 ^ 63 -> reserve bsi time size = Ok (start, bsi') ->
  0 < start /\
  (forall x, Contains (ExistenceBitmap bsi) x = true -> x < start) /\
  (forall g, g ∈ grants -> g.1 + g.2 <= start).
Proof.
  intros Hh%history_ranged Ht Hr. pose proof Hh as (q & Eq & Hrows & _ & _ & _ & Hfits & Hafter).
  unfold reserve in Hr. rewrite Eq in Hr. injection Hr as Estart _.
  pose proof (next_start bsi grants q time Hh Eq Ht) as (H1 & H2 & H3 & _). rewrite Estart in *.
  split; [done|]. split.
  - intros x Hx%(maxColumnID_spec bsi Hrows). lia.
  - intros g Hg. destruct grants as [|g0 grants]; [by apply elem_of_nil in Hg|].
    specialize (H3 g0 eq_refl). inversion_clear Hafter as [|? ? _ Hall].
    apply Forall_cons in Hfits as [(? & ? & ?) _].
    apply elem_of_cons in Hg as [->|Hg]; [done|].
    apply (proj1 (Forall_forall _ _) Hall) in Hg. unfold after in Hg. lia.
Qed.

(** An index with rows 1 to 3: the ranges of two clients, then a row of the second. *)
Lemma reserved_ranges_disjoint_witness :
  let bsi := mkBSIBitmap [1; 2; 3; 1004] [] (Some [NewSequencer 4 1000; NewSequencer 1004 1000]) in
  let bsi' := mkBSIBitmap [1; 2; 3; 1004] [] (Some [NewSequencer 1004 1000; NewSequencer 2004 1000]) in
  @reserve _ listRoaring bsi 0 1000 = Ok (2004, bsi') /\
  0 < 2004 /\
  (forall x, @Contains _ listRoaring (ExistenceBitmap bsi) x = true -> x < 2004) /\
  (forall g, g ∈ [(1004, 1000); (4, 1000)] -> g.1 + g.2 <= 2004).
Proof.
  cbn zeta.
  assert (@reserve _ listRoaring
    (mkBSIBitmap [1; 2; 3; 1004] [] (Some [NewSequencer 4 1000; NewSequencer 1004 1000])) 0 1000 =
    Ok (2004, mkBSIBitmap [1; 2; 3; 1004] []
                (Some [NewSequencer 1004 1000; NewSequencer 2004 1000]))) as E by (vm_compute; reflexivity).
  split; [exact E|].
  refine (@reserved_ranges_disjoint _ listRoaring listRoaring_laws _ _ _ 0 1000 2004 _ _ E); [|lia].
  assert (forall l x, Forall (fun y => y < 2 ^ 64 - 1) l ->
            @Contains _ listRoaring l x = true -> x < 2 ^ 64 - 1) as Hl.
  { intros l x Hl Hx%bool_decide_eq_true. apply list_elem_of_filter in Hx as [_ Hx].
    exact (proj1 (Forall_forall _ _) Hl x Hx). }
  eapply (@history_rows _ listRoaring
    (mkBSIBitmap [1; 2; 3] [] (Some [NewSequencer 4 1000; NewSequencer 1004 1000])) [1; 2; 3; 1004]);
    [|intros x; apply Hl; repeat constructor; lia].
  eapply (@history_reserve _ listRoaring (mkBSIBitmap [1; 2; 3] [] (Some [NewSequencer 4 1000])) 0);
    [|lia..|vm_compute; reflexivity].
  eapply (@history_reserve _ listRoaring (mkBSIBitmap [1; 2; 3] [] (Some [])) 0);
    [|lia..|vm_compute; reflexivity].
  apply history_new. intros x. apply Hl. repeat constructor; lia.
Defined.
