(* ===== verification/Bitmaps.v ===== *)
(** * Bitmaps and bit-sliced indexes

    The operations of the roaring library the query code calls, on bitmaps and on
    bit-sliced indexes (BSI: an integer value per row), as classes.  The laws state
    the documented meaning of each operation: on the members of a bitmap, and on the
    value an index has for a row.  Bitmaps and indexes as lists satisfy the laws. *)

From S2P Require Import Prelude Sequencer.

(** ** Bitmaps *)

Class RoaringOps (B : Type) : Type := {
  And : B -> B -> B;
  AndNot : B -> B -> B;
  ParOr : list B -> B;
  FastAnd : list B -> B;
  BitmapOf : list Z -> B;
  ToArray : B -> list Z;
  MarshalBinary : B -> go bytes;
  UnmarshalBinary : bytes -> go B }.

(** The same rows: the equality of bitmaps that the laws speak of. *)
Definition same_rows {B} `{Roaring B} (b c : B) : Prop := forall x, Contains b x = Contains c x.

Class RoaringOpsLaws (B : Type) `{Roaring B} `{!RoaringOps B} : Prop := {
  #[global] roaring_base :: RoaringLaws B;
  Contains_And b c x : Contains (And b c) x = Contains b x && Contains c x;
  Contains_AndNot b c x : Contains (AndNot b c) x = Contains b x && negb (Contains c x);
  Contains_ParOr l x : Contains (ParOr l) x = existsb (fun b => Contains b x) l;
  Contains_FastAnd l x : l <> [] -> Contains (FastAnd l) x = forallb (fun b => Contains b x) l;
  Contains_BitmapOf l x : Forall (in_u 64) l -> Contains (BitmapOf l) x = bool_decide (x ∈ l);
  elem_of_ToArray b x : x ∈ ToArray b <-> Contains b x = true;
  ToArray_NoDup b : NoDup (ToArray b);
  GetCardinality_ToArray b : GetCardinality b = zlen (ToArray b);
  Marshal_roundtrip b : exists data b',
    MarshalBinary b = Ok data /\ UnmarshalBinary data = Ok b' /\ same_rows b' b }.

(** ** Bit-sliced indexes *)

Inductive Operation : Type := LT | LE | EQ | GE | GT | RANGE.

(** The condition an operation puts on a value; [end_] is used by RANGE only. *)
Definition holds (op : Operation) (valueOrStart end_ v : Z) : bool :=
  match op with
  | LT => v <? valueOrStart
  | LE => v <=? valueOrStart
  | EQ => v =? valueOrStart
  | GE => valueOrStart <=? v
  | GT => valueOrStart <? v
  | RANGE => (valueOrStart <=? v) && (v <=? end_)
  end.

(** [CompareBigValue] and [BatchEqualBig] without their parallelism argument; a nil
    found set is [None]. *)
Class BSILib (B I : Type) : Type := {
  NewDefaultBSI : I;
  GetExistenceBitmap : I -> B;
  GetBigValue : I -> Z -> option Z;
  GetBigValues : I -> list Z -> list (option Z);
  CompareBigValue : I -> Operation -> Z -> Z -> option B -> B;
  BatchEqualBig : I -> list Z -> B;
  BSI_ParOr : I -> list I -> I;
  NewBSIRetainSet : I -> B -> I }.

(** Indexes that give no row two different values. *)
Definition agree {B I} `{BSILib B I} (l : list I) : Prop :=
  forall i j x v w, i ∈ l -> j ∈ l -> GetBigValue i x = Some v -> GetBigValue j x = Some w -> v = w.

(** An operand between two of the values, if there are any: [has x v] for a row [x] with
    the value [v]. *)
Definition between (has : Z -> Z -> Prop) (a : Z) : Prop := forall x v, has x v ->
  exists y lo z hi, has y lo /\ has z hi /\ lo <= a <= hi.

Lemma between_ext (has has' : Z -> Z -> Prop) a : (forall x v, has x v <-> has' x v) -> between has a <-> between has' a.
Proof. intros E. unfold between. by setoid_rewrite E. Qed.

(** The operand is between two values of the index. *)
Definition inRange {B I} `{BSILib B I} (i : I) (a : Z) : Prop :=
  exists x lo y hi, GetBigValue i x = Some lo /\ GetBigValue i y = Some hi /\ lo <= a <= hi.

(** The operands an operation looks at. *)
Definition operandsOf (op : Operation) (valueOrStart end_ : Z) : list Z :=
  match op with RANGE => [valueOrStart; end_] | _ => [valueOrStart] end.

(** A comparison is documented for operands in the range of the index; out of range its
    result may be wrong.  It looks at the rows of the index, or at the rows of the found
    set; of those among them that have no value the documentation says nothing, and
    neither do the laws.  [BSI_ParOr] is for indexes that do not overlap, or whose
    values are the same where they do. *)
Class BSILaws (B I : Type) `{Roaring B} `{!BSILib B I} : Prop := {
  NewDefaultBSI_empty x : GetBigValue (NewDefaultBSI (B := B) (I := I)) x = None;
  Contains_existence (i : I) x :
    Contains (GetExistenceBitmap i) x = bool_decide (is_Some (GetBigValue i x));
  GetBigValues_map (i : I) rows : GetBigValues i rows = map (GetBigValue i) rows;
  Contains_Compare (i : I) op a b x v : GetBigValue i x = Some v ->
    Forall (inRange (B := B) i) (operandsOf op a b) ->
    Contains (CompareBigValue i op a b None) x = holds op a b v;
  Compare_rows (i : I) op a b x :
    Contains (CompareBigValue i op a b None) x = true -> is_Some (GetBigValue i x);
  Contains_Compare_found (i : I) op a b fs x v : GetBigValue i x = Some v ->
    Forall (inRange (B := B) i) (operandsOf op a b) ->
    Contains (CompareBigValue i op a b (Some fs)) x = Contains fs x && holds op a b v;
  Compare_found_rows (i : I) op a b fs x :
    Contains (CompareBigValue i op a b (Some fs)) x = true -> Contains fs x = true;
  Contains_BatchEqual (i : I) vs x :
    Contains (BatchEqualBig i vs) x =
    match GetBigValue i x with Some v => bool_decide (v ∈ vs) | None => false end;
  BSI_ParOr_value (i : I) l x v : agree (B := B) (i :: l) ->
    GetBigValue (BSI_ParOr i l) x = Some v <-> exists j, j ∈ i :: l /\ GetBigValue j x = Some v;
  NewBSIRetainSet_value (i : I) b x :
    GetBigValue (NewBSIRetainSet i b) x = if Contains b x then GetBigValue i x else None }.

(** ** Consequences *)

Section Laws.

Context {B : Type} `{RoaringOpsLaws B}.

#[export] Instance same_rows_equivalence : Equivalence (same_rows (B := B)).
Proof.
  split; [done|by intros b c E x; rewrite (E x)|].
  by intros a b c E1 E2 x; rewrite (E1 x), (E2 x).
Qed.

#[export] Instance And_proper : Proper (same_rows ==> same_rows ==> same_rows) (And (B := B)).
Proof. intros b b' E1 c c' E2 x. by rewrite !Contains_And, (E1 x), (E2 x). Qed.

#[export] Instance AndNot_proper : Proper (same_rows ==> same_rows ==> same_rows) (AndNot (B := B)).
Proof. intros b b' E1 c c' E2 x. by rewrite !Contains_AndNot, (E1 x), (E2 x). Qed.

#[export] Instance ParOr_proper : Proper (Forall2 same_rows ==> same_rows) (ParOr (B := B)).
Proof.
  intros l l' E x. rewrite !Contains_ParOr. induction E as [|b b' l l' Eb _ IH]; [done|].
  cbn. by rewrite (Eb x), IH.
Qed.

#[export] Instance GetCardinality_proper : Proper (same_rows ==> eq) (GetCardinality (B := B)).
Proof.
  intros b c E. rewrite !GetCardinality_ToArray. unfold zlen. f_equal.
  apply Permutation_length, NoDup_Permutation; [apply ToArray_NoDup..|].
  intros x. by rewrite !elem_of_ToArray, (E x).
Qed.

Lemma GetCardinality_zero (b : B) : GetCardinality b = 0 <-> forall x, Contains b x = false.
Proof.
  pose proof (GetCardinality_pos b) as Hp.
  assert (0 <= GetCardinality b) by (rewrite GetCardinality_ToArray; apply zlen_nonneg). split.
  - intros E x. destruct (Contains b x) eqn:Ex; [|done].
    assert (0 < GetCardinality b) by (apply Hp; by exists x). lia.
  - intros Hall. destruct (decide (0 < GetCardinality b)) as [[x Hx]%Hp|]; [|lia].
    by rewrite Hall in Hx.
Qed.

Lemma ParOr_true l x : Contains (ParOr (B := B) l) x = true <-> exists b, b ∈ l /\ Contains b x = true.
Proof.
  rewrite Contains_ParOr, existsb_exists. setoid_rewrite list_elem_of_In. done.
Qed.

Lemma ParOr_nil x : Contains (ParOr (B := B) []) x = false.
Proof. by rewrite Contains_ParOr. Qed.

Lemma FastAnd_true l x : l <> [] ->
  Contains (FastAnd (B := B) l) x = true <-> forall b, b ∈ l -> Contains b x = true.
Proof.
  intros Hl. rewrite Contains_FastAnd, forallb_forall by done. setoid_rewrite list_elem_of_In. done.
Qed.

Lemma And_true (b c : B) x :
  Contains (And b c) x = true <-> Contains b x = true /\ Contains c x = true.
Proof. by rewrite Contains_And, andb_true_iff. Qed.

Lemma AndNot_true (b c : B) x :
  Contains (AndNot b c) x = true <-> Contains b x = true /\ Contains c x <> true.
Proof. by rewrite Contains_AndNot, andb_true_iff, negb_true_iff, <- not_true_iff_false. Qed.

End Laws.

(** ** The library on lists *)

#[local] Existing Instance listRoaring.
#[local] Existing Instance listRoaring_laws.

Fixpoint unmarshalRows (fuel : nat) (data : bytes) : go (list Z) :=
  match fuel, data with
  | _, [] => Ok []
  | O, _ => Err ErrUnexpectedEOF
  | S fuel, _ =>
    if zlen data <? 8 then Err ErrUnexpectedEOF
    else cons (le_value (take 8 data)) <$> unmarshalRows fuel (drop 8 data)
  end.

Definition listRoaringOps : RoaringOps (list Z) := {|
  And b c := filter (fun x => Contains c x = true) (listRows b);
  AndNot b c := filter (fun x => Contains c x = false) (listRows b);
  ParOr l := concat l;
  FastAnd l := match l with
               | [] => []
               | b :: l => filter (fun x => forallb (fun c => Contains c x) l = true) (listRows b)
               end;
  BitmapOf l := l;
  ToArray b := remove_dups (listRows b);
  MarshalBinary b := Ok (concat (map (le_bytes 8) (listRows b)));
  UnmarshalBinary data := unmarshalRows (length data) data |}.

#[local] Existing Instance listRoaringOps.

(** Rows with their values; the first value of a row counts. *)
Fixpoint listValue (i : list (Z * Z)) (x : Z) : option Z :=
  match i with
  | [] => None
  | (y, v) :: i => if decide (y = x /\ 0 <= x < 2 ^ 64) then Some v else listValue i x
  end.

Definition listSelect (i : list (Z * Z)) (p : Z -> bool) (foundSet : option (list Z)) : list Z :=
  filter (fun x => match listValue i x with Some v => p v | None => false end = true)
    (match foundSet with Some fs => fs | None => map fst i end).

Definition listBSI : BSILib (list Z) (list (Z * Z)) := {|
  NewDefaultBSI := [];
  GetExistenceBitmap i := map fst i;
  GetBigValue := listValue;
  GetBigValues i rows := map (listValue i) rows;
  CompareBigValue i op a b fs := listSelect i (holds op a b) fs;
  BatchEqualBig i vs := listSelect i (fun v => bool_decide (v ∈ vs)) None;
  BSI_ParOr i l := i ++ concat l;
  NewBSIRetainSet i b := filter (fun p => Contains b p.1 = true) i |}.

#[local] Existing Instance listBSI.

Lemma list_Contains (b : list Z) x : Contains b x = true <-> x ∈ b /\ 0 <= x < 2 ^ 64.
Proof. cbn. rewrite bool_decide_eq_true. unfold listRows. rewrite list_elem_of_filter. tauto. Qed.

Lemma list_Contains_bool (b c : list Z) x y :
  (x ∈ b /\ 0 <= x < 2 ^ 64 <-> y ∈ c /\ 0 <= y < 2 ^ 64) -> Contains b x = Contains c y.
Proof. intros E. apply eq_true_iff_eq. by rewrite !list_Contains. Qed.

Lemma unmarshalRows_marshal l fuel : Forall (fun x => 0 <= x < 2 ^ 64) l ->
  (8 * length l <= fuel)%nat -> unmarshalRows fuel (concat (map (le_bytes 8) l)) = Ok l.
Proof.
  intros Hl. revert fuel. induction Hl as [|x l Hx _ IH]; intros fuel Hf; [by destruct fuel|].
  cbn [length] in Hf. destruct fuel as [|fuel]; [lia|]. cbn [map concat].
  pose proof (zlen_nonneg (concat (map (le_bytes 8) l))).
  pose proof (zlen_le_bytes 8 x) as H8.
  assert (exists b bs, le_bytes 8 x ++ concat (map (le_bytes 8) l) = b :: bs) as (b & bs & E)
    by (destruct (le_bytes 8 x) as [|b bs] eqn:E; [by vm_compute in H8|by eexists _, _]).
  rewrite E. cbn [unmarshalRows]. rewrite <- E.
  assert ((zlen (le_bytes 8 x ++ concat (map (le_bytes 8) l)) <? 8) = false) as ->
    by (rewrite zlen_app, H8; change (Z.of_nat 8) with 8; lia).
  rewrite take_app_length', drop_app_length' by (by rewrite le_bytes_length).
  rewrite IH by lia. rewrite le_value_bytes_small by (change (Z.of_nat 8) with 8; lia). done.
Qed.

Lemma listRows_range b : Forall (fun x => 0 <= x < 2 ^ 64) (listRows b).
Proof. apply Forall_forall. by intros x [? _]%list_elem_of_filter. Qed.

Lemma marshalRows_length l : length (concat (map (le_bytes 8) l)) = (8 * length l)%nat.
Proof. induction l as [|x l IH]; [done|]. cbn [map concat length]. rewrite length_app, IH, le_bytes_length. lia. Qed.

Lemma list_Contains_filter (P : Z -> Prop) `{!forall x, Decision (P x)} (b : list Z) x :
  Contains (filter P (listRows b)) x = true <-> Contains b x = true /\ P x.
Proof. rewrite !list_Contains. unfold listRows. rewrite !list_elem_of_filter. tauto. Qed.

#[local] Instance listRoaringOps_laws : RoaringOpsLaws (list Z).
Proof.
  split.
  - apply _.
  - intros b c x. apply eq_true_iff_eq. rewrite andb_true_iff. apply list_Contains_filter.
  - intros b c x. apply eq_true_iff_eq. rewrite andb_true_iff, negb_true_iff. apply list_Contains_filter.
  - intros l x. apply eq_true_iff_eq. rewrite existsb_exists, list_Contains.
    setoid_rewrite list_Contains. cbn [ParOr listRoaringOps]. rewrite list_elem_of_In, in_concat.
    setoid_rewrite list_elem_of_In. naive_solver.
  - intros l x Hl. destruct l as [|b l]; [done|]. apply eq_true_iff_eq. cbn [forallb].
    rewrite andb_true_iff. apply (list_Contains_filter (fun x => forallb (fun c => Contains c x) l = true)).
  - intros l x Hl. apply eq_true_iff_eq. rewrite list_Contains, bool_decide_eq_true. cbn. split; [tauto|].
    intros Hx. split; [done|]. exact (proj1 (Forall_forall _ _) Hl x Hx).
  - intros b x. cbn [ToArray listRoaringOps]. rewrite elem_of_remove_dups, list_Contains.
    unfold listRows. rewrite list_elem_of_filter. tauto.
  - intros b. apply NoDup_remove_dups.
  - done.
  - intros b. eexists _, (listRows b). split; [done|]. split.
    + cbn. apply unmarshalRows_marshal; [apply listRows_range|]. by rewrite marshalRows_length.
    + intros x. apply list_Contains_bool. unfold listRows. rewrite list_elem_of_filter. tauto.
Qed.

Lemma listValue_range i x v : listValue i x = Some v -> 0 <= x < 2 ^ 64.
Proof. induction i as [|[y w] i IH]; [done|]. cbn. case_decide; [tauto|done]. Qed.

Lemma listValue_is_Some i x : is_Some (listValue i x) <-> x ∈ map fst i /\ 0 <= x < 2 ^ 64.
Proof.
  induction i as [|[y w] i IH]; cbn [listValue map fst].
  - rewrite elem_of_nil. split; [by intros [? ?]|tauto].
  - rewrite elem_of_cons. case_decide as Hd.
    + destruct Hd as [-> Hr]. split; [tauto|by eexists].
    + rewrite IH. split; [tauto|]. intros [[->|Hx] Hr]; [by destruct Hd|tauto].
Qed.

Lemma listValue_app i j x :
  listValue (i ++ j) x = match listValue i x with Some v => Some v | None => listValue j x end.
Proof. induction i as [|[y w] i IH]; [done|]. cbn. by case_decide. Qed.

Lemma listValue_concat l x v : listValue (concat l) x = Some v -> exists j, j ∈ l /\ listValue j x = Some v.
Proof.
  induction l as [|i l IH]; [done|]. cbn [concat]. rewrite listValue_app.
  destruct (listValue i x) as [w|] eqn:E.
  - intros [= ->]. exists i. split; [left|done].
  - intros (j & Hj & Ej)%IH. exists j. split; [by right|done].
Qed.

Lemma listSelect_Contains i p fs x :
  Contains (listSelect i p fs) x = true <->
  (match fs with Some fs => x ∈ fs | None => True end) /\ exists v, listValue i x = Some v /\ p v = true.
Proof.
  rewrite list_Contains. unfold listSelect. rewrite list_elem_of_filter.
  destruct (listValue i x) as [v|] eqn:E; [|naive_solver].
  pose proof (listValue_range _ _ _ E).
  assert (x ∈ map fst i) by (apply listValue_is_Some; by eexists). destruct fs; naive_solver.
Qed.

#[local] Instance listBSI_laws : BSILaws (list Z) (list (Z * Z)).
Proof.
  split.
  - done.
  - intros i x. apply eq_true_iff_eq. rewrite list_Contains, bool_decide_eq_true.
    symmetry. apply (listValue_is_Some i x).
  - done.
  - intros i op a b x v E _. apply eq_true_iff_eq. etransitivity; [apply listSelect_Contains|].
    cbn [GetBigValue listBSI] in E. rewrite E. naive_solver.
  - intros i op a b x [_ (v & E & _)]%listSelect_Contains. by exists v.
  - intros i op a b fs x v E _. pose proof (listValue_range _ _ _ E). apply eq_true_iff_eq.
    etransitivity; [apply listSelect_Contains|]. rewrite andb_true_iff, list_Contains.
    cbn [GetBigValue listBSI] in E. rewrite E. naive_solver.
  - intros i op a b fs x [Hx (v & E & _)]%listSelect_Contains.
    apply list_Contains. split; [done|by eapply listValue_range].
  - intros i vs x. apply eq_true_iff_eq. etransitivity; [apply listSelect_Contains|].
    cbn [GetBigValue listBSI]. destruct (listValue i x); naive_solver.
  - intros i l x v Ha. cbn [GetBigValue BSI_ParOr listBSI]. split.
    + intros E. change (i ++ concat l) with (concat (i :: l)) in E. by apply listValue_concat.
    + intros (j & Hj & Ej). destruct (listValue (concat (i :: l)) x) as [w|] eqn:E.
      * change (i ++ concat l) with (concat (i :: l)). rewrite E.
        apply listValue_concat in E as (k & Hk & Ek). f_equal. by apply (Ha k j x w v).
      * exfalso. revert Ej. clear Ha. revert Hj E. generalize (i :: l). intros l'.
        induction l' as [|k l' IH]; [by intros ?%elem_of_nil|]. cbn [concat].
        rewrite listValue_app. destruct (listValue k x) eqn:Ek; [done|].
        intros [->|Hj]%elem_of_cons E Ej; [congruence|by apply IH].
  - intros i b x. cbn [GetBigValue NewBSIRetainSet listBSI]. induction i as [|[y w] i IH].
    + by case_match.
    + rewrite filter_cons. cbn [fst]. case_decide as Hy; cbn [listValue].
      * case_decide as Hd; [destruct Hd as [-> _]; by rewrite Hy|done].
      * rewrite IH. case_match eqn:Ex; [|done]. rewrite decide_False; [done|]. by intros [-> _].
Qed.
