(* ===== verification/BSIBinary.v ===== *)
(** * Bit-sliced indexes on the wire

    shared/bsi_binary.go: an index is sent as the slices of the library, which lose the
    signs of its values, followed by a bitmap of the rows with a negative value and a
    marker.  The library's part is a class; its law says that the slices hold the values
    modulo a power of two. *)

From S2P Require Import Prelude GoStd Sequencer Bitmaps.

Class BSISliceLib (B I : Type) : Type := {
  Bitmap_Add : B -> Z -> B;
  Bitmap_IsEmpty : B -> bool;
  IsNegative : I -> Z -> bool;
  SetBigValue : I -> Z -> Z -> I;
  BSI_MarshalSlices : I -> go (list bytes);
  BSI_UnmarshalSlices : I -> list bytes -> go I }.

(** The first slice is the existence bitmap, the others the bits of the values; no bitmap
    with rows is an empty slice of bytes. *)
Class BSISliceLaws (B I : Type) `{Roaring B} `{!RoaringOps B} `{!BSILib B I} `{!BSISliceLib B I} : Prop := {
  Contains_Add (b : B) y x : in_u 64 y -> Contains (Bitmap_Add b y) x = bool_decide (x = y) || Contains b x;
  Unmarshal_nothing (b : B) x : UnmarshalBinary [] = Ok b -> Contains b x = false;
  IsEmpty_true (b : B) : Bitmap_IsEmpty b = true <-> forall x, Contains b x = false;
  IsNegative_value (i : I) x v : GetBigValue i x = Some v -> IsNegative i x = (v <? 0);
  SetBigValue_value (i : I) x v y : in_u 64 x ->
    GetBigValue (SetBigValue i x v) y = if decide (y = x) then Some v else GetBigValue i y;
  Slices_roundtrip (i : I) : exists data i', BSI_MarshalSlices i = Ok data /\ data <> [] /\
    BSI_UnmarshalSlices NewDefaultBSI data = Ok i' /\
    (forall x, GetBigValue i' x = (fun v => v mod 2 ^ (zlen data - 1)) <$> GetBigValue i x) /\
    (forall x v, GetBigValue i x = Some v -> - 2 ^ (zlen data - 1) <= v < 2 ^ (zlen data - 1)) }.

Definition bsiSignedBinaryMarker : bytes := str "QSBISIGN1".

Section Binary.

Context {B I : Type} `{Roaring B} `{!RoaringOps B} `{!BSILib B I} `{!BSISliceLib B I}.

(** A nil index has no slices. *)
Definition MarshalBSI (bsi : option I) : go (list bytes) :=
  match bsi with
  | None => Ok []
  | Some bsi =>
    data ← BSI_MarshalSlices (B := B) bsi;
    let sign := foldl (fun sign columnID => if IsNegative (B := B) bsi columnID then Bitmap_Add (I := I) sign columnID else sign)
                  NewBitmap (ToArray (GetExistenceBitmap (B := B) bsi)) in
    signData ← MarshalBinary sign;
    mret (data ++ [signData] ++ [bsiSignedBinaryMarker])
  end.

(** A panic of the library is an error. *)
Definition unmarshalRoaringBSI (bsi : I) (data : list bytes) : go I :=
  if decide (data = []) then Ok bsi
  else match BSI_UnmarshalSlices (B := B) bsi data with
       | Panic => Err (Errorf "roaring BSI unmarshal failed: %v" [AStr []])
       | r => r
       end.

Definition UnmarshalBitmap (bitmap : B) (data : bytes) : go B :=
  if decide (data = []) then Ok bitmap
  else match UnmarshalBinary data with
       | Panic => Err (Errorf "roaring bitmap unmarshal failed: %v" [AStr []])
       | r => r
       end.

(** The values of the rows with a negative one, less the power of two they were reduced by. *)
Definition rebuildSigned (sign : B) (unsigned : I) (offset : Z) : I :=
  let rows := ToArray (GetExistenceBitmap (B := B) unsigned) in
  foldl (fun rebuilt '(row, value) =>
    match value with
    | None => rebuilt
    | Some value => SetBigValue (B := B) rebuilt row (if Contains sign row then value - offset else value)
    end) (NewDefaultBSI (B := B)) (zip rows (GetBigValues (B := B) unsigned rows)).

(** The shift by the number of value slices panics without slices. *)
Definition UnmarshalBSI (bsi : I) (data : list bytes) : go I :=
  match reverse data with
  | marker :: signData :: rest =>
    if decide (marker <> bsiSignedBinaryMarker) then unmarshalRoaringBSI bsi data
    else
      sign ← UnmarshalBitmap NewBitmap signData;
      let payload := reverse rest in
      if Bitmap_IsEmpty (I := I) sign then unmarshalRoaringBSI bsi payload
      else
        unsigned ← unmarshalRoaringBSI (NewDefaultBSI (B := B)) payload;
        if decide (payload = []) then Panic
        else mret (rebuildSigned sign unsigned (Z.shiftl 1 (zlen payload - 1)))
  | _ => unmarshalRoaringBSI bsi data
  end.

End Binary.

Section Laws.

Context {B I : Type} `{RoaringOpsLaws B} `{!BSILib B I} `{!BSILaws B I} `{!BSISliceLib B I} `{!BSISliceLaws B I}.

Lemma sign_rows (bsi : I) l sign x : Forall (in_u 64) l ->
  Contains (foldl (fun sign columnID => if IsNegative (B := B) bsi columnID then Bitmap_Add (I := I) sign columnID else sign)
    sign l) x = Contains sign x || bool_decide (x ∈ l) && IsNegative (B := B) bsi x.
Proof.
  intros Hl. revert sign. induction Hl as [|y l Hy _ IH]; intros sign; cbn [foldl].
  { by rewrite orb_false_r. }
  rewrite IH. destruct (IsNegative bsi y) eqn:En.
  - rewrite Contains_Add by done. destruct (decide (x = y)) as [->|Hxy].
    + rewrite (bool_decide_true (y = y)), En by done. rewrite (bool_decide_true (y ∈ y :: l)) by left. by rewrite !orb_true_r.
    + rewrite (bool_decide_false (x = y)) by done. cbn. f_equal. f_equal. apply bool_decide_ext. set_solver.
  - f_equal. destruct (decide (x = y)) as [->|Hxy]; [by rewrite En, !andb_false_r|]. f_equal. apply bool_decide_ext. set_solver.
Qed.

Lemma rebuild_values (f : Z -> Z -> Z) l (g : Z -> option Z) (i : I) x : Forall (in_u 64) l -> NoDup l ->
  GetBigValue (B := B) (foldl (fun rebuilt '(row, value) =>
    match value with None => rebuilt | Some value => SetBigValue (B := B) rebuilt row (f row value) end) i
    (zip l (map g l))) x =
  match (if decide (x ∈ l) then g x else None) with Some v => Some (f x v) | None => GetBigValue (B := B) i x end.
Proof.
  intros Hl. revert i. induction Hl as [|y l Hy _ IH]; intros i Hnd; cbn [map zip zip_with foldl]; [done|].
  apply NoDup_cons in Hnd as [Hny Hnd]. rewrite IH by done. destruct (decide (x = y)) as [->|Hxy].
  - rewrite (decide_False (P := y ∈ l)) by done. rewrite (decide_True (P := y ∈ y :: l)) by left.
    destruct (g y); [|done]. rewrite SetBigValue_value by done. by rewrite decide_True.
  - assert ((if decide (x ∈ y :: l) then g x else None) = (if decide (x ∈ l) then g x else None)) as ->
      by (apply decide_ext; set_solver).
    destruct (if decide (x ∈ l) then g x else None); [done|]. destruct (g y); [|done].
    rewrite SetBigValue_value by done. by rewrite decide_False.
Qed.

Lemma value_row (i : I) x v : GetBigValue (B := B) i x = Some v -> x ∈ ToArray (GetExistenceBitmap (B := B) i).
Proof. intros E. apply elem_of_ToArray. by rewrite Contains_existence, E, bool_decide_true. Qed.

Lemma ToArray_range (b : B) : Forall (in_u 64) (ToArray b).
Proof. apply Forall_forall. intros x Hx%elem_of_ToArray. by eapply Contains_range. Qed.

(** The sign bitmap of an index. *)
Lemma sign_of (bsi : I) x : Contains (foldl (fun sign columnID =>
    if IsNegative (B := B) bsi columnID then Bitmap_Add (I := I) sign columnID else sign)
    NewBitmap (ToArray (GetExistenceBitmap (B := B) bsi))) x =
  match GetBigValue (B := B) bsi x with Some v => v <? 0 | None => false end.
Proof.
  rewrite sign_rows by apply ToArray_range. rewrite NewBitmap_empty. cbn [orb].
  destruct (GetBigValue bsi x) as [v|] eqn:Ev.
  - rewrite bool_decide_true by by eapply value_row. by apply IsNegative_value.
  - rewrite bool_decide_false; [done|]. intros Hx%elem_of_ToArray. rewrite Contains_existence, Ev in Hx.
    by apply bool_decide_eq_true in Hx as [? ?].
Qed.

Lemma unmarshalSign data (b : B) : UnmarshalBinary data = Ok b ->
  exists b', UnmarshalBitmap (B := B) NewBitmap data = Ok b' /\ same_rows b' b.
Proof.
  intros E. unfold UnmarshalBitmap. case_decide as Hd; [|rewrite E; by exists b].
  subst. exists NewBitmap. split; [done|]. intros x. rewrite NewBitmap_empty. symmetry. by eapply Unmarshal_nothing.
Qed.

Lemma reduced_value v n : - 2 ^ n <= v < 2 ^ n -> (if v <? 0 then v mod 2 ^ n - 2 ^ n else v mod 2 ^ n) = v.
Proof.
  intros Hv. case_if; b2p; [|apply Z.mod_small; lia].
  rewrite <- (Z_mod_plus_full v 1), Z.mod_small by lia. lia.
Qed.

(** An index of the client reaches a node as it was sent: what [UnmarshalBSI] reads
    of the slices of [MarshalBSI] has the value of every row, negative ones included. *)
Lemma UnmarshalBSI_Marshal (bsi : I) : exists data bsi', MarshalBSI (B := B) (Some bsi) = Ok data /\
  UnmarshalBSI (B := B) (NewDefaultBSI (B := B)) data = Ok bsi' /\
  forall x, GetBigValue (B := B) bsi' x = GetBigValue (B := B) bsi x.
Proof.
  destruct (Slices_roundtrip (B := B) bsi) as (data & unsigned & Ed & Hne & Eu & Hval & Hrange).
  unfold MarshalBSI. rewrite Ed. cbn [mbind go_bind]. set (sign := foldl _ _ _).
  destruct (Marshal_roundtrip sign) as (signData & sign' & Es & Es' & Hsign). rewrite Es. cbn [mbind go_bind mret go_ret].
  eexists _. enough (exists bsi', UnmarshalBSI (B := B) (NewDefaultBSI (B := B))
      (data ++ [signData] ++ [bsiSignedBinaryMarker]) = Ok bsi' /\
      forall x, GetBigValue (B := B) bsi' x = GetBigValue (B := B) bsi x) as (bsi' & ? & ?) by by exists bsi'.
  unfold UnmarshalBSI. rewrite app_assoc, reverse_snoc, reverse_snoc, reverse_involutive.
  rewrite decide_False by (intros Hn; by apply Hn).
  destruct (unmarshalSign signData sign' Es') as (sign'' & -> & Hsign''). cbn [mbind go_bind].
  assert (forall x, Contains sign'' x = match GetBigValue (B := B) bsi x with Some v => v <? 0 | None => false end) as Hneg
    by (intros x; rewrite (Hsign'' x), (Hsign x); apply sign_of).
  assert (unmarshalRoaringBSI (B := B) (NewDefaultBSI (B := B)) data = Ok unsigned) as Hun
    by (unfold unmarshalRoaringBSI; by rewrite decide_False, Eu).
  rewrite Hun. destruct (Bitmap_IsEmpty sign'') eqn:Ee.
  - exists unsigned. split; [done|]. intros x. rewrite Hval. specialize (Hneg x). rewrite (proj1 (IsEmpty_true _) Ee x) in Hneg.
    destruct (GetBigValue bsi x) as [v|] eqn:Ev; [|done]. cbn. rewrite <- (reduced_value v (zlen data - 1)) at 2 by eauto.
    by rewrite <- Hneg.
  - cbn [mbind go_bind]. rewrite (decide_False (P := data = [])) by done. eexists. split; [done|]. intros x. unfold rebuildSigned.
    rewrite GetBigValues_map.
    rewrite (rebuild_values (fun row value => if Contains sign'' row then value - Z.shiftl 1 (zlen data - 1) else value))
      by (apply ToArray_range || apply ToArray_NoDup).
    rewrite Hneg, Hval, NewDefaultBSI_empty. rewrite Z.shiftl_1_l.
    destruct (GetBigValue bsi x) as [v|] eqn:Ev; cbn [fmap option_fmap option_map]; [|by case_decide].
    rewrite decide_True by (eapply value_row; by rewrite Hval, Ev). f_equal. apply reduced_value. eauto.
Qed.

End Laws.

(** ** Lists as indexes *)

Section Lists.

#[local] Existing Instance listRoaring.
#[local] Existing Instance listRoaringOps.
#[local] Existing Instance listRoaringOps_laws.
#[local] Existing Instance listBSI.
#[local] Existing Instance listBSI_laws.

(** Enough bits for every value. *)
Definition listBits (i : list (Z * Z)) : nat := Z.to_nat (foldr (fun p n => Z.max (Z.log2 (Z.abs p.2) + 1) n) 0 i).

Definition listBit (i : list (Z * Z)) (k : nat) : list Z :=
  filter (fun x => match listValue i x with Some v => Z.testbit v (Z.of_nat k) | None => false end = true) (map fst i).

Definition sliceBytes (b : list Z) : bytes := concat (map (le_bytes 8) (listRows b)).

Fixpoint bitsValue (slices : list (list Z)) (x : Z) : Z :=
  match slices with
  | [] => 0
  | slice :: slices => Z.b2z (Contains slice x) + 2 * bitsValue slices x
  end.

Definition listBSISlices : BSISliceLib (list Z) (list (Z * Z)) := {|
  Bitmap_Add b y := y :: b;
  Bitmap_IsEmpty b := bool_decide (listRows b = []);
  IsNegative i x := match listValue i x with Some v => v <? 0 | None => false end;
  SetBigValue i x v := (x, v) :: i;
  BSI_MarshalSlices i := Ok (map sliceBytes (map fst i :: map (listBit i) (seq 0 (listBits i))));
  BSI_UnmarshalSlices i data :=
    slices ← mapM UnmarshalBinary data;
    match slices with
    | rows :: slices => mret (map (fun x => (x, bitsValue slices x)) rows)
    | [] => mret i
    end |}.

#[local] Existing Instance listBSISlices.

Lemma listBits_bound i x v : listValue i x = Some v -> Z.abs v < 2 ^ Z.of_nat (listBits i).
Proof.
  unfold listBits. set (f := fun (p : Z * Z) n => _). assert (0 <= foldr f 0 i) as Hn.
  { induction i as [|p i IH]; cbn; [lia|]. unfold f at 1. lia. }
  rewrite Z2Nat.id by done. clear Hn. induction i as [|[y w] i IH]; [done|]. cbn [listValue foldr]. case_decide as E.
  - intros [= ->]. unfold f at 1. cbn [snd].
    destruct (Z.eq_dec v 0) as [->|Hv]; [apply Z.pow_pos_nonneg; [done|]; pose proof (Z.log2_nonneg (Z.abs 0)); lia|].
    eapply Z.lt_le_trans; [apply (Z.log2_spec (Z.abs v)); lia|]. apply Z.pow_le_mono_r; [lia|]. rewrite Z.add_1_r. apply Z.le_max_l.
  - intros Hx%IH. eapply Z.lt_le_trans; [exact Hx|]. apply Z.pow_le_mono_r; [lia|apply Z.le_max_r].
Qed.

Lemma listBit_Contains i k x v : listValue i x = Some v -> Contains (listBit i k) x = Z.testbit v (Z.of_nat k).
Proof.
  intros E. pose proof (listValue_range _ _ _ E). apply eq_true_iff_eq. rewrite list_Contains. unfold listBit.
  rewrite list_elem_of_filter, E. assert (x ∈ map fst i) by (apply listValue_is_Some; by eexists). tauto.
Qed.

Lemma bitsValue_mod i x v n : listValue i x = Some v -> forall k,
  bitsValue (map (listBit i) (seq k n)) x = Z.shiftr v (Z.of_nat k) mod 2 ^ Z.of_nat n.
Proof.
  intros E. induction n as [|n IH]; intros k; cbn [seq map bitsValue].
  - by rewrite Z.mod_1_r.
  - rewrite (listBit_Contains i k x v E), IH. rewrite (Nat2Z.inj_succ n), Z.pow_succ_r by lia.
    rewrite Z.rem_mul_r by (try lia; apply Z.pow_pos_nonneg; lia). f_equal.
    + rewrite <- Z.bit0_mod, Z.shiftr_spec by lia. by rewrite Z.add_0_l.
    + f_equal. f_equal. rewrite <- Z.div2_div, Z.div2_spec, Z.shiftr_shiftr by lia. f_equal. lia.
Qed.

Lemma sliceBytes_read b : UnmarshalBinary (sliceBytes b) = Ok (listRows b).
Proof. apply unmarshalRows_marshal; [apply listRows_range|]. unfold sliceBytes. by rewrite marshalRows_length. Qed.

Lemma slices_read l : mapM UnmarshalBinary (map sliceBytes l) = Ok (map listRows l).
Proof. induction l as [|b l IH]; [done|]. cbn [map mapM]. rewrite sliceBytes_read. cbn [mbind go_bind]. by rewrite IH. Qed.

Lemma bitsValue_rows l x : bitsValue (map listRows l) x = bitsValue l x.
Proof.
  induction l as [|b l IH]; [done|]. cbn [map bitsValue]. rewrite IH. f_equal. f_equal. apply list_Contains_bool.
  unfold listRows. rewrite list_elem_of_filter. tauto.
Qed.

Lemma listValue_map (f : Z -> Z) l x :
  listValue (map (fun y => (y, f y)) l) x = if decide (x ∈ l /\ 0 <= x < 2 ^ 64) then Some (f x) else None.
Proof.
  induction l as [|y l IH]; cbn [map listValue].
  - rewrite decide_False; [done|]. by intros [?%elem_of_nil _].
  - rewrite IH. repeat case_decide; rewrite ?elem_of_cons in *; naive_solver.
Qed.

#[local] Instance listBSISlices_laws : BSISliceLaws (list Z) (list (Z * Z)).
Proof.
  split.
  - intros b y x Hy. apply eq_true_iff_eq. rewrite orb_true_iff, bool_decide_eq_true, !list_Contains. cbn.
    rewrite elem_of_cons. unfold in_u in Hy. naive_solver.
  - intros b x [= <-]. done.
  - intros b. cbn [Bitmap_IsEmpty listBSISlices]. rewrite bool_decide_eq_true. split.
    + intros E x. cbn. by rewrite E.
    + intros Hall. destruct (listRows b) as [|x l] eqn:E; [done|]. exfalso. specialize (Hall x).
      assert (x ∈ listRows b) as Hx by (rewrite E; left). apply list_elem_of_filter in Hx as [? ?].
      assert (Contains b x = true) by by apply list_Contains. congruence.
  - intros i x v E. cbn in E |- *. by rewrite E.
  - intros i x v y Hx. cbn. unfold in_u in Hx. case_decide as E1; case_decide as E2; naive_solver.
  - intros i. eexists _, _. split; [done|]. split; [done|]. split.
    { cbn [BSI_UnmarshalSlices listBSISlices]. by rewrite slices_read. }
    assert (zlen (map sliceBytes (map fst i :: map (listBit i) (seq 0 (listBits i)))) - 1 = Z.of_nat (listBits i)) as ->
      by (unfold zlen; cbn [map length]; rewrite !length_map, length_seq; lia).
    split.
    + intros x. cbn [GetBigValue listBSI]. rewrite (listValue_map (bitsValue _)), bitsValue_rows.
      destruct (listValue i x) as [v|] eqn:E.
      * rewrite decide_True.
        { rewrite (bitsValue_mod i x v _ E 0). by rewrite Z.shiftr_0_r. }
        pose proof (listValue_range _ _ _ E). split; [|done]. unfold listRows. apply list_elem_of_filter. split; [done|].
        apply listValue_is_Some. by eexists.
      * rewrite decide_False; [done|]. intros [[_ Hx]%list_elem_of_filter Hr].
        assert (is_Some (listValue i x)) as [? ?] by by apply listValue_is_Some. congruence.
    + intros x v E%listBits_bound. lia.
Qed.

End Lists.
