(* ===== verification/BitmapQuery.v ===== *)
(** * Bitmap queries

    The query tree clients build, the flat message it travels as, and the reduction
    of the message with the bitmaps of its fragments (shared/bitmapquery.go).

    A query is a tree of fragments, each a predicate on one field combined with the
    others by INTERSECT, UNION or DIFFERENCE.  [ToProto] lists the fragments children
    first and links them by generated identifiers; [FromProto] rebuilds the links.
    The result of a reduction keeps the bitmaps of the three kinds apart.

    Left out: the levels of a tree under construction (PushLevel, PopLevel, SetParent),
    which no code of the repository uses; the window of [FromProto], which [Reduce] does
    not read; the timing probes. *)

From S2P Require Import Prelude GoStd GoTime Sequencer Bitmaps.

(** ** Operands on the wire *)

Definition signedBigIntWirePrefix : bytes := [byte_of 0; byte_of 1].

(** A nil pointer encodes as the empty slice. *)
Definition BigIntToWireBytes (value : option Z) : bytes :=
  match value with
  | None => []
  | Some v => if 0 <=? v then BigInt_Bytes v else signedBigIntWirePrefix ++ BigInt_Bytes (Z.abs v)
  end.

Definition BigIntFromWireBytes (data : bytes) : Z :=
  match data with
  | a :: b :: rest =>
    if decide (a = byte_of 0 /\ b = byte_of 1) then - SetBytes rest else SetBytes data
  | _ => SetBytes data
  end.

(** ** The tree of a query *)

(** A float32 is kept as its bits. *)
Definition float32Positive (bits : Z) : bool := (0 <? bits) && (bits <=? 0x7f800000).
Definition float32Zero (bits : Z) : bool := (bits =? 0) || (bits =? 0x80000000).

(** The fields of a fragment that a client sets; the links are those of the tree. *)
Record QueryFragment : Type := mkQueryFragment {
  qf_Index : bytes;
  qf_Field : bytes;
  qf_RowID : Z;
  qf_Value : option Z;
  qf_Values : list (option Z);
  qf_Operation : bytes;
  qf_BSIOp : bytes;
  qf_Begin : option Z;
  qf_End : option Z;
  qf_Fk : bytes;
  qf_Search : bytes;
  qf_SamplePct : Z;
  qf_NullCheck : bool;
  qf_Negate : bool;
  qf_ORContext : bool }.

#[warnings="-register-all"]
Inductive FragmentTree : Type :=
  | FNode (f : QueryFragment) (children : list FragmentTree).

Record BitmapQuery : Type := mkBitmapQuery {
  bq_FromTime : bytes;
  bq_ToTime : bytes;
  bq_DisableFragmentFanout : bool;
  bq_root : option FragmentTree }.

Definition NewBitmapQuery : BitmapQuery := mkBitmapQuery [] [] false None.

Definition IsEmpty (q : BitmapQuery) : bool :=
  match bq_root q with None => true | Some _ => false end.

Definition GetRootIndex (q : BitmapQuery) : bytes :=
  match bq_root q with None => [] | Some (FNode f _) => qf_Index f end.

Definition withRoot (q : BitmapQuery) (root : FragmentTree) : BitmapQuery :=
  mkBitmapQuery (bq_FromTime q) (bq_ToTime q) (bq_DisableFragmentFanout q) (Some root).

(** The first fragment is the root; the others become its children.  A root without
    an index takes the predicate of the fragment over. *)
Definition addFragment (q : BitmapQuery) (f : FragmentTree) : BitmapQuery :=
  match bq_root q with
  | None => withRoot q f
  | Some (FNode r children) =>
    if decide (qf_Index r = []) then
      let '(FNode f _) := f in
      withRoot q (FNode (mkQueryFragment (qf_Index f) (qf_Field f) (qf_RowID f) (qf_Value f) (qf_Values f)
        (qf_Operation f) (qf_BSIOp f) (qf_Begin f) (qf_End f) (qf_Fk f) (qf_Search f)
        (qf_SamplePct r) (qf_NullCheck r) (qf_Negate r) (qf_ORContext r)) children)
    else withRoot q (FNode r (children ++ [f]))
  end.

(** ** The message *)

Inductive OpType : Type := INTERSECT | UNION | DIFFERENCE | INNER_JOIN | OUTER_JOIN.
Inductive BSIOp : Type := BSI_NA | BSI_LT | BSI_LE | BSI_EQ | BSI_GE | BSI_GT | BSI_RANGE | BSI_BATCH_EQ.

#[export] Instance OpType_eq_dec : EqDecision OpType.
Proof. solve_decision. Defined.
#[export] Instance BSIOp_eq_dec : EqDecision BSIOp.
Proof. solve_decision. Defined.

Definition OpType_name (op : OpType) : bytes :=
  match op with
  | INTERSECT => str "INTERSECT"
  | UNION => str "UNION"
  | DIFFERENCE => str "DIFFERENCE"
  | INNER_JOIN => str "INNER_JOIN"
  | OUTER_JOIN => str "OUTER_JOIN"
  end.

Definition BSIOp_name (op : BSIOp) : bytes :=
  match op with
  | BSI_NA => str "NA"
  | BSI_LT => str "LT"
  | BSI_LE => str "LE"
  | BSI_EQ => str "EQ"
  | BSI_GE => str "GE"
  | BSI_GT => str "GT"
  | BSI_RANGE => str "RANGE"
  | BSI_BATCH_EQ => str "BATCH_EQ"
  end.

(** The maps from names to values that the protocol compiler generates. *)
Definition OpType_value (name : bytes) : option OpType :=
  snd <$> list_find (fun op => OpType_name op = name) [INTERSECT; UNION; DIFFERENCE; INNER_JOIN; OUTER_JOIN].

Definition BSIOp_value (name : bytes) : option BSIOp :=
  snd <$> list_find (fun op => BSIOp_name op = name)
    [BSI_NA; BSI_LT; BSI_LE; BSI_EQ; BSI_GE; BSI_GT; BSI_RANGE; BSI_BATCH_EQ].

Record PbFragment : Type := mkPbFragment {
  pf_Index : bytes;
  pf_Field : bytes;
  pf_RowID : Z;
  pf_Id : bytes;
  pf_ChildrenIds : list bytes;
  pf_Operation : OpType;
  pf_BsiOp : BSIOp;
  pf_Value : bytes;
  pf_Begin : bytes;
  pf_End : bytes;
  pf_Fk : bytes;
  pf_Values : list bytes;
  pf_SamplePct : Z;
  pf_NullCheck : bool;
  pf_Negate : bool;
  pf_OrContext : bool }.

Record PbBitmapQuery : Type := mkPbBitmapQuery {
  pq_Query : list PbFragment;
  pq_FromTime : Z;
  pq_ToTime : Z }.

Definition withOperation (f : PbFragment) (op : OpType) : PbFragment :=
  mkPbFragment (pf_Index f) (pf_Field f) (pf_RowID f) (pf_Id f) (pf_ChildrenIds f) op (pf_BsiOp f)
    (pf_Value f) (pf_Begin f) (pf_End f) (pf_Fk f) (pf_Values f) (pf_SamplePct f)
    (pf_NullCheck f) (pf_Negate f) (pf_OrContext f).

(** An unknown operation travels as the first of its enumeration. *)
Definition fragmentProto (n : QueryFragment) (id : bytes) (childIds : list bytes) : PbFragment :=
  mkPbFragment (qf_Index n) (qf_Field n) (qf_RowID n) id childIds
    (default INTERSECT (OpType_value (qf_Operation n))) (default BSI_NA (BSIOp_value (qf_BSIOp n)))
    (BigIntToWireBytes (qf_Value n)) (BigIntToWireBytes (qf_Begin n)) (BigIntToWireBytes (qf_End n))
    (qf_Fk n) (map BigIntToWireBytes (qf_Values n)) (qf_SamplePct n)
    (qf_NullCheck n) (qf_Negate n) (qf_ORContext n).

(** [uuids n] is the [n]th identifier [uuid.New] makes; the count goes along. *)
Fixpoint toProtoFrag (uuids : nat -> bytes) (t : FragmentTree) (n : nat)
    : list PbFragment * bytes * nat :=
  let fix all (ts : list FragmentTree) (n : nat) : list PbFragment * list bytes * nat :=
    match ts with
    | [] => ([], [], n)
    | t :: ts =>
      let '(fa, id, n) := toProtoFrag uuids t n in
      let '(fas, ids, n) := all ts n in
      (fa ++ fas, id :: ids, n)
    end in
  match t with
  | FNode f children =>
    let '(fa, childIds, n) := all children n in
    let id := uuids n in
    (fa ++ [fragmentProto f id childIds], id, S n)
  end.

(** A time that does not parse leaves zero. *)
Definition ToProto (uuids : nat -> bytes) (q : BitmapQuery) : PbBitmapQuery :=
  mkPbBitmapQuery
    (match bq_root q with None => [] | Some t => (toProtoFrag uuids t 0).1.1 end)
    (match ParseYMDH (bq_FromTime q) with Some t => UnixNano t | None => 0 end)
    (match ParseYMDH (bq_ToTime q) with Some t => UnixNano t | None => 0 end).

(** ** Intermediate results *)

Record RowBitmap (B : Type) : Type := mkRowBitmap { rb_Field : bytes; rb_RowID : Z; rb_Bits : B }.
Arguments mkRowBitmap {B}.
Arguments rb_Field {B}.
Arguments rb_RowID {B}.
Arguments rb_Bits {B}.

Record FK : Type := mkFK { JoinIndex : bytes; fk_Field : bytes }.

(** [im_union] and [im_existence] are nil before [Collapse]. *)
Record IntermediateResult (B : Type) : Type := mkIntermediateResult {
  im_Index : bytes;
  im_SamplePct : Z;
  im_SampleIsUnion : bool;
  im_unions : list B;
  im_intersects : list B;
  im_andDifferences : list B;
  im_orDifferences : list B;
  im_existences : list B;
  im_samples : list (RowBitmap B);
  im_joinFkList : list FK;
  im_union : option B;
  im_existence : option B;
  im_count : option Z }.
Arguments mkIntermediateResult {B}.
Arguments im_Index {B}.
Arguments im_SamplePct {B}.
Arguments im_SampleIsUnion {B}.
Arguments im_unions {B}.
Arguments im_intersects {B}.
Arguments im_andDifferences {B}.
Arguments im_orDifferences {B}.
Arguments im_existences {B}.
Arguments im_samples {B}.
Arguments im_joinFkList {B}.
Arguments im_union {B}.
Arguments im_existence {B}.
Arguments im_count {B}.

Section Intermediate.

Context {B : Type} `{Roaring B} `{!RoaringOps B}.

Implicit Types (r : IntermediateResult B) (b : B).

Definition NewIntermediateResult (index : bytes) : IntermediateResult B :=
  mkIntermediateResult index 0 false [] [] [] [] [] [] [] None None None.

Definition AddIntersect r b : IntermediateResult B :=
  mkIntermediateResult (im_Index r) (im_SamplePct r) (im_SampleIsUnion r) (im_unions r)
    (im_intersects r ++ [b]) (im_andDifferences r) (im_orDifferences r) (im_existences r)
    (im_samples r) (im_joinFkList r) (im_union r) (im_existence r) (im_count r).

Definition AddUnion r b : IntermediateResult B :=
  mkIntermediateResult (im_Index r) (im_SamplePct r) (im_SampleIsUnion r) (im_unions r ++ [b])
    (im_intersects r) (im_andDifferences r) (im_orDifferences r) (im_existences r)
    (im_samples r) (im_joinFkList r) (im_union r) (im_existence r) (im_count r).

Definition AddAndDifference r b : IntermediateResult B :=
  mkIntermediateResult (im_Index r) (im_SamplePct r) (im_SampleIsUnion r) (im_unions r)
    (im_intersects r) (im_andDifferences r ++ [b]) (im_orDifferences r) (im_existences r)
    (im_samples r) (im_joinFkList r) (im_union r) (im_existence r) (im_count r).

Definition AddOrDifference r b : IntermediateResult B :=
  mkIntermediateResult (im_Index r) (im_SamplePct r) (im_SampleIsUnion r) (im_unions r)
    (im_intersects r) (im_andDifferences r) (im_orDifferences r ++ [b]) (im_existences r)
    (im_samples r) (im_joinFkList r) (im_union r) (im_existence r) (im_count r).

Definition AddSamples r (s : list (RowBitmap B)) : IntermediateResult B :=
  mkIntermediateResult (im_Index r) (im_SamplePct r) (im_SampleIsUnion r) (im_unions r)
    (im_intersects r) (im_andDifferences r) (im_orDifferences r) (im_existences r)
    (im_samples r ++ s) (im_joinFkList r) (im_union r) (im_existence r) (im_count r).

Definition AddExistence r b : IntermediateResult B :=
  mkIntermediateResult (im_Index r) (im_SamplePct r) (im_SampleIsUnion r) (im_unions r)
    (im_intersects r) (im_andDifferences r) (im_orDifferences r) (im_existences r ++ [b])
    (im_samples r) (im_joinFkList r) (im_union r) (im_existence r) (im_count r).

Definition AddFK r (index fk : bytes) : IntermediateResult B :=
  mkIntermediateResult (im_Index r) (im_SamplePct r) (im_SampleIsUnion r) (im_unions r)
    (im_intersects r) (im_andDifferences r) (im_orDifferences r) (im_existences r)
    (im_samples r) (im_joinFkList r ++ [mkFK index fk]) (im_union r) (im_existence r) (im_count r).

Definition setSampling r (pct : Z) (isUnion : bool) : IntermediateResult B :=
  mkIntermediateResult (im_Index r) pct isUnion (im_unions r)
    (im_intersects r) (im_andDifferences r) (im_orDifferences r) (im_existences r)
    (im_samples r) (im_joinFkList r) (im_union r) (im_existence r) (im_count r).

Definition setFinal r (union existence : option B) (count : option Z) : IntermediateResult B :=
  mkIntermediateResult (im_Index r) (im_SamplePct r) (im_SampleIsUnion r) (im_unions r)
    (im_intersects r) (im_andDifferences r) (im_orDifferences r) (im_existences r)
    (im_samples r) (im_joinFkList r) union existence count.

Definition SetCount r (count : Z) : IntermediateResult B :=
  setFinal r (im_union r) (im_existence r) (Some count).

Definition AddCount r (count : Z) : IntermediateResult B :=
  SetCount r (wrap_u 64 (default 0 (im_count r) + count)).

Definition CountSet r : bool := match im_count r with Some _ => true | None => false end.

Definition Count r : Z :=
  match im_count r with
  | Some c => c
  | None =>
    match im_union r with
    | Some u => if 0 <? GetCardinality u then GetCardinality u
                else match im_existence r with Some e => GetCardinality e | None => 0 end
    | None => match im_existence r with Some e => GetCardinality e | None => 0 end
    end
  end.

Definition Collapse r : IntermediateResult B :=
  setFinal r (Some (ParOr (im_unions r))) (Some (ParOr (im_existences r))) (im_count r).

(** ** Results on the wire *)

Record BitmapResult : Type := mkBitmapResult { br_Field : bytes; br_RowId : Z; br_Bitmap : bytes }.

Record QueryResult : Type := mkQueryResult {
  qr_Unions : bytes;
  qr_Intersects : list bytes;
  qr_Differences : list bytes;
  qr_Samples : list BitmapResult;
  qr_SamplePct : Z;
  qr_SampleIsUnion : bool;
  qr_Existences : bytes;
  qr_AndDifferencesCount : Z }.

Definition QueryResultCountField : bytes := str "__quantastream_query_count".

Definition marshalError {A} (what : string) (m : go A) : go A :=
  match m with
  | Err e => Err (Errorf ("Cannot marshal intermediate " ++ what ++ " result bitmap - %v") [AErr e])
  | m => m
  end.

Definition MarshalQueryResult r : go QueryResult :=
  unionBuf ← match im_union r with
             | Some u => marshalError "union" (MarshalBinary u)
             | None => Ok []
             end;
  intersectBuf ← mapM (fun b => marshalError "intersect" (MarshalBinary b)) (im_intersects r);
  sampleRows ← mapM (fun rb => buf ← marshalError "sample" (MarshalBinary (rb_Bits rb));
                               mret (mkBitmapResult (rb_Field rb) (rb_RowID rb) buf)) (im_samples r);
  let sampleRows := match im_count r with
                    | Some c => sampleRows ++ [mkBitmapResult QueryResultCountField c []]
                    | None => sampleRows
                    end in
  differenceBuf ← mapM (fun b => marshalError "difference" (MarshalBinary b))
                    (im_andDifferences r ++ im_orDifferences r);
  let existence :=
    if bool_decide (im_existences r <> []) &&
       match im_existence r with None => true | Some e => GetCardinality e =? 0 end
    then Some (ParOr (im_existences r)) else im_existence r in
  existenceBuf ← match existence with
                 | Some e => marshalError "existence" (MarshalBinary e)
                 | None => Ok []
                 end;
  mret (mkQueryResult unionBuf intersectBuf differenceBuf sampleRows (im_SamplePct r)
          (im_SampleIsUnion r) existenceBuf (wrap_s 32 (zlen (im_andDifferences r)))).

Definition unmarshalError {A} (what : string) (m : go A) : go A :=
  match m with
  | Err e => Err (Errorf ("Error unmarshalling query result " ++ what ++ " - %v") [AErr e])
  | m => m
  end.

Definition addSampleRow r (s : BitmapResult) : go (IntermediateResult B) :=
  if bool_decide (br_Field s = QueryResultCountField) && (zlen (br_Bitmap s) =? 0)
  then Ok (SetCount r (br_RowId s))
  else bm ← unmarshalError "samples" (UnmarshalBinary (br_Bitmap s));
       mret (AddSamples r [mkRowBitmap (br_Field s) (br_RowId s) bm]).

Fixpoint foldGo {A S : Type} (f : S -> A -> go S) (s : S) (l : list A) : go S :=
  match l with
  | [] => Ok s
  | a :: l => s ← f s a; foldGo f s l
  end.

(** A count of differences beyond the list is an index out of range. *)
Definition UnmarshalAndAdd r (rs : QueryResult) : go (IntermediateResult B) :=
  bm ← unmarshalError "unions" (UnmarshalBinary (qr_Unions rs));
  let r := if 0 <? GetCardinality bm then AddUnion r bm else r in
  r ← foldGo (fun r data => bm ← unmarshalError "intersects" (UnmarshalBinary data); mret (AddIntersect r bm))
        r (qr_Intersects rs);
  r ← foldGo addSampleRow r (qr_Samples rs);
  let r := setSampling r (qr_SamplePct rs) (qr_SampleIsUnion rs) in
  let n := Z.to_nat (qr_AndDifferencesCount rs) in
  r ← foldGo (fun r data => bm ← unmarshalError "differences" (UnmarshalBinary data); mret (AddAndDifference r bm))
        r (take n (qr_Differences rs));
  if zlen (qr_Differences rs) <? qr_AndDifferencesCount rs then Panic else
  if qr_AndDifferencesCount rs <? 0 then Panic else
  r ← foldGo (fun r data => bm ← unmarshalError "differences" (UnmarshalBinary data); mret (AddOrDifference r bm))
        r (drop n (qr_Differences rs));
  bm ← unmarshalError "existence" (UnmarshalBinary (qr_Existences rs));
  mret (if 0 <? GetCardinality bm then AddExistence r bm else r).

(** ** Reduction *)

(** A fragment as [FromProto] leaves it: what [walkReduce] reads, with its bitmap. *)
Record ReduceNode : Type := mkReduceNode {
  rn_Index : bytes;
  rn_Operation : OpType;
  rn_SamplePct : Z;
  rn_ORContext : bool;
  rn_Data : option B }.

(** The fragments by identifier, and the links between them. *)
Record FragmentGraph : Type := mkFragmentGraph {
  nmap : gmap bytes ReduceNode;
  childrenOf : gmap bytes (list bytes);
  parentOf : gmap bytes bytes }.

(** The first fragment with an identifier counts. *)
Definition graphNodes (q : list PbFragment) (dataMap : gmap bytes B) : gmap bytes ReduceNode :=
  foldl (fun m v =>
    match m !! pf_Id v with
    | Some _ => m
    | None => <[pf_Id v := mkReduceNode (pf_Index v) (pf_Operation v) (pf_SamplePct v)
                             (pf_OrContext v) (dataMap !! pf_Id v)]> m
    end) ∅ q.

Definition linkChild (v : PbFragment) (g : FragmentGraph) (c : bytes) : FragmentGraph :=
  if decide (is_Some (nmap g !! pf_Id v) /\ is_Some (nmap g !! c))
  then mkFragmentGraph (nmap g)
         (<[pf_Id v := default [] (childrenOf g !! pf_Id v) ++ [c]]> (childrenOf g))
         (<[c := pf_Id v]> (parentOf g))
  else g.

Definition FromProto (q : list PbFragment) (dataMap : gmap bytes B) : FragmentGraph :=
  foldl (fun g v => foldl (linkChild v) g (pf_ChildrenIds v))
    (mkFragmentGraph (graphNodes q dataMap) ∅ ∅) q.

(** The root is the first fragment without a parent that a walk over the map meets;
    the order of the walk is not specified. *)
Definition findRoot (order : list bytes -> list bytes) (g : FragmentGraph) : option bytes :=
  head (filter (fun id => parentOf g !! id = None) (order (map fst (map_to_list (nmap g))))).

Definition mergeChild (orContext : bool) (result ir : IntermediateResult B) : IntermediateResult B :=
  let result := foldl AddIntersect result (im_intersects ir) in
  let result := if orContext then foldl AddOrDifference result (im_orDifferences ir)
                else foldl AddAndDifference result (im_andDifferences ir) in
  let result := AddSamples result (im_samples ir) in
  match im_union ir with Some u => AddUnion result u | None => result end.

(** The contribution of the fragment itself; adding a nil bitmap panics.  A sampled
    fragment carries no rows after [FromProto]. *)
Definition reduceNode (n : ReduceNode) (parentOR : bool) (result : IntermediateResult B)
    : go (IntermediateResult B) :=
  match rn_Operation n with
  | INTERSECT =>
    if float32Positive (rn_SamplePct n) then Ok (setSampling result (im_SamplePct result) false)
    else match rn_Data n with Some b => Ok (AddIntersect result b) | None => Panic end
  | UNION =>
    if float32Positive (rn_SamplePct n) then Ok (setSampling result (im_SamplePct result) true)
    else match rn_Data n with Some b => Ok (AddUnion result b) | None => Panic end
  | DIFFERENCE =>
    match rn_Data n with
    | Some b => Ok (if parentOR || rn_ORContext n then AddOrDifference result b
                    else AddAndDifference result b)
    | None => Panic
    end
  | INNER_JOIN | OUTER_JOIN => Ok result
  end.

(** The fuel is the depth of the recursion: a chain of children longer than the map
    is a cycle, on which the stack overflows. *)
Fixpoint walkReduce (fuel : nat) (g : FragmentGraph) (id : bytes) : go (IntermediateResult B) :=
  match fuel, nmap g !! id with
  | S fuel, Some n =>
    let start := setSampling (NewIntermediateResult (rn_Index n)) (rn_SamplePct n) false in
    result ← foldGo (fun result c => ir ← walkReduce fuel g c; mret (mergeChild (rn_ORContext n) result ir))
               start (default [] (childrenOf g !! id));
    let parentOR := match parentOf g !! id with
                    | Some p => match nmap g !! p with Some pn => rn_ORContext pn | None => false end
                    | None => false
                    end in
    result ← reduceNode n parentOR result;
    mret (Collapse result)
  | _, _ => Panic
  end.

(** A query without a root is a nil pointer. *)
Definition Reduce (order : list bytes -> list bytes) (g : FragmentGraph) : go (IntermediateResult B) :=
  match findRoot order g with
  | Some root => walkReduce (S (size (nmap g))) g root
  | None => Panic
  end.

End Intermediate.

(** ** The shape of a message *)

(** A tree of identifiers, and its links listed children first. *)
#[warnings="-register-all"]
Inductive IdTree : Type :=
  | INode (id : bytes) (children : list IdTree).

Definition treeId (t : IdTree) : bytes := match t with INode id _ => id end.

Fixpoint shape (t : IdTree) : list (bytes * list bytes) :=
  match t with
  | INode id ts => concat (map shape ts) ++ [(id, map treeId ts)]
  end.

Definition links (f : PbFragment) : bytes * list bytes := (pf_Id f, pf_ChildrenIds f).

(** The fragments of one tree, with distinct identifiers. *)
Definition wellFormed (q : list PbFragment) : Prop :=
  (exists t, map links q = shape t) /\ NoDup (map pf_Id q).

(** A fragment with none of the features that the reduction treats apart. *)
Definition plainFragment (f : PbFragment) : bool :=
  negb (pf_OrContext f) && negb (float32Positive (pf_SamplePct f)) &&
  match pf_Operation f with INTERSECT | UNION | DIFFERENCE => true | _ => false end.

(** The bitmaps of the fragments with an operation, in order. *)
Definition select {B} (dataMap : gmap bytes B) (op : OpType) (q : list PbFragment) : list B :=
  omap (fun f => if decide (pf_Operation f = op) then dataMap !! pf_Id f else None) q.

Lemma select_app {B} (dataMap : gmap bytes B) op q1 q2 :
  select dataMap op (q1 ++ q2) = select dataMap op q1 ++ select dataMap op q2.
Proof. apply omap_app. Qed.

Lemma elem_of_select {B} (dataMap : gmap bytes B) op q b :
  b ∈ select dataMap op q <-> exists f, f ∈ q /\ pf_Operation f = op /\ dataMap !! pf_Id f = Some b.
Proof.
  unfold select. rewrite list_elem_of_omap. split; intros (f & Hf & E); exists f; case_decide; naive_solver.
Qed.

(** ** Operands *)

Lemma FromWire_ToWire v : BigIntFromWireBytes (BigIntToWireBytes (Some v)) = v.
Proof.
  unfold BigIntToWireBytes. case_if.
  - pose proof (SetBytes_Bytes v) as Ev. unfold BigIntFromWireBytes.
    destruct (BigInt_Bytes v) as [|a [|b rest]] eqn:Eb; [by rewrite Ev; lia..|].
    rewrite decide_False; [lia|]. intros [-> _]. by apply (Bytes_head _ _ _ Eb).
  - cbn [signedBigIntWirePrefix app BigIntFromWireBytes]. rewrite decide_True by done.
    rewrite SetBytes_Bytes. lia.
Qed.

(** ** Links *)

Lemma IdTree_ind_nested (P : IdTree -> Prop) :
  (forall id ts, Forall P ts -> P (INode id ts)) -> forall t, P t.
Proof.
  intros HP. fix IH 1. intros [id ts]. apply HP. induction ts as [|t ts IHts]; constructor; [apply IH|done].
Qed.

Lemma shape_ids t : map fst (shape t) ≡ₚ treeId t :: concat (map snd (shape t)).
Proof.
  induction t as [id ts IH] using IdTree_ind_nested. cbn [shape treeId]. rewrite !map_app. cbn [map fst snd].
  rewrite concat_app. cbn [concat]. rewrite app_nil_r.
  enough (map fst (concat (map shape ts)) ≡ₚ
          concat (map snd (concat (map shape ts))) ++ map treeId ts) as E
    by (rewrite E; by rewrite <- Permutation_cons_append).
  induction IH as [|t ts Ht _ IHts]; [done|]. cbn [map concat].
  rewrite !map_app, concat_app, Ht, IHts. by rewrite <- Permutation_middle, <- !app_assoc.
Qed.

Section Graph.

Context {B : Type}.

Implicit Types (q : list PbFragment) (dataMap : gmap bytes B) (g : FragmentGraph (B := B)).

Definition nodeOf dataMap (f : PbFragment) : ReduceNode :=
  mkReduceNode (pf_Index f) (pf_Operation f) (pf_SamplePct f) (pf_OrContext f) (dataMap !! pf_Id f).

Lemma graphNodes_lookup q dataMap id :
  graphNodes q dataMap !! id = nodeOf dataMap <$> head (filter (fun f => pf_Id f = id) q).
Proof.
  unfold graphNodes. change (nodeOf dataMap <$> _)
    with (match (∅ : gmap bytes ReduceNode) !! id with
          | Some n => Some n
          | None => nodeOf dataMap <$> head (filter (fun f => pf_Id f = id) q) end).
  generalize (∅ : gmap bytes (ReduceNode (B := B))). induction q as [|f q IH]; intros m; cbn [foldl].
  { by destruct (m !! id). }
  rewrite IH, filter_cons. clear IH. case_decide as Hd.
  - subst id. destruct (m !! pf_Id f) as [n|] eqn:E; [by rewrite E|]. by rewrite lookup_insert_eq.
  - destruct (m !! pf_Id f); [done|]. by rewrite lookup_insert_ne.
Qed.

Lemma graphNodes_at q dataMap f : NoDup (map pf_Id q) -> f ∈ q ->
  graphNodes q dataMap !! pf_Id f = Some (nodeOf dataMap f).
Proof.
  intros Hnd Hf. rewrite graphNodes_lookup. induction q as [|f' q IH]; [by apply elem_of_nil in Hf|].
  cbn [map] in Hnd. apply NoDup_cons in Hnd as [Hn Hnd]. rewrite filter_cons.
  apply elem_of_cons in Hf as [->|Hf]; [by rewrite decide_True|].
  rewrite decide_False; [by apply IH|]. intros E. apply Hn. rewrite E. by apply list_elem_of_fmap_2.
Qed.

Lemma graphNodes_dom q dataMap id : is_Some (graphNodes q dataMap !! id) <-> id ∈ map pf_Id q.
Proof.
  rewrite graphNodes_lookup, fmap_is_Some. rewrite head_is_Some.
  rewrite list_elem_of_fmap. split.
  - intros Hne. destruct (filter _ q) as [|f l] eqn:E; [done|].
    assert (f ∈ filter (fun f => pf_Id f = id) q) as [? ?]%list_elem_of_filter by (rewrite E; left). eauto.
  - intros (f & -> & Hf) E. assert (f ∈ filter (fun f' => pf_Id f' = pf_Id f) q) as Hin
      by by apply list_elem_of_filter. rewrite E in Hin. by apply elem_of_nil in Hin.
Qed.

Lemma linkChildren v g cs : is_Some (nmap g !! pf_Id v) -> (forall c, c ∈ cs -> is_Some (nmap g !! c)) ->
  let g' := foldl (linkChild v) g cs in
  nmap g' = nmap g /\
  (forall id, default [] (childrenOf g' !! id) =
     default [] (childrenOf g !! id) ++ (if decide (pf_Id v = id) then cs else [])) /\
  (forall c, parentOf g' !! c = None <-> parentOf g !! c = None /\ c ∉ cs).
Proof.
  revert g. induction cs as [|c cs IH]; intros g Hv Hcs; cbn zeta; cbn [foldl].
  { split_and!; [done|intros id; case_decide; by rewrite app_nil_r|]. intros c. set_solver. }
  assert (linkChild v g c = mkFragmentGraph (nmap g)
            (<[pf_Id v := default [] (childrenOf g !! pf_Id v) ++ [c]]> (childrenOf g))
            (<[c := pf_Id v]> (parentOf g))) as ->
    by (unfold linkChild; rewrite decide_True; [done|split; [done|apply Hcs; left]]).
  match goal with |- context [foldl _ ?g1 _] => destruct (IH g1) as (E1 & E2 & E3) end;
    [done|intros c' Hc'; apply Hcs; by right|]. cbn [nmap childrenOf parentOf] in E1, E2, E3. split_and!.
  - exact E1.
  - intros id. rewrite E2. case_decide as Hd.
    + subst id. rewrite lookup_insert_eq. cbn. by rewrite <- app_assoc.
    + by rewrite lookup_insert_ne.
  - intros c'. rewrite E3. destruct (decide (c = c')) as [->|Hne].
    + rewrite lookup_insert_eq. set_solver.
    + rewrite lookup_insert_ne by done. set_solver.
Qed.

(** The links of [FromProto], when every link leads to a fragment of the message. *)
Lemma FromProto_links q dataMap :
  (forall v c, v ∈ q -> c ∈ pf_ChildrenIds v -> c ∈ map pf_Id q) ->
  nmap (FromProto q dataMap) = graphNodes q dataMap /\
  (forall id, default [] (childrenOf (FromProto q dataMap) !! id) =
     concat (map (fun v => if decide (pf_Id v = id) then pf_ChildrenIds v else []) q)) /\
  (forall c, parentOf (FromProto q dataMap) !! c = None <-> forall v, v ∈ q -> c ∉ pf_ChildrenIds v).
Proof.
  intros Hc. unfold FromProto. set (g0 := mkFragmentGraph (graphNodes q dataMap) ∅ ∅).
  assert (forall v, v ∈ q -> is_Some (nmap g0 !! pf_Id v) /\
            forall c, c ∈ pf_ChildrenIds v -> is_Some (nmap g0 !! c)) as Hq.
  { intros v Hv. split; [by apply graphNodes_dom, list_elem_of_fmap_2|].
    intros c Hvc. apply graphNodes_dom. by apply (Hc v c). }
  assert (forall q' g, (forall v, v ∈ q' -> is_Some (nmap g !! pf_Id v) /\
            forall c, c ∈ pf_ChildrenIds v -> is_Some (nmap g !! c)) ->
    let g' := foldl (fun g v => foldl (linkChild v) g (pf_ChildrenIds v)) g q' in
    nmap g' = nmap g /\
    (forall id, default [] (childrenOf g' !! id) = default [] (childrenOf g !! id) ++
       concat (map (fun v => if decide (pf_Id v = id) then pf_ChildrenIds v else []) q')) /\
    (forall c, parentOf g' !! c = None <->
       parentOf g !! c = None /\ forall v, v ∈ q' -> c ∉ pf_ChildrenIds v)) as Hall.
  { clear. induction q' as [|v q' IH]; intros g Hq; cbn zeta; cbn [foldl map concat].
    { split_and!; [done|intros id; by rewrite app_nil_r|]. intros c. set_solver. }
    destruct (Hq v) as [Hv Hvc]; [left|].
    destruct (linkChildren v g (pf_ChildrenIds v) Hv Hvc) as (E1 & E2 & E3).
    edestruct (IH (foldl (linkChild v) g (pf_ChildrenIds v))) as (F1 & F2 & F3).
    { intros v' Hv'. rewrite E1. apply Hq. by right. }
    split_and!; [congruence|intros id; by rewrite F2, E2, <- app_assoc|].
    intros c. rewrite F3, E3. set_solver. }
  destruct (Hall q g0 Hq) as (E1 & E2 & E3). split_and!; [done|done|].
  intros c. rewrite E3. cbn. set_solver.
Qed.

Lemma wellFormed_children q t : map links q = shape t ->
  map pf_Id q ≡ₚ treeId t :: concat (map pf_ChildrenIds q).
Proof.
  intros E. pose proof (shape_ids t) as Hp. rewrite <- E, !map_map in Hp. exact Hp.
Qed.

Lemma children_known q t v c : map links q = shape t -> v ∈ q -> c ∈ pf_ChildrenIds v -> c ∈ map pf_Id q.
Proof.
  intros E Hv Hc. rewrite (wellFormed_children q t E). right.
  apply list_elem_of_In, in_concat. exists (pf_ChildrenIds v).
  by rewrite <- !list_elem_of_In; split; [apply list_elem_of_fmap_2|].
Qed.

Lemma childrenOf_at q dataMap t v : map links q = shape t -> NoDup (map pf_Id q) -> v ∈ q ->
  default [] (childrenOf (FromProto q dataMap) !! pf_Id v) = pf_ChildrenIds v.
Proof.
  intros E Hnd Hv.
  destruct (FromProto_links q dataMap) as (_ & -> & _); [intros; by eapply children_known|].
  clear E. induction q as [|f q IH]; [by apply elem_of_nil in Hv|]. cbn [map concat] in *.
  apply NoDup_cons in Hnd as [Hn Hnd]. apply elem_of_cons in Hv as [->|Hv].
  - rewrite decide_True by done. rewrite <- (app_nil_r (pf_ChildrenIds f)) at 2. f_equal.
    assert (forall v, v ∈ q -> pf_Id v <> pf_Id f) as Hne
      by (intros v Hv E; apply Hn; rewrite <- E; by apply list_elem_of_fmap_2).
    clear -Hne. induction q as [|v q IH]; [done|]. cbn [map concat].
    rewrite decide_False by (apply Hne; left). apply IH. intros v' Hv'. apply Hne. by right.
  - rewrite decide_False; [by apply IH|]. intros E. apply Hn. rewrite E. by apply list_elem_of_fmap_2.
Qed.

(** Only the root has no parent, so the walk finds it in any order. *)
Lemma findRoot_wellFormed order q dataMap t : (forall l, order l ≡ₚ l) ->
  map links q = shape t -> NoDup (map pf_Id q) ->
  findRoot order (FromProto q dataMap) = Some (treeId t).
Proof.
  intros Ho E Hnd. pose proof (wellFormed_children q t E) as Hp.
  destruct (FromProto_links q dataMap) as (En & _ & Ep); [intros; by eapply children_known|].
  unfold findRoot. rewrite En.
  assert (map fst (map_to_list (graphNodes q dataMap)) ≡ₚ map pf_Id q) as Hk.
  { apply NoDup_Permutation; [apply NoDup_fst_map_to_list|done|]. intros id.
    rewrite <- (graphNodes_dom q dataMap id), list_elem_of_fmap. split.
    - intros ([id' n] & -> & Hin%elem_of_map_to_list). by eexists.
    - intros [n Hn]. exists (id, n). split; [done|]. by apply elem_of_map_to_list. }
  set (P := fun id => parentOf (FromProto q dataMap) !! id = None).
  assert (filter P (order (map fst (map_to_list (graphNodes q dataMap)))) ≡ₚ [treeId t]) as Hf.
  { rewrite Ho, Hk, Hp, filter_cons. rewrite Hp in Hnd. apply NoDup_cons in Hnd as [Hroot _].
    assert (forall c, P c <-> c ∉ concat (map pf_ChildrenIds q)) as HP.
    { intros c. unfold P. rewrite Ep, list_elem_of_In, in_concat. setoid_rewrite in_map_iff.
      setoid_rewrite <- list_elem_of_In. naive_solver. }
    rewrite decide_True by by apply HP. f_equiv.
    enough (filter P (concat (map pf_ChildrenIds q)) = []) as -> by done.
    apply elem_of_nil_inv. intros c [Hc1 Hc2]%list_elem_of_filter. by apply HP in Hc1. }
  apply Permutation_singleton_r in Hf. by rewrite Hf.
Qed.

End Graph.

(** ** What a reduction collects *)

Section Reduction.

Context {B : Type} `{RoaringOpsLaws B}.

Implicit Types (q : list PbFragment) (dataMap : gmap bytes B) (r ir : IntermediateResult B).

Lemma foldl_AddIntersect l r : foldl AddIntersect r l =
  mkIntermediateResult (im_Index r) (im_SamplePct r) (im_SampleIsUnion r) (im_unions r)
    (im_intersects r ++ l) (im_andDifferences r) (im_orDifferences r) (im_existences r)
    (im_samples r) (im_joinFkList r) (im_union r) (im_existence r) (im_count r).
Proof.
  revert r. induction l as [|b l IH]; intros r; cbn [foldl]; [by rewrite app_nil_r; destruct r|].
  rewrite IH. cbn. by rewrite <- app_assoc.
Qed.

Lemma foldl_AddAndDifference l r : foldl AddAndDifference r l =
  mkIntermediateResult (im_Index r) (im_SamplePct r) (im_SampleIsUnion r) (im_unions r)
    (im_intersects r) (im_andDifferences r ++ l) (im_orDifferences r) (im_existences r)
    (im_samples r) (im_joinFkList r) (im_union r) (im_existence r) (im_count r).
Proof.
  revert r. induction l as [|b l IH]; intros r; cbn [foldl]; [by rewrite app_nil_r; destruct r|].
  rewrite IH. cbn. by rewrite <- app_assoc.
Qed.

(** [r] has collected the bitmaps of the fragments [q]. *)
Record collected (dataMap : gmap bytes B) (q : list PbFragment) (r : IntermediateResult B) : Prop := {
  col_intersects : im_intersects r = select dataMap INTERSECT q;
  col_differences : im_andDifferences r = select dataMap DIFFERENCE q;
  col_unions : same_rows (ParOr (im_unions r)) (ParOr (select dataMap UNION q));
  col_ors : im_orDifferences r = [];
  col_existences : im_existences r = [];
  col_samples : im_samples r = [];
  col_count : im_count r = None }.

(** After [Collapse]. *)
Record reduced (dataMap : gmap bytes B) (q : list PbFragment) (r : IntermediateResult B) : Prop := {
  red_collected : collected dataMap q r;
  red_union : im_union r = Some (ParOr (im_unions r));
  red_existence : im_existence r = Some (ParOr []) }.

Lemma collapse_reduced dataMap q r : collected dataMap q r -> reduced dataMap q (Collapse r).
Proof. intros []. split; [by split|done|]. cbn. by rewrite col_existences0. Qed.

Lemma ParOr_app (l1 l2 : list B) x :
  Contains (ParOr (l1 ++ l2)) x = Contains (ParOr l1) x || Contains (ParOr l2) x.
Proof. rewrite !Contains_ParOr. apply existsb_app. Qed.

Lemma ParOr_cons (b : B) l x : Contains (ParOr (b :: l)) x = Contains b x || Contains (ParOr l) x.
Proof. by rewrite !Contains_ParOr. Qed.

Lemma ParOr_single (b : B) x : Contains (ParOr [b]) x = Contains b x.
Proof. rewrite Contains_ParOr. cbn. apply orb_false_r. Qed.

Lemma mergeChild_collected dataMap q1 q2 r ir :
  collected dataMap q1 r -> reduced dataMap q2 ir -> collected dataMap (q1 ++ q2) (mergeChild false r ir).
Proof.
  intros [] [[] Eu _]. unfold mergeChild. rewrite foldl_AddIntersect, foldl_AddAndDifference, Eu.
  split; cbn; rewrite ?select_app; try congruence; [|by rewrite col_samples0, col_samples1].
  intros x. by rewrite !ParOr_app, ParOr_single, (col_unions0 x), (col_unions1 x).
Qed.

Lemma reduceNode_collected dataMap q r f b : plainFragment f = true -> dataMap !! pf_Id f = Some b ->
  collected dataMap q r ->
  exists r', reduceNode (nodeOf dataMap f) false r = Ok r' /\
    (im_Index r', im_SamplePct r') = (im_Index r, im_SamplePct r) /\ collected dataMap (q ++ [f]) r'.
Proof.
  unfold plainFragment. intros [[Hor%negb_true_iff Hs%negb_true_iff]%andb_true_iff Hop]%andb_true_iff Hb [].
  unfold reduceNode, nodeOf. cbn [rn_Operation rn_SamplePct rn_Data rn_ORContext]. rewrite Hs, Hb, Hor. cbn [orb].
  assert (forall op, select dataMap op [f] = if decide (pf_Operation f = op) then [b] else []) as Hsel
    by (intros op; unfold select; cbn; case_decide; [by rewrite Hb|done]).
  destruct (pf_Operation f) eqn:Ef; try discriminate; eexists; (split; [reflexivity|]); (split; [done|]);
    split; cbn; rewrite ?select_app, ?Hsel; cbn;
    rewrite ?decide_True by done; rewrite ?app_nil_r; try congruence; try exact col_unions0.
  intros x. by rewrite !ParOr_app, (col_unions0 x).
Qed.

(** The fuel for a tree. *)
Fixpoint treeSize (t : IdTree) : nat := match t with INode _ ts => S (sum_list_with treeSize ts) end.

Lemma shape_length t : length (shape t) = treeSize t.
Proof.
  induction t as [id ts IH] using IdTree_ind_nested. cbn [shape treeSize]. rewrite length_app.
  cbn [length]. rewrite Nat.add_1_r. f_equal.
  induction IH as [|t ts Ht _ IHts]; [done|]. cbn. rewrite length_app. congruence.
Qed.

Lemma split_shapes q ts : map links q = concat (map shape ts) ->
  exists qs, q = concat qs /\ Forall2 (fun q t => map links q = shape t) qs ts.
Proof.
  revert q. induction ts as [|t ts IH]; intros q E.
  - exists []. cbn in E. apply fmap_nil_inv in E as ->. by split.
  - cbn [map concat] in E. apply map_eq_app in E as (q1 & q2 & -> & E1 & E2).
    destruct (IH q2 E2) as (qs & -> & Hqs). exists (q1 :: qs). split; [done|]. by constructor.
Qed.

(** Results of the children, merged one after the other. *)
Lemma merge_children dataMap (walk : bytes -> go (IntermediateResult B)) qs ts : forall q r,
  Forall2 (fun q t => exists ir, walk (treeId t) = Ok ir /\ reduced dataMap q ir) qs ts ->
  collected dataMap q r ->
  exists r', foldGo (fun result c => ir ← walk c; mret (mergeChild false result ir)) r (map treeId ts) = Ok r' /\
    collected dataMap (q ++ concat qs) r' /\ (im_Index r', im_SamplePct r') = (im_Index r, im_SamplePct r).
Proof.
  intros q r Hall. revert q r. induction Hall as [|q' t qs ts (ir & Ew & Hir) _ IH]; intros q r Hr.
  - exists r. by rewrite app_nil_r.
  - cbn [map foldGo]. rewrite Ew. cbn [mbind go_bind mret go_ret].
    destruct (IH (q ++ q') (mergeChild false r ir)) as (r' & E & Hr' & Hi);
      [by apply mergeChild_collected|].
    exists r'. split_and!; [done|by cbn [concat]; rewrite app_assoc|].
    rewrite Hi. unfold mergeChild. rewrite foldl_AddIntersect, foldl_AddAndDifference.
    by destruct Hir as [_ -> _].
Qed.

Lemma walkReduce_tree dataMap q0 t0 :
  map links q0 = shape t0 -> NoDup (map pf_Id q0) -> Forall (fun f => plainFragment f = true) q0 ->
  Forall (fun f => is_Some (dataMap !! pf_Id f)) q0 ->
  forall t q fuel, map links q = shape t -> q ⊆ q0 -> (treeSize t <= fuel)%nat ->
  exists r, walkReduce fuel (FromProto q0 dataMap) (treeId t) = Ok r /\ reduced dataMap q r /\
    Some (im_Index r, im_SamplePct r) = (fun f => (pf_Index f, pf_SamplePct f)) <$> last q.
Proof.
  intros E0 Hnd Hplain Hdata t. induction t as [id ts IH] using IdTree_ind_nested. intros q fuel E Hq Hfuel.
  cbn [shape] in E. apply map_eq_app in E as (q1 & q2 & -> & E1 & E2).
  destruct q2 as [|f [|? ?]]; [done| |done]. unfold links in E2. cbn [map] in E2. injection E2 as Eid Ech.
  assert (f ∈ q0) as Hf by (apply Hq, elem_of_app; right; left).
  destruct fuel as [|fuel]; [cbn in Hfuel; lia|]. cbn [treeId walkReduce].
  pose proof (graphNodes_at q0 dataMap f Hnd Hf) as En.
  pose proof (childrenOf_at q0 dataMap t0 f E0 Hnd Hf) as Ec.
  destruct (FromProto_links q0 dataMap) as (Enm & _ & _); [intros; by eapply children_known|].
  rewrite Enm, <- Eid, En, Ec, Ech. pose proof (proj1 (Forall_forall _ _) Hplain f Hf) as Hpf.
  pose proof (proj1 (Forall_forall _ _) Hdata f Hf) as [b Hb].
  assert (pf_OrContext f = false) as Hor by (unfold plainFragment in Hpf; b2p; done).
  cbn [nodeOf rn_Index rn_SamplePct rn_ORContext]. rewrite Hor.
  assert (forall p, (match nmap (FromProto q0 dataMap) !! p with
                     | Some pn => rn_ORContext pn | None => false end) = false) as Hpor.
  { intros p. rewrite Enm, graphNodes_lookup. destruct (head _) as [f'|] eqn:Eh; [|done]. cbn.
    apply head_Some_elem_of, list_elem_of_filter in Eh as [_ Hf'].
    pose proof (proj1 (Forall_forall _ _) Hplain f' Hf') as Hp'. unfold plainFragment in Hp'. b2p. done. }
  set (start := setSampling _ _ _). destruct (split_shapes q1 ts E1) as (qs & -> & Hqs).
  destruct (merge_children dataMap (walkReduce fuel (FromProto q0 dataMap)) qs ts [] start)
    as (r & Er & Hr & Hi).
  - assert (concat qs ⊆ q0) as Hsub by set_solver. clear -IH Hqs Hsub Hfuel. cbn [treeSize] in Hfuel.
    revert Hsub. induction Hqs as [|q' t' qs ts Hq' _ IHqs]; intros Hsub; constructor.
    + apply Forall_cons in IH as [IHt _]. cbn [concat] in Hsub. cbn in Hfuel.
      destruct (IHt q' fuel Hq') as (ir & ? & ? & _); [set_solver|lia|by eauto].
    + apply Forall_cons in IH as [_ IH]. cbn [concat] in Hsub. cbn in Hfuel.
      apply IHqs; [done|lia|set_solver].
  - by split.
  - rewrite Er. cbn [mbind go_bind app] in *. rewrite Eid in *.
    assert (match parentOf (FromProto q0 dataMap) !! id with
            | Some p => match graphNodes q0 dataMap !! p with
                        | Some pn => rn_ORContext pn | None => false end
            | None => false end = false) as -> by (rewrite <- Enm; by case_match).
    destruct (reduceNode_collected dataMap (concat qs) r f b Hpf) as (r' & Er' & Hi' & Hr');
      [by rewrite Eid|done|].
    rewrite Er'. cbn [mbind go_bind mret go_ret]. exists (Collapse r'). split; [done|]. split.
    + by apply collapse_reduced.
    + rewrite last_snoc. cbn. cbn in Hi. by rewrite Hi', Hi.
Qed.

(** A message of plain fragments with their bitmaps reduces to those bitmaps. *)
Lemma Reduce_wellFormed order dataMap q : (forall l, order l ≡ₚ l) -> wellFormed q ->
  Forall (fun f => plainFragment f = true) q -> Forall (fun f => is_Some (dataMap !! pf_Id f)) q ->
  exists r, Reduce order (FromProto q dataMap) = Ok r /\ reduced dataMap q r /\
    Some (im_Index r, im_SamplePct r) = (fun f => (pf_Index f, pf_SamplePct f)) <$> last q.
Proof.
  intros Ho [[t E] Hnd] Hp Hd. unfold Reduce. rewrite (findRoot_wellFormed order q dataMap t Ho E Hnd).
  apply (walkReduce_tree dataMap q t E Hnd Hp Hd t q); [done..|].
  destruct (FromProto_links q dataMap) as (-> & _ & _); [intros; by eapply children_known|].
  rewrite <- shape_length, <- E, length_map, <- length_map_to_list, <- (length_map fst).
  enough (map pf_Id q ⊆+ map fst (map_to_list (graphNodes q dataMap))) as Hs
    by (apply submseteq_length in Hs; rewrite length_map in Hs; lia).
  apply NoDup_submseteq; [done|]. intros id [n Hn]%(graphNodes_dom q dataMap).
  apply list_elem_of_fmap. exists (id, n). split; [done|]. by apply elem_of_map_to_list.
Qed.

End Reduction.

(** ** Messages of client queries *)

Lemma FragmentTree_ind_nested (P : FragmentTree -> Prop) :
  (forall f ts, Forall P ts -> P (FNode f ts)) -> forall t, P t.
Proof.
  intros HP. fix IH 1. intros [f ts]. apply HP. induction ts as [|t ts IHts]; constructor; [apply IH|done].
Qed.

Definition toProtoFrags (uuids : nat -> bytes)
    : list FragmentTree -> nat -> list PbFragment * list bytes * nat :=
  fix all ts n :=
    match ts with
    | [] => ([], [], n)
    | t :: ts =>
      let '(fa, id, n) := toProtoFrag uuids t n in
      let '(fas, ids, n) := all ts n in
      (fa ++ fas, id :: ids, n)
    end.

Lemma toProtoFrag_eq uuids f ts n : toProtoFrag uuids (FNode f ts) n =
  let '(fa, childIds, n) := toProtoFrags uuids ts n in
  (fa ++ [fragmentProto f (uuids n) childIds], uuids n, S n).
Proof. reflexivity. Qed.

(** The fragments of a tree, children first. *)
Fixpoint fragments (t : FragmentTree) : list QueryFragment :=
  match t with FNode f ts => concat (map fragments ts) ++ [f] end.

(** The message fields that come from the fragment alone. *)
Definition carries (f : PbFragment) (n : QueryFragment) : Prop :=
  f = fragmentProto n (pf_Id f) (pf_ChildrenIds f).

Lemma toProtoFrag_shape uuids t : forall n, let '(fa, id, m) := toProtoFrag uuids t n in
  Forall2 carries fa (fragments t) /\ map pf_Id fa = map uuids (seq n (m - n)) /\ (n <= m)%nat /\
  exists idt, map links fa = shape idt /\ treeId idt = id.
Proof.
  induction t as [f ts IH] using FragmentTree_ind_nested. intros n. rewrite toProtoFrag_eq.
  assert (forall n, let '(fa, ids, m) := toProtoFrags uuids ts n in
    Forall2 carries fa (concat (map fragments ts)) /\ map pf_Id fa = map uuids (seq n (m - n)) /\ (n <= m)%nat /\
    exists idts, map links fa = concat (map shape idts) /\ map treeId idts = ids) as Hall.
  { clear n. induction IH as [|t ts Ht _ IHts]; intros n; cbn [toProtoFrags].
    { split_and!; [constructor|by rewrite Nat.sub_diag|done|]. by exists []. }
    specialize (Ht n). destruct (toProtoFrag uuids t n) as [[fa id] m].
    specialize (IHts m). destruct (toProtoFrags uuids ts m) as [[fas ids] k].
    destruct Ht as (F1 & S1 & L1 & idt & E1 & <-), IHts as (F2 & S2 & L2 & idts & E2 & <-).
    split_and!; [by apply Forall2_app| |lia|].
    - rewrite map_app, S1, S2, <- map_app. f_equal.
      replace (k - n)%nat with ((m - n) + (k - m))%nat by lia. rewrite seq_app. do 2 f_equal. lia.
    - exists (idt :: idts). cbn. by rewrite map_app, E1, E2. }
  specialize (Hall n). destruct (toProtoFrags uuids ts n) as [[fa ids] m].
  destruct Hall as (F & S & L & idts & E & <-). split_and!.
  - cbn [fragments]. apply Forall2_app; [done|]. by repeat constructor.
  - rewrite map_app, S. cbn [map pf_Id fragmentProto].
    replace (Datatypes.S m - n)%nat with ((m - n) + 1)%nat by lia. rewrite seq_app, map_app. cbn.
    do 3 f_equal. lia.
  - lia.
  - exists (INode (uuids m) idts). cbn. by rewrite map_app, E.
Qed.

(** The message of a query lists the fragments of its tree and links them as the
    tree does. *)
Lemma ToProto_wellFormed uuids q t : Inj eq eq uuids -> bq_root q = Some t ->
  wellFormed (pq_Query (ToProto uuids q)) /\ Forall2 carries (pq_Query (ToProto uuids q)) (fragments t).
Proof.
  intros Hinj Ht. unfold ToProto. cbn [pq_Query]. rewrite Ht. pose proof (toProtoFrag_shape uuids t 0) as Hs.
  destruct (toProtoFrag uuids t 0) as [[fa id] m]. destruct Hs as (F & S & _ & idt & E & _). cbn.
  split; [|done]. split; [by exists idt|]. rewrite S. apply NoDup_fmap_2; [done|apply NoDup_seq].
Qed.

(** ** Results survive the wire *)

Section Wire.

Context {B : Type} `{RoaringOpsLaws B}.

Implicit Types (r : IntermediateResult B).

Lemma mapM_go_app {A C} (f : A -> go C) l1 l2 :
  mapM f (l1 ++ l2) = (l1' ← mapM f l1; l2' ← mapM f l2; mret (l1' ++ l2')).
Proof.
  induction l1 as [|a l1 IH]; cbn [app mapM].
  - cbn. by destruct (mapM f l2).
  - destruct (f a); cbn [mbind go_bind]; [|done..]. rewrite IH.
    destruct (mapM f l1); cbn [mbind go_bind mret go_ret]; [|done..]. by destruct (mapM f l2).
Qed.

Lemma marshal_list (what : string) (bs : list B) : exists datas bs',
  mapM (fun b => marshalError what (MarshalBinary b)) bs = Ok datas /\ length datas = length bs /\
  Forall2 same_rows bs' bs /\
  forall what' (add : IntermediateResult B -> B -> IntermediateResult B) r,
    foldGo (fun r data => bm ← unmarshalError what' (UnmarshalBinary data); mret (add r bm)) r datas =
    Ok (foldl add r bs').
Proof.
  induction bs as [|b bs (datas & bs' & Em & El & Hf & Hr)]; [by exists [], []|].
  destruct (Marshal_roundtrip b) as (data & b' & Eb & Eu & Hb).
  exists (data :: datas), (b' :: bs'). split_and!.
  - cbn [mapM]. rewrite Eb. cbn [marshalError mbind go_bind]. by rewrite Em.
  - cbn. by rewrite El.
  - by constructor.
  - intros what' add r. cbn [foldGo]. rewrite Eu. cbn [unmarshalError mbind go_bind mret go_ret foldl]. apply Hr.
Qed.

Lemma foldl_AddOrDifference l r : foldl AddOrDifference r l =
  mkIntermediateResult (im_Index r) (im_SamplePct r) (im_SampleIsUnion r) (im_unions r)
    (im_intersects r) (im_andDifferences r) (im_orDifferences r ++ l) (im_existences r)
    (im_samples r) (im_joinFkList r) (im_union r) (im_existence r) (im_count r).
Proof.
  revert r. induction l as [|b l IH]; intros r; cbn [foldl]; [by rewrite app_nil_r; destruct r|].
  rewrite IH. cbn. by rewrite <- app_assoc.
Qed.

(** Two results with the same bitmaps, kind by kind. *)
Record sameResult (r r' : IntermediateResult B) : Prop := {
  same_intersects : Forall2 same_rows (im_intersects r) (im_intersects r');
  same_and : Forall2 same_rows (im_andDifferences r) (im_andDifferences r');
  same_or : Forall2 same_rows (im_orDifferences r) (im_orDifferences r');
  same_unions : same_rows (ParOr (im_unions r)) (ParOr (im_unions r'));
  same_existences : same_rows (ParOr (im_existences r)) (ParOr (im_existences r'));
  same_count : im_count r = im_count r' }.

Lemma nonempty_rows (b : B) : same_rows (ParOr (if 0 <? GetCardinality b then [b] else [])) b.
Proof.
  intros x. case_if; [apply ParOr_single|]. rewrite ParOr_nil. symmetry.
  assert (GetCardinality b = 0) as E0 by (pose proof (zlen_nonneg (ToArray b)); rewrite GetCardinality_ToArray in *; lia).
  by rewrite GetCardinality_zero in E0.
Qed.

Lemma UnmarshalAndAdd_Marshal index r : im_samples r = [] -> zlen (im_andDifferences r) < 2 ^ 31 ->
  im_union r = Some (ParOr (im_unions r)) -> im_existence r = Some (ParOr []) ->
  exists qr r', MarshalQueryResult r = Ok qr /\ UnmarshalAndAdd (NewIntermediateResult index) qr = Ok r' /\
    sameResult r' r /\ im_Index r' = index /\ im_joinFkList r' = [] /\ im_samples r' = [] /\
    im_SamplePct r' = im_SamplePct r.
Proof.
  intros Hsam Hlen Hu He. unfold MarshalQueryResult. rewrite Hu, Hsam.
  destruct (Marshal_roundtrip (ParOr (im_unions r))) as (ud & u' & Eu & Eu' & Hu').
  destruct (marshal_list "intersect" (im_intersects r)) as (id & ins & Ei & _ & Hi & Fi).
  destruct (marshal_list "difference" (im_andDifferences r)) as (ad & as_ & Ea & La & Ha & Fa).
  destruct (marshal_list "difference" (im_orDifferences r)) as (od & os & Eo & _ & Ho & Fo).
  rewrite Eu. cbn [marshalError mbind go_bind]. rewrite Ei. cbn [mbind go_bind mapM mret go_ret].
  rewrite mapM_go_app, Ea. cbn [mbind go_bind]. rewrite Eo. cbn [mbind go_bind mret go_ret].
  set (e := if bool_decide (im_existences r <> []) && _ then _ else _).
  assert (exists e0, e = Some e0 /\ same_rows e0 (ParOr (im_existences r))) as (e0 & -> & He0).
  { unfold e. rewrite He. assert (GetCardinality (ParOr (B := B) []) = 0) as -> by by apply GetCardinality_zero, ParOr_nil.
    rewrite andb_true_r. case_bool_decide as Hn; [by eexists|]. rewrite Hn. by eexists. }
  destruct (Marshal_roundtrip e0) as (ed & e' & Ee & Ee' & He').
  rewrite Ee. cbn [marshalError mbind go_bind mret go_ret].
  eexists _, _. split; [reflexivity|]. split.
  - unfold UnmarshalAndAdd. cbn [qr_Unions qr_Intersects qr_Samples qr_Differences qr_AndDifferencesCount
      qr_SamplePct qr_SampleIsUnion qr_Existences]. rewrite Eu'. cbn [unmarshalError mbind go_bind].
    rewrite Fi. cbn [mbind go_bind].
    assert (forall r1, foldGo addSampleRow r1 (match im_count r with
        | Some c => [] ++ [mkBitmapResult QueryResultCountField c []] | None => [] end) =
      Ok (match im_count r with Some c => SetCount r1 c | None => r1 end)) as Esam
      by (intros r1; by destruct (im_count r)).
    rewrite Esam. cbn [mbind go_bind].
    assert (wrap_s 32 (zlen (im_andDifferences r)) = zlen (im_andDifferences r)) as ->.
    { pose proof (zlen_nonneg (im_andDifferences r)). apply wrap_s_id; [lia|]. unfold in_s. cbn. lia. }
    replace (Z.to_nat (zlen (im_andDifferences r))) with (length ad) by (unfold zlen; lia).
    rewrite take_app_length, drop_app_length, Fa. cbn [mbind go_bind].
    assert ((zlen (ad ++ od) <? zlen (im_andDifferences r)) = false) as ->
      by (rewrite zlen_app; unfold zlen; rewrite La; apply Z.ltb_ge; lia).
    assert ((zlen (im_andDifferences r) <? 0) = false) as -> by (pose proof (zlen_nonneg (im_andDifferences r)); lia).
    rewrite Fo. cbn [mbind go_bind]. rewrite Ee'. cbn [unmarshalError mbind go_bind mret go_ret]. reflexivity.
  - pose proof (nonempty_rows u') as Nu. pose proof (nonempty_rows e') as Ne.
    assert (same_rows e' (ParOr (im_existences r))) as He2 by by rewrite He'.
    rewrite foldl_AddOrDifference, foldl_AddAndDifference, foldl_AddIntersect.
    destruct (im_count r) as [c|] eqn:Ec; destruct (0 <? GetCardinality u'), (0 <? GetCardinality e');
      (split; [split; cbn; [done..|by rewrite Nu|by rewrite Ne|done]|done]).
Qed.

End Wire.
