(* ===== verification/NodeQuery.v ===== *)
(** * Queries on a node

    What a storage node does with a query (server/bitmapquery.go): the bitmaps of a
    field over a window of time, the index of a field over a window, the cache of
    existence bitmaps (server/bitmap.go), and the evaluation of the fragments of a query
    with the candidates of the fragments before it.

    A node keeps a bitmap per table, field, row identifier and shard time, and an index
    per table, field and shard time; times are nanoseconds since the epoch.  The node
    that owns a shard is given by the cluster's hash table, [Member].  Left out: locks,
    access statistics and timing probes. *)

From S2P Require Import Prelude GoStd GoState GoTime JsonValue JsonText Catalog Sequencer Bitmaps BitmapQuery.

(** ** The state of a node *)

(** [sd_From] and [sd_To] are nanoseconds. *)
Record SeedBitmap (B : Type) : Type := mkSeedBitmap {
  sd_Index : bytes;
  sd_Field : bytes;
  sd_From : Z;
  sd_To : Z;
  sd_Bits : B;
  sd_Count : Z }.
Arguments mkSeedBitmap {B}.
Arguments sd_Index {B}.
Arguments sd_Field {B}.
Arguments sd_From {B}.
Arguments sd_To {B}.
Arguments sd_Bits {B}.
Arguments sd_Count {B}.

Record BitmapIndex (B I : Type) : Type := mkBitmapIndex {
  bi_tableCache : gmap bytes BasicTable;
  bi_bitmapCache : gmap (bytes * bytes) (gmap Z (gmap Z B));
  bi_bsiCache : gmap (bytes * bytes) (gmap Z I);
  bi_seedCache : gmap bytes (SeedBitmap B);
  Member : bytes -> bool }.
Arguments mkBitmapIndex {B I}.
Arguments bi_tableCache {B I}.
Arguments bi_bitmapCache {B I}.
Arguments bi_bsiCache {B I}.
Arguments bi_seedCache {B I}.
Arguments Member {B I}.

Definition withSeedCache {B I} (m : BitmapIndex B I) (seeds : gmap bytes (SeedBitmap B)) : BitmapIndex B I :=
  mkBitmapIndex (bi_tableCache m) (bi_bitmapCache m) (bi_bsiCache m) seeds (Member m).

(** The tables of the node, for the operations that read nothing else. *)
Definition schemaOf {B I} (m : BitmapIndex B I) : Node B := mkNode (bi_tableCache m) ∅.

Definition bsiStrategies : list bytes :=
  [str "IntBSI"; str "FloatScaleBSI"; str "TimestampBSI"; str "TimeStampBSI"; str "SysMillisBSI";
   str "SysMicroBSI"; str "SysSecBSI"; str "StringLexBSI"; str "UUIDBSI"; str "CustomBSI"; str "ParentRelation"].

Definition BasicAttribute_IsBSI (a : Attribute) : bool := bool_decide (MappingStrategy a ∈ bsiStrategies).

(** An unknown field is logged; reading its nil attribute panics. *)
Definition isBSI {B I} (m : BitmapIndex B I) (index field : bytes) : go bool :=
  match BasicTable_GetAttribute (bi_tableCache m !! index) field with
  | Ok attr => Ok (BasicAttribute_IsBSI attr)
  | _ => Panic
  end.

(** ** Times *)

Definition formatShardTime (t : Time) : bytes := FormatYMDH (UTC t).

(** The start of the day or hour of an instant in UTC, in nanoseconds. *)
Definition truncateTime (tr : Time) (tq : bytes) : Z :=
  if decide (tq = str "YMD") then UnixNano (Date (Year tr) (Month tr) (Day tr) 0 0 0 0)
  else UnixNano (Date (Year tr) (Month tr) (Day tr) (Hour tr) 0 0 0).

(** A shard is in the window when its truncated time is. *)
Definition inWindow (tq : bytes) (fromTime toTime ts : Z) : bool :=
  let rts := truncateTime (UnixUTC ts) tq in
  negb ((rts <? fromTime) || (toTime <? rts)).

Section Node.

Context {B I : Type} `{Roaring B} `{!RoaringOps B} `{!BSILib B I}.

Implicit Types (m : BitmapIndex B I).

(** ** Standard bitmaps *)

Definition bitmapHashKey (index field : bytes) (rowID ts : Z) : bytes :=
  Sprintf "%s/%s/%d/%s" [FStr index; FStr field; FInt rowID; FStr (formatShardTime (UnixUTC ts))].

(** The rows a shard contributes, with the found set; none when nothing is left. *)
Definition restrict (foundSet : option B) (negate : bool) (bits : B) : option B :=
  match foundSet with
  | None => Some bits
  | Some fs =>
    let b := if negate then AndNot bits fs else And bits fs in
    if GetCardinality b =? 0 then None else Some b
  end.

Definition rowShards m (index field : bytes) (rowID : Z) : gmap Z B :=
  default ∅ (default ∅ (bi_bitmapCache m !! (index, field)) !! rowID).

(** A field without a time quantum has no window. *)
Definition timeRange m (index field : bytes) (rowID : Z) (fromTime toTime : Time)
    (foundSet : option B) (negate : bool) : go B :=
  attr ← getFieldConfig (schemaOf m) index field;
  let tq := at_TimeQuantumType attr in
  let fromTime := truncateTime fromTime tq in
  let toTime := truncateTime toTime tq in
  let a := omap (fun '(ts, bits) =>
             if negb (bool_decide (tq = [])) && negb (inWindow tq fromTime toTime ts) then None
             else if negb (Member m (bitmapHashKey index field rowID ts)) then None
             else restrict foundSet negate bits)
             (map_to_list (rowShards m index field rowID)) in
  if decide (tq = []) then mret (if bool_decide (a = []) then NewBitmap else ParOr a)
  else mret (ParOr a).

Definition listAllRowIDs m (index field : bytes) : list Z :=
  map fst (map_to_list (default ∅ (bi_bitmapCache m !! (index, field)))).

(** ** Indexes *)

Definition bsiHashKey (index field : bytes) (ts : Z) : bytes :=
  Sprintf "%s/%s/%s" [FStr index; FStr field; FStr (formatShardTime (UnixUTC ts))].

(** [b.Intersects(c)] and [b.AndCardinality(c)] *)
Definition Intersects (b c : B) : bool := 0 <? GetCardinality (And b c).
Definition AndCardinality (b c : B) : Z := GetCardinality (And b c).

(** [bsi.GetCardinality()] *)
Definition BSI_GetCardinality (i : I) : Z := GetCardinality (GetExistenceBitmap i).

(** The source itself when the found set covers it; nothing when no row is left. *)
Definition retainedProjectionBSI (source : I) (foundSet : option B) (negate : bool) : option I :=
  let nonEmpty i := if BSI_GetCardinality i =? 0 then None else Some i in
  match foundSet with
  | None => nonEmpty source
  | Some foundSet =>
    let existence := GetExistenceBitmap source in
    if negate then
      let retainSet := AndNot existence foundSet in
      if GetCardinality retainSet =? 0 then None else nonEmpty (NewBSIRetainSet source retainSet)
    else if negb (Intersects existence foundSet) then None
    else
      let existenceRows := GetCardinality existence in
      if (existenceRows <=? GetCardinality foundSet) && (AndCardinality existence foundSet =? existenceRows)
      then Some source
      else nonEmpty (NewBSIRetainSet source foundSet)
  end.

Definition bsiShards m (index field : bytes) : gmap Z I := default ∅ (bi_bsiCache m !! (index, field)).

(** Without a time quantum only the shard of time zero is read, whoever owns it. *)
Definition timeRangeBSI m (index field : bytes) (fromTime toTime : Time)
    (foundSet : option B) (negate ownedOnly : bool) : go I :=
  attr ← getFieldConfig (schemaOf m) index field;
  let tq := at_TimeQuantumType attr in
  let fromTime := truncateTime fromTime tq in
  let toTime := truncateTime toTime tq in
  _ ← newBSIBitmap (schemaOf m) index field;
  let a :=
    if decide (tq = []) then
      match bsiShards m index field !! 0 with
      | Some bsi => match foundSet with
                    | Some _ => option_list (retainedProjectionBSI bsi foundSet negate)
                    | None => [bsi]
                    end
      | None => []
      end
    else
      omap (fun '(ts, bsi) =>
        if negb (inWindow tq fromTime toTime ts) then None
        else if ownedOnly && negb (Member m (bsiHashKey index field ts)) then None
        else match foundSet with
             | Some _ => retainedProjectionBSI bsi foundSet negate
             | None => if BSI_GetCardinality bsi =? 0 then None else Some bsi
             end)
        (map_to_list (bsiShards m index field)) in
  mret (if bool_decide (a = []) then NewDefaultBSI else BSI_ParOr NewDefaultBSI a).

(** ** Existence, through the seed cache *)

Definition seedCacheKey (index field : bytes) (fromTime toTime : Z) : bytes :=
  Sprintf "%s/%s/%d/%d" [FStr index; FStr field; FInt fromTime; FInt toTime].

Definition cachedSeedBitmap m (index field : bytes) (fromTime toTime : Z) : option (B * Z) :=
  match bi_seedCache m !! seedCacheKey index field fromTime toTime with
  | Some entry => Some (sd_Bits entry, sd_Count entry)
  | None => None
  end.

Definition storeSeedBitmap m (index field : bytes) (fromTime toTime : Z) (bits : B) (count : Z)
    : BitmapIndex B I :=
  withSeedCache m (<[seedCacheKey index field fromTime toTime :=
    mkSeedBitmap index field fromTime toTime bits count]> (bi_seedCache m)).

(** The existence bitmaps of the shards in the window. *)
Definition existenceShards m (index field tq : bytes) (fromTime toTime : Z) : list B :=
  omap (fun '(ts, bsi) =>
    if negb (bool_decide (tq = [])) && negb (inWindow tq fromTime toTime ts) then None
    else Some (GetExistenceBitmap bsi)) (map_to_list (bsiShards m index field)).

Definition sumCardinality (l : list B) : Z := foldl (fun c b => wrap_u 64 (c + GetCardinality b)) 0 l.

Definition timeRangeExistenceWithCount (index field : bytes) (fromTime toTime : Time)
    : stgo (BitmapIndex B I) (B * Z) := fun m =>
  match getFieldConfig (schemaOf m) index field with
  | Ok attr =>
    let tq := at_TimeQuantumType attr in
    let fromTime := truncateTime fromTime tq in
    let toTime := truncateTime toTime tq in
    match cachedSeedBitmap m index field fromTime toTime with
    | Some found => (Ok found, m)
    | None =>
      let results := existenceShards m index field tq fromTime toTime in
      let result := ParOr results in
      let count := sumCardinality results in
      (Ok (result, count), storeSeedBitmap m index field fromTime toTime result count)
    end
  | Err e => (Err e, m)
  | Panic => (Panic, m)
  end.

(** After a write or a delete in a shard: entries whose window has the shard's time
    grow by the rows added, or are dropped when rows were removed. *)
Definition updateSeedCacheForBSIFragment m (index field : bytes) (shardNano : Z) (added removed : option B)
    : BitmapIndex B I :=
  withSeedCache m (omap (fun entry =>
    if negb (bool_decide (sd_Index entry = index)) || negb (bool_decide (sd_Field entry = field))
    then Some entry
    else if (shardNano <? sd_From entry) || (sd_To entry <? shardNano) then Some entry
    else match removed, added with
         | Some _, _ => None
         | None, Some b =>
           let bits := ParOr [sd_Bits entry; b] in
           Some (mkSeedBitmap (sd_Index entry) (sd_Field entry) (sd_From entry) (sd_To entry)
                   bits (GetCardinality bits))
         | None, None => Some entry
         end) (bi_seedCache m)).

Definition clearSeedCacheForIndex m (index : bytes) : BitmapIndex B I :=
  withSeedCache m (filter (fun p => sd_Index p.2 <> index) (bi_seedCache m)).

(** ** Candidates of the fragments before *)

Record queryPriorIntersectCandidates : Type := mkPrior {
  pi_index : bytes;
  pi_rows : option B;
  pi_seeded : bool }.

Definition isExistenceSeedFragment (f : PbFragment) : bool :=
  pf_NullCheck f && pf_Negate f && bool_decide (pf_Operation f = UNION).

Definition queryFragmentCanUsePriorIntersect (f : PbFragment) : bool :=
  bool_decide (pf_Operation f = INTERSECT) && negb (pf_OrContext f) && negb (pf_Negate f) &&
  negb (pf_NullCheck f) && float32Zero (pf_SamplePct f).

Definition queryFragmentCanUseSeededFoundSet (f : PbFragment) : bool :=
  bool_decide (pf_Operation f = INTERSECT \/ pf_Operation f = UNION) && negb (pf_Negate f) &&
  negb (pf_NullCheck f) && float32Zero (pf_SamplePct f).

Definition FoundSetFor (s : queryPriorIntersectCandidates) (f : PbFragment) : option B :=
  match pi_rows s with
  | None => None
  | Some rows =>
    if negb (bool_decide (pi_index s = pf_Index f)) || (GetCardinality rows =? 0) then None
    else if pi_seeded s
    then (if queryFragmentCanUseSeededFoundSet f then Some rows else None)
    else (if queryFragmentCanUsePriorIntersect f then Some rows else None)
  end.

Definition Observe (s : queryPriorIntersectCandidates) (f : PbFragment) (bitmap : B)
    : queryPriorIntersectCandidates :=
  if negb (queryFragmentCanUsePriorIntersect f) then s
  else match pi_rows s with
       | None => mkPrior (pf_Index f) (Some bitmap) (pi_seeded s)
       | Some rows =>
         if negb (bool_decide (pi_index s = pf_Index f)) then mkPrior [] None (pi_seeded s)
         else mkPrior (pi_index s) (Some (And rows bitmap)) (pi_seeded s)
       end.

(** ** Fragments *)

Definition batchEqualBigKey (value : Z) : bytes := byte_of (Z.sgn value + 1) :: BigInt_Bytes value.

(** The rows of the found set whose value is among [values]. *)
Definition batchEqualBigWithFoundSet (bsi : I) (values : list Z) (foundSet : B) : B :=
  if (GetCardinality foundSet =? 0) || bool_decide (values = []) then NewBitmap
  else
    let valueSet := map batchEqualBigKey values in
    let rows := ToArray foundSet in
    BitmapOf (omap (fun '(row, value) =>
      match value with
      | Some v => if decide (batchEqualBigKey v ∈ valueSet) then Some row else None
      | None => None
      end) (zip rows (GetBigValues bsi rows))).

(** The comparison of a fragment, on the index of its field. *)
Definition compareBSI (v : PbFragment) (bsi : I) (foundSet : option B) : option B :=
  let value := BigIntFromWireBytes (pf_Value v) in
  let begin_ := BigIntFromWireBytes (pf_Begin v) in
  let end_ := BigIntFromWireBytes (pf_End v) in
  match pf_BsiOp v with
  | BSI_NA => None
  | BSI_LT => Some (CompareBigValue bsi LT value 0 foundSet)
  | BSI_LE => Some (CompareBigValue bsi LE value 0 foundSet)
  | BSI_EQ => Some (CompareBigValue bsi EQ value 0 foundSet)
  | BSI_GE => Some (CompareBigValue bsi GE value 0 foundSet)
  | BSI_GT => Some (CompareBigValue bsi GT value 0 foundSet)
  | BSI_RANGE => Some (CompareBigValue bsi RANGE begin_ end_ foundSet)
  | BSI_BATCH_EQ =>
    let values := map BigIntFromWireBytes (pf_Values v) in
    match foundSet with
    | Some fs => Some (batchEqualBigWithFoundSet bsi values fs)
    | None => Some (BatchEqualBig bsi values)
    end
  end.

(** What the loop over the fragments keeps: the bitmaps by fragment, the samples, the
    indexes read so far, the counts, the candidates, and the fragments seen, with the
    operations the loop gave them. *)
Record queryLoop : Type := mkLoop {
  ql_dataMap : gmap bytes B;
  ql_samples : list (RowBitmap B);
  ql_bsiQueryCache : gmap bytes I;
  ql_counts : gmap bytes Z;
  ql_prior : queryPriorIntersectCandidates;
  ql_query : list PbFragment }.

(** A null check takes its operation from its flags. *)
Definition nullCheckOperation (v : PbFragment) : PbFragment :=
  if pf_NullCheck v then
    withOperation v (if isExistenceSeedFragment v then UNION
                     else if pf_Negate v then INTERSECT else DIFFERENCE)
  else v.

Definition bsiQueryCacheKey (v : PbFragment) (fromTime toTime : Time) : bytes :=
  Sprintf "%s/%s/%d/%d" [FStr (pf_Index v); FStr (pf_Field v); FInt (UnixNano fromTime); FInt (UnixNano toTime)].

(** A fragment with a comparison; the index of a field is read once per query. *)
Definition evalBSI (fromTime toTime : Time) (l : queryLoop) (v : PbFragment)
    : stgo (BitmapIndex B I) (option B * gmap bytes I) := fun m =>
  let foundSet := FoundSetFor (ql_prior l) v in
  let key := bsiQueryCacheKey v fromTime toTime in
  match ql_bsiQueryCache l !! key with
  | Some bsi => (Ok (compareBSI v bsi foundSet, ql_bsiQueryCache l), m)
  | None =>
    (bsi ← timeRangeBSI m (pf_Index v) (pf_Field v) fromTime toTime None false true;
     mret (compareBSI v bsi foundSet, <[key := bsi]> (ql_bsiQueryCache l)), m)
  end.

(** The bitmaps of several rows; a row identifier is the low 64 bits of its bytes. *)
Definition evalValues (fromTime toTime : Time) (l : queryLoop) (v : PbFragment) m : go B :=
  bitmaps ← mapM (fun raw => timeRange m (pf_Index v) (pf_Field v) (wrap_u 64 (SetBytes raw))
                               fromTime toTime (FoundSetFor (ql_prior l) v) false) (pf_Values v);
  let bitmaps := filter (fun x => 0 < GetCardinality x) bitmaps in
  mret (if bool_decide (bitmaps = []) then NewBitmap else ParOr bitmaps).

(** The bitmaps of every row of the field that has one, with its row identifier. *)
Definition scanRows (fromTime toTime : Time) (v : PbFragment) m : go (list (RowBitmap B)) :=
  rows ← mapM (fun row => x ← timeRange m (pf_Index v) (pf_Field v) row fromTime toTime None false;
                          mret (mkRowBitmap (pf_Field v) row x))
           (listAllRowIDs m (pf_Index v) (pf_Field v));
  mret (filter (fun rb => GetCardinality (rb_Bits rb) <> 0) rows).

Definition evalFragment (fromTime toTime : Time) (l : queryLoop) (v : PbFragment)
    : stgo (BitmapIndex B I) queryLoop := fun m =>
  let finish (v : PbFragment) (bm : option B) (samples : list (RowBitmap B)) (cache : gmap bytes I)
      (counts : gmap bytes Z) : queryLoop :=
    let bits := default NewBitmap bm in
    mkLoop (<[pf_Id v := bits]> (ql_dataMap l)) (ql_samples l ++ samples) cache counts
      (Observe (ql_prior l) v bits) (ql_query l ++ [v]) in
  let v := nullCheckOperation v in
  let existence := if pf_NullCheck v then isBSI m (pf_Index v) (pf_Field v) else Ok false in
  match existence with
  | Ok true =>
    match timeRangeExistenceWithCount (pf_Index v) (pf_Field v) fromTime toTime m with
    | (Ok (bm, count), m) =>
      (Ok (finish v (Some bm) [] (ql_bsiQueryCache l) (<[pf_Id v := count]> (ql_counts l))), m)
    | (Err e, m) => (Err (Errorf "timeRangeExistence failed for %s - %v" [AStr (pf_Index v); AErr e]), m)
    | (Panic, m) => (Panic, m)
    end
  | Ok false =>
    if decide (pf_BsiOp v <> BSI_NA) then
      match evalBSI fromTime toTime l v m with
      | (Ok (bm, cache), m) => (Ok (finish v bm [] cache (ql_counts l)), m)
      | (Err e, m) => (Err e, m)
      | (Panic, m) => (Panic, m)
      end
    else if decide (pf_Values v <> []) then
      (bm ← evalValues fromTime toTime l v m;
       mret (finish v (Some bm) [] (ql_bsiQueryCache l) (ql_counts l)), m)
    else if float32Positive (pf_SamplePct v) || pf_NullCheck v then
      (rows ← scanRows fromTime toTime v m;
       mret (if pf_NullCheck v
             then finish v (if bool_decide (rows = []) then None else Some (ParOr (map rb_Bits rows)))
                    [] (ql_bsiQueryCache l) (ql_counts l)
             else finish v None rows (ql_bsiQueryCache l) (ql_counts l)), m)
    else
      (bm ← timeRange m (pf_Index v) (pf_Field v) (pf_RowID v) fromTime toTime
              (FoundSetFor (ql_prior l) v) false;
       mret (finish v (Some bm) [] (ql_bsiQueryCache l) (ql_counts l)), m)
  | Err e => (Err e, m)
  | Panic => (Panic, m)
  end.

Fixpoint evalFragments (fromTime toTime : Time) (l : queryLoop) (q : list PbFragment)
    : stgo (BitmapIndex B I) queryLoop :=
  match q with
  | [] => mret l
  | v :: q => l ← evalFragment fromTime toTime l v; evalFragments fromTime toTime l q
  end.

(** ** Queries *)

(** The existence bitmap of a table: that of the first field of its key. *)
Definition tableExistence (index : bytes) (fromTime toTime : Time) : stgo (BitmapIndex B I) B := fun m =>
  match bi_tableCache m !! index with
  | None => (Err (Errorf "Cannot locate configuration for %s" [AStr index]), m)
  | Some table =>
    match BasicTable_GetPrimaryKeyInfo table with
    | Ok (first :: _) =>
      match timeRangeExistenceWithCount index (FieldName first) fromTime toTime m with
      | (Ok (ei, _), m) => (Ok ei, m)
      | (Err e, m) => (Err (Errorf "timeRangeExistence failed for %s - %v" [AStr index; AErr e]), m)
      | (Panic, m) => (Panic, m)
      end
    | Ok [] => (Panic, m)
    | Err e => (Err (Errorf "timeRangeExistence GetPK info failed for %s - %v" [AStr index; AErr e]), m)
    | Panic => (Panic, m)
    end
  end.

(** The first pass: existence for null checks, and for every fragment when the query
    has no union. *)
Fixpoint gatherExistence (foundUnion : bool) (fromTime toTime : Time) (found : gmap bytes B)
    (q : list PbFragment) : stgo (BitmapIndex B I) (gmap bytes B) :=
  match q with
  | [] => mret found
  | v :: q =>
    if decide (pf_Index v = []) then lift (Err (Errorf "Index not specified for query fragment %#v" []))
    else if decide (pf_Field v = []) then lift (Err (Errorf "Field not specified for query fragment %#v" []))
    else if ((pf_NullCheck v && negb (isExistenceSeedFragment v)) || negb foundUnion) &&
            bool_decide (found !! pf_Index v = None) then
      ei ← tableExistence (pf_Index v) fromTime toTime;
      gatherExistence foundUnion fromTime toTime (<[pf_Index v := ei]> found) q
    else gatherExistence foundUnion fromTime toTime found q
  end.

Definition hasUnion (q : list PbFragment) : bool := existsb (fun v => bool_decide (pf_Operation v = UNION)) q.

Definition queryBody (order : list bytes -> list bytes) (query : PbBitmapQuery)
    (prior : queryPriorIntersectCandidates) : stgo (BitmapIndex B I) QueryResult :=
  let fromTime := UnixUTC (pq_FromTime query) in
  let toTime := UnixUTC (pq_ToTime query) in
  globalExistence ← gatherExistence (hasUnion (pq_Query query)) fromTime toTime ∅ (pq_Query query);
  l ← evalFragments fromTime toTime (mkLoop ∅ [] ∅ ∅ prior []) (pq_Query query);
  ir ← lift (Reduce order (FromProto (ql_query l) (ql_dataMap l)));
  let ir := match pq_Query query with
            | [v] => match ql_counts l !! pf_Id v with Some count => SetCount ir count | None => ir end
            | _ => ir
            end in
  let ir := AddSamples ir (ql_samples l) in
  let ir := match globalExistence !! im_Index ir with Some ge => AddExistence ir ge | None => ir end in
  lift (MarshalQueryResult ir).

(** [json.Marshal] refuses a sampling rate that is not finite. *)
Definition float32Finite (bits : Z) : bool := negb (Z.land (Z.shiftr bits 23) 0xff =? 0xff).

(** A panic is recovered; the call then returns a nil result and no error. *)
Definition queryWithPriorIntersect (order : list bytes -> list bytes) (query : PbBitmapQuery)
    (prior : queryPriorIntersectCandidates) : stgo (BitmapIndex B I) (option QueryResult) := fun m =>
  if negb (forallb (fun v => float32Finite (pf_SamplePct v)) (pq_Query query))
  then (Err (Errorf "json: unsupported value" []), m)
  else if decide (pq_Query query = []) then (Err (Errorf "query fragment array must not be empty" []), m)
  else match queryBody order query prior m with
       | (Ok r, m) => (Ok (Some r), m)
       | (Err e, m) => (Err e, m)
       | (Panic, m) => (Ok None, m)
       end.

Definition noPrior : queryPriorIntersectCandidates := mkPrior [] None false.

Definition Query (order : list bytes -> list bytes) (query : PbBitmapQuery)
    : stgo (BitmapIndex B I) (option QueryResult) := queryWithPriorIntersect order query noPrior.

Definition QueryWithFoundSet (order : list bytes -> list bytes) (query : PbBitmapQuery) (index : bytes)
    (rownums : list Z) : stgo (BitmapIndex B I) (option QueryResult) :=
  queryWithPriorIntersect order query (mkPrior index (Some (BitmapOf rownums)) true).

End Node.

(** ** What a fragment selects

    The rows a fragment stands for on the data of a node, without candidates, caches
    and bitmaps. *)

Section Meaning.

Context {B I : Type} `{Roaring B} `{!BSILib B I}.

Implicit Types (m : BitmapIndex B I).

Definition quantumOf m (index field : bytes) : bytes :=
  match getFieldConfig (schemaOf m) index field with Ok attr => at_TimeQuantumType attr | _ => [] end.

(** The shards of an index that a query reads for its values, and for existence. *)
Definition valueShard m (fromTime toTime : Time) (index field : bytes) (ts : Z) : bool :=
  let tq := quantumOf m index field in
  if decide (tq = []) then ts =? 0
  else inWindow tq (truncateTime fromTime tq) (truncateTime toTime tq) ts && Member m (bsiHashKey index field ts).

Definition existenceShard m (fromTime toTime : Time) (index field : bytes) (ts : Z) : bool :=
  let tq := quantumOf m index field in
  bool_decide (tq = []) || inWindow tq (truncateTime fromTime tq) (truncateTime toTime tq) ts.

Definition rowShard m (fromTime toTime : Time) (index field : bytes) (rowID ts : Z) : bool :=
  existenceShard m fromTime toTime index field ts && Member m (bitmapHashKey index field rowID ts).

Definition hasValue m (fromTime toTime : Time) (index field : bytes) (x v : Z) : Prop :=
  exists ts bsi, bsiShards m index field !! ts = Some bsi /\
    valueShard m fromTime toTime index field ts = true /\ GetBigValue bsi x = Some v.

Definition rowExists m (fromTime toTime : Time) (index field : bytes) (x : Z) : Prop :=
  exists ts bsi, bsiShards m index field !! ts = Some bsi /\
    existenceShard m fromTime toTime index field ts = true /\ Contains (GetExistenceBitmap bsi) x = true.

Definition hasRow m (fromTime toTime : Time) (index field : bytes) (rowID x : Z) : Prop :=
  exists ts bits, rowShards m index field rowID !! ts = Some bits /\
    rowShard m fromTime toTime index field rowID ts = true /\ Contains bits x = true.

(** The condition a comparison puts on the value of a row. *)
Definition condition (v : PbFragment) (value : Z) : bool :=
  let operand := BigIntFromWireBytes (pf_Value v) in
  match pf_BsiOp v with
  | BSI_NA => false
  | BSI_LT => value <? operand
  | BSI_LE => value <=? operand
  | BSI_EQ => value =? operand
  | BSI_GE => operand <=? value
  | BSI_GT => operand <? value
  | BSI_RANGE => (BigIntFromWireBytes (pf_Begin v) <=? value) && (value <=? BigIntFromWireBytes (pf_End v))
  | BSI_BATCH_EQ => bool_decide (value ∈ map BigIntFromWireBytes (pf_Values v))
  end.

(** The operands that a comparison passes to the index; a list of values is looked up
    value by value. *)
Definition operands (v : PbFragment) : list Z :=
  match pf_BsiOp v with
  | BSI_NA | BSI_BATCH_EQ => []
  | BSI_RANGE => [BigIntFromWireBytes (pf_Begin v); BigIntFromWireBytes (pf_End v)]
  | _ => [BigIntFromWireBytes (pf_Value v)]
  end.

(** The row has a value in the field of the fragment. *)
Definition valued m (fromTime toTime : Time) (v : PbFragment) (x : Z) : Prop :=
  exists value, hasValue m fromTime toTime (pf_Index v) (pf_Field v) x value.

(** The operands are between two values of the field, unless it has none: the range in
    which the comparisons of an index are documented. *)
Definition ranged m (fromTime toTime : Time) (v : PbFragment) : Prop :=
  Forall (between (hasValue m fromTime toTime (pf_Index v) (pf_Field v))) (operands v).

Definition matches m (fromTime toTime : Time) (v : PbFragment) (x : Z) : Prop :=
  if pf_NullCheck v && default false (go_option (isBSI m (pf_Index v) (pf_Field v)))
  then rowExists m fromTime toTime (pf_Index v) (pf_Field v) x
  else if decide (pf_BsiOp v <> BSI_NA)
  then exists value, hasValue m fromTime toTime (pf_Index v) (pf_Field v) x value /\ condition v value = true
  else if decide (pf_Values v <> [])
  then exists raw, raw ∈ pf_Values v /\
         hasRow m fromTime toTime (pf_Index v) (pf_Field v) (wrap_u 64 (SetBytes raw)) x
  else if pf_NullCheck v
  then exists rowID, hasRow m fromTime toTime (pf_Index v) (pf_Field v) rowID x
  else hasRow m fromTime toTime (pf_Index v) (pf_Field v) (pf_RowID v) x.

(** ** Invariants *)

(** The shards of a field give no row two values. *)
Definition shardsAgree m : Prop := forall index field,
  agree (map snd (map_to_list (bsiShards m index field))).

(** Names do not contain the separator of the cache's keys. *)
Definition plainName (s : bytes) : Prop := byte_of 47 ∉ s.

Context `{!RoaringOps B}.

(** An entry records what its key stands for. *)
Definition entryOf (entry : SeedBitmap B) (index field : bytes) (fromTime toTime : Z) : Prop :=
  sd_Index entry = index /\ sd_Field entry = field /\ sd_From entry = fromTime /\ sd_To entry = toTime.

(** Every entry of the seed cache has the rows that its key stands for. *)
Definition seedsCoherent m : Prop := forall index field fromTime toTime entry,
  plainName index -> plainName field -> in_s 64 fromTime -> in_s 64 toTime ->
  bi_seedCache m !! seedCacheKey index field fromTime toTime = Some entry ->
  entryOf entry index field fromTime toTime /\
  same_rows (sd_Bits entry) (ParOr (existenceShards m index field (quantumOf m index field) fromTime toTime)).

(** A field the node knows. *)
Definition knownField m (index field : bytes) : Prop :=
  is_ok (getFieldConfig (schemaOf m) index field) = true /\
  is_ok (newBSIBitmap (schemaOf m) index field) = true /\
  plainName index /\ plainName field /\ index <> [] /\ field <> [].

End Meaning.

(** ** Lookups *)

Section Lookups.

Context {B I : Type} `{RoaringOpsLaws B} `{!BSILib B I} `{!BSILaws B I}.

Implicit Types (m : BitmapIndex B I).

(** The seed cache does not change what a query means. *)
Lemma matches_seeds m seeds fromTime toTime v x :
  matches (withSeedCache m seeds) fromTime toTime v x <-> matches m fromTime toTime v x.
Proof. done. Qed.

Lemma config_quantum m index field attr : getFieldConfig (schemaOf m) index field = Ok attr ->
  quantumOf m index field = at_TimeQuantumType attr.
Proof. intros E. unfold quantumOf. by rewrite E. Qed.

Lemma is_ok_true {A} (r : go A) : is_ok r = true -> exists a, r = Ok a.
Proof. destruct r; [by eexists|done..]. Qed.

Lemma isBSI_known m index field : knownField m index field -> exists b, isBSI m index field = Ok b.
Proof.
  intros [Hc _]. unfold isBSI, getFieldConfig in *.
  change (tableCache (schemaOf m)) with (bi_tableCache m) in Hc.
  by destruct (BasicTable_GetAttribute _ _); [eexists|..].
Qed.

(** The bitmaps of a row, restricted by the found set. *)
Lemma timeRange_rows m index field rowID fromTime toTime foundSet : knownField m index field ->
  exists b, timeRange m index field rowID fromTime toTime foundSet false = Ok b /\
    forall x, Contains b x = true <->
      hasRow m fromTime toTime index field rowID x /\
      match foundSet with Some fs => Contains fs x = true | None => True end.
Proof.
  intros [[attr Ea]%is_ok_true _]. unfold timeRange. rewrite Ea. cbn [mbind go_bind mret go_ret].
  pose proof (config_quantum m index field attr Ea) as Hq. set (tq := at_TimeQuantumType attr) in *.
  set (a := omap _ _).
  assert (forall x, (exists b, b ∈ a /\ Contains b x = true) <->
    hasRow m fromTime toTime index field rowID x /\
    match foundSet with Some fs => Contains fs x = true | None => True end) as Ha.
  { intros x. unfold a, hasRow. setoid_rewrite list_elem_of_omap. split.
    - intros (b & ([ts bits] & Hin%elem_of_map_to_list & Eb) & Hx).
      destruct (negb (bool_decide (tq = [])) && _) eqn:Ew; [done|].
      destruct (negb (Member m _)) eqn:Em; [done|]. unfold restrict in Eb.
      assert (rowShard m fromTime toTime index field rowID ts = true) as Hs.
      { unfold rowShard, existenceShard. rewrite Hq. apply negb_false_iff in Em. rewrite Em, andb_true_r.
        by destruct (bool_decide (tq = [])), (inWindow _ _ _ _). }
      destruct foundSet as [fs|].
      + destruct (GetCardinality _ =? 0); [done|]. injection Eb as <-. apply And_true in Hx as [Hb Hf].
        split; [by exists ts, bits|done].
      + injection Eb as <-. split; [by exists ts, bits|done].
    - intros [(ts & bits & Hin & Hs & Hx) Hf]. unfold rowShard, existenceShard in Hs. rewrite Hq in Hs.
      apply andb_true_iff in Hs as [Hw Hm].
      assert (negb (bool_decide (tq = [])) &&
        negb (inWindow tq (truncateTime fromTime tq) (truncateTime toTime tq) ts) = false) as Ew
        by by destruct (bool_decide (tq = [])), (inWindow _ _ _ _).
      destruct foundSet as [fs|].
      + exists (And bits fs). split; [|by apply And_true].
        exists (ts, bits). split; [by apply elem_of_map_to_list|]. rewrite Ew, Hm. cbn.
        assert (0 < GetCardinality (And bits fs)) by (apply GetCardinality_pos; exists x; by apply And_true).
        by if_false.
      + exists bits. split; [|done]. exists (ts, bits). split; [by apply elem_of_map_to_list|].
        by rewrite Ew, Hm. }
  destruct (decide (tq = [])); (eexists; split; [reflexivity|]); intros x.
  - rewrite <- Ha. case_bool_decide as Hn; [|apply ParOr_true]. rewrite Hn, NewBitmap_empty.
    split; [done|]. by intros (b & ?%elem_of_nil & _).
  - rewrite <- Ha. apply ParOr_true.
Qed.

Lemma agree_nil (l : list I) : agree (NewDefaultBSI :: l) <-> agree l.
Proof.
  unfold agree. setoid_rewrite elem_of_cons. split; [naive_solver|].
  intros Ha i j x v w [->|Hi] [->|Hj] Ei Ej; rewrite ?NewDefaultBSI_empty in *; try done.
  by apply (Ha i j x).
Qed.

Lemma agree_sub (l l' : list I) : (forall i, i ∈ l -> i ∈ l') -> agree l' -> agree l.
Proof. unfold agree. eauto. Qed.

Lemma BSI_cardinality_zero (i : I) x v : GetBigValue i x = Some v -> (BSI_GetCardinality (B := B) i =? 0) = false.
Proof.
  intros E. assert (0 < BSI_GetCardinality i); [|lia]. apply GetCardinality_pos. exists x.
  rewrite Contains_existence. apply bool_decide_eq_true. by eexists.
Qed.

(** The index of a field over the window has the values of its shards. *)
Lemma timeRangeBSI_values m index field fromTime toTime : knownField m index field -> shardsAgree m ->
  exists i, timeRangeBSI m index field fromTime toTime None false true = Ok i /\
    forall x v, GetBigValue i x = Some v <-> hasValue m fromTime toTime index field x v.
Proof.
  intros ([attr Ea]%is_ok_true & [nb En]%is_ok_true & _) Hag. unfold timeRangeBSI. rewrite Ea, En.
  cbn [mbind go_bind mret go_ret].
  pose proof (config_quantum m index field attr Ea) as Hq. set (tq := at_TimeQuantumType attr) in *.
  match goal with |- context [bool_decide (?l = [])] => set (a := l) end.
  assert (forall i, i ∈ a -> i ∈ map snd (map_to_list (bsiShards m index field))) as Hsub.
  { intros i Hi. apply list_elem_of_fmap. unfold a in Hi. destruct (decide (tq = [])).
    - destruct (bsiShards m index field !! 0) as [bsi|] eqn:E; [|by apply elem_of_nil in Hi].
      apply list_elem_of_singleton in Hi as ->. exists (0, bsi). split; [done|]. by apply elem_of_map_to_list.
    - apply list_elem_of_omap in Hi as ([ts bsi] & Hin & Ei). exists (ts, bsi). split; [|done].
      repeat case_match; by simplify_eq. }
  assert (forall x v, (exists i, i ∈ a /\ GetBigValue i x = Some v) <->
                      hasValue m fromTime toTime index field x v) as Ha.
  { intros x v. unfold hasValue, valueShard, a. rewrite Hq. destruct (decide (tq = [])).
    - split.
      + intros (i & Hi & Ei). destruct (bsiShards m index field !! 0) as [bsi|] eqn:E; [|by apply elem_of_nil in Hi].
        apply list_elem_of_singleton in Hi as ->. by exists 0, bsi.
      + intros (ts & bsi & E & ->%Z.eqb_eq & Ei). rewrite E. exists bsi. split; [left|done].
    - setoid_rewrite list_elem_of_omap. split.
      + intros (i & ([ts bsi] & Hin%elem_of_map_to_list & Ei) & Hv). exists ts, bsi. split; [done|].
        destruct (inWindow _ _ _ _); [|done]. destruct (Member m _); [|done]. cbn in Ei.
        destruct (BSI_GetCardinality bsi =? 0); [done|]. by injection Ei as <-.
      + intros (ts & bsi & Hin & [Hw Hm]%andb_true_iff & Ei). exists bsi. split; [|done].
        exists (ts, bsi). split; [by apply elem_of_map_to_list|]. rewrite Hw, Hm. cbn.
        by rewrite (BSI_cardinality_zero bsi x v Ei). }
  eexists. split; [reflexivity|]. intros x v. rewrite <- Ha. case_bool_decide as Hn.
  - rewrite Hn, NewDefaultBSI_empty. split; [done|]. by intros (i & ?%elem_of_nil & _).
  - rewrite BSI_ParOr_value by (apply agree_nil, (agree_sub _ _ Hsub), Hag).
    setoid_rewrite elem_of_cons. split.
    + intros (j & [->|Hj] & Ej); [by rewrite NewDefaultBSI_empty in Ej|by exists j].
    + intros (j & Hj & Ej). exists j. auto.
Qed.

End Lookups.

(** ** Keys *)

Lemma formatPadded_0 z : formatPadded 0 z = if z <? 0 then str "-" ++ FormatUint (- z) else FormatUint z.
Proof.
  unfold formatPadded, pad0. pose proof (zlen_nonneg (FormatUint (- z))). pose proof (zlen_nonneg (FormatUint z)).
  case_if.
  - replace (Z.to_nat (0 - 1 - zlen (FormatUint (- z)))) with O by lia. done.
  - replace (Z.to_nat (0 - zlen (FormatUint z))) with O by lia. done.
Qed.

Lemma digits_no (c : byte) l : isDigit c = false -> forallb isDigit l = true -> c ∉ l.
Proof. intros Hc Hl Hin%list_elem_of_In. rewrite forallb_forall in Hl. specialize (Hl c Hin). congruence. Qed.

Lemma FormatUint_no (c : byte) z : isDigit c = false -> 0 <= z -> c ∉ FormatUint z.
Proof. intros Hc Hz. apply digits_no; [done|]. by apply utoa_digits. Qed.

Lemma formatPadded_no_slash z : plainName (formatPadded 0 z).
Proof.
  unfold plainName. rewrite formatPadded_0. case_if; [|apply FormatUint_no; [done|lia]].
  change (str "-") with [byte_of 45]. cbn [app]. apply not_elem_of_cons. split; [done|].
  apply FormatUint_no; [done|lia].
Qed.

(** Text up to a separator it does not contain. *)
Lemma app_separator_inj (c : byte) a b a' b' : c ∉ a -> c ∉ a' ->
  a ++ c :: b = a' ++ c :: b' -> a = a' /\ b = b'.
Proof.
  revert a'. induction a as [|x a IH]; intros [|x' a'] Ha Ha' E; cbn in E.
  - by injection E.
  - injection E as -> _. exfalso. apply Ha'. left.
  - injection E as -> _. exfalso. apply Ha. left.
  - injection E as -> E. apply not_elem_of_cons in Ha as [_ Ha]. apply not_elem_of_cons in Ha' as [_ Ha'].
    destruct (IH a' Ha Ha' E) as [-> ->]. done.
Qed.

Lemma seedCacheKey_eq index field fromTime toTime : seedCacheKey index field fromTime toTime =
  index ++ byte_of 47 :: field ++ byte_of 47 :: formatPadded 0 fromTime ++ byte_of 47 :: formatPadded 0 toTime ++ [].
Proof. reflexivity. Qed.

Lemma seedCacheKey_inj i f a b i' f' a' b' :
  plainName i -> plainName f -> plainName i' -> plainName f' ->
  in_s 64 a -> in_s 64 b -> in_s 64 a' -> in_s 64 b' ->
  seedCacheKey i f a b = seedCacheKey i' f' a' b' -> i = i' /\ f = f' /\ a = a' /\ b = b'.
Proof.
  intros Hi Hf Hi' Hf' Ha Hb Ha' Hb'. rewrite !seedCacheKey_eq, !app_nil_r.
  intros [-> [-> [E1 E2]%app_separator_inj]%app_separator_inj]%app_separator_inj; try done;
    try apply formatPadded_no_slash.
  apply formatPadded_inj in E1, E2; done.
Qed.

(** Within a table and a window the key of the query cache determines the field. *)
Lemma bsiQueryCacheKey_inj v w fromTime toTime : pf_Index v = pf_Index w ->
  bsiQueryCacheKey v fromTime toTime = bsiQueryCacheKey w fromTime toTime -> pf_Field v = pf_Field w.
Proof.
  unfold bsiQueryCacheKey. intros ->. change (Sprintf _ [FStr ?i; FStr ?f; FInt ?a; FInt ?b])
    with (seedCacheKey i f a b). rewrite !seedCacheKey_eq. intros E.
  apply app_inv_head in E. injection E as E. by apply app_inv_tail in E.
Qed.

Lemma truncateTime_range t tq : in_s 64 (truncateTime t tq).
Proof. unfold truncateTime. case_decide; apply UnixNano_range. Qed.

Section Existence.

Context {B I : Type} `{RoaringOpsLaws B} `{!BSILib B I} `{!BSILaws B I}.

Implicit Types (m : BitmapIndex B I).

Lemma existenceShards_rows m index field fromTime toTime x :
  Contains (ParOr (existenceShards m index field (quantumOf m index field)
    (truncateTime fromTime (quantumOf m index field)) (truncateTime toTime (quantumOf m index field)))) x = true
  <-> rowExists m fromTime toTime index field x.
Proof.
  rewrite ParOr_true. unfold existenceShards, rowExists, existenceShard.
  set (tq := quantumOf m index field). setoid_rewrite list_elem_of_omap. split.
  - intros (b & ([ts bsi] & Hin%elem_of_map_to_list & E) & Hx). exists ts, bsi. split; [done|].
    destruct (bool_decide (tq = [])), (inWindow _ _ _ _); cbn in *; by simplify_eq.
  - intros (ts & bsi & Hin & Hs & Hx). exists (GetExistenceBitmap bsi). split; [|done].
    exists (ts, bsi). split; [by apply elem_of_map_to_list|].
    destruct (bool_decide (tq = [])), (inWindow _ _ _ _); done.
Qed.

(** The existence of a field over the window, from the cache or from the shards. *)
Lemma timeRangeExistence_rows m index field fromTime toTime : knownField m index field -> seedsCoherent m ->
  exists b c seeds,
    timeRangeExistenceWithCount index field fromTime toTime m = (Ok (b, c), withSeedCache m seeds) /\
    seedsCoherent (withSeedCache m seeds) /\
    forall x, Contains b x = true <-> rowExists m fromTime toTime index field x.
Proof.
  intros ([attr Ea]%is_ok_true & _ & Hpi & Hpf & _) Hc. unfold timeRangeExistenceWithCount. rewrite Ea.
  rewrite <- (config_quantum m index field attr Ea). unfold cachedSeedBitmap.
  set (tq := quantumOf m index field). set (a := truncateTime fromTime tq). set (b := truncateTime toTime tq).
  pose proof (truncateTime_range fromTime tq) as Ra. pose proof (truncateTime_range toTime tq) as Rb.
  fold a in Ra. fold b in Rb.
  destruct (bi_seedCache m !! _) as [entry|] eqn:E.
  - exists (sd_Bits entry), (sd_Count entry), (bi_seedCache m). split_and!; [by destruct m|by destruct m|].
    intros x. rewrite (proj2 (Hc index field a b entry Hpi Hpf Ra Rb E) x). apply existenceShards_rows.
  - eexists _, _, _. split_and!; [reflexivity| |intros x; apply existenceShards_rows].
    intros index' field' a' b' entry Hpi' Hpf' Ra' Rb'. cbn [bi_seedCache withSeedCache].
    destruct (decide (seedCacheKey index field a b = seedCacheKey index' field' a' b')) as [Ek|Hne].
    + rewrite Ek, lookup_insert_eq. intros [= <-].
      apply seedCacheKey_inj in Ek as (-> & -> & -> & ->); done.
    + rewrite lookup_insert_ne by done. intros E'. by apply (Hc index' field' a' b' entry).
Qed.

End Existence.

(** ** Evaluation of a fragment *)

Section Fragments.

Context {B I : Type} `{RoaringOpsLaws B} `{!BSILib B I} `{!BSILaws B I}.

Implicit Types (m : BitmapIndex B I) (v : PbFragment).

Lemma batchEqualBigKey_inj a b : batchEqualBigKey a = batchEqualBigKey b -> a = b.
Proof.
  unfold batchEqualBigKey. intros [= Es Eb]. assert (Z.abs a = Z.abs b) by (rewrite <- !SetBytes_Bytes; congruence).
  assert (Z.sgn a = Z.sgn b); [|lia]. apply (f_equal ub) in Es. rewrite !ub_byte_of in Es.
  pose proof (Z.sgn_spec a). pose proof (Z.sgn_spec b). rewrite !Z.mod_small in Es by lia. lia.
Qed.

Lemma elem_of_zip_map {A C} (f : A -> C) l a c : (a, c) ∈ zip l (map f l) <-> a ∈ l /\ c = f a.
Proof.
  induction l as [|x l IH]; cbn; [by rewrite !elem_of_nil; naive_solver|].
  rewrite !elem_of_cons, IH. naive_solver.
Qed.

Lemma batchEqual_rows (i : I) values (fs : B) x :
  Contains (batchEqualBigWithFoundSet i values fs) x = true <->
  (exists val, GetBigValue i x = Some val /\ val ∈ values) /\ Contains fs x = true.
Proof.
  unfold batchEqualBigWithFoundSet. destruct (_ || _) eqn:E.
  - rewrite NewBitmap_empty. split; [done|]. intros [(val & _ & Hv) Hx]. apply orb_true_iff in E as [E|E].
    + apply Z.eqb_eq in E. rewrite GetCardinality_zero in E. by rewrite E in Hx.
    + apply bool_decide_eq_true in E. subst. by apply elem_of_nil in Hv.
  - rewrite GetBigValues_map, Contains_BitmapOf.
    2: { apply Forall_forall. intros row ([row' w] & Hin%elem_of_zip_map & Er)%list_elem_of_omap.
         destruct Hin as [Hin ->]. apply elem_of_ToArray, Contains_range in Hin.
         repeat case_match; by simplify_eq. }
    rewrite bool_decide_eq_true, list_elem_of_omap. split.
    + intros ([row w] & [Hin ->]%elem_of_zip_map & Er). destruct (GetBigValue i row) as [val|] eqn:Ev; [|done].
      case_decide as Hk; [|done]. injection Er as <-. split; [|by apply elem_of_ToArray].
      exists val. split; [done|]. apply list_elem_of_fmap in Hk as (val' & Ek & Hv').
      by rewrite (batchEqualBigKey_inj _ _ Ek).
    + intros [(val & Ev & Hv) Hx]. exists (x, Some val). split.
      * apply elem_of_zip_map. split; [by apply elem_of_ToArray|by rewrite Ev].
      * cbn. by rewrite decide_True by by apply list_elem_of_fmap_2.
Qed.

Definition within (foundSet : option B) (x : Z) : Prop :=
  match foundSet with Some fs => Contains fs x = true | None => True end.

(** A bitmap of rows with the property [M], read among the rows of the found set.  Under
    the condition [R] it lacks none of them, and has others only among the rows of a found
    set that [D] does not hold of. *)
Definition reads (R : Prop) (M D : Z -> Prop) (foundSet : option B) (b : B) : Prop := forall x,
  (Contains b x = true -> within foundSet x) /\
  (R -> M x -> within foundSet x -> Contains b x = true) /\
  (R -> Contains b x = true -> foundSet = None \/ D x -> M x).

Lemma reads_exact R M D foundSet b :
  (forall x, Contains b x = true <-> M x /\ within foundSet x) -> reads R M D foundSet b.
Proof. intros Hb x. rewrite Hb. tauto. Qed.

Lemma reads_mono (R R' : Prop) (M M' D D' : Z -> Prop) foundSet b : (R' -> R) -> (forall x, M x <-> M' x) ->
  (forall x, D' x -> D x) -> reads R M D foundSet b -> reads R' M' D' foundSet b.
Proof. intros HR HM HD Hb x. destruct (Hb x) as (H1 & H2 & H3). specialize (HM x). specialize (HD x). tauto. Qed.

(** The operands are in the range of an index with values. *)
Definition operandsIn (i : I) (l : list Z) : Prop :=
  forall a x value, a ∈ l -> GetBigValue i x = Some value -> inRange i a.

Lemma CompareBigValue_rows (i : I) op a b foundSet :
  reads (operandsIn i (operandsOf op a b))
    (fun x => exists val, GetBigValue i x = Some val /\ holds op a b val = true)
    (fun x => is_Some (GetBigValue i x)) foundSet (CompareBigValue i op a b foundSet).
Proof.
  intros x. assert (forall val, operandsIn i (operandsOf op a b) -> GetBigValue i x = Some val ->
    Forall (inRange i) (operandsOf op a b)) as Hin by (intros val HR Ev; apply Forall_forall; eauto).
  destruct foundSet as [fs|]; cbn [within].
  - split_and!; [apply Compare_found_rows| |].
    + intros HR (val & Ev & Hh) Hx. by rewrite (Contains_Compare_found i op a b fs x val Ev (Hin val HR Ev)), Hx, Hh.
    + intros HR Hx [?|[val Ev]]; [done|]. exists val. split; [done|].
      rewrite (Contains_Compare_found i op a b fs x val Ev (Hin val HR Ev)) in Hx. by apply andb_true_iff in Hx as [_ ?].
  - split_and!; [done| |].
    + intros HR (val & Ev & Hh) _. by rewrite (Contains_Compare i op a b x val Ev (Hin val HR Ev)).
    + intros HR Hx _. destruct (Compare_rows i op a b x Hx) as [val Ev]. exists val. split; [done|].
      by rewrite (Contains_Compare i op a b x val Ev (Hin val HR Ev)) in Hx.
Qed.

Lemma compareBSI_rows v (i : I) foundSet : pf_BsiOp v <> BSI_NA ->
  exists b, compareBSI v i foundSet = Some b /\
    reads (operandsIn i (operands v)) (fun x => exists val, GetBigValue i x = Some val /\ condition v val = true)
      (fun x => operands v <> [] -> is_Some (GetBigValue i x)) foundSet b.
Proof.
  intros Hop. unfold compareBSI, condition, operands.
  destruct (pf_BsiOp v); [done|..]; try (eexists; split; [reflexivity|];
    eapply reads_mono; [| | |apply CompareBigValue_rows]; [done|done|]; intros x Hd; by apply Hd).
  destruct foundSet as [fs|]; (eexists; split; [reflexivity|]; apply reads_exact; intros x).
  - rewrite batchEqual_rows. by setoid_rewrite bool_decide_eq_true.
  - rewrite Contains_BatchEqual. destruct (GetBigValue i x); naive_solver.
Qed.

(** The entries of the query's cache are the indexes of their fields. *)
Definition cacheCoherent m (fromTime toTime : Time) (index : bytes) (cache : gmap bytes I) : Prop :=
  forall v bsi, pf_Index v = index -> cache !! bsiQueryCacheKey v fromTime toTime = Some bsi ->
  forall x val, GetBigValue bsi x = Some val <-> hasValue m fromTime toTime index (pf_Field v) x val.

Lemma ranged_index m fromTime toTime v (i : I) :
  (forall x val, GetBigValue i x = Some val <-> hasValue m fromTime toTime (pf_Index v) (pf_Field v) x val) ->
  ranged m fromTime toTime v -> operandsIn i (operands v).
Proof.
  intros Hi HR a x val Ha Hx. destruct (proj1 (Forall_forall _ _) HR a Ha x val) as (y & lo & z & hi & Hy & Hz & Hb); [by apply Hi|].
  exists y, lo, z, hi. by rewrite !Hi.
Qed.

Lemma evalBSI_rows m fromTime toTime l v : knownField m (pf_Index v) (pf_Field v) -> shardsAgree m ->
  pf_BsiOp v <> BSI_NA -> cacheCoherent m fromTime toTime (pf_Index v) (ql_bsiQueryCache l) ->
  exists b cache, evalBSI fromTime toTime l v m = (Ok (Some b, cache), m) /\
    cacheCoherent m fromTime toTime (pf_Index v) cache /\
    reads (ranged m fromTime toTime v)
      (fun x => exists val, hasValue m fromTime toTime (pf_Index v) (pf_Field v) x val /\ condition v val = true)
      (fun x => operands v <> [] -> valued m fromTime toTime v x) (FoundSetFor (ql_prior l) v) b.
Proof.
  intros Hk Hag Hop Hc. set (fs := FoundSetFor (ql_prior l) v).
  assert (forall bsi, (forall x val, GetBigValue bsi x = Some val <-> hasValue m fromTime toTime (pf_Index v) (pf_Field v) x val) ->
    exists b, compareBSI v bsi fs = Some b /\ reads (ranged m fromTime toTime v)
      (fun x => exists val, hasValue m fromTime toTime (pf_Index v) (pf_Field v) x val /\ condition v val = true)
      (fun x => operands v <> [] -> valued m fromTime toTime v x) fs b) as Hcompare.
  { intros bsi Hbsi. destruct (compareBSI_rows v bsi fs Hop) as (b & Eb & Hb). exists b. split; [done|].
    eapply reads_mono; [| | |exact Hb]; cbn beta.
    - by apply ranged_index.
    - intros x. by setoid_rewrite Hbsi.
    - intros x Hd Ho. destruct (Hd Ho) as [val Hv]. exists val. by apply Hbsi. }
  unfold evalBSI. fold fs. destruct (ql_bsiQueryCache l !! _) as [bsi|] eqn:E.
  - destruct (Hcompare bsi (Hc v bsi eq_refl E)) as (b & -> & Hb). by eexists _, _.
  - destruct (timeRangeBSI_values m _ _ fromTime toTime Hk Hag) as (bsi & -> & Hv).
    cbn [mbind go_bind mret go_ret]. destruct (Hcompare bsi Hv) as (b & -> & Hb).
    eexists _, _. split_and!; [done| |done].
    intros w bsi' Hi. destruct (decide (bsiQueryCacheKey v fromTime toTime = bsiQueryCacheKey w fromTime toTime)) as [Ek|Hne].
    + rewrite Ek, lookup_insert_eq. intros [= <-]. apply bsiQueryCacheKey_inj in Ek; [|done]. by rewrite <- Ek.
    + rewrite lookup_insert_ne by done. by apply Hc.
Qed.

(** A list of computations that all return. *)
Lemma mapM_rows {A} (f : A -> go B) (P : A -> Z -> Prop) l :
  (forall a, a ∈ l -> exists b, f a = Ok b /\ forall x, Contains b x = true <-> P a x) ->
  exists bs, mapM f l = Ok bs /\ Forall2 (fun a b => forall x, Contains b x = true <-> P a x) l bs.
Proof.
  induction l as [|a l IH]; intros Hl; [by exists []|].
  destruct (Hl a) as (b & Eb & Hb); [left|]. destruct IH as (bs & Ebs & Hbs); [intros a' Ha'; apply Hl; by right|].
  exists (b :: bs). cbn [mapM]. rewrite Eb. cbn [mbind go_bind]. rewrite Ebs. split; [done|by constructor].
Qed.

Lemma evalValues_rows m fromTime toTime l v : knownField m (pf_Index v) (pf_Field v) ->
  exists b, evalValues fromTime toTime l v m = Ok b /\
    forall x, Contains b x = true <->
      (exists raw, raw ∈ pf_Values v /\
         hasRow m fromTime toTime (pf_Index v) (pf_Field v) (wrap_u 64 (SetBytes raw)) x) /\
      within (FoundSetFor (ql_prior l) v) x.
Proof.
  intros Hk. unfold evalValues. set (fs := FoundSetFor (ql_prior l) v).
  destruct (mapM_rows (fun raw => timeRange m (pf_Index v) (pf_Field v) (wrap_u 64 (SetBytes raw)) fromTime toTime fs false)
    (fun raw x => hasRow m fromTime toTime (pf_Index v) (pf_Field v) (wrap_u 64 (SetBytes raw)) x /\ within fs x)
    (pf_Values v)) as (bs & -> & Hbs); [intros raw _; by apply timeRange_rows|].
  cbn [mbind go_bind mret go_ret]. eexists. split; [reflexivity|]. intros x.
  assert ((exists b, b ∈ filter (fun x => 0 < GetCardinality x) bs /\ Contains b x = true) <->
    (exists raw, raw ∈ pf_Values v /\
       hasRow m fromTime toTime (pf_Index v) (pf_Field v) (wrap_u 64 (SetBytes raw)) x) /\ within fs x) as Hex.
  { split.
    - intros (b & [_ Hb]%list_elem_of_filter & Hx). apply list_elem_of_lookup in Hb as [i Hi].
      destruct (Forall2_lookup_r _ _ _ _ _ Hbs Hi) as (raw & Hraw & Hr). destruct (proj1 (Hr x) Hx) as [Hx1 Hx2].
      split; [|done]. exists raw. split; [by eapply list_elem_of_lookup_2|done].
    - intros [(raw0 & Hraw & Hx) Hw]. apply list_elem_of_lookup in Hraw as [i Hi].
      destruct (Forall2_lookup_l _ _ _ _ _ Hbs Hi) as (b & Hb & Hr).
      assert (Contains b x = true) by by apply Hr. exists b. split; [|done]. apply list_elem_of_filter.
      split; [apply GetCardinality_pos; by exists x|by eapply list_elem_of_lookup_2]. }
  rewrite <- Hex. case_bool_decide as Hn; [|apply ParOr_true]. rewrite Hn, NewBitmap_empty.
  split; [done|]. by intros (b & ?%elem_of_nil & _).
Qed.

Lemma listAllRowIDs_has m fromTime toTime index field rowID x :
  hasRow m fromTime toTime index field rowID x -> rowID ∈ listAllRowIDs m index field.
Proof.
  intros (ts & bits & Hin & _). unfold listAllRowIDs, rowShards in *.
  destruct (default ∅ (bi_bitmapCache m !! (index, field)) !! rowID) as [rm|] eqn:E; [|by cbn in Hin; rewrite lookup_empty in Hin].
  apply list_elem_of_fmap. exists (rowID, rm). split; [done|]. by apply elem_of_map_to_list.
Qed.

Lemma scanRows_rows m fromTime toTime v : knownField m (pf_Index v) (pf_Field v) ->
  exists rows, scanRows fromTime toTime v m = Ok rows /\
    forall x, Contains (ParOr (map rb_Bits rows)) x = true <->
      exists rowID, hasRow m fromTime toTime (pf_Index v) (pf_Field v) rowID x.
Proof.
  intros Hk. unfold scanRows.
  assert (forall ids, exists rows,
    mapM (fun row => x ← timeRange m (pf_Index v) (pf_Field v) row fromTime toTime None false;
                     mret (mkRowBitmap (pf_Field v) row x)) ids = Ok rows /\
    Forall2 (fun row rb => forall x, Contains (rb_Bits rb) x = true <->
      hasRow m fromTime toTime (pf_Index v) (pf_Field v) row x) ids rows) as Hall.
  { induction ids as [|row ids (rows & Er & Hr)]; [by exists []|].
    destruct (timeRange_rows m _ _ row fromTime toTime None Hk) as (b & Eb & Hb).
    exists (mkRowBitmap (pf_Field v) row b :: rows). cbn [mapM]. rewrite Eb. cbn [mbind go_bind mret go_ret].
    rewrite Er. split; [done|]. constructor; [|done]. intros x. cbn. rewrite Hb. tauto. }
  destruct (Hall (listAllRowIDs m (pf_Index v) (pf_Field v))) as (rows & -> & Hr). clear Hall.
  cbn [mbind go_bind mret go_ret]. eexists. split; [reflexivity|]. intros x. rewrite ParOr_true.
  setoid_rewrite list_elem_of_fmap. setoid_rewrite list_elem_of_filter. split.
  - intros (b & (rb & -> & _ & Hin) & Hx). apply list_elem_of_lookup in Hin as [i Hi].
    destruct (Forall2_lookup_r _ _ _ _ _ Hr Hi) as (row & _ & Hrow). exists row. by apply Hrow.
  - intros (row & Hx). pose proof (listAllRowIDs_has _ _ _ _ _ _ _ Hx) as Hin.
    apply list_elem_of_lookup in Hin as [i Hi]. destruct (Forall2_lookup_l _ _ _ _ _ Hr Hi) as (rb & Hrb & Hrow).
    assert (Contains (rb_Bits rb) x = true) as Hc by by apply Hrow.
    exists (rb_Bits rb). split; [|done]. exists rb. split_and!; [done| |by eapply list_elem_of_lookup_2].
    intros E. rewrite GetCardinality_zero in E. by rewrite E in Hc.
Qed.

End Fragments.
