(* ===== verification/NodeExact.v ===== *)
(** * What a node returns for a query

    The result of a node (NodeQuery.v) holds, for every fragment, the rows the fragment
    selects among the candidates of the fragments before it; the bitmaps survive the
    encoding of the result. *)

From S2P Require Import Prelude GoStd GoState GoTime Catalog Sequencer Bitmaps BitmapQuery NodeQuery.

(** ** One fragment *)

Section Loop.

Context {B I : Type} `{RoaringOpsLaws B} `{!BSILib B I} `{!BSILaws B I}.

Implicit Types (m : BitmapIndex B I) (v : PbFragment).

Lemma nullCheck_fields v : let w := nullCheckOperation v in
  pf_Index w = pf_Index v /\ pf_Field w = pf_Field v /\ pf_Id w = pf_Id v /\ pf_NullCheck w = pf_NullCheck v /\
  pf_BsiOp w = pf_BsiOp v /\ pf_Values w = pf_Values v /\ pf_SamplePct w = pf_SamplePct v /\
  pf_RowID w = pf_RowID v /\ pf_OrContext w = pf_OrContext v /\ links w = links v.
Proof. cbn zeta. unfold nullCheckOperation. by destruct (pf_NullCheck v) eqn:E. Qed.

Lemma matches_nullCheck m fromTime toTime v x :
  matches m fromTime toTime (nullCheckOperation v) x <-> matches m fromTime toTime v x.
Proof. unfold nullCheckOperation. by destruct (pf_NullCheck v) eqn:E. Qed.

Lemma operands_nullCheck v : operands (nullCheckOperation v) = operands v.
Proof. unfold nullCheckOperation. by destruct (pf_NullCheck v). Qed.

Lemma valued_nullCheck m fromTime toTime v x :
  valued m fromTime toTime (nullCheckOperation v) x <-> valued m fromTime toTime v x.
Proof. unfold nullCheckOperation. by destruct (pf_NullCheck v). Qed.

Lemma ranged_nullCheck m fromTime toTime v :
  ranged m fromTime toTime (nullCheckOperation v) <-> ranged m fromTime toTime v.
Proof. unfold nullCheckOperation. by destruct (pf_NullCheck v). Qed.

Lemma FoundSetFor_nullCheck s v : pf_NullCheck v = true -> FoundSetFor (B := B) s v = None.
Proof.
  intros E. unfold FoundSetFor, queryFragmentCanUsePriorIntersect, queryFragmentCanUseSeededFoundSet.
  rewrite E. cbn [negb]. rewrite !andb_false_r. cbn [andb]. by repeat case_match.
Qed.

(** The state of the loop after a fragment with the bitmap [bits]. *)
Definition afterFragment (l : queryLoop (B := B) (I := I)) v (bits : B) (cache : gmap bytes I) (counts : gmap bytes Z)
    : queryLoop :=
  mkLoop (<[pf_Id v := bits]> (ql_dataMap l)) (ql_samples l) cache counts
    (Observe (ql_prior l) v bits) (ql_query l ++ [v]).

(** What a fragment gives: the rows it stands for, among the candidates if it uses them.
    Of candidates without a value a comparison says nothing. *)
Definition fragmentReads m (fromTime toTime : Time) v : option B -> B -> Prop :=
  reads (ranged m fromTime toTime v) (matches m fromTime toTime v)
    (fun x => operands v <> [] -> valued m fromTime toTime v x).

Lemma fragmentReads_nullCheck m fromTime toTime v fs b :
  fragmentReads m fromTime toTime (nullCheckOperation v) fs b -> fragmentReads m fromTime toTime v fs b.
Proof.
  unfold fragmentReads. rewrite operands_nullCheck. apply reads_mono; [apply ranged_nullCheck|intros x; apply matches_nullCheck|].
  intros x Hd Ho. by apply valued_nullCheck, Hd.
Qed.

Lemma evalFragment_rows m fromTime toTime l v :
  knownField m (pf_Index v) (pf_Field v) -> shardsAgree m -> seedsCoherent m ->
  float32Positive (pf_SamplePct v) = false ->
  cacheCoherent m fromTime toTime (pf_Index v) (ql_bsiQueryCache l) ->
  exists bits cache counts seeds,
    evalFragment fromTime toTime l v m =
      (Ok (afterFragment l (nullCheckOperation v) bits cache counts), withSeedCache m seeds) /\
    seedsCoherent (withSeedCache m seeds) /\ cacheCoherent m fromTime toTime (pf_Index v) cache /\
    fragmentReads m fromTime toTime v (FoundSetFor (ql_prior l) (nullCheckOperation v)) bits.
Proof.
  intros Hk Hag Hs Hpct Hc. pose proof (nullCheck_fields v) as (Ei & Ef & _ & En & Eo & Ev & Ep & Er & _).
  enough (exists bits cache counts seeds,
    evalFragment fromTime toTime l v m =
      (Ok (afterFragment l (nullCheckOperation v) bits cache counts), withSeedCache m seeds) /\
    seedsCoherent (withSeedCache m seeds) /\ cacheCoherent m fromTime toTime (pf_Index v) cache /\
    fragmentReads m fromTime toTime (nullCheckOperation v) (FoundSetFor (ql_prior l) (nullCheckOperation v)) bits)
    as (bits & cache & counts & seeds & E & Hs' & Hc' & Hb)
    by (exists bits, cache, counts, seeds; split_and!; [done..|by apply fragmentReads_nullCheck]).
  unfold evalFragment, fragmentReads.
  set (w := nullCheckOperation v) in *. rewrite <- Ei in Hc. rewrite <- Ei, <- Ef in Hk. rewrite <- Ei.
  rewrite <- Ep in Hpct. clearbody w. clear Ei Ef Ep.
  destruct (isBSI_known m _ _ Hk) as [isb Eb]. unfold matches.
  assert (default false (go_option (isBSI m (pf_Index w) (pf_Field w))) = isb) as -> by by rewrite Eb.
  assert (withSeedCache m (bi_seedCache m) = m) as Em by by destruct m.
  destruct (pf_NullCheck w && isb) eqn:Enull.
  { apply andb_true_iff in Enull as [En' ->]. rewrite En', Eb. cbn [andb].
    destruct (timeRangeExistence_rows m _ _ fromTime toTime Hk Hs) as (b & c & seeds & -> & Hs' & Hb).
    eexists b, _, _, seeds. split_and!; [by rewrite app_nil_r|done..|].
    apply reads_exact. intros x. rewrite Hb, (FoundSetFor_nullCheck _ w En'). cbn. tauto. }
  assert ((if pf_NullCheck w then isBSI m (pf_Index w) (pf_Field w) else Ok false) = Ok false) as ->.
  { destruct (pf_NullCheck w); [|done]. cbn in Enull. by rewrite Eb, Enull. }
  destruct (decide (pf_BsiOp w <> BSI_NA)) as [Hop|Hop].
  { destruct (evalBSI_rows m fromTime toTime l w Hk Hag Hop Hc) as (b & cache & -> & Hc' & Hb).
    eexists b, cache, _, (bi_seedCache m). rewrite Em. split_and!; [by rewrite app_nil_r|done..]. }
  destruct (decide (pf_Values w <> [])) as [Hv|Hv].
  { destruct (evalValues_rows m fromTime toTime l w Hk) as (b & -> & Hb).
    eexists b, _, _, (bi_seedCache m). rewrite Em. split_and!; [by cbn; rewrite app_nil_r|done..|by apply reads_exact]. }
  rewrite Hpct. cbn [orb]. destruct (pf_NullCheck w) eqn:En'.
  - destruct (scanRows_rows m fromTime toTime w Hk) as (rows & -> & Hb). cbn [mbind go_bind mret go_ret].
    eexists _, _, _, (bi_seedCache m). rewrite Em. split_and!; [by cbn; rewrite app_nil_r|done..|].
    apply reads_exact. intros x. rewrite (FoundSetFor_nullCheck _ w En'). cbn [within]. rewrite <- Hb.
    case_bool_decide as Hn; [|by cbn; tauto]. rewrite Hn. cbn [default map].
    rewrite NewBitmap_empty, ParOr_nil. tauto.
  - destruct (timeRange_rows m (pf_Index w) (pf_Field w) (pf_RowID w) fromTime toTime
                (FoundSetFor (ql_prior l) w) Hk) as (b & -> & Hb). cbn [mbind go_bind mret go_ret].
    eexists b, _, _, (bi_seedCache m). rewrite Em. split_and!; [by cbn; rewrite app_nil_r|done..|by apply reads_exact].
Qed.

(** ** All fragments *)

(** A fragment of the table [index] that a node can evaluate. *)
Definition evaluable m (index : bytes) v : Prop :=
  pf_Index v = index /\ knownField m index (pf_Field v) /\ float32Positive (pf_SamplePct v) = false.

(** The candidates, if they are of this table, include the row. *)
Definition candidate (index : bytes) (s : queryPriorIntersectCandidates (B := B)) (x : Z) : Prop :=
  match pi_rows s with Some rows => pi_index s = index -> Contains rows x = true | None => True end.

(** The row matches the fragments that narrow the candidates. *)
Definition narrowed m (fromTime toTime : Time) (q : list PbFragment) (x : Z) : Prop :=
  forall v, v ∈ q -> queryFragmentCanUsePriorIntersect (nullCheckOperation v) = true ->
  matches m fromTime toTime v x.

(** A fragment that may be evaluated among the candidates only. *)
Definition usesFoundSet (seeded : bool) v : bool :=
  if seeded then queryFragmentCanUseSeededFoundSet (nullCheckOperation v)
  else queryFragmentCanUsePriorIntersect (nullCheckOperation v).

(** The rows looked at for a fragment of [q]: all, unless the fragment uses the candidates. *)
Definition lookedAt m (fromTime toTime : Time) (index : bytes) (prior : queryPriorIntersectCandidates)
    (q : list PbFragment) v (x : Z) : Prop :=
  usesFoundSet (pi_seeded prior) v = true -> candidate index prior x /\ narrowed m fromTime toTime q x.

(** The row is one of the candidates. *)
Definition held (index : bytes) (s : queryPriorIntersectCandidates (B := B)) (x : Z) : Prop :=
  exists rows, pi_rows s = Some rows /\ pi_index s = index /\ Contains rows x = true.

(** No comparison meets the row as a candidate without a value: if the row is or becomes
    a candidate it has a value in every field compared among the candidates. *)
Definition settled m (fromTime toTime : Time) (index : bytes) (prior : queryPriorIntersectCandidates)
    (q : list PbFragment) (x : Z) : Prop :=
  held index prior x \/ (exists v, v ∈ q /\ queryFragmentCanUsePriorIntersect (nullCheckOperation v) = true /\
                           matches m fromTime toTime v x) ->
  forall w, w ∈ q -> usesFoundSet (pi_seeded prior) w = true -> operands w <> [] -> valued m fromTime toTime w x.

(** The fragments before one of the query. *)
Fixpoint before v (q : list PbFragment) : list PbFragment :=
  match q with
  | [] => []
  | u :: q => if decide (pf_Id u = pf_Id v) then [] else u :: before v q
  end.

(** A bitmap of a fragment: no other rows; all of them among the rows that were looked
    at; and if there are candidates left when the fragment uses them, no others. *)
Record selects m (fromTime toTime : Time) (index : bytes) (prior : queryPriorIntersectCandidates)
    (q : list PbFragment) v (b : B) : Prop := {
  sel_sound x : settled m fromTime toTime index prior q x -> Contains b x = true -> matches m fromTime toTime v x;
  sel_complete x : lookedAt m fromTime toTime index prior q v x -> matches m fromTime toTime v x -> Contains b x = true;
  sel_shut x y : settled m fromTime toTime index prior q x -> usesFoundSet (pi_seeded prior) v = true ->
    candidate index prior y -> narrowed m fromTime toTime (before v q) y -> Contains b x = true ->
    candidate index prior x /\ narrowed m fromTime toTime (before v q) x }.

Lemma candidate_within index s v x : (usesFoundSet (pi_seeded s) v = true -> candidate index s x) ->
  pf_Index v = index -> within (FoundSetFor s (nullCheckOperation v)) x.
Proof.
  unfold candidate, FoundSetFor, usesFoundSet. pose proof (nullCheck_fields v) as (-> & _). intros Hc ->.
  destruct (pi_rows s) as [rows|]; [|done]. destruct (bool_decide _) eqn:E; [|done].
  apply bool_decide_eq_true in E. cbn [negb orb]. case_if; [done|].
  destruct (pi_seeded s).
  - case_if; [|done]. by apply Hc.
  - case_if; [|done]. by apply Hc.
Qed.

Lemma Observe_seeded s v (b : B) : pi_seeded (Observe s v b) = pi_seeded s.
Proof. unfold Observe. repeat case_match; done. Qed.

Lemma Observe_candidate index s v (b : B) x : candidate index s x ->
  (queryFragmentCanUsePriorIntersect v = true -> Contains b x = true) ->
  candidate index (Observe s v b) x.
Proof.
  unfold candidate, Observe. intros Hc Hb. destruct (queryFragmentCanUsePriorIntersect v); cbn [negb]; [|done].
  specialize (Hb eq_refl). destruct (pi_rows s) as [rows|]; cbn; [|done].
  case_bool_decide; cbn; [|done]. intros E. apply And_true. auto.
Qed.

(** The found set of a fragment has candidates only, and is not used when there are none. *)
Lemma FoundSetFor_held index s v fs : pf_Index v = index -> FoundSetFor s (nullCheckOperation v) = Some fs ->
  usesFoundSet (pi_seeded s) v = true /\ forall x, Contains fs x = true -> held index s x.
Proof.
  unfold FoundSetFor, usesFoundSet, held. pose proof (nullCheck_fields v) as (-> & _). intros ->.
  destruct (pi_rows s) as [rows|]; [|done]. destruct (bool_decide _) eqn:E; [|done].
  apply bool_decide_eq_true in E. cbn [negb orb]. case_if; [done|].
  destruct (pi_seeded s); (case_if; [|done]); intros [= <-]; (split; [done|]); eauto.
Qed.

Lemma FoundSetFor_shut index s v x y : pf_Index v = index -> usesFoundSet (pi_seeded s) v = true ->
  candidate index s y -> within (FoundSetFor s (nullCheckOperation v)) x -> candidate index s x.
Proof.
  unfold FoundSetFor, usesFoundSet, candidate. pose proof (nullCheck_fields v) as (-> & _). intros -> Hu Hy.
  destruct (pi_rows s) as [rows|]; [|done]. intros Hx E. rewrite bool_decide_true in Hx by done. cbn [negb orb] in Hx.
  assert ((GetCardinality rows =? 0) = false) as Ec.
  { apply Z.eqb_neq. rewrite GetCardinality_zero. intros Hz. specialize (Hy E). by rewrite Hz in Hy. }
  rewrite Ec in Hx. destruct (pi_seeded s); by rewrite Hu in Hx.
Qed.

Lemma Observe_held index s v (b : B) x : pf_Index v = index -> held index (Observe s v b) x ->
  held index s x \/ queryFragmentCanUsePriorIntersect v = true /\ Contains b x = true.
Proof.
  unfold held, Observe. intros Hi. destruct (queryFragmentCanUsePriorIntersect v); cbn [negb]; [|tauto].
  destruct (pi_rows s) as [rows|]; cbn.
  - case_bool_decide; cbn; [|by intros (? & ? & _)]. intros (? & [= <-] & Ei & [? ?]%And_true). by right.
  - intros (? & [= <-] & _ & Hx). by right.
Qed.

Lemma Observe_shut index s v (b : B) x : pf_Index v = index -> (is_Some (pi_rows s) -> pi_index s = index) ->
  candidate index (Observe s v b) x ->
  candidate index s x /\ (queryFragmentCanUsePriorIntersect v = true -> Contains b x = true).
Proof.
  unfold candidate, Observe. intros Hi Hs. destruct (queryFragmentCanUsePriorIntersect v); cbn [negb]; [|by intros Hx; split].
  destruct (pi_rows s) as [rows|]; cbn.
  - rewrite (Hs ltac:(by eexists)), bool_decide_true by done. cbn. intros Hx.
    specialize (Hx ltac:(done)). by apply And_true in Hx as [? ?].
  - intros Hx. split; [done|]. intros _. by apply Hx.
Qed.

Lemma Observe_table index s v (b : B) : pf_Index v = index -> (is_Some (pi_rows s) -> pi_index s = index) ->
  is_Some (pi_rows (Observe s v b)) -> pi_index (Observe s v b) = index.
Proof.
  unfold Observe. intros Hi Hs. destruct (queryFragmentCanUsePriorIntersect v); cbn [negb]; [|done].
  destruct (pi_rows s) as [rows|]; cbn; [|done]. specialize (Hs ltac:(by eexists)).
  by rewrite bool_decide_true by congruence.
Qed.

Lemma before_here v q : before v (v :: q) = [].
Proof. cbn. by rewrite decide_True. Qed.

Lemma before_there u v q : pf_Id u ∉ map pf_Id q -> v ∈ q -> before v (u :: q) = u :: before v q.
Proof. intros Hn Hv. cbn. rewrite decide_False; [done|]. intros E. apply Hn. rewrite E. apply list_elem_of_fmap. by exists v. Qed.

(** The first fragment of a query, and the others after it. *)
Section Step.

Context (m : BitmapIndex B I) (fromTime toTime : Time) (index : bytes) (s : queryPriorIntersectCandidates (B := B)).
Context (v : PbFragment) (q : list PbFragment) (bits : B).
Context (Hi : pf_Index v = index) (Hid : pf_Id v ∉ map pf_Id q) (HR : ranged m fromTime toTime v).
Context (Hb : fragmentReads m fromTime toTime v (FoundSetFor s (nullCheckOperation v)) bits).
Context (Hs : is_Some (pi_rows s) -> pi_index s = index).

Let after := Observe s (nullCheckOperation v) bits.

Lemma first_sound x : settled m fromTime toTime index s (v :: q) x -> Contains bits x = true -> matches m fromTime toTime v x.
Proof.
  intros Hx Hc. destruct (Hb x) as (Hw & _ & Hm). apply (Hm HR Hc).
  destruct (FoundSetFor s (nullCheckOperation v)) as [fs|] eqn:E; [right|by left]. intros Ho.
  destruct (FoundSetFor_held index s v fs Hi E) as [Hu Hheld].
  apply (Hx (or_introl (Hheld x (Hw Hc))) v); [left|done..].
Qed.

Lemma first_selects : selects m fromTime toTime index s (v :: q) v bits.
Proof.
  split.
  - apply first_sound.
  - intros x Hl Hm. destruct (Hb x) as (_ & Hcomp & _). apply (Hcomp HR Hm). apply (candidate_within index); [|done].
    intros Hu. by apply Hl.
  - intros x y _ Hu Hy _ Hc. rewrite before_here. split; [|by intros ? ?%elem_of_nil].
    eapply FoundSetFor_shut; [done|done|exact Hy|]. by apply Hb.
Qed.

Lemma rest_settled x : settled m fromTime toTime index s (v :: q) x -> settled m fromTime toTime index after q x.
Proof.
  intros Hx Hpre w Hw. unfold after. rewrite Observe_seeded. apply Hx; [|by right]. pose proof (nullCheck_fields v) as (Ei & _).
  destruct Hpre as [[Hh|[Hn Hc]]%Observe_held|(u & Hu & Hn & Hm)]; [by left| |congruence|].
  - right. exists v. split_and!; [left|done|by apply first_sound].
  - right. exists u. split_and!; [by right|done..].
Qed.

Lemma rest_selects w b : w ∈ q -> selects m fromTime toTime index after q w b -> selects m fromTime toTime index s (v :: q) w b.
Proof.
  intros Hw [Hsound Hcomp Hshut]. pose proof (nullCheck_fields v) as (Ei & _).
  assert (forall y, candidate index s y -> (queryFragmentCanUsePriorIntersect (nullCheckOperation v) = true -> matches m fromTime toTime v y) ->
    candidate index after y) as Hafter.
  { intros y Hy Hm. apply Observe_candidate; [done|]. intros Hu. destruct (Hb y) as (_ & Hcompl & _).
    apply (Hcompl HR); [by apply Hm|]. by apply (candidate_within index). }
  split.
  - intros x Hx. apply Hsound. by apply rest_settled.
  - intros x Hl. apply Hcomp. unfold lookedAt, after. rewrite Observe_seeded. intros [Hc Hn]%Hl.
    split; [|intros u Hu; apply Hn; by right]. apply Hafter; [done|]. apply Hn. left.
  - intros x y Hx. rewrite before_there by done. unfold after in Hshut. rewrite Observe_seeded in Hshut. intros Hu Hy Hny Hc.
    destruct (Hshut x y (rest_settled x Hx) Hu) as [Hcx Hnx]; [|intros u Hin; apply Hny; by right|done|].
    { apply Hafter; [done|]. apply Hny. left. }
    apply Observe_shut in Hcx as [Hcx Hbx]; [|congruence|done]. split; [done|].
    intros u [->|Hin]%elem_of_cons Hun; [|by apply Hnx]. apply first_sound; [done|by apply Hbx].
Qed.

End Step.

Lemma evalFragments_rows m fromTime toTime index q : shardsAgree m -> forall l seeds0,
  Forall (evaluable m index) q -> NoDup (map pf_Id q) -> seedsCoherent (withSeedCache m seeds0) ->
  cacheCoherent m fromTime toTime index (ql_bsiQueryCache l) ->
  (is_Some (pi_rows (ql_prior l)) -> pi_index (ql_prior l) = index) ->
  exists l' seeds,
    evalFragments fromTime toTime l q (withSeedCache m seeds0) = (Ok l', withSeedCache m seeds) /\
    seedsCoherent (withSeedCache m seeds) /\
    ql_query l' = ql_query l ++ map nullCheckOperation q /\ ql_samples l' = ql_samples l /\
    (forall id, id ∉ map pf_Id q -> ql_dataMap l' !! id = ql_dataMap l !! id) /\
    (forall v, v ∈ q -> exists b, ql_dataMap l' !! pf_Id v = Some b /\
       (Forall (ranged m fromTime toTime) q -> selects m fromTime toTime index (ql_prior l) q v b)).
Proof.
  intros Hag. induction q as [|v q IH]; intros l seeds0 Hq Hnd Hs Hc Hp.
  { exists l, seeds0. rewrite app_nil_r. split_and!; [done..|]. by intros v ?%elem_of_nil. }
  apply Forall_cons in Hq as [(Hi & Hk & Hpct) Hq]. cbn [map] in Hnd. apply NoDup_cons in Hnd as [Hid Hnd].
  rewrite <- Hi in Hk, Hc.
  destruct (evalFragment_rows (withSeedCache m seeds0) fromTime toTime l v Hk Hag Hs Hpct Hc)
    as (bits & cache & counts & seeds & Ev & Hs1 & Hc1 & Hb).
  pose proof (nullCheck_fields v) as (Eix & _ & Eid & _).
  set (l1 := afterFragment l (nullCheckOperation v) bits cache counts) in *.
  rewrite Hi in Hc1. destruct (IH l1 seeds Hq Hnd Hs1 Hc1) as (l' & seeds' & Eq & Hs' & Elist & Esam & Hother & Hdata).
  { apply Observe_table; [congruence|done]. }
  exists l', seeds'. cbn [evalFragments]. rewrite (bind_run _ _ _ _ _ Ev). split_and!; [done|done| |done| |].
  - rewrite Elist. unfold l1. cbn. by rewrite <- app_assoc.
  - intros id [Hne Hn]%not_elem_of_cons. rewrite Hother by done. unfold l1. cbn.
    apply lookup_insert_ne. by rewrite Eid.
  - intros w [->|Hw]%elem_of_cons.
    + exists bits. rewrite Hother by done. unfold l1. cbn. rewrite <- Eid, lookup_insert_eq. split; [done|].
      intros [HR _]%Forall_cons. by apply first_selects.
    + destruct (Hdata w Hw) as (b & Eb & Hsel). exists b. split; [done|]. intros [HR HRs]%Forall_cons.
      eapply rest_selects; [done|done|done|exact Hb|done|done|]. by apply Hsel.
Qed.

(** ** The existence of the table *)

Definition tableKey m (index : bytes) : option bytes :=
  table ← bi_tableCache m !! index;
  match BasicTable_GetPrimaryKeyInfo table with Ok (first :: _) => Some (FieldName first) | _ => None end.

(** The table is known with the first field of its key. *)
Definition knownTable m (index : bytes) : Prop :=
  exists field, tableKey m index = Some field /\ knownField m index field.

Definition inTable m (fromTime toTime : Time) (index : bytes) (x : Z) : Prop :=
  exists field, tableKey m index = Some field /\ rowExists m fromTime toTime index field x.

(** The query asks for the existence of its table. *)
Definition wantsExistence (q : list PbFragment) : bool :=
  negb (hasUnion q) || existsb (fun v => pf_NullCheck v && negb (isExistenceSeedFragment v)) q.

Lemma tableExistence_rows m fromTime toTime index : knownTable m index -> seedsCoherent m ->
  exists b seeds, tableExistence index fromTime toTime m = (Ok b, withSeedCache m seeds) /\
    seedsCoherent (withSeedCache m seeds) /\
    forall x, Contains b x = true <-> inTable m fromTime toTime index x.
Proof.
  intros (field & Ek & Hk) Hs. unfold tableExistence, inTable, tableKey in *.
  destruct (bi_tableCache m !! index) as [table|]; [|done]. cbn in Ek |- *.
  destruct (BasicTable_GetPrimaryKeyInfo table) as [[|first rest]| |]; try done. injection Ek as <-.
  destruct (timeRangeExistence_rows m index (FieldName first) fromTime toTime Hk Hs) as (b & c & seeds & -> & Hs' & Hb).
  exists b, seeds. split_and!; [done..|]. intros x. rewrite Hb. naive_solver.
Qed.

Lemma gatherExistence_rows m fromTime toTime index fu q : knownTable m index -> forall found seeds0,
  Forall (evaluable m index) q -> seedsCoherent (withSeedCache m seeds0) ->
  (forall b, found !! index = Some b -> forall x, Contains b x = true <-> inTable m fromTime toTime index x) ->
  exists found' seeds,
    gatherExistence fu fromTime toTime found q (withSeedCache m seeds0) = (Ok found', withSeedCache m seeds) /\
    seedsCoherent (withSeedCache m seeds) /\
    (forall b, found' !! index = Some b -> forall x, Contains b x = true <-> inTable m fromTime toTime index x) /\
    (is_Some (found' !! index) <-> is_Some (found !! index) \/
       existsb (fun v => (pf_NullCheck v && negb (isExistenceSeedFragment v)) || negb fu) q = true).
Proof.
  intros Ht. induction q as [|v q IH]; intros found seeds0 Hq Hs Hf; cbn [gatherExistence existsb].
  { exists found, seeds0. split_and!; [done..|]. naive_solver. }
  apply Forall_cons in Hq as [(Hi & Hk & Hpct) Hq]. pose proof Hk as (_ & _ & _ & _ & Hni & Hnf).
  rewrite Hi, !decide_False by done.
  set (want := (pf_NullCheck v && negb (isExistenceSeedFragment v)) || negb fu).
  destruct (want && bool_decide (found !! index = None)) eqn:Ew.
  - apply andb_true_iff in Ew as [-> Hnone%bool_decide_eq_true].
    destruct (tableExistence_rows (withSeedCache m seeds0) fromTime toTime index Ht Hs) as (b & seeds & Eb & Hs1 & Hb).
    rewrite (bind_run _ _ _ _ _ Eb).
    destruct (IH (<[index := b]> found) seeds Hq Hs1) as (found' & seeds' & Eq & Hs' & Hf' & Hsome).
    { intros b'. rewrite lookup_insert_eq. by intros [= <-]. }
    exists found', seeds'. split_and!; [done..|]. rewrite Hsome, lookup_insert_eq. cbn. naive_solver.
  - destruct (IH found seeds0 Hq Hs Hf) as (found' & seeds' & Eq & Hs' & Hf' & Hsome).
    exists found', seeds'. split_and!; [done..|]. rewrite Hsome, orb_true_iff. split; [naive_solver|].
    intros [?|[Hw|?]]; [naive_solver| |naive_solver]. left. rewrite Hw in Ew. cbn in Ew.
    apply bool_decide_eq_false in Ew. destruct (found !! index); [by eexists|done].
Qed.

End Loop.

(** ** The result of a query *)

Section Result.

Context {B I : Type} `{RoaringOpsLaws B} `{!BSILib B I} `{!BSILaws B I}.

Implicit Types (m : BitmapIndex B I) (q : list PbFragment).

(** A query on one table that a node can answer. *)
Record answerable m (index : bytes) q : Prop := {
  an_nonempty : q <> [];
  an_fragments : Forall (evaluable m index) q;
  an_wellFormed : wellFormed q;
  an_plain : Forall (fun v => plainFragment (nullCheckOperation v) = true) q;
  an_finite : forallb (fun v => float32Finite (pf_SamplePct v)) q = true;
  an_length : zlen q < 2 ^ 31;
  an_table : knownTable m index }.

(** The decoded result of a node: a bitmap per fragment, by kind, and the existence of
    the table when the query asks for it. *)
Record answers m (fromTime toTime : Time) (index : bytes) (prior : queryPriorIntersectCandidates) q
    (dataMap : gmap bytes B) (ir : IntermediateResult B) : Prop := {
  ans_data : forall v, v ∈ q -> exists b, dataMap !! pf_Id v = Some b /\
    (Forall (ranged m fromTime toTime) q -> selects m fromTime toTime index prior q v b);
  ans_intersects : Forall2 same_rows (im_intersects ir) (select dataMap INTERSECT (map nullCheckOperation q));
  ans_differences : Forall2 same_rows (im_andDifferences ir) (select dataMap DIFFERENCE (map nullCheckOperation q));
  ans_unions : same_rows (ParOr (im_unions ir)) (ParOr (select dataMap UNION (map nullCheckOperation q)));
  ans_or : im_orDifferences ir = [];
  ans_existence : forall x, Contains (ParOr (im_existences ir)) x = true <->
    wantsExistence q = true /\ inTable m fromTime toTime index x;
  ans_index : im_Index ir = index;
  ans_fks : im_joinFkList ir = [];
  ans_samples : im_samples ir = [];
  ans_pct : float32Positive (im_SamplePct ir) = false }.

Lemma map_links_nullCheck q : map links (map nullCheckOperation q) = map links q.
Proof. rewrite map_map. apply map_ext. intros v. by apply nullCheck_fields. Qed.

Lemma map_id_nullCheck q : map pf_Id (map nullCheckOperation q) = map pf_Id q.
Proof. rewrite map_map. apply map_ext. intros v. by apply nullCheck_fields. Qed.

Lemma wantsExistence_eq q : q <> [] ->
  existsb (fun v => (pf_NullCheck v && negb (isExistenceSeedFragment v)) || negb (hasUnion q)) q = wantsExistence q.
Proof.
  intros Hq. unfold wantsExistence. destruct (hasUnion q); cbn [negb orb].
  - clear Hq. induction q as [|v q IH]; cbn; [done|]. by rewrite IH, orb_false_r.
  - destruct q as [|v q]; [done|]. cbn. by rewrite orb_true_r.
Qed.

Lemma select_length (dataMap : gmap bytes B) op q : zlen (select dataMap op q) <= zlen q.
Proof.
  unfold select, zlen. induction q as [|v q IH]; cbn; [done|].
  case_decide; [destruct (dataMap !! pf_Id v)|]; cbn; lia.
Qed.

Lemma im_count_irrelevant (ir : IntermediateResult B) q (counts : gmap bytes Z) :
  exists c, (match q with
   | [v] => match counts !! pf_Id v with Some count => SetCount ir count | None => ir end
   | _ => ir end) = setFinal ir (im_union ir) (im_existence ir) c.
Proof.
  destruct q as [|v [|? ?]]; [exists (im_count ir); by destruct ir| |exists (im_count ir); by destruct ir].
  destruct (counts !! pf_Id v); [by eexists|exists (im_count ir); by destruct ir].
Qed.

Lemma last_index q (r : IntermediateResult B) index m : q <> [] -> Forall (evaluable m index) q ->
  Some (im_Index r, im_SamplePct r) =
    (fun f => (pf_Index f, pf_SamplePct f)) <$> last (map nullCheckOperation q) ->
  im_Index r = index /\ float32Positive (im_SamplePct r) = false.
Proof.
  intros Hq Hev Hi. destruct q as [|v q] using rev_ind; [done|]. clear IHq. rewrite map_app in Hi. cbn [map] in Hi. rewrite last_snoc in Hi.
  injection Hi as -> ->. pose proof (nullCheck_fields v) as (-> & _ & _ & _ & _ & _ & -> & _).
  rewrite Forall_app, Forall_singleton in Hev. split; apply Hev.
Qed.

Lemma query_answers order m index query prior : (forall l, order l ≡ₚ l) ->
  answerable m index (pq_Query query) -> shardsAgree m -> seedsCoherent m ->
  (is_Some (pi_rows prior) -> pi_index prior = index) ->
  let fromTime := UnixUTC (pq_FromTime query) in
  let toTime := UnixUTC (pq_ToTime query) in
  exists qr seeds ir dataMap,
    queryWithPriorIntersect order query prior m = (Ok (Some qr), withSeedCache m seeds) /\
    seedsCoherent (withSeedCache m seeds) /\
    UnmarshalAndAdd (NewIntermediateResult index) qr = Ok ir /\
    answers m fromTime toTime index prior (pq_Query query) dataMap ir.
Proof.
  intros Ho [Hne Hev Hwf Hpl Hfin Hlen Htab] Hag Hs Hprior. cbn zeta.
  set (fromTime := UnixUTC (pq_FromTime query)). set (toTime := UnixUTC (pq_ToTime query)).
  set (q := pq_Query query) in *. unfold queryWithPriorIntersect. fold q. rewrite Hfin. cbn [negb].
  rewrite decide_False by done.
  assert (m = withSeedCache m (bi_seedCache m)) as Em by by destruct m.
  rewrite Em in Hs. destruct (gatherExistence_rows m fromTime toTime index (hasUnion q) q Htab ∅ (bi_seedCache m))
    as (found & seeds1 & Eg & Hs1 & Hf & Hsome); [done..|by intros b; rewrite lookup_empty|].
  rewrite wantsExistence_eq in Hsome by done.
  destruct (evalFragments_rows m fromTime toTime index q Hag (mkLoop ∅ [] ∅ ∅ prior []) seeds1)
    as (l & seeds & El & Hs2 & Elist & Esam & _ & Hdata); [done|apply Hwf|done| |done|].
  { intros v bsi _. cbn. by rewrite lookup_empty. }
  cbn [ql_query ql_samples ql_prior app] in Elist, Esam, Hdata.
  destruct (Reduce_wellFormed order (ql_dataMap l) (map nullCheckOperation q) Ho) as (r & Er & Hr & Hi).
  { destruct Hwf as [[t Et] Hnd]. split; [exists t; by rewrite map_links_nullCheck|by rewrite map_id_nullCheck]. }
  { by apply Forall_fmap. }
  { apply Forall_fmap, Forall_forall. intros v Hv. cbn. pose proof (nullCheck_fields v) as (_ & _ & -> & _).
    destruct (Hdata v Hv) as (b & -> & _). by eexists. }
  apply (last_index q r index m Hne Hev) in Hi as [Hi Hpct].
  destruct (im_count_irrelevant r q (ql_counts l)) as [c Ec].
  set (r1 := setFinal r (im_union r) (im_existence r) c) in *.
  set (r2 := AddSamples r1 []).
  set (r3 := match found !! index with Some ge => AddExistence r2 ge | None => r2 end).
  destruct Hr as [[Rint Rdif Runi Ror Rex Rsam _] Ru Re].
  assert (im_Index r2 = index) as Ei2 by exact Hi.
  destruct (UnmarshalAndAdd_Marshal index r3) as (qr & ir & Em1 & Em2 & [Sint Sand Sor Suni Sex _] & Hix & Hfk & Hsm & Hpc).
  { unfold r3. destruct (found !! index); cbn; by rewrite Rsam. }
  { assert (im_andDifferences r3 = im_andDifferences r) as -> by (unfold r3; by destruct (found !! index)).
    rewrite Rdif. eapply Z.le_lt_trans; [apply select_length|]. unfold zlen in *. by rewrite length_map. }
  { unfold r3. by destruct (found !! index). }
  { unfold r3. by destruct (found !! index). }
  exists qr, seeds, ir, (ql_dataMap l). split_and!.
  - rewrite Em at 1. unfold queryBody. fold fromTime toTime q. rewrite (bind_run _ _ _ _ _ Eg), (bind_run _ _ _ _ _ El).
    rewrite Elist, bind_lift, Er, Ec, Esam. fold r2. rewrite Ei2. fold r3. unfold lift. by rewrite Em1.
  - done.
  - done.
  - split; try done.
    + etrans; [exact Sint|]. assert (im_intersects r3 = im_intersects r) as -> by (unfold r3; by destruct (found !! index)).
      by rewrite Rint.
    + etrans; [exact Sand|]. assert (im_andDifferences r3 = im_andDifferences r) as -> by (unfold r3; by destruct (found !! index)).
      by rewrite Rdif.
    + etrans; [exact Suni|]. assert (im_unions r3 = im_unions r) as -> by (unfold r3; by destruct (found !! index)). done.
    + assert (im_orDifferences r3 = []) as E0 by (unfold r3; by destruct (found !! index)).
      rewrite E0 in Sor. by apply Forall2_nil_inv_r in Sor.
    + intros x. rewrite (Sex x). rewrite lookup_empty in Hsome. unfold r3.
      destruct (found !! index) as [ge|] eqn:Ef; cbn; rewrite Rex; cbn [app].
      * rewrite ParOr_single, (Hf ge eq_refl x). split; [|tauto]. intros ?. split; [|done].
        destruct Hsome as [Hsome _]. destruct Hsome as [[? ?]|?]; [by eexists|done|done].
      * rewrite ParOr_nil. split; [done|]. intros [Hw _]. destruct Hsome as [_ Hsome].
        destruct Hsome as [? ?]; [by right|done].
    + rewrite Hpc. unfold r3. by destruct (found !! index).
Qed.

(** ** By kind *)

(** The fragments that the loop leaves with an operation. *)
Definition ofKind (op : OpType) q : list PbFragment :=
  filter (fun v => pf_Operation (nullCheckOperation v) = op) q.

(** A result with a bitmap in the relation [P] for every fragment, by kind and in order,
    and the rows [E] as existence. *)
Record answersBy (P : PbFragment -> B -> Prop) (E : Z -> Prop) (index : bytes) q
    (ir : IntermediateResult B) : Prop := {
  by_intersects : Forall2 P (ofKind INTERSECT q) (im_intersects ir);
  by_differences : Forall2 P (ofKind DIFFERENCE q) (im_andDifferences ir);
  by_unions : exists bs, Forall2 P (ofKind UNION q) bs /\ same_rows (ParOr (im_unions ir)) (ParOr bs);
  by_or : im_orDifferences ir = [];
  by_existence : forall x, Contains (ParOr (im_existences ir)) x = true <-> E x;
  by_index : im_Index ir = index;
  by_fks : im_joinFkList ir = [];
  by_samples : im_samples ir = [];
  by_pct : float32Positive (im_SamplePct ir) = false }.

Lemma select_Forall2 (P : PbFragment -> B -> Prop) dataMap op q :
  (forall v, v ∈ q -> exists b, dataMap !! pf_Id v = Some b /\ P v b) ->
  Forall2 P (ofKind op q) (select dataMap op (map nullCheckOperation q)).
Proof.
  unfold ofKind, select. induction q as [|v q IH]; intros Hq; cbn [map omap list_omap]; [constructor|].
  rewrite filter_cons. pose proof (nullCheck_fields v) as (_ & _ & -> & _).
  destruct (Hq v) as (b & Eb & Hb); [left|].
  assert (forall v, v ∈ q -> exists b, dataMap !! pf_Id v = Some b /\ P v b) as Hq'
    by (intros w Hw; apply Hq; by right).
  case_decide; [rewrite Eb; constructor; [done|by apply IH]|by apply IH].
Qed.

Lemma Forall2_same_rows (P : PbFragment -> B -> Prop) vs bs bs' :
  (forall v b b', same_rows b' b -> P v b -> P v b') ->
  Forall2 P vs bs -> Forall2 same_rows bs' bs -> Forall2 P vs bs'.
Proof.
  intros HP Hv. revert bs'. induction Hv as [|v b vs bs Hb _ IH]; intros bs' Hs.
  - apply Forall2_nil_inv_r in Hs as ->. constructor.
  - apply Forall2_cons_inv_r in Hs as (b' & l' & Hb' & Hl' & ->). constructor; [by eapply HP|by apply IH].
Qed.

Lemma selects_same_rows m fromTime toTime index prior q v (b b' : B) : same_rows b' b ->
  selects m fromTime toTime index prior q v b -> selects m fromTime toTime index prior q v b'.
Proof. intros E [H1 H2 H3]. split; [intros x|intros x|intros x y]; rewrite (E x); [apply H1|apply H2|apply H3]. Qed.

Lemma answers_by m fromTime toTime index prior q dataMap ir :
  answers m fromTime toTime index prior q dataMap ir ->
  answersBy (fun v b => Forall (ranged m fromTime toTime) q -> selects m fromTime toTime index prior q v b)
    (fun x => wantsExistence q = true /\ inTable m fromTime toTime index x) index q ir.
Proof.
  intros []. pose proof (fun op => select_Forall2 _ dataMap op q ans_data0) as Hsel.
  assert (forall v (b b' : B), same_rows b' b -> (Forall (ranged m fromTime toTime) q -> selects m fromTime toTime index prior q v b) ->
    Forall (ranged m fromTime toTime) q -> selects m fromTime toTime index prior q v b') as Hsame
    by (intros v b b' E Hb HR; by eapply selects_same_rows; [|apply Hb]).
  split; try done.
  - eapply Forall2_same_rows; [apply Hsame|apply Hsel|done].
  - eapply Forall2_same_rows; [apply Hsame|apply Hsel|done].
  - eexists. split; [apply Hsel|done].
Qed.

End Result.
