(* ===== verification/NodeWrite.v ===== *)
(** * Writes to a node

    The mutations of a node's shards (server/bitmap.go, server/bitmapio.go): items of a
    batch become fragments, which are applied at once or wait in a queue from which the
    workers take them; a fragment sets or clears rows of a standard bitmap or the values of
    a bit-sliced index; rows are cleared from all shards of a table; a table is truncated
    and a partition purged.  Every one keeps the seed cache of [NodeQuery] up to date.

    Left out: the locks, the times kept for persistence, the metrics and the relationship
    artifacts, none of which a query reads. *)

From S2P Require Import Prelude GoStd GoState GoTime Catalog Sequencer Bitmaps BSIBinary BitmapQuery NodeQuery NodeExact.

(** [ClearBits found target] clears the rows of [found] in [target]. *)
Class BitmapWriteLib (B I : Type) : Type := {
  ClearBits : B -> B -> B;
  ClearValues : I -> B -> I }.

Class BitmapWriteLaws (B I : Type) `{Roaring B} `{!BSILib B I} `{!BitmapWriteLib B I} : Prop := {
  Contains_ClearBits (found target : B) x :
    Contains (ClearBits (I := I) found target) x = Contains target x && negb (Contains found x);
  ClearValues_value (i : I) (found : B) x :
    GetBigValue (ClearValues i found) x = if Contains found x then None else GetBigValue i x }.

(** ** Fragments *)

Record BitmapFragment : Type := mkBitmapFragment {
  bf_IndexName : bytes;
  bf_FieldName : bytes;
  bf_RowIDOrBits : Z;
  bf_Time : Z;
  bf_BitData : list bytes;
  bf_IsBSI : bool;
  bf_IsClear : bool;
  bf_IsUpdate : bool }.

Section Writes.

Context {B I : Type} `{Roaring B} `{!RoaringOps B} `{!BSILib B I} `{!BSISliceLib B I} `{!BitmapWriteLib B I}.

Implicit Types (m : BitmapIndex B I) (f : BitmapFragment).

Definition withBitmapCache m (cache : gmap (bytes * bytes) (gmap Z (gmap Z B))) : BitmapIndex B I :=
  mkBitmapIndex (bi_tableCache m) cache (bi_bsiCache m) (bi_seedCache m) (Member m).

Definition withBsiCache m (cache : gmap (bytes * bytes) (gmap Z I)) : BitmapIndex B I :=
  mkBitmapIndex (bi_tableCache m) (bi_bitmapCache m) cache (bi_seedCache m) (Member m).

Definition putRowShard m (index field : bytes) (rowID ts : Z) (bits : B) : BitmapIndex B I :=
  withBitmapCache m (<[(index, field) := <[rowID := <[ts := bits]> (rowShards m index field rowID)]>
    (default ∅ (bi_bitmapCache m !! (index, field)))]> (bi_bitmapCache m)).

Definition putBsiShard m (index field : bytes) (ts : Z) (bsi : I) : BitmapIndex B I :=
  withBsiCache m (<[(index, field) := <[ts := bsi]> (bsiShards m index field)]> (bi_bsiCache m)).

(** ** Standard bitmaps *)

(** Rows cleared in every row bitmap of the field at a time. *)
Definition clearAllRows m (index field : bytes) (ts : Z) (nbm : B) : BitmapIndex B I :=
  withBitmapCache m (alter (fmap (alter (ClearBits (I := I) nbm) ts)) (index, field) (bi_bitmapCache m)).

(** The data are read from the first element, whatever their number.  An error is logged
    and the fragment dropped.  An update clears the rows elsewhere first, and is ignored
    by a node that neither has the shard nor owns it. *)
Definition updateBitmapCache f : stgo (BitmapIndex B I) () := fun m =>
  let index := bf_IndexName f in
  let field := bf_FieldName f in
  let ts := bf_Time f in
  match getFieldConfig (schemaOf m) index field, bf_BitData f with
  | Panic, _ | _, [] => (Panic, m)
  | _, data :: _ =>
    match UnmarshalBinary data with
    | Panic => (Panic, m)
    | Err _ => (Ok (), m)
    | Ok bits =>
      let rowID := wrap_u 64 (bf_RowIDOrBits f) in
      let m := if bf_IsUpdate f then clearAllRows m index field ts bits else m in
      if bf_IsClear f && bf_IsUpdate f then (Ok (), m)
      else
        match rowShards m index field rowID !! ts with
        | None =>
          if bf_IsUpdate f && negb (Member m (bitmapHashKey index field rowID ts)) then (Ok (), m)
          else (Ok (), putRowShard m index field rowID ts bits)
        | Some existBm =>
          (Ok (), putRowShard m index field rowID ts
                    (if bf_IsClear f then ClearBits (I := I) bits existBm else ParOr [existBm; bits]))
        end
    end
  end.

(** ** Bit-sliced indexes *)

Definition clearBSI f : stgo (BitmapIndex B I) () := fun m =>
  let index := bf_IndexName f in
  let field := bf_FieldName f in
  let ts := bf_Time f in
  match bf_BitData f with
  | [] => (Panic, m)
  | data :: _ =>
    match UnmarshalBinary data with
    | Panic => (Panic, m)
    | Err _ => (Ok (), m)
    | Ok ebm =>
      match bsiShards m index field !! ts with
      | None => (Ok (), m)
      | Some existBm =>
        let clearSet := FastAnd [GetExistenceBitmap existBm; ebm] in
        (Ok (), updateSeedCacheForBSIFragment (putBsiShard m index field ts (ClearValues existBm clearSet))
                  index field ts None (Some clearSet))
      end
    end
  end.

(** The values of a row that has one are replaced. *)
Definition mergeBSI (existBm new : I) : I :=
  let existingRows := GetExistenceBitmap (B := B) existBm in
  let newRows := GetExistenceBitmap (B := B) new in
  BSI_ParOr (B := B) (if Intersects existingRows newRows then ClearValues existBm (FastAnd [existingRows; newRows]) else existBm)
    [new].

Definition updateBSICache f : stgo (BitmapIndex B I) () := fun m =>
  let index := bf_IndexName f in
  let field := bf_FieldName f in
  let ts := bf_Time f in
  if bf_IsClear f then clearBSI f m
  else
    match newBSIBitmap (schemaOf m) index field with
    | Ok _ =>
      match UnmarshalBSI (B := B) (NewDefaultBSI (B := B)) (bf_BitData f) with
      | Panic => (Panic, m)
      | Err _ => (Ok (), m)
      | Ok new =>
        let added m := updateSeedCacheForBSIFragment m index field ts (Some (GetExistenceBitmap (B := B) new)) None in
        match bsiShards m index field !! ts with
        | None =>
          if bf_IsUpdate f && negb (Member m (bsiHashKey index field ts)) then (Ok (), m)
          else (Ok (), added (putBsiShard m index field ts new))
        | Some existBm => (Ok (), added (putBsiShard m index field ts (mergeBSI existBm new)))
        end
      end
    | _ => (Panic, m)
    end.

Definition applyFragment f : stgo (BitmapIndex B I) () :=
  if bf_IsBSI f then updateBSICache f else updateBitmapCache f.

(** ** Clearing rows of a table *)

Definition inClearRange (start end_ ts : Z) : bool := negb ((ts <? start) || (end_ <? ts)).

Definition clearedShard (nbm : B) (bsi : I) : I :=
  let clearSet := FastAnd [GetExistenceBitmap (B := B) bsi; nbm] in
  if Bitmap_IsEmpty (I := I) clearSet then bsi else ClearValues bsi clearSet.

(** The seed cache after the shards of a field were cleared. *)
Definition clearSeeds (nbm : B) (start end_ : Z) m (field_shards : (bytes * bytes) * gmap Z I) : BitmapIndex B I :=
  let '((index, field), shards) := field_shards in
  foldl (fun m '(ts, bsi) =>
    let clearSet := FastAnd [GetExistenceBitmap (B := B) bsi; nbm] in
    if negb (inClearRange start end_ ts) || Bitmap_IsEmpty (I := I) clearSet then m
    else updateSeedCacheForBSIFragment m index field ts None (Some clearSet)) m (map_to_list shards).

Definition clearRowShards (start end_ : Z) (nbm : B) (shards : gmap Z B) : gmap Z B :=
  map_imap (fun ts bits => Some (if inClearRange start end_ ts then ClearBits (I := I) nbm bits else bits)) shards.

Definition clearBsiShards (start end_ : Z) (nbm : B) (shards : gmap Z I) : gmap Z I :=
  map_imap (fun ts bsi => Some (if inClearRange start end_ ts then clearedShard nbm bsi else bsi)) shards.

Definition clearFieldRows (start end_ : Z) (nbm : B) (rows : gmap Z (gmap Z B)) : gmap Z (gmap Z B) :=
  clearRowShards start end_ nbm <$> rows.

Definition clearAll (index : bytes) (start end_ : Z) (nbm : B) m : BitmapIndex B I :=
  let bitmaps := map_imap (fun k rows =>
    Some (if decide (k.1 = index) then clearFieldRows start end_ nbm rows else rows)) (bi_bitmapCache m) in
  let bsis := map_imap (fun k shards =>
    Some (if decide (k.1 = index) then clearBsiShards start end_ nbm shards else shards)) (bi_bsiCache m) in
  foldl (clearSeeds nbm start end_) (withBsiCache (withBitmapCache m bitmaps) bsis)
    (filter (fun k => k.1.1 = index) (map_to_list (bi_bsiCache m))).

Definition BulkClear (index foundSet : bytes) (fromTime toTime : Z) : stgo (BitmapIndex B I) () := fun m =>
  if decide (index = []) then (Err (Errorf "index not specified for bulk clear criteria" []), m)
  else match UnmarshalBinary foundSet with
       | Ok nbm => (Ok (), clearAll index (wrap_s 64 fromTime) (wrap_s 64 toTime) nbm m)
       | Err e => (Err e, m)
       | Panic => (Panic, m)
       end.

(** ** Truncation *)

Definition dropRows (rows : gmap Z (gmap Z B)) : gmap Z (gmap Z B) := (fun _ => ∅) <$> rows.

Definition Truncate (index : bytes) m : BitmapIndex B I :=
  let m := clearSeedCacheForIndex m index in
  withBsiCache
    (withBitmapCache m (map_imap (fun k rows => Some (if decide (k.1 = index) then dropRows rows else rows)) (bi_bitmapCache m)))
    (map_imap (fun k shards => Some (if decide (k.1 = index) then ∅ else shards)) (bi_bsiCache m)).

(** A partition: the shard of a row, or of an index when the row is negative. *)
Definition purgePartition (index field : bytes) (rowIDOrBits ts : Z) m : BitmapIndex B I :=
  if 0 <=? rowIDOrBits then
    match rowShards m index field rowIDOrBits !! ts with
    | Some _ => withBitmapCache m (alter (alter (delete ts) rowIDOrBits) (index, field) (bi_bitmapCache m))
    | None => m
    end
  else
    match bsiShards m index field !! ts with
    | Some bsi =>
      updateSeedCacheForBSIFragment (withBsiCache m (alter (delete ts) (index, field) (bi_bsiCache m)))
        index field ts None (Some (GetExistenceBitmap bsi))
    | None => m
    end.

(** ** Batches *)

Record IndexKVPair : Type := mkIndexKVPair {
  kv_IndexPath : bytes;
  kv_Key : bytes;
  kv_Value : list bytes;
  kv_Time : Z;
  kv_IsClear : bool;
  kv_IsUpdate : bool;
  kv_Sync : bool }.

(** The shards, and the fragments that wait for a worker. *)
Record NodeState : Type := mkNodeState {
  ns_index : BitmapIndex B I;
  ns_queue : list BitmapFragment }.

Definition fragQueueCapacity : Z := 10000000.

(** An item's fragment; a key of less than eight bytes panics. *)
Definition fragmentOf (kv : IndexKVPair) m : go BitmapFragment :=
  if decide (kv_Key kv = []) then Err (Errorf "key must be specified" [])
  else match Split (kv_IndexPath kv) (byte_of 47) with
  | [indexName; fieldName] =>
    _ ← getFieldConfig (schemaOf m) indexName fieldName;
    if zlen (kv_Key kv) <? 8 then Panic
    else
      isBSI ← isBSI m indexName fieldName;
      mret (mkBitmapFragment indexName fieldName (wrap_s 64 (le_value (take 8 (kv_Key kv)))) (kv_Time kv) (kv_Value kv)
              isBSI (kv_IsClear kv) (kv_IsUpdate kv))
  | _ => Err (Errorf "IndexPath %s not valid" [AStr (kv_IndexPath kv)])
  end.

(** Whether the fragment waits in the queue. *)
Definition enqueueBatchMutation (kv : IndexKVPair) : stgo NodeState bool := fun s =>
  match fragmentOf kv (ns_index s) with
  | Ok frag =>
    if kv_Sync kv then
      let '(r, m) := applyFragment frag (ns_index s) in
      ((_ ← r; mret false), mkNodeState m (ns_queue s))
    else if zlen (ns_queue s) <? fragQueueCapacity then (Ok true, mkNodeState (ns_index s) (ns_queue s ++ [frag]))
    else (Err (Errorf "BatchMutate: fragment queue is full" []), s)
  | Err e => (Err e, s)
  | Panic => (Panic, s)
  end.

(** The items before a bad one are applied, or stay in the queue. *)
Fixpoint BatchMutateItems (items : list (option IndexKVPair)) : stgo NodeState () :=
  match items with
  | [] => mret ()
  | None :: _ => lift (Err (Errorf "KV Pair must not be nil" []))
  | Some kv :: items => _ ← enqueueBatchMutation kv; BatchMutateItems items
  end.

(** A worker takes a fragment from the queue and applies it; another one may have taken
    those before it. *)
Inductive workerStep : NodeState -> NodeState -> Prop :=
  | worker_applies m m' q1 f q2 : applyFragment f m = (Ok (), m') ->
      workerStep (mkNodeState m (q1 ++ f :: q2)) (mkNodeState m' (q1 ++ q2)).

End Writes.

(** ** What shards hold *)

Section Shards.

Context {B I : Type} `{RoaringOpsLaws B} `{!BSILib B I} `{!BSILaws B I} `{!BSISliceLib B I} `{!BitmapWriteLib B I}.
Context `{!BSISliceLaws B I} `{!BitmapWriteLaws B I}.

Implicit Types (m : BitmapIndex B I) (f : BitmapFragment).

(** The value a shard has for a row. *)
Definition shardValue m (index field : bytes) (ts x : Z) : option Z :=
  bsi ← bsiShards m index field !! ts; GetBigValue (B := B) bsi x.

(** The rows of a shard of a row. *)
Definition shardRow m (index field : bytes) (rowID ts x : Z) : bool :=
  match rowShards m index field rowID !! ts with Some bits => Contains bits x | None => false end.

Lemma bsiShards_put m index field ts bsi index' field' ts' :
  bsiShards (putBsiShard m index field ts bsi) index' field' !! ts' =
  if decide ((index', field', ts') = (index, field, ts)) then Some bsi else bsiShards m index' field' !! ts'.
Proof.
  unfold bsiShards at 1. cbn [putBsiShard withBsiCache bi_bsiCache].
  destruct (decide ((index', field') = (index, field))) as [E|E].
  - injection E as -> ->. rewrite lookup_insert_eq. cbn [default from_option id].
    destruct (decide (ts' = ts)) as [->|Ht]; [by rewrite lookup_insert_eq, decide_True|].
    rewrite lookup_insert_ne by done. rewrite decide_False by congruence. done.
  - rewrite lookup_insert_ne by done. rewrite decide_False by congruence. done.
Qed.

Lemma rowShards_put m index field rowID ts bits index' field' rowID' ts' :
  rowShards (putRowShard m index field rowID ts bits) index' field' rowID' !! ts' =
  if decide ((index', field', rowID', ts') = (index, field, rowID, ts)) then Some bits
  else rowShards m index' field' rowID' !! ts'.
Proof.
  unfold rowShards at 1. cbn [putRowShard withBitmapCache bi_bitmapCache].
  destruct (decide ((index', field') = (index, field))) as [E|E].
  - injection E as -> ->. rewrite lookup_insert_eq. cbn [default from_option id].
    destruct (decide (rowID' = rowID)) as [->|Hr].
    + rewrite lookup_insert_eq. cbn [default from_option id].
      destruct (decide (ts' = ts)) as [->|Ht]; [by rewrite lookup_insert_eq, decide_True|].
      rewrite lookup_insert_ne by done. rewrite decide_False by congruence. done.
    + rewrite lookup_insert_ne by done. rewrite decide_False by congruence. done.
  - rewrite lookup_insert_ne by done. rewrite decide_False by congruence. done.
Qed.

(** An index without the rows that another one has. *)
Lemma kept_value (existBm new : I) x :
  let existingRows := GetExistenceBitmap (B := B) existBm in
  let newRows := GetExistenceBitmap (B := B) new in
  GetBigValue (B := B) (if Intersects existingRows newRows then ClearValues existBm (FastAnd [existingRows; newRows])
                        else existBm) x =
  match GetBigValue (B := B) new x with Some _ => None | None => GetBigValue (B := B) existBm x end.
Proof.
  cbn zeta. case_if.
  - rewrite ClearValues_value, Contains_FastAnd by done. cbn [forallb]. rewrite !Contains_existence, andb_true_r.
    by destruct (GetBigValue existBm x), (GetBigValue new x).
  - destruct (GetBigValue new x) eqn:En; [|done]. destruct (GetBigValue existBm x) eqn:Ev; [|done]. exfalso.
    unfold Intersects in E. apply Z.ltb_ge in E.
    pose proof (proj2 (GetCardinality_pos (And (GetExistenceBitmap existBm) (GetExistenceBitmap new)))) as Hp.
    enough (0 < GetCardinality (And (GetExistenceBitmap existBm) (GetExistenceBitmap new))) by lia.
    apply Hp. exists x. by rewrite Contains_And, !Contains_existence, En, Ev, !bool_decide_true.
Qed.

(** Values replace values, rows without a new value keep theirs. *)
Lemma mergeBSI_value (existBm new : I) x : GetBigValue (B := B) (mergeBSI (B := B) existBm new) x =
  match GetBigValue (B := B) new x with Some v => Some v | None => GetBigValue (B := B) existBm x end.
Proof.
  unfold mergeBSI. pose proof (kept_value existBm new) as Hkept. cbn zeta in Hkept.
  set (kept := if Intersects _ _ then _ else _) in *.
  assert (agree (B := B) [kept; new]) as Hag.
  { intros i j y v w Hi Hj Hv Hw. specialize (Hkept y).
    apply elem_of_cons in Hi as [->|[->|[]%elem_of_nil]%elem_of_cons];
      apply elem_of_cons in Hj as [->|[->|[]%elem_of_nil]%elem_of_cons]; try congruence;
      destruct (GetBigValue new y); congruence. }
  apply option_eq. intros v. rewrite (BSI_ParOr_value kept [new] x v Hag). specialize (Hkept x). split.
  - intros (j & [->|[->|[]%elem_of_nil]%elem_of_cons]%elem_of_cons & Hj); [|by rewrite Hj].
    rewrite Hkept in Hj. by destruct (GetBigValue new x).
  - destruct (GetBigValue new x) as [w|] eqn:En.
    + intros [= ->]. exists new. split; [set_solver|done].
    + intros Ev. exists kept. split; [left|]. by rewrite Hkept.
Qed.

(** ** The seed cache *)

Definition existsAt m (index field : bytes) (ts x : Z) : Prop := is_Some (shardValue m index field ts x).

Lemma existsAt_shard m index field ts x : existsAt m index field ts x <->
  exists bsi, bsiShards m index field !! ts = Some bsi /\ Contains (GetExistenceBitmap bsi) x = true.
Proof.
  unfold existsAt, shardValue. destruct (bsiShards m index field !! ts) as [bsi|].
  - rewrite Some_bind. setoid_rewrite Contains_existence. setoid_rewrite bool_decide_eq_true. naive_solver.
  - change (None ≫= _) with (@None Z). split; [by intros [? ?]|]. by intros (? & ? & _).
Qed.

(** A window takes in the shard of a time. *)
Definition takesIn (tq : bytes) (fromTime toTime ts : Z) : Prop := tq = [] \/ inWindow tq fromTime toTime ts = true.

Lemma existenceShards_at m index field tq fromTime toTime x :
  Contains (ParOr (existenceShards m index field tq fromTime toTime)) x = true <->
  exists ts, existsAt m index field ts x /\ takesIn tq fromTime toTime ts.
Proof.
  rewrite ParOr_true. unfold existenceShards, takesIn. setoid_rewrite list_elem_of_omap. setoid_rewrite existsAt_shard. split.
  - intros (b & ([ts bsi] & Hin%elem_of_map_to_list & E) & Hx). exists ts. split.
    + exists bsi. split; [done|]. destruct (negb _ && _); by simplify_eq.
    + destruct (decide (tq = [])); [by left|]. right. rewrite bool_decide_false in E by done. cbn in E.
      by destruct (inWindow _ _ _ _).
  - intros (ts & (bsi & Hin & Hx) & Hw). exists (GetExistenceBitmap bsi). split; [|done]. exists (ts, bsi).
    split; [by apply elem_of_map_to_list|]. destruct Hw as [->|Hw]; [done|]. by rewrite Hw, andb_false_r.
Qed.

(** The cached windows of a field that take in a shard are those that include its time. *)
Definition seedAligned m (index field : bytes) (ts : Z) : Prop := forall key entry,
  bi_seedCache m !! key = Some entry -> sd_Index entry = index -> sd_Field entry = field ->
  takesIn (quantumOf m index field) (sd_From entry) (sd_To entry) ts <-> sd_From entry <= ts <= sd_To entry.

(** Another shard, or the same rows. *)
Definition sameExcept m m' (index field : bytes) (ts : Z) : Prop := forall index' field' ts' x,
  (index', field', ts') <> (index, field, ts) -> existsAt m' index' field' ts' x <-> existsAt m index' field' ts' x.

Section Change.

Context (m m' : BitmapIndex B I) (index field : bytes) (ts : Z).
Hypothesis Hseeds : bi_seedCache m' = bi_seedCache m.
Hypothesis Htables : bi_tableCache m' = bi_tableCache m.
Hypothesis Hsame : sameExcept m m' index field ts.
Hypothesis Haligned : seedAligned m index field ts.
Hypothesis Hcoherent : seedsCoherent m.

Lemma quantum_kept index' field' : quantumOf m' index' field' = quantumOf m index' field'.
Proof. unfold quantumOf, schemaOf. by rewrite Htables. Qed.

(** Entries that the change does not concern stay coherent. *)
Lemma entry_kept index' field' a b old : (index', field') <> (index, field) \/ ~ takesIn (quantumOf m index field) a b ts ->
  same_rows (sd_Bits old) (ParOr (existenceShards m index' field' (quantumOf m index' field') a b)) ->
  same_rows (sd_Bits old) (ParOr (existenceShards m' index' field' (quantumOf m' index' field') a b)).
Proof.
  intros Hor -> x. apply eq_true_iff_eq. rewrite !existenceShards_at, quantum_kept.
  assert (forall t, takesIn (quantumOf m index' field') a b t -> (index', field', t) <> (index, field, ts)) as Hne
    by (intros t Ht [= -> -> ->]; by destruct Hor).
  split; intros (t & Hx & Ht); exists t; (split; [|done]); revert Hx; by rewrite (Hsame index' field' t x (Hne t Ht)).
Qed.

Lemma entry_aligned index' field' a b old : plainName index' -> plainName field' -> in_s 64 a -> in_s 64 b ->
  bi_seedCache m !! seedCacheKey index' field' a b = Some old ->
  entryOf old index' field' a b /\
  same_rows (sd_Bits old) (ParOr (existenceShards m index' field' (quantumOf m index' field') a b)) /\
  ((index', field') = (index, field) -> takesIn (quantumOf m index field) a b ts <-> a <= ts <= b).
Proof.
  intros Hi Hf Ha Hb E. destruct (Hcoherent _ _ _ _ _ Hi Hf Ha Hb E) as [He Hr]. split_and!; [done..|].
  intros [= -> ->]. destruct He as (E1 & E2 & <- & <-). by apply (Haligned _ _ E).
Qed.

Lemma seeds_added rows : (forall x, existsAt m' index field ts x <-> existsAt m index field ts x \/ Contains rows x = true) ->
  seedsCoherent (updateSeedCacheForBSIFragment m' index field ts (Some rows) None).
Proof.
  intros Hrows index' field' a b entry Hi Hf Ha Hb.
  cbn [updateSeedCacheForBSIFragment withSeedCache bi_seedCache]. rewrite Hseeds, lookup_omap_Some. intros (old & E & Ho).
  destruct (entry_aligned _ _ _ _ _ Hi Hf Ha Hb Ho) as (He & Hr & Hw). pose proof He as (E1 & E2 & E3 & E4).
  rewrite E1, E2, E3, E4 in E.
  set (u := updateSeedCacheForBSIFragment m' index field ts _ _).
  change (existenceShards u index' field' (quantumOf u index' field') a b)
    with (existenceShards m' index' field' (quantumOf m' index' field') a b). clear u.
  destruct (decide ((index', field') = (index, field))) as [[= -> ->]|Hne].
  - rewrite !bool_decide_true in E by done. cbn [negb orb] in E. specialize (Hw eq_refl).
    destruct ((ts <? a) || (b <? ts)) eqn:Ew.
    + injection E as <-. split; [done|]. apply entry_kept; [|done]. right. rewrite Hw. b2p; lia.
    + injection E as <-. split; [done|]. cbn [sd_Bits]. intros x. apply eq_true_iff_eq.
      rewrite ParOr_true, existenceShards_at, quantum_kept. assert (a <= ts <= b) as Hin by (b2p; lia). apply Hw in Hin.
      setoid_rewrite elem_of_cons. setoid_rewrite list_elem_of_singleton. split.
      * intros (c & [->| ->] & Hx).
        -- rewrite Hr, existenceShards_at in Hx. destruct Hx as (t & Hx & Ht). exists t. split; [|done].
           destruct (decide (t = ts)) as [->|]; [apply Hrows; by left|]. apply Hsame; [congruence|done].
        -- exists ts. split; [apply Hrows; by right|done].
      * intros (t & Hx & Ht). destruct (decide (t = ts)) as [->|Hts].
        -- apply Hrows in Hx as [Hx|Hx]; [|by eauto]. exists (sd_Bits old). split; [by left|].
           rewrite Hr, existenceShards_at. eauto.
        -- exists (sd_Bits old). split; [by left|]. rewrite Hr, existenceShards_at. exists t. split; [|done].
           apply Hsame in Hx; [done|congruence].
  - assert (negb (bool_decide (index' = index)) || negb (bool_decide (field' = field)) = true) as En
      by (repeat case_bool_decide; subst; done).
    rewrite En in E. injection E as <-. split; [done|]. apply entry_kept; [by left|done].
Qed.

Lemma seeds_removed rows : seedsCoherent (updateSeedCacheForBSIFragment m' index field ts None (Some rows)).
Proof.
  intros index' field' a b entry Hi Hf Ha Hb.
  cbn [updateSeedCacheForBSIFragment withSeedCache bi_seedCache]. rewrite Hseeds, lookup_omap_Some. intros (old & E & Ho).
  destruct (entry_aligned _ _ _ _ _ Hi Hf Ha Hb Ho) as (He & Hr & Hw). pose proof He as (E1 & E2 & E3 & E4).
  rewrite E1, E2, E3, E4 in E.
  set (u := updateSeedCacheForBSIFragment m' index field ts _ _).
  change (existenceShards u index' field' (quantumOf u index' field') a b)
    with (existenceShards m' index' field' (quantumOf m' index' field') a b). clear u.
  destruct (decide ((index', field') = (index, field))) as [[= -> ->]|Hne].
  - rewrite !bool_decide_true in E by done. cbn [negb orb] in E. specialize (Hw eq_refl).
    destruct ((ts <? a) || (b <? ts)) eqn:Ew; [|done].
    injection E as <-. split; [done|]. apply entry_kept; [|done]. right. rewrite Hw. b2p; lia.
  - assert (negb (bool_decide (index' = index)) || negb (bool_decide (field' = field)) = true) as En
      by (repeat case_bool_decide; subst; done).
    rewrite En in E. injection E as <-. split; [done|]. apply entry_kept; [by left|done].
Qed.

End Change.

(** ** Effects on values

    What a request does to the values of the shards, as a function on them. *)

Definition Cells : Type := bytes -> bytes -> Z -> Z -> option Z.

Inductive Effect : Type :=
  | ENothing
  | EPut (index field : bytes) (ts : Z) (values : Z -> option Z)
  | EErase (index field : bytes) (ts : Z) (rows : Z -> bool)
  | EEraseAll (index : bytes) (start end_ : Z) (rows : Z -> bool)
  | EDropTable (index : bytes)
  | EDropShard (index field : bytes) (ts : Z).

Definition applyEffect (e : Effect) (c : Cells) : Cells := fun index field ts x =>
  match e with
  | ENothing => c index field ts x
  | EPut index' field' ts' values =>
    if decide ((index, field, ts) = (index', field', ts'))
    then match values x with Some v => Some v | None => c index field ts x end else c index field ts x
  | EErase index' field' ts' rows =>
    if decide ((index, field, ts) = (index', field', ts')) then (if rows x then None else c index field ts x)
    else c index field ts x
  | EEraseAll index' start end_ rows =>
    if decide (index = index' /\ start <= ts <= end_) then (if rows x then None else c index field ts x)
    else c index field ts x
  | EDropTable index' => if decide (index = index') then None else c index field ts x
  | EDropShard index' field' ts' => if decide ((index, field, ts) = (index', field', ts')) then None else c index field ts x
  end.

Inductive NodeRequest : Type :=
  | RFragment (f : BitmapFragment)
  | RBulkClear (index foundSet : bytes) (fromTime toTime : Z)
  | RTruncate (index : bytes)
  | RPurge (index field : bytes) (rowIDOrBits ts : Z).

Definition runRequest (r : NodeRequest) : stgo (BitmapIndex B I) () :=
  match r with
  | RFragment f => applyFragment f
  | RBulkClear index foundSet fromTime toTime => BulkClear index foundSet fromTime toTime
  | RTruncate index => fun m => (Ok (), Truncate index m)
  | RPurge index field rowIDOrBits ts => fun m => (Ok (), purgePartition index field rowIDOrBits ts m)
  end.

(** A value fragment is taken by a node unless it is an update of a shard that the node
    neither has nor owns. *)
Definition takesFragment m f : bool :=
  negb (bf_IsUpdate f) || bool_decide (is_Some (bsiShards m (bf_IndexName f) (bf_FieldName f) !! bf_Time f)) ||
  Member m (bsiHashKey (bf_IndexName f) (bf_FieldName f) (bf_Time f)).

Inductive requestEffect m : NodeRequest -> Effect -> Prop :=
  | effect_put f sent : bf_IsBSI f = true -> bf_IsClear f = false ->
      is_ok (newBSIBitmap (schemaOf m) (bf_IndexName f) (bf_FieldName f)) = true ->
      MarshalBSI (B := B) (Some sent) = Ok (bf_BitData f) ->
      requestEffect m (RFragment f)
        (if takesFragment m f then EPut (bf_IndexName f) (bf_FieldName f) (bf_Time f) (GetBigValue (B := B) sent) else ENothing)
  | effect_erase f data rows : bf_IsBSI f = true -> bf_IsClear f = true -> bf_BitData f = [data] -> UnmarshalBinary data = Ok rows ->
      requestEffect m (RFragment f) (EErase (bf_IndexName f) (bf_FieldName f) (bf_Time f) (Contains rows))
  | effect_rows f data bits : bf_IsBSI f = false -> bf_BitData f = [data] -> UnmarshalBinary data = Ok bits ->
      is_ok (getFieldConfig (schemaOf m) (bf_IndexName f) (bf_FieldName f)) = true ->
      requestEffect m (RFragment f) ENothing
  | effect_bulk index foundSet fromTime toTime rows : index <> [] -> UnmarshalBinary foundSet = Ok rows ->
      requestEffect m (RBulkClear index foundSet fromTime toTime)
        (EEraseAll index (wrap_s 64 fromTime) (wrap_s 64 toTime) (Contains rows))
  | effect_truncate index : requestEffect m (RTruncate index) (EDropTable index)
  | effect_purge_bsi index field rowIDOrBits ts : rowIDOrBits < 0 ->
      requestEffect m (RPurge index field rowIDOrBits ts) (EDropShard index field ts)
  | effect_purge_rows index field rowIDOrBits ts : 0 <= rowIDOrBits ->
      requestEffect m (RPurge index field rowIDOrBits ts) ENothing.

(** The times of the shards a request may change agree with the cached windows. *)
Definition requestAligned m (r : NodeRequest) : Prop :=
  match r with
  | RFragment f => bf_IsBSI f = true -> seedAligned m (bf_IndexName f) (bf_FieldName f) (bf_Time f)
  | RBulkClear index _ _ _ => forall field ts, is_Some (bsiShards m index field !! ts) -> seedAligned m index field ts
  | RTruncate _ => True
  | RPurge index field rowIDOrBits ts => rowIDOrBits < 0 -> seedAligned m index field ts
  end.

(** A state with the values that an effect gives, and the same tables and owner. *)
Definition effected m (e : Effect) m' : Prop :=
  (forall index field ts x, shardValue m' index field ts x = applyEffect e (shardValue m) index field ts x) /\
  bi_tableCache m' = bi_tableCache m /\ Member m' = Member m.

Lemma shardValue_put m index field ts bsi index' field' ts' x :
  shardValue (putBsiShard m index field ts bsi) index' field' ts' x =
  if decide ((index', field', ts') = (index, field, ts)) then GetBigValue (B := B) bsi x else shardValue m index' field' ts' x.
Proof. unfold shardValue. rewrite bsiShards_put. by case_decide. Qed.

Lemma put_sameExcept m index field ts bsi : sameExcept m (putBsiShard m index field ts bsi) index field ts.
Proof. intros index' field' ts' x Hne. unfold existsAt. by rewrite shardValue_put, decide_False. Qed.

Lemma put_effect m f sent : bf_IsClear f = false ->
  is_ok (newBSIBitmap (schemaOf m) (bf_IndexName f) (bf_FieldName f)) = true ->
  MarshalBSI (B := B) (Some sent) = Ok (bf_BitData f) ->
  exists m', updateBSICache f m = (Ok (), m') /\
    effected m (if takesFragment m f then EPut (bf_IndexName f) (bf_FieldName f) (bf_Time f) (GetBigValue (B := B) sent) else ENothing) m' /\
    (seedsCoherent m -> seedAligned m (bf_IndexName f) (bf_FieldName f) (bf_Time f) -> seedsCoherent m').
Proof.
  intros Hc [bm Hk]%is_ok_true Hd. unfold updateBSICache. rewrite Hc, Hk.
  destruct (UnmarshalBSI_Marshal (B := B) sent) as (data & new & Ed & Eu & Hnew). rewrite Hd in Ed. injection Ed as <-.
  rewrite Eu. unfold takesFragment.
  set (index := bf_IndexName f). set (field := bf_FieldName f). set (ts := bf_Time f).
  assert (forall bsi, (forall x, GetBigValue (B := B) bsi x =
      match GetBigValue (B := B) new x with Some v => Some v | None => shardValue m index field ts x end) ->
    let m' := updateSeedCacheForBSIFragment (putBsiShard m index field ts bsi) index field ts
                (Some (GetExistenceBitmap (B := B) new)) None in
    effected m (EPut index field ts (GetBigValue (B := B) sent)) m' /\
    (seedsCoherent m -> seedAligned m index field ts -> seedsCoherent m')) as Hput.
  { intros bsi Hbsi. cbn zeta. split.
    - split; [|done]. intros index' field' ts' x. cbn [applyEffect].
      change (shardValue (updateSeedCacheForBSIFragment ?p _ _ _ _ _)) with (shardValue p).
      rewrite shardValue_put. case_decide as E; [|done]. injection E as -> -> ->. by rewrite Hbsi, Hnew.
    - intros Hs Ha. apply (seeds_added m); [done|done|apply put_sameExcept|exact Ha|exact Hs|].
      intros x. unfold existsAt. rewrite shardValue_put, decide_True by done. rewrite Hbsi, Contains_existence, bool_decide_eq_true.
      destruct (GetBigValue new x); naive_solver. }
  destruct (bsiShards m index field !! ts) as [existBm|] eqn:Es.
  - rewrite bool_decide_true by by eexists. rewrite orb_true_r. cbn [orb]. eexists. split; [done|]. apply Hput.
    intros x. rewrite mergeBSI_value. unfold shardValue. by rewrite Es.
  - rewrite bool_decide_false by by intros [? ?]. rewrite orb_false_r. destruct (bf_IsUpdate f); cbn [andb negb orb].
    + destruct (Member m (bsiHashKey index field ts)); cbn [negb]; [|by eexists].
      eexists. split; [done|]. apply Hput. intros x. unfold shardValue. rewrite Es. by destruct (GetBigValue new x).
    + eexists. split; [done|]. apply Hput. intros x. unfold shardValue. rewrite Es. by destruct (GetBigValue new x).
Qed.

Lemma cleared_value (bsi : I) (rows : B) x :
  GetBigValue (B := B) (ClearValues bsi (FastAnd [GetExistenceBitmap bsi; rows])) x =
  if Contains rows x then None else GetBigValue (B := B) bsi x.
Proof.
  rewrite ClearValues_value, Contains_FastAnd by done. cbn [forallb]. rewrite Contains_existence, andb_true_r.
  destruct (GetBigValue bsi x); [by rewrite bool_decide_true|]. by destruct (Contains rows x).
Qed.

Lemma erase_effect m f data rows : bf_BitData f = [data] -> UnmarshalBinary data = Ok rows ->
  exists m', clearBSI f m = (Ok (), m') /\
    effected m (EErase (bf_IndexName f) (bf_FieldName f) (bf_Time f) (Contains rows)) m' /\
    (seedsCoherent m -> seedAligned m (bf_IndexName f) (bf_FieldName f) (bf_Time f) -> seedsCoherent m').
Proof.
  intros Hd Hu. unfold clearBSI. rewrite Hd, Hu.
  set (index := bf_IndexName f). set (field := bf_FieldName f). set (ts := bf_Time f).
  destruct (bsiShards m index field !! ts) as [bsi|] eqn:Es; (eexists; split; [done|]); split.
  - split; [|done]. intros index' field' ts' x. cbn [applyEffect].
    change (shardValue (updateSeedCacheForBSIFragment ?p _ _ _ _ _)) with (shardValue p).
    rewrite shardValue_put. case_decide as E; [|done]. injection E as -> -> ->. rewrite cleared_value.
    unfold shardValue. by rewrite Es.
  - intros Hs Ha. apply (seeds_removed m); [done|done|apply put_sameExcept|exact Ha|exact Hs].
  - split; [|done]. intros index' field' ts' x. cbn [applyEffect]. case_decide as E; [|done]. injection E as -> -> ->.
    unfold shardValue. rewrite Es. by destruct (Contains rows x).
  - done.
Qed.

Lemma rows_effect m f data bits : bf_BitData f = [data] -> UnmarshalBinary data = Ok bits ->
  is_ok (getFieldConfig (schemaOf m) (bf_IndexName f) (bf_FieldName f)) = true ->
  exists m', updateBitmapCache f m = (Ok (), m') /\ effected m ENothing m' /\ (seedsCoherent m -> seedsCoherent m').
Proof.
  intros Hd Hu [attr Ha]%is_ok_true. unfold updateBitmapCache. rewrite Ha, Hd, Hu.
  set (m1 := if bf_IsUpdate f then _ else m).
  assert (exists c, m1 = withBitmapCache m c) as [c ->]
    by (unfold m1; destruct (bf_IsUpdate f); [by eexists|by exists (bi_bitmapCache m); destruct m]).
  repeat case_match; eexists; (split; [done|]); done.
Qed.

Lemma purge_lookup m index field ts index' field' ts' :
  bsiShards (withBsiCache m (alter (delete ts) (index, field) (bi_bsiCache m))) index' field' !! ts' =
  if decide ((index', field', ts') = (index, field, ts)) then None else bsiShards m index' field' !! ts'.
Proof.
  unfold bsiShards. cbn [withBsiCache bi_bsiCache].
  destruct (decide ((index', field') = (index, field))) as [E|E].
  - injection E as -> ->. rewrite lookup_alter_eq. destruct (bi_bsiCache m !! (index, field)) as [shards|]; cbn.
    + destruct (decide (ts' = ts)) as [->|Ht]; [by rewrite lookup_delete_eq, decide_True|].
      rewrite lookup_delete_ne by done. by rewrite decide_False by congruence.
    + by case_decide.
  - rewrite lookup_alter_ne by done. by rewrite decide_False by congruence.
Qed.

Lemma purge_effect m index field rowIDOrBits ts : rowIDOrBits < 0 ->
  effected m (EDropShard index field ts) (purgePartition index field rowIDOrBits ts m) /\
  (seedsCoherent m -> seedAligned m index field ts -> seedsCoherent (purgePartition index field rowIDOrBits ts m)).
Proof.
  intros Hr. unfold purgePartition. assert ((0 <=? rowIDOrBits) = false) as -> by lia.
  set (m1 := withBsiCache m _).
  assert (forall index' field' ts' x, shardValue m1 index' field' ts' x =
    applyEffect (EDropShard index field ts) (shardValue m) index' field' ts' x) as Hv.
  { intros index' field' ts' x. cbn [applyEffect]. unfold shardValue, m1. rewrite purge_lookup. by case_decide. }
  destruct (bsiShards m index field !! ts) as [bsi|] eqn:Es; split; [by split|..|done].
  - intros Hs Ha. apply (seeds_removed m); [done|done| |exact Ha|exact Hs].
    intros index' field' ts' x Hne. unfold existsAt. rewrite Hv. cbn [applyEffect]. by rewrite decide_False.
  - split; [|done]. intros index' field' ts' x. cbn [applyEffect]. case_decide as E; [|done]. injection E as -> -> ->.
    unfold shardValue. by rewrite Es.
Qed.

Lemma truncate_effect m index : effected m (EDropTable index) (Truncate index m) /\
  (seedsCoherent m -> seedsCoherent (Truncate index m)).
Proof.
  assert (forall index' field', bsiShards (Truncate index m) index' field' =
    if decide (index' = index) then ∅ else bsiShards m index' field') as Hb.
  { intros index' field'. unfold bsiShards, Truncate. cbn [withBsiCache bi_bsiCache clearSeedCacheForIndex withSeedCache withBitmapCache].
    rewrite map_lookup_imap. destruct (bi_bsiCache m !! (index', field')); cbn; by case_decide. }
  split.
  - split; [|done]. intros index' field' ts x. cbn [applyEffect]. unfold shardValue. rewrite Hb. by case_decide.
  - intros Hs index' field' a b entry Hi Hf Ha Hb'. cbn [Truncate bi_seedCache withBsiCache withBitmapCache clearSeedCacheForIndex withSeedCache].
    rewrite map_lookup_filter_Some. intros [E Hne]. cbn in Hne. destruct (Hs _ _ _ _ _ Hi Hf Ha Hb' E) as [He Hr].
    pose proof He as (E1 & _). split; [done|]. unfold existenceShards. rewrite Hb, decide_False by congruence. exact Hr.
Qed.

(** Steps that drop entries of the seed cache, each those that it hits. *)
Lemma drop_seeds {A} (step : BitmapIndex B I -> A -> BitmapIndex B I) (hits : A -> SeedBitmap B -> Prop) :
  (forall m a, exists seeds, step m a = withSeedCache m seeds /\
    forall key e, seeds !! key = Some e -> bi_seedCache m !! key = Some e /\ ~ hits a e) ->
  forall l m, exists seeds, foldl step m l = withSeedCache m seeds /\
    forall key e, seeds !! key = Some e -> bi_seedCache m !! key = Some e /\ forall a, a ∈ l -> ~ hits a e.
Proof.
  intros Hstep. induction l as [|a l IH]; intros m; cbn [foldl].
  - exists (bi_seedCache m). split; [by destruct m|]. intros key e E. split; [done|]. by intros a ?%elem_of_nil.
  - destruct (Hstep m a) as (seeds1 & -> & H1). destruct (IH (withSeedCache m seeds1)) as (seeds & -> & H2).
    exists seeds. split; [done|]. intros key e [E Hl]%H2. apply H1 in E as [E Ha]. split; [done|].
    intros b [->|Hb]%elem_of_cons; [done|by apply Hl].
Qed.

Definition clearHits (nbm : B) (start end_ : Z) (index field : bytes) (shard : Z * I) (e : SeedBitmap B) : Prop :=
  inClearRange start end_ shard.1 = true /\
  Bitmap_IsEmpty (I := I) (FastAnd [GetExistenceBitmap (B := B) shard.2; nbm]) = false /\
  sd_Index e = index /\ sd_Field e = field /\ sd_From e <= shard.1 <= sd_To e.

Lemma clearSeeds_drop nbm start end_ m k : exists seeds, clearSeeds nbm start end_ m k = withSeedCache m seeds /\
  forall key e, seeds !! key = Some e -> bi_seedCache m !! key = Some e /\
    forall shard, shard ∈ map_to_list k.2 -> ~ clearHits nbm start end_ k.1.1 k.1.2 shard e.
Proof.
  destruct k as [[index field] shards]. cbn [clearSeeds fst snd]. apply drop_seeds. intros m1 [ts bsi]. unfold clearHits. cbn [fst snd].
  destruct (inClearRange start end_ ts); cbn [negb orb]; [|exists (bi_seedCache m1); split; [by destruct m1|naive_solver]].
  destruct (Bitmap_IsEmpty _) eqn:Ee; [exists (bi_seedCache m1); split; [by destruct m1|naive_solver]|].
  eexists. split; [done|]. intros key e. rewrite lookup_omap_Some. intros (old & E & Hold).
  destruct (negb (bool_decide (sd_Index old = index)) || _) eqn:E1; [|destruct ((ts <? sd_From old) || _) eqn:E2; [|done]].
  - injection E as <-. split; [done|]. intros (_ & _ & <- & <- & _). by rewrite !bool_decide_true in E1.
  - injection E as <-. split; [done|]. intros (_ & _ & _ & _ & Hw). b2p; lia.
Qed.

Lemma clearAll_state m index start end_ nbm : exists bitmaps seeds,
  clearAll index start end_ nbm m = withSeedCache (withBsiCache (withBitmapCache m bitmaps)
    (map_imap (fun k shards => Some (if decide (k.1 = index) then clearBsiShards start end_ nbm shards else shards)) (bi_bsiCache m))) seeds /\
  forall key e, seeds !! key = Some e -> bi_seedCache m !! key = Some e /\
    forall field ts bsi, bsiShards m index field !! ts = Some bsi -> ~ clearHits nbm start end_ index field (ts, bsi) e.
Proof.
  unfold clearAll. set (bitmaps := map_imap _ (bi_bitmapCache m)). set (bsis := map_imap _ (bi_bsiCache m)).
  destruct (drop_seeds (clearSeeds nbm start end_)
    (fun k e => ~ forall shard, shard ∈ map_to_list k.2 -> ~ clearHits nbm start end_ k.1.1 k.1.2 shard e)
    ltac:(intros m1 k; destruct (clearSeeds_drop nbm start end_ m1 k) as (seeds & E & Hs); exists seeds; split; [done|];
      intros key e He; destruct (Hs key e He); tauto)
    (filter (fun k => k.1.1 = index) (map_to_list (bi_bsiCache m))) (withBsiCache (withBitmapCache m bitmaps) bsis)) as (seeds & E & Hs).
  exists bitmaps, seeds. split; [exact E|]. intros key e He. destruct (Hs key e He) as [Hm Hall]. split; [done|].
  intros field ts bsi Hsh Hhit. unfold bsiShards in Hsh. destruct (bi_bsiCache m !! (index, field)) as [shards|] eqn:Ek; [|done].
  apply (Hall ((index, field), shards)).
  - apply list_elem_of_filter. split; [done|]. by apply elem_of_map_to_list.
  - intros Hn. apply (Hn (ts, bsi)); [by apply elem_of_map_to_list|done].
Qed.

Lemma clearedShard_value nbm (bsi : I) x : GetBigValue (B := B) (clearedShard nbm bsi) x =
  if Contains nbm x then None else GetBigValue (B := B) bsi x.
Proof.
  unfold clearedShard. case_if; [|apply cleared_value]. pose proof (proj1 (IsEmpty_true _) E x) as Ex.
  rewrite Contains_FastAnd in Ex by done. cbn [forallb] in Ex. rewrite Contains_existence, andb_true_r in Ex.
  destruct (GetBigValue bsi x); [rewrite bool_decide_true in Ex by done; cbn in Ex; by rewrite Ex|]. by case_if.
Qed.

Lemma clearAll_lookup m bitmaps index start end_ nbm index' field' ts :
  bsiShards (withBsiCache (withBitmapCache m bitmaps) (map_imap (fun k shards =>
    Some (if decide (k.1 = index) then clearBsiShards start end_ nbm shards else shards)) (bi_bsiCache m))) index' field' !! ts =
  (fun bsi => if decide (index' = index /\ start <= ts <= end_) then clearedShard nbm bsi else bsi)
    <$> bsiShards m index' field' !! ts.
Proof.
  unfold bsiShards. cbn [withBsiCache bi_bsiCache withBitmapCache].
  rewrite map_lookup_imap. destruct (bi_bsiCache m !! (index', field')) as [shards|]; [|done].
  change (Some shards ≫= ?g) with (g shards). cbn [default from_option id fst]. case_decide as Ei.
  - unfold clearBsiShards. rewrite map_lookup_imap. destruct (shards !! ts) as [bsi|]; [|done].
    change (Some bsi ≫= ?g) with (g bsi). cbn. f_equal. unfold inClearRange.
    destruct (decide (start <= ts <= end_)); [rewrite decide_True by done|rewrite decide_False by tauto]; case_if; b2p; try done; lia.
  - destruct (shards !! ts); [|done]. cbn. by rewrite decide_False by tauto.
Qed.

Lemma bulk_effect m index start end_ nbm :
  effected m (EEraseAll index start end_ (Contains nbm)) (clearAll index start end_ nbm m) /\
  (seedsCoherent m -> (forall field ts, is_Some (bsiShards m index field !! ts) -> seedAligned m index field ts) ->
    seedsCoherent (clearAll index start end_ nbm m)).
Proof.
  destruct (clearAll_state m index start end_ nbm) as (bitmaps & seeds & -> & Hseeds).
  set (bsis := map_imap _ (bi_bsiCache m)). set (m1 := withBsiCache (withBitmapCache m bitmaps) bsis).
  pose proof (clearAll_lookup m bitmaps index start end_ nbm) as Hb. fold bsis m1 in Hb.
  split.
  - split; [|done]. intros index' field' ts x. cbn [applyEffect].
    change (shardValue (withSeedCache m1 seeds)) with (shardValue m1). unfold shardValue. rewrite Hb.
    destruct (bsiShards m index' field' !! ts) as [bsi|]; cbn; case_decide; try done; [apply clearedShard_value|by case_if].
  - intros Hs Ha index' field' a b entry Hi Hf Hra Hrb E. apply Hseeds in E as [E Hkeep].
    destruct (Hs _ _ _ _ _ Hi Hf Hra Hrb E) as [He Hr]. split; [done|]. rewrite Hr. intros x. apply eq_true_iff_eq.
    set (u := withSeedCache m1 seeds). change (quantumOf u index' field') with (quantumOf m index' field').
    change (existenceShards u) with (existenceShards m1). rewrite !existenceShards_at.
    assert (forall ts, takesIn (quantumOf m index' field') a b ts ->
      existsAt m1 index' field' ts x <-> existsAt m index' field' ts x) as Hsame.
    { intros ts Hw. unfold existsAt, shardValue. rewrite Hb.
      destruct (bsiShards m index' field' !! ts) as [bsi|] eqn:Es; [|done]. cbn. case_decide as Hd; [|done].
      destruct Hd as [-> Hd]. unfold clearedShard. case_if; [done|]. exfalso.
      apply (Hkeep field' ts bsi Es). destruct He as (E1 & E2 & <- & <-). split_and!; try done.
      - unfold inClearRange. cbn. apply negb_true_iff, orb_false_iff. lia.
      - by apply (Ha field' ts ltac:(by eexists) _ _ E E1 E2).
      - by apply (Ha field' ts ltac:(by eexists) _ _ E E1 E2). }
    split; intros (ts & Hx & Hw); exists ts; (split; [|done]); by apply Hsame.
Qed.

(** Every request, with its effect. *)
Lemma request_effect m r e : requestEffect m r e -> exists m', runRequest r m = (Ok (), m') /\ effected m e m' /\
  (seedsCoherent m -> requestAligned m r -> seedsCoherent m').
Proof.
  intros []; cbn [runRequest requestAligned]; unfold applyFragment.
  - rewrite H1. destruct (put_effect m f sent H2 H3 H4) as (m' & -> & He & Hs). exists m'. split_and!; [done..|]. auto.
  - rewrite H1. unfold updateBSICache. rewrite H2. destruct (erase_effect m f data rows H3 H4) as (m' & -> & He & Hs).
    exists m'. split_and!; [done..|]. auto.
  - rewrite H1. destruct (rows_effect m f data bits H2 H3 H4) as (m' & -> & He & Hs). exists m'. split_and!; [done..|]. auto.
  - unfold BulkClear. rewrite decide_False, H2 by done. eexists. split; [done|]. apply bulk_effect.
  - eexists. split; [done|]. destruct (truncate_effect m index). split; [done|]. auto.
  - eexists. split; [done|]. destruct (purge_effect m index field rowIDOrBits ts H1). split; [done|]. auto.
  - eexists. split; [done|]. unfold purgePartition. assert ((0 <=? rowIDOrBits) = true) as -> by lia. by case_match.
Qed.

(** ** Histories *)

(** The states of a node with the values its requests gave: from a start, requests are
    applied in any order, and queries fill the seed cache. *)
Inductive Reached (order : list bytes -> list bytes) (m0 : BitmapIndex B I) : BitmapIndex B I -> Cells -> Prop :=
  | reached_start : Reached order m0 m0 (shardValue m0)
  | reached_request m c r e m' : Reached order m0 m c -> requestEffect m r e -> requestAligned m r ->
      runRequest r m = (Ok (), m') -> Reached order m0 m' (applyEffect e c)
  | reached_query m c index query r m' : Reached order m0 m c -> answerable m index (pq_Query query) -> shardsAgree m ->
      Query order query m = (Ok r, m') -> Reached order m0 m' c.

(** Requests one after the other, each with its effect in the state it meets. *)
Inductive requestEffects : BitmapIndex B I -> list NodeRequest -> list Effect -> Prop :=
  | effects_nil m : requestEffects m [] []
  | effects_cons m r e rs es : requestEffect m r e -> requestEffects (runRequest r m).2 rs es ->
      requestEffects m (r :: rs) (e :: es).

Fixpoint runRequests (rs : list NodeRequest) : stgo (BitmapIndex B I) () :=
  match rs with
  | [] => mret ()
  | r :: rs => _ ← runRequest r; runRequests rs
  end.

Lemma applyEffect_ext e (c d : Cells) : (forall index field ts x, c index field ts x = d index field ts x) ->
  forall index field ts x, applyEffect e c index field ts x = applyEffect e d index field ts x.
Proof. intros Hcd index field ts x. destruct e; cbn [applyEffect]; rewrite Hcd; done. Qed.

Lemma applyEffects_ext es : forall (c d : Cells), (forall index field ts x, c index field ts x = d index field ts x) ->
  forall index field ts x, foldl (fun c e => applyEffect e c) c es index field ts x =
    foldl (fun c e => applyEffect e c) d es index field ts x.
Proof.
  induction es as [|e es IH]; intros c d Hcd; [done|]. cbn [foldl]. apply IH. by apply applyEffect_ext.
Qed.

(** C16. Requests refine their effects: a sequence of value writes and clears, bulk clears,
    truncations and purges succeeds, and leaves in every shard the values that the effects
    give, one after the other: a written value replaces the row's value in its shard, a
    cleared row has none, all else is untouched; a write that a node neither holds nor owns
    is ignored. *)
Theorem requests_refine m rs es : requestEffects m rs es ->
  exists m', runRequests rs m = (Ok (), m') /\
    forall index field ts x, shardValue m' index field ts x =
      foldl (fun c e => applyEffect e c) (shardValue m) es index field ts x.
Proof.
  induction 1 as [m|m r e rs es Hr _ IH]; [by exists m|].
  destruct (request_effect m r e Hr) as (m1 & E & (Hv & _) & _). rewrite E in IH. cbn [snd] in IH.
  destruct IH as (m' & E' & Hv'). exists m'. cbn [runRequests foldl]. rewrite (bind_run _ _ _ _ _ E). split; [done|].
  intros index field ts x. rewrite Hv'. apply applyEffects_ext. exact Hv.
Qed.

(** Whatever requests and queries a node has served, its seed cache is coherent: every
    entry has exactly the rows of the shards in its window.  Its shards hold the values the
    requests gave. *)
Lemma history_coherent order m0 m c : (forall l, order l ≡ₚ l) -> seedsCoherent m0 ->
  Reached order m0 m c ->
  seedsCoherent m /\ forall index field ts x, shardValue m index field ts x = c index field ts x.
Proof.
  intros Ho H0'. induction 1 as [|m c r e m' _ [IHs IHv] He Ha E|m c index query r m' _ [IHs IHv] Ha Hag E].
  - done.
  - destruct (request_effect m r e He) as (m1 & E1 & (Hv & _) & Hs). rewrite E in E1. injection E1 as <-.
    split; [by apply Hs|]. intros index field ts x. rewrite Hv. by apply applyEffect_ext.
  - destruct (query_answers order m index query noPrior Ho Ha Hag IHs ltac:(by intros [? ?])) as (qr & seeds & ir & dataMap & Eq & Hs & _).
    unfold Query in E. rewrite Eq in E. injection E as _ <-. split; [done|]. exact IHv.
Qed.

(** ** Workers *)

Definition fragmentKey f : bytes * bytes * Z := (bf_IndexName f, bf_FieldName f, bf_Time f).

(** A value fragment a node can apply. *)
Definition valueFragment (schema : Node B) f : Prop := bf_IsBSI f = true /\ bf_IsClear f = false /\
  is_ok (newBSIBitmap schema (bf_IndexName f) (bf_FieldName f)) = true /\
  exists sent, MarshalBSI (B := B) (Some sent) = Ok (bf_BitData f).

Definition fragmentValues f (x : Z) : option Z :=
  match UnmarshalBSI (B := B) (NewDefaultBSI (B := B)) (bf_BitData f) with
  | Ok bsi => GetBigValue (B := B) bsi x
  | _ => None
  end.

(** The value of a row in the fragment's shard once the fragment is applied. *)
Definition writtenValue m f (x : Z) : option Z :=
  let old := shardValue m (bf_IndexName f) (bf_FieldName f) (bf_Time f) x in
  if takesFragment m f then match fragmentValues f x with Some v => Some v | None => old end else old.

(** A value fragment changes its own shard only. *)
Lemma update_frame m f : bf_IsClear f = false -> forall index field ts, (index, field, ts) <> fragmentKey f ->
  bsiShards (updateBSICache f m).2 index field !! ts = bsiShards m index field !! ts.
Proof.
  intros Hc index field ts Hne. unfold updateBSICache. rewrite Hc.
  assert (forall bsi, bsiShards (putBsiShard m (bf_IndexName f) (bf_FieldName f) (bf_Time f) bsi) index field !! ts =
    bsiShards m index field !! ts) as Hput by (intros bsi; by rewrite bsiShards_put, decide_False).
  repeat case_match; try done; apply Hput.
Qed.

Lemma apply_value m f : valueFragment (schemaOf m) f -> exists m', applyFragment f m = (Ok (), m') /\
  bi_tableCache m' = bi_tableCache m /\ Member m' = Member m /\
  (forall x, shardValue m' (bf_IndexName f) (bf_FieldName f) (bf_Time f) x = writtenValue m f x) /\
  (forall index field ts, (index, field, ts) <> fragmentKey f -> bsiShards m' index field !! ts = bsiShards m index field !! ts).
Proof.
  intros (Hb & Hc & Hk & sent & Hd). destruct (put_effect m f sent Hc Hk Hd) as (m' & E & (Hv & Ht & Hm) & _).
  exists m'. unfold applyFragment. rewrite Hb. split_and!; [done..| |].
  - intros x. rewrite Hv. unfold writtenValue, fragmentValues.
    destruct (UnmarshalBSI_Marshal (B := B) sent) as (data & new & Ed & Eu & Hnew). rewrite Hd in Ed. injection Ed as <-.
    rewrite Eu, Hnew. destruct (takesFragment m f); [|done]. cbn [applyEffect]. by rewrite decide_True.
  - intros index field ts Hne. pose proof (update_frame m f Hc index field ts Hne) as Hf. by rewrite E in Hf.
Qed.

(** A fragment meets the same shard and owner after fragments for other shards. *)
Lemma writtenValue_frame m m' f : Member m' = Member m ->
  bsiShards m' (bf_IndexName f) (bf_FieldName f) !! bf_Time f = bsiShards m (bf_IndexName f) (bf_FieldName f) !! bf_Time f ->
  forall x, writtenValue m' f x = writtenValue m f x.
Proof. intros Hm Hs x. unfold writtenValue, takesFragment, shardValue. by rewrite Hm, Hs. Qed.

Lemma drained_values s s' : rtc workerStep s s' -> ns_queue s' = [] ->
  let m := ns_index s in let q := ns_queue s in
  NoDup (map fragmentKey q) -> Forall (valueFragment (schemaOf m)) q ->
  (forall f x, f ∈ q -> shardValue (ns_index s') (bf_IndexName f) (bf_FieldName f) (bf_Time f) x = writtenValue m f x) /\
  (forall index field ts, (index, field, ts) ∉ map fragmentKey q ->
     bsiShards (ns_index s') index field !! ts = bsiShards m index field !! ts).
Proof.
  induction 1 as [s|s s1 s' Hstep _ IH]; intros Hempty; cbn zeta.
  - rewrite Hempty. split; [by intros f x ?%elem_of_nil|done].
  - destruct Hstep as [m m1 q1 g q2 Eg]. cbn [ns_index ns_queue] in *. intros Hnd Hq.
    assert (valueFragment (schemaOf m) g) as Hg by (by apply Forall_app in Hq as [_ [? _]%Forall_cons]).
    destruct (apply_value m g Hg) as (m1' & Eg' & Ht & Hm & Hv & Hframe). rewrite Eg in Eg'. injection Eg' as <-.
    rewrite fmap_app, fmap_cons in Hnd. apply NoDup_app in Hnd as (Hn1 & Hdis & [Hgn Hn2]%NoDup_cons).
    assert (fragmentKey g ∉ map fragmentKey (q1 ++ q2)) as Hgq
      by (rewrite map_app; intros [Hk|Hk]%elem_of_app; [by apply (Hdis _ Hk); left|done]).
    destruct (IH Hempty) as [IHv IHf].
    { rewrite fmap_app. apply NoDup_app. split_and!; [done| |done]. intros k Hk1 Hk2. apply (Hdis k Hk1). by right. }
    { unfold schemaOf in *. rewrite Ht. apply Forall_app. apply Forall_app in Hq as [? [_ ?]%Forall_cons]. done. }
    assert (forall f, f ∈ q1 ++ q2 -> fragmentKey f <> fragmentKey g) as Hne.
    { intros f Hf E. apply Hgq. rewrite <- E. by apply list_elem_of_fmap_2. }
    split.
    + intros f x Hf. assert (f = g \/ f ∈ q1 ++ q2) as [->|Hf']
        by (rewrite elem_of_app in Hf |- *; rewrite elem_of_cons in Hf; tauto).
      * unfold shardValue. rewrite IHf by done. apply Hv.
      * rewrite IHv by done. apply writtenValue_frame; [done|]. apply Hframe, (Hne f Hf').
    + intros index field ts Hk. rewrite map_app in Hk. cbn [map] in Hk.
      rewrite not_elem_of_app, not_elem_of_cons in Hk. destruct Hk as (Hk1 & Hkg & Hk2).
      rewrite IHf by (rewrite map_app, not_elem_of_app; done). by apply Hframe.
Qed.

Lemma can_drain m q : Forall (valueFragment (schemaOf m)) q ->
  exists m', rtc workerStep (mkNodeState m q) (mkNodeState m' []).
Proof.
  revert m. induction q as [|f q IH]; intros m Hq; [by exists m|]. apply Forall_cons in Hq as [Hf Hq].
  destruct (apply_value m f Hf) as (m1 & E & Ht & _). destruct (IH m1) as [m' Hm'].
  { unfold schemaOf in *. by rewrite Ht. }
  exists m'. eapply rtc_l; [|exact Hm']. apply (worker_applies m m1 [] f q E).
Qed.

(** Workers drain a queue of value fragments for different shards to the same values
    in whatever order they take them: each shard has the values of its fragment, if the node
    takes it, and all other shards are as they were.  The queue can be drained. *)
Theorem drain_order_irrelevant m q : NoDup (map fragmentKey q) -> Forall (valueFragment (schemaOf m)) q ->
  (exists m', rtc workerStep (mkNodeState m q) (mkNodeState m' [])) /\
  forall m', rtc workerStep (mkNodeState m q) (mkNodeState m' []) ->
    (forall f x, f ∈ q -> shardValue m' (bf_IndexName f) (bf_FieldName f) (bf_Time f) x = writtenValue m f x) /\
    (forall index field ts x, (index, field, ts) ∉ map fragmentKey q ->
       shardValue m' index field ts x = shardValue m index field ts x).
Proof.
  intros Hnd Hq. split; [by apply can_drain|]. intros m' Hrun.
  destruct (drained_values _ _ Hrun eq_refl Hnd Hq) as [Hv Hf]. split; [exact Hv|].
  intros index field ts x Hk. unfold shardValue. by rewrite Hf.
Qed.

(** ** Standard bitmaps *)

Lemma clearAllRows_row m index field ts nbm index' field' rowID ts' x :
  shardRow (clearAllRows m index field ts nbm) index' field' rowID ts' x =
  shardRow m index' field' rowID ts' x &&
    negb (bool_decide ((index', field', ts') = (index, field, ts)) && Contains nbm x).
Proof.
  unfold shardRow, rowShards. cbn [clearAllRows withBitmapCache bi_bitmapCache].
  destruct (decide ((index', field') = (index, field))) as [E|E].
  - injection E as -> ->. rewrite lookup_alter_eq. destruct (bi_bitmapCache m !! (index, field)) as [rows|]; [|done]. cbn.
    rewrite lookup_fmap. destruct (rows !! rowID) as [shards|]; [|done]. cbn.
    destruct (decide (ts' = ts)) as [->|Hts].
    + rewrite lookup_alter_eq, bool_decide_true by done. destruct (shards !! ts); [|done]. cbn. by rewrite Contains_ClearBits.
    + rewrite lookup_alter_ne by done. rewrite bool_decide_false by congruence. by rewrite andb_true_r.
  - rewrite lookup_alter_ne by done. rewrite bool_decide_false by congruence. by rewrite andb_true_r.
Qed.

Lemma shardRow_put m index field rowID ts bits index' field' rowID' ts' x :
  shardRow (putRowShard m index field rowID ts bits) index' field' rowID' ts' x =
  if decide ((index', field', rowID', ts') = (index, field, rowID, ts)) then Contains bits x
  else shardRow m index' field' rowID' ts' x.
Proof. unfold shardRow. rewrite rowShards_put. by case_decide. Qed.

(** The node has the row's shard, or owns it. *)
Definition takesRows m f : bool :=
  let rowID := wrap_u 64 (bf_RowIDOrBits f) in
  bool_decide (is_Some (rowShards m (bf_IndexName f) (bf_FieldName f) rowID !! bf_Time f)) ||
  Member m (bitmapHashKey (bf_IndexName f) (bf_FieldName f) rowID (bf_Time f)).

Lemma clearAllRows_present m index field ts nbm rowID :
  is_Some (rowShards (clearAllRows m index field ts nbm) index field rowID !! ts) <->
  is_Some (rowShards m index field rowID !! ts).
Proof.
  unfold rowShards. cbn [clearAllRows withBitmapCache bi_bitmapCache]. rewrite lookup_alter_eq.
  destruct (bi_bitmapCache m !! (index, field)) as [rows|]; [|done]. cbn. rewrite lookup_fmap.
  destruct (rows !! rowID) as [shards|]; [|done]. cbn. by rewrite lookup_alter_eq, fmap_is_Some.
Qed.

(** An update of a field with one value per row is exclusive: afterwards each row of the
    fragment is in the bitmap of the new value and in no other bitmap of the field at that
    time (in none, on a node that neither has nor owns the bitmap), and all else is as it
    was. *)
Theorem row_update_exclusive m f data bits : bf_IsUpdate f = true -> bf_IsClear f = false ->
  bf_BitData f = [data] -> UnmarshalBinary data = Ok bits ->
  is_ok (getFieldConfig (schemaOf m) (bf_IndexName f) (bf_FieldName f)) = true ->
  exists m', updateBitmapCache f m = (Ok (), m') /\
    forall index field rowID ts x, shardRow m' index field rowID ts x =
      if bool_decide ((index, field, ts) = (bf_IndexName f, bf_FieldName f, bf_Time f)) && Contains bits x
      then takesRows m f && bool_decide (rowID = wrap_u 64 (bf_RowIDOrBits f))
      else shardRow m index field rowID ts x.
Proof.
  intros Hu Hc Hd Hb [attr Ha]%is_ok_true. unfold updateBitmapCache. rewrite Ha, Hd, Hb, Hu, Hc. cbn [andb].
  set (index0 := bf_IndexName f). set (field0 := bf_FieldName f). set (ts0 := bf_Time f).
  set (row0 := wrap_u 64 (bf_RowIDOrBits f)). set (m1 := clearAllRows m index0 field0 ts0 bits).
  pose proof (clearAllRows_present m index0 field0 ts0 bits row0) as Hpres. fold m1 in Hpres.
  assert (takesRows m f = bool_decide (is_Some (rowShards m1 index0 field0 row0 !! ts0)) ||
    Member m1 (bitmapHashKey index0 field0 row0 ts0)) as ->.
  { unfold takesRows. f_equal. apply bool_decide_ext. by rewrite Hpres. }
  assert (forall index field rowID ts x, shardRow m1 index field rowID ts x =
    if bool_decide ((index, field, ts) = (index0, field0, ts0)) && Contains bits x then false
    else shardRow m index field rowID ts x) as Hm1.
  { intros index field rowID ts x. unfold m1. rewrite clearAllRows_row. case_if; cbn; by rewrite ?andb_false_r, ?andb_true_r. }
  clearbody m1.
  assert (forall bits' : B, (forall x, Contains bits' x = shardRow m1 index0 field0 row0 ts0 x || Contains bits x) ->
    forall index field rowID ts x, shardRow (putRowShard m1 index0 field0 row0 ts0 bits') index field rowID ts x =
      if bool_decide ((index, field, ts) = (index0, field0, ts0)) && Contains bits x then bool_decide (rowID = row0)
      else shardRow m index field rowID ts x) as Hput.
  { intros bits' Hbits index field rowID ts x. rewrite shardRow_put. case_decide as Hkey.
    - injection Hkey as -> -> -> ->. rewrite Hbits, Hm1, !(bool_decide_true (_ = _)) by done. cbn [andb].
      destruct (Contains bits x); [done|]. by rewrite orb_false_r.
    - rewrite Hm1. destruct (bool_decide _ && _) eqn:E; [|done]. symmetry. apply bool_decide_eq_false. intros ->.
      apply andb_true_iff in E as [Ek%bool_decide_eq_true _]. congruence. }
  destruct (rowShards m1 index0 field0 row0 !! ts0) as [existBm|] eqn:Es.
  - eexists. split; [done|]. rewrite bool_decide_true by by eexists. apply Hput. intros x. rewrite Contains_ParOr. cbn.
    unfold shardRow. by rewrite Es, orb_false_r.
  - rewrite bool_decide_false by by intros [? ?]. cbn [orb]. destruct (Member m1 _); cbn [negb].
    + eexists. split; [done|]. apply Hput. intros x. unfold shardRow. by rewrite Es.
    + eexists. split; [done|]. intros. rewrite Hm1. by case_if.
Qed.

(** Clearing rows of a bitmap that a node does not have sets them: the fragment's rows,
    which were not there, are in the bitmap afterwards. *)
Theorem clear_absent_sets_rows m f data bits x : bf_IsUpdate f = false -> bf_IsClear f = true ->
  bf_BitData f = [data] -> UnmarshalBinary data = Ok bits ->
  is_ok (getFieldConfig (schemaOf m) (bf_IndexName f) (bf_FieldName f)) = true ->
  rowShards m (bf_IndexName f) (bf_FieldName f) (wrap_u 64 (bf_RowIDOrBits f)) !! bf_Time f = None ->
  Contains bits x = true ->
  exists m', updateBitmapCache f m = (Ok (), m') /\
    shardRow m (bf_IndexName f) (bf_FieldName f) (wrap_u 64 (bf_RowIDOrBits f)) (bf_Time f) x = false /\
    shardRow m' (bf_IndexName f) (bf_FieldName f) (wrap_u 64 (bf_RowIDOrBits f)) (bf_Time f) x = true.
Proof.
  intros Hu Hc Hd Hb [attr Ha]%is_ok_true Hn Hx. unfold updateBitmapCache. rewrite Ha, Hd, Hb, Hu, Hc. cbn [andb]. rewrite Hn.
  eexists. split; [done|]. split; [unfold shardRow; by rewrite Hn|]. by rewrite shardRow_put, decide_True.
Qed.

End Shards.

(** ** An example *)

Section Example.

#[local] Existing Instance listRoaring.
#[local] Existing Instance listRoaring_laws.
#[local] Existing Instance listRoaringOps.
#[local] Existing Instance listRoaringOps_laws.
#[local] Existing Instance listBSI.
#[local] Existing Instance listBSI_laws.
#[local] Existing Instance listBSISlices.
#[local] Existing Instance listBSISlices_laws.

Definition listWrites : BitmapWriteLib (list Z) (list (Z * Z)) := {|
  ClearBits found target := filter (fun x => Contains found x = false) (listRows target);
  ClearValues i found := filter (fun p => Contains found p.1 = false) i |}.

#[local] Existing Instance listWrites.

#[local] Instance listWrites_laws : BitmapWriteLaws (list Z) (list (Z * Z)).
Proof.
  split.
  - intros found target x. apply eq_true_iff_eq. rewrite andb_true_iff, negb_true_iff. apply list_Contains_filter.
  - intros i found x. cbn [ClearValues listWrites GetBigValue listBSI]. induction i as [|[y v] i IH].
    + by destruct (Contains found x).
    + rewrite filter_cons. cbn [fst]. case_decide as E; cbn [listValue]; rewrite IH.
      * case_decide as Ey; [|done]. destruct Ey as [-> _]. by rewrite E.
      * case_decide as Ey; [|done]. destruct Ey as [-> _]. apply not_false_iff_true in E. by rewrite E.
Qed.

Definition exampleField (name : bytes) : Attribute :=
  mkAttribute name name (str "Integer") (str "IntBSI") [] false false [].

Definition exampleTable : BasicTable :=
  mkBasicTable (str "users") (str "id") [] [] [exampleField (str "id"); exampleField (str "qty")]
    (Some {[str "id" := 0%nat; str "qty" := 1%nat]}).

Definition exampleNode : BitmapIndex (list Z) (list (Z * Z)) :=
  mkBitmapIndex {[str "users" := exampleTable]} ∅ ∅ ∅ (fun _ => true).

(** A write of values to a shard of qty, and a clear of one of its rows. *)
Definition valuesOf (i : list (Z * Z)) : list bytes := default [] (go_option (MarshalBSI (B := list Z) (Some i))).

Definition putQty (ts : Z) (i : list (Z * Z)) : BitmapFragment :=
  mkBitmapFragment (str "users") (str "qty") (-1) ts (valuesOf i) true false false.

Definition clearQty (ts : Z) (rows : list Z) : BitmapFragment :=
  mkBitmapFragment (str "users") (str "qty") (-1) ts [sliceBytes rows] true true false.

Definition exampleRequests : list NodeRequest :=
  [RFragment (putQty 0 [(1, -5); (2, 7)]); RFragment (putQty 0 [(1, 6)]); RFragment (clearQty 0 [2]);
   RBulkClear (str "users") (sliceBytes [1]) 0 1; RTruncate (str "users"); RPurge (str "users") (str "qty") (-1) 0].

Definition exampleEffects : list Effect :=
  [EPut (str "users") (str "qty") 0 (GetBigValue (B := list Z) [(1, -5); (2, 7)]);
   EPut (str "users") (str "qty") 0 (GetBigValue (B := list Z) [(1, 6)]);
   EErase (str "users") (str "qty") 0 (Contains [2]);
   EEraseAll (str "users") 0 1 (Contains [1]); EDropTable (str "users"); EDropShard (str "users") (str "qty") 0].

(** The same on an example. *)
Lemma requests_refine_witness :
  exists m', runRequests exampleRequests exampleNode = (Ok (), m') /\
    forall index field ts x, shardValue m' index field ts x =
      foldl (fun c e => applyEffect e c) (shardValue exampleNode) exampleEffects index field ts x.
Proof.
  apply (requests_refine exampleNode exampleRequests exampleEffects).
  constructor; [apply (effect_put _ (putQty 0 [(1, -5); (2, 7)]) [(1, -5); (2, 7)]); by vm_compute|].
  constructor; [apply (effect_put _ (putQty 0 [(1, 6)]) [(1, 6)]); by vm_compute|].
  constructor; [by apply (effect_erase _ (clearQty 0 [2]) (sliceBytes [2]))|].
  constructor; [by apply (effect_bulk _ (str "users") (sliceBytes [1]) 0 1 [1])|].
  do 2 (constructor; [by constructor|]). constructor.
Defined.

Lemma no_seeds (m : BitmapIndex (list Z) (list (Z * Z))) : bi_seedCache m = ∅ ->
  seedsCoherent m /\ forall index field ts, seedAligned m index field ts.
Proof.
  intros E. split; [intros index field fromTime toTime entry _ _ _ _|intros index field ts key entry]; by rewrite E.
Qed.

Definition exampleWritten : BitmapIndex (list Z) (list (Z * Z)) :=
  (applyFragment (putQty 0 [(1, -5); (2, 7)]) exampleNode).2.

Lemma exampleWritten_reached : Reached (fun l => l) exampleNode exampleWritten
  (applyEffect (EPut (str "users") (str "qty") 0 (GetBigValue (B := list Z) [(1, -5); (2, 7)])) (shardValue exampleNode)).
Proof.
  destruct (no_seeds exampleNode eq_refl) as [Hs Ha].
  eapply (reached_request _ _ exampleNode _ (RFragment (putQty 0 [(1, -5); (2, 7)]))); [constructor| |intros _; apply Ha|].
  - apply (effect_put _ (putQty 0 [(1, -5); (2, 7)]) [(1, -5); (2, 7)]); by vm_compute.
  - cbn [runRequest]. unfold exampleWritten. assert ((applyFragment (putQty 0 [(1, -5); (2, 7)]) exampleNode).1 = Ok ()) as E
      by by vm_compute. by rewrite <- E, <- surjective_pairing.
Qed.

Lemma exampleWritten_tables : bi_tableCache exampleWritten = bi_tableCache exampleNode.
Proof.
  destruct (put_effect exampleNode (putQty 0 [(1, -5); (2, 7)]) [(1, -5); (2, 7)]) as (m' & E & (_ & Ht & _) & _);
    [done|by vm_compute|by vm_compute|].
  unfold exampleWritten, applyFragment. cbn [putQty bf_IsBSI]. by rewrite E.
Qed.

Lemma putQty_value ts i : valueFragment (schemaOf exampleNode) (putQty ts i).
Proof. split_and!; [done..|by vm_compute|]. by exists i. Qed.

(** The same on an example. *)
Lemma drain_order_irrelevant_witness :
  let q := [putQty 0 [(1, -5)]; putQty 3600000000000 [(2, 7)]] in
  (exists m', rtc workerStep (mkNodeState exampleNode q) (mkNodeState m' [])) /\
  forall m', rtc workerStep (mkNodeState exampleNode q) (mkNodeState m' []) ->
    (forall f x, f ∈ q -> shardValue m' (bf_IndexName f) (bf_FieldName f) (bf_Time f) x = writtenValue exampleNode f x) /\
    (forall index field ts x, (index, field, ts) ∉ map fragmentKey q ->
       shardValue m' index field ts x = shardValue exampleNode index field ts x).
Proof.
  apply (drain_order_irrelevant exampleNode [putQty 0 [(1, -5)]; putQty 3600000000000 [(2, 7)]]).
  - apply (bool_decide_unpack _). by vm_compute.
  - do 2 (constructor; [by apply putQty_value|]). constructor.
Defined.

(** A bitmap field, with a row set. *)
Definition flagTable : BasicTable :=
  mkBasicTable (str "users") (str "id") [] []
    [exampleField (str "id"); mkAttribute (str "flag") (str "flag") (str "String") (str "StringEnum") [] false false []]
    (Some {[str "id" := 0%nat; str "flag" := 1%nat]}).

Definition flagNode : BitmapIndex (list Z) (list (Z * Z)) :=
  mkBitmapIndex {[str "users" := flagTable]} {[(str "users", str "flag") := {[1 := {[0 := [10; 11]]}]}]} ∅ ∅ (fun _ => true).

Definition flagFragment (row : Z) (clear update : bool) : BitmapFragment :=
  mkBitmapFragment (str "users") (str "flag") row 0 [sliceBytes [11]] false clear update.

(** The same on an example. *)
Lemma row_update_exclusive_witness :
  exists m', updateBitmapCache (flagFragment 2 false true) flagNode = (Ok (), m') /\
    forall index field rowID ts x, shardRow m' index field rowID ts x =
      if bool_decide ((index, field, ts) = (str "users", str "flag", 0)) && Contains [11] x
      then takesRows flagNode (flagFragment 2 false true) && bool_decide (rowID = wrap_u 64 2)
      else shardRow flagNode index field rowID ts x.
Proof. by apply (row_update_exclusive flagNode (flagFragment 2 false true) (sliceBytes [11]) [11]). Defined.

(** The same on an example. *)
Lemma clear_absent_sets_rows_witness :
  exists m', updateBitmapCache (flagFragment 2 true false) flagNode = (Ok (), m') /\
    shardRow flagNode (str "users") (str "flag") (wrap_u 64 2) 0 11 = false /\
    shardRow m' (str "users") (str "flag") (wrap_u 64 2) 0 11 = true.
Proof. by apply (clear_absent_sets_rows flagNode (flagFragment 2 true false) (sliceBytes [11]) [11] 11). Defined.

End Example.
