(* ===== verification/ClientQuery.v ===== *)
(** * Queries across nodes

    The client's side of a query (shared/clientquery.go): splitting by table, sending the
    whole query or one fragment at a time to every active node, merging the bitmaps of the
    nodes slot by slot, and combining the merged bitmaps into the rows of the answer.

    A client works on an in-process node, or on the active nodes of a cluster.  The calls
    to the nodes run concurrently and their results arrive in any order; here they run in
    the order of the list, and the first error of the list is the one returned.  Random
    sampling is an argument. *)

From S2P Require Import Prelude GoStd GoState GoTime Catalog Sequencer Bitmaps BitmapQuery NodeQuery NodeExact.

(** The library operations of the join on foreign keys. *)
Class TransposeLib (B I : Type) : Type := {
  TransposeWithCounts : I -> B -> B -> I;
  BSI_MarshalBinary : I -> go bytes;
  BSI_UnmarshalBinary : bytes -> go I;
  BSI_Add : I -> I -> I }.

(** [bc_local] is the in-process node, if there is one; [bc_active] the active nodes. *)
Record Client (B I : Type) : Type := mkClient {
  bc_local : option (BitmapIndex B I);
  bc_active : list (BitmapIndex B I) }.
Arguments mkClient {B I}.
Arguments bc_local {B I}.
Arguments bc_active {B I}.

Section Client.

Context {B I : Type} `{Roaring B} `{!RoaringOps B} `{!BSILib B I} `{!TransposeLib B I}.

(** The order of map iteration on the nodes, and the random sampling of the client. *)
Variable order : list bytes -> list bytes.
Variable PerformStratifiedSampling : list B -> Z -> list B.

(** ** The shape of the query *)

Fixpoint firstIntersectToUnion (q : list PbFragment) : list PbFragment :=
  match q with
  | [] => []
  | v :: q => if decide (pf_Operation v = INTERSECT) then withOperation v UNION :: q
              else v :: firstIntersectToUnion q
  end.

(** A query needs a union: the first intersection becomes one, unless the query has a
    union or a null check. *)
Definition ensureBitmapQueryHasUnion (q : list PbFragment) : list PbFragment :=
  if existsb (fun v => bool_decide (pf_Operation v = UNION) || pf_NullCheck v) q then q
  else firstIntersectToUnion q.

Definition distributedFragmentFanoutEligibleFragment (f : PbFragment) : bool :=
  match pf_Operation f with INTERSECT | UNION => true | _ => false end &&
  negb (pf_OrContext f || negb (float32Zero (pf_SamplePct f))) &&
  negb ((pf_NullCheck f || pf_Negate f) && negb (pf_NullCheck f && pf_Negate f)).

Definition distributedFragmentFanoutEligible (q : list PbFragment) : bool :=
  negb (zlen q <=? 1) && forallb distributedFragmentFanoutEligibleFragment q.

Definition bitmapQueryShouldUseFragmentFanout (q : list PbFragment) (disableFragmentFanout : bool) : bool :=
  negb disableFragmentFanout && distributedFragmentFanoutEligible q.

(** The last fragment with an identifier counts; fragments without one are not found. *)
Definition fragmentById (q : list PbFragment) (id : bytes) : option PbFragment :=
  if decide (id = []) then None else last (filter (fun f => pf_Id f = id) q).

(** Depth first, parents first; [None] when a fragment is met twice or is missing.  The
    fuel is the depth: a deeper walk meets a fragment twice. *)
Fixpoint walkFragments (fuel : nat) (q : list PbFragment) (f : PbFragment)
    (st : gset bytes * list PbFragment) : option (gset bytes * list PbFragment) :=
  match fuel with
  | O => None
  | S fuel =>
    let '(seen, out) := st in
    if bool_decide (pf_Id f <> []) && bool_decide (pf_Id f ∈ seen) then None
    else
      let seen := if decide (pf_Id f = []) then seen else {[ pf_Id f ]} ∪ seen in
      foldl (fun st c => st ← st; child ← fragmentById q c; walkFragments fuel q child st)
        (Some (seen, out ++ [f])) (pf_ChildrenIds f)
  end.

(** The fragments in the order of the walk from the root, when they form one tree. *)
Definition flattenBitmapQueryFragments (q : list PbFragment) : list PbFragment :=
  let named := filter (fun f => pf_Id f <> []) q in
  let childIDs := concat (map pf_ChildrenIds q) in
  match filter (fun f => pf_Id f ∉ childIDs) named with
  | [root] =>
    match walkFragments (S (length q)) q root (∅, []) with
    | Some (_, flattened) => if decide (length flattened = length q) then flattened else q
    | None => q
    end
  | _ => q
  end.

(** The fragments of each table, in order of first appearance. *)
Fixpoint addToGroup (groups : list (bytes * list PbFragment)) (f : PbFragment)
    : list (bytes * list PbFragment) :=
  match groups with
  | [] => [(pf_Index f, [f])]
  | (index, fs) :: groups =>
    if decide (index = pf_Index f) then (index, fs ++ [f]) :: groups
    else (index, fs) :: addToGroup groups f
  end.

Definition groupQueryFragmentsByIndex (q : list PbFragment) : list (bytes * list PbFragment) :=
  foldl addToGroup [] q.

(** ** Combining bitmaps *)

Definition intermediateResultFinalBitmap (r : IntermediateResult B) : B :=
  let final := default NewBitmap (im_union r) in
  let final := if GetCardinality final =? 0 then default final (im_existence r) else final in
  let final := if decide (im_orDifferences r = []) then final
               else ParOr (map (AndNot final) (im_orDifferences r)) in
  let final := if decide (im_andDifferences r = []) then final
               else AndNot final (ParOr (im_andDifferences r)) in
  if decide (im_intersects r = []) then final else FastAnd (final :: im_intersects r).

Definition maxIntermediateBitmapSlots (results : list (IntermediateResult B))
    (selectSlots : IntermediateResult B -> list B) : nat :=
  foldl (fun n r => Nat.max n (length (selectSlots r))) 0%nat results.

Definition mergeIntermediateBitmapSlot (results : list (IntermediateResult B)) (slot : nat)
    (selectSlots : IntermediateResult B -> list B) : B :=
  let bitmaps := omap (fun r => selectSlots r !! slot) results in
  if decide (bitmaps = []) then NewBitmap else ParOr bitmaps.

Definition mergeSlots (results : list (IntermediateResult B)) (selectSlots : IntermediateResult B -> list B)
    : list B :=
  map (fun i => mergeIntermediateBitmapSlot results i selectSlots)
    (seq 0 (maxIntermediateBitmapSlots results selectSlots)).

(** ** Nodes *)

(** What a nil result is after the transport. *)
Definition emptyQueryResult : QueryResult := mkQueryResult [] [] [] [] 0 false [] 0.

(** The answer of one node through its client. *)
Definition queryClient (query : PbBitmapQuery) : stgo (BitmapIndex B I) QueryResult := fun m =>
  match Query order query m with
  | (Ok r, m) => (Ok (default emptyQueryResult r), m)
  | (Err e, m) => (Err (Errorf "%v.Query(_) = _, %v, node = %s" [AStr []; AErr e; AStr []]), m)
  | (Panic, m) => (Panic, m)
  end.

(** Every node is asked; the first failure of the list is the outcome. *)
Fixpoint queryNodes (query : PbBitmapQuery) (nodes : list (BitmapIndex B I))
    : go (list QueryResult) * list (BitmapIndex B I) :=
  match nodes with
  | [] => (Ok [], [])
  | m :: nodes =>
    let '(r, m) := queryClient query m in
    let '(rs, nodes) := queryNodes query nodes in
    (r ← r; rs ← rs; mret (r :: rs), m :: nodes)
  end.

(** The bitmaps of the same sample of different nodes. *)
Fixpoint addSample (sa : list (bytes * list B)) (key : bytes) (b : B) : list (bytes * list B) :=
  match sa with
  | [] => [(key, [b])]
  | (k, bs) :: sa => if decide (k = key) then (k, bs ++ [b]) :: sa else (k, bs) :: addSample sa key b
  end.

Definition rowSampleKey (rb : RowBitmap B) : bytes := Sprintf "%s/%d" [FStr (rb_Field rb); FInt (rb_RowID rb)].

(** The unions and existences of the nodes, with the samples drawn again for each node
    that asks for it. *)
Fixpoint summarize (samples : list B) (ra : list (IntermediateResult B)) : list B * list B :=
  match ra with
  | [] => ([], [])
  | v :: ra =>
    let '(samples, v) :=
      if float32Positive (im_SamplePct v) then
        let samples := PerformStratifiedSampling samples (im_SamplePct v) in
        (samples, foldl (if im_SampleIsUnion v then AddUnion else AddIntersect) v samples)
      else (samples, v) in
    let v := Collapse v in
    let '(aa, ae) := summarize samples ra in
    (option_list (im_union v) ++ aa,
     match im_existence v with
     | Some x => if 0 <? GetCardinality x then x :: ae else ae
     | None => ae
     end)
  end.

(** The results of the nodes as one. *)
Definition mergeResults (index : bytes) (ra : list (IntermediateResult B)) : IntermediateResult B :=
  let sa := foldl (fun sa ir => foldl (fun sa rb => addSample sa (rowSampleKey rb) (rb_Bits rb)) sa (im_samples ir))
              [] ra in
  let gr := NewIntermediateResult index in
  let gr := foldl AddIntersect gr (mergeSlots ra im_intersects) in
  let gr := foldl AddAndDifference gr (mergeSlots ra im_andDifferences) in
  let gr := foldl AddOrDifference gr (mergeSlots ra im_orDifferences) in
  let samples := map (fun p => ParOr p.2) sa in
  let gr := match ra with
            | first :: _ => setSampling gr (im_SamplePct first) (im_SampleIsUnion first)
            | [] => gr
            end in
  let '(aa, ae) := summarize samples ra in
  AddExistence (AddUnion gr (ParOr aa)) (ParOr ae).

Definition queryGroupWholeFanout (index : bytes) (query : PbBitmapQuery)
    : stgo (Client B I) (IntermediateResult B) := fun c =>
  if decide (bc_active c = []) then (Err (Errorf "queryGroup: no active bitmap nodes" []), c)
  else
    let '(rs, nodes) := queryNodes query (bc_active c) in
    (rs ← rs; ra ← mapM (UnmarshalAndAdd (NewIntermediateResult index)) rs; mret (mergeResults index ra),
     mkClient (bc_local c) nodes).

(** A fragment on its own, without children. *)
Definition singleFragment (f : PbFragment) : PbFragment :=
  mkPbFragment (pf_Index f) (pf_Field f) (pf_RowID f) (pf_Id f) [] (pf_Operation f) (pf_BsiOp f)
    (pf_Value f) (pf_Begin f) (pf_End f) (pf_Fk f) (pf_Values f) (pf_SamplePct f)
    (pf_NullCheck f) (pf_Negate f) (pf_OrContext f).

Fixpoint fanoutFragments (index : bytes) (fromTime toTime : Z) (group : IntermediateResult B)
    (q : list PbFragment) : stgo (Client B I) (IntermediateResult B) :=
  match q with
  | [] => mret group
  | f :: q =>
    result ← queryGroupWholeFanout index (mkPbBitmapQuery [singleFragment f] fromTime toTime);
    let bitmap := intermediateResultFinalBitmap (Collapse result) in
    match pf_Operation f with
    | UNION => fanoutFragments index fromTime toTime (AddUnion group bitmap) q
    | INTERSECT => fanoutFragments index fromTime toTime (AddIntersect group bitmap) q
    | op => lift (Err (Errorf "queryGroupFragmentFanout: unsupported operation %s" [AStr (OpType_name op)]))
    end
  end.

Definition queryGroupFragmentFanout (index : bytes) (query : PbBitmapQuery)
    : stgo (Client B I) (IntermediateResult B) :=
  fanoutFragments index (pq_FromTime query) (pq_ToTime query) (NewIntermediateResult index)
    (flattenBitmapQueryFragments (ensureBitmapQueryHasUnion (pq_Query query))).

(** A nil result of the in-process node: its fields read as empty until the first that
    is read through the nil pointer. *)
Definition unmarshalLocal (index : bytes) (rs : option QueryResult) : go (IntermediateResult B) :=
  match rs with
  | Some rs => UnmarshalAndAdd (NewIntermediateResult index) rs
  | None => _ ← unmarshalError "unions" (UnmarshalBinary (B := B) []); Panic
  end.

Definition queryGroup (index : bytes) (query : PbBitmapQuery) (disableFragmentFanout : bool)
    : stgo (Client B I) (IntermediateResult B) := fun c =>
  match bc_local c with
  | Some m =>
    let '(result, m) := Query order query m in
    (result ← result; ir ← unmarshalLocal index result;
     let ir := Collapse ir in
     mret (SetCount ir (GetCardinality (intermediateResultFinalBitmap ir))),
     mkClient (Some m) (bc_active c))
  | None =>
    if bitmapQueryShouldUseFragmentFanout (pq_Query query) disableFragmentFanout
    then queryGroupFragmentFanout index query c
    else queryGroupWholeFanout index query c
  end.

(** ** Joins on foreign keys *)

Record JoinRequest : Type := mkJoinRequest {
  jr_DriverIndex : bytes;
  jr_FkFields : list bytes;
  jr_FromTime : Z;
  jr_ToTime : Z;
  jr_FoundSet : bytes;
  jr_FilterSets : list bytes;
  jr_Negate : bool }.

(** The index with the fewest rows; the first of several. *)
Definition minCardIndex (l : list I) : nat :=
  (foldl (fun '(i, best, minCard) bsi =>
     let c := BSI_GetCardinality bsi in
     if c <? minCard then (S i, i, c) else (S i, best, minCard))
     (0%nat, 0%nat, 2 ^ 64 - 1) l).1.2.

(** The node's part; an index without a filter set is out of range. *)
Definition nodeJoin (m : BitmapIndex B I) (req : JoinRequest) : go bytes :=
  if decide (jr_DriverIndex req = []) then Err (Errorf "Index not specified for join criteria" [])
  else if decide (jr_FkFields req = []) then Err (Errorf "FK Field(s) not specified for join criteria" [])
  else
    foundSet ← UnmarshalBinary (jr_FoundSet req);
    filterSets ← mapM (UnmarshalBinary (B := B)) (jr_FilterSets req);
    bsiArray ← mapM (fun v =>
      match timeRangeBSI m (jr_DriverIndex req) v (UnixUTC (jr_FromTime req)) (UnixUTC (jr_ToTime req))
              (Some foundSet) false true with
      | Err e => Err (Errorf "cannot find FK BSI for %s %s - %v" [AStr (jr_DriverIndex req); AStr v; AErr e])
      | r => r
      end) (jr_FkFields req);
    match bsiArray !! minCardIndex bsiArray, filterSets !! minCardIndex bsiArray with
    | Some bsi, Some filterSet =>
      BSI_MarshalBinary (B := B) (TransposeWithCounts bsi (GetExistenceBitmap bsi) filterSet)
    | _, _ => Panic
    end.

Definition joinResult (data : bytes) : go I :=
  match BSI_UnmarshalBinary (B := B) data with
  | Err e => Err (Errorf "Error unmarshalling join results - %v" [AErr e])
  | r => r
  end.

Definition Client_Join (c : Client B I) (driverIndex : bytes) (fklist : list bytes) (fromTime toTime : Z)
    (foundSet : B) (filterSets : list B) (negate : bool) : go I :=
  foundData ← MarshalBinary foundSet;
  fs ← mapM (MarshalBinary (B := B)) filterSets;
  let req := mkJoinRequest driverIndex fklist fromTime toTime foundData fs negate in
  match bc_local c with
  | Some m => data ← nodeJoin m req; joinResult data
  | None =>
    datas ← mapM (fun m =>
      match nodeJoin m req with
      | Err e => Err (Errorf "%v.Join(_) = _, %v, node = %s" [AStr []; AErr e; AStr []])
      | r => r
      end) (bc_active c);
    results ← mapM joinResult datas;
    mret (foldl (BSI_Add (B := B)) (NewDefaultBSI (B := B))
            (filter (fun bsi => 0 < BSI_GetCardinality (B := B) bsi) results))
  end.

(** ** The whole query *)

(** The foreign keys that the join fragments of a table name. *)
Definition groupFKs (index : bytes) (fs : list PbFragment) : IntermediateResult B :=
  foldl (fun ir f => if decide (pf_Operation f = INNER_JOIN) then AddFK ir (pf_Fk f) (pf_Field f) else ir)
    (NewIntermediateResult index) fs.

(** The result of a table's group added to what the table has. *)
Definition mergeGroup (ir rs : IntermediateResult B) : IntermediateResult B :=
  let ir := if CountSet rs then AddCount ir (Count rs) else ir in
  let ir := foldl AddIntersect ir (im_intersects rs) in
  let ir := AddSamples ir (im_samples rs) in
  let ir := foldl AddUnion ir (im_unions rs) in
  let ir := foldl AddAndDifference ir (im_andDifferences rs) in
  let ir := foldl AddOrDifference ir (im_orDifferences rs) in
  foldl AddExistence ir (im_existences rs).

Fixpoint queryGroups (groups : list (bytes * list PbFragment)) (fromTime toTime : Z) (disable : bool)
    : stgo (Client B I) (list (IntermediateResult B)) :=
  match groups with
  | [] => mret []
  | (index, fs) :: groups =>
    rs ← queryGroup index (mkPbBitmapQuery fs fromTime toTime) disable;
    rest ← queryGroups groups fromTime toTime disable;
    mret (Collapse (mergeGroup (groupFKs index fs) rs) :: rest)
  end.

(** One table at most has no foreign key. *)
Fixpoint selectDriver (driver : bytes) (results : list (IntermediateResult B)) : go bytes :=
  match results with
  | [] => Ok driver
  | v :: results =>
    if decide (im_joinFkList v = []) then
      if decide (driver <> []) then Err (Errorf "Must specify at least 1 join for index %s" [AStr (im_Index v)])
      else selectDriver (im_Index v) results
    else selectDriver driver results
  end.

(** The rows of a table that a join starts from. *)
Definition joinInput (v : IntermediateResult B) : B :=
  foldl (fun r x => FastAnd [x; r]) (default NewBitmap (im_union v)) (im_intersects v).

(** The second pass: the joins, each on the rows its table has at that point; the rows of a
    join are added to the table it leads to. *)
Definition joinStep (c : Client B I) (fromTime toTime : Z) (results : list (IntermediateResult B))
    (job : nat * FK) : go (list (IntermediateResult B)) :=
  let '(i, fk) := job in
  match results !! i, list_find (fun r => im_Index r = JoinIndex fk) results with
  | Some v, Some (j, fki) =>
    rs ← Client_Join c (im_Index v) [fk_Field fk] fromTime toTime (joinInput v) [] false;
    mret (<[j := AddIntersect fki (GetExistenceBitmap rs)]> results)
  | _, _ => Err (Errorf "Can't find FK %s" [AStr (JoinIndex fk)])
  end.

Definition performJoins (c : Client B I) (fromTime toTime : Z) (results : list (IntermediateResult B))
    : go (list (IntermediateResult B)) :=
  foldGo (joinStep c fromTime toTime) results
    (concat (imap (fun i v => map (fun fk => (i, fk)) (im_joinFkList v)) results)).

Definition joinGroups (fromTime toTime : Z) (results : list (IntermediateResult B))
    : stgo (Client B I) (list (IntermediateResult B)) :=
  fun c => (performJoins c fromTime toTime results, c).

(** The rows of the answer, from the bitmaps of the first pass. *)
Definition combine (results : list (IntermediateResult B)) : B :=
  let unions := omap im_union results in
  let existences := omap im_existence results in
  let andDifferences := concat (map im_andDifferences results) in
  let orDifferences := concat (map im_orDifferences results) in
  let intersects := concat (map im_intersects results) in
  let union := ParOr unions in
  let result := if GetCardinality union =? 0 then ParOr existences else union in
  let result := if decide (orDifferences = []) then result else ParOr (map (AndNot result) orDifferences) in
  let result := if decide (andDifferences = []) then result else AndNot result (ParOr andDifferences) in
  if decide (intersects = []) then result else FastAnd (intersects ++ [result]).

(** The count kept apart from the bitmap, when one table gave it. *)
Definition countOf (results : list (IntermediateResult B)) (result : B) : Z :=
  match results with
  | [v] => if CountSet v then Count v else GetCardinality result
  | _ => GetCardinality result
  end.

Definition query (q : PbBitmapQuery) (disableFragmentFanout : bool) : stgo (Client B I) (B * Z) :=
  if decide (pq_Query q = []) then lift (Err (Errorf "query must have at least 1 predicate" []))
  else
    let groups := groupQueryFragmentsByIndex (ensureBitmapQueryHasUnion (pq_Query q)) in
    results ← queryGroups groups (pq_FromTime q) (pq_ToTime q) disableFragmentFanout;
    _ ← lift (selectDriver [] results);
    _ ← joinGroups (pq_FromTime q) (pq_ToTime q) results;
    let result := combine results in
    mret (result, countOf results result).

(** The entry point: the message of a client's query. *)
Definition Client_Query (uuids : nat -> bytes) (q : BitmapQuery) : stgo (Client B I) (B * Z) :=
  query (ToProto uuids q) (bq_DisableFragmentFanout q).

(** Both branches list every row. *)
Definition ResultsQuery (q : PbBitmapQuery) (limit : Z) : stgo (Client B I) (list Z) :=
  '(result, _) ← query q false;
  mret (if limit <? GetCardinality result then ToArray result else ToArray result).

(** With the rows of an earlier step; only an in-process node can. *)
Definition Client_QueryWithFoundSet (uuids : nat -> bytes) (q : BitmapQuery) (index : bytes)
    (rownums : list Z) : stgo (Client B I) (option (B * Z)) := fun c =>
  match bc_local c with
  | None => (Ok None, c)
  | Some m =>
    let pq := ToProto uuids q in
    let '(result, m) :=
      QueryWithFoundSet order (mkPbBitmapQuery (ensureBitmapQueryHasUnion (pq_Query pq)) (pq_FromTime pq) (pq_ToTime pq))
        index rownums m in
    (result ← result; ir ← unmarshalLocal index result;
     let results := intermediateResultFinalBitmap (Collapse ir) in
     mret (Some (results, GetCardinality results)), mkClient (Some m) (bc_active c))
  end.

End Client.
