(* ===== verification/ClientExact.v ===== *)
(** * The rows of a query

    Conjunctions on one table: an in-process node returns exactly the rows that satisfy
    every fragment; fragments sent one at a time to the nodes of a cluster give the same
    rows; a whole query sent to every node gives no other rows. *)

From S2P Require Import Prelude GoStd GoState GoTime Catalog Sequencer Bitmaps BitmapQuery NodeQuery NodeExact ClientQuery.

(** ** Conjunctions *)

Section Conjunction.

(** What a fragment matches, and the rows of the table. *)
Variable M : PbFragment -> Z -> Prop.
Variable T : Z -> Prop.

(** The condition of a fragment in a conjunction: a null check holds for rows with a
    value when it is negated, and for rows without one otherwise. *)
Definition satisfies (v : PbFragment) (x : Z) : Prop :=
  if pf_NullCheck v then (if pf_Negate v then M v x else ~ M v x)
  else match pf_Operation v with DIFFERENCE => ~ M v x | _ => M v x end.

Definition conjunctive (q : list PbFragment) : Prop :=
  Forall (fun v => pf_Operation v = INTERSECT \/ pf_Operation v = DIFFERENCE) q.

(** Null checks and conjunctions of negations only are about the rows of the table. *)
Definition needsTable (q : list PbFragment) : bool :=
  existsb pf_NullCheck q || negb (existsb (fun v => bool_decide (pf_Operation v = INTERSECT)) q).

Definition answer (q : list PbFragment) (x : Z) : Prop :=
  (forall v, v ∈ q -> satisfies v x) /\ (needsTable q = true -> T x).

End Conjunction.

Section Combine.

Context {B I : Type} `{RoaringOpsLaws B} `{!BSILib B I}.

(** The rows of the bitmaps of a result. *)
Definition finalOf (union existence : B) (differences intersects : list B) (x : Z) : Prop :=
  Contains (if GetCardinality union =? 0 then existence else union) x = true /\
  (forall d, d ∈ differences -> Contains d x <> true) /\
  (forall i, i ∈ intersects -> Contains i x = true).

Lemma difference_rows (b : B) ds x :
  Contains (if decide (ds = []) then b else AndNot b (ParOr ds)) x = true <->
  Contains b x = true /\ forall d, d ∈ ds -> Contains d x <> true.
Proof.
  case_decide as E.
  - subst. split; [|tauto]. intros Hx. split; [done|]. by intros d ?%elem_of_nil.
  - rewrite AndNot_true, ParOr_true. naive_solver.
Qed.

Lemma intermediateResultFinal_rows (r : IntermediateResult B) u e x :
  im_union r = Some u -> im_existence r = Some e -> im_orDifferences r = [] ->
  Contains (intermediateResultFinalBitmap r) x = true <->
  finalOf u e (im_andDifferences r) (im_intersects r) x.
Proof.
  intros Eu Ee Eo. unfold intermediateResultFinalBitmap, finalOf. rewrite Eu, Ee, Eo.
  rewrite (decide_True (P := [] = [])) by done. cbn [default from_option id].
  change (from_option id NewBitmap (Some u)) with u. change (from_option id u (Some e)) with e.
  case_decide as Ei.
  - rewrite Ei, difference_rows. split; [|tauto]. intros [H1 H2]. split_and!; [done..|].
    by intros i ?%elem_of_nil.
  - rewrite FastAnd_true by done. setoid_rewrite elem_of_cons. split.
    + intros Hall. assert (Hb := Hall _ (or_introl eq_refl)). rewrite difference_rows in Hb.
      destruct Hb. split_and!; auto.
    + intros (H1 & H2 & H3) b [->|Hb]; [by apply difference_rows|by apply H3].
Qed.

Lemma combine_rows (r : IntermediateResult B) u e x :
  im_union r = Some u -> im_existence r = Some e -> im_orDifferences r = [] ->
  Contains (combine [r]) x = true <-> finalOf u e (im_andDifferences r) (im_intersects r) x.
Proof.
  intros Eu Ee Eo. unfold combine, finalOf. cbn [omap list_omap map concat]. rewrite Eu, Ee, Eo, !app_nil_r.
  rewrite (decide_True (P := [] = [])) by done.
  assert (forall x, Contains (if GetCardinality (ParOr [u]) =? 0 then ParOr [e] else ParOr [u]) x =
                    Contains (if GetCardinality u =? 0 then e else u) x) as Hbase.
  { intros y. assert (GetCardinality (ParOr [u]) = GetCardinality u) as -> by (apply GetCardinality_proper; intros ?; apply ParOr_single).
    case_if; apply ParOr_single. }
  case_decide as Ei.
  - rewrite Ei, difference_rows, Hbase. split; [|tauto]. intros [H1 H2]. split_and!; [done..|].
    by intros i ?%elem_of_nil.
  - rewrite FastAnd_true by (by destruct (im_intersects r)). setoid_rewrite elem_of_app.
    setoid_rewrite list_elem_of_singleton. split.
    + intros Hall. assert (Hb := Hall _ (or_intror eq_refl)). rewrite difference_rows, Hbase in Hb.
      destruct Hb. split_and!; auto.
    + intros (H1 & H2 & H3) b [Hb| ->]; [by apply H3|]. rewrite difference_rows, Hbase. done.
Qed.

(** ** The query that is sent *)

Lemma firstIntersect_cases q : firstIntersectToUnion q = q /\ (forall v, v ∈ q -> pf_Operation v <> INTERSECT) \/
  exists q1 v q2, q = q1 ++ v :: q2 /\ firstIntersectToUnion q = q1 ++ withOperation v UNION :: q2 /\
    pf_Operation v = INTERSECT /\ (forall w, w ∈ q1 -> pf_Operation w <> INTERSECT).
Proof.
  induction q as [|v q IH]; cbn [firstIntersectToUnion].
  - left. split; [done|]. by intros v ?%elem_of_nil.
  - case_decide as E.
    + right. exists [], v, q. split_and!; [done..|]. by intros w ?%elem_of_nil.
    + destruct IH as [[-> Hn]|(q1 & w & q2 & -> & -> & Ew & Hn)].
      * left. split; [done|]. intros w [->|Hw]%elem_of_cons; auto.
      * right. exists (v :: q1), w, q2. split_and!; [done..|]. intros w' [->|Hw]%elem_of_cons; auto.
Qed.

(** The fragments of a conjunction, with the first intersection as a union when there is
    one and no null check. *)
Lemma ensure_cases q : conjunctive q ->
  ensureBitmapQueryHasUnion q = q /\ needsTable q = true /\
    (existsb pf_NullCheck q = true \/ forall v, v ∈ q -> pf_Operation v <> INTERSECT) \/
  exists q1 v q2, q = q1 ++ v :: q2 /\ ensureBitmapQueryHasUnion q = q1 ++ withOperation v UNION :: q2 /\
    pf_Operation v = INTERSECT /\ needsTable q = false /\ existsb pf_NullCheck q = false.
Proof.
  intros Hc. unfold ensureBitmapQueryHasUnion, needsTable.
  assert (existsb (fun v => bool_decide (pf_Operation v = UNION) || pf_NullCheck v) q = existsb pf_NullCheck q) as ->.
  { induction Hc as [|v q Hv _ IH]; [done|]. cbn. rewrite IH. f_equal.
    destruct Hv as [-> | ->]; by rewrite bool_decide_false. }
  destruct (existsb pf_NullCheck q) eqn:En; [left; auto|]. cbn [orb].
  destruct (firstIntersect_cases q) as [[-> Hn]|(q1 & v & q2 & -> & -> & Ev & _)].
  - left. split; [done|]. split; [|auto]. apply negb_true_iff, not_true_iff_false.
    rewrite existsb_exists. intros (v & Hv%list_elem_of_In & Ev%bool_decide_eq_true). by apply (Hn v).
  - right. exists q1, v, q2. split_and!; [done..| |done]. apply negb_false_iff, existsb_exists. exists v.
    split; [apply list_elem_of_In, elem_of_app; right; left|by apply bool_decide_eq_true].
Qed.

(** ** From bitmaps to conditions *)

Lemma satisfies_kind (M : PbFragment -> Z -> Prop) v x : satisfies M v x <->
  match pf_Operation (nullCheckOperation v) with DIFFERENCE => ~ M v x | _ => M v x end.
Proof.
  unfold satisfies, nullCheckOperation, isExistenceSeedFragment. destruct (pf_NullCheck v) eqn:En; [|done].
  cbn [pf_Operation withOperation andb].
  destruct (pf_Negate v); cbn [andb]; [|done]. by case_bool_decide.
Qed.

(** The fragments that narrow the candidates match. *)
Definition narrowedBy (M : PbFragment -> Z -> Prop) (q : list PbFragment) (x : Z) : Prop :=
  forall v, v ∈ q -> queryFragmentCanUsePriorIntersect (nullCheckOperation v) = true -> M v x.

Lemma canUse_kind v : queryFragmentCanUsePriorIntersect v = true -> pf_Operation v = INTERSECT.
Proof. unfold queryFragmentCanUsePriorIntersect. intros E. b2p. by apply bool_decide_eq_true in H1. Qed.

Lemma elem_of_ofKind op v q : v ∈ ofKind op q <-> pf_Operation (nullCheckOperation v) = op /\ v ∈ q.
Proof. unfold ofKind. by rewrite list_elem_of_filter. Qed.

Lemma ofKind_sub op q : ofKind op q ⊆ q.
Proof. intros v Hv. by apply elem_of_ofKind in Hv as [_ ?]. Qed.

Lemma narrowed_intersects M q x : (forall v, v ∈ ofKind INTERSECT q -> M v x) -> narrowedBy M q x.
Proof. intros HI v Hv Hu%canUse_kind. apply HI. by apply elem_of_ofKind. Qed.

Section Rows.

Variables (M : PbFragment -> Z -> Prop) (P : PbFragment -> B -> Prop) (E : Z -> Prop).
Variables (index : bytes) (q : list PbFragment) (ir : IntermediateResult B) (x : Z).
Hypothesis Hir : answersBy P E index q ir.
Hypothesis sound : forall v b, P v b -> Contains b x = true -> M v x.
Hypothesis complete : forall v b, v ∈ q -> P v b -> narrowedBy M q x -> M v x -> Contains b x = true.
Hypothesis Hops : Forall (fun v => pf_Operation (nullCheckOperation v) ∈ [INTERSECT; UNION; DIFFERENCE]) q.

Lemma list_rows vs bs : vs ⊆ q -> Forall2 P vs bs -> narrowedBy M q x ->
  (forall b, b ∈ bs -> Contains b x = true) <-> (forall v, v ∈ vs -> M v x).
Proof.
  intros Hq Hvs Hn. split.
  - intros Hb v [i Hi]%list_elem_of_lookup. destruct (Forall2_lookup_l _ _ _ _ _ Hvs Hi) as (b & Hbi & Hp).
    apply (sound v b Hp), Hb. by eapply list_elem_of_lookup_2.
  - intros Hv b [i Hi]%list_elem_of_lookup. destruct (Forall2_lookup_r _ _ _ _ _ Hvs Hi) as (v & Hvi & Hp).
    assert (v ∈ vs) as Hin by by eapply list_elem_of_lookup_2. by apply (complete v b (Hq v Hin) Hp Hn), Hv.
Qed.

Lemma list_rows_sound vs bs : Forall2 P vs bs ->
  (forall b, b ∈ bs -> Contains b x = true) -> (forall v, v ∈ vs -> M v x).
Proof.
  intros Hvs Hb v [i Hi]%list_elem_of_lookup. destruct (Forall2_lookup_l _ _ _ _ _ Hvs Hi) as (b & Hbi & Hp).
  apply (sound v b Hp), Hb. by eapply list_elem_of_lookup_2.
Qed.

Lemma list_rows_out vs bs : vs ⊆ q -> Forall2 P vs bs -> narrowedBy M q x ->
  (forall b, b ∈ bs -> Contains b x <> true) <-> (forall v, v ∈ vs -> ~ M v x).
Proof.
  intros Hq Hvs Hn. split.
  - intros Hb v [i Hi]%list_elem_of_lookup Hm. destruct (Forall2_lookup_l _ _ _ _ _ Hvs Hi) as (b & Hbi & Hp).
    assert (v ∈ vs) as Hin by by eapply list_elem_of_lookup_2.
    apply (Hb b); [by eapply list_elem_of_lookup_2|by apply (complete v b (Hq v Hin))].
  - intros Hv b [i Hi]%list_elem_of_lookup Hx. destruct (Forall2_lookup_r _ _ _ _ _ Hvs Hi) as (v & Hvi & Hp).
    apply (Hv v); [by eapply list_elem_of_lookup_2|by apply (sound v b)].
Qed.

Lemma kinds_satisfied :
  (forall v, v ∈ q -> satisfies M v x) <->
  (forall v, v ∈ ofKind UNION q -> M v x) /\ (forall v, v ∈ ofKind INTERSECT q -> M v x) /\
  (forall v, v ∈ ofKind DIFFERENCE q -> ~ M v x).
Proof.
  setoid_rewrite satisfies_kind. setoid_rewrite elem_of_ofKind. split.
  - intros Hs. split_and!; intros v [Ev Hv]; specialize (Hs v Hv); by rewrite Ev in Hs.
  - intros (HU & HI & HD) v Hv. rewrite Forall_forall in Hops. specialize (Hops v Hv).
    destruct (pf_Operation (nullCheckOperation v)) eqn:Ev; [by apply HI|by apply HU|by apply HD|..];
      exfalso; by rewrite !elem_of_cons, elem_of_nil in Hops; destruct Hops as [?|[?|[?|?]]].
Qed.

(** The rows of a result, when its base is the unions and some condition [N]. *)
Lemma kinds_rows (N : Prop) u e :
  (Contains (if GetCardinality u =? 0 then e else u) x = true -> (forall v, v ∈ ofKind UNION q -> M v x) /\ N) ->
  (narrowedBy M q x -> (forall v, v ∈ ofKind UNION q -> M v x) -> N ->
     Contains (if GetCardinality u =? 0 then e else u) x = true) ->
  finalOf u e (im_andDifferences ir) (im_intersects ir) x <-> (forall v, v ∈ q -> satisfies M v x) /\ N.
Proof.
  intros Hb1 Hb2. rewrite kinds_satisfied. destruct Hir as [HI HD _ _ _ _ _ _ _]. unfold finalOf. split.
  - intros (Hb & Hd & Hi). destruct (Hb1 Hb) as [HU HN].
    pose proof (list_rows_sound _ _ HI Hi) as Hi'. pose proof (narrowed_intersects M q x Hi') as Hn.
    split; [|done]. split_and!; [done..|]. by apply (list_rows_out _ _ (ofKind_sub _ _) HD Hn).
  - intros [(HU & Hi & Hd) HN]. pose proof (narrowed_intersects M q x Hi) as Hn.
    split_and!; [by apply Hb2|by apply (list_rows_out _ _ (ofKind_sub _ _) HD Hn)|by apply (list_rows _ _ (ofKind_sub _ _) HI Hn)].
Qed.

End Rows.

Lemma nullCheck_conjunctive v : pf_Operation v = INTERSECT \/ pf_Operation v = DIFFERENCE ->
  pf_Operation (nullCheckOperation v) = INTERSECT \/ pf_Operation (nullCheckOperation v) = DIFFERENCE.
Proof.
  unfold nullCheckOperation, isExistenceSeedFragment. intros Hv. destruct (pf_NullCheck v); [|done].
  rewrite bool_decide_false by (intros E; rewrite E in Hv; by destruct Hv).
  rewrite andb_false_r. cbn. destruct (pf_Negate v); auto.
Qed.

Lemma conjunctive_no_union q : conjunctive q -> ofKind UNION q = [].
Proof.
  intros Hc. apply elem_of_nil_inv. intros v [Ev Hv]%elem_of_ofKind.
  pose proof (proj1 (Forall_forall _ _) Hc v Hv) as Hops%nullCheck_conjunctive. rewrite Ev in Hops.
  by destruct Hops.
Qed.

Lemma conjunctive_hasUnion q : conjunctive q -> hasUnion q = false.
Proof.
  intros Hc. unfold hasUnion. apply not_true_iff_false. rewrite existsb_exists.
  intros (v & Hv%list_elem_of_In & Ev%bool_decide_eq_true).
  pose proof (proj1 (Forall_forall _ _) Hc v Hv) as Hops. cbn in Hops. rewrite Ev in Hops. by destruct Hops.
Qed.

Lemma no_nullChecks q v : existsb pf_NullCheck q = false -> v ∈ q -> pf_NullCheck v = false.
Proof.
  intros En Hv%list_elem_of_In. apply not_true_iff_false. intros E. apply not_true_iff_false in En. apply En.
  apply existsb_exists. by exists v.
Qed.

Lemma ensure_ops q : conjunctive q ->
  Forall (fun v => pf_Operation (nullCheckOperation v) ∈ [INTERSECT; UNION; DIFFERENCE]) (ensureBitmapQueryHasUnion q).
Proof.
  intros Hc. assert (forall v, v ∈ q -> pf_Operation (nullCheckOperation v) ∈ [INTERSECT; UNION; DIFFERENCE]) as Hq.
  { intros v Hv. pose proof (proj1 (Forall_forall _ _) Hc v Hv) as [-> | ->]%nullCheck_conjunctive; set_solver. }
  apply Forall_forall. intros w Hw.
  destruct (ensure_cases q Hc) as [(Eq & _)|(q1 & v & q2 & -> & Eq & Ev & _ & Hnull)]; rewrite Eq in Hw; [by apply Hq|].
  apply elem_of_app in Hw as [Hw|[->|Hw]%elem_of_cons]; [apply Hq; set_solver| |apply Hq; set_solver].
  assert (pf_NullCheck v = false) as En by (apply (no_nullChecks _ v Hnull); set_solver).
  unfold nullCheckOperation. cbn. rewrite En. cbn. set_solver.
Qed.

(** The union made of an intersection is the only one, and no existence is asked for. *)
Lemma ensured_union q q1 v q2 : conjunctive q -> q = q1 ++ v :: q2 -> existsb pf_NullCheck q = false ->
  ofKind UNION (q1 ++ withOperation v UNION :: q2) = [withOperation v UNION] /\
  wantsExistence (q1 ++ withOperation v UNION :: q2) = false.
Proof.
  intros Hc Esplit Hnull. assert (pf_NullCheck v = false) as Env by (apply (no_nullChecks _ v Hnull); set_solver).
  split.
  - unfold ofKind. rewrite filter_app, filter_cons. subst q. apply Forall_app in Hc as [Hc1 [_ Hc2]%Forall_cons].
    rewrite decide_True by (unfold nullCheckOperation; cbn; by rewrite Env).
    fold (ofKind UNION q1) (ofKind UNION q2). by rewrite !conjunctive_no_union.
  - unfold wantsExistence. rewrite orb_false_iff, negb_false_iff. split.
    + apply existsb_exists. exists (withOperation v UNION). split; [apply list_elem_of_In; set_solver|done].
    + apply not_true_iff_false. rewrite existsb_exists. intros (w & Hw%list_elem_of_In & [Hn _]%andb_true_iff).
      assert (pf_NullCheck w = false); [|congruence].
      apply elem_of_app in Hw as [Hw|[->|Hw]%elem_of_cons];
        [apply (no_nullChecks q w Hnull); set_solver|done|apply (no_nullChecks q w Hnull); set_solver].
Qed.

(** Sending the first intersection as a union does not change the conditions. *)
Lemma ensure_satisfies M q x : (forall v op, M (withOperation v op) x <-> M v x) -> conjunctive q ->
  (forall v, v ∈ ensureBitmapQueryHasUnion q -> satisfies M v x) <-> (forall v, v ∈ q -> satisfies M v x).
Proof.
  intros HM Hc. destruct (ensure_cases q Hc) as [[-> _]|(q1 & v & q2 & Esplit & -> & Ev & _ & Hnull)]; [done|].
  assert (pf_NullCheck v = false) as Env by (apply (no_nullChecks _ v Hnull); set_solver). subst q.
  assert (satisfies M (withOperation v UNION) x <-> satisfies M v x) as Hv.
  { unfold satisfies. cbn [pf_NullCheck withOperation pf_Operation]. rewrite Env, Ev. apply HM. }
  setoid_rewrite elem_of_app. setoid_rewrite elem_of_cons.
  split; intros Hs w [Hw|[->|Hw]]; (try apply Hv); apply Hs; auto.
Qed.

(** The base of a conjunction: the rows of its union, or those of the table. *)
Lemma conjunction_base M P T q ir index x : conjunctive q ->
  answersBy P (fun x => wantsExistence (ensureBitmapQueryHasUnion q) = true /\ T x) index
    (ensureBitmapQueryHasUnion q) ir ->
  (forall v b, P v b -> Contains b x = true -> M v x) ->
  let union := ParOr (im_unions ir) in
  let base := if GetCardinality union =? 0 then ParOr (im_existences ir) else union in
  (Contains base x = true ->
     (forall v, v ∈ ofKind UNION (ensureBitmapQueryHasUnion q) -> M v x) /\ (needsTable q = true -> T x)) /\
  ((forall v b, v ∈ ofKind UNION (ensureBitmapQueryHasUnion q) -> P v b -> M v x -> Contains b x = true) ->
     (forall v, v ∈ ofKind UNION (ensureBitmapQueryHasUnion q) -> M v x) -> (needsTable q = true -> T x) ->
     Contains base x = true).
Proof.
  intros Hc Hir Hsound. cbn zeta. destruct (by_unions _ _ _ _ _ Hir) as (bs & Hbs & Ebs).
  pose proof (by_existence _ _ _ _ _ Hir x) as Hex.
  destruct (ensure_cases q Hc) as [(Eq & Hneed & _)|(q1 & v & q2 & Esplit & Eq & Ev & Hneed & Hnull)].
  - rewrite Eq in *. rewrite Hneed. rewrite (conjunctive_no_union q Hc) in *. apply Forall2_nil_inv_l in Hbs as ->.
    assert ((GetCardinality (ParOr (im_unions ir)) =? 0) = true) as ->
      by (apply Z.eqb_eq, GetCardinality_zero; intros y; by rewrite (Ebs y), ParOr_nil).
    assert (wantsExistence q = true) as Hw by (unfold wantsExistence; by rewrite (conjunctive_hasUnion q Hc)).
    rewrite Hex. split; [|tauto]. intros [_ HT]. split; [|done]. by intros v ?%elem_of_nil.
  - destruct (ensured_union q q1 v q2 Hc Esplit Hnull) as [Ekind Hw]. rewrite <- Eq in Ekind, Hw. rewrite Hneed.
    rewrite Ekind in Hbs |- *. apply Forall2_cons_inv_l in Hbs as (b & bs' & Hb & Hnil & ->).
    apply Forall2_nil_inv_l in Hnil as ->.
    assert (Contains (if GetCardinality (ParOr (im_unions ir)) =? 0 then ParOr (im_existences ir)
              else ParOr (im_unions ir)) x = Contains b x) as ->.
    { rewrite <- (ParOr_single b x), <- (Ebs x). case_if; [|done]. rewrite GetCardinality_zero in E.
      rewrite E. apply not_true_iff_false. rewrite Hex, Hw. by intros [? _]. }
    split.
    + intros Hx. split; [|done]. intros w ->%list_elem_of_singleton. by eapply Hsound.
    + intros Hu HU _. apply (Hu _ _ (list_elem_of_here _ _) Hb), HU, list_elem_of_here.
Qed.

(** The rows of a conjunction. *)
Lemma conjunction_rows M P T q ir index x :
  (forall v op, M (withOperation v op) x <-> M v x) -> conjunctive q ->
  answersBy P (fun x => wantsExistence (ensureBitmapQueryHasUnion q) = true /\ T x) index
    (ensureBitmapQueryHasUnion q) ir ->
  (forall v b, P v b -> Contains b x = true -> M v x) ->
  (forall v b, v ∈ ensureBitmapQueryHasUnion q -> P v b ->
     narrowedBy M (ensureBitmapQueryHasUnion q) x -> M v x -> Contains b x = true) ->
  finalOf (ParOr (im_unions ir)) (ParOr (im_existences ir)) (im_andDifferences ir) (im_intersects ir) x <->
  answer M T q x.
Proof.
  intros HM Hc Hir Hsound Hcomplete. unfold answer. rewrite <- (ensure_satisfies M q x HM Hc).
  destruct (conjunction_base M P T q ir index x Hc Hir Hsound) as [Hb1 Hb2].
  apply (kinds_rows M P _ index _ ir x Hir Hsound Hcomplete (ensure_ops q Hc)); [exact Hb1|].
  intros Hn HU HN. apply Hb2; [|done..]. intros v b Hv%ofKind_sub Hp. by apply (Hcomplete v b).
Qed.

(** No other rows, when the bitmaps of the negated fragments are complete. *)
Lemma conjunction_rows_sound M P T q ir index x :
  (forall v op, M (withOperation v op) x <-> M v x) -> conjunctive q ->
  answersBy P (fun x => wantsExistence (ensureBitmapQueryHasUnion q) = true /\ T x) index
    (ensureBitmapQueryHasUnion q) ir ->
  (forall v b, P v b -> Contains b x = true -> M v x) ->
  (forall v b, v ∈ ofKind DIFFERENCE (ensureBitmapQueryHasUnion q) -> P v b -> M v x -> Contains b x = true) ->
  finalOf (ParOr (im_unions ir)) (ParOr (im_existences ir)) (im_andDifferences ir) (im_intersects ir) x ->
  answer M T q x.
Proof.
  intros HM Hc Hir Hsound Hcomplete (Hb & Hd & Hi). unfold answer. rewrite <- (ensure_satisfies M q x HM Hc).
  destruct (conjunction_base M P T q ir index x Hc Hir Hsound) as [Hb1 _]. destruct (Hb1 Hb) as [HU HN].
  split; [|done]. apply kinds_satisfied; [by apply ensure_ops|]. split_and!; [done| |].
  - apply (list_rows_sound M P x Hsound _ _ (by_intersects _ _ _ _ _ Hir) Hi).
  - intros v Hv Hm. pose proof Hv as [i Hi']%list_elem_of_lookup.
    destruct (Forall2_lookup_l _ _ _ _ _ (by_differences _ _ _ _ _ Hir) Hi') as (b & Hbi & Hp).
    apply (Hd b); [by eapply list_elem_of_lookup_2|by apply (Hcomplete v)].
Qed.

End Combine.

(** ** One table *)

Section OneTable.

Context {B I : Type} `{RoaringOpsLaws B} `{!BSILib B I} `{!BSILaws B I} `{!TransposeLib B I}.
Context (order : list bytes -> list bytes) (sampling : list B -> Z -> list B).

Implicit Types (m : BitmapIndex B I) (q : list PbFragment) (c : Client B I).

(** The fragments as they are sent. *)
Definition sentAs (v w : PbFragment) : Prop := w = v \/ w = withOperation v UNION /\ pf_Operation v = INTERSECT.

Lemma ensure_sentAs q : Forall2 sentAs q (ensureBitmapQueryHasUnion q).
Proof.
  assert (forall q, Forall2 sentAs q q) as Hrefl by (intros q'; apply Forall_Forall2_diag, Forall_forall; by left).
  unfold ensureBitmapQueryHasUnion. case_if; [done|].
  destruct (firstIntersect_cases q) as [[-> _]|(q1 & v & q2 & -> & -> & Ev & _)]; [done|].
  apply Forall2_app; [done|]. constructor; [by right|done].
Qed.

Lemma sentAs_map {A} (f : PbFragment -> A) q q' : (forall v op, f (withOperation v op) = f v) ->
  Forall2 sentAs q q' -> map f q' = map f q.
Proof. intros Hf. induction 1 as [|v w q q' [->|[-> _]] _ IH]; cbn; [done|by rewrite IH|by rewrite Hf, IH]. Qed.

Lemma sentAs_forall (P : PbFragment -> Prop) q q' :
  (forall v, pf_Operation v = INTERSECT -> P v -> P (withOperation v UNION)) ->
  Forall2 sentAs q q' -> Forall P q -> Forall P q'.
Proof.
  intros HP. induction 1 as [|v w q q' Hvw _ IH]; [done|]. intros [Hv Hq]%Forall_cons. constructor; [|by apply IH].
  destruct Hvw as [->|[-> Ev]]; auto.
Qed.

Lemma plain_sent v : pf_Operation v = INTERSECT -> plainFragment (nullCheckOperation v) = true ->
  plainFragment (nullCheckOperation (withOperation v UNION)) = true.
Proof.
  unfold plainFragment, nullCheckOperation, isExistenceSeedFragment. cbn. intros Ev.
  destruct (pf_NullCheck v); cbn; rewrite ?Ev; destruct (pf_Negate v); cbn; auto.
Qed.

Lemma answerable_ensure m index q : answerable m index q -> answerable m index (ensureBitmapQueryHasUnion q).
Proof.
  pose proof (ensure_sentAs q) as Hs. intros [Hne Hev [[t Et] Hnd] Hpl Hfin Hlen Htab].
  pose proof (sentAs_map pf_Id _ _ (fun _ _ => eq_refl) Hs) as Eid.
  split; try done.
  - intros E. rewrite E in Hs. by apply Forall2_nil_inv_r in Hs.
  - by apply (sentAs_forall (evaluable m index) _ _ (fun _ _ Hv => Hv) Hs).
  - split; [exists t; by rewrite (sentAs_map links _ _ (fun _ _ => eq_refl) Hs)|by rewrite Eid].
  - by apply (sentAs_forall _ _ _ plain_sent Hs).
  - rewrite forallb_forall in Hfin |- *. setoid_rewrite <- list_elem_of_In in Hfin.
    setoid_rewrite <- list_elem_of_In. rewrite <- Forall_forall in Hfin |- *.
    by apply (sentAs_forall (fun v => float32Finite (pf_SamplePct v) = true) _ _ (fun _ _ Hv => Hv) Hs).
  - apply Forall2_length in Hs. unfold zlen in *. lia.
Qed.

Lemma ranged_ensure m fromTime toTime q : Forall (ranged m fromTime toTime) q ->
  Forall (ranged m fromTime toTime) (ensureBitmapQueryHasUnion q).
Proof. intros HR. eapply sentAs_forall; [|apply ensure_sentAs|exact HR]. done. Qed.

Lemma group_one q index : q <> [] -> (forall v, v ∈ q -> pf_Index v = index) ->
  groupQueryFragmentsByIndex q = [(index, q)].
Proof.
  intros Hne Hi. unfold groupQueryFragmentsByIndex. destruct q as [|v q]; [done|]. cbn [foldl addToGroup].
  rewrite (Hi v) by left. assert (forall w, w ∈ q -> pf_Index w = index) as Hq by (intros w Hw; apply Hi; by right).
  clear Hi Hne. change (v :: q) with ([v] ++ q). generalize [v]. induction q as [|w q IH]; intros l; cbn [foldl]; [by rewrite app_nil_r|].
  cbn [addToGroup]. rewrite decide_True by (symmetry; apply Hq; left). rewrite IH by (intros; apply Hq; by right).
  by rewrite <- app_assoc.
Qed.

Lemma foldl_AddUnion l (r : IntermediateResult B) : foldl AddUnion r l =
  mkIntermediateResult (im_Index r) (im_SamplePct r) (im_SampleIsUnion r) (im_unions r ++ l)
    (im_intersects r) (im_andDifferences r) (im_orDifferences r) (im_existences r)
    (im_samples r) (im_joinFkList r) (im_union r) (im_existence r) (im_count r).
Proof.
  revert r. induction l as [|b l IH]; intros r; cbn [foldl]; [by rewrite app_nil_r; destruct r|].
  rewrite IH. cbn. by rewrite <- app_assoc.
Qed.

Lemma foldl_AddExistence l (r : IntermediateResult B) : foldl AddExistence r l =
  mkIntermediateResult (im_Index r) (im_SamplePct r) (im_SampleIsUnion r) (im_unions r)
    (im_intersects r) (im_andDifferences r) (im_orDifferences r) (im_existences r ++ l)
    (im_samples r) (im_joinFkList r) (im_union r) (im_existence r) (im_count r).
Proof.
  revert r. induction l as [|b l IH]; intros r; cbn [foldl]; [by rewrite app_nil_r; destruct r|].
  rewrite IH. cbn. by rewrite <- app_assoc.
Qed.

Lemma groupFKs_none index q : (forall v, v ∈ q -> pf_Operation v <> INNER_JOIN) ->
  groupFKs (B := B) index q = NewIntermediateResult index.
Proof.
  intros Hq. unfold groupFKs. generalize (NewIntermediateResult (B := B) index).
  induction q as [|v q IH]; intros r; cbn [foldl]; [done|]. rewrite decide_False by (apply Hq; left).
  apply IH. intros w Hw. apply Hq. by right.
Qed.

(** A query on one table is the result of its group, combined. *)
Lemma query_one (q : PbBitmapQuery) c c' index disable rs : pq_Query q <> [] -> index <> [] ->
  (forall v, v ∈ ensureBitmapQueryHasUnion (pq_Query q) -> pf_Index v = index /\ pf_Operation v <> INNER_JOIN) ->
  queryGroup order sampling index
    (mkPbBitmapQuery (ensureBitmapQueryHasUnion (pq_Query q)) (pq_FromTime q) (pq_ToTime q)) disable c = (Ok rs, c') ->
  im_orDifferences rs = [] ->
  exists result, query order sampling q disable c =
      (Ok (result, match im_count rs with Some n => wrap_u 64 n | None => GetCardinality result end), c') /\
    forall x, Contains result x = true <->
      finalOf (ParOr (im_unions rs)) (ParOr (im_existences rs)) (im_andDifferences rs) (im_intersects rs) x.
Proof.
  intros Hne Hix Hv Hg Hor. unfold query. rewrite decide_False by done.
  rewrite (group_one _ index); [|intros E; pose proof (ensure_sentAs (pq_Query q)) as Hs; rewrite E in Hs;
    by apply Forall2_nil_inv_r in Hs|intros v Hin; by apply Hv].
  set (r := Collapse (mergeGroup (groupFKs index (ensureBitmapQueryHasUnion (pq_Query q))) rs)).
  assert (r = Collapse (mergeGroup (NewIntermediateResult index) rs)) as Er
    by (unfold r; rewrite groupFKs_none; [done|intros v Hin; by apply Hv]).
  assert (queryGroups order sampling [(index, ensureBitmapQueryHasUnion (pq_Query q))] (pq_FromTime q) (pq_ToTime q)
            disable c = (Ok [r], c')) as Egs by (cbn [queryGroups]; by rewrite (bind_run _ _ _ _ _ Hg)).
  rewrite (bind_run _ _ _ _ _ Egs). clear Egs.
  assert (im_joinFkList r = [] /\ im_Index r = index /\ im_orDifferences r = [] /\
    im_union r = Some (ParOr (im_unions rs)) /\ im_existence r = Some (ParOr (im_existences rs)) /\
    im_andDifferences r = im_andDifferences rs /\ im_intersects r = im_intersects rs /\
    im_count r = (wrap_u 64) <$> im_count rs) as (Efk & Ei & Eo & Eu & Ee & Ed & En & Ec).
  { rewrite Er. unfold mergeGroup, CountSet, Count. rewrite Hor. cbn [foldl].
    destruct (im_count rs); rewrite foldl_AddIntersect; cbn -[wrap_u Z.add]; rewrite foldl_AddUnion; cbn -[wrap_u Z.add];
      rewrite foldl_AddAndDifference; cbn -[wrap_u Z.add]; rewrite foldl_AddExistence; cbn -[wrap_u Z.add];
      rewrite ?Z.add_0_l; by split_and!. }
  assert (selectDriver [] [r] = Ok index) as Ed0
    by (cbn [selectDriver]; rewrite Efk, Ei, decide_True by done; by rewrite decide_False by (intros Hn; by apply Hn)).
  rewrite Ed0, bind_lift.
  exists (combine [r]). split.
  - unfold joinGroups, performJoins. cbn [imap]. rewrite Efk. cbn. unfold countOf, CountSet, Count. rewrite Ec.
    by destruct (im_count rs).
  - intros x. rewrite (combine_rows r _ _ x Eu Ee Eo), Ed, En. done.
Qed.

(** ** An in-process node *)

Lemma candidate_none index x : candidate index (noPrior (B := B)) x.
Proof. done. Qed.

Lemma answerable_ops m index q v : answerable m index q -> v ∈ q ->
  pf_Index v = index /\ pf_Operation v <> INNER_JOIN \/ pf_NullCheck v = true /\ pf_Index v = index.
Proof.
  intros [_ Hev _ Hpl _ _ _] Hv. pose proof (proj1 (Forall_forall _ _) Hev v Hv) as (Hi & _).
  pose proof (proj1 (Forall_forall _ _) Hpl v Hv) as Hp. cbn in Hp. unfold plainFragment, nullCheckOperation in Hp.
  destruct (pf_NullCheck v); [by right|]. left. split; [done|]. intros E. rewrite E, andb_false_r in Hp. done.
Qed.

Lemma conjunctive_sent q v : conjunctive q -> v ∈ ensureBitmapQueryHasUnion q -> pf_Operation v <> INNER_JOIN.
Proof.
  intros Hc Hv. assert (Forall (fun v => pf_Operation v <> INNER_JOIN) (ensureBitmapQueryHasUnion q)) as Hall.
  { eapply sentAs_forall; [|apply ensure_sentAs|]; [done|]. eapply Forall_impl; [exact Hc|]. intros w [-> | ->]; done. }
  exact (proj1 (Forall_forall _ _) Hall v Hv).
Qed.

Lemma matches_valued m fromTime toTime v x : pf_NullCheck v = false -> operands v <> [] ->
  matches m fromTime toTime v x -> valued m fromTime toTime v x.
Proof.
  intros En Ho. unfold matches. rewrite En. cbn [andb]. rewrite decide_True by (intros E; apply Ho; unfold operands; by rewrite E).
  intros (value & Hv & _). by exists value.
Qed.

(** One fragment among the candidates at most. *)
Lemma settled_alone m fromTime toTime index q x :
  (forall v w, v ∈ q -> w ∈ q -> queryFragmentCanUsePriorIntersect (nullCheckOperation v) = true ->
     queryFragmentCanUsePriorIntersect (nullCheckOperation w) = true -> v = w) ->
  settled m fromTime toTime index (noPrior (B := B)) q x.
Proof.
  intros Hone [(? & ? & _)|(v & Hv & Huv & Hm)] w Hw Huw Ho; [done|]. unfold usesFoundSet in Huw. cbn [pi_seeded noPrior] in Huw.
  rewrite <- (Hone v w Hv Hw Huv Huw) in Ho |- *. apply matches_valued; [|done..].
  pose proof (nullCheck_fields v) as (_ & _ & _ & <- & _). unfold queryFragmentCanUsePriorIntersect in Huv. b2p. done.
Qed.

(** Of two fragments one at most is evaluated among candidates. *)
Lemma narrowing_few q : conjunctive q -> (length q <= 2)%nat ->
  (length (filter (fun v => queryFragmentCanUsePriorIntersect (nullCheckOperation v) = true) (ensureBitmapQueryHasUnion q)) <= 1)%nat.
Proof.
  intros Hc Hl. assert (length (ensureBitmapQueryHasUnion q) = length q) as El
    by (symmetry; eapply Forall2_length, ensure_sentAs).
  destruct (decide (ensureBitmapQueryHasUnion q = [])) as [->|Hne]; [cbn; lia|].
  enough (exists f, f ∈ ensureBitmapQueryHasUnion q /\ queryFragmentCanUsePriorIntersect (nullCheckOperation f) <> true) as (f & Hf & Hu)
    by (pose proof (length_filter_lt (fun v => queryFragmentCanUsePriorIntersect (nullCheckOperation v) = true) _ f Hf Hu); lia).
  destruct (ensure_cases q Hc) as [(E & _ & [Hn|Hops])|(q1 & v & q2 & _ & E & _)]; rewrite E in Hne |- *.
  - apply existsb_exists in Hn as (f & Hf%list_elem_of_In & En). exists f. split; [done|]. intros Hu.
    pose proof (nullCheck_fields f) as (_ & _ & _ & En' & _). unfold queryFragmentCanUsePriorIntersect in Hu. b2p. congruence.
  - destruct q as [|f fs]; [done|]. exists f. split; [left|]. intros Hu. apply (Hops f); [left|].
    pose proof (canUse_kind _ Hu) as Ek. pose proof (nullCheck_fields f) as (_ & _ & _ & En' & _).
    unfold nullCheckOperation in Ek. unfold queryFragmentCanUsePriorIntersect in Hu. b2p. rewrite En' in *.
    destruct (pf_NullCheck f); done.
  - exists (withOperation v UNION). split; [set_solver|]. intros Hu. pose proof (canUse_kind _ Hu) as Ek.
    pose proof (nullCheck_fields (withOperation v UNION)) as (_ & _ & _ & En' & _).
    unfold nullCheckOperation in Ek. unfold queryFragmentCanUsePriorIntersect in Hu. b2p. rewrite En' in *.
    destruct (pf_NullCheck (withOperation v UNION)); done.
Qed.

Lemma usesFoundSet_kind seeded v : usesFoundSet seeded v = true -> pf_NullCheck v = false /\
  (pf_Operation (nullCheckOperation v) = INTERSECT \/ pf_Operation (nullCheckOperation v) = UNION).
Proof.
  pose proof (nullCheck_fields v) as (_ & _ & _ & <- & _).
  unfold usesFoundSet, queryFragmentCanUsePriorIntersect, queryFragmentCanUseSeededFoundSet.
  destruct seeded; intros Hu; b2p; split; try done; repeat match goal with H : bool_decide _ = true |- _ => apply bool_decide_eq_true in H end; auto.
Qed.

(** A row that satisfies the conjunction has the values it is asked for. *)
Lemma answer_settled m fromTime toTime index (T : Z -> Prop) prior q x : conjunctive q ->
  answer (matches m fromTime toTime) T q x ->
  settled (B := B) m fromTime toTime index prior (ensureBitmapQueryHasUnion q) x.
Proof.
  intros Hc [Hall _] _ w Hw [En Hk]%usesFoundSet_kind Ho.
  assert (forall v op, matches m fromTime toTime (withOperation v op) x <-> matches m fromTime toTime v x) as HM by done.
  pose proof (proj2 (ensure_satisfies _ q x HM Hc) Hall w Hw) as Hs.
  apply satisfies_kind in Hs. apply matches_valued; [done..|]. by destruct Hk as [E|E]; rewrite E in Hs.
Qed.

(** A conjunction on an in-process node: the rows that satisfy every fragment, and no
    other rows but candidates without a value. *)
Lemma local_query_rows m (q : PbBitmapQuery) index disable active : (forall l, order l ≡ₚ l) ->
  answerable m index (pq_Query q) -> conjunctive (pq_Query q) -> shardsAgree m -> seedsCoherent m ->
  let fromTime := UnixUTC (pq_FromTime q) in
  let toTime := UnixUTC (pq_ToTime q) in
  let meant := answer (matches m fromTime toTime) (inTable m fromTime toTime index) (pq_Query q) in
  Forall (ranged m fromTime toTime) (pq_Query q) ->
  exists result seeds,
    query order sampling q disable (mkClient (Some m) active) =
      (Ok (result, wrap_u 64 (GetCardinality result)), mkClient (Some (withSeedCache m seeds)) active) /\
    seedsCoherent (withSeedCache m seeds) /\
    forall x, (meant x -> Contains result x = true) /\
      (settled m fromTime toTime index noPrior (ensureBitmapQueryHasUnion (pq_Query q)) x ->
         Contains result x = true -> meant x).
Proof.
  intros Ho Ha Hc Hag Hs. cbn zeta. intros HR. pose proof (answerable_ensure m index _ Ha) as Ha'.
  set (q' := mkPbBitmapQuery (ensureBitmapQueryHasUnion (pq_Query q)) (pq_FromTime q) (pq_ToTime q)).
  destruct (query_answers order m index q' noPrior Ho Ha' Hag Hs ltac:(by intros [? ?])) as (qr & seeds & ir & dataMap & Eq & Hs' & Eir & Hans).
  apply answers_by in Hans. apply ranged_ensure in HR.
  set (ir1 := Collapse ir). set (rs := SetCount ir1 (GetCardinality (intermediateResultFinalBitmap ir1))).
  pose proof (by_or _ _ _ _ _ Hans) as Hor.
  assert (index <> []) as Hix by (destruct (an_table _ _ _ Ha) as (f & _ & Hk); apply Hk).
  destruct (query_one q (mkClient (Some m) active) (mkClient (Some (withSeedCache m seeds)) active) index disable rs)
    as (result & Er & Hr); [apply Ha|done| | |exact Hor|].
  { intros v Hv. split; [|by eapply conjunctive_sent]. pose proof (an_fragments _ _ _ Ha') as Hev.
    apply (proj1 (Forall_forall _ _) Hev v Hv). }
  { unfold queryGroup, Query. cbn [bc_local]. fold q'. rewrite Eq. cbn [mbind go_bind unmarshalLocal]. by rewrite Eir. }
  assert (forall x, Contains result x = true <-> Contains (intermediateResultFinalBitmap ir1) x = true) as Hsame.
  { intros x. rewrite Hr. symmetry. by apply (intermediateResultFinal_rows ir1). }
  exists result, seeds. split_and!; [|done|].
  - assert (GetCardinality (intermediateResultFinalBitmap ir1) = GetCardinality result) as Ecard
      by (apply GetCardinality_proper; intros x; apply eq_true_iff_eq; symmetry; apply Hsame).
    rewrite Er. unfold rs. cbn [im_count SetCount setFinal]. by rewrite Ecard.
  - intros x. rewrite Hr. unfold rs. cbn [SetCount setFinal im_unions im_existences im_andDifferences im_intersects].
    match goal with |- (?meant -> ?final) /\ (?sure -> _ -> _) => assert (sure -> final <-> meant) as Hiff end.
    { intros Hx. refine (conjunction_rows _ _ (inTable m _ _ index) _ ir index x _ Hc Hans _ _); [done|..].
      + intros v b Hsel. by apply (sel_sound _ _ _ _ _ _ _ _ (Hsel HR)).
      + intros v b _ Hsel Hn Hm. apply (sel_complete _ _ _ _ _ _ _ _ (Hsel HR)); [|done]. split; [apply candidate_none|exact Hn]. }
    split; [|tauto]. intros Hx. by apply Hiff; [eapply answer_settled|].
Qed.

End OneTable.
