(* ===== verification/Fanout.v ===== *)
(** * Queries on a cluster

    The whole query on every node, and one fragment at a time on every node
    (ClientQuery.v): the rows of the merged bitmaps, in terms of what the nodes hold
    together. *)

From S2P Require Import Prelude GoStd GoState GoTime Catalog Sequencer Bitmaps BitmapQuery NodeQuery NodeExact ClientQuery ClientExact.

(** ** Slots *)

Lemma Forall2_map_l {A C D} (f : A -> C) (R : C -> D -> Prop) l k :
  Forall2 (fun a d => R (f a) d) l k -> Forall2 R (map f l) k.
Proof. induction 1; cbn; by constructor. Qed.

Lemma at_most_one {A} (P : A -> Prop) `{!forall a, Decision (P a)} (l : list A) a b :
  (length (filter P l) <= 1)%nat -> a ∈ l -> P a -> b ∈ l -> P b -> a = b.
Proof.
  intros Hl Ha Hpa Hb Hpb. assert (a ∈ filter P l) as Ha' by by apply list_elem_of_filter.
  assert (b ∈ filter P l) as Hb' by by apply list_elem_of_filter.
  destruct (filter P l) as [|y [|z k]]; [by apply elem_of_nil in Ha'| |cbn in Hl; lia].
  apply list_elem_of_singleton in Ha' as ->. by apply list_elem_of_singleton in Hb' as ->.
Qed.

Lemma Forall2_right {A C} (R : A -> C -> Prop) (Q : C -> Prop) l k :
  (forall a d, R a d -> Q d) -> Forall2 R l k -> Forall Q k.
Proof. intros HQ. induction 1; constructor; eauto. Qed.

Section Slots.

Context {B : Type} `{RoaringOpsLaws B}.

Implicit Types (Ps : list (PbFragment -> B -> Prop)).

(** A bitmap merged from one bitmap per node. *)
Definition merged (Ps : list (PbFragment -> B -> Prop)) (v : PbFragment) (b : B) : Prop :=
  exists bs, Forall2 (fun P b => P v b) Ps bs /\ same_rows b (ParOr bs).

Lemma maxSlots_const (ra : list (IntermediateResult B)) sel n : ra <> [] ->
  Forall (fun r => length (sel r) = n) ra -> maxIntermediateBitmapSlots ra sel = n.
Proof.
  intros Hne Hall. unfold maxIntermediateBitmapSlots.
  assert (forall k, (k <= n)%nat -> foldl (fun n r => Nat.max n (length (sel r))) k ra =
                    if decide (ra = []) then k else n) as Hf; [|rewrite Hf by lia; by rewrite decide_False].
  clear Hne. induction Hall as [|r ra Hr _ IH]; intros k Hk; [done|]. cbn [foldl].
  rewrite IH by lia. rewrite (decide_False (P := r :: ra = [])) by done. case_decide; lia.
Qed.

Lemma slot_bitmaps Ps (ra : list (IntermediateResult B)) sel vs i v :
  Forall2 (fun P r => Forall2 P vs (sel r)) Ps ra -> vs !! i = Some v ->
  Forall2 (fun P b => P v b) Ps (omap (fun r => sel r !! i) ra).
Proof.
  intros Hall Hi. induction Hall as [|P r Ps ra Hr _ IH]; [constructor|].
  destruct (Forall2_lookup_l _ _ _ _ _ Hr Hi) as (b & Eb & Hb). cbn [omap list_omap]. rewrite Eb. by constructor.
Qed.

Lemma mergeSlots_merged Ps (ra : list (IntermediateResult B)) sel vs : ra <> [] ->
  Forall2 (fun P r => Forall2 P vs (sel r)) Ps ra -> Forall2 (merged Ps) vs (mergeSlots ra sel).
Proof.
  intros Hne Hall. unfold mergeSlots.
  rewrite (maxSlots_const ra sel (length vs) Hne).
  2: { clear Hne. induction Hall as [|P r Ps ra Hr _ IH]; constructor; [|done]. by apply Forall2_length in Hr. }
  apply Forall2_same_length_lookup. split; [by rewrite length_map, length_seq|].
  intros i v b Hi Hb. apply list_lookup_fmap_Some in Hb as (j & -> & Hj). apply lookup_seq in Hj as [-> _].
  pose proof (slot_bitmaps Ps ra sel vs i v Hall Hi) as Hs. unfold mergeIntermediateBitmapSlot.
  rewrite decide_False; [by eexists|]. intros E. cbn in E. rewrite E in Hs. apply Forall2_nil_inv_r in Hs as ->.
  by apply Forall2_nil_inv_l in Hall.
Qed.

(** Unions, transposed. *)
Lemma unions_merged Ps vs (bss : list (list B)) : Forall2 (fun P bs => Forall2 P vs bs) Ps bss ->
  exists cs, Forall2 (merged Ps) vs cs /\ same_rows (ParOr (map ParOr bss)) (ParOr cs).
Proof.
  revert bss. induction vs as [|v vs IH]; intros bss Hall.
  - exists []. split; [constructor|]. intros x. rewrite ParOr_nil. apply not_true_iff_false. rewrite ParOr_true.
    intros (b & (bs & -> & Hbs)%list_elem_of_fmap & Hx). apply list_elem_of_lookup in Hbs as [i Hi].
    destruct (Forall2_lookup_r _ _ _ _ _ Hall Hi) as (P & _ & Hnil). apply Forall2_nil_inv_l in Hnil as ->.
    by rewrite ParOr_nil in Hx.
  - assert (exists hs ts, Forall2 (fun P b => P v b) Ps hs /\ Forall2 (fun P bs => Forall2 P vs bs) Ps ts /\
              forall x, Contains (ParOr (map ParOr bss)) x = Contains (ParOr hs) x || Contains (ParOr (map ParOr ts)) x)
      as (hs & ts & Hh & Ht & Hx).
    { clear IH. induction Hall as [|P bs Ps bss Hbs _ (hs & ts & Hh & Ht & Hx)].
      - exists [], []. split_and!; [constructor..|]. intros x. cbn [map]. by rewrite ParOr_nil.
      - apply Forall2_cons_inv_l in Hbs as (b & bs' & Hb & Hbs' & ->). exists (b :: hs), (bs' :: ts).
        split_and!; [by constructor..|]. intros x. cbn [map]. rewrite !ParOr_cons, (Hx x).
        destruct (Contains b x), (Contains (ParOr bs') x), (Contains (ParOr hs) x); done. }
    destruct (IH ts Ht) as (cs & Hcs & Ecs). exists (ParOr hs :: cs). split.
    + constructor; [|done]. by exists hs.
    + intros x. by rewrite Hx, (Ecs x), ParOr_cons.
Qed.

End Slots.

(** ** The whole query on every node *)

Section Whole.

Context {B I : Type} `{RoaringOpsLaws B} `{!BSILib B I} `{!BSILaws B I} `{!TransposeLib B I}.
Context (order : list bytes -> list bytes) (sampling : list B -> Z -> list B).
Context (Ho : forall l, order l ≡ₚ l).

Implicit Types (m : BitmapIndex B I) (q : list PbFragment) (c : Client B I) (ms : list (BitmapIndex B I)).

(** A node that can answer the query, with its invariants. *)
Definition ready (index : bytes) q m : Prop := answerable m index q /\ shardsAgree m /\ seedsCoherent m.

(** Nodes that differ in their seed caches only. *)
Definition reseeded (ms ms' : list (BitmapIndex B I)) : Prop :=
  Forall2 (fun m m' => exists seeds, m' = withSeedCache m seeds /\ seedsCoherent m') ms ms'.

Definition selectsOn (fromTime toTime : Time) (index : bytes) q m : PbFragment -> B -> Prop :=
  fun v b => Forall (ranged m fromTime toTime) q -> selects m fromTime toTime index noPrior q v b.

Definition existenceOn (fromTime toTime : Time) (index : bytes) q m (x : Z) : Prop :=
  wantsExistence q = true /\ inTable m fromTime toTime index x.

Lemma queryNodes_answers (pq : PbBitmapQuery) index ms : Forall (ready index (pq_Query pq)) ms ->
  let fromTime := UnixUTC (pq_FromTime pq) in
  let toTime := UnixUTC (pq_ToTime pq) in
  exists rs ms' ra, queryNodes order pq ms = (Ok rs, ms') /\ reseeded ms ms' /\
    mapM (UnmarshalAndAdd (NewIntermediateResult index)) rs = Ok ra /\
    Forall2 (fun m r => answersBy (selectsOn fromTime toTime index (pq_Query pq) m)
      (existenceOn fromTime toTime index (pq_Query pq) m) index (pq_Query pq) r) ms ra.
Proof.
  intros Hms. cbn zeta. induction Hms as [|m ms (Ha & Hag & Hs) _ (rs & ms' & ra & Eq & Hre & Em & Hra)].
  { exists [], [], []. split_and!; [done|constructor|done|constructor]. }
  destruct (query_answers order m index pq noPrior Ho Ha Hag Hs ltac:(by intros [? ?])) as (qr & seeds & ir & dataMap & Eq1 & Hs1 & Eir & Hans).
  exists (qr :: rs), (withSeedCache m seeds :: ms'), (ir :: ra). split_and!.
  - cbn [queryNodes]. unfold queryClient, Query. rewrite Eq1, Eq. done.
  - constructor; [|done]. by exists seeds.
  - cbn [mapM]. rewrite Eir. cbn [mbind go_bind]. by rewrite Em.
  - constructor; [|done]. by apply answers_by in Hans.
Qed.

Lemma summarize_plain samples (ra : list (IntermediateResult B)) :
  Forall (fun r => float32Positive (im_SamplePct r) = false) ra ->
  let '(aa, ae) := summarize sampling samples ra in
  aa = map (fun r => ParOr (im_unions r)) ra /\
  same_rows (ParOr ae) (ParOr (map (fun r => ParOr (im_existences r)) ra)).
Proof.
  induction 1 as [|r ra Hr _ IH]; cbn [summarize]; [done|]. rewrite Hr.
  destruct (summarize sampling samples ra) as [aa ae]. destruct IH as [-> Hae]. cbn [im_union im_existence Collapse setFinal].
  split; [done|]. intros x. cbn [map]. rewrite ParOr_cons, <- (Hae x). case_if; [apply ParOr_cons|].
  assert (GetCardinality (ParOr (im_existences r)) = 0) as E0
    by (pose proof (zlen_nonneg (ToArray (ParOr (im_existences r)))); rewrite GetCardinality_ToArray in *; lia).
  rewrite GetCardinality_zero in E0. by rewrite E0.
Qed.

Lemma no_samples (ra : list (IntermediateResult B)) : Forall (fun r => im_samples r = []) ra ->
  foldl (fun sa ir => foldl (fun sa rb => addSample sa (rowSampleKey rb) (rb_Bits rb)) sa (im_samples ir)) [] ra = [].
Proof. induction 1 as [|r ra Hr _ IH]; [done|]. cbn [foldl]. by rewrite Hr. Qed.

(** The merged result of the nodes: each fragment's rows are those of the nodes together. *)
Lemma mergeResults_answers (P : BitmapIndex B I -> PbFragment -> B -> Prop) (E : BitmapIndex B I -> Z -> Prop)
    index q ms ra :
  ms <> [] -> Forall2 (fun m r => answersBy (P m) (E m) index q r) ms ra ->
  answersBy (merged (map P ms)) (fun x => exists m, m ∈ ms /\ E m x) index q (mergeResults sampling index ra).
Proof.
  intros Hne Hall.
  assert (ra <> []) as Hra by (intros ->; by apply Forall2_nil_inv_r in Hall).
  unfold mergeResults. rewrite no_samples by (eapply Forall2_right; [|exact Hall]; by intros ? ? []). cbn [map].
  pose proof (summarize_plain [] ra) as Hsum. destruct (summarize sampling [] ra) as [aa ae].
  destruct Hsum as [-> Hae]; [eapply Forall2_right; [|exact Hall]; by intros ? ? []|].
  assert (mergeSlots ra im_orDifferences = []) as ->.
  { unfold mergeSlots. rewrite (maxSlots_const ra im_orDifferences 0 Hra); [done|].
    eapply Forall2_right; [|exact Hall]. by intros ? ? [_ _ _ -> _ _ _ _ _]. }
  assert (exists bss, Forall2 (fun P bs => Forall2 P (ofKind UNION q) bs) (map P ms) bss /\
    same_rows (ParOr (map (fun r => ParOr (im_unions r)) ra)) (ParOr (map ParOr bss))) as (bss & Hbss & Ebss).
  { clear -Hall H0. induction Hall as [|m r ms ra Hr _ (bss & Hb & Eb)]; [by exists []|].
    destruct (by_unions _ _ _ _ _ Hr) as (bs & Hbs & Ebs). exists (bs :: bss). split; [by constructor|].
    intros x. cbn [map]. by rewrite !ParOr_cons, (Ebs x), (Eb x). }
  destruct (unions_merged (map P ms) (ofKind UNION q) bss Hbss) as (cs & Hcs & Ecs).
  destruct ra as [|first ra']; [done|]. set (ra := first :: ra') in *.
  rewrite foldl_AddIntersect, foldl_AddAndDifference. cbn [foldl].
  split; cbn [AddExistence AddUnion setSampling NewIntermediateResult im_intersects im_andDifferences im_orDifferences
    im_unions im_existences im_Index im_joinFkList im_samples im_SamplePct app].
  - apply mergeSlots_merged; [done|]. apply Forall2_map_l. eapply Forall2_impl; [exact Hall|]. by intros ? ? [].
  - apply mergeSlots_merged; [done|]. apply Forall2_map_l. eapply Forall2_impl; [exact Hall|]. by intros ? ? [].
  - exists cs. split; [done|]. intros x. by rewrite ParOr_single, (Ebss x).
  - done.
  - intros x. rewrite ParOr_single, (Hae x), ParOr_true. split.
    + intros (b & (r & -> & Hr)%list_elem_of_fmap & Hx). apply list_elem_of_lookup in Hr as [i Hi].
      destruct (Forall2_lookup_r _ _ _ _ _ Hall Hi) as (m & Hm & Hans). exists m.
      split; [by eapply list_elem_of_lookup_2|by apply (by_existence _ _ _ _ _ Hans)].
    + intros (m & [i Hi]%list_elem_of_lookup & Hx). destruct (Forall2_lookup_l _ _ _ _ _ Hall Hi) as (r & Hr & Hans).
      exists (ParOr (im_existences r)). split; [|by apply (by_existence _ _ _ _ _ Hans)].
      apply (list_elem_of_fmap_2 (fun r => ParOr (im_existences r))). by eapply list_elem_of_lookup_2.
  - done.
  - done.
  - done.
  - apply Forall2_cons_inv_r in Hall as (m & ? & Hans & _ & _). apply Hans.
Qed.

Lemma foldl_count (add : IntermediateResult B -> B -> IntermediateResult B) l r :
  (forall r b, im_count (add r b) = im_count r) -> im_count (foldl add r l) = im_count r.
Proof. intros Hadd. revert r. induction l as [|b l IH]; intros r; cbn; [done|]. by rewrite IH, Hadd. Qed.

Lemma mergeResults_count index ra : im_count (mergeResults sampling index ra) = None.
Proof.
  unfold mergeResults. destruct (summarize _ _ ra) as [aa ae].
  destruct ra; cbn [AddExistence AddUnion setSampling im_count]; by rewrite !foldl_count by done.
Qed.

(** What the nodes hold together. *)
Definition matchesOn ms (fromTime toTime : Time) (v : PbFragment) (x : Z) : Prop :=
  exists m, m ∈ ms /\ matches m fromTime toTime v x.

Definition inTableOn ms (fromTime toTime : Time) (index : bytes) (x : Z) : Prop :=
  exists m, m ∈ ms /\ inTable m fromTime toTime index x.

Lemma whole_answers (pq : PbBitmapQuery) index local ms : ms <> [] -> Forall (ready index (pq_Query pq)) ms ->
  let fromTime := UnixUTC (pq_FromTime pq) in
  let toTime := UnixUTC (pq_ToTime pq) in
  exists gr ms', queryGroupWholeFanout order sampling index pq (mkClient local ms) = (Ok gr, mkClient local ms') /\
    reseeded ms ms' /\ im_count gr = None /\
    answersBy (merged (map (selectsOn fromTime toTime index (pq_Query pq)) ms))
      (fun x => wantsExistence (pq_Query pq) = true /\ inTableOn ms fromTime toTime index x) index (pq_Query pq) gr.
Proof.
  intros Hne Hms. cbn zeta. destruct (queryNodes_answers pq index ms Hms) as (rs & ms' & ra & Eq & Hre & Em & Hra).
  eexists _, ms'. split_and!; [|done|apply (mergeResults_count index ra)|].
  - unfold queryGroupWholeFanout. cbn [bc_active]. rewrite decide_False by done. rewrite Eq.
    cbn [mbind go_bind]. rewrite Em. reflexivity.
  - pose proof (mergeResults_answers _ _ index (pq_Query pq) ms ra Hne Hra) as [A1 A2 A3 A4 A5 A6 A7 A8 A9].
    split; try done. intros x. rewrite A5. unfold existenceOn, inTableOn. naive_solver.
Qed.

(** The operands are in range on every node, and the row is settled there. *)
Definition rangedOn ms (fromTime toTime : Time) q : Prop := Forall (fun n => Forall (ranged n fromTime toTime) q) ms.

Definition settledOn ms (fromTime toTime : Time) (index : bytes) q (x : Z) : Prop :=
  forall n, n ∈ ms -> settled n fromTime toTime index noPrior q x.

Lemma merged_node ms fromTime toTime index q v b x :
  merged (map (selectsOn fromTime toTime index q) ms) v b -> rangedOn ms fromTime toTime q -> Contains b x = true ->
  exists n b', n ∈ ms /\ selects n fromTime toTime index noPrior q v b' /\ Contains b' x = true.
Proof.
  intros (bs & Hbs & ->) HR (b' & [i Hi]%list_elem_of_lookup & Hx)%ParOr_true.
  destruct (Forall2_lookup_r _ _ _ _ _ Hbs Hi) as (P & HP & Hsel). apply list_lookup_fmap_Some in HP as (n & -> & Hn).
  assert (n ∈ ms) as Hin by by eapply list_elem_of_lookup_2.
  exists n, b'. split_and!; [done| |done]. apply Hsel. exact (proj1 (Forall_forall _ _) HR n Hin).
Qed.

Lemma merged_sound ms fromTime toTime index q v b x :
  merged (map (selectsOn fromTime toTime index q) ms) v b -> rangedOn ms fromTime toTime q ->
  settledOn ms fromTime toTime index q x -> Contains b x = true -> matchesOn ms fromTime toTime v x.
Proof.
  intros Hm HR Hs Hx. destruct (merged_node _ _ _ _ _ _ _ _ Hm HR Hx) as (n & b' & Hn & Hsel & Hx').
  exists n. split; [done|]. by apply (sel_sound _ _ _ _ _ _ _ _ Hsel); [apply Hs|].
Qed.

Lemma merged_complete ms fromTime toTime index q v b x m :
  merged (map (selectsOn fromTime toTime index q) ms) v b -> rangedOn ms fromTime toTime q ->
  m ∈ ms -> matches m fromTime toTime v x ->
  lookedAt m fromTime toTime index noPrior q v x -> Contains b x = true.
Proof.
  intros (bs & Hbs & ->) HR Hin Hm Hl. pose proof Hin as [i Hi]%list_elem_of_lookup. apply ParOr_true.
  assert (map (selectsOn fromTime toTime index q) ms !! i = Some (selectsOn fromTime toTime index q m)) as Hi'
    by (rewrite list_lookup_fmap, Hi; done).
  destruct (Forall2_lookup_l _ _ _ _ _ Hbs Hi') as (b' & Hb' & Hsel).
  exists b'. split; [by eapply list_elem_of_lookup_2|].
  apply (sel_complete _ _ _ _ _ _ _ _ (Hsel (proj1 (Forall_forall _ _) HR m Hin))); done.
Qed.

Lemma lookedAt_unused m fromTime toTime index q v x :
  queryFragmentCanUsePriorIntersect (nullCheckOperation v) = false ->
  lookedAt m fromTime toTime index (noPrior (B := B)) q v x.
Proof. intros E. unfold lookedAt, usesFoundSet. cbn. by rewrite E. Qed.

(** A fragment that narrows the candidates alone looks at the rows it matches. *)
Lemma lookedAt_alone m fromTime toTime index q v x : matches m fromTime toTime v x ->
  (forall w, w ∈ q -> queryFragmentCanUsePriorIntersect (nullCheckOperation w) = true -> w = v) ->
  lookedAt m fromTime toTime index (noPrior (B := B)) q v x.
Proof. intros Hm Hone _. split; [done|]. intros w Hw Hu. by rewrite (Hone w Hw Hu). Qed.

Lemma ready_ensure index q m : ready index q m -> ready index (ensureBitmapQueryHasUnion q) m.
Proof. intros (Ha & ?). split; [by apply answerable_ensure|done]. Qed.

Lemma settled_few m fromTime toTime index q x : conjunctive q -> (length q <= 2)%nat ->
  settled m fromTime toTime index (noPrior (B := B)) (ensureBitmapQueryHasUnion q) x.
Proof.
  intros Hc Hl. apply settled_alone. intros v w Hv Hw Huv Huw. by eapply (at_most_one _ _ _ _ (narrowing_few q Hc Hl)).
Qed.

Lemma rangedOn_ensure ms fromTime toTime q : rangedOn ms fromTime toTime q ->
  rangedOn ms fromTime toTime (ensureBitmapQueryHasUnion q).
Proof. intros HR. eapply Forall_impl; [exact HR|]. intros n. apply ranged_ensure. Qed.

(** The whole query on every node, and the bitmaps its result is made of. *)
Lemma whole_query_result (q : PbBitmapQuery) index disable ms : ms <> [] ->
  Forall (ready index (pq_Query q)) ms -> conjunctive (pq_Query q) ->
  let q' := ensureBitmapQueryHasUnion (pq_Query q) in
  bitmapQueryShouldUseFragmentFanout q' disable = false ->
  let fromTime := UnixUTC (pq_FromTime q) in
  let toTime := UnixUTC (pq_ToTime q) in
  exists result ms' gr, query order sampling q disable (mkClient None ms) =
      (Ok (result, GetCardinality result), mkClient None ms') /\ reseeded ms ms' /\
    (forall x, Contains result x = true <->
      finalOf (ParOr (im_unions gr)) (ParOr (im_existences gr)) (im_andDifferences gr) (im_intersects gr) x) /\
    answersBy (merged (map (selectsOn fromTime toTime index q') ms))
      (fun x => wantsExistence q' = true /\ inTableOn ms fromTime toTime index x) index q' gr.
Proof.
  intros Hne Hms Hc. cbn zeta. set (q' := ensureBitmapQueryHasUnion (pq_Query q)). intros Hfan.
  assert (Forall (ready index q') ms) as Hms' by (eapply Forall_impl; [exact Hms|apply ready_ensure]).
  destruct (whole_answers (mkPbBitmapQuery q' (pq_FromTime q) (pq_ToTime q)) index None ms Hne Hms')
    as (gr & ms' & Eg & Hre & Hcount & Hans). cbn [pq_Query pq_FromTime pq_ToTime] in Hans.
  assert (exists m, m ∈ ms /\ ready index (pq_Query q) m) as (m0 & Hm0 & Ha0 & _).
  { destruct ms as [|m0 ms0]; [done|]. apply Forall_cons in Hms as [? _]. exists m0. by split; [left|]. }
  destruct (query_one order sampling q (mkClient None ms) (mkClient None ms') index disable gr) as (result & Er & Hr).
  { apply Ha0. }
  { destruct (an_table _ _ _ Ha0) as (f & _ & Hk). apply Hk. }
  { intros v Hv. split; [|by eapply conjunctive_sent].
    apply (proj1 (Forall_forall _ _) (an_fragments _ _ _ (answerable_ensure _ _ _ Ha0)) v Hv). }
  { unfold queryGroup. cbn [bc_local pq_Query]. fold q'. by rewrite Hfan. }
  { apply Hans. }
  rewrite Hcount in Er. by exists result, ms', gr.
Qed.

(** With one narrowing fragment at most these are the rows that satisfy the conjunction on
    what the nodes hold together. *)
Lemma whole_query_rows (q : PbBitmapQuery) index disable ms : ms <> [] ->
  Forall (ready index (pq_Query q)) ms -> conjunctive (pq_Query q) ->
  bitmapQueryShouldUseFragmentFanout (ensureBitmapQueryHasUnion (pq_Query q)) disable = false ->
  let fromTime := UnixUTC (pq_FromTime q) in
  let toTime := UnixUTC (pq_ToTime q) in
  let meant := answer (matchesOn ms fromTime toTime) (inTableOn ms fromTime toTime index) (pq_Query q) in
  rangedOn ms fromTime toTime (pq_Query q) ->
  (length (filter (fun v => queryFragmentCanUsePriorIntersect (nullCheckOperation v) = true)
        (ensureBitmapQueryHasUnion (pq_Query q))) <= 1)%nat ->
  exists result ms', query order sampling q disable (mkClient None ms) =
      (Ok (result, GetCardinality result), mkClient None ms') /\ reseeded ms ms' /\
    forall x, Contains result x = true <-> meant x.
Proof.
  intros Hne Hms Hc Hfan. cbn zeta. intros HR%rangedOn_ensure Hone.
  destruct (whole_query_result q index disable ms Hne Hms Hc Hfan) as (result & ms' & gr & Eq & Hre & Hr & Hans).
  set (fromTime := UnixUTC (pq_FromTime q)) in *. set (toTime := UnixUTC (pq_ToTime q)) in *.
  exists result, ms'. do 2 (split; [done|]). intros x. rewrite Hr.
  refine (conjunction_rows _ _ (inTableOn ms fromTime toTime index) _ gr index x _ Hc Hans _ _); [done|..].
  - intros v b Hp Hb. eapply merged_sound; [exact Hp|done| |done]. intros n _. apply settled_alone.
    intros u w Hu Hw Eu Ew. by eapply (at_most_one _ _ _ _ Hone).
  - intros v b Hv Hp _ (m & Hm & Hmat). eapply merged_complete; [exact Hp|done|exact Hm|done|].
    destruct (queryFragmentCanUsePriorIntersect (nullCheckOperation v)) eqn:Eu; [|by apply lookedAt_unused].
    apply lookedAt_alone; [done|]. intros w Hw Euw. by eapply (at_most_one _ _ _ _ Hone).
Qed.

(** ** One fragment at a time *)

Lemma reseeded_refl ms : Forall (fun m => seedsCoherent m) ms -> reseeded ms ms.
Proof. induction 1 as [|m ms Hm _ IH]; constructor; [exists (bi_seedCache m); by destruct m|done]. Qed.

Lemma reseeded_trans ms1 ms2 ms3 : reseeded ms1 ms2 -> reseeded ms2 ms3 -> reseeded ms1 ms3.
Proof.
  intros H12. revert ms3. induction H12 as [|m1 m2 ms1 ms2 (s1 & -> & _) _ IH]; intros ms3 H23.
  - apply Forall2_nil_inv_l in H23 as ->. constructor.
  - apply Forall2_cons_inv_l in H23 as (m3 & ms3' & (s2 & -> & Hs) & Hrest & ->). constructor; [|by apply IH].
    by exists s2.
Qed.

Lemma reseeded_elem ms ms' (Q : BitmapIndex B I -> Prop) : (forall m seeds, Q (withSeedCache m seeds) <-> Q m) ->
  reseeded ms ms' -> (exists m, m ∈ ms' /\ Q m) <-> (exists m, m ∈ ms /\ Q m).
Proof.
  intros HQ Hre. split; intros (m & [i Hi]%list_elem_of_lookup & Hm).
  - destruct (Forall2_lookup_r _ _ _ _ _ Hre Hi) as (m0 & Hm0 & seeds & -> & _). exists m0.
    split; [by eapply list_elem_of_lookup_2|by apply (HQ m0 seeds)].
  - destruct (Forall2_lookup_l _ _ _ _ _ Hre Hi) as (m' & Hm' & seeds & -> & _). exists (withSeedCache m seeds).
    split; [by eapply list_elem_of_lookup_2|by apply HQ].
Qed.

Lemma reseeded_matches ms ms' fromTime toTime v x : reseeded ms ms' ->
  matchesOn ms' fromTime toTime v x <-> matchesOn ms fromTime toTime v x.
Proof. apply (reseeded_elem ms ms' (fun m => matches m fromTime toTime v x)). done. Qed.

Lemma reseeded_inTable ms ms' fromTime toTime index x : reseeded ms ms' ->
  inTableOn ms' fromTime toTime index x <-> inTableOn ms fromTime toTime index x.
Proof. apply (reseeded_elem ms ms' (fun m => inTable m fromTime toTime index x)). done. Qed.

Lemma reseeded_ranged ms ms' fromTime toTime f : reseeded ms ms' ->
  Forall (fun n => ranged n fromTime toTime f) ms -> Forall (fun n => ranged n fromTime toTime f) ms'.
Proof.
  induction 1 as [|m m' ms ms' (seeds & -> & _) _ IH]; [done|]. intros [Hm Hms]%Forall_cons. constructor; [exact Hm|by apply IH].
Qed.

Lemma reseeded_ready index q ms ms' : reseeded ms ms' -> Forall (ready index q) ms -> Forall (ready index q) ms'.
Proof.
  induction 1 as [|m m' ms ms' (seeds & -> & Hs) _ IH]; [done|]. intros [(Ha & Hag & _) Hq]%Forall_cons.
  constructor; [|by apply IH]. split_and!; [|exact Hag|exact Hs]. destruct Ha. by split.
Qed.

Lemma ready_single index q m f : ready index q m -> f ∈ q -> ready index [singleFragment f] m.
Proof.
  intros ([_ Hev _ Hpl Hfin _ Htab] & Hag & Hs) Hf. split; [|done].
  pose proof (proj1 (Forall_forall _ _) Hev f Hf) as Hevf. pose proof (proj1 (Forall_forall _ _) Hpl f Hf) as Hplf.
  rewrite forallb_forall in Hfin. specialize (Hfin f (proj1 (list_elem_of_In _ _) Hf)). split.
  - done.
  - constructor; [exact Hevf|constructor].
  - split; [exists (INode (pf_Id f) []); done|]. cbn. apply NoDup_singleton.
  - constructor; [|constructor]. revert Hplf. clear. unfold nullCheckOperation, isExistenceSeedFragment. cbn.
    destruct (pf_NullCheck f); [|done]. cbn. by destruct (pf_Negate f), (bool_decide _).
  - cbn. by rewrite Hfin.
  - done.
  - done.
Qed.

(** What the bitmap of a fragment holds: the rows the fragment matches, for an
    intersection those of the table. *)
Definition fragmentRows ms (fromTime toTime : Time) (index : bytes) (f : PbFragment) (x : Z) : Prop :=
  matchesOn ms fromTime toTime f x /\ (pf_Operation f = INTERSECT -> inTableOn ms fromTime toTime index x).

Lemma eligible_kind f : distributedFragmentFanoutEligibleFragment f = true ->
  let w := singleFragment f in
  pf_Operation (nullCheckOperation w) = pf_Operation f /\
  (pf_Operation f = INTERSECT \/ pf_Operation f = UNION) /\
  wantsExistence [w] = bool_decide (pf_Operation f = INTERSECT).
Proof.
  unfold distributedFragmentFanoutEligibleFragment. intros [[Hop _]%andb_true_iff Hn]%andb_true_iff. cbn zeta.
  assert (pf_Operation f = INTERSECT \/ pf_Operation f = UNION) as Ho' by (destruct (pf_Operation f); [auto|auto|done..]).
  clear Hop.
  unfold nullCheckOperation, wantsExistence, hasUnion, isExistenceSeedFragment. cbn.
  destruct (pf_NullCheck f), (pf_Negate f); try done; destruct Ho' as [E|E]; rewrite E; cbn;
    (split; [by repeat case_bool_decide|]); (split; [auto|]); by repeat case_bool_decide.
Qed.

(** The base of a result with one fragment. *)
Lemma single_base (M : PbFragment -> Z -> Prop) P (T : Z -> Prop) index f (gr : IntermediateResult B) x :
  distributedFragmentFanoutEligibleFragment f = true ->
  answersBy P (fun x => wantsExistence [singleFragment f] = true /\ T x) index [singleFragment f] gr ->
  (forall v b, P v b -> Contains b x = true -> M v x) ->
  (forall v b, v ∈ [singleFragment f] -> P v b -> narrowedBy M [singleFragment f] x -> M v x -> Contains b x = true) ->
  let union := ParOr (im_unions gr) in
  let base := if GetCardinality union =? 0 then ParOr (im_existences gr) else union in
  (Contains base x = true ->
     (forall v, v ∈ ofKind UNION [singleFragment f] -> M v x) /\ (pf_Operation f = INTERSECT -> T x)) /\
  (narrowedBy M [singleFragment f] x -> (forall v, v ∈ ofKind UNION [singleFragment f] -> M v x) ->
     (pf_Operation f = INTERSECT -> T x) -> Contains base x = true).
Proof.
  intros He Hans Hsound Hcomplete. cbn zeta. destruct (eligible_kind f He) as (Ek & Hop & Hw).
  set (w := singleFragment f) in *.
  destruct (by_unions _ _ _ _ _ Hans) as (bs & Hbs & Ebs). pose proof (by_existence _ _ _ _ _ Hans x) as Hex.
  assert (ofKind UNION [w] = if decide (pf_Operation f = UNION) then [w] else []) as Eu
    by (unfold ofKind; rewrite filter_cons, Ek; by case_decide).
  rewrite Eu in Hbs |- *. destruct Hop as [E|E]; rewrite E, Hw in *.
  - rewrite decide_False in * by done. apply Forall2_nil_inv_l in Hbs as ->.
    assert ((GetCardinality (ParOr (im_unions gr)) =? 0) = true) as ->
      by (apply Z.eqb_eq, GetCardinality_zero; intros y; by rewrite (Ebs y), ParOr_nil).
    rewrite Hex, bool_decide_true by done. split.
    + intros [_ HT]. split; [|done]. by intros v ?%elem_of_nil.
    + auto.
  - rewrite decide_True in * by done. apply Forall2_cons_inv_l in Hbs as (b & bs' & Hb & Hnil & ->).
    apply Forall2_nil_inv_l in Hnil as ->.
    assert (Contains (if GetCardinality (ParOr (im_unions gr)) =? 0 then ParOr (im_existences gr)
              else ParOr (im_unions gr)) x = Contains b x) as ->.
    { rewrite <- (ParOr_single b x), <- (Ebs x). case_if; [|done]. rewrite GetCardinality_zero in E0.
      rewrite E0. apply not_true_iff_false. rewrite Hex, bool_decide_false by done. by intros [? _]. }
    split.
    + intros Hx. split; [|done]. intros v ->%list_elem_of_singleton. by eapply Hsound.
    + intros Hn HU _. apply (Hcomplete w b); [left|done..|]. apply HU. left.
Qed.

Lemma single_rows fromTime toTime index f ms : ms <> [] -> Forall (ready index [singleFragment f]) ms ->
  distributedFragmentFanoutEligibleFragment f = true ->
  exists gr ms', queryGroupWholeFanout order sampling index (mkPbBitmapQuery [singleFragment f] fromTime toTime)
      (mkClient None ms) = (Ok gr, mkClient None ms') /\ reseeded ms ms' /\
    (Forall (fun n => ranged n (UnixUTC fromTime) (UnixUTC toTime) f) ms ->
     forall x, Contains (intermediateResultFinalBitmap (Collapse gr)) x = true <->
      fragmentRows ms (UnixUTC fromTime) (UnixUTC toTime) index f x).
Proof.
  intros Hne Hms He. destruct (eligible_kind f He) as (Ek & Hop & Hw).
  destruct (whole_answers (mkPbBitmapQuery [singleFragment f] fromTime toTime) index None ms Hne Hms)
    as (gr & ms' & Eg & Hre & _ & Hans). cbn [pq_Query pq_FromTime pq_ToTime] in Hans.
  set (w := singleFragment f) in *. set (a := UnixUTC fromTime) in *. set (z := UnixUTC toTime) in *.
  exists gr, ms'. split_and!; [done..|]. intros HR x.
  assert (rangedOn ms a z [w]) as HRw by (eapply Forall_impl; [exact HR|]; intros n Hn; by constructor).
  rewrite (intermediateResultFinal_rows (Collapse gr) (ParOr (im_unions gr)) (ParOr (im_existences gr)) x eq_refl eq_refl)
    by apply Hans.
  cbn [Collapse setFinal im_andDifferences im_intersects].
  assert (forall v b, v ∈ [w] -> merged (map (selectsOn a z index [w]) ms) v b -> narrowedBy (matchesOn ms a z) [w] x ->
            matchesOn ms a z v x -> Contains b x = true) as Hcomplete.
  { intros v b ->%list_elem_of_singleton Hp _ (m & Hm & Hmat). eapply merged_complete; [exact Hp|done|exact Hm|done|].
    apply lookedAt_alone; [done|]. by intros w' ->%list_elem_of_singleton. }
  assert (forall v b, merged (map (selectsOn a z index [w]) ms) v b -> Contains b x = true -> matchesOn ms a z v x)
    as Hsound.
  { intros v b Hp Hb. eapply merged_sound; [exact Hp|done| |done]. intros n _. apply settled_alone.
    by intros u u' ->%list_elem_of_singleton ->%list_elem_of_singleton. }
  destruct (single_base (matchesOn ms a z) _ (inTableOn ms a z index) index f gr x He Hans Hsound Hcomplete) as [Hb1 Hb2].
  etransitivity; [apply (kinds_rows (matchesOn ms a z) _ _ index [w] gr x Hans) with
      (N := pf_Operation f = INTERSECT -> inTableOn ms a z index x)|].
  - exact Hsound.
  - exact Hcomplete.
  - constructor; [|constructor]. rewrite Ek. destruct Hop as [-> | ->]; set_solver.
  - exact Hb1.
  - exact Hb2.
  - unfold fragmentRows. setoid_rewrite list_elem_of_singleton. split.
    + intros [Hs HN]. split; [|done]. specialize (Hs w eq_refl). rewrite satisfies_kind, Ek in Hs.
      by destruct Hop as [E|E]; rewrite E in Hs.
    + intros [Hm HN]. split; [|done]. intros v ->. rewrite satisfies_kind, Ek. by destruct Hop as [-> | ->].
Qed.

Definition holdsRows ms (fromTime toTime : Time) (index : bytes) (f : PbFragment) (b : B) : Prop :=
  Forall (fun n => ranged n fromTime toTime f) ms -> forall x, Contains b x = true <-> fragmentRows ms fromTime toTime index f x.

(** The fragments one after the other: their bitmaps by kind. *)
Lemma fanout_rows fromTime toTime index ms0 q : forall group ms, ms <> [] -> reseeded ms0 ms ->
  Forall (fun f => Forall (ready index [singleFragment f]) ms) q ->
  forallb distributedFragmentFanoutEligibleFragment q = true ->
  exists group' ms' us is_, fanoutFragments order sampling index fromTime toTime group q (mkClient None ms) =
      (Ok group', mkClient None ms') /\ reseeded ms0 ms' /\
    im_unions group' = im_unions group ++ us /\ im_intersects group' = im_intersects group ++ is_ /\
    im_andDifferences group' = im_andDifferences group /\ im_orDifferences group' = im_orDifferences group /\
    im_existences group' = im_existences group /\ im_count group' = im_count group /\
    Forall2 (holdsRows ms0 (UnixUTC fromTime) (UnixUTC toTime) index) (filter (fun f => pf_Operation f = UNION) q) us /\
    Forall2 (holdsRows ms0 (UnixUTC fromTime) (UnixUTC toTime) index) (filter (fun f => pf_Operation f = INTERSECT) q) is_.
Proof.
  induction q as [|f q IH]; intros group ms Hne Hre Hready Hel.
  { exists group, ms, [], []. rewrite !app_nil_r. split_and!; try done; by constructor. }
  cbn [forallb] in Hel. apply andb_true_iff in Hel as [Hf Hel]. apply Forall_cons in Hready as [Hrf Hready].
  destruct (single_rows fromTime toTime index f ms Hne Hrf Hf) as (gr & ms1 & Eg & Hre1 & Hrows).
  set (b := intermediateResultFinalBitmap (Collapse gr)) in *.
  assert (holdsRows ms0 (UnixUTC fromTime) (UnixUTC toTime) index f b) as Hb.
  { intros HR x. rewrite (Hrows (reseeded_ranged _ _ _ _ _ Hre HR)). unfold fragmentRows. by rewrite (reseeded_matches ms0 ms _ _ _ _ Hre), (reseeded_inTable ms0 ms _ _ _ _ Hre). }
  assert (ms1 <> []) as Hne1 by (intros ->; by apply Forall2_nil_inv_r in Hre1).
  pose proof (reseeded_trans _ _ _ Hre Hre1) as Hre'.
  assert (Forall (fun f => Forall (ready index [singleFragment f]) ms1) q) as Hready1.
  { eapply Forall_impl; [exact Hready|]. intros f' Hf'. by apply (reseeded_ready _ _ _ _ Hre1). }
  destruct (eligible_kind f Hf) as (_ & [E|E] & _).
  - destruct (IH (AddIntersect group b) ms1 Hne1 Hre' Hready1 Hel)
      as (g' & ms' & us & is_ & Eg' & ? & Eu & Ei & ? & ? & ? & ? & Hus & His).
    exists g', ms', us, (b :: is_). split_and!; try done.
    + cbn [fanoutFragments]. rewrite (bind_run _ _ _ _ _ Eg). fold b. by rewrite E.
    + rewrite Ei. cbn. by rewrite <- app_assoc.
    + rewrite filter_cons, E. by rewrite decide_False.
    + rewrite filter_cons, E. rewrite decide_True by done. by constructor.
  - destruct (IH (AddUnion group b) ms1 Hne1 Hre' Hready1 Hel)
      as (g' & ms' & us & is_ & Eg' & ? & Eu & Ei & ? & ? & ? & ? & Hus & His).
    exists g', ms', (b :: us), is_. split_and!; try done.
    + cbn [fanoutFragments]. rewrite (bind_run _ _ _ _ _ Eg). fold b. by rewrite E.
    + rewrite Eu. cbn. by rewrite <- app_assoc.
    + rewrite filter_cons, E. rewrite decide_True by done. by constructor.
    + rewrite filter_cons, E. by rewrite decide_False.
Qed.

End Whole.

(** ** The order of the fragments *)

Section Flatten.

Implicit Types (q : list PbFragment).

(** What a walk has listed: fragments of the query, each once. *)
Definition listed q (seen : gset bytes) (out : list PbFragment) : Prop :=
  out ⊆ q /\ NoDup (map pf_Id out) /\ forall id, id ∈ map pf_Id out -> id ∈ seen.

Lemma fragmentById_in q id f : fragmentById q id = Some f -> f ∈ q /\ pf_Id f = id.
Proof.
  unfold fragmentById. case_decide; [done|]. intros Hl.
  assert (f ∈ filter (fun f => pf_Id f = id) q) as [? ?]%list_elem_of_filter; [|done].
  apply last_Some in Hl as [l' ->]. apply elem_of_app. right. left.
Qed.

Lemma foldl_bind_None {A C} (f : A -> C -> option A) (l : list C) :
  foldl (fun st c => st ← st; f st c) None l = None.
Proof. by induction l. Qed.

Lemma walkFragments_listed q : (forall f, f ∈ q -> pf_Id f <> []) -> forall fuel f seen out seen' out',
  f ∈ q -> listed q seen out -> walkFragments fuel q f (seen, out) = Some (seen', out') -> listed q seen' out'.
Proof.
  intros Hids. induction fuel as [|fuel IH]; intros f seen out seen' out' Hf Hl; cbn [walkFragments]; [done|].
  rewrite bool_decide_true by by apply Hids. cbn [andb]. case_bool_decide as Hin; [done|].
  rewrite decide_False by by apply Hids.
  assert (listed q ({[ pf_Id f ]} ∪ seen) (out ++ [f])) as Hl1.
  { destruct Hl as (Hsub & Hnd & Hseen). split_and!.
    - intros g [Hg|Hg%list_elem_of_singleton]%elem_of_app; [by apply Hsub|by subst].
    - rewrite map_app. cbn [map]. apply NoDup_app. split_and!; [done| |apply NoDup_singleton].
      intros id Hid ->%list_elem_of_singleton. by apply Hin, Hseen.
    - intros id. rewrite map_app, elem_of_app. cbn [map]. rewrite list_elem_of_singleton. set_solver. }
  revert Hl1. generalize ({[ pf_Id f ]} ∪ seen) (out ++ [f]). generalize (pf_ChildrenIds f).
  intros cs. induction cs as [|c cs IHcs]; intros s o Hl1; cbn [foldl]; [by intros [= <- <-]|].
  rewrite Some_bind. destruct (fragmentById q c) as [child|] eqn:Ec.
  2: { change (None ≫= _) with (@None (gset bytes * list PbFragment)). by rewrite foldl_bind_None. }
  rewrite Some_bind. destruct (walkFragments fuel q child (s, o)) as [[s1 o1]|] eqn:E1; [|by rewrite foldl_bind_None].
  apply fragmentById_in in Ec as [Hc _]. apply IHcs. by apply (IH child s o).
Qed.

Lemma listed_permutation q seen out : NoDup (map pf_Id q) -> listed q seen out ->
  length out = length q -> out ≡ₚ q.
Proof.
  intros Hq (Hsub & Hnd & _) Hlen. apply NoDup_fmap_1 in Hnd, Hq.
  apply submseteq_length_Permutation; [|lia]. by apply NoDup_submseteq.
Qed.

(** The walk changes the order of the fragments only. *)
Lemma flatten_permutation q : NoDup (map pf_Id q) -> (forall f, f ∈ q -> pf_Id f <> []) ->
  flattenBitmapQueryFragments q ≡ₚ q.
Proof.
  intros Hnd Hids. unfold flattenBitmapQueryFragments. destruct (filter _ (filter _ q)) as [|root [|? ?]] eqn:E; [done| |done].
  assert (root ∈ q) as Hroot.
  { assert (root ∈ filter (fun f => pf_Id f ∉ concat (map pf_ChildrenIds q)) (filter (fun f => pf_Id f <> []) q))
      as [_ [_ ?]%list_elem_of_filter]%list_elem_of_filter by (rewrite E; left). done. }
  destruct (walkFragments _ q root _) as [[seen out]|] eqn:Ew; [|done]. case_decide; [|done].
  eapply listed_permutation; [done| |done]. eapply walkFragments_listed; [done..| |exact Ew].
  split_and!; [set_solver|constructor|set_solver].
Qed.

End Flatten.

(** ** Queries sent fragment by fragment *)

Section Fragments.

Context {B I : Type} `{RoaringOpsLaws B} `{!BSILib B I} `{!BSILaws B I} `{!TransposeLib B I}.
Context (order : list bytes -> list bytes) (sampling : list B -> Z -> list B).
Context (Ho : forall l, order l ≡ₚ l).

Implicit Types (q : list PbFragment) (ms : list (BitmapIndex B I)).

Lemma ensure_idem q : ensureBitmapQueryHasUnion (ensureBitmapQueryHasUnion q) = ensureBitmapQueryHasUnion q.
Proof.
  unfold ensureBitmapQueryHasUnion at 2 3. case_if; [unfold ensureBitmapQueryHasUnion; by rewrite E|].
  destruct (firstIntersect_cases q) as [[-> Hn]|(q1 & v & q2 & -> & -> & Ev & _)].
  - unfold ensureBitmapQueryHasUnion. rewrite E. destruct (firstIntersect_cases q) as [[-> _]|(q1 & v & q2 & -> & _ & Ev & _)]; [done|].
    exfalso. apply (Hn v); [set_solver|done].
  - unfold ensureBitmapQueryHasUnion.
    assert (existsb (fun v => bool_decide (pf_Operation v = UNION) || pf_NullCheck v) (q1 ++ withOperation v UNION :: q2) = true)
      as ->; [|done].
    apply existsb_exists. exists (withOperation v UNION). split; [apply list_elem_of_In; set_solver|done].
Qed.

Lemma forallb_perm {A} (f : A -> bool) l k : l ≡ₚ k -> forallb f k = true -> forallb f l = true.
Proof.
  intros Hp Hk. rewrite forallb_forall in Hk |- *. intros a Ha. apply Hk. apply list_elem_of_In. rewrite <- Hp.
  by apply list_elem_of_In.
Qed.

Lemma Forall2_elem_of_l {A C} (P : A -> C -> Prop) l k a : Forall2 P l k -> a ∈ l -> exists b, b ∈ k /\ P a b.
Proof.
  intros Hf [i Hi]%list_elem_of_lookup. destruct (Forall2_lookup_l _ _ _ _ _ Hf Hi) as (b & Hb & ?).
  exists b. split; [by eapply list_elem_of_lookup_2|done].
Qed.

Lemma Forall2_elem_of_r {A C} (P : A -> C -> Prop) l k b : Forall2 P l k -> b ∈ k -> exists a, a ∈ l /\ P a b.
Proof. intros Hf%Forall2_flip Hb. apply (Forall2_elem_of_l _ _ _ _ Hf Hb). Qed.

Lemma or_nothing us x :
  Contains (if GetCardinality (ParOr us) =? 0 then ParOr [] else ParOr us) x = true <-> exists u, u ∈ us /\ Contains u x = true.
Proof.
  rewrite <- ParOr_true. case_if; [|done]. apply GetCardinality_zero with (x := x) in E. by rewrite E, ParOr_nil.
Qed.

Lemma rangedOn_elem ms fromTime toTime q f : rangedOn ms fromTime toTime q -> f ∈ q ->
  Forall (fun n => ranged n fromTime toTime f) ms.
Proof. intros HR Hf. eapply Forall_impl; [exact HR|]. intros n Hn. exact (proj1 (Forall_forall _ _) Hn f Hf). Qed.

Lemma holds_exists ms fromTime toTime index (P : PbFragment -> Prop) `{!forall f, Decision (P f)} fs bs x :
  rangedOn ms fromTime toTime fs -> Forall2 (holdsRows ms fromTime toTime index) (filter P fs) bs ->
  (exists b, b ∈ bs /\ Contains b x = true) <-> exists f, f ∈ fs /\ P f /\ fragmentRows ms fromTime toTime index f x.
Proof.
  intros HR Hf. split.
  - intros (b & Hb & Hx). destruct (Forall2_elem_of_r _ _ _ _ Hf Hb) as (f & Hin & Hr).
    apply list_elem_of_filter in Hin as [HP Hin]. exists f. split_and!; [done..|]. by apply (Hr (rangedOn_elem _ _ _ _ _ HR Hin)).
  - intros (f & Hin & HP & Hx). destruct (Forall2_elem_of_l _ _ _ f Hf) as (b & Hb & Hr); [by apply list_elem_of_filter|].
    exists b. split; [done|]. by apply (Hr (rangedOn_elem _ _ _ _ _ HR Hin)).
Qed.

Lemma holds_forall ms fromTime toTime index (P : PbFragment -> Prop) `{!forall f, Decision (P f)} fs bs x :
  rangedOn ms fromTime toTime fs -> Forall2 (holdsRows ms fromTime toTime index) (filter P fs) bs ->
  (forall b, b ∈ bs -> Contains b x = true) <-> forall f, f ∈ fs -> P f -> fragmentRows ms fromTime toTime index f x.
Proof.
  intros HR Hf. split.
  - intros Hall f Hin HP. destruct (Forall2_elem_of_l _ _ _ f Hf) as (b & Hb & Hr); [by apply list_elem_of_filter|].
    apply (Hr (rangedOn_elem _ _ _ _ _ HR Hin)), Hall, Hb.
  - intros Hall b Hb. destruct (Forall2_elem_of_r _ _ _ _ Hf Hb) as (f & Hin & Hr).
    apply list_elem_of_filter in Hin as [HP Hin]. by apply (Hr (rangedOn_elem _ _ _ _ _ HR Hin)), Hall.
Qed.

(** A query sent fragment by fragment: the rows of one of its unions and of all its
    intersections. *)
Lemma fragment_query_rows (q : PbBitmapQuery) index disable ms : ms <> [] ->
  Forall (ready index (pq_Query q)) ms -> (forall f, f ∈ pq_Query q -> pf_Id f <> []) ->
  let q' := ensureBitmapQueryHasUnion (pq_Query q) in
  bitmapQueryShouldUseFragmentFanout q' disable = true ->
  let rows := fragmentRows ms (UnixUTC (pq_FromTime q)) (UnixUTC (pq_ToTime q)) index in
  exists result ms', query order sampling q disable (mkClient None ms) =
      (Ok (result, GetCardinality result), mkClient None ms') /\ reseeded ms ms' /\
    ((forall f, f ∈ q' -> pf_Operation f <> UNION) -> forall x, Contains result x = false) /\
    (rangedOn ms (UnixUTC (pq_FromTime q)) (UnixUTC (pq_ToTime q)) (pq_Query q) ->
     forall x, Contains result x = true <->
      (exists f, f ∈ q' /\ pf_Operation f = UNION /\ rows f x) /\
      (forall f, f ∈ q' -> pf_Operation f = INTERSECT -> rows f x)).
Proof.
  intros Hne Hms Hids. cbn zeta. set (q' := ensureBitmapQueryHasUnion (pq_Query q)). intros Hfan.
  assert (exists m, m ∈ ms /\ ready index (pq_Query q) m) as (m0 & Hm0 & Ha0 & _).
  { destruct ms as [|m0 ms0]; [done|]. apply Forall_cons in Hms as [? _]. exists m0. by split; [left|]. }
  pose proof (ensure_sentAs (pq_Query q)) as Hsent. fold q' in Hsent.
  assert (Forall (ready index q') ms) as Hms' by (eapply Forall_impl; [exact Hms|apply ready_ensure]).
  pose proof Hfan as [_ [_ Hel]%andb_true_iff]%andb_true_iff.
  assert (flattenBitmapQueryFragments q' ≡ₚ q') as Hperm.
  { apply flatten_permutation.
    - rewrite (sentAs_map pf_Id _ _ (fun _ _ => eq_refl) Hsent). apply Ha0.
    - apply Forall_forall. apply (sentAs_forall (fun f => pf_Id f <> []) _ _ (fun _ _ Hf => Hf) Hsent). by apply Forall_forall. }
  set (fs := flattenBitmapQueryFragments q') in *.
  destruct (fanout_rows order sampling Ho (pq_FromTime q) (pq_ToTime q) index ms fs (NewIntermediateResult index) ms)
    as (gr & ms' & us & is_ & Eg & Hre & Eu & Ei & Ed & Eo & Ee & Ec & Hus & His).
  { done. }
  { apply reseeded_refl. eapply Forall_impl; [exact Hms|]. by intros m (_ & _ & ?). }
  { apply Forall_forall. intros f Hf. eapply Forall_impl; [exact Hms'|]. intros m Hm. eapply ready_single; [exact Hm|].
    by rewrite <- Hperm. }
  { by eapply forallb_perm. }
  destruct (query_one order sampling q (mkClient None ms) (mkClient None ms') index disable gr) as (result & Er & Hr).
  { apply Ha0. }
  { destruct (an_table _ _ _ Ha0) as (f & _ & Hk). apply Hk. }
  { intros v Hv. split; [apply (proj1 (Forall_forall _ _) (an_fragments _ _ _ (answerable_ensure _ _ _ Ha0)) v Hv)|].
    rewrite forallb_forall in Hel. specialize (Hel v (proj1 (list_elem_of_In _ _) Hv)).
    destruct (eligible_kind v Hel) as (_ & [-> | ->] & _); done. }
  { unfold queryGroup. cbn [bc_local pq_Query]. fold q'. rewrite Hfan. unfold queryGroupFragmentFanout. cbn [pq_Query].
    unfold q'. rewrite ensure_idem. exact Eg. }
  { exact Eo. }
  rewrite Ec in Er. exists result, ms'. unfold finalOf in Hr. rewrite Eu, Ei, Ed, Ee in Hr.
  cbn [NewIntermediateResult im_unions im_intersects im_andDifferences im_existences app] in Hr. setoid_rewrite or_nothing in Hr.
  split_and!; [exact Er|done| |].
  - intros Hnone x. apply not_true_iff_false. rewrite Hr. intros [(u & Hu & _) _].
    destruct (Forall2_elem_of_r _ _ _ _ Hus Hu) as (f & [Ef Hf]%list_elem_of_filter & _).
    apply (Hnone f); [by rewrite <- Hperm|done].
  - intros HR%rangedOn_ensure x. fold q' in HR.
    assert (rangedOn ms (UnixUTC (pq_FromTime q)) (UnixUTC (pq_ToTime q)) fs) as HRfs
      by (eapply Forall_impl; [exact HR|]; intros n; cbn beta; by rewrite Hperm).
    rewrite Hr, (holds_exists _ _ _ _ _ _ _ x HRfs Hus), (holds_forall _ _ _ _ _ _ _ x HRfs His). setoid_rewrite Hperm. split.
    + by intros (? & _ & ?).
    + intros [? ?]. split_and!; [done| |done]. by intros d ?%elem_of_nil.
Qed.

End Fragments.

(** ** Shards placed on nodes *)

Section Placement.

Context {B I : Type} `{RoaringOpsLaws B} `{!BSILib B I} `{!BSILaws B I} `{!TransposeLib B I}.
Context (order : list bytes -> list bytes) (sampling : list B -> Z -> list B).
Context (Ho : forall l, order l ≡ₚ l).

Implicit Types (q : list PbFragment) (ms : list (BitmapIndex B I)).

(** The shards of [m], which owns all, are held by the nodes: no node holds another shard,
    and every shard is on a node that owns it. *)
Record placed (m : BitmapIndex B I) ms : Prop := {
  pl_schema : forall n, n ∈ ms -> bi_tableCache n = bi_tableCache m;
  pl_member : forall key, Member m key = true;
  pl_values : forall n index field ts bsi, n ∈ ms ->
    bsiShards n index field !! ts = Some bsi -> bsiShards m index field !! ts = Some bsi;
  pl_rows : forall n index field rowID ts bits, n ∈ ms ->
    rowShards n index field rowID !! ts = Some bits -> rowShards m index field rowID !! ts = Some bits;
  pl_value_owner : forall index field ts bsi, bsiShards m index field !! ts = Some bsi ->
    exists n, n ∈ ms /\ bsiShards n index field !! ts = Some bsi /\ Member n (bsiHashKey index field ts) = true;
  pl_row_owner : forall index field rowID ts bits, rowShards m index field rowID !! ts = Some bits ->
    exists n, n ∈ ms /\ rowShards n index field rowID !! ts = Some bits /\
      Member n (bitmapHashKey index field rowID ts) = true }.

Context (m : BitmapIndex B I) (ms : list (BitmapIndex B I)) (Hp : placed m ms).

Lemma placed_quantum n index field : n ∈ ms -> quantumOf n index field = quantumOf m index field.
Proof. intros Hn. unfold quantumOf, schemaOf. by rewrite (pl_schema _ _ Hp n Hn). Qed.

Lemma placed_hasValue fromTime toTime index field x v :
  (exists n, n ∈ ms /\ hasValue n fromTime toTime index field x v) <-> hasValue m fromTime toTime index field x v.
Proof.
  unfold hasValue, valueShard. split.
  - intros (n & Hn & ts & bsi & Hs & Hv & Hx). exists ts, bsi. split_and!; [by eapply pl_values| |done].
    rewrite (placed_quantum n) in Hv by done. case_decide; [done|]. rewrite (pl_member _ _ Hp), andb_true_r.
    by apply andb_true_iff in Hv as [? _].
  - intros (ts & bsi & Hs & Hv & Hx). destruct (pl_value_owner _ _ Hp _ _ _ _ Hs) as (n & Hn & Hs' & Hown).
    exists n. split; [done|]. exists ts, bsi. split_and!; [done| |done].
    rewrite (placed_quantum n) by done. case_decide; [done|]. rewrite Hown, andb_true_r. by apply andb_true_iff in Hv as [? _].
Qed.

Lemma placed_rowExists fromTime toTime index field x :
  (exists n, n ∈ ms /\ rowExists n fromTime toTime index field x) <-> rowExists m fromTime toTime index field x.
Proof.
  unfold rowExists, existenceShard. split.
  - intros (n & Hn & ts & bsi & Hs & Hv & Hx). exists ts, bsi. rewrite (placed_quantum n) in Hv by done.
    split_and!; [by eapply pl_values|done..].
  - intros (ts & bsi & Hs & Hv & Hx). destruct (pl_value_owner _ _ Hp _ _ _ _ Hs) as (n & Hn & Hs' & _).
    exists n. split; [done|]. exists ts, bsi. by rewrite (placed_quantum n).
Qed.

Lemma placed_hasRow fromTime toTime index field rowID x :
  (exists n, n ∈ ms /\ hasRow n fromTime toTime index field rowID x) <-> hasRow m fromTime toTime index field rowID x.
Proof.
  unfold hasRow, rowShard, existenceShard. split.
  - intros (n & Hn & ts & bits & Hs & Hv & Hx). exists ts, bits. rewrite (placed_quantum n) in Hv by done.
    split_and!; [by eapply pl_rows| |done]. rewrite (pl_member _ _ Hp), andb_true_r. by apply andb_true_iff in Hv as [? _].
  - intros (ts & bits & Hs & Hv & Hx). destruct (pl_row_owner _ _ Hp _ _ _ _ _ Hs) as (n & Hn & Hs' & Hown).
    exists n. split; [done|]. exists ts, bits. rewrite (placed_quantum n), Hown, andb_true_r by done.
    by apply andb_true_iff in Hv as [? _].
Qed.

(** What the nodes hold together is what one node with all the shards holds. *)
Lemma placed_matches fromTime toTime v x : matchesOn ms fromTime toTime v x <-> matches m fromTime toTime v x.
Proof.
  unfold matchesOn. transitivity (exists n, n ∈ ms /\
    if pf_NullCheck v && default false (go_option (isBSI m (pf_Index v) (pf_Field v)))
    then rowExists n fromTime toTime (pf_Index v) (pf_Field v) x
    else if decide (pf_BsiOp v <> BSI_NA)
    then exists value, hasValue n fromTime toTime (pf_Index v) (pf_Field v) x value /\ condition v value = true
    else if decide (pf_Values v <> [])
    then exists raw, raw ∈ pf_Values v /\
           hasRow n fromTime toTime (pf_Index v) (pf_Field v) (wrap_u 64 (SetBytes raw)) x
    else if pf_NullCheck v
    then exists rowID, hasRow n fromTime toTime (pf_Index v) (pf_Field v) rowID x
    else hasRow n fromTime toTime (pf_Index v) (pf_Field v) (pf_RowID v) x).
  { unfold matches, isBSI. split; intros (n & Hn & Hm); exists n; (split; [done|]); rewrite (pl_schema _ _ Hp n Hn) in *; exact Hm. }
  unfold matches. case_if; [apply placed_rowExists|]. case_decide.
  { setoid_rewrite <- placed_hasValue. split; [intros (n & ? & value & ? & ?)|intros (value & (n & ? & ?) & ?)]; eauto 8. }
  case_decide.
  { setoid_rewrite <- placed_hasRow. split; [intros (n & ? & raw & ? & ?)|intros (raw & ? & n & ? & ?)]; eauto 8. }
  case_if; [|apply placed_hasRow].
  setoid_rewrite <- placed_hasRow. split; [intros (n & ? & rowID & ?)|intros (rowID & n & ? & ?)]; eauto 8.
Qed.

Lemma placed_ranged fromTime toTime v : Forall (fun n => ranged n fromTime toTime v) ms -> ranged m fromTime toTime v.
Proof.
  rewrite Forall_forall. intros HR. apply Forall_forall. intros a Ha x value (n & Hn & Hx)%placed_hasValue.
  destruct (proj1 (Forall_forall _ _) (HR n Hn) a Ha x value Hx) as (y & lo & z & hi & Hy & Hz & Hb).
  exists y, lo, z, hi. split_and!; [apply placed_hasValue; by exists n..|lia|lia].
Qed.

Lemma placed_inTable fromTime toTime index x : inTableOn ms fromTime toTime index x <-> inTable m fromTime toTime index x.
Proof.
  unfold inTableOn, inTable. setoid_rewrite <- placed_rowExists. unfold tableKey. split.
  - intros (n & Hn & field & Hk & Hx). rewrite (pl_schema _ _ Hp n Hn) in Hk. eauto.
  - intros (field & Hk & n & Hn & Hx). exists n. split; [done|]. exists field. by rewrite (pl_schema _ _ Hp n Hn).
Qed.

Lemma placed_ready index q : answerable m index q -> shardsAgree m -> Forall (fun n => seedsCoherent n) ms ->
  Forall (ready index q) ms.
Proof.
  intros Ha Hag Hs. apply Forall_forall. intros n Hn. split_and!; [|intros ix field|by apply (proj1 (Forall_forall _ _) Hs)].
  - destruct Ha. pose proof (pl_schema _ _ Hp n Hn) as Es.
    split; unfold evaluable, knownTable, knownField, tableKey, schemaOf in *; rewrite ?Es; done.
  - eapply agree_sub; [|apply Hag]. intros bsi ([ts ?] & -> & Hin%elem_of_map_to_list)%list_elem_of_fmap.
    apply list_elem_of_fmap. exists (ts, i). split; [done|]. apply elem_of_map_to_list. by eapply pl_values.
Qed.

End Placement.
