(* ===== verification/ClusterQuery.v ===== *)
(** * Queries of a client, in process and on a cluster

    The query tree a client builds, sent as a message to an in-process node or to the
    nodes of a cluster: the rows it returns are those that satisfy the conditions of its
    fragments.  The cases in which a cluster does not return them are stated as well. *)

From S2P Require Import Prelude GoStd GoState GoTime Catalog Sequencer Bitmaps BSIBinary BitmapQuery NodeQuery NodeExact NodeWrite ClientQuery ClientExact Fanout.

(** ** From the tree to the message *)

Section Message.

(** A fragment as it is sent, whatever its links. *)
Definition asked (n : QueryFragment) : PbFragment := fragmentProto n [] [].

(** The condition of a comparison on the operands the client gave; a nil operand is zero. *)
Definition conditionOf (n : QueryFragment) (value : Z) : bool :=
  match default BSI_NA (BSIOp_value (qf_BSIOp n)) with
  | BSI_NA => false
  | BSI_LT => value <? default 0 (qf_Value n)
  | BSI_LE => value <=? default 0 (qf_Value n)
  | BSI_EQ => value =? default 0 (qf_Value n)
  | BSI_GE => default 0 (qf_Value n) <=? value
  | BSI_GT => default 0 (qf_Value n) <? value
  | BSI_RANGE => (default 0 (qf_Begin n) <=? value) && (value <=? default 0 (qf_End n))
  | BSI_BATCH_EQ => bool_decide (value ∈ map (default 0) (qf_Values n))
  end.

Lemma wire_operand (v : option Z) : BigIntFromWireBytes (BigIntToWireBytes v) = default 0 v.
Proof. destruct v as [v|]; [apply FromWire_ToWire|done]. Qed.

Lemma wire_condition n id children value : condition (fragmentProto n id children) value = conditionOf n value.
Proof.
  unfold condition, conditionOf, fragmentProto.
  cbn [pf_BsiOp pf_Value pf_Begin pf_End pf_Values]. rewrite !wire_operand, map_map.
  by rewrite (map_ext _ _ wire_operand).
Qed.

(** Operands of any size and sign survive the wire: a node puts on a value exactly the
    condition that the client's fragment states. *)
Theorem operands_survive_wire n id children value : condition (fragmentProto n id children) value = conditionOf n value.
Proof. apply wire_condition. Qed.

Lemma carried f n : carries f n -> exists id ids, f = fragmentProto n id ids.
Proof. intros E. by exists (pf_Id f), (pf_ChildrenIds f). Qed.

Context {B I : Type} `{RoaringOpsLaws B} `{!BSILib B I}.

Lemma carries_answer (M : PbFragment -> Z -> Prop) (T : Z -> Prop) q ns x :
  (forall n id ids, M (fragmentProto n id ids) x <-> M (asked n) x) -> Forall2 carries q ns ->
  answer M T q x <-> answer M T (map asked ns) x.
Proof.
  intros HM Hc. unfold answer.
  assert (needsTable q = needsTable (map asked ns)) as ->.
  { assert (forall g : PbFragment -> bool, (forall n id ids, g (fragmentProto n id ids) = g (asked n)) ->
      existsb g q = existsb g (map asked ns)) as Hg.
    { intros g Hg. induction Hc as [|f n q ns (id & ids & ->)%carried _ IH]; cbn; [done|]. by rewrite IH, Hg. }
    unfold needsTable. by rewrite !Hg. }
  assert ((forall v, v ∈ q -> satisfies M v x) <-> (forall v, v ∈ map asked ns -> satisfies M v x)) as ->; [|done].
  rewrite <- !Forall_forall. induction Hc as [|f n q ns (id & ids & ->)%carried _ IH]; cbn [map]; [by split; constructor|].
  rewrite !Forall_cons, IH. unfold satisfies. cbn.
  specialize (HM n id ids). repeat case_match; tauto.
Qed.

Lemma carries_forall (P : PbFragment -> Prop) q ns : (forall n id ids, P (fragmentProto n id ids) <-> P (asked n)) ->
  Forall2 carries q ns -> Forall P q <-> Forall P (map asked ns).
Proof.
  intros HP. induction 1 as [|f n q ns (id & ids & ->)%carried _ IH]; cbn [map]; [by split; constructor|].
  by rewrite !Forall_cons, IH, HP.
Qed.

(** The fragments of a query on one table, none sampled. *)
Record askable (m : BitmapIndex B I) (index : bytes) (ns : list QueryFragment) : Prop := {
  as_fragments : Forall (fun n => qf_Index n = index /\ knownField m index (qf_Field n) /\
    qf_SamplePct n = 0 /\ qf_ORContext n = false) ns;
  as_conjunctive : conjunctive (map asked ns);
  as_length : zlen ns < 2 ^ 31;
  as_table : knownTable m index }.

Lemma askable_answerable m index uuids q t : Inj eq eq uuids -> bq_root q = Some t -> askable m index (fragments t) ->
  let pq := pq_Query (ToProto uuids q) in answerable m index pq /\ conjunctive pq /\ Forall2 carries pq (fragments t).
Proof.
  intros Hinj Ht [Hf Hc Hl Htab]. cbn zeta. destruct (ToProto_wellFormed uuids q t Hinj Ht) as [Hwf Hcar].
  set (pq := pq_Query (ToProto uuids q)) in *.
  assert (forall f, f ∈ pq -> exists n id ids, f = fragmentProto n id ids /\ qf_Index n = index /\
    knownField m index (qf_Field n) /\ qf_SamplePct n = 0 /\ qf_ORContext n = false) as Hall.
  { intros f Hin. destruct (Forall2_elem_of_l _ _ _ _ Hcar Hin) as (n & Hn & (id & ids & E)%carried).
    exists n, id, ids. split; [done|]. exact (proj1 (Forall_forall _ _) Hf n Hn). }
  assert (conjunctive pq) as Hcq.
  { refine (proj2 (carries_forall _ pq (fragments t) _ Hcar) Hc). done. }
  split_and!; [|done..]. split.
  - intros E. rewrite E in Hcar. apply Forall2_nil_inv_l in Hcar. destruct t. cbn in Hcar. by apply app_nil in Hcar as [_ ?].
  - apply Forall_forall. intros f (n & id & ids & -> & ? & ? & E & _)%Hall. unfold evaluable. cbn. by rewrite E.
  - done.
  - apply Forall_forall. intros f Hin. destruct (Hall f Hin) as (n & id & ids & E & _ & _ & Es & Eor).
    pose proof (proj1 (Forall_forall _ _) Hcq f Hin) as Hop. rewrite E in Hop |- *.
    clear E. unfold nullCheckOperation, isExistenceSeedFragment.
    repeat case_if; unfold plainFragment; cbn in Hop |- *; rewrite Es, Eor; try done; by destruct Hop as [-> | ->].
  - apply forallb_forall. intros f (n & id & ids & -> & _ & _ & E & _)%list_elem_of_In%Hall. cbn. by rewrite E.
  - unfold zlen in *. by rewrite (Forall2_length _ _ _ Hcar).
  - done.
Qed.

End Message.

(** ** Rows of a query *)

Section Rows.

Context {B I : Type} `{RoaringOpsLaws B} `{!BSILib B I} `{!BSILaws B I} `{!TransposeLib B I}.
Context (order : list bytes -> list bytes) (sampling : list B -> Z -> list B).
Context (Ho : forall l, order l ≡ₚ l).

Implicit Types (q : list PbFragment) (ms : list (BitmapIndex B I)).

(** The fragments that narrow the candidates of a node as it evaluates them. *)
Definition narrowing q : list PbFragment :=
  filter (fun v => queryFragmentCanUsePriorIntersect (nullCheckOperation v) = true) q.

(** The queries a cluster answers in full: those sent fragment by fragment without a null
    check, and those sent whole with one narrowing fragment at most. *)
Definition clusterAnswers q (disable : bool) : bool :=
  let q' := ensureBitmapQueryHasUnion q in
  if bitmapQueryShouldUseFragmentFanout q' disable then negb (existsb pf_NullCheck q)
  else (length (narrowing q') <=? 1)%nat.

Lemma positive_satisfies M v x : pf_NullCheck v = false -> pf_Operation v = INTERSECT -> satisfies M v x <-> M v x.
Proof. intros En Eo. unfold satisfies. by rewrite En, Eo. Qed.

(** A conjunction that is sent fragment by fragment has a null check and no union, or only
    positive fragments, the first of them sent as a union. *)
Lemma fanned_cases q disable : conjunctive q ->
  bitmapQueryShouldUseFragmentFanout (ensureBitmapQueryHasUnion q) disable = true ->
  existsb pf_NullCheck q = true /\ ensureBitmapQueryHasUnion q = q \/
  exists q1 v q2, q = q1 ++ v :: q2 /\ ensureBitmapQueryHasUnion q = q1 ++ withOperation v UNION :: q2 /\
    needsTable q = false /\ existsb pf_NullCheck q = false /\
    forall f, f ∈ q -> pf_NullCheck f = false /\ pf_Operation f = INTERSECT.
Proof.
  intros Hc Hfan. pose proof Hfan as [_ [_ Hel]%andb_true_iff]%andb_true_iff. rewrite forallb_forall in Hel.
  destruct (ensure_cases q Hc) as [(Eens & _ & [Hn|Hops])|(q1 & v & q2 & -> & Eens & Ev & Hneed & Hnull)].
  - by left.
  - exfalso. rewrite Eens in Hfan, Hel. destruct q as [|f fs]; [by destruct disable|].
    destruct (eligible_kind f (Hel f (or_introl eq_refl))) as (_ & [E|E] & _); [by apply (Hops f); [left|]|].
    apply Forall_cons in Hc as [[?|?] _]; congruence.
  - right. exists q1, v, q2. split_and!; [done..|]. intros f Hf. split.
    + apply not_true_iff_false. intros E. rewrite <- not_true_iff_false in Hnull. apply Hnull, existsb_exists.
      exists f. by split; [apply list_elem_of_In|].
    + assert (f = v \/ f ∈ ensureBitmapQueryHasUnion (q1 ++ v :: q2)) as [-> |Hf'] by (rewrite Eens; set_solver); [done|].
      destruct (eligible_kind f (Hel f (proj1 (list_elem_of_In _ _) Hf'))) as (_ & [E|E] & _); [done|].
      destruct (proj1 (Forall_forall _ _) Hc f Hf); congruence.
Qed.

(** The rows of positive fragments, the first of them sent as a union. *)
Lemma positive_rows (M : PbFragment -> Z -> Prop) (T : Z -> Prop) q1 v q2 x : let q := q1 ++ v :: q2 in
  let rows f := M f x /\ (pf_Operation f = INTERSECT -> T x) in
  (forall op, M (withOperation v op) x <-> M v x) ->
  (forall f, f ∈ q -> pf_NullCheck f = false /\ pf_Operation f = INTERSECT) -> needsTable q = false ->
  let sent := (exists f, f ∈ q1 ++ withOperation v UNION :: q2 /\ pf_Operation f = UNION /\ rows f) /\
    (forall f, f ∈ q1 ++ withOperation v UNION :: q2 -> pf_Operation f = INTERSECT -> rows f) in
  (sent -> answer M T q x) /\ (answer M T q x -> T x -> sent).
Proof.
  intros q rows Hv Hpos Hneed. cbn zeta. unfold answer. rewrite Hneed. split.
  - intros [(f & Hf & Ef & Hm & _) Hall]. split; [|done]. intros g Hg. destruct (Hpos g Hg). apply positive_satisfies; [done..|].
    apply elem_of_app in Hf as [Hf|[-> |Hf]%elem_of_cons].
    1, 3: destruct (Hpos f) as [_ ?]; [unfold q; set_solver|congruence].
    apply elem_of_app in Hg as [Hg|[-> |Hg]%elem_of_cons]; [|by apply Hv in Hm|]; apply Hall; set_solver.
  - intros [Hall _] Ht. assert (forall f, f ∈ q -> M f x) as Hm.
    { intros f Hf. destruct (Hpos f Hf). by apply (positive_satisfies M f x), Hall. }
    split.
    + exists (withOperation v UNION). split_and!; [set_solver|done|]. split; [|done]. apply Hv, Hm. unfold q. set_solver.
    + intros f Hf Ef. split; [|done]. apply elem_of_app in Hf as [Hf|[-> |Hf]%elem_of_cons]; [|done|]; apply Hm; unfold q; set_solver.
Qed.

(** A conjunction sent fragment by fragment. *)
Lemma fragment_conjunction (q : PbBitmapQuery) index disable ms : ms <> [] ->
  Forall (ready index (pq_Query q)) ms -> (forall f, f ∈ pq_Query q -> pf_Id f <> []) -> conjunctive (pq_Query q) ->
  bitmapQueryShouldUseFragmentFanout (ensureBitmapQueryHasUnion (pq_Query q)) disable = true ->
  let fromTime := UnixUTC (pq_FromTime q) in
  let toTime := UnixUTC (pq_ToTime q) in
  let meant := answer (matchesOn ms fromTime toTime) (inTableOn ms fromTime toTime index) (pq_Query q) in
  exists result ms', query order sampling q disable (mkClient None ms) =
      (Ok (result, GetCardinality result), mkClient None ms') /\ reseeded ms ms' /\
    (existsb pf_NullCheck (pq_Query q) = true -> forall x, Contains result x = false) /\
    (existsb pf_NullCheck (pq_Query q) = false -> rangedOn ms fromTime toTime (pq_Query q) ->
     forall x, (Contains result x = true -> meant x) /\
       (meant x -> inTableOn ms fromTime toTime index x -> Contains result x = true)).
Proof.
  intros Hne Hms Hids Hc Hfan. cbn zeta.
  set (fromTime := UnixUTC (pq_FromTime q)). set (toTime := UnixUTC (pq_ToTime q)).
  destruct (fragment_query_rows order sampling Ho q index disable ms Hne Hms Hids Hfan) as (result & ms' & Eq & Hre & Hnone & Hr).
  fold fromTime toTime in Hr. exists result, ms'. do 2 (split; [done|]).
  destruct (fanned_cases _ _ Hc Hfan) as [[Hnull Eens]|(q1 & v & q2 & Eq0 & Eens & Hneed & Hnull & Hpos)]; rewrite Eens in Hr, Hnone.
  - split; [|congruence]. intros _. apply Hnone. intros f Hf. destruct (proj1 (Forall_forall _ _) Hc f Hf); congruence.
  - rewrite Eq0 in *.
    pose proof (fun x => positive_rows (matchesOn ms fromTime toTime) (inTableOn ms fromTime toTime index) q1 v q2 x
      (fun op => iff_refl _) Hpos Hneed) as Hrows.
    split; [congruence|]. intros _ HR x. split; [intros Hx%(Hr HR); by apply (Hrows x)|].
    intros Hx Ht. apply (Hr HR). by apply (Hrows x).
Qed.

(** ** Queries of a client *)

Context (uuids : nat -> bytes) (Hinj : Inj eq eq uuids).
Context (q : BitmapQuery) (t : FragmentTree) (Ht : bq_root q = Some t).
Context (m : BitmapIndex B I) (index : bytes) (Hask : askable m index (fragments t)) (Hag : shardsAgree m).

(** The window of the query, and the rows of a node that satisfy it. *)
Definition windowFrom : Time := UnixUTC (pq_FromTime (ToProto uuids q)).
Definition windowTo : Time := UnixUTC (pq_ToTime (ToProto uuids q)).
Definition satisfying (x : Z) : Prop :=
  answer (matches m windowFrom windowTo) (inTable m windowFrom windowTo index) (map asked (fragments t)) x.

Lemma sent_satisfying x :
  answer (matches m windowFrom windowTo) (inTable m windowFrom windowTo index) (pq_Query (ToProto uuids q)) x <->
  satisfying x.
Proof.
  destruct (askable_answerable m index uuids q t Hinj Ht Hask) as (_ & _ & Hcar). by apply carries_answer.
Qed.

Lemma sent_ranged n : Forall (fun f => ranged n windowFrom windowTo (asked f)) (fragments t) ->
  Forall (ranged n windowFrom windowTo) (pq_Query (ToProto uuids q)).
Proof.
  intros HR. destruct (askable_answerable m index uuids q t Hinj Ht Hask) as (_ & _ & Hcar).
  refine (proj2 (carries_forall _ _ (fragments t) _ Hcar) (proj2 (Forall_map _ _ _) HR)). done.
Qed.

(** A conjunction with the rows of an earlier step as candidates, on an in-process
    node: every candidate that satisfies it is returned, and every row returned satisfies
    it, if it has the values it is asked for as a candidate. *)
Theorem seeded_query_exact rownums active : seedsCoherent m -> Forall (fun x => 0 <= x < 2 ^ 64) rownums ->
  Forall (fun f => ranged m windowFrom windowTo (asked f)) (fragments t) ->
  let prior := mkPrior index (Some (BitmapOf rownums)) true in
  let sent := ensureBitmapQueryHasUnion (pq_Query (ToProto uuids q)) in
  exists result seeds, Client_QueryWithFoundSet order uuids q index rownums (mkClient (Some m) active) =
      (Ok (Some (result, GetCardinality result)), mkClient (Some (withSeedCache m seeds)) active) /\
    seedsCoherent (withSeedCache m seeds) /\
    (forall x, x ∈ rownums -> satisfying x -> Contains result x = true) /\
    (forall x, settled m windowFrom windowTo index prior sent x -> Contains result x = true -> satisfying x).
Proof.
  intros Hs Hrows HR%sent_ranged%ranged_ensure prior sent.
  destruct (askable_answerable m index uuids q t Hinj Ht Hask) as (Ha & Hc & _).
  destruct (query_answers order m index (mkPbBitmapQuery sent (pq_FromTime (ToProto uuids q)) (pq_ToTime (ToProto uuids q))) prior
    Ho (answerable_ensure m index _ Ha) Hag Hs ltac:(done)) as (qr & seeds & ir & dataMap & Eq & Hs' & Eir & Hans).
  apply answers_by in Hans. exists (intermediateResultFinalBitmap (Collapse ir)), seeds.
  assert (forall x, Contains (intermediateResultFinalBitmap (Collapse ir)) x = true <->
    finalOf (ParOr (im_unions ir)) (ParOr (im_existences ir)) (im_andDifferences ir) (im_intersects ir) x) as Hr.
  { intros x. apply (intermediateResultFinal_rows (Collapse ir)); [done..|apply Hans]. }
  split_and!; [|done| |].
  - unfold Client_QueryWithFoundSet, QueryWithFoundSet. cbn [bc_local bc_active]. fold prior sent. rewrite Eq.
    cbn [mbind go_bind unmarshalLocal]. by rewrite Eir.
  - intros x Hin Hx%sent_satisfying. apply Hr.
    refine (proj2 (conjunction_rows _ _ (inTable m _ _ index) _ ir index x _ Hc Hans _ _) Hx); [done|..].
    + intros v b Hsel. apply (sel_sound _ _ _ _ _ _ _ _ (Hsel HR)). by eapply answer_settled.
    + intros v b _ Hsel Hn Hm. apply (sel_complete _ _ _ _ _ _ _ _ (Hsel HR)); [|done]. intros _. split; [|exact Hn]. intros _.
      rewrite Contains_BitmapOf by done. by apply bool_decide_eq_true.
  - intros x Hset Hx%Hr. apply sent_satisfying.
    refine (conjunction_rows_sound _ _ (inTable m _ _ index) _ ir index x _ Hc Hans _ _ Hx); [done|..].
    + intros v b Hsel. by apply (sel_sound _ _ _ _ _ _ _ _ (Hsel HR)).
    + intros v b [Ev _]%elem_of_ofKind Hsel. apply (sel_complete _ _ _ _ _ _ _ _ (Hsel HR)).
      intros [_ [E|E]]%usesFoundSet_kind; congruence.
Qed.

(** The shards of the node on the nodes of a cluster. *)
Context (ms : list (BitmapIndex B I)) (Hp : placed m ms) (Hne : ms <> []).

Lemma cluster_answer x :
  answer (matchesOn ms windowFrom windowTo) (inTableOn ms windowFrom windowTo index) (pq_Query (ToProto uuids q)) x <->
  satisfying x.
Proof.
  rewrite <- sent_satisfying. unfold answer. rewrite (placed_inTable m ms Hp). apply and_iff_compat_r.
  split; intros Hall v Hv; specialize (Hall v Hv); unfold satisfies in *;
    pose proof (placed_matches m ms Hp windowFrom windowTo v x); repeat case_match; tauto.
Qed.

Lemma message_ids : (forall n, uuids n <> []) -> forall f, f ∈ pq_Query (ToProto uuids q) -> pf_Id f <> [].
Proof.
  intros Hu f Hf. assert (pf_Id f ∈ map pf_Id (pq_Query (ToProto uuids q))) as Hin by by apply list_elem_of_fmap_2.
  unfold ToProto in Hin. cbn [pq_Query] in Hin. rewrite Ht in Hin. pose proof (toProtoFrag_shape uuids t 0) as Hs.
  destruct (toProtoFrag uuids t 0) as [[fa id] k]. destruct Hs as (_ & S & _). cbn in Hin. rewrite S in Hin.
  apply list_elem_of_fmap in Hin as (i & -> & _). apply Hu.
Qed.

(** The operands of every comparison lie between two values of its field on every node
    that has values of it. *)
Definition clusterRanged : Prop :=
  Forall (fun n => Forall (fun f => ranged n windowFrom windowTo (asked f)) (fragments t)) ms.

Lemma cluster_ranged : clusterRanged -> rangedOn ms windowFrom windowTo (pq_Query (ToProto uuids q)).
Proof. intros HR. eapply Forall_impl; [exact HR|]. apply sent_ranged. Qed.

(** C4. A conjunction of positive conditions sent fragment by fragment, or one that is
    sent whole with one narrowing fragment at most, succeeds on a cluster and returns
    exactly the rows that satisfy it on the shards of all nodes.  The shards are placed on
    the nodes that own them, and do not give a row two values of a field; the seed caches
    are coherent; every operand is in the range of its field on each node that has values
    of it; the rows that satisfy the query are rows of the table. *)
Theorem cluster_query_exact : Forall (fun n => seedsCoherent n) ms -> (forall n, uuids n <> []) ->
  clusterAnswers (pq_Query (ToProto uuids q)) (bq_DisableFragmentFanout q) = true -> clusterRanged ->
  (forall x, satisfying x -> inTable m windowFrom windowTo index x) ->
  exists result ms', Client_Query order sampling uuids q (mkClient None ms) =
      (Ok (result, GetCardinality result), mkClient None ms') /\ reseeded ms ms' /\
    forall x, Contains result x = true <-> satisfying x.
Proof.
  intros Hs Hu Hans HR%cluster_ranged Hcov. destruct (askable_answerable m index uuids q t Hinj Ht Hask) as (Ha & Hc & _).
  pose proof (placed_ready m ms Hp index _ Ha Hag Hs) as Hready. pose proof (message_ids Hu) as Hids.
  unfold Client_Query, clusterAnswers in *.
  destruct (bitmapQueryShouldUseFragmentFanout _ _) eqn:Efan.
  - destruct (fragment_conjunction _ index _ ms Hne Hready Hids Hc Efan) as (result & ms' & Eq & Hre & _ & Hrows).
    apply negb_true_iff in Hans. exists result, ms'. do 2 (split; [done|]). intros x. destruct (Hrows Hans HR x) as [Hsound Hcomp].
    split; [intros Hx; by apply cluster_answer, Hsound|].
    intros Hx. apply Hcomp; [by apply cluster_answer|by apply (placed_inTable m ms Hp), Hcov].
  - apply Nat.leb_le in Hans.
    destruct (whole_query_rows order sampling Ho _ index _ ms Hne Hready Hc Efan HR Hans) as (result & ms' & Eq & Hre & Hrows).
    exists result, ms'. do 2 (split; [done|]). intros x. rewrite Hrows. apply cluster_answer.
Qed.


(** C38. A conjunction with a test for a value (IS NOT NULL) that is sent fragment by
    fragment returns no rows on a cluster, also when rows satisfy it: no fragment is sent as
    a union then, and the existence of the table is not gathered.  The shards are placed on
    the nodes and give no row two values of a field, and the seed caches are coherent. *)
Theorem null_check_fanout_empty : Forall (fun n => seedsCoherent n) ms -> (forall n, uuids n <> []) ->
  let pq := pq_Query (ToProto uuids q) in
  bitmapQueryShouldUseFragmentFanout (ensureBitmapQueryHasUnion pq) (bq_DisableFragmentFanout q) = true ->
  existsb pf_NullCheck pq = true ->
  exists result ms', Client_Query order sampling uuids q (mkClient None ms) =
      (Ok (result, GetCardinality result), mkClient None ms') /\ forall x, Contains result x = false.
Proof.
  intros Hs Hu. cbn zeta. intros Hfan Hnull.
  destruct (askable_answerable m index uuids q t Hinj Ht Hask) as (Ha & Hc & _).
  destruct (fragment_conjunction _ index _ ms Hne (placed_ready m ms Hp index _ Ha Hag Hs) (message_ids Hu) Hc Hfan)
    as (result & ms' & Eq & _ & Hnone & _). exists result, ms'. split; [done|]. by apply Hnone.
Qed.

End Rows.

(** ** Reads after writes *)

Section History.

Context {B I : Type} `{RoaringOpsLaws B} `{!BSILib B I} `{!BSILaws B I} `{!TransposeLib B I}.
Context `{!BSISliceLib B I} `{!BSISliceLaws B I} `{!BitmapWriteLib B I} `{!BitmapWriteLaws B I}.

Implicit Types (m : BitmapIndex B I) (c : Cells).

(** A fragment on a field with values: a comparison, or a null check. *)
Definition valueTest m v : Prop :=
  if pf_NullCheck v then isBSI m (pf_Index v) (pf_Field v) = Ok true else pf_BsiOp v <> BSI_NA.

(** What a fragment and the table mean for given values. *)
Definition cellsMatch c m (fromTime toTime : Time) v (x : Z) : Prop :=
  if pf_NullCheck v
  then exists ts, is_Some (c (pf_Index v) (pf_Field v) ts x) /\ existenceShard m fromTime toTime (pf_Index v) (pf_Field v) ts = true
  else exists ts value, c (pf_Index v) (pf_Field v) ts x = Some value /\
         valueShard m fromTime toTime (pf_Index v) (pf_Field v) ts = true /\ condition v value = true.

Definition cellsTable c m (fromTime toTime : Time) (index : bytes) (x : Z) : Prop :=
  exists field ts, tableKey m index = Some field /\ is_Some (c index field ts x) /\
    existenceShard m fromTime toTime index field ts = true.

Lemma rowExists_cells m fromTime toTime index field x : rowExists m fromTime toTime index field x <->
  exists ts, is_Some (shardValue m index field ts x) /\ existenceShard m fromTime toTime index field ts = true.
Proof.
  unfold rowExists. split.
  - intros (ts & bsi & Hs & Hw & Hx). exists ts. split; [|done]. apply existsAt_shard. eauto.
  - intros (ts & (bsi & Hs & Hx)%existsAt_shard & Hw). eauto.
Qed.

Lemma matches_cells m c fromTime toTime v x : valueTest m v ->
  (forall index field ts x, shardValue m index field ts x = c index field ts x) ->
  matches m fromTime toTime v x <-> cellsMatch c m fromTime toTime v x.
Proof.
  intros Hv Hc. unfold matches, cellsMatch, valueTest in *. destruct (pf_NullCheck v); cbn [andb].
  - rewrite Hv. cbn. rewrite rowExists_cells. by setoid_rewrite Hc.
  - rewrite decide_True by done. setoid_rewrite <- Hc. unfold hasValue, shardValue. split.
    + intros (value & (ts & bsi & Hs & Hw & Hx) & Hcond). exists ts, value. by rewrite Hs.
    + intros (ts & value & Hx & Hw & Hcond). exists value. split; [|done]. exists ts.
      destruct (bsiShards m _ _ !! ts) as [bsi|]; [by exists bsi|done].
Qed.

(** The values of the field of a fragment that lie in its window. *)
Definition cellsValue c m (fromTime toTime : Time) v (x value : Z) : Prop :=
  exists ts, c (pf_Index v) (pf_Field v) ts x = Some value /\ valueShard m fromTime toTime (pf_Index v) (pf_Field v) ts = true.

(** A query of two fragments at most, or a row with a value in every field that is
    compared: no comparison meets the row among the candidates without its value. *)
Definition comparable c m (fromTime toTime : Time) (ns : list QueryFragment) (x : Z) : Prop :=
  (length ns <= 2)%nat \/
  Forall (fun n => operands (asked n) <> [] -> exists value, cellsValue c m fromTime toTime (asked n) x value) ns.

Section Values.

Context m c (fromTime toTime : Time) (Hc : forall index field ts x, shardValue m index field ts x = c index field ts x).

Lemma hasValue_cells v x value : hasValue m fromTime toTime (pf_Index v) (pf_Field v) x value <-> cellsValue c m fromTime toTime v x value.
Proof.
  unfold cellsValue. setoid_rewrite <- Hc. unfold hasValue, shardValue. split.
  - intros (ts & bsi & Hs & Hw & Hx). exists ts. by rewrite Hs.
  - intros (ts & Hx & Hw). exists ts. destruct (bsiShards m _ _ !! ts) as [bsi|]; [by exists bsi|done].
Qed.

Lemma ranged_cells v : Forall (between (cellsValue c m fromTime toTime v)) (operands v) -> ranged m fromTime toTime v.
Proof. intros HR. eapply Forall_impl; [exact HR|]. intros a. apply between_ext. intros x value. apply hasValue_cells. Qed.

Lemma inTable_cells index x : inTable m fromTime toTime index x <-> cellsTable c m fromTime toTime index x.
Proof. unfold inTable, cellsTable. setoid_rewrite rowExists_cells. setoid_rewrite Hc. naive_solver. Qed.

Lemma comparable_settled index q ns x : conjunctive q -> Forall2 carries q ns -> comparable c m fromTime toTime ns x ->
  settled m fromTime toTime index (noPrior (B := B)) (ensureBitmapQueryHasUnion q) x.
Proof.
  intros Hq Hcar [Hl|Hall]; [apply settled_few; [done|]; by rewrite (Forall2_length _ _ _ Hcar)|].
  intros _ w Hw _ Ho.
  assert (Forall (fun v => operands v <> [] -> valued m fromTime toTime v x) q) as Hq'.
  { refine (proj2 (carries_forall _ _ ns _ Hcar) _); [done|]. apply Forall_map. eapply Forall_impl; [exact Hall|].
    intros n Hn Hop. destruct (Hn Hop) as [value Hv]. exists value. by apply hasValue_cells. }
  assert (Forall (fun v => operands v <> [] -> valued m fromTime toTime v x) (ensureBitmapQueryHasUnion q)) as Hsent
    by (eapply sentAs_forall; [|apply ensure_sentAs|exact Hq']; done).
  exact (proj1 (Forall_forall _ _) Hsent w Hw Ho).
Qed.

End Values.

(** C3. Reads see writes: after a history of requests and queries a conjunction of value
    tests on an in-process node succeeds, returns every row that satisfies it on the values
    that the requests gave, and returns no other row of those that have a value in every
    field compared; with two tests at most it returns no other row at all.  A request of the
    history changes only shards that a cached window takes in exactly when its bounds include
    the time of the shard; no row has two values of a field when the node is asked, in the
    history and at its end; the operands lie between two values of their field. *)
Theorem query_after_history order sampling uuids q t m0 m c index active :
  (forall l, order l ≡ₚ l) -> Inj eq eq uuids -> bq_root q = Some t ->
  seedsCoherent m0 -> Reached order m0 m c -> askable m index (fragments t) ->
  Forall (fun n => valueTest m (asked n)) (fragments t) -> shardsAgree m ->
  let fromTime := windowFrom uuids q in
  let toTime := windowTo uuids q in
  Forall (fun n => Forall (between (cellsValue c m fromTime toTime (asked n))) (operands (asked n))) (fragments t) ->
  let meant := answer (cellsMatch c m fromTime toTime) (cellsTable c m fromTime toTime index) (map asked (fragments t)) in
  exists result seeds, Client_Query order sampling uuids q (mkClient (Some m) active) =
      (Ok (result, wrap_u 64 (GetCardinality result)), mkClient (Some (withSeedCache m seeds)) active) /\
    forall x, (meant x -> Contains result x = true) /\
      (comparable c m fromTime toTime (fragments t) x -> Contains result x = true -> meant x).
Proof.
  intros Ho Hinj Ht Hs0 Hreach Hask Htests Hag fromTime toTime HR meant.
  destruct (history_coherent order m0 m c Ho Hs0 Hreach) as [Hs Hc].
  destruct (askable_answerable m index uuids q t Hinj Ht Hask) as (Ha & Hconj & Hcar).
  destruct (local_query_rows order sampling m (ToProto uuids q) index (bq_DisableFragmentFanout q) active Ho Ha Hconj Hag Hs)
    as (result & seeds & Eq & _ & Hr).
  { apply (sent_ranged uuids Hinj q t Ht m index Hask). eapply Forall_impl; [exact HR|]. intros n. by apply ranged_cells. }
  exists result, seeds. split; [done|]. intros x. specialize (Hr x).
  assert (satisfying uuids q t m index x <-> meant x) as Hm.
  { unfold satisfying, meant, answer. rewrite (inTable_cells m c _ _ Hc).
    apply and_iff_compat_r. apply forall_proper. intros v. apply forall_proper. intros (n & -> & Hn)%list_elem_of_fmap.
    pose proof (matches_cells m c fromTime toTime (asked n) x (proj1 (Forall_forall _ _) Htests n Hn) Hc) as Hm.
    unfold satisfies. repeat case_match; tauto. }
  rewrite <- Hm, <- (sent_satisfying uuids Hinj q t Ht m index Hask x). split; [apply Hr|].
  intros Hx. apply Hr. by eapply comparable_settled.
Qed.

End History.

(** ** Joins *)

Section Joins.

Context {B I : Type} `{Roaring B} `{!RoaringOps B} `{!BSILib B I} `{!TransposeLib B I}.
Context (order : list bytes -> list bytes) (sampling : list B -> Z -> list B).

Implicit Types (c : Client B I).

(** A client that has an in-process node, or nodes. *)
Definition connected c : bool := bool_decide (is_Some (bc_local c)) || negb (bool_decide (length (bc_active c) = 0%nat)).

Lemma bind_never {A C} (r : go A) (f : A -> go C) b : (forall a, r = Ok a -> f a <> Ok b) -> (r ≫= f) <> Ok b.
Proof. destruct r; [|done..]. intros Hf. by apply Hf. Qed.

Lemma nodeJoin_without_filters (m : BitmapIndex B I) req data : jr_FilterSets req = [] -> nodeJoin m req <> Ok data.
Proof.
  intros E. unfold nodeJoin. rewrite E. do 2 (case_decide; [done|]).
  apply bind_never. intros found _. apply bind_never. intros filters [= <-]. apply bind_never. intros bsis _.
  by destruct (bsis !! _).
Qed.

(** The join of a client's query, which never passes filter sets. *)
Lemma join_without_filters c driver fks fromTime toTime foundSet negate bsi : connected c = true ->
  Client_Join c driver fks fromTime toTime foundSet [] negate <> Ok bsi.
Proof.
  intros Hc. unfold Client_Join. apply bind_never. intros data _. apply bind_never. intros fs [= <-].
  set (req := mkJoinRequest _ _ _ _ _ _ _).
  assert (forall m d, nodeJoin m req <> Ok d) as Hn by (intros; by apply nodeJoin_without_filters).
  unfold connected in Hc. destruct (bc_local c) as [m|].
  - apply bind_never. intros d E. by apply Hn in E.
  - destruct (bc_active c) as [|m ms]; [done|]. apply bind_never. intros d E. exfalso. revert E. cbn [mapM].
    destruct (nodeJoin m req) as [d'| |] eqn:En; [by apply Hn in En|done..].
Qed.

Lemma performJoins_never c fromTime toTime results out : connected c = true ->
  (exists v, v ∈ results /\ im_joinFkList v <> []) -> performJoins c fromTime toTime results <> Ok out.
Proof.
  intros Hc (v & [i Hi]%list_elem_of_lookup & Hfk). unfold performJoins.
  destruct (concat _) as [|[j fk] jobs] eqn:E.
  - exfalso. apply Hfk. apply concat_nil_Forall in E. rewrite Forall_lookup in E.
    specialize (E i (map (fun fk => (i, fk)) (im_joinFkList v))). rewrite list_lookup_imap, Hi in E.
    specialize (E eq_refl). by destruct (im_joinFkList v).
  - cbn [foldGo]. apply bind_never. intros out' Ej. exfalso. revert Ej. unfold joinStep.
    destruct (results !! j); [|done]. destruct (list_find _ _) as [[k fki]|]; [|done].
    apply bind_never. intros rs Er. by apply join_without_filters in Er.
Qed.

(** C40. A query with a join never returns a result: the client sends its join requests
    without filter sets, and a node takes one of the request's filter sets by the position
    of a foreign key. *)
Theorem join_query_never_answers q disable c c1 results out :
  queryGroups order sampling (groupQueryFragmentsByIndex (ensureBitmapQueryHasUnion (pq_Query q)))
    (pq_FromTime q) (pq_ToTime q) disable c = (Ok results, c1) ->
  connected c1 = true -> (exists v, v ∈ results /\ im_joinFkList v <> []) ->
  (query order sampling q disable c).1 <> Ok out.
Proof.
  intros Eg Hc Hfk. unfold query. case_decide; [done|]. rewrite (bind_run _ _ _ _ _ Eg).
  destruct (selectDriver [] results) as [driver| |]; [rewrite bind_lift|done..].
  unfold joinGroups. unfold mbind, stgo_bind.
  destruct (performJoins c1 _ _ results) as [out'| |] eqn:Ep; [|done..]. by apply performJoins_never in Ep.
Qed.

End Joins.

(** ** An example *)

Section Example.

#[local] Existing Instance listRoaring.
#[local] Existing Instance listRoaring_laws.
#[local] Existing Instance listRoaringOps.
#[local] Existing Instance listRoaringOps_laws.
#[local] Existing Instance listBSI.
#[local] Existing Instance listBSI_laws.
#[local] Existing Instance listBSISlices.
#[local] Existing Instance listBSISlices_laws.
#[local] Existing Instance listWrites.
#[local] Existing Instance listWrites_laws.

#[local] Instance listTranspose : TransposeLib (list Z) (list (Z * Z)) := {|
  TransposeWithCounts i rows filterSet := i;
  BSI_MarshalBinary i := Ok [];
  BSI_UnmarshalBinary b := Ok [];
  BSI_Add i j := i ++ j |}.

Definition exampleShard (field : bytes) (rows : list (Z * Z)) : gmap (bytes * bytes) (gmap Z (list (Z * Z))) :=
  {[(str "users", field) := {[0 := rows]}]}.

Definition exampleOwner (field key : bytes) : bool := bool_decide (key = bsiHashKey (str "users") field 0).

(** All shards on one node, and each of the two on a node of its own. *)
Definition exampleLocal : BitmapIndex (list Z) (list (Z * Z)) :=
  mkBitmapIndex {[str "users" := exampleTable]} ∅
    (exampleShard (str "id") [(1, 10); (2, 20)] ∪ exampleShard (str "qty") [(1, 5); (2, 7)]) ∅ (fun _ => true).

Definition exampleNodes : list (BitmapIndex (list Z) (list (Z * Z))) :=
  [mkBitmapIndex {[str "users" := exampleTable]} ∅ (exampleShard (str "id") [(1, 10); (2, 20)]) ∅ (exampleOwner (str "id"));
   mkBitmapIndex {[str "users" := exampleTable]} ∅ (exampleShard (str "qty") [(1, 5); (2, 7)]) ∅ (exampleOwner (str "qty"))].

Definition comparison (field op : bytes) (value : Z) (nullCheck : bool) : QueryFragment :=
  mkQueryFragment (str "users") field 0 (Some value) [] (str "INTERSECT") op None None [] [] 0 nullCheck nullCheck false.

Definition exampleTree (nullCheck : bool) : FragmentTree :=
  FNode (comparison (str "qty") (str "GE") 5 nullCheck) [FNode (comparison (str "id") (str "LT") 15 false) []].

(** qty >= 5 (or qty IS NOT NULL) and id < 15. *)
Definition exampleQuery (nullCheck disable : bool) : BitmapQuery :=
  mkBitmapQuery (str "1970-01-01T00") (str "2030-01-01T00") disable (Some (exampleTree nullCheck)).

Definition exampleIds (n : nat) : bytes := replicate (S n) (byte_of 65).

#[local] Instance exampleIds_inj : Inj eq eq exampleIds.
Proof. intros n k E%(f_equal length). unfold exampleIds in E. rewrite !length_replicate in E. lia. Qed.

Definition sent (nullCheck disable : bool) : list PbFragment :=
  pq_Query (ToProto exampleIds (exampleQuery nullCheck disable)).

Lemma exampleField_known field : field = str "id" \/ field = str "qty" -> knownField exampleLocal (str "users") field.
Proof.
  intros Hf. assert (plainName (str "users")) by (apply (bool_decide_unpack _); by vm_compute).
  destruct Hf as [-> | ->]; split_and!; try done; first [by vm_compute|by apply (bool_decide_unpack _); vm_compute].
Qed.

Lemma example_askable nullCheck : askable exampleLocal (str "users") (fragments (exampleTree nullCheck)).
Proof.
  split.
  - do 2 (constructor; [split_and!; [done|apply exampleField_known; auto|done|done]|]). constructor.
  - repeat constructor; by vm_compute; left.
  - done.
  - exists (str "id"). split; [by vm_compute|apply exampleField_known; auto].
Qed.

(** Fields with one shard each give no row two values. *)
Lemma single_shards_agree (m : BitmapIndex (list Z) (list (Z * Z))) :
  map_Forall (fun _ shards => length (map_to_list shards) = 1%nat) (bi_bsiCache m) -> shardsAgree m.
Proof.
  intros Hall index field. unfold bsiShards. destruct (bi_bsiCache m !! (index, field)) as [shards|] eqn:E; cbn [default from_option id];
    [|intros i j x v w Hi; rewrite map_to_list_empty in Hi; by apply elem_of_nil in Hi].
  specialize (Hall _ _ E). cbn in Hall. destruct (map_to_list shards) as [|[ts bsi] [|]]; [done| |done].
  intros i j x v w ->%list_elem_of_singleton ->%list_elem_of_singleton Ev Ew. congruence.
Qed.

Lemma example_agree : shardsAgree exampleLocal.
Proof. apply single_shards_agree, (bool_decide_unpack _). by vm_compute. Qed.

Lemma empty_seeds (m : BitmapIndex (list Z) (list (Z * Z))) : bi_seedCache m = ∅ -> seedsCoherent m.
Proof. intros E index field fromTime toTime entry _ _ _ _. by rewrite E. Qed.

Lemma example_seeds : Forall (fun n => seedsCoherent n) exampleNodes.
Proof. do 2 (constructor; [by apply empty_seeds|]). constructor. Qed.

(** Placement of value shards, as a test. *)
Definition shardsPlaced (m : BitmapIndex (list Z) (list (Z * Z))) (ms : list (BitmapIndex (list Z) (list (Z * Z)))) : bool :=
  forallb (fun n => bool_decide (map_Forall (fun k => map_Forall (fun ts bsi =>
    bsiShards m k.1 k.2 !! ts = Some bsi)) (bi_bsiCache n))) ms &&
  bool_decide (map_Forall (fun k => map_Forall (fun ts bsi => Exists (fun n =>
    bsiShards n k.1 k.2 !! ts = Some bsi /\ Member n (bsiHashKey k.1 k.2 ts) = true) ms)) (bi_bsiCache m)).

Lemma bsiShards_lookup (m : BitmapIndex (list Z) (list (Z * Z))) index field ts bsi :
  bsiShards m index field !! ts = Some bsi <->
  exists shards, bi_bsiCache m !! (index, field) = Some shards /\ shards !! ts = Some bsi.
Proof.
  unfold bsiShards. destruct (bi_bsiCache m !! (index, field)) as [shards|]; cbn; [naive_solver|].
  split; [done|]. by intros (? & ? & _).
Qed.

Lemma placed_by_test m ms : Forall (fun n => bi_tableCache n = bi_tableCache m /\ bi_bitmapCache n = ∅) ms ->
  bi_bitmapCache m = ∅ -> (forall key, Member m key = true) -> shardsPlaced m ms = true -> placed m ms.
Proof.
  intros Hms Em Hmem [Hin Hown%bool_decide_eq_true]%andb_true_iff. rewrite forallb_forall in Hin.
  assert (forall (n : BitmapIndex (list Z) (list (Z * Z))) index field rowID, bi_bitmapCache n = ∅ ->
    rowShards n index field rowID = ∅) as Hrows by (intros n ix f r E; unfold rowShards; by rewrite E).
  split.
  - intros n Hn. apply (proj1 (Forall_forall _ _) Hms n Hn).
  - done.
  - intros n index field ts bsi Hn (shards & Hs & Hb)%bsiShards_lookup. apply list_elem_of_In, Hin, bool_decide_eq_true in Hn.
    exact (Hn _ _ Hs _ _ Hb).
  - intros n index field rowID ts bits Hn. rewrite Hrows; [done|]. apply (proj1 (Forall_forall _ _) Hms n Hn).
  - intros index field ts bsi (shards & Hs & Hb)%bsiShards_lookup. apply Exists_exists. exact (Hown _ _ Hs _ _ Hb).
  - intros index field rowID ts bits. by rewrite Hrows.
Qed.

Lemma example_placed : placed exampleLocal exampleNodes.
Proof. apply placed_by_test; [by repeat constructor|done|done|by vm_compute]. Qed.

(** A row with a key value is a row of the table. *)
Lemma example_covered nullCheck disable x :
  satisfying exampleIds (exampleQuery nullCheck disable) (exampleTree nullCheck) exampleLocal (str "users") x ->
  inTable exampleLocal (windowFrom exampleIds (exampleQuery nullCheck disable))
    (windowTo exampleIds (exampleQuery nullCheck disable)) (str "users") x.
Proof.
  intros [Hall _]. specialize (Hall (asked (comparison (str "id") (str "LT") 15 false)) ltac:(set_solver)).
  destruct Hall as (value & (ts & bsi & Hs & Hv & Hx) & _). exists (str "id"). split; [by vm_compute|].
  exists ts, bsi. split_and!; [done|done|]. rewrite Contains_existence, Hx. done.
Qed.

(** The operands are between two values of the shards a node reads, as a test. *)
Definition rangedTest (m : BitmapIndex (list Z) (list (Z * Z))) (fromTime toTime : Time) (v : PbFragment) : bool :=
  let values := concat (omap (fun '(ts, bsi) => if valueShard m fromTime toTime (pf_Index v) (pf_Field v) ts
                                               then Some (omap (listValue bsi) (map fst bsi)) else None)
                         (map_to_list (bsiShards m (pf_Index v) (pf_Field v)))) in
  bool_decide (values = []) || forallb (fun a => existsb (fun lo => lo <=? a) values && existsb (fun hi => a <=? hi) values) (operands v).

Lemma rangedTest_values (m : BitmapIndex (list Z) (list (Z * Z))) fromTime toTime v value :
  value ∈ concat (omap (fun '(ts, bsi) => if valueShard m fromTime toTime (pf_Index v) (pf_Field v) ts
                                         then Some (omap (listValue bsi) (map fst bsi)) else None)
                   (map_to_list (bsiShards m (pf_Index v) (pf_Field v)))) <->
  exists x, hasValue m fromTime toTime (pf_Index v) (pf_Field v) x value.
Proof.
  rewrite list_elem_of_In, in_concat. setoid_rewrite <- list_elem_of_In. setoid_rewrite list_elem_of_omap. unfold hasValue. split.
  - intros (l & ([ts bsi] & Hin%elem_of_map_to_list & E) & Hv). destruct (valueShard _ _ _ _ _ ts) eqn:Ew; [|done].
    injection E as <-. apply list_elem_of_omap in Hv as (x & _ & Hx). by exists x, ts, bsi.
  - intros (x & ts & bsi & Hs & Hw & Hx). exists (omap (listValue bsi) (map fst bsi)). split.
    + exists (ts, bsi). split; [by apply elem_of_map_to_list|]. by rewrite Hw.
    + apply list_elem_of_omap. exists x. split; [|done]. apply listValue_is_Some. by exists value.
Qed.

Lemma ranged_by_test (m : BitmapIndex (list Z) (list (Z * Z))) fromTime toTime v :
  rangedTest m fromTime toTime v = true -> ranged m fromTime toTime v.
Proof.
  unfold rangedTest. cbn zeta. intros [E%bool_decide_eq_true|E]%orb_true_iff; apply Forall_forall; intros a Ha x value Hv.
  - assert (exists x, hasValue m fromTime toTime (pf_Index v) (pf_Field v) x value) as Hex%rangedTest_values by by exists x.
    rewrite E in Hex. by apply elem_of_nil in Hex.
  - rewrite forallb_forall in E. apply list_elem_of_In, E, andb_true_iff in Ha as [Hlo Hhi].
    apply existsb_exists in Hlo as (lo & Hlo%list_elem_of_In & ?). apply existsb_exists in Hhi as (hi & Hhi%list_elem_of_In & ?).
    apply rangedTest_values in Hlo as [y Hy]. apply rangedTest_values in Hhi as [z Hz]. exists y, lo, z, hi. split_and!; [done|done|lia|lia].
Qed.

(** The same on an example. *)
Lemma seeded_query_exact_witness :
  exists result seeds, Client_QueryWithFoundSet (B := list Z) (fun l => l) exampleIds (exampleQuery false false)
      (str "users") [2; 1] (mkClient (Some exampleLocal) []) =
      (Ok (Some (result, GetCardinality result)), mkClient (Some (withSeedCache exampleLocal seeds)) []) /\
    seedsCoherent (withSeedCache exampleLocal seeds) /\
    (forall x, x ∈ [2; 1] ->
      satisfying exampleIds (exampleQuery false false) (exampleTree false) exampleLocal (str "users") x ->
      Contains result x = true) /\
    (forall x, settled exampleLocal (windowFrom exampleIds (exampleQuery false false)) (windowTo exampleIds (exampleQuery false false))
        (str "users") (mkPrior (str "users") (Some (BitmapOf [2; 1])) true) (ensureBitmapQueryHasUnion (sent false false)) x ->
      Contains result x = true ->
      satisfying exampleIds (exampleQuery false false) (exampleTree false) exampleLocal (str "users") x).
Proof.
  apply (seeded_query_exact (fun l => l) (fun l => reflexivity l) exampleIds exampleIds_inj
    (exampleQuery false false) (exampleTree false) eq_refl exampleLocal (str "users") (example_askable false) example_agree
    [2; 1] []); [by apply empty_seeds|repeat constructor; lia|].
  repeat (constructor; [by apply ranged_by_test; vm_compute|]). constructor.
Defined.

Lemma example_ranged : clusterRanged exampleIds (exampleQuery false false) (exampleTree false) exampleNodes.
Proof. do 2 (constructor; [do 2 (constructor; [by apply ranged_by_test; vm_compute|]); constructor|]). constructor. Qed.

(** The same on an example. *)
Lemma cluster_query_exact_witness :
  exists result ms', Client_Query (B := list Z) (fun l => l) (fun l _ => l) exampleIds (exampleQuery false false)
      (mkClient None exampleNodes) = (Ok (result, GetCardinality result), mkClient None ms') /\ reseeded exampleNodes ms' /\
    forall x, Contains result x = true <->
      satisfying exampleIds (exampleQuery false false) (exampleTree false) exampleLocal (str "users") x.
Proof.
  apply (cluster_query_exact (fun l => l) (fun l _ => l) (fun l => reflexivity l) exampleIds exampleIds_inj
    (exampleQuery false false) (exampleTree false) eq_refl exampleLocal (str "users") (example_askable false) example_agree
    exampleNodes example_placed); [done|apply example_seeds|done|by vm_compute|apply example_ranged|apply example_covered].
Defined.

(** The same on an example. *)
Lemma null_check_fanout_empty_witness :
  exists result ms', Client_Query (B := list Z) (fun l => l) (fun l _ => l) exampleIds (exampleQuery true false)
      (mkClient None exampleNodes) = (Ok (result, GetCardinality result), mkClient None ms') /\
    forall x, Contains result x = false.
Proof.
  apply (null_check_fanout_empty (fun l => l) (fun l _ => l) (fun l => reflexivity l) exampleIds exampleIds_inj
    (exampleQuery true false) (exampleTree true) eq_refl exampleLocal (str "users") (example_askable true) example_agree
    exampleNodes example_placed); [done|apply example_seeds|done|by vm_compute|by vm_compute].
Defined.

(** qty >= -5, on the node that the example of writes leaves. *)
Definition writtenTree : FragmentTree := FNode (comparison (str "qty") (str "GE") (-5) false) [].

Definition writtenQuery : BitmapQuery :=
  mkBitmapQuery (str "1970-01-01T00") (str "2030-01-01T00") false (Some writtenTree).

Lemma written_askable : askable exampleWritten (str "users") (fragments writtenTree).
Proof.
  assert (bi_tableCache exampleWritten = bi_tableCache exampleLocal) as E by apply exampleWritten_tables.
  assert (forall field, knownField exampleLocal (str "users") field -> knownField exampleWritten (str "users") field) as Hk
    by (intros field; unfold knownField, schemaOf; by rewrite E).
  split.
  - constructor; [split_and!; [done|apply Hk, exampleField_known; auto|done|done]|constructor].
  - repeat constructor; by vm_compute; left.
  - done.
  - exists (str "id"). split; [by vm_compute|apply Hk, exampleField_known; auto].
Qed.

Definition writtenCells : Cells :=
  applyEffect (EPut (str "users") (str "qty") 0 (GetBigValue (B := list Z) [(1, -5); (2, 7)])) (shardValue exampleNode).

(** The same on an example. *)
Lemma query_after_history_witness :
  let fromTime := windowFrom exampleIds writtenQuery in
  let toTime := windowTo exampleIds writtenQuery in
  let meant := answer (cellsMatch writtenCells exampleWritten fromTime toTime)
    (cellsTable writtenCells exampleWritten fromTime toTime (str "users")) (map asked (fragments writtenTree)) in
  exists result seeds, Client_Query (B := list Z) (fun l => l) (fun l _ => l) exampleIds writtenQuery
      (mkClient (Some exampleWritten) []) =
      (Ok (result, wrap_u 64 (GetCardinality result)), mkClient (Some (withSeedCache exampleWritten seeds)) []) /\
    forall x, (meant x -> Contains result x = true) /\
      (comparable writtenCells exampleWritten fromTime toTime (fragments writtenTree) x -> Contains result x = true -> meant x).
Proof.
  apply (query_after_history (fun l => l) (fun l _ => l) exampleIds writtenQuery writtenTree exampleNode exampleWritten
    _ (str "users") []); [done|apply _|done| |apply exampleWritten_reached|apply written_askable| | |].
  - by apply empty_seeds.
  - by repeat constructor.
  - apply single_shards_agree, (bool_decide_unpack _). by vm_compute.
  - constructor; [|constructor]. constructor; [|constructor]. intros x value _. exists 1, (-5), 2, 7.
    split_and!; [exists 0; split; by vm_compute|exists 0; split; by vm_compute|by vm_compute|by vm_compute].
Defined.

(** id IS NOT NULL, from 2020 on. *)
Definition lateQuery : BitmapQuery :=
  mkBitmapQuery (str "2020-01-01T00") (str "2030-01-01T00") false
    (Some (FNode (mkQueryFragment (str "users") (str "id") 0 None [] (str "INTERSECT") (str "NA") None None [] [] 0 true true false) [])).

Definition askLate (m : BitmapIndex (list Z) (list (Z * Z))) : go (list Z * Z) * Client (list Z) (list (Z * Z)) :=
  Client_Query (B := list Z) (fun l => l) (fun l _ => l) exampleIds lateQuery (mkClient (Some m) []).

Definition putRow9 : BitmapFragment :=
  mkBitmapFragment (str "users") (str "id") (-1) 0 (valuesOf [(9, 90)]) true false false.

(** A write between two queries, on a table without a time quantum. *)
Definition lateWrite : BitmapIndex (list Z) (list (Z * Z)) :=
  (applyFragment putRow9 (default exampleLocal (bc_local (askLate exampleLocal).2))).2.

(** The seed cache of a table without a time quantum goes stale when the window of a
    query does not include time zero: the rows cached by the first query are returned by
    the second, although a row was written between them.  Without the first query the row
    is found. *)
Lemma stale_seed_without_quantum :
  (askLate exampleLocal).1 = Ok ([1; 2], 2) /\
  shardValue lateWrite (str "users") (str "id") 0 9 = Some 90 /\ (askLate lateWrite).1 = Ok ([1; 2], 2) /\
  (askLate (applyFragment putRow9 exampleLocal).2).1 = Ok ([1; 2; 9], 3).
Proof. by vm_compute. Qed.

(** id < 15, joined with a table that qty refers to. *)
Definition joinQuery : PbBitmapQuery :=
  ToProto exampleIds (mkBitmapQuery (str "1970-01-01T00") (str "2030-01-01T00") false
    (Some (FNode (comparison (str "id") (str "LT") 15 false)
      [FNode (mkQueryFragment (str "users") (str "qty") 0 None [] (str "INNER_JOIN") (str "NA") None None (str "orders") [] 0
                false false false) []]))).

Definition joinGroupResults : go (list (IntermediateResult (list Z))) * Client (list Z) (list (Z * Z)) :=
  queryGroups (fun l => l) (fun l _ => l) (groupQueryFragmentsByIndex (ensureBitmapQueryHasUnion (pq_Query joinQuery)))
    (pq_FromTime joinQuery) (pq_ToTime joinQuery) false (mkClient (Some exampleLocal) []).

(** The same on an example. *)
Lemma join_query_never_answers_witness :
  (query (B := list Z) (fun l => l) (fun l _ => l) joinQuery false (mkClient (Some exampleLocal) [])).1 <> Ok ([], 0).
Proof.
  apply (join_query_never_answers _ _ joinQuery false _ joinGroupResults.2 (default [] (go_option joinGroupResults.1)) ([], 0)).
  - assert (is_ok joinGroupResults.1 = true) as E by by vm_compute. fold joinGroupResults.
    destruct joinGroupResults as [[results| |] c1]; done.
  - by vm_compute.
  - apply Exists_exists. vm_compute. by left.
Defined.

(** The in-process node returns the row that the cluster does not. *)
Lemma null_check_in_process :
  (Client_Query (B := list Z) (fun l => l) (fun l _ => l) exampleIds (exampleQuery true false)
    (mkClient (Some exampleLocal) [])).1 = Ok ([1], 1) /\
  (Client_Query (B := list Z) (fun l => l) (fun l _ => l) exampleIds (exampleQuery true false)
    (mkClient None exampleNodes)).1 = Ok ([], 0).
Proof. by vm_compute. Qed.

















End Example.
