(* ===== verification/TableBuffer.v ===== *)
(** * Table buffers

    The state an ingest session keeps for a table (core/session.go, TableBuffer):
    the attributes of the key, the sequencers it holds, the identifier of the
    current row.  The node is the one in the same process
    (shared/bitmap.go, CheckoutSequence with a local service). *)

From S2P Require Import Prelude GoStd GoState GoTime Value Catalog Sequencer.
From Stdlib Require Import Sorting.Sorted.

(** The map of key attributes by name and the row cache are left out: the code
    modelled here does not read them. *)
Record TableBuffer : Type := mkTableBuffer {
  tbf_Table : Table;
  sequencerCache : gmap Z Sequencer;
  CurrentColumnID : Z;
  CurrentTimestamp : Time;
  CurrentPKValue : list any;
  PKAttributes : list Attribute }.

Definition withColumnID (t : TableBuffer) (id : Z) : TableBuffer :=
  mkTableBuffer (tbf_Table t) (sequencerCache t) id (CurrentTimestamp t) (CurrentPKValue t)
    (PKAttributes t).

Definition withSequencer (t : TableBuffer) (time : Z) (s : Sequencer) : TableBuffer :=
  mkTableBuffer (tbf_Table t) (<[time := s]> (sequencerCache t)) (CurrentColumnID t)
    (CurrentTimestamp t) (CurrentPKValue t) (PKAttributes t).

Definition NewTableBuffer (table : option Table) : go TableBuffer :=
  match table with
  | None => Err (Errorf "table is nil" [])
  | Some table =>
    pka ← GetPrimaryKeyInfo table;
    mret (mkTableBuffer table ∅ 0 epochTime [] pka)
  end.

(** Whether the identifier of a row has to be found through its key.  The second
    condition on the number of attributes always holds in the code. *)
Definition ShouldLookupPrimaryKey (t : TableBuffer) : bool :=
  match PKAttributes t with
  | [] => false
  | a0 :: rest =>
    if at_ColumnID a0 then false
    else if decide (TimeQuantumType (t_Basic (tbf_Table t)) <> []) then
      match rest with
      | a1 :: _ => negb (at_ColumnID a1)
      | [] => false
      end
    else true
  end.

Definition reservationSize : Z := 1000.

Section Buffers.

Context {B : Type} `{Roaring B}.

(** The client's call, served by the node of the process. *)
Definition localCheckoutSequence (indexName pkField : bytes) (ts : Time) (size : Z)
    : stgo (Node B) Sequencer := fun m =>
  match CheckoutSequence (mkCheckout indexName pkField (UnixNano ts) (wrap_u 32 size)) m with
  | (Ok (start, count), m) => (Ok (NewSequencer start count), m)
  | (Err e, m) => (Err (Errorf "CheckoutSequence: %v" [AErr e]), m)
  | (Panic, m) => (Panic, m)
  end.

(** [sequencer.Next()] on the cached sequencer; its value when there is none is 0. *)
Definition takeNext (t : TableBuffer) (time : Z) (s : Sequencer) : TableBuffer :=
  let '(v, s) := Next s in withColumnID (withSequencer t time s) (default 0 v).

(** The branch that asks the node for a new sequencer. *)
Definition checkoutNext (time : Z) : stgo (TableBuffer * Node B) unit := fun w =>
  let '(t, m) := w in
  match PKAttributes t with
  | [] => (Panic, (t, m))
  | first :: _ =>
    let name := tb_Name (t_Basic (tbf_Table t)) in
    match localCheckoutSequence name (FieldName first) (CurrentTimestamp t) reservationSize m with
    | (Ok seq, m) => (Ok tt, (takeNext t time seq, m))
    | (Err e, m) =>
      (Err (Errorf "Sequencer checkout error for %s.%s - %v]" [AStr name; AStr (FieldName first); AErr e]),
       (withColumnID t 0, m))
    | (Panic, m) => (Panic, (t, m))
    end
  end.

Definition NextColumnID : stgo (TableBuffer * Node B) unit := fun w =>
  let '(t, m) := w in
  let time := UnixNano (CurrentTimestamp t) in
  match sequencerCache t !! time with
  | Some s => if IsFullySubscribed s then checkoutNext time w
              else (Ok tt, (takeNext t time s, m))
  | None => checkoutNext time w
  end.

End Buffers.

(** ** Many sessions on one node *)

Section Cluster.

Context {B : Type} `{Roaring B}.

(** The key of the index a buffer takes identifiers from: table, field, time. *)
Definition bufferField (t : TableBuffer) : option (bytes * bytes) :=
  match PKAttributes t with
  | [] => None
  | first :: _ => Some (tb_Name (t_Basic (tbf_Table t)), FieldName first)
  end.

Definition bufferKey (t : TableBuffer) : option (bytes * bytes * Z) :=
  (fun f => (f, UnixNano (CurrentTimestamp t))) <$> bufferField t.

(** A node, the buffers of all sessions, and the identifiers taken so far from
    the index [k]. *)
Record Cluster : Type := mkCluster {
  cl_node : Node B; cl_buffers : list TableBuffer; cl_ids : list Z }.

(** The rows of the index [k] change, or it gets its first rows; nothing is said
    about other indexes and the catalog. *)
Definition rowsChange (k : bytes * bytes * Z) (m m' : Node B) : Prop :=
  match bsiCache m !! k, bsiCache m' !! k with
  | Some bsi, Some bsi' => TQType bsi' = TQType bsi /\ sequencerQueue bsi' = sequencerQueue bsi /\
      (forall x, Contains (ExistenceBitmap bsi') x = true -> x < 2 ^ 64 - 1)
  | None, Some bsi' => sequencerQueue bsi' = Some [] /\
      (forall x, Contains (ExistenceBitmap bsi') x = true -> x < 2 ^ 64 - 1)
  | None, None => True
  | Some _, None => False
  end.

(** A buffer as another row leaves it: only its sequencers and its table stay. *)
Definition sameSource (t t' : TableBuffer) : Prop :=
  tbf_Table t' = tbf_Table t /\ PKAttributes t' = PKAttributes t /\
  sequencerCache t' = sequencerCache t.

(** Sessions open buffers, move them from row to row and take identifiers, in any
    order, while rows change and the index has room for another range. *)
Inductive runs (k : bytes * bytes * Z) : Cluster -> Prop :=
  | runs_start m : bsiCache m !! k = None -> runs k (mkCluster m [] [])
  | runs_rows m m' ts ids : runs k (mkCluster m ts ids) -> rowsChange k m m' ->
      runs k (mkCluster m' ts ids)
  | runs_open m ts ids t : runs k (mkCluster m ts ids) -> sequencerCache t = ∅ ->
      runs k (mkCluster m (ts ++ [t]) ids)
  | runs_move m ts ids i t t' : runs k (mkCluster m ts ids) -> ts !! i = Some t -> sameSource t t' ->
      runs k (mkCluster m (<[i := t']> ts) ids)
  | runs_next m m' ts ids i t t' : runs k (mkCluster m ts ids) -> ts !! i = Some t ->
      NextColumnID (t, m) = (Ok tt, (t', m')) ->
      (forall bsi, bsiCache m !! k = Some bsi -> room bsi reservationSize) ->
      runs k (mkCluster m' (<[i := t']> ts)
                (if decide (bufferKey t = Some k) then CurrentColumnID t' :: ids else ids)).

(** The sequencer a buffer holds for the index [k]. *)
Definition holds (k : bytes * bytes * Z) (t : TableBuffer) (s : Sequencer) : Prop :=
  bufferField t = Some k.1 /\ sequencerCache t !! k.2 = Some s.

Definition inRange (g : Z * Z) (id : Z) : Prop := g.1 <= id < g.1 + g.2.

(** Identifiers taken come from reserved ranges; a buffer holds a range of its
    own, and what it has still to take has not been taken. *)
Record distinctIds (k : bytes * bytes * Z) (grants : list (Z * Z)) (ts : list TableBuffer)
    (ids : list Z) : Prop := {
  di_nodup : NoDup ids;
  di_from : Forall (fun id => exists g, g ∈ grants /\ inRange g id) ids;
  di_held : forall i t s, ts !! i = Some t -> holds k t s ->
    exists g, g ∈ grants /\ within g.1 g.2 s /\ (forall id, id ∈ ids -> inRange g id -> id < sq_current s);
  di_own : forall i j t t' s s', ts !! i = Some t -> ts !! j = Some t' -> holds k t s -> holds k t' s' ->
    i <> j -> sq_start s <> sq_start s' }.

Definition granted (k : bytes * bytes * Z) (m : Node B) (grants : list (Z * Z)) : Prop :=
  match bsiCache m !! k with
  | Some bsi => history bsi grants
  | None => grants = []
  end.

Lemma takeNext_field t time s : bufferField (takeNext t time s) = bufferField t.
Proof. unfold takeNext. by destruct (Next s). Qed.

(** The buffer took its identifier from a range the node reserved. *)
Definition reservedFor (t : TableBuffer) (m : Node B) (t' : TableBuffer) (m' : Node B) : Prop :=
  let time := UnixNano (CurrentTimestamp t) in
  exists f bsi bsi' start, bufferField t = Some f /\
    (bsiCache m !! (f, time) = Some bsi \/
     (bsiCache m !! (f, time) = None /\ newBSIBitmap m f.1 f.2 = Ok bsi)) /\
    reserve bsi time reservationSize = Ok (start, bsi') /\
    t' = takeNext t time (NewSequencer start reservationSize) /\ m' = withBSI m (f, time) bsi'.

Lemma checkoutNext_ok t m t' m' :
  checkoutNext (UnixNano (CurrentTimestamp t)) (t, m) = (Ok tt, (t', m')) -> reservedFor t m t' m'.
Proof.
  unfold reservedFor. set (time := UnixNano (CurrentTimestamp t)). cbn zeta.
  unfold checkoutNext, bufferField. destruct (PKAttributes t) as [|first rest]; [done|].
  unfold localCheckoutSequence, CheckoutSequence.
  change (wrap_u 32 reservationSize) with reservationSize.
  cbn [co_Index co_PkField co_Time co_ReservationSize]. fold time.
  do 2 (case_decide; [done|]). change (reservationSize <=? 0) with false. cbn iota.
  set (f := (tb_Name (t_Basic (tbf_Table t)), FieldName first)).
  destruct (bsiCache m !! (f, time)) as [bsi|] eqn:Eb;
    [|destruct (newBSIBitmap m _ _) as [bsi|e|] eqn:En; [|done..]].
  all: destruct (reserve bsi time reservationSize) as [[start bsi']|e|] eqn:Er; [|done..].
  all: intros [= <- <-]; exists f, bsi, bsi', start; auto.
Qed.

Lemma NextColumnID_ok t m t' m' : NextColumnID (t, m) = (Ok tt, (t', m')) ->
  let time := UnixNano (CurrentTimestamp t) in
  (exists s, sequencerCache t !! time = Some s /\ IsFullySubscribed s = false /\
     t' = takeNext t time s /\ m' = m) \/ reservedFor t m t' m'.
Proof.
  intros E time. unfold NextColumnID in E. fold time in E.
  destruct (sequencerCache t !! time) as [s|] eqn:Es; [|right; by apply checkoutNext_ok].
  destruct (IsFullySubscribed s) eqn:Ef; [right; by apply checkoutNext_ok|].
  left. exists s. by injection E as <- <-.
Qed.

Context `{!RoaringLaws B}.

Lemma granted_overlap k m grants g g' id : granted k m grants -> g ∈ grants -> g' ∈ grants ->
  inRange g id -> inRange g' id -> g = g'.
Proof.
  unfold granted. destruct (bsiCache m !! k) as [bsi|]; [|by intros -> ?%elem_of_nil].
  intros (q & _ & _ & _ & _ & _ & _ & Ha)%history_ranged. unfold inRange.
  induction Ha as [|g0 gs _ IH Hall]; [by intros ?%elem_of_nil|].
  pose proof (proj1 (Forall_forall _ _) Hall) as Hl. unfold after in Hl.
  intros [->|Hg]%elem_of_cons [->|Hg']%elem_of_cons H1 H2; [done| | |by apply IH].
  - specialize (Hl _ Hg'). lia.
  - specialize (Hl _ Hg). lia.
Qed.

Lemma granted_fits k m grants g : granted k m grants -> g ∈ grants -> fits g.1 g.2.
Proof.
  unfold granted. destruct (bsiCache m !! k) as [bsi|]; [|by intros -> ?%elem_of_nil].
  intros (q & _ & _ & _ & _ & _ & Hf & _)%history_ranged Hg. exact (proj1 (Forall_forall _ _) Hf g Hg).
Qed.

(** A buffer that holds for [k] what it held before changes nothing. *)
Lemma distinct_move k grants ts ids i t t' : distinctIds k grants ts ids -> ts !! i = Some t ->
  (forall s, holds k t' s -> holds k t s) -> distinctIds k grants (<[i := t']> ts) ids.
Proof.
  intros [Hn Hf Hh Ho] Ei Hs.
  assert (forall j u s, <[i := t']> ts !! j = Some u -> holds k u s ->
            exists u', ts !! j = Some u' /\ holds k u' s) as Hb.
  { intros j u s [[-> [-> _]]|[_ Ej]]%list_lookup_insert_Some Hu; eauto. }
  split; [done|done|..].
  - intros j u s Ej Hu. destruct (Hb j u s Ej Hu) as (u' & Ej' & Hu'). by apply (Hh j u').
  - intros j l u u' s s' Ej El Hu Hu'. destruct (Hb _ _ _ Ej Hu) as (v & Ev & Hv).
    destruct (Hb _ _ _ El Hu') as (v' & Ev' & Hv'). by apply (Ho j l v v').
Qed.

Lemma distinct_mono k grants g ts ids : distinctIds k grants ts ids ->
  distinctIds k (g :: grants) ts ids.
Proof.
  intros [Hn Hf Hh Ho]. split; [done| |..|done].
  - eapply Forall_impl; [exact Hf|]. intros id (g' & Hg & Hi). exists g'. split; [by right|done].
  - intros i t s Ei Ht. destruct (Hh i t s Ei Ht) as (g' & Hg & Hi). exists g'. split; [by right|done].
Qed.

(** The buffer takes the identifier [v] of the range [g], which becomes or stays
    its own. *)
Lemma distinct_take k m grants ts ids i t t' g s' v :
  granted k m grants -> distinctIds k grants ts ids -> ts !! i = Some t ->
  sequencerCache t' !! k.2 = Some s' -> g ∈ grants -> within g.1 g.2 s' -> inRange g v ->
  v < sq_current s' -> v ∉ ids -> (forall id, id ∈ ids -> inRange g id -> id < sq_current s') ->
  (forall j u s, j <> i -> ts !! j = Some u -> holds k u s -> sq_start s <> g.1) ->
  distinctIds k grants (<[i := t']> ts) (v :: ids).
Proof.
  intros Hgr [Hn Hf Hh Ho] Ei Ht' Hg Hw Hv Hlt Hnew Hold Hothers.
  assert (forall s, holds k t' s -> s = s') as Hs' by (intros s [_ E]; congruence).
  split.
  - by constructor.
  - constructor; [by exists g|done].
  - intros j u s [[<- [<- _]]|[Hj Ej]]%list_lookup_insert_Some Hu.
    + rewrite (Hs' s Hu). exists g. split; [done|]. split; [done|].
      intros id [->|Hid]%elem_of_cons; auto.
    + destruct (Hh j u s Ej Hu) as (g' & Hg' & Hw' & Hold'). exists g'. split; [done|].
      split; [done|]. intros id [->|Hid]%elem_of_cons Hin; [|by apply Hold'].
      assert (g' = g) as -> by (by eapply granted_overlap). destruct Hw' as [Hst _].
      by destruct (Hothers j u s (not_eq_sym Hj) Ej Hu).
  - intros j l u u' s s2 Ej El Hu Hu' Hjl.
    apply list_lookup_insert_Some in Ej as [(<- & <- & _)|[Hj Ej]];
      apply list_lookup_insert_Some in El as [(<- & <- & _)|[Hl El]]; [done| | |by apply (Ho j l u u')].
    + rewrite (Hs' s Hu). destruct Hw as [-> _]. apply not_eq_sym. by apply (Hothers l u').
    + rewrite (Hs' s2 Hu'). destruct Hw as [-> _]. by apply (Hothers j u).
Qed.

Lemma takeNext_within start size t time s : fits start size -> within start size s ->
  IsFullySubscribed s = false ->
  exists s', sequencerCache (takeNext t time s) !! time = Some s' /\ within start size s' /\
    CurrentColumnID (takeNext t time s) = sq_current s /\
    inRange (start, size) (sq_current s) /\ sq_current s' = sq_current s + 1.
Proof.
  intros Hf Hw Hn. destruct (Next_within start size s Hf Hw) as [[Hs _]|(_ & s' & E & Hw' & Hlt & Hc)];
    [congruence|]. unfold takeNext. rewrite E. exists s'.
  cbn [withColumnID withSequencer sequencerCache CurrentColumnID default]. rewrite lookup_insert_eq.
  destruct Hw as (_ & _ & ?). split; [done|]. split; [done|]. split; [done|].
  split; [|done]. unfold inRange. cbn. lia.
Qed.

(** A step of a buffer on another index leaves what it holds for [k]. *)
Lemma takeNext_other k t s0 s : bufferKey t <> Some k ->
  holds k (takeNext t (UnixNano (CurrentTimestamp t)) s0) s -> holds k t s.
Proof.
  intros Hk [Hf Hs]. rewrite takeNext_field in Hf. split; [done|].
  unfold takeNext in Hs. destruct (Next s0) as [v s1].
  cbn [withColumnID withSequencer sequencerCache] in Hs. rewrite lookup_insert_ne in Hs; [done|].
  intros E. apply Hk. unfold bufferKey. rewrite Hf. cbn. by rewrite E, <- surjective_pairing.
Qed.

Lemma bufferKey_Some t k : bufferKey t = Some k ->
  bufferField t = Some k.1 /\ UnixNano (CurrentTimestamp t) = k.2.
Proof. unfold bufferKey. destruct (bufferField t); [|done]. by intros [= <-]. Qed.

Lemma newBSIBitmap_history m index field bsi r : newBSIBitmap m index field = Ok bsi ->
  reserve bsi r.1 r.2 <> Panic -> history bsi [] /\ room bsi reservationSize.
Proof.
  unfold newBSIBitmap. destruct (getFieldConfig m index field) as [attr|e|]; [|done..].
  destruct (tableCache m !! index) as [parent|]; [|done].
  assert (forall x, Contains NewBitmap x = true -> x < 2 ^ 64 - 1) as Hnew
    by (intros x Hx; by rewrite NewBitmap_empty in Hx).
  assert (forall tq, room (mkBSIBitmap NewBitmap tq (Some [])) reservationSize) as Hroom.
  { intros tq. split; [|done]. unfold maxColumnID. cbn [ExistenceBitmap]. rewrite Z.gtb_ltb.
    destruct (Z.ltb_spec 0 (GetCardinality NewBitmap)) as [Hc|]; [|done].
    apply GetCardinality_pos in Hc as [x Hx]. by rewrite NewBitmap_empty in Hx. }
  case_decide; [|by intros [= <-]]. destruct (BasicTable_GetPrimaryKeyInfo parent) as [[|first l]|e|]; [done| |done..].
  intros [= <-] Hr. destruct (decide (FieldName attr = FieldName first)); [|done].
  split; [by apply history_new|done].
Qed.

Lemma next_from_held k m grants ts ids i t s : granted k m grants -> distinctIds k grants ts ids ->
  ts !! i = Some t -> bufferKey t = Some k -> sequencerCache t !! k.2 = Some s ->
  IsFullySubscribed s = false ->
  distinctIds k grants (<[i := takeNext t k.2 s]> ts) (CurrentColumnID (takeNext t k.2 s) :: ids).
Proof.
  intros Hg Hd Ei [Ef _]%bufferKey_Some Es Hn.
  destruct (di_held _ _ _ _ Hd i t s Ei (conj Ef Es)) as (g & Hin & Hw & Hold).
  destruct (takeNext_within g.1 g.2 t k.2 s (granted_fits _ _ _ _ Hg Hin) Hw Hn)
    as (s' & Es' & Hw' & -> & Hr & Hc).
  rewrite <- surjective_pairing in Hr.
  apply (distinct_take k m grants ts ids i t _ g s'); try done; [lia| | |].
  - intros Hid. specialize (Hold _ Hid Hr). lia.
  - intros id Hid Hir. specialize (Hold id Hid Hir). lia.
  - intros j u s2 Hj Ej Hu. destruct Hw as [<- _]. by apply (di_own _ _ _ _ Hd j i u t s2 s).
Qed.

Lemma next_from_node k m bsi bsi' grants ts ids i t start : 0 <= k.2 < 2 ^ 63 ->
  history bsi grants -> room bsi reservationSize -> distinctIds k grants ts ids ->
  ts !! i = Some t -> reserve bsi k.2 reservationSize = Ok (start, bsi') ->
  let t' := takeNext t k.2 (NewSequencer start reservationSize) in
  let grants' := (start, reservationSize) :: grants in
  granted k (withBSI m k bsi') grants' /\
  distinctIds k grants' (<[i := t']> ts) (CurrentColumnID t' :: ids).
Proof.
  intros Ht Hh Hroom Hd Ei Er t' grants'.
  assert (fits start reservationSize) as Hf by (by eapply reserve_fits).
  assert (granted k (withBSI m k bsi') grants') as Hg.
  { unfold granted. cbn [withBSI bsiCache]. rewrite lookup_insert_eq.
    destruct Hf as (? & ? & ?). by eapply history_reserve. }
  split; [done|].
  assert (within start reservationSize (NewSequencer start reservationSize)) as Hw
    by (split; [|split]; cbn; unfold reservationSize; lia).
  assert (IsFullySubscribed (NewSequencer start reservationSize) = false) as Hn.
  { unfold IsFullySubscribed. rewrite sq_end_fits by done. cbn [NewSequencer sq_current].
    apply negb_false_iff, Z.ltb_lt. unfold reservationSize. lia. }
  destruct (takeNext_within start reservationSize t k.2 _ Hf Hw Hn) as (s' & Es' & Hw' & Ec & Hr & Hc).
  assert (forall g, g ∈ grants -> g.1 < start /\ forall id, inRange g id -> id < start) as Hlow.
  { pose proof (history_ranged _ _ (history_reserve _ _ _ _ _ _ Hh Ht ltac:(by destruct Hf as (?&?&?))
      ltac:(by destruct Hf as (?&?&?)) Er)) as (q & _ & _ & _ & _ & _ & Hfits & Ha).
    inversion_clear Ha as [|? ? _ Hall]. apply Forall_cons in Hfits as [_ Hfits]. intros g Hg'.
    apply (proj1 (Forall_forall _ _) Hall) in Hg' as Ha. unfold after, inRange in *. cbn in Ha.
    apply (proj1 (Forall_forall _ _) Hfits) in Hg' as (? & ? & ?). split; [lia|]. intros; lia. }
  assert (forall id, id ∈ ids -> id < start) as Hids.
  { intros id (g & Hg' & Hid)%(proj1 (Forall_forall _ _) (di_from _ _ _ _ Hd)). by apply (Hlow g Hg'). }
  cbn [NewSequencer sq_current] in Ec, Hr, Hc. fold t' in Es', Ec. rewrite Ec.
  apply (distinct_take k (withBSI m k bsi') grants' ts ids i t t' (start, reservationSize) s');
    try done; [by apply distinct_mono|by left|lia| | |].
  - intros Hid%Hids. lia.
  - intros id Hid%Hids _. lia.
  - intros j u s2 _ Ej Hu. destruct (di_held _ _ _ _ Hd j u s2 Ej Hu) as (g & Hg' & [-> _] & _).
    pose proof (Hlow g Hg'). cbn. lia.
Qed.

Lemma runs_distinct k c : 0 <= k.2 < 2 ^ 63 -> runs k c ->
  exists grants, granted k (cl_node c) grants /\ distinctIds k grants (cl_buffers c) (cl_ids c).
Proof.
  intros Ht. induction 1 as [m Em|m m' ts ids _ IH Hr|m ts ids t _ IH Et|m ts ids i t t' _ IH Ei Hs
    |m m' ts ids i t t' _ IH Ei En Hroom]; cbn [cl_node cl_buffers cl_ids] in *.
  - exists []. unfold granted. rewrite Em. split; [done|]. split; [constructor|constructor|done|done].
  - destruct IH as (grants & Hg & Hd). exists grants. split; [|done].
    unfold granted, rowsChange in *.
    destruct (bsiCache m !! k) as [bsi|], (bsiCache m' !! k) as [[b' tq' q']|]; cbn in Hr; try done.
    + destruct Hr as (-> & -> & Hb). by apply history_rows.
    + destruct Hr as (-> & Hb). rewrite Hg. by apply history_new.
  - destruct IH as (grants & Hg & [Hn Hf Hh Ho]). exists grants. split; [done|].
    assert (forall j u s, (ts ++ [t]) !! j = Some u -> holds k u s -> ts !! j = Some u) as Hb.
    { intros j u s [Ej|[_ Ej]]%lookup_app_Some [_ Hu]; [done|].
      apply list_lookup_singleton_Some in Ej as [_ <-]. by rewrite Et in Hu. }
    split; [done|done|eauto|]. intros j l u u' s s' Ej El Hu Hu'. eapply Ho; eauto.
  - destruct IH as (grants & Hg & Hd). exists grants. split; [done|].
    apply (distinct_move _ _ _ _ _ t); try done. destruct Hs as (E1 & E2 & E3).
    unfold holds, bufferField. by rewrite E1, E2, E3.
  - destruct IH as (grants & Hg & Hd).
    destruct (NextColumnID_ok _ _ _ _ En) as [(s & Es & Hn & -> & ->)|
      (f & bsi & bsi' & start & Ef & Eb & Er & -> & ->)]; case_decide as Hk.
    + exists grants. split; [done|]. destruct (bufferKey_Some _ _ Hk) as [_ Et]. rewrite Et in *.
      by apply (next_from_held k m).
    + exists grants. split; [done|]. eapply distinct_move; [done..|]. intros s0. by apply takeNext_other.
    + destruct (bufferKey_Some _ _ Hk) as [Ef' Et]. rewrite Et in *. rewrite Ef in Ef'.
      injection Ef' as ->. rewrite <- surjective_pairing in *. eexists.
      assert (history bsi grants /\ room bsi reservationSize) as [? ?]; [|by eapply next_from_node].
      unfold granted in Hg. destruct Eb as [Eb|[Eb Eb']]; rewrite Eb in *; [auto|subst grants].
      apply (newBSIBitmap_history m k.1.1 k.1.2 bsi (k.2, reservationSize)); [done|]. cbn. by rewrite Er.
    + exists grants. split; [|eapply distinct_move; [done..|]; intros s0; by apply takeNext_other].
      unfold granted in *. cbn [withBSI bsiCache]. rewrite lookup_insert_ne; [done|].
      intros E. apply Hk. unfold bufferKey. rewrite Ef. cbn. by rewrite E.
Qed.

End Cluster.

(** C18. However many sessions take column identifiers from one index (a table, its
    first key field and a time), in any order and while its rows change in any
    way, no identifier is given out twice and none is zero. *)
Theorem column_ids_never_repeat {B} `{RoaringLaws B} k c : 0 <= k.2 < 2 ^ 63 -> runs k c ->
  NoDup (cl_ids c) /\ Forall (fun id => 0 < id) (cl_ids c).
Proof.
  intros Ht Hr. destruct (runs_distinct k c Ht Hr) as (grants & Hg & Hd).
  split; [exact (di_nodup _ _ _ _ Hd)|]. eapply Forall_impl; [exact (di_from _ _ _ _ Hd)|].
  intros id (g & Hin & Hid). destruct (granted_fits _ _ _ _ Hg Hin). unfold inRange in Hid. lia.
Qed.

(** Two sessions on a table with the key [id]. *)
Definition sampleAttribute : Attribute :=
  mkAttribute (str "id") (str "id") (str "Integer") (str "IntBSI") [] false false [].

Definition sampleBasicTable : BasicTable :=
  mkBasicTable (str "users") (str "id") [] [] [sampleAttribute] (Some {[str "id" := O]}).

Definition sampleTable : Table := mkTable sampleBasicTable (Some {[str "id" := sampleAttribute]}).

Definition sampleBuffer : TableBuffer := mkTableBuffer sampleTable ∅ 0 epochTime [] [sampleAttribute].

Definition sampleNode : Node (list Z) := mkNode {[str "users" := sampleBasicTable]} ∅.

Definition sampleKey : bytes * bytes * Z := (str "users", str "id", 0).

(** The buffer [i] takes an identifier. *)
Definition sampleTake (i : nat) (c : @Cluster (list Z)) : @Cluster (list Z) :=
  let t := default sampleBuffer (cl_buffers c !! i) in
  let w := (@NextColumnID _ listRoaring (t, cl_node c)).2 in
  mkCluster w.2 (<[i := w.1]> (cl_buffers c))
    (if decide (bufferKey t = Some sampleKey) then CurrentColumnID w.1 :: cl_ids c else cl_ids c).

Lemma sampleTake_runs i c : @runs _ listRoaring sampleKey c ->
  is_Some (cl_buffers c !! i) ->
  (@NextColumnID _ listRoaring (default sampleBuffer (cl_buffers c !! i), cl_node c)).1 = Ok tt ->
  (forall bsi, bsiCache (cl_node c) !! sampleKey = Some bsi -> @room _ listRoaring bsi reservationSize) ->
  @runs _ listRoaring sampleKey (sampleTake i c).
Proof.
  destruct c as [m ts ids]. cbn [cl_node cl_buffers cl_ids]. intros Hc [t Et] E Hroom.
  unfold sampleTake. cbn [cl_node cl_buffers cl_ids]. rewrite Et in *. cbn [default] in *.
  eapply (@runs_next _ listRoaring _ m _ ts ids i t); [done|done| |done].
  destruct (NextColumnID _) as [r [t' m']]. cbn in *. by rewrite E.
Qed.

Lemma column_ids_never_repeat_witness :
  let c := sampleTake 0 (sampleTake 1 (sampleTake 0 (mkCluster sampleNode [sampleBuffer; sampleBuffer] []))) in
  cl_ids c = [2; 1001; 1] /\ NoDup (cl_ids c) /\ Forall (fun id => 0 < id) (cl_ids c).
Proof.
  cbn zeta. split; [vm_compute; reflexivity|].
  refine (@column_ids_never_repeat _ listRoaring listRoaring_laws sampleKey _ _ _); [cbn; lia|].
  assert (forall c : @Cluster (list Z),
    match bsiCache (cl_node c) !! sampleKey with
    | Some bsi => (@maxColumnID _ listRoaring bsi + reservationSize <? 2 ^ 64 - 1) &&
                  (Queue_Maximum (default [] (sequencerQueue bsi)) + reservationSize <? 2 ^ 64 - 1)
    | None => true
    end = true ->
    forall bsi, bsiCache (cl_node c) !! sampleKey = Some bsi -> @room _ listRoaring bsi reservationSize) as Hroom.
  { intros c Hc bsi E. rewrite E in Hc. b2p. by split. }
  do 3 (apply sampleTake_runs; [|eexists; vm_compute; reflexivity|vm_compute; reflexivity
                               |apply Hroom; vm_compute; reflexivity]).
  apply (@runs_open _ listRoaring _ _ [sampleBuffer]); [|done].
  apply (@runs_open _ listRoaring _ _ []); [|done]. by apply runs_start.
Defined.
