(* ===== verification/KeyIdentity.v ===== *)
(** * Encodings of primary keys

    The identity of a typed primary key (core/primary_key_identity_encoding.go)
    and the number a compound key is stored as in its bit-sliced index
    (core/primary_key_authority_value.go). *)

From S2P Require Import Prelude GoStd GoTime JsonText Value Catalog.

(** ** encoding/binary *)

(** [binary.PutUvarint]: groups of seven bits, the lowest first; ten are enough for
    an uint64. *)
Fixpoint putUvarint (fuel : nat) (x : Z) : bytes :=
  match fuel with
  | O => []
  | S fuel => if x <? 0x80 then [byte_of x]
              else byte_of (Z.lor x 0x80) :: putUvarint fuel (Z.shiftr x 7)
  end.

Definition PutUvarint (x : Z) : bytes := putUvarint 10 x.

(** [binary.BigEndian.PutUint64] *)
Definition PutUint64 (v : Z) : bytes := rev (le_bytes 8 v).

(** ** Identities *)

Definition identityVersion : byte := byte_of 1.

Definition identityValueBool : byte := byte_of 1.
Definition identityValueInt : byte := byte_of 2.
Definition identityValueUint : byte := byte_of 3.
Definition identityValueString : byte := byte_of 4.
Definition identityValueBytes : byte := byte_of 5.
Definition identityValueTime : byte := byte_of 6.

Record IdentityRequest : Type := mkIdentityRequest {
  ir_TableName : bytes;
  ir_PrimaryKey : bytes;
  ir_Attributes : list (option Attribute);
  ir_Values : list any;
  ir_ShardTimestamp : Time }.

Definition appendIdentityUint (buf : bytes) (value : Z) : bytes := buf ++ PutUvarint value.

(** [uint64(value<<1) ^ uint64(value>>63)] of an int64. *)
Definition zigzag (value : Z) : Z :=
  Z.lxor (wrap_u 64 (Z.shiftl value 1)) (wrap_u 64 (Z.shiftr value 63)).

Definition appendIdentityInt (buf : bytes) (value : Z) : bytes := appendIdentityUint buf (zigzag value).

Definition appendIdentityBytes (buf value : bytes) : bytes :=
  appendIdentityUint buf (zlen value) ++ value.

Definition appendIdentityAttribute (buf : bytes) (attr : option Attribute) (index : Z) : bytes :=
  match attr with
  | None =>
    let buf := appendIdentityBytes buf (Sprintf "value%d" [FInt index]) in
    appendIdentityBytes (appendIdentityBytes buf []) []
  | Some attr =>
    let buf := appendIdentityBytes buf (FieldName attr) in
    appendIdentityBytes (appendIdentityBytes buf (at_Type attr)) (MappingStrategy attr)
  end.

Definition appendIdentityValue (buf : bytes) (value : any) : go bytes :=
  match value with
  | GBool b => Ok ((buf ++ [identityValueBool]) ++ [byte_of (if b then 1 else 0)])
  | GInt t z =>
    if int_signed t then Ok (appendIdentityInt (buf ++ [identityValueInt]) z)
    else Ok (appendIdentityUint (buf ++ [identityValueUint]) z)
  | GString s => Ok (appendIdentityBytes (buf ++ [identityValueString]) s)
  | GBytes s => Ok (appendIdentityBytes (buf ++ [identityValueBytes]) s)
  | GTime t => Ok (appendIdentityInt (buf ++ [identityValueTime]) (UnixNano (UTC t)))
  | _ => Err (Errorf "primary-key identity encoding unsupported value type %T" [AStr (typeName value)])
  end.

(** The loop over the values; [i] is the position of the next one. *)
Fixpoint appendIdentityValues (buf : bytes) (i : Z) (attrs : list (option Attribute))
    (values : list any) : go bytes :=
  match values, attrs with
  | [], _ => Ok buf
  | _ :: _, [] => Panic
  | value :: values, attr :: attrs =>
    buf ← appendIdentityValue (appendIdentityAttribute buf attr i) value;
    appendIdentityValues buf (i + 1) attrs values
  end.

Definition EncodePrimaryKeyIdentity (req : IdentityRequest) : go bytes :=
  if decide (ir_TableName req = []) then
    Err (Errorf "primary-key identity encoding requires table name" [])
  else if decide (ir_PrimaryKey req = []) then
    Err (Errorf "primary-key identity encoding requires primary key name" [])
  else if decide (ir_Values req = []) then
    Err (Errorf "primary-key identity encoding requires typed values" [])
  else if negb (zlen (ir_Attributes req) =? zlen (ir_Values req)) then
    Err (Errorf "primary-key identity encoding requires %d attributes, got %d"
           [AInt (zlen (ir_Values req)); AInt (zlen (ir_Attributes req))])
  else
    let buf := appendIdentityBytes [identityVersion] (ir_TableName req) in
    let buf := appendIdentityBytes buf (ir_PrimaryKey req) in
    let buf := appendIdentityInt buf (UnixNano (UTC (ir_ShardTimestamp req))) in
    let buf := appendIdentityUint buf (zlen (ir_Values req)) in
    appendIdentityValues buf 0 (ir_Attributes req) (ir_Values req).

(** ** Authority values of compound keys *)

(** The parser of timestamps given as text (core/builtins.go), which ends in a
    third-party parser of dates. *)
Class TimestampParser : Type := parseTimestampMapperString : bytes -> go Time.

Definition componentError (attr : option Attribute) (detail : earg) : error :=
  let fieldName := match attr with
                   | Some a => if decide (FieldName a = []) then str "(unknown)" else FieldName a
                   | None => str "(unknown)"
                   end in
  Errorf "compound primary-key authority value encoding for %s: %s" [AStr fieldName; detail].

Section Authority.

Context `{TimestampParser}.

(** The text in an error of strconv is left out. *)
Definition normalizeComponent (attr : option Attribute) (value : any) : go any :=
  match value with
  | GString s =>
    let s := TrimSpace s in
    if decide (s = []) then Err (componentError attr (AStr (str "empty strings are not supported")))
    else match attr with
    | None => Err (componentError attr (AStr (str "string values require catalog type metadata")))
    | Some a =>
      match TypeFromString (at_Type a) with
      | TypeInteger =>
        match ParseInt s with
        | Some z => Ok (GInt Tint64 z)
        | None => Err (componentError attr (AErr (Errorf "parse integer string %q" [AStr s])))
        end
      | TypeDate | TypeDateTime =>
        match parseTimestampMapperString s with
        | Ok t => Ok (GTime t)
        | Err e => Err (componentError attr (AErr (Errorf "parse timestamp string %q: %v" [AStr s; AErr e])))
        | Panic => Panic
        end
      | _ => Err (componentError attr (AStr (str "unsupported value type string")))
      end
    end
  | _ => Ok value
  end.

(** The 64 bits of a component. *)
Definition componentBits (attr : option Attribute) (value : any) : go Z :=
  if is_nil value then Err (componentError attr (AStr (str "nil values are not supported")))
  else
    value ← normalizeComponent attr value;
    match value with
    | GInt _ z => Ok (wrap_u 64 z)
    | GBigInt None => Err (componentError attr (AStr (str "nil big.Int values are not supported")))
    | GBigInt (Some z) =>
      if (z <? 0) || (2 ^ 64 <=? z) then
        Err (componentError attr (AStr (str "big.Int values must fit in unsigned 64-bit default encoding")))
      else Ok z
    | GTime t => Ok (wrap_u 64 (UnixNano (UTC t)))
    | _ => Err (componentError attr (AErr (Errorf "unsupported value type %T" [AStr (typeName value)])))
    end.

Definition appendComponent (buf : bytes) (attr : option Attribute) (value : any) : go bytes :=
  bits ← componentBits attr value; mret (buf ++ PutUint64 bits).

Fixpoint appendComponents (buf : bytes) (attrs : list (option Attribute)) (values : list any) : go bytes :=
  match values, attrs with
  | [], _ => Ok buf
  | _ :: _, [] => Panic
  | value :: values, attr :: attrs =>
    buf ← appendComponent buf attr value;
    appendComponents buf attrs values
  end.

Definition EncodeCompoundPrimaryKeyAuthorityValue (tableName primaryKey : bytes)
    (attrs : list (option Attribute)) (values : list any) : go Z :=
  if decide (tableName = []) then
    Err (Errorf "compound primary-key authority value encoding requires table name" [])
  else if decide (primaryKey = []) then
    Err (Errorf "compound primary-key authority value encoding requires primary key name" [])
  else if zlen values <? 2 then
    Err (Errorf "compound primary-key authority value encoding requires at least two typed values" [])
  else if negb (zlen attrs =? zlen values) then
    Err (Errorf "compound primary-key authority value encoding requires %d attributes, got %d"
           [AInt (zlen values); AInt (zlen attrs)])
  else SetBytes <$> appendComponents [] attrs values.

(** A key that cannot be encoded has no value. *)
Definition optionalCompoundPrimaryKeyAuthorityValue (tableName primaryKey : bytes)
    (attrs : list (option Attribute)) (values : list any) : go (option Z) :=
  if zlen values <? 2 then Ok None
  else match EncodeCompoundPrimaryKeyAuthorityValue tableName primaryKey attrs values with
       | Ok z => Ok (Some z)
       | Err _ => Ok None
       | Panic => Panic
       end.

End Authority.

(** ** What an identity says

    The content of an identity, and a reader of its format: versions, lengths and
    tags as the encoding is documented. *)

Inductive keyPart : Type :=
  | PBool (b : bool) | PInt (z : Z) | PUint (z : Z) | PString (s : bytes) | PBytes (s : bytes)
  | PTime (nanos : Z).

Definition keyPartOf (v : any) : option keyPart :=
  match v with
  | GBool b => Some (PBool b)
  | GInt t z => Some (if int_signed t then PInt z else PUint z)
  | GString s => Some (PString s)
  | GBytes s => Some (PBytes s)
  | GTime t => Some (PTime (UnixNano (UTC t)))
  | _ => None
  end.

(** Name, type and mapping of a key field; a missing attribute is named by position. *)
Definition fieldOf (i : Z) (attr : option Attribute) : bytes * bytes * bytes :=
  match attr with
  | Some a => (FieldName a, at_Type a, MappingStrategy a)
  | None => (Sprintf "value%d" [FInt i], [], [])
  end.

Fixpoint partsOf (i : Z) (attrs : list (option Attribute)) (values : list any)
    : option (list (bytes * bytes * bytes * keyPart)) :=
  match values, attrs with
  | [], _ => Some []
  | _ :: _, [] => None
  | v :: values, a :: attrs =>
    p ← keyPartOf v; ps ← partsOf (i + 1) attrs values; Some ((fieldOf i a, p) :: ps)
  end.

Record keyContent : Type := mkKeyContent {
  kc_table : bytes; kc_key : bytes; kc_shard : Z; kc_parts : list (bytes * bytes * bytes * keyPart) }.

Definition contentOf (req : IdentityRequest) : option keyContent :=
  mkKeyContent (ir_TableName req) (ir_PrimaryKey req) (UnixNano (UTC (ir_ShardTimestamp req)))
    <$> partsOf 0 (ir_Attributes req) (ir_Values req).

Fixpoint readUvarint (fuel : nat) (l : bytes) : option (Z * bytes) :=
  match fuel, l with
  | S fuel, b :: l =>
    if ub b <? 128 then Some (ub b, l)
    else '(x, l) ← readUvarint fuel l; Some (ub b - 128 + 128 * x, l)
  | _, _ => None
  end.

Definition readInt (l : bytes) : option (Z * bytes) :=
  '(x, l) ← readUvarint 10 l; Some (if Z.even x then x / 2 else - (x / 2) - 1, l).

Definition readBytes (l : bytes) : option (bytes * bytes) :=
  '(n, l) ← readUvarint 10 l;
  if n <=? zlen l then Some (take (Z.to_nat n) l, drop (Z.to_nat n) l) else None.

Definition readPart (l : bytes) : option (keyPart * bytes) :=
  match l with
  | [] => None
  | tag :: l =>
    if decide (tag = identityValueBool) then
      match l with b :: l => Some (PBool (negb (ub b =? 0)), l) | [] => None end
    else if decide (tag = identityValueInt) then '(z, l) ← readInt l; Some (PInt z, l)
    else if decide (tag = identityValueUint) then '(z, l) ← readUvarint 10 l; Some (PUint z, l)
    else if decide (tag = identityValueString) then '(s, l) ← readBytes l; Some (PString s, l)
    else if decide (tag = identityValueBytes) then '(s, l) ← readBytes l; Some (PBytes s, l)
    else if decide (tag = identityValueTime) then '(z, l) ← readInt l; Some (PTime z, l)
    else None
  end.

Fixpoint readParts (n : nat) (l : bytes) : option (list (bytes * bytes * bytes * keyPart) * bytes) :=
  match n with
  | O => Some ([], l)
  | S n =>
    '(name, l) ← readBytes l; '(type, l) ← readBytes l; '(mapping, l) ← readBytes l;
    '(p, l) ← readPart l; '(ps, l) ← readParts n l; Some ((name, type, mapping, p) :: ps, l)
  end.

Definition readIdentity (l : bytes) : option keyContent :=
  match l with
  | [] => None
  | version :: l =>
    if decide (version = identityVersion) then
      '(table, l) ← readBytes l; '(key, l) ← readBytes l; '(shard, l) ← readInt l;
      '(n, l) ← readUvarint 10 l; '(ps, l) ← readParts (Z.to_nat n) l;
      if decide (l = []) then Some (mkKeyContent table key shard ps) else None
    else None
  end.

(** Values of Go: integers in the range of their type, lengths below [2^63]. *)
Definition typed (v : any) : Prop :=
  match v with
  | GInt t z => in_int t z
  | GString s | GBytes s => zlen s < 2 ^ 63
  | _ => True
  end.

Definition typedAttribute (a : option Attribute) : Prop :=
  match a with
  | Some a => zlen (FieldName a) < 2 ^ 63 /\ zlen (at_Type a) < 2 ^ 63 /\ zlen (MappingStrategy a) < 2 ^ 63
  | None => True
  end.

Record typedRequest (req : IdentityRequest) : Prop := {
  ty_table : zlen (ir_TableName req) < 2 ^ 63;
  ty_key : zlen (ir_PrimaryKey req) < 2 ^ 63;
  ty_attrs : Forall typedAttribute (ir_Attributes req);
  ty_values : Forall typed (ir_Values req);
  ty_length : zlen (ir_Values req) < 2 ^ 63 }.

(** ** Integers and strings *)

Lemma ub_lor_128 b : Z.lor (ub b) 128 = ub b mod 128 + 128.
Proof. by destruct b. Qed.

Lemma ub_continued x : ub (byte_of (Z.lor x 128)) = x mod 128 + 128.
Proof.
  rewrite ub_byte_of. change 256 with (2 ^ 8). rewrite <- Z.land_ones, Z.land_lor_distr_l by lia.
  rewrite (Z.land_ones x) by lia. change (Z.land 128 (Z.ones 8)) with 128. change (2 ^ 8) with 256.
  rewrite <- ub_byte_of, ub_lor_128, ub_byte_of. f_equal.
  change 256 with (128 * 2). rewrite Z.rem_mul_r by lia.
  rewrite Z.mul_comm, Z.mod_add by lia. apply Z.mod_mod. lia.
Qed.

Lemma putUvarint_read n : forall x rest, 0 <= x < 128 ^ Z.of_nat n -> (0 < n)%nat ->
  readUvarint n (putUvarint n x ++ rest) = Some (x, rest).
Proof.
  induction n as [|n IH]; intros x rest Hx Hn; [lia|]. cbn [putUvarint].
  destruct (Z.ltb_spec x 128) as [Hlt|Hge].
  - cbn [app readUvarint]. rewrite ub_byte_of, Z.mod_small by lia. by if_true.
  - cbn [app readUvarint]. rewrite ub_continued. pose proof (Z.mod_pos_bound x 128 ltac:(lia)). if_false.
    rewrite Z.shiftr_div_pow2 by lia. change (2 ^ 7) with 128.
    rewrite Nat2Z.inj_succ, Z.pow_succ_r in Hx by lia. destruct n as [|n]; [cbn in Hx; lia|].
    rewrite IH by first [lia|split; [apply Z.div_pos; lia|apply Z.div_lt_upper_bound; lia]].
    cbn [mbind option_bind]. do 2 f_equal. rewrite (Z.div_mod x 128) at 3 by lia. lia.
Qed.

Lemma PutUvarint_read x rest : in_u 64 x -> readUvarint 10 (PutUvarint x ++ rest) = Some (x, rest).
Proof. intros [H1 H2]. apply putUvarint_read; [|lia]. split; [done|]. cbn. lia. Qed.

Lemma lxor_ones a n : 0 <= n -> 0 <= a < 2 ^ n -> Z.lxor a (Z.ones n) = 2 ^ n - 1 - a.
Proof.
  intros Hn Ha. assert (Z.land (Z.lxor a (Z.ones n)) a = 0) as Hl.
  { apply Z.bits_inj'. intros i Hi. rewrite Z.land_spec, Z.lxor_spec, Z.bits_0.
    destruct (Z.lt_ge_cases i n) as [Hlt|Hge].
    - rewrite Z.ones_spec_low by lia. by destruct (Z.testbit a i).
    - destruct (Z.eq_dec a 0) as [->|]; [by rewrite Z.bits_0, andb_false_r|].
      rewrite (Z.bits_above_log2 a i); [apply andb_false_r|lia|].
      apply (Z.lt_le_trans _ n); [apply Z.log2_lt_pow2; lia|lia]. }
  apply Z.add_nocarry_lxor in Hl. rewrite Z.lxor_assoc, (Z.lxor_comm (Z.ones n)), <- Z.lxor_assoc,
    Z.lxor_nilpotent, Z.lxor_0_l in Hl. rewrite Z.ones_equiv in *. lia.
Qed.

Lemma zigzag_value z : in_s 64 z -> zigzag z = if z <? 0 then - 2 * z - 1 else 2 * z.
Proof.
  intros [H1 H2]. unfold zigzag, wrap_u. rewrite Z.shiftl_mul_pow2, Z.shiftr_div_pow2 by lia.
  destruct (Z.ltb_spec z 0).
  - replace (z / 2 ^ 63) with (-1) by (apply (Z.div_unique _ _ _ (z + 2 ^ 63)); lia).
    change ((-1) mod 2 ^ 64) with (Z.ones 64).
    replace ((z * 2 ^ 1) mod 2 ^ 64) with (2 * z + 2 ^ 64)
      by (apply (Z.mod_unique _ _ (-1)); [left|]; lia).
    rewrite lxor_ones by lia. lia.
  - rewrite Z.div_small, Zmod_0_l, Z.lxor_0_r, Z.mod_small by lia. lia.
Qed.

Lemma appendIdentityInt_read z rest : in_s 64 z ->
  readInt (PutUvarint (zigzag z) ++ rest) = Some (z, rest).
Proof.
  intros Hz. pose proof (zigzag_value z Hz) as E. destruct Hz as [H1 H2].
  unfold readInt. rewrite PutUvarint_read by (rewrite E; case_if; unfold in_u; lia).
  rewrite E. cbn [mbind option_bind]. do 2 f_equal. destruct (z <? 0).
  - replace (-2 * z - 1) with (1 + 2 * (- z - 1)) by lia. rewrite Z.even_add_mul_2.
    cbn [Z.even]. rewrite Z.mul_comm, Z.div_add by lia. change (1 / 2) with 0. lia.
  - rewrite Z.even_mul. cbn [Z.even orb]. rewrite Z.mul_comm, Z.div_mul; lia.
Qed.

Lemma identityBytes_read s rest : zlen s < 2 ^ 63 ->
  readBytes (PutUvarint (zlen s) ++ s ++ rest) = Some (s, rest).
Proof.
  intros Hs. pose proof (zlen_nonneg s). unfold readBytes. rewrite PutUvarint_read by (unfold in_u; lia).
  cbn [mbind option_bind]. pose proof (zlen_nonneg rest). rewrite zlen_app. if_true.
  unfold zlen. by rewrite Nat2Z.id, take_app_length, drop_app_length.
Qed.

(** ** Reading an identity back *)

Lemma in_int_uint t z : int_signed t = false -> in_int t z -> in_u 64 z.
Proof.
  unfold in_int, in_u. intros ->. destruct t; cbn; lia.
Qed.

Lemma in_int_int t z : int_signed t = true -> in_int t z -> in_s 64 z.
Proof.
  unfold in_int, in_s. intros ->. destruct t; cbn; lia.
Qed.

(** The bytes of a content. *)
Definition partBytes (p : keyPart) : bytes :=
  match p with
  | PBool b => [identityValueBool; byte_of (if b then 1 else 0)]
  | PInt z => identityValueInt :: PutUvarint (zigzag z)
  | PUint z => identityValueUint :: PutUvarint z
  | PString s => identityValueString :: PutUvarint (zlen s) ++ s
  | PBytes s => identityValueBytes :: PutUvarint (zlen s) ++ s
  | PTime z => identityValueTime :: PutUvarint (zigzag z)
  end.

Definition fieldBytes (f : bytes * bytes * bytes) : bytes :=
  (PutUvarint (zlen f.1.1) ++ f.1.1) ++ (PutUvarint (zlen f.1.2) ++ f.1.2) ++ PutUvarint (zlen f.2) ++ f.2.

Definition partsBytes (ps : list (bytes * bytes * bytes * keyPart)) : bytes :=
  concat (map (fun q => fieldBytes q.1 ++ partBytes q.2) ps).

Definition contentBytes (c : keyContent) : bytes :=
  identityVersion :: (PutUvarint (zlen (kc_table c)) ++ kc_table c) ++
    (PutUvarint (zlen (kc_key c)) ++ kc_key c) ++ PutUvarint (zigzag (kc_shard c)) ++
    PutUvarint (zlen (kc_parts c)) ++ partsBytes (kc_parts c).

(** Parts as typed values give them. *)
Definition wfPart (p : keyPart) : Prop :=
  match p with
  | PBool _ => True
  | PInt z | PTime z => in_s 64 z
  | PUint z => in_u 64 z
  | PString s | PBytes s => zlen s < 2 ^ 63
  end.

Definition wfField (f : bytes * bytes * bytes) : Prop :=
  zlen f.1.1 < 2 ^ 63 /\ zlen f.1.2 < 2 ^ 63 /\ zlen f.2 < 2 ^ 63.

Lemma appendIdentityValue_bytes buf v :
  match keyPartOf v with
  | Some p => appendIdentityValue buf v = Ok (buf ++ partBytes p)
  | None => exists e, appendIdentityValue buf v = Err e
  end.
Proof.
  destruct v as [|b|t z| | |s|s|z|t|]; cbn [keyPartOf appendIdentityValue];
    try (by eexists); [|destruct (int_signed t)|..]; cbn [partBytes];
    unfold appendIdentityBytes, appendIdentityInt, appendIdentityUint; by rewrite <- ?app_assoc.
Qed.

Lemma appendIdentityAttribute_bytes buf attr i :
  appendIdentityAttribute buf attr i = buf ++ fieldBytes (fieldOf i attr).
Proof.
  unfold fieldBytes. destruct attr; cbn [appendIdentityAttribute fieldOf fst snd];
    unfold appendIdentityBytes, appendIdentityUint; by rewrite <- ?app_assoc.
Qed.

Lemma keyPartOf_wf v p : typed v -> keyPartOf v = Some p -> wfPart p.
Proof.
  intros Ht. destruct v as [|b|t z| | |s|s|z|t|]; try done; cbn [keyPartOf];
    [..|intros [= <-]; apply UnixNano_range]; try (by intros [= <-]).
  destruct (int_signed t) eqn:Es; intros [= <-]; [by eapply in_int_int|by eapply in_int_uint].
Qed.

Lemma readPart_bytes p rest : wfPart p -> readPart (partBytes p ++ rest) = Some (p, rest).
Proof.
  destruct p; cbn [wfPart partBytes app]; intros Hp; cbn [readPart];
    repeat (rewrite decide_False by done); rewrite decide_True by done.
  - by destruct b.
  - by rewrite appendIdentityInt_read.
  - by rewrite PutUvarint_read.
  - rewrite <- app_assoc. by rewrite identityBytes_read.
  - rewrite <- app_assoc. by rewrite identityBytes_read.
  - by rewrite appendIdentityInt_read.
Qed.

Lemma readParts_bytes ps rest : Forall (fun q => wfField q.1 /\ wfPart q.2) ps ->
  readParts (length ps) (partsBytes ps ++ rest) = Some (ps, rest).
Proof.
  induction 1 as [|[[[name ty] mapping] p] ps [(H1 & H2 & H3) Hp] _ IH]; [done|].
  cbn [length readParts]. unfold partsBytes, fieldBytes in *. cbn [map concat fst snd] in *.
  rewrite <- !app_assoc. rewrite identityBytes_read by done. cbn [mbind option_bind].
  rewrite identityBytes_read by done. cbn [mbind option_bind].
  rewrite identityBytes_read by done. cbn [mbind option_bind].
  rewrite readPart_bytes by done. cbn [mbind option_bind]. by rewrite IH.
Qed.

Lemma utoa_fuel_length n : forall z, zlen (utoa_fuel n z) <= Z.of_nat n.
Proof.
  induction n as [|n IH]; intros z; [done|]. cbn [utoa_fuel]. case_if; [unfold zlen; cbn; lia|].
  rewrite zlen_app. specialize (IH (z / 10)). change (zlen [_]) with 1. lia.
Qed.

Lemma fieldOf_wf i attr : 0 <= i -> typedAttribute attr -> wfField (fieldOf i attr).
Proof.
  intros Hi. destruct attr as [a|]; [done|]. intros _. split; [|done]. cbn [fieldOf fst].
  change (Sprintf "value%d" [FInt i]) with (str "value" ++ formatVerb (byte_of 100) 0 (FInt i) ++ []).
  cbn [formatVerb]. change (ub (byte_of 100) =? 120) with false. cbn iota. unfold formatPadded, pad0.
  if_false. pose proof (zlen_nonneg (FormatUint i)).
  replace (Z.to_nat (0 - zlen (FormatUint i))) with O by lia. cbn [replicate app].
  rewrite app_nil_r, zlen_app. change (zlen (str "value")) with 5.
  pose proof (utoa_fuel_length 20 i). unfold FormatUint in *. lia.
Qed.

Lemma appendIdentityValues_bytes values : forall buf i attrs, length attrs = length values ->
  match partsOf i attrs values with
  | Some ps => appendIdentityValues buf i attrs values = Ok (buf ++ partsBytes ps)
  | None => exists e, appendIdentityValues buf i attrs values = Err e
  end.
Proof.
  induction values as [|v values IH]; intros buf i [|a attrs] Hl; try done.
  - cbn. by rewrite app_nil_r.
  - cbn [partsOf appendIdentityValues]. rewrite appendIdentityAttribute_bytes.
    pose proof (appendIdentityValue_bytes (buf ++ fieldBytes (fieldOf i a)) v) as Hv.
    destruct (keyPartOf v) as [p|]; cbn [mbind option_bind]; [rewrite Hv|by destruct Hv as [e ->]; exists e].
    cbn [mbind go_bind]. specialize (IH ((buf ++ fieldBytes (fieldOf i a)) ++ partBytes p) (i + 1) attrs).
    injection Hl as Hl. specialize (IH Hl). destruct (partsOf (i + 1) attrs values) as [ps|]; [|done].
    cbn [mbind option_bind]. rewrite IH. unfold partsBytes. cbn [map concat fst snd].
    by rewrite !app_assoc.
Qed.

Lemma partsOf_wf values : forall i attrs ps, 0 <= i -> Forall typedAttribute attrs ->
  Forall typed values -> partsOf i attrs values = Some ps ->
  Forall (fun q => wfField q.1 /\ wfPart q.2) ps /\ length ps = length values.
Proof.
  induction values as [|v values IH]; intros i attrs ps Hi Ha Hv E.
  - destruct attrs; injection E as <-; by split.
  - destruct attrs as [|a attrs]; [done|]. cbn [partsOf] in E.
    destruct (keyPartOf v) as [p|] eqn:Ep; [|done].
    destruct (partsOf (i + 1) attrs values) as [ps'|] eqn:Eps; [|done]. injection E as <-.
    apply Forall_cons in Ha as [Ha1 Ha2]. apply Forall_cons in Hv as [Hv1 Hv2].
    destruct (IH (i + 1) attrs ps' ltac:(lia) Ha2 Hv2 Eps) as [H1 H2].
    split; [|cbn; by rewrite H2]. constructor; [|done]. split; cbn.
    + by apply fieldOf_wf.
    + by eapply keyPartOf_wf.
Qed.

(** What is encoded is the content. *)
Lemma EncodePrimaryKeyIdentity_bytes req b : typedRequest req -> EncodePrimaryKeyIdentity req = Ok b ->
  exists c, contentOf req = Some c /\ b = contentBytes c.
Proof.
  intros [_ _ Ha Hv _]. unfold EncodePrimaryKeyIdentity, contentOf.
  do 3 (case_decide; [done|]). destruct (Z.eqb_spec (zlen (ir_Attributes req)) (zlen (ir_Values req))) as [Hl|];
    [|done]. cbn [negb]. unfold zlen in Hl. apply Nat2Z.inj in Hl.
  match goal with |- appendIdentityValues ?buf _ _ _ = _ -> _ =>
    pose proof (appendIdentityValues_bytes (ir_Values req) buf 0 (ir_Attributes req) Hl) as Hp end.
  destruct (partsOf 0 (ir_Attributes req) (ir_Values req)) as [ps|] eqn:Eps;
    [rewrite Hp|by destruct Hp as [e ->]].
  destruct (partsOf_wf _ _ _ _ (Z.le_refl 0) Ha Hv Eps) as [_ Hlen].
  intros [= <-]. eexists. split; [reflexivity|]. unfold contentBytes, appendIdentityBytes,
    appendIdentityInt, appendIdentityUint. cbn [kc_table kc_key kc_shard kc_parts].
  replace (zlen ps) with (zlen (ir_Values req)) by (unfold zlen; by rewrite Hlen).
  by rewrite <- !app_assoc.
Qed.

(** An identity is read back as its content. *)
Lemma EncodePrimaryKeyIdentity_read req b : typedRequest req -> EncodePrimaryKeyIdentity req = Ok b ->
  readIdentity b = contentOf req.
Proof.
  intros Ht Hb. destruct (EncodePrimaryKeyIdentity_bytes req b Ht Hb) as (c & Ec & ->). rewrite Ec.
  unfold contentOf in Ec. destruct (partsOf _ _ _) as [ps|] eqn:Eps; [|done]. injection Ec as <-.
  destruct Ht as [H1 H2 Ha Hv H3]. destruct (partsOf_wf _ _ _ _ (Z.le_refl 0) Ha Hv Eps) as [Hps Hlen].
  unfold contentBytes, readIdentity. cbn [kc_table kc_key kc_shard kc_parts].
  rewrite decide_True by done. rewrite <- !app_assoc.
  rewrite identityBytes_read by done. cbn [mbind option_bind].
  rewrite identityBytes_read by done. cbn [mbind option_bind].
  rewrite appendIdentityInt_read by apply UnixNano_range. cbn [mbind option_bind].
  rewrite PutUvarint_read by (unfold in_u, zlen in *; lia). cbn [mbind option_bind].
  unfold zlen. rewrite Nat2Z.id, <- (app_nil_r (partsBytes ps)), readParts_bytes by done.
  cbn [mbind option_bind]. by rewrite decide_True.
Qed.

(** C19. Two primary keys have the same identity exactly when they agree on the
    table, the key name, the shard time and, field by field, on name, type,
    mapping and typed value: strings with separators, zero bytes or digits are
    never confused with other keys. *)
Theorem identity_injective r1 r2 b1 b2 : typedRequest r1 -> typedRequest r2 ->
  EncodePrimaryKeyIdentity r1 = Ok b1 -> EncodePrimaryKeyIdentity r2 = Ok b2 ->
  (b1 = b2 <-> contentOf r1 = contentOf r2).
Proof.
  intros H1 H2 E1 E2. split.
  - intros ->. rewrite <- (EncodePrimaryKeyIdentity_read r1 b2) by done.
    by apply EncodePrimaryKeyIdentity_read.
  - destruct (EncodePrimaryKeyIdentity_bytes _ _ H1 E1) as (c1 & -> & ->).
    destruct (EncodePrimaryKeyIdentity_bytes _ _ H2 E2) as (c2 & -> & ->). by intros [= ->].
Qed.

Definition sampleKeyAttribute (name : bytes) : option Attribute :=
  Some (mkAttribute name [] (str "String") (str "StringLexBSI") [] false false []).

Definition sampleRequest (v1 v2 : bytes) : IdentityRequest :=
  mkIdentityRequest (str "orders") (str "region+code")
    [sampleKeyAttribute (str "region"); sampleKeyAttribute (str "code")] [GString v1; GString v2] epochTime.

(** The keys (a+b, c) and (a, b+c), which print alike, have different identities. *)
Lemma identity_injective_witness :
  let r1 := sampleRequest (str "a+b") (str "c") in
  let r2 := sampleRequest (str "a") (str "b+c") in
  match EncodePrimaryKeyIdentity r1, EncodePrimaryKeyIdentity r2 with
  | Ok b1, Ok b2 => (b1 = b2 <-> contentOf r1 = contentOf r2) /\ contentOf r1 <> contentOf r2
  | _, _ => False
  end.
Proof.
  assert (forall v1 v2, zlen v1 < 2 ^ 63 -> zlen v2 < 2 ^ 63 -> typedRequest (sampleRequest v1 v2)) as Ht.
  { intros v1 v2 Hv1 Hv2. split; [done|done| | |done].
    - repeat (apply Forall_cons_2; [done|]). constructor.
    - apply Forall_cons_2; [done|]. apply Forall_cons_2; [done|constructor]. }
  cbn zeta.
  destruct (EncodePrimaryKeyIdentity (sampleRequest (str "a+b") (str "c"))) as [b1|e|] eqn:E1;
    [|vm_compute in E1; discriminate..].
  destruct (EncodePrimaryKeyIdentity (sampleRequest (str "a") (str "b+c"))) as [b2|e|] eqn:E2;
    [|vm_compute in E2; discriminate..].
  split; [|vm_compute; discriminate].
  refine (identity_injective (sampleRequest (str "a+b") (str "c")) (sampleRequest (str "a") (str "b+c"))
            b1 b2 _ _ E1 E2); by apply Ht.
Defined.

(** ** Authority values *)

Section AuthorityValues.

Context `{TimestampParser}.

(** The 64-bit components of a compound key. *)
Fixpoint componentsOf (attrs : list (option Attribute)) (values : list any) : go (list Z) :=
  match values, attrs with
  | [], _ => Ok []
  | _ :: _, [] => Panic
  | v :: values, a :: attrs => u ← componentBits a v; us ← componentsOf attrs values; mret (u :: us)
  end.

Lemma appendComponents_bytes values : forall buf attrs,
  appendComponents buf attrs values =
  (fun us => buf ++ concat (map PutUint64 us)) <$> componentsOf attrs values.
Proof.
  induction values as [|v values IH]; intros buf attrs; cbn [appendComponents componentsOf].
  - destruct attrs; cbn; by rewrite app_nil_r.
  - destruct attrs as [|a attrs]; [done|]. cbn [appendComponents componentsOf]. unfold appendComponent.
    destruct (componentBits a v) as [u|e|]; cbn [mbind go_bind mret go_ret]; [|reflexivity..].
    rewrite IH.
    destruct (componentsOf attrs values) as [us|e|]; cbn; [|reflexivity..]. by rewrite <- app_assoc.
Qed.

Lemma componentBits_range a v u : componentBits a v = Ok u -> in_u 64 u.
Proof.
  unfold componentBits. destruct (is_nil v); [done|].
  destruct (normalizeComponent a v) as [v'|e|]; cbn [mbind go_bind]; [|done..].
  destruct v' as [| |t z| | | | |[z|]|t|]; try done.
  - intros [= <-]. apply Z.mod_pos_bound. lia.
  - case_if; [done|]. intros [= <-]. split; lia.
  - intros [= <-]. apply Z.mod_pos_bound. lia.
Qed.

Lemma componentsOf_range values : forall attrs us, componentsOf attrs values = Ok us ->
  Forall (in_u 64) us /\ length us = length values.
Proof.
  induction values as [|v values IH]; intros [|a attrs] us; try done; try by intros [= <-].
  cbn [componentsOf]. intros (u & Eu & (us' & Eus & [= <-])%bind_Ok_iff)%bind_Ok_iff.
  apply IH in Eus as [? ?]. split; [constructor; [by eapply componentBits_range|done]|cbn; lia].
Qed.

Lemma PutUint64_inj u1 u2 : in_u 64 u1 -> in_u 64 u2 -> PutUint64 u1 = PutUint64 u2 -> u1 = u2.
Proof.
  intros H1 H2 E. apply (f_equal (@rev byte)) in E. unfold PutUint64 in E. rewrite !rev_involutive in E.
  apply (f_equal le_value) in E. by rewrite !le_value_bytes_small in E.
Qed.

Lemma components_inj us1 : forall us2, length us1 = length us2 -> Forall (in_u 64) us1 ->
  Forall (in_u 64) us2 -> concat (map PutUint64 us1) = concat (map PutUint64 us2) -> us1 = us2.
Proof.
  induction us1 as [|u1 us1 IH]; intros [|u2 us2] Hl H1 H2; try done. cbn [map concat].
  intros [E1 E2]%app_inj_1; [|unfold PutUint64; by rewrite !length_rev, !le_bytes_length].
  apply Forall_cons in H1 as [? ?], H2 as [? ?]. injection Hl as Hl.
  f_equal; [by apply PutUint64_inj|by apply IH].
Qed.

(** Keys with the same number of fields are stored as the same number exactly
    when their fields have the same 64 bits: digits never move between fields. *)
Theorem authority_value_injective table key attrs1 attrs2 values1 values2 z1 z2 :
  length values1 = length values2 ->
  EncodeCompoundPrimaryKeyAuthorityValue table key attrs1 values1 = Ok z1 ->
  EncodeCompoundPrimaryKeyAuthorityValue table key attrs2 values2 = Ok z2 ->
  (z1 = z2 <-> componentsOf attrs1 values1 = componentsOf attrs2 values2).
Proof.
  intros Hl. unfold EncodeCompoundPrimaryKeyAuthorityValue.
  do 2 (case_decide; [done|]). do 4 (case_if; [done|]). rewrite !appendComponents_bytes.
  destruct (componentsOf attrs1 values1) as [us1|e|] eqn:C1; cbn; [|done..]. intros [= <-].
  destruct (componentsOf attrs2 values2) as [us2|e|] eqn:C2; cbn; [|done..]. intros [= <-].
  apply componentsOf_range in C1 as [R1 L1], C2 as [R2 L2]. split; [|by intros [= ->]].
  assert (forall us, length (concat (map PutUint64 us)) = (8 * length us)%nat) as Hlen.
  { induction us as [|u us IH]; [done|]. cbn [map concat]. rewrite length_app, IH.
    unfold PutUint64. rewrite length_rev, le_bytes_length. cbn [length]. lia. }
  intros Eb%SetBytes_inj; [|rewrite !Hlen; lia]. f_equal. apply components_inj; [lia|done..].
Qed.

End AuthorityValues.

Lemma authority_value_injective_witness :
  let parse : TimestampParser := fun _ => Err ErrEOF in
  let attrs := [sampleKeyAttribute (str "a"); sampleKeyAttribute (str "b")] in
  let enc values := @EncodeCompoundPrimaryKeyAuthorityValue parse (str "t") (str "a+b") attrs values in
  let v1 := [GInt Tint64 1; GInt Tint64 23] in
  let v2 := [GInt Tint64 12; GInt Tint64 3] in
  enc v1 = Ok (2 ^ 64 + 23) /\ enc v2 = Ok (12 * 2 ^ 64 + 3) /\
  (2 ^ 64 + 23 = 12 * 2 ^ 64 + 3 <-> @componentsOf parse attrs v1 = @componentsOf parse attrs v2).
Proof.
  cbn zeta. split; [vm_compute; reflexivity|]. split; [vm_compute; reflexivity|].
  apply (@authority_value_injective (fun _ => Err ErrEOF) (str "t") (str "a+b")
    [sampleKeyAttribute (str "a"); sampleKeyAttribute (str "b")]
    [sampleKeyAttribute (str "a"); sampleKeyAttribute (str "b")]
    [GInt Tint64 1; GInt Tint64 23] [GInt Tint64 12; GInt Tint64 3]); vm_compute; reflexivity.
Defined.
