(* ===== verification/KeyResolver.v ===== *)
(** * Resolving primary keys

    The resolver that finds or allocates the column identifier of a row through
    its primary key (core/primary_key_bsi.go), what a session remembers about
    empty key domains (core/primary_key_domain_state.go) and about keys of the
    current batch (shared/batch.go), and the lookup of parent keys
    (core/session.go).  The index behind the keys is the interface
    [BSIPrimaryKeyBackend]; its implementation over one column is at the end
    (core/primary_key_bsi_single_column.go).

    The counters of a profile are the list of their increments; elapsed times are
    left out. *)

From S2P Require Import Prelude GoStd GoState GoTime Value Catalog Sequencer TableBuffer KeyIdentity.

(** ** Domain states *)

(** [DomainOther] stands for every other string of the Go type. *)
Inductive DomainState : Type :=
  | DomainUnknown | DomainEmpty | DomainNonEmpty | DomainOther (name : bytes).

#[export] Instance DomainState_eq_dec : EqDecision DomainState.
Proof. solve_decision. Defined.

Definition normalizeDomainState (s : DomainState) : DomainState :=
  match s with
  | DomainEmpty | DomainNonEmpty => s
  | _ => DomainUnknown
  end.

(** ** Sessions *)

(** The identities of the batch, [None] when the session has no batch buffer, and
    the states of key domains. *)
Record IngestSession : Type := mkIngestSession {
  batchPrimaryKeyIdentity : option (gmap bytes Z);
  primaryKeyDomainStates : gmap bytes DomainState }.

Definition cachedDomainState (s : IngestSession) (domainKey : bytes) : option DomainState :=
  if decide (domainKey = []) then None
  else normalizeDomainState <$> primaryKeyDomainStates s !! domainKey.

Definition markDomainState (domainKey : bytes) (state : DomainState) (s : IngestSession) : IngestSession :=
  if decide (domainKey = []) then s
  else if decide (normalizeDomainState state = DomainUnknown) then s
  else mkIngestSession (batchPrimaryKeyIdentity s)
         (<[domainKey := normalizeDomainState state]> (primaryKeyDomainStates s)).

Definition authorityKnownNonEmpty (s : IngestSession) (authorityKey : bytes) : bool :=
  bool_decide (cachedDomainState s authorityKey = Some DomainNonEmpty).

Definition SetPrimaryKeyIdentity (identity : bytes) (columnID : Z) (m : gmap bytes Z) : gmap bytes Z :=
  if decide (identity = [] \/ columnID = 0) then m
  else match m !! identity with
       | Some _ => m
       | None => <[identity := columnID]> m
       end.

Definition LookupLocalCIDForPrimaryKeyIdentity (identity : bytes) (m : gmap bytes Z) : option Z :=
  if decide (identity = []) then None else m !! identity.

(** ** Requests *)

Record LookupRequest : Type := mkLookupRequest {
  lr_TableName : bytes;
  lr_PrimaryKey : bytes;
  lr_Attributes : list (option Attribute);
  lr_Values : list any;
  lr_AuthorityValue : option Z;
  lr_Identity : bytes;
  lr_RenderedValue : bytes;
  lr_ShardTimestamp : Time;
  lr_PrimaryKeyMode : bytes }.

Record StageRequest : Type := mkStageRequest {
  sr_TableName : bytes;
  sr_PrimaryKey : bytes;
  sr_Attributes : list (option Attribute);
  sr_Values : list any;
  sr_AuthorityValue : option Z;
  sr_Identity : bytes;
  sr_RenderedValue : bytes;
  sr_ShardTimestamp : Time;
  sr_ColumnID : Z }.

Record LookupResult : Type := mkLookupResult {
  lo_ColumnID : Z;
  lo_Found : bool;
  lo_MatchedColumnIDs : list Z;
  lo_CacheLookups : nat;
  lo_CacheHits : nat }.

Definition matchedColumnIDs (r : LookupResult) : list Z :=
  if decide (lo_MatchedColumnIDs r <> []) then lo_MatchedColumnIDs r
  else if lo_Found r then [lo_ColumnID r] else [].

(** The request of a row; the first two fields say whether the pointers to the
    session and to the table buffer are set. *)
Record ResolveRequest : Type := mkResolveRequest {
  rr_Session : bool;
  rr_TableBuffer : bool;
  rr_LookupValue : bytes;
  rr_PrimaryKeyValues : list any;
  rr_ProvidedColumnID : Z;
  rr_DirectColumnID : bool;
  rr_LookupOnly : bool;
  rr_PrimaryKeyMode : bytes }.

Definition PrimaryKeyModeVerifyExisting : bytes := str "verify_existing".
Definition PrimaryKeyModeAssumeNew : bytes := str "assume_new".

Definition assumeNew `{TextLib} (m : bytes) : bool := EqualFold m PrimaryKeyModeAssumeNew.

Definition normalizeMode `{TextLib} (m : bytes) : bytes :=
  if assumeNew m then PrimaryKeyModeAssumeNew else PrimaryKeyModeVerifyExisting.

(** ** The storage boundary *)

(** [PrimaryKeyDomainState] is an optional capability. *)
Class BSIPrimaryKeyBackend (S : Type) : Type := {
  LookupPrimaryKey : LookupRequest -> stgo S LookupResult;
  StagePrimaryKey : StageRequest -> stgo S unit;
  PrimaryKeyDomainState : option (LookupRequest -> stgo S DomainState) }.

(** ** Building requests *)

Definition identityRequest (req : LookupRequest) : IdentityRequest :=
  mkIdentityRequest (lr_TableName req) (lr_PrimaryKey req) (lr_Attributes req) (lr_Values req)
    (lr_ShardTimestamp req).

Definition EncodeBSIPrimaryKeyLookupIdentity (req : LookupRequest) : go bytes :=
  EncodePrimaryKeyIdentity (identityRequest req).

Definition newLookupRequest `{TextLib, TimestampParser} (req : ResolveRequest) (tbuf : TableBuffer)
    : go LookupRequest :=
  let name := tb_Name (t_Basic (tbf_Table tbuf)) in
  let key := PrimaryKey (t_Basic (tbf_Table tbuf)) in
  let attrs := map Some (PKAttributes tbuf) in
  let values := rr_PrimaryKeyValues req in
  let bare := mkLookupRequest name key attrs values None [] (rr_LookupValue req)
                (CurrentTimestamp tbuf) (normalizeMode (rr_PrimaryKeyMode req)) in
  identity ← EncodeBSIPrimaryKeyLookupIdentity bare;
  authority ← optionalCompoundPrimaryKeyAuthorityValue name key attrs values;
  mret (mkLookupRequest name key attrs values authority identity (rr_LookupValue req)
          (CurrentTimestamp tbuf) (normalizeMode (rr_PrimaryKeyMode req))).

Definition newStageRequestFromLookup (req : LookupRequest) (columnID : Z) : StageRequest :=
  mkStageRequest (lr_TableName req) (lr_PrimaryKey req) (lr_Attributes req) (lr_Values req)
    (lr_AuthorityValue req) (lr_Identity req) (lr_RenderedValue req) (lr_ShardTimestamp req) columnID.

(** The first nil value, by the name of its field. *)
Fixpoint checkValues (values : list any) (attrs : list Attribute) : go unit :=
  match values, attrs with
  | [], _ => Ok tt
  | value :: values, attr :: attrs =>
    if is_nil value then
      Err (Errorf "BSI primary key resolver requires non-nil typed primary-key value for %s"
             [AStr (FieldName attr)])
    else checkValues values attrs
  | _ :: _, [] => Panic
  end.

Definition validateValues (req : ResolveRequest) (tbuf : TableBuffer) : go unit :=
  if negb (zlen (rr_PrimaryKeyValues req) =? zlen (PKAttributes tbuf)) then
    Err (Errorf "BSI primary key resolver requires %d typed primary-key values, got %d"
           [AInt (zlen (PKAttributes tbuf)); AInt (zlen (rr_PrimaryKeyValues req))])
  else checkValues (rr_PrimaryKeyValues req) (PKAttributes tbuf).

(** The time of the shard in the key of a domain. *)
Definition shardNanos (table : Table) (ts : Time) : Z :=
  if decide (TimeQuantumType (t_Basic table) <> []) then
    if IsZero ts then 0 else UnixNano (UTC ts)
  else 0.

Definition domainKeyOf (req : LookupRequest) (tbuf : TableBuffer) : bytes :=
  Sprintf "%s|%s|%d" [FStr (lr_TableName req); FStr (lr_PrimaryKey req);
                      FInt (shardNanos (tbf_Table tbuf) (lr_ShardTimestamp req))].

Definition authorityKeyOf (req : LookupRequest) : bytes :=
  Sprintf "%s|%s|authority" [FStr (lr_TableName req); FStr (lr_PrimaryKey req)].

(** ** The resolver *)

Inductive counter : Type :=
  | ResolveCount | LookupRequiredCount | AssumeNewCount | LocalCacheLookupCount | LocalCacheHitCount
  | SkippedLocalCacheLookupCount | BSIFallbackCount | BSILookupCount | BSIHitCount | SkippedBSILookupCount | EmptyDomainProbeCount
  | EmptyDomainSkipCount | EmptyDomainNonEmptyCount | EmptyDomainUnknownCount
  | BSIProjectionCacheLookupCount | BSIProjectionCacheHitCount | BSIStageWriteCount
  | RownumAllocationCount | ProvidedColumnIDCount | DirectColumnIDCount | BatchCacheWriteCount.

(** The session, the buffer of the table, the node, the backend, and the profile. *)
Record ResolveWorld (B S : Type) : Type := mkWorld {
  w_session : IngestSession;
  w_buffer : TableBuffer;
  w_node : Node B;
  w_backend : S;
  w_profile : list counter }.
Arguments mkWorld {B S}.
Arguments w_session {B S}.
Arguments w_buffer {B S}.
Arguments w_node {B S}.
Arguments w_backend {B S}.
Arguments w_profile {B S}.

Section Resolver.

Context {B S : Type} `{Roaring B} `{BSIPrimaryKeyBackend S} `{TextLib} `{TimestampParser}.

Abbreviation run := (stgo (ResolveWorld B S)).

Definition count (c : counter) : run unit := fun w =>
  (Ok tt, mkWorld (w_session w) (w_buffer w) (w_node w) (w_backend w) (w_profile w ++ [c])).

Definition countN (c : counter) (n : nat) : run unit := fun w =>
  (Ok tt, mkWorld (w_session w) (w_buffer w) (w_node w) (w_backend w) (w_profile w ++ replicate n c)).

Definition getSession : run IngestSession := fun w => (Ok (w_session w), w).

Definition getBuffer : run TableBuffer := fun w => (Ok (w_buffer w), w).

Definition onSession (f : IngestSession -> IngestSession) : run unit := fun w =>
  (Ok tt, mkWorld (f (w_session w)) (w_buffer w) (w_node w) (w_backend w) (w_profile w)).

Definition setCurrentColumnID (id : Z) : run unit := fun w =>
  (Ok tt, mkWorld (w_session w) (withColumnID (w_buffer w) id) (w_node w) (w_backend w) (w_profile w)).

Definition onBackend {A} (m : stgo S A) : run A := fun w =>
  let '(r, s) := m (w_backend w) in
  (r, mkWorld (w_session w) (w_buffer w) (w_node w) s (w_profile w)).

Definition onBuffer {A} (m : stgo (TableBuffer * Node B) A) : run A := fun w =>
  let '(r, (t, n)) := m (w_buffer w, w_node w) in
  (r, mkWorld (w_session w) t n (w_backend w) (w_profile w)).

(** An error of [m] with a prefix. *)
Definition wrapping {A} (fmt : string) (m : run A) : run A := fun w =>
  match m w with
  | (Err e, w) => (Err (Errorf fmt [AErr e]), w)
  | r => r
  end.

Definition allocatePrimaryKeyColumnID (req : ResolveRequest) : run unit :=
  if negb (rr_ProvidedColumnID req =? 0) then
    _ ← count ProvidedColumnIDCount;
    setCurrentColumnID (rr_ProvidedColumnID req)
  else
    _ ← count RownumAllocationCount;
    onBuffer NextColumnID.

Definition resolveDirectColumnID (req : ResolveRequest) : run (Z * bool) :=
  if rr_DirectColumnID req then
    _ ← count DirectColumnIDCount;
    tbuf ← getBuffer;
    mret (CurrentColumnID tbuf, false)
  else
    _ ← allocatePrimaryKeyColumnID req;
    tbuf ← getBuffer;
    mret (CurrentColumnID tbuf, false).

(** The backend's answer about the domain, remembered for the session. *)
Definition probeDomain (lookupReq : LookupRequest) (domainKey authorityKey : bytes)
    (probe : LookupRequest -> stgo S DomainState) : run bool :=
  state ← try_ (onBackend (probe lookupReq));
  _ ← count EmptyDomainProbeCount;
  match state with
  | inr e => lift (Err (Errorf "BSI primary key domain state error - %w" [AErr e]))
  | inl state =>
    match normalizeDomainState state with
    | DomainEmpty =>
      _ ← onSession (markDomainState domainKey DomainEmpty);
      _ ← count EmptyDomainSkipCount;
      mret true
    | DomainNonEmpty =>
      _ ← onSession (markDomainState domainKey DomainNonEmpty);
      _ ← onSession (markDomainState authorityKey DomainNonEmpty);
      _ ← count EmptyDomainNonEmptyCount;
      mret false
    | _ => _ ← count EmptyDomainUnknownCount; mret false
    end
  end.

Definition shouldSkipLookupForEmptyDomain (req : ResolveRequest) (lookupReq : LookupRequest) : run bool :=
  if assumeNew (rr_PrimaryKeyMode req) then mret false
  else
    session ← getSession;
    tbuf ← getBuffer;
    let domainKey := domainKeyOf lookupReq tbuf in
    let authorityKey := authorityKeyOf lookupReq in
    if decide (cachedDomainState session domainKey = Some DomainNonEmpty) then
      _ ← count EmptyDomainNonEmptyCount; mret false
    else if authorityKnownNonEmpty session authorityKey then
      _ ← count EmptyDomainNonEmptyCount; mret false
    else if decide (cachedDomainState session domainKey = Some DomainEmpty) then
      _ ← count EmptyDomainSkipCount; mret true
    else match PrimaryKeyDomainState with
         | None => mret false
         | Some probe => probeDomain lookupReq domainKey authorityKey probe
         end.

(** A new identifier for the key, staged and remembered for the batch. *)
Definition allocateAndStage (req : ResolveRequest) (lookupReq : LookupRequest) : run (Z * bool) :=
  _ ← allocatePrimaryKeyColumnID req;
  _ ← count BSIStageWriteCount;
  tbuf ← getBuffer;
  _ ← wrapping "BSI primary key stage error - %w"
        (onBackend (StagePrimaryKey (newStageRequestFromLookup lookupReq (CurrentColumnID tbuf))));
  session ← getSession;
  _ ← match batchPrimaryKeyIdentity session with
      | None => mret tt
      | Some m =>
        _ ← count BatchCacheWriteCount;
        onSession (fun s => mkIngestSession
          (Some (SetPrimaryKeyIdentity (lr_Identity lookupReq) (CurrentColumnID tbuf) m))
          (primaryKeyDomainStates s))
      end;
  mret (CurrentColumnID tbuf, false).

(** The identifier the batch has for the key. *)
Definition lookupBatch (lookupReq : LookupRequest) : run (option Z) :=
  session ← getSession;
  match batchPrimaryKeyIdentity session with
  | None => mret None
  | Some m =>
    _ ← count LocalCacheLookupCount;
    mret (LookupLocalCIDForPrimaryKeyIdentity (lr_Identity lookupReq) m)
  end.

(** The branch that asks the backend. *)
Definition lookupExisting (req : ResolveRequest) (lookupReq : LookupRequest) : run (Z * bool) :=
  _ ← count BSILookupCount;
  lookup ← wrapping "BSI primary key lookup error - %w" (onBackend (LookupPrimaryKey lookupReq));
  _ ← countN BSIProjectionCacheLookupCount (lo_CacheLookups lookup);
  _ ← countN BSIProjectionCacheHitCount (lo_CacheHits lookup);
  match matchedColumnIDs lookup with
  | _ :: _ :: _ =>
    lift (Err (Errorf "BSI primary key authority conflict for %s.%s value %s: matched %d rownums"
      [AStr (lr_TableName lookupReq); AStr (lr_PrimaryKey lookupReq); AStr (lr_RenderedValue lookupReq);
       AInt (zlen (matchedColumnIDs lookup))]))
  | [id] =>
    _ ← count BSIHitCount;
    tbuf ← getBuffer;
    _ ← onSession (markDomainState (domainKeyOf lookupReq tbuf) DomainNonEmpty);
    _ ← onSession (markDomainState (authorityKeyOf lookupReq) DomainNonEmpty);
    _ ← setCurrentColumnID id;
    mret (id, true)
  | [] => if rr_LookupOnly req then mret (0, false) else allocateAndStage req lookupReq
  end.

(** The identifier of a key whose requests are built. *)
Definition resolveIdentified (req : ResolveRequest) (lookupReq : LookupRequest) : run (Z * bool) :=
  hit ← lookupBatch lookupReq;
  match hit with
  | Some columnID =>
    if negb (rr_ProvidedColumnID req =? 0) && negb (rr_ProvidedColumnID req =? columnID) then
      lift (Err (Errorf "BSI primary key local batch conflict for %s: existing column ID %d, provided column ID %d"
        [AStr (rr_LookupValue req); AInt columnID; AInt (rr_ProvidedColumnID req)]))
    else
      _ ← count LocalCacheHitCount;
      _ ← setCurrentColumnID columnID;
      mret (columnID, true)
  | None =>
    domainSkip ← shouldSkipLookupForEmptyDomain req lookupReq;
    if assumeNew (rr_PrimaryKeyMode req) then
      _ ← count AssumeNewCount;
      _ ← count SkippedBSILookupCount;
      allocateAndStage req lookupReq
    else if domainSkip : bool then
      _ ← count SkippedBSILookupCount;
      allocateAndStage req lookupReq
    else lookupExisting req lookupReq
  end.

(** The key of a table whose rows are found through it. *)
Definition resolveKey (req : ResolveRequest) : run (Z * bool) :=
  tbuf ← getBuffer;
  _ ← lift (validateValues req tbuf);
  _ ← count LookupRequiredCount;
  lookupReq ← wrapping "BSI primary key identity error - %w" (lift (newLookupRequest req tbuf));
  resolveIdentified req lookupReq.

(** The identifier of the row and whether the row exists; [hasBackend] says
    whether the resolver has a backend. *)
Definition ResolvePrimaryKeyColumnID (hasBackend : bool) (req : ResolveRequest) : run (Z * bool) :=
  _ ← count ResolveCount;
  if negb hasBackend then lift (Err (Errorf "BSI primary key resolver backend is nil" []))
  else if negb (rr_Session req) then lift (Err (Errorf "primary key resolver session is nil" []))
  else if negb (rr_TableBuffer req) then lift (Err (Errorf "primary key resolver table buffer is nil" []))
  else
    tbuf ← getBuffer;
    if negb (ShouldLookupPrimaryKey tbuf) then resolveDirectColumnID req
    else resolveKey req.

(** The resolver of a session that has none: it takes identifiers it is given and
    refuses to look anything up. *)
Definition MissingPrimaryKeyResolver (req : ResolveRequest) : run (Z * bool) :=
  _ ← count ResolveCount;
  tbuf ← getBuffer;
  if rr_DirectColumnID req then
    _ ← count DirectColumnIDCount;
    mret (if rr_TableBuffer req then CurrentColumnID tbuf else 0, false)
  else if negb (rr_ProvidedColumnID req =? 0) then
    _ ← count ProvidedColumnIDCount;
    _ ← (if rr_TableBuffer req then setCurrentColumnID (rr_ProvidedColumnID req) else mret tt);
    mret (rr_ProvidedColumnID req, false)
  else
    let table := t_Basic (tbf_Table tbuf) in
    lift (Err (Errorf "primary key resolver is not configured for table %q primary key %q; inject a BSI primary-key authority resolver"
      (if rr_TableBuffer req then [AStr (tb_Name table); AStr (PrimaryKey table)] else [AStr []; AStr []]))).

(** ** Parent keys *)

(** The parent's buffer gets its row back afterwards. *)
Definition lookupParentPrimaryKeyColumnID (hasBackend : bool) (lookupKey : bytes)
    (lookupValues : list any) (fkFieldSpec : bytes) : run (Z * bool) := fun w =>
  let relBuf := w_buffer w in
  let key := PrimaryKey (t_Basic (tbf_Table relBuf)) in
  if decide (fkFieldSpec <> [] /\ fkFieldSpec <> key) then
    (Err (Errorf "alternate foreign key %q is not supported by BSI primary-key authority" [AStr fkFieldSpec]), w)
  else if negb (zlen lookupValues =? zlen (PKAttributes relBuf)) then
    (Err (Errorf "parent primary key %s expects %d values, got %d"
       [AStr key; AInt (zlen (PKAttributes relBuf)); AInt (zlen lookupValues)]), w)
  else
    let moved := mkTableBuffer (tbf_Table relBuf) (sequencerCache relBuf) (CurrentColumnID relBuf)
                   (CurrentTimestamp relBuf) lookupValues (PKAttributes relBuf) in
    let restore (t : TableBuffer) := mkTableBuffer (tbf_Table t) (sequencerCache t) (CurrentColumnID relBuf)
                   (CurrentTimestamp relBuf) (CurrentPKValue relBuf) (PKAttributes t) in
    let req := mkResolveRequest true true lookupKey lookupValues 0 false true PrimaryKeyModeVerifyExisting in
    let '(r, w') := ResolvePrimaryKeyColumnID hasBackend req
        (mkWorld (w_session w) moved (w_node w) (w_backend w) (w_profile w)) in
    let w' := mkWorld (w_session w') (restore (w_buffer w')) (w_node w') (w_backend w') (w_profile w') in
    match r with
    | Ok (columnID, existing) =>
      if negb existing || (columnID =? 0) then (Ok (0, false), w') else (Ok (columnID, true), w')
    | Err e => (Err e, w')
    | Panic => (Panic, w')
    end.

(** ** Flushing *)

(** The session starts a new batch buffer and sends the old one, unless that is
    empty; [send] stands for the transport of the batch, which changes what the
    node and the backend store.  What is known about key domains stays as it is. *)
Definition flush (batchEmpty : bool) (send : stgo (Node B * S) unit) : run unit := fun w =>
  match batchPrimaryKeyIdentity (w_session w) with
  | None => (Ok tt, w)
  | Some _ =>
    if batchEmpty then (Ok tt, w)
    else
      let session := mkIngestSession (Some ∅) (primaryKeyDomainStates (w_session w)) in
      let '(r, (n, s)) := send (w_node w, w_backend w) in
      (r, mkWorld session (w_buffer w) n s (w_profile w))
  end.

End Resolver.

(** ** The backend over the index of a single key column *)

Record ReadRequest : Type := mkReadRequest {
  rd_TableName : bytes;
  rd_FieldName : bytes;
  rd_MappingStrategy : bytes;
  rd_Attribute : Attribute;
  rd_Value : any;
  rd_ShardTimestamp : Time;
  rd_RequiresShardScope : bool }.

(** The reader of the index; reporting the state of a domain is optional. *)
Class SingleColumnBSIPrimaryKeyReader (R : Type) : Type := {
  LookupSingleColumnBSIPrimaryKey : ReadRequest -> stgo R (list Z);
  ReaderDomainState : option (ReadRequest -> stgo R DomainState) }.

Section SingleColumn.

Context {R : Type} `{SingleColumnBSIPrimaryKeyReader R} (table : option Table).

Definition singleColumnUnsupported (e : BSIPrimaryKeyAuthorityEligibility) : error :=
  Errorf "single-column BSI primary-key authority unsupported for table %s: %s"
    [AStr (el_TableName e); AStr (Reason e)].

Definition singleColumnEligible (e : BSIPrimaryKeyAuthorityEligibility) : bool :=
  Eligible e && bool_decide (Mode e = SingleColumnBSI).

Definition tableAttribute (name : bytes) : go Attribute :=
  match table with Some t => GetAttribute t name | None => Panic end.

Definition singleColumnLookup (req : LookupRequest) : stgo R LookupResult :=
  let e := ObserveBSIPrimaryKeyAuthorityEligibility table in
  if negb (singleColumnEligible e) then lift (Err (singleColumnUnsupported e))
  else match lr_Values req with
  | [value] =>
    attr ← lift (tableAttribute (el_FieldName e));
    ids ← LookupSingleColumnBSIPrimaryKey (mkReadRequest (el_TableName e) (el_FieldName e)
            (el_MappingStrategy e) attr value (lr_ShardTimestamp req) (RequiresShardScope e));
    match ids with
    | [id] => mret (mkLookupResult id true ids 0 0)
    | _ => mret (mkLookupResult 0 false ids 0 0)
    end
  | values => lift (Err (Errorf "single-column BSI primary-key lookup requires 1 value, got %d" [AInt (zlen values)]))
  end.

Definition singleColumnDomainState (req : LookupRequest) : stgo R DomainState :=
  let e := ObserveBSIPrimaryKeyAuthorityEligibility table in
  if negb (singleColumnEligible e) then mret DomainUnknown
  else match ReaderDomainState with
  | None => mret DomainUnknown
  | Some read =>
    attr ← lift (tableAttribute (el_FieldName e));
    read (mkReadRequest (el_TableName e) (el_FieldName e) (el_MappingStrategy e) attr GNil
            (lr_ShardTimestamp req) (RequiresShardScope e))
  end.

(** The key itself is written with the other fields of the row. *)
Definition singleColumnStage (_ : StageRequest) : stgo R unit :=
  let e := ObserveBSIPrimaryKeyAuthorityEligibility table in
  if negb (singleColumnEligible e) then lift (Err (singleColumnUnsupported e)) else mret tt.

Definition SingleColumnBSIPrimaryKeyBackend : BSIPrimaryKeyBackend R := {|
  LookupPrimaryKey := singleColumnLookup;
  StagePrimaryKey := singleColumnStage;
  PrimaryKeyDomainState := Some singleColumnDomainState |}.

End SingleColumn.
