(* ===== verification/KeyResolution.v ===== *)
(** * Theorems about the resolver of primary keys

    What a backend promises ([BackendLaws]), the table of keys a session and its
    backend implement together, and two runs in which the knowledge about empty
    domains goes wrong. *)

From S2P Require Import Prelude GoStd GoState GoTime JsonText Value Catalog Sequencer TableBuffer KeyIdentity KeyResolver.

(** ** Keys of domains *)

Lemma shardNanos_range table ts : in_s 64 (shardNanos table ts).
Proof.
  unfold shardNanos. case_decide; [|split; lia]. case_if; [split; lia|]. apply UnixNano_range.
Qed.

Lemma domainKeyOf_eq req tbuf : domainKeyOf req tbuf =
  lr_TableName req ++ str "|" ++ lr_PrimaryKey req ++ str "|" ++
  formatPadded 0 (shardNanos (tbf_Table tbuf) (lr_ShardTimestamp req)) ++ [].
Proof. reflexivity. Qed.

Lemma domainKeyOf_inj req req' tbuf : lr_TableName req' = lr_TableName req ->
  lr_PrimaryKey req' = lr_PrimaryKey req -> domainKeyOf req' tbuf = domainKeyOf req tbuf ->
  shardNanos (tbf_Table tbuf) (lr_ShardTimestamp req') = shardNanos (tbf_Table tbuf) (lr_ShardTimestamp req).
Proof.
  intros E1 E2. rewrite !domainKeyOf_eq, E1, E2, !app_nil_r.
  intros E%app_inv_head%app_inv_head%app_inv_head%app_inv_head.
  apply formatPadded_inj in E; [done|apply shardNanos_range..].
Qed.

Lemma domainKeyOf_nonempty req tbuf : domainKeyOf req tbuf <> [].
Proof. rewrite domainKeyOf_eq. by destruct (lr_TableName req). Qed.

Lemma cached_mark s key key' state : normalizeDomainState state = state -> state <> DomainUnknown ->
  key <> [] -> cachedDomainState (markDomainState key state s) key' =
  if decide (key' = key) then Some state else cachedDomainState s key'.
Proof.
  intros Hn Hu Hk. unfold markDomainState, cachedDomainState. rewrite Hn.
  rewrite (decide_False (P := key = [])), (decide_False (P := state = DomainUnknown)) by done.
  cbn [primaryKeyDomainStates]. destruct (decide (key' = key)) as [->|Hne].
  - rewrite decide_False by done. rewrite lookup_insert_eq. cbn. by rewrite Hn.
  - by rewrite lookup_insert_ne by done.
Qed.

Lemma mark_batch key state s :
  batchPrimaryKeyIdentity (markDomainState key state s) = batchPrimaryKeyIdentity s.
Proof. unfold markDomainState. by repeat case_decide. Qed.

(** ** What a backend promises *)

(** The request carries the identity of its key. *)
Definition identified (req : LookupRequest) : Prop :=
  EncodeBSIPrimaryKeyLookupIdentity req = Ok (lr_Identity req).

(** A request for a key of the table. *)
Definition requestFor (table : Table) (req : LookupRequest) : Prop :=
  identified req /\ lr_TableName req = tb_Name (t_Basic table) /\
  lr_PrimaryKey req = PrimaryKey (t_Basic table).

(** A backend keeps the committed keys of a table.  Lookups find them, staged keys
    are not committed yet, and a domain it calls empty has none of them. *)
Class BackendLaws (S : Type) `{BSIPrimaryKeyBackend S} (table : Table) : Type := {
  committed : S -> gmap bytes Z;
  lookup_law req s : requestFor table req -> exists r s', LookupPrimaryKey req s = (Ok r, s') /\
    matchedColumnIDs r = option_list (committed s !! lr_Identity req) /\ committed s' = committed s;
  stage_law req s : exists s', StagePrimaryKey req s = (Ok tt, s') /\ committed s' = committed s;
  domain_law probe req s : PrimaryKeyDomainState = Some probe -> requestFor table req ->
    exists state s', probe req s = (Ok state, s') /\ committed s' = committed s /\
      (normalizeDomainState state = DomainEmpty -> forall req', requestFor table req' ->
         shardNanos table (lr_ShardTimestamp req') = shardNanos table (lr_ShardTimestamp req) ->
         committed s !! lr_Identity req' = None) }.

(** ** The table of keys a session and its backend implement *)

(** The identifier of a key, whether it is an existing one, and the keys of the
    batch afterwards. *)
Definition assign (batch commits : gmap bytes Z) (key : bytes) (fresh : Z) : Z * bool * gmap bytes Z :=
  match batch !! key with
  | Some c => (c, true, batch)
  | None =>
    match commits !! key with
    | Some c => (c, true, batch)
    | None => (fresh, false, <[key := fresh]> batch)
    end
  end.

(** ** Runs of the parts *)

Section Runs.

Context {B S : Type} `{Roaring B} `{BSIPrimaryKeyBackend S} `{TextLib} `{TimestampParser}.

(** The buffer is for the same table and row. *)
Definition sameRow (t t' : TableBuffer) : Prop :=
  tbf_Table t' = tbf_Table t /\ PKAttributes t' = PKAttributes t /\ CurrentTimestamp t' = CurrentTimestamp t.

Lemma takeNext_same t time s : sameRow t (takeNext t time s).
Proof. unfold takeNext. by destruct (Next s). Qed.

Lemma checkoutNext_same time t (m : Node B) r t' m' : checkoutNext time (t, m) = (r, (t', m')) -> sameRow t t'.
Proof.
  assert (forall id, sameRow t t /\ sameRow t (withColumnID t id)) as Hs by done.
  unfold checkoutNext. destruct (PKAttributes t); [intros [= _ <- _]; apply (Hs 0)|].
  destruct (localCheckoutSequence _ _ _ _ m) as [[seq|e|] m1]; intros [= _ <- _];
    [apply takeNext_same|apply Hs|apply (Hs 0)].
Qed.

Lemma NextColumnID_same t (m : Node B) r t' m' : NextColumnID (t, m) = (r, (t', m')) -> sameRow t t'.
Proof.
  unfold NextColumnID. destruct (sequencerCache t !! _) as [s|]; [|apply checkoutNext_same].
  destruct (IsFullySubscribed s); [apply checkoutNext_same|]. intros [= _ <- _]. apply takeNext_same.
Qed.

(** The next identifier of the buffer is [fresh]. *)
Definition nextIs (w : ResolveWorld B S) (fresh : Z) (t' : TableBuffer) (n' : Node B) : Prop :=
  NextColumnID (w_buffer w, w_node w) = (Ok tt, (t', n')) /\ CurrentColumnID t' = fresh /\ fresh <> 0.

Lemma allocateAndStage_run req lreq (w : ResolveWorld B S) m fresh t' n' s' :
  rr_ProvidedColumnID req = 0 -> batchPrimaryKeyIdentity (w_session w) = Some m ->
  lr_Identity lreq <> [] -> m !! lr_Identity lreq = None -> nextIs w fresh t' n' ->
  StagePrimaryKey (newStageRequestFromLookup lreq fresh) (w_backend w) = (Ok tt, s') ->
  exists p, allocateAndStage req lreq w = (Ok (fresh, false),
    mkWorld (mkIngestSession (Some (<[lr_Identity lreq := fresh]> m)) (primaryKeyDomainStates (w_session w))) t' n' s' p).
Proof.
  intros Hp Hm Hi Hn (En & Ef & Hf) Es. unfold allocateAndStage, allocatePrimaryKeyColumnID.
  rewrite Hp. change (negb (0 =? 0)) with false. cbn iota.
  erewrite bind_run by (erewrite bind_run by reflexivity; unfold onBuffer; cbn [w_buffer w_node]; rewrite En; reflexivity).
  do 2 (erewrite bind_run by reflexivity). cbn [w_session w_buffer w_node w_backend w_profile]. rewrite Ef.
  erewrite bind_run by (unfold wrapping, onBackend; cbn [w_backend w_buffer]; rewrite Es; reflexivity).
  erewrite bind_run by reflexivity. cbn [w_session w_buffer w_node w_backend w_profile]. rewrite Hm.
  erewrite bind_run by (erewrite bind_run by reflexivity; reflexivity).
  eexists. cbn [mret stgo_ret w_session w_buffer w_node w_backend primaryKeyDomainStates].
  unfold SetPrimaryKeyIdentity. rewrite decide_False by (by intros [|]). rewrite Hn. reflexivity.
Qed.

(** *** The whole resolver *)

Context (table : Table).

Lemma EncodePrimaryKeyIdentity_nonempty r b : EncodePrimaryKeyIdentity r = Ok b -> b <> [].
Proof.
  unfold EncodePrimaryKeyIdentity. do 3 (case_decide; [done|]).
  destruct (Z.eqb_spec (zlen (ir_Attributes r)) (zlen (ir_Values r))) as [Hl|]; [|done].
  cbn [negb]. unfold zlen in Hl. apply Nat2Z.inj in Hl.
  match goal with |- appendIdentityValues ?buf _ _ _ = _ -> _ =>
    pose proof (appendIdentityValues_bytes (ir_Values r) buf 0 (ir_Attributes r) Hl) as Hp end.
  destruct (partsOf 0 (ir_Attributes r) (ir_Values r)) as [ps|]; [rewrite Hp|by destruct Hp as [e ->]].
  by intros [= <-].
Qed.

(** A row of the table whose key can be looked up: all its parts are there, the
    key is verified and the identifier is for the resolver to choose. *)
Record plainRow (w : ResolveWorld B S) (req : ResolveRequest) (key : bytes) : Prop := {
  pr_session : rr_Session req = true;
  pr_buffer : rr_TableBuffer req = true;
  pr_table : tbf_Table (w_buffer w) = table;
  pr_lookup : ShouldLookupPrimaryKey (w_buffer w) = true;
  pr_values : validateValues req (w_buffer w) = Ok tt;
  pr_key : lr_Identity <$> newLookupRequest req (w_buffer w) = Ok key;
  pr_provided : rr_ProvidedColumnID req = 0;
  pr_mode : assumeNew (rr_PrimaryKeyMode req) = false }.

Lemma newLookupRequest_for req tbuf lreq : newLookupRequest req tbuf = Ok lreq ->
  tbf_Table tbuf = table -> requestFor table lreq /\ lr_Identity lreq <> [].
Proof.
  unfold newLookupRequest. intros (ident & Ei & (auth & Ea & [= <-])%bind_Ok_iff)%bind_Ok_iff <-.
  split; [by split|]. by eapply EncodePrimaryKeyIdentity_nonempty.
Qed.

Lemma resolve_run w req key lreq : plainRow w req key -> newLookupRequest req (w_buffer w) = Ok lreq ->
  ResolvePrimaryKeyColumnID true req w =
  resolveIdentified req lreq (mkWorld (w_session w) (w_buffer w) (w_node w) (w_backend w)
    ((w_profile w ++ [ResolveCount]) ++ [LookupRequiredCount])).
Proof.
  intros [Hs Hb _ Hl Hv _ _ _] El. unfold ResolvePrimaryKeyColumnID.
  erewrite bind_run by reflexivity. rewrite Hs, Hb. cbn [negb].
  erewrite bind_run by reflexivity. cbn [w_buffer]. rewrite Hl. cbn [negb]. unfold resolveKey.
  erewrite bind_run by reflexivity. cbn [w_buffer]. rewrite Hv.
  do 2 (erewrite bind_run by reflexivity). rewrite El.
  by erewrite bind_run by (unfold wrapping, lift; reflexivity).
Qed.

End Runs.

Section Refinement.

Context {B S : Type} `{Roaring B} `{BSIPrimaryKeyBackend S} `{TextLib} `{TimestampParser}.
Context (table : Table) `{!BackendLaws S table}.

Abbreviation World := (ResolveWorld B S).

(** What the session takes for empty has no committed key. *)
Definition trusted (w : World) : Prop :=
  forall req, requestFor table req ->
    cachedDomainState (w_session w) (domainKeyOf req (w_buffer w)) = Some DomainEmpty ->
    committed (w_backend w) !! lr_Identity req = None.

(** Nothing but the profile, the knowledge of domains and the backend's own state
    changed, and the knowledge is still right. *)
Definition quiet (w w' : World) : Prop :=
  batchPrimaryKeyIdentity (w_session w') = batchPrimaryKeyIdentity (w_session w) /\
  w_buffer w' = w_buffer w /\ w_node w' = w_node w /\
  committed (w_backend w') = committed (w_backend w) /\ trusted w'.

Lemma trusted_mark w w' key state : trusted w -> normalizeDomainState state = state -> key <> [] ->
  w_session w' = markDomainState key state (w_session w) -> w_buffer w' = w_buffer w ->
  committed (w_backend w') = committed (w_backend w) ->
  (state = DomainEmpty -> forall req, requestFor table req -> domainKeyOf req (w_buffer w) = key ->
     committed (w_backend w) !! lr_Identity req = None) -> trusted w'.
Proof.
  intros Ht Hn Hk Es Eb Ec He req Hr. rewrite Es, Eb, Ec.
  destruct (decide (state = DomainUnknown)) as [->|Hu].
  - unfold markDomainState. cbn [normalizeDomainState]. rewrite (decide_True (P := DomainUnknown = _)) by done.
    case_decide; by apply Ht.
  - rewrite cached_mark by done. case_decide as E; [|by apply Ht].
    intros [= ->]. by apply He.
Qed.

Lemma authorityKeyOf_nonempty req : authorityKeyOf req <> [].
Proof.
  change (authorityKeyOf req) with
    (lr_TableName req ++ str "|" ++ lr_PrimaryKey req ++ str "|authority"). by destruct (lr_TableName req).
Qed.

Lemma trusted_nonEmpty w w' req : trusted w ->
  w_session w' = markDomainState (authorityKeyOf req) DomainNonEmpty
                   (markDomainState (domainKeyOf req (w_buffer w)) DomainNonEmpty (w_session w)) ->
  w_buffer w' = w_buffer w -> committed (w_backend w') = committed (w_backend w) -> trusted w'.
Proof.
  intros Ht Es Eb Ec.
  eapply (trusted_mark (mkWorld (markDomainState (domainKeyOf req (w_buffer w)) DomainNonEmpty (w_session w))
    (w_buffer w) (w_node w) (w_backend w) []) _ (authorityKeyOf req) DomainNonEmpty); try done;
    [|apply authorityKeyOf_nonempty].
  eapply (trusted_mark w _ (domainKeyOf req (w_buffer w)) DomainNonEmpty); try done. apply domainKeyOf_nonempty.
Qed.

Lemma trusted_table w w' : trusted w -> primaryKeyDomainStates (w_session w') = primaryKeyDomainStates (w_session w) ->
  tbf_Table (w_buffer w') = tbf_Table (w_buffer w) ->
  committed (w_backend w') = committed (w_backend w) -> trusted w'.
Proof.
  intros Ht Es Eb Ec req Hr. unfold cachedDomainState, domainKeyOf. rewrite Es, Eb, Ec. apply (Ht req Hr).
Qed.

Lemma probeDomain_spec req w probe : PrimaryKeyDomainState = Some probe -> requestFor table req ->
  tbf_Table (w_buffer w) = table -> trusted w ->
  exists b w', probeDomain req (domainKeyOf req (w_buffer w)) (authorityKeyOf req) probe w = (Ok b, w') /\
    quiet w w' /\ (b = true -> committed (w_backend w) !! lr_Identity req = None).
Proof.
  intros Ep Hr Etab Ht. destruct (domain_law probe req (w_backend w) Ep Hr) as (state & s' & Es & Ec & He).
  unfold probeDomain.
  erewrite bind_run by (apply try_ok; unfold onBackend; rewrite Es; reflexivity).
  erewrite bind_run by reflexivity. cbn [w_session w_buffer w_node w_backend w_profile].
  destruct (normalizeDomainState state) eqn:En; cycle 1; [..|by destruct state|].
  - do 2 (erewrite bind_run by reflexivity). eexists true, _. split; [reflexivity|].
    specialize (He eq_refl). split; [|intros _; by apply He].
    split; [apply mark_batch|]. do 3 (split; [done|]).
    eapply (trusted_mark w _ (domainKeyOf req (w_buffer w)) DomainEmpty); try done; [apply domainKeyOf_nonempty|].
    intros _ req' Hr' Ek. apply He; [done|]. rewrite <- Etab.
    destruct Hr as (_ & R1 & R2), Hr' as (_ & R1' & R2'). apply domainKeyOf_inj; congruence.
  - do 3 (erewrite bind_run by reflexivity). eexists false, _. split; [reflexivity|].
    split; [|done]. split; [cbn; by rewrite !mark_batch|]. do 3 (split; [done|]).
    by eapply (trusted_nonEmpty w).
  - erewrite bind_run by reflexivity. eexists false, _. split; [reflexivity|]. split; [|done].
    do 4 (split; [done|]). by apply (trusted_table w).
Qed.

Lemma shouldSkip_spec req lreq w : assumeNew (rr_PrimaryKeyMode req) = false -> requestFor table lreq ->
  tbf_Table (w_buffer w) = table -> trusted w ->
  exists b w', shouldSkipLookupForEmptyDomain req lreq w = (Ok b, w') /\ quiet w w' /\
    (b = true -> committed (w_backend w) !! lr_Identity lreq = None).
Proof.
  intros Hm Hr Etab Ht. unfold shouldSkipLookupForEmptyDomain. rewrite Hm.
  do 2 (erewrite bind_run by reflexivity).
  assert (forall c, trusted (mkWorld (w_session w) (w_buffer w) (w_node w) (w_backend w) c)) as Hc
    by (intros c; by apply (trusted_table w)).
  case_decide as E1; [|destruct (authorityKnownNonEmpty _ _); [|case_decide as E2]].
  - erewrite bind_run by reflexivity. by eexists false, _.
  - erewrite bind_run by reflexivity. by eexists false, _.
  - erewrite bind_run by reflexivity. eexists true, _. split; [reflexivity|].
    split; [done|]. intros _. by apply Ht.
  - destruct PrimaryKeyDomainState as [probe|] eqn:Ep; [by apply probeDomain_spec|].
    by eexists false, w.
Qed.

Lemma allocateAndStage_spec req lreq w m fresh t' n' :
  rr_ProvidedColumnID req = 0 -> batchPrimaryKeyIdentity (w_session w) = Some m ->
  lr_Identity lreq <> [] -> m !! lr_Identity lreq = None -> trusted w -> nextIs w fresh t' n' ->
  exists w', allocateAndStage req lreq w = (Ok (fresh, false), w') /\
    batchPrimaryKeyIdentity (w_session w') = Some (<[lr_Identity lreq := fresh]> m) /\
    w_buffer w' = t' /\ w_node w' = n' /\ committed (w_backend w') = committed (w_backend w) /\ trusted w'.
Proof.
  intros Hp Hm Hi Hn Ht Hnext.
  destruct (stage_law (newStageRequestFromLookup lreq fresh) (w_backend w)) as (s' & Es & Ec).
  destruct (allocateAndStage_run req lreq w m fresh t' n' s') as [p E]; try done.
  eexists. split; [exact E|]. do 4 (split; [done|]). apply (trusted_table w); try done.
  destruct Hnext as (En & _). by apply NextColumnID_same in En as (? & _).
Qed.

Lemma lookupExisting_spec req lreq w m fresh t' n' :
  rr_ProvidedColumnID req = 0 -> rr_LookupOnly req = false ->
  batchPrimaryKeyIdentity (w_session w) = Some m -> lr_Identity lreq <> [] ->
  m !! lr_Identity lreq = None -> requestFor table lreq -> trusted w -> nextIs w fresh t' n' ->
  exists w' c existing batch, lookupExisting req lreq w = (Ok (c, existing), w') /\
    assign m (committed (w_backend w)) (lr_Identity lreq) fresh = (c, existing, batch) /\
    batchPrimaryKeyIdentity (w_session w') = Some batch /\
    CurrentColumnID (w_buffer w') = c /\ tbf_Table (w_buffer w') = tbf_Table (w_buffer w) /\
    committed (w_backend w') = committed (w_backend w) /\ trusted w'.
Proof.
  intros Hp Hl Hm Hi Hn Hr Ht Hnext.
  destruct (lookup_law lreq (w_backend w) Hr) as (r & s' & Es & Er & Ec).
  unfold lookupExisting, assign. rewrite Hn.
  erewrite bind_run by reflexivity.
  erewrite bind_run by (unfold wrapping, onBackend; cbn [w_backend]; rewrite Es; reflexivity).
  do 2 (erewrite bind_run by reflexivity). cbn [w_session w_buffer w_node w_backend w_profile].
  rewrite Er. destruct (committed (w_backend w) !! lr_Identity lreq) as [c|] eqn:Ecm;
    [change (option_list (Some c)) with [c]|change (option_list (@None Z)) with (@nil Z)]; cbn iota.
  - do 5 (erewrite bind_run by reflexivity). eexists _, c, true, m. split; [reflexivity|].
    cbn [w_session w_buffer w_node w_backend]. rewrite !mark_batch. do 5 (split; [done|]).
    set (w1 := mkWorld (markDomainState (authorityKeyOf lreq) DomainNonEmpty
      (markDomainState (domainKeyOf lreq (w_buffer w)) DomainNonEmpty (w_session w)))
      (w_buffer w) (w_node w) (w_backend w) []).
    assert (trusted w1) as Ht1 by (by apply (trusted_nonEmpty w w1 lreq)).
    apply (trusted_table w1); [exact Ht1|reflexivity|reflexivity|exact Ec].
  - rewrite Hl. match goal with |- context [allocateAndStage req lreq ?w1] =>
      destruct (allocateAndStage_spec req lreq w1 m fresh t' n') as (w' & -> & Hb & Et & _ & Ec' & Ht'); try done end.
    { by apply (trusted_table w). }
    exists w', fresh, false, (<[lr_Identity lreq := fresh]> m). destruct Hnext as (En & Ef & _).
    rewrite Et. do 4 (split; [done|]). split; [by apply NextColumnID_same in En as (? & _)|].
    split; [by rewrite Ec'|done].
Qed.

Lemma resolveIdentified_spec req lreq w m fresh t' n' :
  rr_ProvidedColumnID req = 0 -> rr_LookupOnly req = false ->
  assumeNew (rr_PrimaryKeyMode req) = false ->
  batchPrimaryKeyIdentity (w_session w) = Some m -> lr_Identity lreq <> [] ->
  requestFor table lreq -> tbf_Table (w_buffer w) = table -> trusted w -> nextIs w fresh t' n' ->
  exists w' c existing batch, resolveIdentified req lreq w = (Ok (c, existing), w') /\
    assign m (committed (w_backend w)) (lr_Identity lreq) fresh = (c, existing, batch) /\
    batchPrimaryKeyIdentity (w_session w') = Some batch /\
    CurrentColumnID (w_buffer w') = c /\ tbf_Table (w_buffer w') = tbf_Table (w_buffer w) /\
    committed (w_backend w') = committed (w_backend w) /\ trusted w'.
Proof.
  intros Hp Hl Ha Hm Hi Hr Etab Ht Hnext. unfold resolveIdentified, lookupBatch.
  erewrite bind_run by (erewrite bind_run by reflexivity; rewrite Hm; erewrite bind_run by reflexivity; reflexivity).
  unfold LookupLocalCIDForPrimaryKeyIdentity. rewrite decide_False by done.
  set (w1 := mkWorld _ _ _ _ _). assert (trusted w1) as Ht1 by (by apply (trusted_table w)).
  destruct (m !! lr_Identity lreq) as [c|] eqn:Em.
  - rewrite Hp. change (negb (0 =? 0) && _) with false. cbn iota.
    do 2 (erewrite bind_run by reflexivity). eexists _, c, true, m. split; [reflexivity|].
    unfold assign. rewrite Em. do 5 (split; [done|]). by apply (trusted_table w).
  - destruct (shouldSkip_spec req lreq w1 Ha Hr Etab Ht1) as (b & w2 & Es & (Q1 & Q2 & Q3 & Q4 & Q5) & Hb).
    erewrite bind_run by exact Es. rewrite Ha.
    assert (nextIs w2 fresh t' n') as Hnext2 by (unfold nextIs; by rewrite Q2, Q3).
    assert (batchPrimaryKeyIdentity (w_session w2) = Some m) as Hm2 by (by rewrite Q1).
    destruct b.
    + specialize (Hb eq_refl). erewrite bind_run by reflexivity.
      match goal with |- context [allocateAndStage req lreq ?w3] =>
        destruct (allocateAndStage_spec req lreq w3 m fresh t' n') as (w' & -> & Hb' & Et & _ & Ec' & Ht'); try done end.
      exists w', fresh, false, (<[lr_Identity lreq := fresh]> m). unfold assign. rewrite Em.
      change (committed (w_backend w1)) with (committed (w_backend w)) in *. rewrite Hb.
      destruct Hnext as (En & Ef & _). rewrite Et. do 4 (split; [done|]).
      split; [by apply NextColumnID_same in En as (? & _)|]. split; [by rewrite Ec', <- Q4|done].
    + destruct (lookupExisting_spec req lreq w2 m fresh t' n') as (w' & c & ex & batch & -> & Ea & Hb' & Ec & Et & Ecm & Ht');
        try done.
      exists w', c, ex, batch. rewrite Q4 in Ea, Ecm. rewrite Q2 in Et. done.
Qed.

(** The identifier a key has. *)
Definition known (batch commits : gmap bytes Z) (key : bytes) : option Z :=
  match batch !! key with Some c => Some c | None => commits !! key end.

Lemma assign_known batch commits key fresh c existing batch' :
  assign batch commits key fresh = (c, existing, batch') ->
  known batch' commits key = Some c /\
  (forall key' c', known batch commits key' = Some c' -> known batch' commits key' = Some c') /\
  (forall c', known batch commits key = Some c' -> c = c' /\ existing = true).
Proof.
  unfold assign, known. destruct (batch !! key) as [c0|] eqn:Eb; [|destruct (commits !! key) as [c0|] eqn:Ec];
    intros [= <- <- <-].
  - rewrite Eb. split; [done|]. split; [done|]. by intros c' [= ->].
  - rewrite Eb. split; [done|]. split; [done|]. by intros c' [= ->].
  - rewrite lookup_insert_eq. split; [done|]. split; [|done]. intros key' c' Hk.
    destruct (decide (key' = key)) as [->|]; [by rewrite Eb, Ec in Hk|]. by rewrite lookup_insert_ne.
Qed.

(** Other rows of the table in the same batch: the buffer moves to another row,
    and rows are resolved. *)
Inductive rows : World -> World -> Prop :=
  | rows_none w : rows w w
  | rows_move w1 w2 t : rows w1 w2 -> tbf_Table t = table ->
      rows w1 (mkWorld (w_session w2) t (w_node w2) (w_backend w2) (w_profile w2))
  | rows_resolve w1 w2 req key fresh t' n' r w3 : rows w1 w2 -> plainRow table w2 req key ->
      rr_LookupOnly req = false -> nextIs w2 fresh t' n' ->
      ResolvePrimaryKeyColumnID true req w2 = (r, w3) -> rows w1 w3.

Lemma resolve_assign w req key batch fresh t' n' :
  plainRow table w req key -> rr_LookupOnly req = false -> trusted w ->
  batchPrimaryKeyIdentity (w_session w) = Some batch -> nextIs w fresh t' n' ->
  exists w' c existing batch', ResolvePrimaryKeyColumnID true req w = (Ok (c, existing), w') /\
    assign batch (committed (w_backend w)) key fresh = (c, existing, batch') /\
    batchPrimaryKeyIdentity (w_session w') = Some batch' /\
    CurrentColumnID (w_buffer w') = c /\ tbf_Table (w_buffer w') = table /\
    committed (w_backend w') = committed (w_backend w) /\ trusted w'.
Proof.
  intros Hp Hl Ht Hb Hn. pose proof (pr_key _ _ _ _ Hp) as Hk.
  destruct (newLookupRequest req (w_buffer w)) as [lreq|e|] eqn:El; [|done..]. injection Hk as <-.
  destruct (newLookupRequest_for table req (w_buffer w) lreq El (pr_table _ _ _ _ Hp)) as [Hr Hi].
  rewrite (resolve_run table w req _ lreq Hp El).
  destruct (resolveIdentified_spec req lreq (mkWorld (w_session w) (w_buffer w) (w_node w) (w_backend w)
    ((w_profile w ++ [ResolveCount]) ++ [LookupRequiredCount])) batch fresh t' n')
    as (w' & c & ex & b' & E & H'); try done; [apply Hp..|].
  destruct H' as (Ha & Hb' & Ec & Et & Hrest). exists w', c, ex, b'. do 4 (split; [done|]).
  split; [|done]. rewrite Et. apply Hp.
Qed.

Lemma rows_known w1 w2 b1 : rows w1 w2 -> trusted w1 -> tbf_Table (w_buffer w1) = table ->
  batchPrimaryKeyIdentity (w_session w1) = Some b1 ->
  exists b2, batchPrimaryKeyIdentity (w_session w2) = Some b2 /\
    committed (w_backend w2) = committed (w_backend w1) /\ trusted w2 /\
    tbf_Table (w_buffer w2) = table /\
    forall key c, known b1 (committed (w_backend w1)) key = Some c ->
      known b2 (committed (w_backend w1)) key = Some c.
Proof.
  intros Hr Ht Hw Hb. induction Hr as [|w1 w2 t _ IH Et|w1 w2 req key fresh t' n' r w3 _ IH Hp Hl Hn E].
  - by exists b1.
  - destruct (IH Ht Hw Hb) as (b2 & Hb2 & Ec & Ht2 & Ew & Hk). exists b2. do 2 (split; [done|]).
    split; [|done]. apply (trusted_table w2); [done|done|by rewrite Ew|done].
  - destruct (IH Ht Hw Hb) as (b2 & Hb2 & Ec & Ht2 & Ew & Hk).
    destruct (resolve_assign w2 req key b2 fresh t' n') as (w' & c & ex & b3 & E' & Ha & Hb3 & _ & Et & Ec' & Ht3);
      try done. rewrite E in E'. injection E' as -> ->. exists b3. split; [done|]. split; [congruence|].
    split; [done|]. split; [done|]. intros key' c' Hc. rewrite <- Ec in *.
    apply assign_known in Ha as (_ & Ha & _). by apply Ha, Hk.
Qed.

(** C17. Resolving a row implements the table of keys of the batch and the index:
    a key the batch or the index has keeps its identifier, any other key gets the
    next identifier of the buffer, and the batch remembers it.  Nothing else
    about keys changes.  The session starts from right knowledge of empty domains
    ([trusted]: a domain of keys it has cached as empty holds no committed key)
    and keeps it; a flush can leave it with wrong knowledge, as
    the example of a key inserted twice below shows. *)
Theorem resolve_refines_key_table w req key batch fresh t' n' :
  plainRow table w req key -> rr_LookupOnly req = false -> trusted w ->
  batchPrimaryKeyIdentity (w_session w) = Some batch -> nextIs w fresh t' n' ->
  exists w' c existing batch', ResolvePrimaryKeyColumnID true req w = (Ok (c, existing), w') /\
    assign batch (committed (w_backend w)) key fresh = (c, existing, batch') /\
    batchPrimaryKeyIdentity (w_session w') = Some batch' /\
    CurrentColumnID (w_buffer w') = c /\ tbf_Table (w_buffer w') = table /\
    committed (w_backend w') = committed (w_backend w) /\ trusted w'.
Proof. apply resolve_assign. Qed.

(** Within a batch a key keeps its identifier: once a row has been resolved,
    every later row with the same key, whatever rows come in between, gets the
    same identifier and is reported as existing. *)
Theorem resolved_key_is_stable w0 req0 key batch fresh0 t0 n0 c existing w1 w2 req fresh t' n' :
  plainRow table w0 req0 key -> rr_LookupOnly req0 = false -> trusted w0 ->
  batchPrimaryKeyIdentity (w_session w0) = Some batch -> nextIs w0 fresh0 t0 n0 ->
  ResolvePrimaryKeyColumnID true req0 w0 = (Ok (c, existing), w1) ->
  rows w1 w2 -> plainRow table w2 req key -> rr_LookupOnly req = false -> nextIs w2 fresh t' n' ->
  exists w3, ResolvePrimaryKeyColumnID true req w2 = (Ok (c, true), w3).
Proof.
  intros Hp0 Hl0 Ht0 Hb0 Hn0 E0 Hrows Hp Hl Hn.
  destruct (resolve_assign w0 req0 key batch fresh0 t0 n0) as (w1' & c' & ex' & b1 & E & Ha & Hb1 & _ & Et1 & Ec1 & Ht1);
    try done. rewrite E0 in E. injection E as <- <- <-.
  apply assign_known in Ha as [Hk _].
  destruct (rows_known w1 w2 b1 Hrows Ht1 Et1 Hb1) as (b2 & Hb2 & Ec & Ht2 & _ & Hknown).
  destruct (resolve_assign w2 req key b2 fresh t' n') as (w3 & c3 & ex3 & b3 & E & Ha & _); try done.
  apply assign_known in Ha as (_ & _ & Hc). rewrite Ec in Hc. exists w3.
  destruct (Hc c) as [-> ->]; [|done]. apply Hknown. by rewrite Ec1.
Qed.

End Refinement.

(** ** Domains that are taken for empty *)

Section EmptyDomains.

Context {B S : Type} `{Roaring B} `{BSIPrimaryKeyBackend S} `{TextLib} `{TimestampParser}.
Context (table : Table).

Abbreviation World := (ResolveWorld B S).

Definition withProfile (w : World) (p : list counter) : World :=
  mkWorld (w_session w) (w_buffer w) (w_node w) (w_backend w) p.

(** The lookup of the key is skipped, and leaves the session [st] and the backend
    [s1]. *)
Definition skips (req : ResolveRequest) (lreq : LookupRequest) (w : World) (st : IngestSession) (s1 : S) : Prop :=
  forall p, exists p', shouldSkipLookupForEmptyDomain req lreq (withProfile w p) =
    (Ok true, mkWorld st (w_buffer w) (w_node w) s1 p').

(** The session knows nothing about the domain of the key. *)
Definition unexplored (lreq : LookupRequest) (w : World) : Prop :=
  cachedDomainState (w_session w) (domainKeyOf lreq (w_buffer w)) = None /\
  authorityKnownNonEmpty (w_session w) (authorityKeyOf lreq) = false.

Lemma skips_probed req lreq w probe s1 : assumeNew (rr_PrimaryKeyMode req) = false -> unexplored lreq w ->
  PrimaryKeyDomainState = Some probe -> probe lreq (w_backend w) = (Ok DomainEmpty, s1) ->
  skips req lreq w (markDomainState (domainKeyOf lreq (w_buffer w)) DomainEmpty (w_session w)) s1.
Proof.
  intros Hm [Hd Ha] Ep Es p. unfold shouldSkipLookupForEmptyDomain. rewrite Hm.
  do 2 (erewrite bind_run by reflexivity). cbn [withProfile w_session w_buffer]. rewrite Hd, Ha.
  do 2 (rewrite decide_False by done). rewrite Ep. unfold probeDomain.
  erewrite bind_run by (apply try_ok; unfold onBackend; cbn [withProfile w_backend]; rewrite Es; reflexivity).
  erewrite bind_run by reflexivity. cbn [normalizeDomainState].
  do 2 (erewrite bind_run by reflexivity). eexists. reflexivity.
Qed.

Lemma skips_remembered req lreq w : assumeNew (rr_PrimaryKeyMode req) = false ->
  cachedDomainState (w_session w) (domainKeyOf lreq (w_buffer w)) = Some DomainEmpty ->
  authorityKnownNonEmpty (w_session w) (authorityKeyOf lreq) = false ->
  skips req lreq w (w_session w) (w_backend w).
Proof.
  intros Hm Hd Ha p. unfold shouldSkipLookupForEmptyDomain. rewrite Hm.
  do 2 (erewrite bind_run by reflexivity). cbn [withProfile w_session w_buffer]. rewrite Hd, Ha.
  rewrite decide_False, decide_True by done. erewrite bind_run by reflexivity. eexists. reflexivity.
Qed.

Lemma resolve_skipped req lreq w m st s1 s2 fresh t' n' : plainRow table w req (lr_Identity lreq) ->
  newLookupRequest req (w_buffer w) = Ok lreq ->
  batchPrimaryKeyIdentity (w_session w) = Some m -> m !! lr_Identity lreq = None ->
  skips req lreq w st s1 -> batchPrimaryKeyIdentity st = Some m -> nextIs w fresh t' n' ->
  StagePrimaryKey (newStageRequestFromLookup lreq fresh) s1 = (Ok tt, s2) ->
  exists p, ResolvePrimaryKeyColumnID true req w = (Ok (fresh, false),
    mkWorld (mkIngestSession (Some (<[lr_Identity lreq := fresh]> m)) (primaryKeyDomainStates st)) t' n' s2 p).
Proof.
  intros Hp El Hm Hn Hs Hst Hnext Hstage.
  destruct (newLookupRequest_for table req (w_buffer w) lreq El (pr_table _ _ _ _ Hp)) as [_ Hi].
  rewrite (resolve_run table w req _ lreq Hp El). unfold resolveIdentified, lookupBatch.
  erewrite bind_run by (erewrite bind_run by reflexivity; cbn [w_session]; rewrite Hm; erewrite bind_run by reflexivity; reflexivity).
  unfold LookupLocalCIDForPrimaryKeyIdentity. rewrite decide_False by done. rewrite Hn.
  destruct (Hs (((w_profile w ++ [ResolveCount]) ++ [LookupRequiredCount]) ++ [LocalCacheLookupCount])) as [p' Es].
  erewrite bind_run by exact Es. rewrite (pr_mode _ _ _ _ Hp). erewrite bind_run by reflexivity.
  match goal with |- context [allocateAndStage req lreq ?w1] =>
    destruct (allocateAndStage_run req lreq w1 m fresh t' n' s2) as [p E]; try done; [apply Hp|] end.
  exists p. exact E.
Qed.

Lemma newLookupRequest_same req t t' : sameRow t t' -> newLookupRequest req t' = newLookupRequest req t.
Proof. intros (E1 & E2 & E3). unfold newLookupRequest. by rewrite E1, E2, E3. Qed.

Lemma plainRow_same (w w' : World) req key : sameRow (w_buffer w) (w_buffer w') -> plainRow table w req key ->
  plainRow table w' req key.
Proof.
  intros Hs [P1 P2 P3 P4 P5 P6 P7 P8]. pose proof Hs as (E1 & E2 & _).
  split; try done; [by rewrite E1| | |by rewrite (newLookupRequest_same req _ _ Hs)].
  - unfold ShouldLookupPrimaryKey in *. by rewrite E1, E2.
  - unfold validateValues in *. by rewrite E2.
Qed.

(** C36. A table that was empty when the session first looked stays empty for the
    session: a key that is inserted, flushed, and so present in the index, and
    then inserted again by the same session is not looked up and gets a second
    identifier as a new row. *)
Theorem reinsert_after_flush_duplicates_key w req lreq m probe sa sb send nc sc sd fresh0 t0 n0 fresh t' n' r :
  plainRow table w req (lr_Identity lreq) -> newLookupRequest req (w_buffer w) = Ok lreq ->
  batchPrimaryKeyIdentity (w_session w) = Some m -> m !! lr_Identity lreq = None -> unexplored lreq w ->
  PrimaryKeyDomainState = Some probe -> probe lreq (w_backend w) = (Ok DomainEmpty, sa) ->
  nextIs w fresh0 t0 n0 -> StagePrimaryKey (newStageRequestFromLookup lreq fresh0) sa = (Ok tt, sb) ->
  send (n0, sb) = (Ok tt, (nc, sc)) ->
  (LookupPrimaryKey lreq sc).1 = Ok r -> matchedColumnIDs r = [fresh0] ->
  NextColumnID (t0, nc) = (Ok tt, (t', n')) -> CurrentColumnID t' = fresh -> fresh <> 0 ->
  StagePrimaryKey (newStageRequestFromLookup lreq fresh) sc = (Ok tt, sd) ->
  exists w1 w2 w3, ResolvePrimaryKeyColumnID true req w = (Ok (fresh0, false), w1) /\
    flush false send w1 = (Ok tt, w2) /\
    matchedColumnIDs <$> (LookupPrimaryKey lreq (w_backend w2)).1 = Ok [fresh0] /\
    ResolvePrimaryKeyColumnID true req w2 = (Ok (fresh, false), w3).
Proof.
  intros Hp El Hm Hn Hu Ep Eprobe Hnext0 Es0 Esend Elook Ematch Hnext Ef Hf Es.
  pose proof (pr_mode _ _ _ _ Hp) as Hmode. pose proof Hnext0 as [En0 _]. apply NextColumnID_same in En0 as Hsame.
  set (st := markDomainState (domainKeyOf lreq (w_buffer w)) DomainEmpty (w_session w)).
  destruct (resolve_skipped req lreq w m st sa sb fresh0 t0 n0) as [p1 E1]; try done;
    [by eapply skips_probed|by unfold st; rewrite mark_batch|].
  set (w2 := mkWorld (mkIngestSession (Some ∅) (primaryKeyDomainStates st)) t0 nc sc p1).
  assert (plainRow table w2 req (lr_Identity lreq)) as Hp2 by (by apply (plainRow_same w)).
  assert (newLookupRequest req (w_buffer w2) = Ok lreq) as El2 by (by rewrite (newLookupRequest_same req (w_buffer w))).
  assert (domainKeyOf lreq t0 = domainKeyOf lreq (w_buffer w)) as Ek
    by (destruct Hsame as (E & _); unfold domainKeyOf; by rewrite E).
  assert (forall key, cachedDomainState (w_session w2) key = cachedDomainState st key) as Hc by done.
  destruct (resolve_skipped req lreq w2 ∅ (w_session w2) sc sd fresh t' n') as [p3 E3]; try done.
  { apply skips_remembered; [done|..].
    - cbn [w_buffer w2]. rewrite Hc, Ek. unfold st. rewrite cached_mark by (done || apply domainKeyOf_nonempty).
      by rewrite decide_True.
    - unfold authorityKnownNonEmpty. rewrite Hc. unfold st.
      rewrite cached_mark by (done || apply domainKeyOf_nonempty). case_decide; [done|]. destruct Hu as [_ Hu]. unfold authorityKnownNonEmpty in Hu. exact Hu. }
  eexists _, w2, _. split; [exact E1|]. split; [unfold flush; cbn; by rewrite Esend|].
  split; [cbn [w_backend w2]; rewrite Elook; cbn; by rewrite Ematch|exact E3].
Qed.

Lemma resolve_batch_hit req lreq w m c : plainRow table w req (lr_Identity lreq) ->
  newLookupRequest req (w_buffer w) = Ok lreq -> batchPrimaryKeyIdentity (w_session w) = Some m ->
  m !! lr_Identity lreq = Some c -> exists w', ResolvePrimaryKeyColumnID true req w = (Ok (c, true), w').
Proof.
  intros Hp El Hm Hc.
  destruct (newLookupRequest_for table req (w_buffer w) lreq El (pr_table _ _ _ _ Hp)) as [_ Hi].
  rewrite (resolve_run table w req _ lreq Hp El). unfold resolveIdentified, lookupBatch.
  erewrite bind_run by (erewrite bind_run by reflexivity; cbn [w_session]; rewrite Hm; erewrite bind_run by reflexivity; reflexivity).
  unfold LookupLocalCIDForPrimaryKeyIdentity. rewrite decide_False by done. rewrite Hc, (pr_provided _ _ _ _ Hp).
  change (negb (0 =? 0) && _) with false. cbn iota. do 2 (erewrite bind_run by reflexivity). by eexists.
Qed.

(** The request and the buffer of a lookup of a parent's key. *)
Definition parentRequest (lookupKey : bytes) (values : list any) : ResolveRequest :=
  mkResolveRequest true true lookupKey values 0 false true PrimaryKeyModeVerifyExisting.

Definition parentWorld (w : World) (values : list any) : World :=
  let t := w_buffer w in
  mkWorld (w_session w) (mkTableBuffer (tbf_Table t) (sequencerCache t) (CurrentColumnID t)
    (CurrentTimestamp t) values (PKAttributes t)) (w_node w) (w_backend w) (w_profile w).

(** The parent's buffer as the lookup leaves it. *)
Definition restoredBuffer (t t' : TableBuffer) : TableBuffer :=
  mkTableBuffer (tbf_Table t') (sequencerCache t') (CurrentColumnID t) (CurrentTimestamp t)
    (CurrentPKValue t) (PKAttributes t').

Lemma lookupParent_run w lookupKey values c existing w' : zlen values = zlen (PKAttributes (w_buffer w)) ->
  ResolvePrimaryKeyColumnID true (parentRequest lookupKey values) (parentWorld w values) = (Ok (c, existing), w') ->
  lookupParentPrimaryKeyColumnID true lookupKey values [] w =
    (Ok (if negb existing || (c =? 0) then (0, false) else (c, true)),
     mkWorld (w_session w') (restoredBuffer (w_buffer w) (w_buffer w')) (w_node w') (w_backend w') (w_profile w')).
Proof.
  intros Hl E. unfold lookupParentPrimaryKeyColumnID. rewrite decide_False by (by intros [? _]).
  rewrite Hl, Z.eqb_refl. cbn [negb]. unfold parentRequest, parentWorld in E. rewrite E.
  by destruct (negb existing || (c =? 0)).
Qed.

(** C37. Looking up the key of a parent in a table the backend calls empty creates
    it: the first lookup answers that there is no parent, but it has allocated an
    identifier and put the key into the batch, and the next lookup of the same key
    answers with that identifier as an existing parent. *)
Theorem parent_lookup_creates_phantom w lookupKey values lreq m probe sa sb fresh t' n' :
  let req := parentRequest lookupKey values in
  plainRow table (parentWorld w values) req (lr_Identity lreq) ->
  newLookupRequest req (w_buffer (parentWorld w values)) = Ok lreq ->
  zlen values = zlen (PKAttributes (w_buffer w)) ->
  batchPrimaryKeyIdentity (w_session w) = Some m -> m !! lr_Identity lreq = None ->
  unexplored lreq (parentWorld w values) ->
  PrimaryKeyDomainState = Some probe -> probe lreq (w_backend w) = (Ok DomainEmpty, sa) ->
  nextIs (parentWorld w values) fresh t' n' ->
  StagePrimaryKey (newStageRequestFromLookup lreq fresh) sa = (Ok tt, sb) ->
  exists w1 w2, lookupParentPrimaryKeyColumnID true lookupKey values [] w = (Ok (0, false), w1) /\
    w_backend w1 = sb /\
    lookupParentPrimaryKeyColumnID true lookupKey values [] w1 = (Ok (fresh, true), w2).
Proof.
  intros req Hp El Hl Hm Hn Hu Ep Eprobe Hnext Es. pose proof Hnext as (En & _ & Hf).
  apply NextColumnID_same in En as Hsame. pose proof (pr_mode _ _ _ _ Hp) as Hmode.
  set (st := markDomainState (domainKeyOf lreq (w_buffer (parentWorld w values))) DomainEmpty (w_session w)).
  destruct (resolve_skipped req lreq (parentWorld w values) m st sa sb fresh t' n') as [p1 E1]; try done;
    [by eapply skips_probed|by unfold st; rewrite mark_batch|].
  apply lookupParent_run in E1 as E1'; [|done].
  match type of E1' with _ = (_, ?w) => set (w1 := w) in E1' end.
  assert (sameRow (w_buffer (parentWorld w values)) (w_buffer (parentWorld w1 values))) as Hs1
    by (destruct Hsame as (? & ? & ?); by repeat split).
  destruct (resolve_batch_hit req lreq (parentWorld w1 values) (<[lr_Identity lreq := fresh]> m) fresh) as [w2 E2].
  - by apply (plainRow_same (parentWorld w values)).
  - by rewrite (newLookupRequest_same req _ _ Hs1).
  - done.
  - apply lookup_insert_eq.
  - apply lookupParent_run in E2 as E2'; [|destruct Hs1 as (_ & E & _); cbn in E |- *; by rewrite E].
    eexists w1, _. split; [exact E1'|]. split; [done|]. rewrite E2'.
    destruct (Z.eqb_spec fresh 0); [done|]. reflexivity.
Qed.

End EmptyDomains.

(** ** A backend that satisfies the laws *)

(** Committed keys, and keys staged for the next flush. *)
Record KeyStore : Type := mkKeyStore { ks_committed : gmap bytes Z; ks_staged : gmap bytes Z }.

Definition keyStoreBackend : BSIPrimaryKeyBackend KeyStore := {|
  LookupPrimaryKey req s :=
    (Ok (mkLookupResult 0 false (option_list (ks_committed s !! lr_Identity req)) 0 0), s);
  StagePrimaryKey req s :=
    (Ok tt, mkKeyStore (ks_committed s) (<[sr_Identity req := sr_ColumnID req]> (ks_staged s)));
  PrimaryKeyDomainState := Some (fun _ s =>
    (Ok (if decide (ks_committed s = ∅) then DomainEmpty else DomainNonEmpty), s)) |}.

Definition keyStoreLaws (table : Table) : @BackendLaws KeyStore keyStoreBackend table.
Proof.
  refine (@Build_BackendLaws KeyStore keyStoreBackend table ks_committed _ _ _).
  - intros req s _. eexists _, s. split; [reflexivity|]. split; [|done].
    unfold matchedColumnIDs. cbn [lo_MatchedColumnIDs lo_Found]. by destruct (ks_committed s !! _).
  - intros req s. by eexists.
  - intros probe req s [= <-] _. eexists _, s. split; [reflexivity|]. split; [done|].
    case_decide as E; [|done]. intros _ req' _ _. by rewrite E.
Defined.

Definition keyStoreFlush : stgo (Node (list Z) * KeyStore) unit := fun w =>
  (Ok tt, (w.1, mkKeyStore (ks_staged w.2 ∪ ks_committed w.2) ∅)).

(** ** Rows of the table [users] *)

Definition noTimestamps : TimestampParser := fun _ => Err ErrEOF.

#[local] Existing Instance listRoaring.
#[local] Existing Instance keyStoreBackend.
#[local] Existing Instance asciiText.
#[local] Existing Instance noTimestamps.

Definition sampleRow (lookupOnly : bool) : ResolveRequest :=
  mkResolveRequest true true (str "5") [GInt Tint64 5] 0 false lookupOnly PrimaryKeyModeVerifyExisting.

Definition sampleResolve : ResolveWorld (list Z) KeyStore :=
  mkWorld (mkIngestSession (Some ∅) ∅) sampleBuffer sampleNode (mkKeyStore ∅ ∅) [].

Definition sampleLookup : LookupRequest :=
  default (mkLookupRequest [] [] [] [] None [] [] epochTime [])
    (go_option (newLookupRequest (sampleRow false) sampleBuffer)).

(** The buffer and the node after one more identifier. *)
Definition sampleNext (t : TableBuffer) (n : Node (list Z)) : TableBuffer * Node (list Z) :=
  (NextColumnID (t, n)).2.

Lemma sampleNext_is (w : ResolveWorld (list Z) KeyStore) fresh :
  (NextColumnID (w_buffer w, w_node w)).1 = Ok tt ->
  CurrentColumnID (sampleNext (w_buffer w) (w_node w)).1 = fresh -> fresh <> 0 ->
  nextIs w fresh (sampleNext (w_buffer w) (w_node w)).1 (sampleNext (w_buffer w) (w_node w)).2.
Proof.
  unfold nextIs, sampleNext. destruct (NextColumnID (w_buffer w, w_node w)) as [r [t n]].
  cbn [fst snd]. by intros ->.
Qed.

Lemma sampleRow_plain (w : ResolveWorld (list Z) KeyStore) lookupOnly : sameRow sampleBuffer (w_buffer w) ->
  plainRow sampleTable w (sampleRow lookupOnly) (lr_Identity sampleLookup).
Proof.
  intros Hs. apply (plainRow_same sampleTable sampleResolve); [done|].
  split; destruct lookupOnly; vm_compute; reflexivity.
Qed.

Lemma sampleResolve_trusted (w : ResolveWorld (list Z) KeyStore) : primaryKeyDomainStates (w_session w) = ∅ ->
  @trusted _ _ keyStoreBackend sampleTable (keyStoreLaws sampleTable) w.
Proof.
  intros E req _. unfold cachedDomainState. rewrite E. case_decide; [done|]. by rewrite lookup_empty.
Qed.

(** The key is not there: the row gets the identifier 1. *)
Lemma resolve_refines_key_table_witness :
  exists w' c existing batch',
    ResolvePrimaryKeyColumnID true (sampleRow false) sampleResolve = (Ok (c, existing), w') /\
    assign ∅ ∅ (lr_Identity sampleLookup) 1 = (c, existing, batch') /\
    batchPrimaryKeyIdentity (w_session w') = Some batch' /\
    CurrentColumnID (w_buffer w') = c /\ tbf_Table (w_buffer w') = sampleTable /\
    ks_committed (w_backend w') = ∅ /\
    @trusted _ _ keyStoreBackend sampleTable (keyStoreLaws sampleTable) w'.
Proof.
  apply (@resolve_refines_key_table (list Z) KeyStore _ _ _ _ sampleTable (keyStoreLaws sampleTable)
    sampleResolve (sampleRow false) (lr_Identity sampleLookup) ∅ 1
    (sampleNext (w_buffer sampleResolve) (w_node sampleResolve)).1
    (sampleNext (w_buffer sampleResolve) (w_node sampleResolve)).2).
  - by apply sampleRow_plain.
  - reflexivity.
  - by apply sampleResolve_trusted.
  - reflexivity.
  - apply sampleNext_is; [vm_compute; reflexivity|vm_compute; reflexivity|done].
Defined.

Definition resolvedWorld : ResolveWorld (list Z) KeyStore :=
  (ResolvePrimaryKeyColumnID true (sampleRow false) sampleResolve).2.

Lemma resolvedWorld_is :
  ResolvePrimaryKeyColumnID true (sampleRow false) sampleResolve = (Ok (1, false), resolvedWorld).
Proof.
  assert ((ResolvePrimaryKeyColumnID true (sampleRow false) sampleResolve).1 = Ok (1, false)) as E
    by (vm_compute; reflexivity).
  unfold resolvedWorld. destruct (ResolvePrimaryKeyColumnID _ _ _). cbn in *. by rewrite E.
Qed.

Lemma resolvedWorld_row : sameRow sampleBuffer (w_buffer resolvedWorld).
Proof. split; [|split]; vm_compute; reflexivity. Qed.

(** The same row twice. *)
Lemma resolved_key_is_stable_witness :
  exists w3, ResolvePrimaryKeyColumnID true (sampleRow false) resolvedWorld = (Ok (1, true), w3).
Proof.
  apply (@resolved_key_is_stable (list Z) KeyStore _ _ _ _ sampleTable (keyStoreLaws sampleTable)
    sampleResolve (sampleRow false) (lr_Identity sampleLookup) ∅ 1
    (sampleNext (w_buffer sampleResolve) (w_node sampleResolve)).1
    (sampleNext (w_buffer sampleResolve) (w_node sampleResolve)).2 1 false
    resolvedWorld resolvedWorld (sampleRow false) 2
    (sampleNext (w_buffer resolvedWorld) (w_node resolvedWorld)).1
    (sampleNext (w_buffer resolvedWorld) (w_node resolvedWorld)).2).
  - by apply sampleRow_plain.
  - reflexivity.
  - by apply sampleResolve_trusted.
  - reflexivity.
  - apply sampleNext_is; [vm_compute; reflexivity|vm_compute; reflexivity|done].
  - apply resolvedWorld_is.
  - constructor.
  - apply sampleRow_plain, resolvedWorld_row.
  - reflexivity.
  - apply sampleNext_is; [vm_compute; reflexivity|vm_compute; reflexivity|done].
Defined.

(** The store after the row is staged, and after the flush. *)
Definition sampleStaged : KeyStore := mkKeyStore ∅ {[lr_Identity sampleLookup := 1]}.

Definition sampleFlushed : KeyStore := (keyStoreFlush (sampleNode, sampleStaged)).2.2.

Definition sampleStagedTwice : KeyStore :=
  mkKeyStore (ks_committed sampleFlushed) {[lr_Identity sampleLookup := 2]}.

Lemma sampleLookup_is : newLookupRequest (sampleRow false) sampleBuffer = Ok sampleLookup.
Proof.
  assert (is_ok (newLookupRequest (sampleRow false) sampleBuffer) = true) as E by (vm_compute; reflexivity).
  unfold sampleLookup. destruct (newLookupRequest (sampleRow false) sampleBuffer); done.
Qed.

Lemma sampleResolve_unexplored : unexplored sampleLookup sampleResolve.
Proof. split; vm_compute; reflexivity. Qed.

(** The key 5 is stored in row 1 and then inserted again as row 2. *)
Lemma reinsert_after_flush_duplicates_key_witness :
  exists w1 w2 w3, ResolvePrimaryKeyColumnID true (sampleRow false) sampleResolve = (Ok (1, false), w1) /\
    flush false keyStoreFlush w1 = (Ok tt, w2) /\
    matchedColumnIDs <$> (LookupPrimaryKey sampleLookup (w_backend w2)).1 = Ok [1] /\
    ResolvePrimaryKeyColumnID true (sampleRow false) w2 = (Ok (2, false), w3).
Proof.
  set (x0 := sampleNext (w_buffer sampleResolve) (w_node sampleResolve)).
  set (x1 := sampleNext x0.1 x0.2).
  apply (reinsert_after_flush_duplicates_key sampleTable sampleResolve (sampleRow false) sampleLookup ∅
    (fun _ s => (Ok (if decide (ks_committed s = ∅) then DomainEmpty else DomainNonEmpty), s))
    (mkKeyStore ∅ ∅) sampleStaged keyStoreFlush x0.2 sampleFlushed sampleStagedTwice 1 x0.1 x0.2 2 x1.1 x1.2
    (mkLookupResult 0 false [1] 0 0)).
  - by apply sampleRow_plain.
  - apply sampleLookup_is.
  - reflexivity.
  - reflexivity.
  - apply sampleResolve_unexplored.
  - reflexivity.
  - reflexivity.
  - apply sampleNext_is; [vm_compute; reflexivity|vm_compute; reflexivity|done].
  - reflexivity.
  - reflexivity.
  - vm_compute. reflexivity.
  - reflexivity.
  - assert ((NextColumnID (x0.1, x0.2)).1 = Ok tt) as E by (vm_compute; reflexivity).
    unfold x1, sampleNext. destruct (NextColumnID (x0.1, x0.2)) as [r [t n]]. cbn in *. by rewrite E.
  - vm_compute. reflexivity.
  - done.
  - reflexivity.
Defined.

(** The row 5 of an empty table as a parent: missing first, then row 1. *)
Lemma parent_lookup_creates_phantom_witness :
  exists w1 w2, lookupParentPrimaryKeyColumnID true (str "5") [GInt Tint64 5] [] sampleResolve = (Ok (0, false), w1) /\
    w_backend w1 = sampleStaged /\
    lookupParentPrimaryKeyColumnID true (str "5") [GInt Tint64 5] [] w1 = (Ok (1, true), w2).
Proof.
  set (w := parentWorld sampleResolve [GInt Tint64 5]).
  apply (parent_lookup_creates_phantom sampleTable sampleResolve (str "5") [GInt Tint64 5] sampleLookup ∅
    (fun _ s => (Ok (if decide (ks_committed s = ∅) then DomainEmpty else DomainNonEmpty), s))
    (mkKeyStore ∅ ∅) sampleStaged 1 (sampleNext (w_buffer w) (w_node w)).1 (sampleNext (w_buffer w) (w_node w)).2).
  - by apply (sampleRow_plain _ true).
  - apply sampleLookup_is.
  - reflexivity.
  - reflexivity.
  - reflexivity.
  - apply sampleResolve_unexplored.
  - reflexivity.
  - reflexivity.
  - apply sampleNext_is; [vm_compute; reflexivity|vm_compute; reflexivity|done].
  - reflexivity.
Defined.
