(* ===== verification/SqlIR.v ===== *)
(** * Bound expressions and predicates

    The expressions, field references, predicates and diagnostics of the bridge's
    intermediate representation (qsbridge/ir.go, expr.go, encoding.go,
    dictionary.go, parameters.go, diagnostic.go), as far as the lowering of
    predicates reads them.  A pointer to an expression and the expression are not
    told apart; an expression the lowering does not look into is [EOther], the nil
    interface is [ENil]. *)

From S2P Require Import Prelude GoStd GoTime Value.

(** ** Diagnostics *)

Inductive DiagnosticSeverity : Type := SeverityInfo | SeverityWarning | SeverityError.

#[export] Instance DiagnosticSeverity_eq_dec : EqDecision DiagnosticSeverity.
Proof. solve_decision. Defined.

Record Diagnostic : Type := mkDiagnostic {
  dg_Code : bytes;
  dg_Severity : DiagnosticSeverity;
  dg_Message : bytes }.

Definition DiagnosticSet : Type := list Diagnostic.

Definition ErrorDiagnostic (code message : bytes) : Diagnostic := mkDiagnostic code SeverityError message.

Definition BlocksNative (set : DiagnosticSet) : bool :=
  existsb (fun d => bool_decide (dg_Severity d = SeverityError)) set.

Definition DiagnosticNativeBlocker : bytes := str "native_blocker".
Definition DiagnosticDictionaryNotFound : bytes := str "dictionary_not_found".
Definition DiagnosticDictionaryLabelNotFound : bytes := str "dictionary_label_not_found".

(** ** Fields *)

Record TableInstance : Type := mkTableInstance {
  ti_ID : bytes;
  ti_Schema : bytes;
  ti_Table : bytes;
  ti_Alias : bytes;
  ti_Role : bytes }.

Inductive IndexKind : Type :=
  | IndexUnknown | IndexBitmap | IndexBSI | IndexDateTime | IndexStringEnum | IndexBackingString.

#[export] Instance IndexKind_eq_dec : EqDecision IndexKind.
Proof. solve_decision. Defined.

Inductive EncodingKind : Type :=
  | EncodingUnknown | EncodingBitmap | EncodingNumericBSI | EncodingTimeBSI | EncodingStringEnum
  | EncodingBackingString | EncodingStringLexBSI | EncodingUUIDBSI | EncodingTextSearch | EncodingRelation.

#[export] Instance EncodingKind_eq_dec : EqDecision EncodingKind.
Proof. solve_decision. Defined.

(** [TimeGranularityOther] stands for every other string of the Go type. *)
Inductive TimeGranularity : Type :=
  | TimeGranularityUnknown | TimeGranularityDay | TimeGranularitySecond | TimeGranularityMillisecond
  | TimeGranularityMicrosecond | TimeGranularityNanosecond | TimeGranularityOther (name : bytes).

Definition TimeGranularity_string (g : TimeGranularity) : bytes :=
  match g with
  | TimeGranularityUnknown => [] | TimeGranularityDay => str "day" | TimeGranularitySecond => str "second"
  | TimeGranularityMillisecond => str "millisecond" | TimeGranularityMicrosecond => str "microsecond"
  | TimeGranularityNanosecond => str "nanosecond" | TimeGranularityOther name => name
  end.

(** The parts of a profile that predicates depend on. *)
Record EncodingProfile : Type := mkEncodingProfile {
  en_Kind : EncodingKind;
  en_LegacyName : bytes;
  en_Granularity : TimeGranularity;
  en_Scale : Z;
  en_PrefixLength : Z;
  en_MaxLength : Z }.

Definition HasBoundedStringLength (e : EncodingProfile) : bool := 0 <? en_MaxLength e.

Definition NeedsStringRemainderLookup (e : EncodingProfile) : bool :=
  if negb (bool_decide (en_Kind e = EncodingStringLexBSI)) || (en_PrefixLength e <=? 0) then false
  else negb (HasBoundedStringLength e) || (en_PrefixLength e <? en_MaxLength e).

Record DictionaryRef : Type := mkDictionaryRef { dr_Schema : bytes; dr_Table : bytes; dr_Field : bytes }.

#[export] Instance DictionaryRef_eq_dec : EqDecision DictionaryRef.
Proof. solve_decision. Defined.

Definition DictionaryRef_Valid (r : DictionaryRef) : bool :=
  negb (bool_decide (dr_Table r = [])) && negb (bool_decide (dr_Field r = [])).

Record FieldRef : Type := mkFieldRef {
  fr_Table : TableInstance;
  fr_Name : bytes;
  fr_PhysicalName : bytes;
  fr_Type : DataType;
  fr_Index : IndexKind;
  fr_Encoding : EncodingProfile;
  fr_Dictionary : DictionaryRef }.

(** ** Expressions *)

Record LiteralExpr : Type := mkLiteral { lt_Kind : ValueKind; lt_Value : any }.

(** The zero value of the struct. *)
Definition noLiteral : LiteralExpr := mkLiteral ValueUnknown GNil.

Record ParameterRef : Type := mkParameterRef { pr_Index : Z; pr_Name : bytes }.

Inductive BinaryOp : Type :=
  | OpEqual | OpNotEqual | OpLess | OpLessEqual | OpGreater | OpGreaterEqual | OpAnd | OpOr | OpLike | OpNotLike
  | OpRegexp | OpNotRegexp | OpIn | OpNotIn | OpBetween | OpNotBetween | OpAdd | OpSubtract | OpMultiply | OpDivide.

#[export] Instance BinaryOp_eq_dec : EqDecision BinaryOp.
Proof. solve_decision. Defined.

(** [ETextSearch] carries the hashes of MATCH ... AGAINST; a nil hash is [None]. *)
#[warnings="-register-all"]
Inductive Expr : Type :=
  | EBinary (op : BinaryOp) (lhs rhs : Expr)
  | EField (ref : FieldRef)
  | ELiteral (value : LiteralExpr)
  | EParameter (ref : ParameterRef)
  | EList (items : list Expr)
  | ECall (name : bytes) (args : list Expr)
  | ETextSearch (field : FieldRef) (hashes : list (option Z))
  | EOther
  | ENil.

(** ** Parameters *)

Record ParameterBinding : Type := mkParameterBinding {
  pb_Ref : ParameterRef;
  pb_Kind : ValueKind;
  pb_Value : any }.

Definition parameterRefKey (ref : ParameterRef) : bytes :=
  if decide (pr_Name ref = []) then str "index:" ++ FormatInt (pr_Index ref) else str "name:" ++ pr_Name ref.

(** ** Predicates *)

Inductive PredicatePlacement : Type :=
  | PredicatePushdown | PredicateResidualScan | PredicateResidualJoin | PredicateMembership | PredicateUnsupported.

#[export] Instance PredicatePlacement_eq_dec : EqDecision PredicatePlacement.
Proof. solve_decision. Defined.

Inductive PredicateScope : Type :=
  | ScopeUnknown | ScopeWhere | ScopeOn | ScopeHaving | ScopeProjection.

#[export] Instance PredicateScope_eq_dec : EqDecision PredicateScope.
Proof. solve_decision. Defined.

Inductive PredicateCombinator : Type := CombinatorUnknown | CombinatorAnd | CombinatorOr.

#[export] Instance PredicateCombinator_eq_dec : EqDecision PredicateCombinator.
Proof. solve_decision. Defined.

Record Predicate : Type := mkPredicate {
  pd_Expr : Expr;
  pd_Placement : PredicatePlacement;
  pd_Scope : PredicateScope;
  pd_Combinator : PredicateCombinator }.

(** Of the sources, joins and memberships the lowering reads how many there are. *)
Record QueryIR : Type := mkQueryIR {
  qi_Select : bool;
  qi_Sources : Z;
  qi_Joins : Z;
  qi_Memberships : Z;
  qi_Predicates : list Predicate;
  qi_WhereExpr : Expr }.

(** ** Dictionaries *)

Record DictionaryEntry : Type := mkDictionaryEntry { de_Label : bytes; de_ID : Z }.

(** The lookups of the interface that lowering uses. *)
Record DictionaryResolver : Type := mkDictionaryResolver {
  LookupLabel : DictionaryRef -> bytes -> DictionaryEntry * DiagnosticSet;
  LookupPrefix : DictionaryRef -> bytes -> list DictionaryEntry * DiagnosticSet }.
