(* ===== verification/Lowering.v ===== *)
(** * Lowering of predicates

    From the bound predicates of a query to the fragments and the filter tree of the
    bitmap dialect (qsbridge/quanta_intermediate.go; simpleLikePattern of
    classifier.go).  A function of the source that returns a fragment, diagnostics and
    a flag returns an [outcome]: the fragment, blocking diagnostics, or neither, when
    the predicate is of another shape.  The current time is an argument. *)

From S2P Require Import Prelude GoStd GoTime JsonValue JsonText TimeLayout Value GoFloat SqlIR.

(** ** Outcomes *)

Inductive outcome (A : Type) : Type :=
  | Lowered (a : A)
  | Blocked (d : DiagnosticSet)
  | Skipped.
Arguments Lowered {A}.
Arguments Blocked {A}.
Arguments Skipped {A}.

#[export] Instance outcome_ret : MRet outcome := fun A a => Lowered a.
#[export] Instance outcome_bind : MBind outcome := fun A B f m =>
  match m with Lowered a => f a | Blocked d => Blocked d | Skipped => Skipped end.

(** The outcome of the next attempt when this one does not apply. *)
Definition orElse {A} (m next : outcome A) : outcome A :=
  match m with Skipped => next | _ => m end.

Definition outcomeOf {A} (m : option A) (d : DiagnosticSet) : outcome A :=
  match m with Some a => Lowered a | None => Blocked d end.

Definition quantaIntermediateDiagnostics (message : bytes) : DiagnosticSet :=
  [ErrorDiagnostic DiagnosticNativeBlocker (str "quanta intermediate lowerer: " ++ message)].

Definition blocked {A} (message : string) : outcome A := Blocked (quantaIntermediateDiagnostics (str message)).

(** ** Fragments *)

(** [OperationNone] and [BSIOpNone] are the empty strings. *)
Inductive QuantaFragmentOperation : Type :=
  | OperationNone | OperationIntersect | OperationUnion | OperationDifference | OperationInnerJoin | OperationOuterJoin.

#[export] Instance QuantaFragmentOperation_eq_dec : EqDecision QuantaFragmentOperation.
Proof. solve_decision. Defined.

Inductive QuantaBSIOp : Type :=
  | BSIOpNone | BSIOpLT | BSIOpLE | BSIOpEQ | BSIOpGE | BSIOpGT | BSIOpRange | BSIOpBatchEQ.

#[export] Instance QuantaBSIOp_eq_dec : EqDecision QuantaBSIOp.
Proof. solve_decision. Defined.

(** A nil big.Int is [None]. *)
Record QuantaQueryFragment : Type := mkFragment {
  fg_Index : bytes;
  fg_Role : bytes;
  fg_Field : bytes;
  fg_Operation : QuantaFragmentOperation;
  fg_BSIOp : QuantaBSIOp;
  fg_Value : option Z;
  fg_Values : list (option Z);
  fg_Begin : option Z;
  fg_End : option Z;
  fg_Literal : option LiteralExpr;                     (* with HasLiteral *)
  fg_Literals : list LiteralExpr;
  fg_LiteralRange : option (LiteralExpr * LiteralExpr); (* with HasLiteralRange *)
  fg_RangeCoalesceAllowed : bool;
  fg_ShardWindow : bool;
  fg_Negate : bool;
  fg_NullCheck : bool }.

Definition withFragmentOperation (f : QuantaQueryFragment) (op : QuantaFragmentOperation) : QuantaQueryFragment :=
  mkFragment (fg_Index f) (fg_Role f) (fg_Field f) op (fg_BSIOp f) (fg_Value f) (fg_Values f) (fg_Begin f)
    (fg_End f) (fg_Literal f) (fg_Literals f) (fg_LiteralRange f) (fg_RangeCoalesceAllowed f) (fg_ShardWindow f)
    (fg_Negate f) (fg_NullCheck f).

(** A candidate set's index and rownums. *)
Record QuantaCandidateSet : Type := mkCandidateSet { cs_Index : bytes; cs_Rownums : list Z }.

(** The zero value of the struct is [FEmpty]. *)
#[warnings="-register-all"]
Inductive QuantaFilterExpression : Type :=
  | FEmpty
  | FLeaf (fragment : QuantaQueryFragment)
  | FCandidateSet (candidates : QuantaCandidateSet)
  | FIntersect (children : list QuantaFilterExpression)
  | FUnion (children : list QuantaFilterExpression).

Definition quantaIntermediateFieldName (field : FieldRef) : bytes :=
  if decide (fr_PhysicalName field = []) then fr_Name field else fr_PhysicalName field.

Definition quantaIntermediateTableRole (table : TableInstance) : bytes :=
  if negb (bool_decide (ti_Alias table = [])) then ti_Alias table
  else if negb (bool_decide (ti_ID table = [])) then ti_ID table
  else ti_Table table.

(** The fragment of a field with an operation; every other part has its zero value. *)
Definition fieldFragment (field : FieldRef) (op : QuantaFragmentOperation) (bsi : QuantaBSIOp)
    (value : option Z) (values : list (option Z)) : QuantaQueryFragment :=
  mkFragment (ti_Table (fr_Table field)) (quantaIntermediateTableRole (fr_Table field))
    (quantaIntermediateFieldName field) op bsi value values None None None [] None false false false false.

(** The fragment of a range of a field. *)
Definition rangeOfField (field : FieldRef) (op : QuantaFragmentOperation) (begin end_ : Z)
    (beginLiteral endLiteral : LiteralExpr) : QuantaQueryFragment :=
  mkFragment (ti_Table (fr_Table field)) (quantaIntermediateTableRole (fr_Table field))
    (quantaIntermediateFieldName field) op BSIOpRange None [] (Some begin) (Some end_) None []
    (Some (beginLiteral, endLiteral)) false false false false.

(** The zero value that the functions return with a flag. *)
Definition noFragment : QuantaQueryFragment :=
  mkFragment [] [] [] OperationNone BSIOpNone None [] None None None [] None false false false false.

Definition quantaIntermediateApplyCombinator (fragment : QuantaQueryFragment) (predicate : Predicate)
    : QuantaQueryFragment :=
  if decide (pd_Combinator predicate = CombinatorOr /\ fg_Operation fragment = OperationIntersect)
  then withFragmentOperation fragment OperationUnion else fragment.

Definition quantaIntermediateEqualityOperation (op : BinaryOp) : QuantaFragmentOperation :=
  if decide (op = OpNotEqual) then OperationDifference else OperationIntersect.

(** ** Values *)

Definition intLiteral (z : Z) : LiteralExpr := mkLiteral ValueInt (GInt Tint64 z).

(** [new(big.Int).SetString(s, 10)] *)
Definition BigInt_SetString (s : bytes) : option Z :=
  match s with
  | b :: rest =>
    let digits := if (ub b =? 45) || (ub b =? 43) then rest else s in
    match digits with
    | [] => None
    | _ => z ← decFrom 0 digits; Some (if ub b =? 45 then - z else z)
    end
  | [] => None
  end.

Definition quantaIntermediateBigInt (literal : LiteralExpr) : option Z :=
  match lt_Value literal with
  | GBigInt z => z
  | GInt _ z => Some z
  | GFloat64 bits => if f64_integral bits then Some (int64_of_f64 bits) else None
  | GString s =>
    let value := TrimSpace s in
    if decide (value = []) then None else BigInt_SetString value
  | _ => None
  end.

Definition quantaIntermediateBSIOp (op : BinaryOp) : QuantaBSIOp :=
  match op with
  | OpEqual => BSIOpEQ | OpLess => BSIOpLT | OpLessEqual => BSIOpLE | OpGreater => BSIOpGT
  | OpGreaterEqual => BSIOpGE | _ => BSIOpNone
  end.

Section Times.

Context `{TextLib} (now : Time).

Definition quantaIntermediateRelativeDuration (amount : Z) (unit : byte) : option Z :=
  let c := ub unit in
  if (c =? 115) || (c =? 83) then Some (wrap_s 64 (amount * 10 ^ 9))
  else if (c =? 109) || (c =? 77) then Some (wrap_s 64 (amount * (60 * 10 ^ 9)))
  else if (c =? 104) || (c =? 72) then Some (wrap_s 64 (amount * (3600 * 10 ^ 9)))
  else if (c =? 100) || (c =? 68) then Some (wrap_s 64 (amount * 24 * (3600 * 10 ^ 9)))
  else None.

(** now, a sign, an amount and a unit *)
Definition quantaIntermediateParseRelativeNowTime (text : bytes) : option Time :=
  match strip_prefix (str "now") (ToLower text) with
  | None => None
  | Some _ =>
    if zlen text <? 6 then None else
    sign ← text !! 3%nat;
    if negb ((ub sign =? 43) || (ub sign =? 45)) then None else
    unit ← last text;
    amount ← ParseInt (take (length text - 5) (drop 4 text));
    if amount <? 0 then None else
    duration ← quantaIntermediateRelativeDuration amount unit;
    Some (if ub sign =? 45 then AddDuration (UTC now) (wrap_s 64 (- duration)) else AddDuration (UTC now) duration)
  end.

Fixpoint parseFirst (layouts : list (list layoutElement)) (text : bytes) : option Time :=
  match layouts with
  | [] => None
  | l :: layouts => match ParseLayout l text with Some t => Some (UTC t) | None => parseFirst layouts text end
  end.

Definition quantaIntermediateParseTimeString (text : bytes) : option Time :=
  let trimmed := TrimSpace text in
  if EqualFold trimmed (str "now") then Some (UTC now)
  else match quantaIntermediateParseRelativeNowTime trimmed with
       | Some t => Some t
       | None => parseFirst [layoutRFC3339Nano; layoutDateTClock; layoutDateClockMilliZ; layoutDateClock; dateLayout]
                   trimmed
       end.

Definition quantaIntermediateParseTimeValue (value : LiteralExpr) : option Time :=
  match lt_Kind value, lt_Value value with
  | ValueTime, GTime t => Some (UTC t)
  | _, GString text => quantaIntermediateParseTimeString text
  | _, _ => None
  end.

Definition quantaIntermediateEncodeTimeValue (granularity : TimeGranularity) (value : Time) : option Z :=
  match granularity with
  | TimeGranularityUnknown | TimeGranularityMillisecond => Some (UnixMilli value)
  | TimeGranularitySecond => Some (Unix value)
  | TimeGranularityMicrosecond => Some (UnixMicro value)
  | TimeGranularityNanosecond => Some (UnixNano value)
  | TimeGranularityDay => Some (epochDays value)
  | TimeGranularityOther _ => None
  end.

Definition quantaIntermediateNormalizeTimeValue (field : FieldRef) (value : LiteralExpr) : outcome LiteralExpr :=
  if decide (lt_Kind value = ValueInt) then Lowered value
  else match quantaIntermediateParseTimeValue value with
       | None => blocked "datetime comparison values must be strings, time values, or encoded epoch integers"
       | Some timeValue =>
         match quantaIntermediateEncodeTimeValue (en_Granularity (fr_Encoding field)) timeValue with
         | Some encoded => Lowered (intLiteral encoded)
         | None => Blocked (quantaIntermediateDiagnostics
             (str "datetime comparison value granularity is not supported: " ++
              TimeGranularity_string (en_Granularity (fr_Encoding field))))
         end
       end.

Definition quantaIntermediateDateOnlyLiteral (literal : LiteralExpr) : option Time :=
  match lt_Value literal with
  | GString text =>
    let trimmed := TrimSpace text in
    if zlen trimmed =? 10 then UTC <$> ParseLayout dateLayout trimmed else None
  | _ => None
  end.

Definition quantaIntermediateNextEncodedTimeValue (field : FieldRef) (literal : LiteralExpr) (encoded : Z) : Z :=
  let next := match quantaIntermediateDateOnlyLiteral literal with
              | Some parsed => quantaIntermediateEncodeTimeValue (en_Granularity (fr_Encoding field)) (AddDays parsed 1)
              | None => None
              end in
  default (wrap_s 64 (encoded + 1)) next.

Definition quantaIntermediateNormalizeDiscreteTimeComparison (op : BinaryOp) (field : FieldRef)
    (literal value : LiteralExpr) : BinaryOp * LiteralExpr :=
  match lt_Value value with
  | GInt Tint64 intValue =>
    let nextValue := quantaIntermediateNextEncodedTimeValue field literal intValue in
    match op with
    | OpLessEqual => (OpLess, intLiteral nextValue)
    | OpGreater => (OpGreaterEqual, intLiteral nextValue)
    | _ => (op, value)
    end
  | _ => (op, value)
  end.

(** The value of an expression: a literal, a call of todate, or a bound parameter. *)
Fixpoint quantaIntermediateValue (expr : Expr) (parameters : list ParameterBinding) : outcome LiteralExpr :=
  match expr with
  | ELiteral literal => Lowered literal
  | ECall name args =>
    if negb (EqualFold name (str "todate"))
    then Blocked (quantaIntermediateDiagnostics (str "comparison value function is not supported: " ++ name))
    else match args with
         | [arg] =>
           value ← quantaIntermediateValue arg parameters;
           timeValue ← outcomeOf (quantaIntermediateParseTimeValue value)
             (quantaIntermediateDiagnostics (str "datetime comparison value is not supported"));
           mret (mkLiteral ValueTime (GTime timeValue))
         | _ => blocked "todate expects exactly one argument"
         end
  | EParameter ref =>
    match list_find (fun b => parameterRefKey (pb_Ref b) = parameterRefKey ref) parameters with
    | Some (_, b) => Lowered (mkLiteral (pb_Kind b) (pb_Value b))
    | None => Blocked (quantaIntermediateDiagnostics
        (Sprintf "prepared-statement parameter %d is not bound" [FInt (pr_Index ref)]))
    end
  | _ => blocked "comparison value must be a literal or parameter"
  end.

End Times.

(** ** Normal forms of literals *)

Definition quantaIntermediateNormalizeBoolValue (value : LiteralExpr) : outcome LiteralExpr :=
  match lt_Kind value, lt_Value value with
  | ValueBool, GBool b => Lowered (intLiteral (if b then 1 else 0))
  | ValueInt, GInt Tint64 z =>
    if (z =? 0) || (z =? 1) then Lowered value
    else blocked "boolean bitmap predicates require boolean-compatible values"
  | _, _ => blocked "boolean bitmap predicates require boolean-compatible values"
  end.

Definition quantaIntermediateNormalizeScaledNumericValue (field : FieldRef) (value : LiteralExpr)
    : outcome LiteralExpr :=
  let scale := en_Scale (fr_Encoding field) in
  numeric ← (match lt_Value value with
             | GInt _ z => Lowered (float64_of_int z)
             | GFloat64 bits => Lowered bits
             | _ => blocked "scaled BSI comparison values must be numeric"
             end);
  let scaled := f64_mul numeric (f64_pow10 scale) in
  let rounded := f64_rounded scaled in
  if f64_lt f64_nano (f64_abs (f64_sub scaled rounded))
  then Blocked (quantaIntermediateDiagnostics (Sprintf
    "this would result in rounding error for field '%s', value should have %d decimal places"
    [FStr (fr_Name field); FInt scale]))
  else Lowered (intLiteral (int64_of_f64 rounded)).

Definition quantaIntermediateFloat64Literal (value : LiteralExpr) : option Z :=
  match lt_Value value with
  | GFloat32 bits => Some (float64_of_float32 bits)
  | GFloat64 bits => Some bits
  | _ => None
  end.

(** The bounds of an integer field at a literal with a fraction. *)
Definition quantaIntermediateNormalizeDiscreteNumericComparison (op : BinaryOp) (value : LiteralExpr)
    : outcome (BinaryOp * LiteralExpr) :=
  match quantaIntermediateFloat64Literal value with
  | None => Lowered (op, value)
  | Some bits =>
    if f64_integral bits then Lowered (op, value)
    else
      let floor := if f64_nan bits then - 2 ^ 63 else int64_of_Z (f64_floor bits) in
      let ceil := if f64_nan bits then - 2 ^ 63 else int64_of_Z (f64_ceil bits) in
      match op with
      | OpGreater => Lowered (OpGreater, intLiteral floor)
      | OpGreaterEqual => Lowered (OpGreaterEqual, intLiteral ceil)
      | OpLess => Lowered (OpLess, intLiteral ceil)
      | OpLessEqual => Lowered (OpLessEqual, intLiteral floor)
      | _ => blocked "fractional values cannot be lowered for equality against integer BSI fields"
      end
  end.

(** ** Strings as integers *)

Inductive likePatternClass : Type := likePatternUnsupported | likePatternExact | likePatternPrefix | likePatternContains.

Definition isPercent (b : byte) : bool := ub b =? 37.

Definition simpleLikePattern (pattern : bytes) : likePatternClass :=
  if bool_decide (pattern = []) || existsb (fun b => ub b =? 95) pattern then likePatternUnsupported
  else if negb (existsb isPercent pattern) then likePatternExact
  else if default false (isPercent <$> last pattern) then
    if negb (existsb isPercent (removelast pattern)) then likePatternPrefix
    else if (2 <=? zlen pattern) && default false (isPercent <$> head pattern) &&
            negb (existsb isPercent (tail (removelast pattern))) then likePatternContains
    else likePatternUnsupported
  else likePatternUnsupported.

(** The bytes of [value] in a word of [prefixLength] bytes, from position [i] on. *)
Fixpoint lexWord (prefixLength i : Z) (value : bytes) (encoded : Z) : Z :=
  match value with
  | [] => encoded
  | b :: value =>
    lexWord prefixLength (i + 1) value
      (Z.lor encoded (wrap_u 64 (Z.shiftl (ub b) (8 * (prefixLength - i - 1)))))
  end.

(** [value], cut or filled with zeros. *)
Definition lexBytes (value : bytes) (prefixLength : Z) : bytes :=
  let n := Z.to_nat prefixLength in
  take n value ++ replicate (n - length (take n value)) (byte_of 0).

Definition quantaIntermediateStringLexBSIValue (value : bytes) (prefixLength : Z) : Z :=
  if prefixLength <=? 0 then SetBytes value
  else if prefixLength <=? 8 then lexWord prefixLength 0 (take (Z.to_nat prefixLength) value) 0
  else SetBytes (lexBytes value prefixLength).

Definition quantaIntermediateStringLexBSIMaxValue (prefixLength : Z) : option Z :=
  if prefixLength <=? 0 then None else Some (2 ^ (prefixLength * 8) - 1).

(** The last byte that is not 0xff grows by one, those after it become zero; the bytes
    are given from the last on. *)
Fixpoint incrementLast (l : bytes) : option bytes :=
  match l with
  | [] => None
  | b :: l => if ub b =? 255 then cons (byte_of 0) <$> incrementLast l else Some (byte_of (ub b + 1) :: l)
  end.

Definition quantaIntermediateIncrementLexPrefix (value : bytes) : option bytes :=
  @rev byte <$> incrementLast (rev value).

Definition quantaIntermediateStringLexBSIPrefixRange (prefix : bytes) (prefixLength : Z) : option (Z * Z) :=
  if bool_decide (prefix = []) || (prefixLength <=? 0) || (prefixLength <? zlen prefix) then None
  else
    let begin := quantaIntermediateStringLexBSIValue prefix prefixLength in
    match quantaIntermediateIncrementLexPrefix prefix with
    | Some upper => Some (begin, SetBytes (lexBytes upper prefixLength) - 1)
    | None => end_ ← quantaIntermediateStringLexBSIMaxValue prefixLength; Some (begin, end_)
    end.

Definition quantaIntermediateStringLexBSICandidatePrefix (prefix : bytes) (prefixLength : Z) : option bytes :=
  if bool_decide (prefix = []) || (prefixLength <=? 0) then None
  else if zlen prefix <=? prefixLength then Some prefix
  else Some (take (Z.to_nat prefixLength) prefix).

(** The character U+FFFF, after the prefix in the upper literal of a range. *)
Definition upperMark : bytes := [byte_of 0xef; byte_of 0xbf; byte_of 0xbf].

Definition stringLiteral (s : bytes) : LiteralExpr := mkLiteral ValueString (GString s).

(** A literal of kind string with a string. *)
Definition asString (value : LiteralExpr) : option bytes :=
  match lt_Kind value, lt_Value value with ValueString, GString s => Some s | _, _ => None end.

Definition prefixRangeFragment (field : FieldRef) (op : QuantaFragmentOperation) (prefix : bytes)
    : option QuantaQueryFragment :=
  '(begin, end_) ← quantaIntermediateStringLexBSIPrefixRange prefix (en_PrefixLength (fr_Encoding field));
  Some (rangeOfField field op begin end_ (stringLiteral prefix) (stringLiteral (prefix ++ upperMark))).

(** ** Parts of a predicate *)

Definition quantaIntermediateValueExpr (expr : Expr) : bool :=
  match expr with ELiteral _ | EParameter _ | ECall _ _ => true | _ => false end.

Definition quantaIntermediateSupportedComparison (op : BinaryOp) : bool :=
  match op with
  | OpEqual | OpNotEqual | OpLess | OpLessEqual | OpGreater | OpGreaterEqual => true
  | _ => false
  end.

Definition quantaIntermediateReverseComparison (op : BinaryOp) : option BinaryOp :=
  match op with
  | OpEqual => Some OpEqual | OpNotEqual => Some OpNotEqual | OpLess => Some OpGreater
  | OpLessEqual => Some OpGreaterEqual | OpGreater => Some OpLess | OpGreaterEqual => Some OpLessEqual
  | _ => None
  end.

(** A field on the left, or on the right of the mirrored operator. *)
Definition quantaIntermediateComparisonParts (expr : Expr) : option (BinaryOp * FieldRef * Expr) :=
  match expr with
  | EBinary op lhs rhs =>
    if negb (quantaIntermediateSupportedComparison op) then None
    else
      let fromRight :=
        match rhs with
        | EField field =>
          if quantaIntermediateValueExpr lhs
          then op ← quantaIntermediateReverseComparison op; Some (op, field, lhs) else None
        | _ => None
        end in
      match lhs with
      | EField field => if quantaIntermediateValueExpr rhs then Some (op, field, rhs) else fromRight
      | _ => fromRight
      end
  | _ => None
  end.

Definition quantaIntermediateInParts (expr : Expr) : option (FieldRef * list Expr) :=
  match expr with
  | EBinary (OpIn | OpNotIn) (EField field) (EList items) => Some (field, items)
  | _ => None
  end.

Definition quantaIntermediateInNegated (expr : Expr) : bool :=
  match expr with EBinary OpNotIn _ _ => true | _ => false end.

Definition quantaIntermediateBetweenParts (expr : Expr) : option (FieldRef * Expr * Expr * bool) :=
  match expr with
  | EBinary op (EField field) (EList [lower; upper]) =>
    if decide (op = OpBetween \/ op = OpNotBetween) then
      if quantaIntermediateValueExpr lower && quantaIntermediateValueExpr upper
      then Some (field, lower, upper, bool_decide (op = OpNotBetween)) else None
    else None
  | _ => None
  end.

(** The parts of LIKE and NOT LIKE on a field the test accepts. *)
Definition likeParts (accepts : FieldRef -> bool) (expr : Expr) : option (BinaryOp * FieldRef * Expr) :=
  match expr with
  | EBinary op (EField field) rhs =>
    if decide (op = OpLike \/ op = OpNotLike) then
      if accepts field && quantaIntermediateValueExpr rhs then Some (op, field, rhs) else None
    else None
  | _ => None
  end.

Definition isStringLexBSI (field : FieldRef) : bool := bool_decide (en_Kind (fr_Encoding field) = EncodingStringLexBSI).
Definition needsRemainder (field : FieldRef) : bool := NeedsStringRemainderLookup (fr_Encoding field).
Definition isStringEnum (field : FieldRef) : bool := bool_decide (fr_Index field = IndexStringEnum).

Definition quantaIntermediateStringEnumLikeParts : Expr -> option (BinaryOp * FieldRef * Expr) := likeParts isStringEnum.

Definition quantaIntermediateStringLexBSILikeParts : Expr -> option (BinaryOp * FieldRef * Expr) :=
  likeParts (fun field => isStringLexBSI field && negb (needsRemainder field)).

Definition quantaIntermediateStringLexBSILikeCandidateParts : Expr -> option (BinaryOp * FieldRef * Expr) :=
  likeParts (fun field => isStringLexBSI field && needsRemainder field).

Definition quantaIntermediateStringLexBSIEqualityCandidateParts (expr : Expr) : option (FieldRef * Expr) :=
  '(op, field, value) ← quantaIntermediateComparisonParts expr;
  if decide (op = OpEqual) then
    if isStringLexBSI field && needsRemainder field && quantaIntermediateValueExpr value then Some (field, value) else None
  else None.

Definition quantaIntermediateStringEnumComparisonParts (expr : Expr) : option (BinaryOp * FieldRef * Expr) :=
  '(op, field, value) ← quantaIntermediateComparisonParts expr;
  if isStringEnum field then
    match op with OpEqual | OpNotEqual => Some (op, field, value) | _ => None end
  else None.

(** ** Predicates *)

Section Lower.

Context `{TextLib} (now : Time) (Dictionaries : option DictionaryResolver).

Definition quantaIntermediateNullCheckFragment (op : BinaryOp) (field : FieldRef) : outcome QuantaQueryFragment :=
  match op with
  | OpEqual | OpNotEqual =>
    Lowered (mkFragment (ti_Table (fr_Table field)) (quantaIntermediateTableRole (fr_Table field))
      (quantaIntermediateFieldName field) OperationIntersect BSIOpNone None [] None None None [] None
      false false (bool_decide (op = OpNotEqual)) true)
  | _ => blocked "only equality predicates are lowered for NULL checks"
  end.

Definition quantaIntermediateRownumField (field : FieldRef) : bool :=
  existsb (fun name =>
    let normalized := ToLower (TrimSpace name) in
    bool_decide (normalized = str "rownum") || bool_decide (normalized = str "@rownum") ||
    bool_decide (str "@rownum" = drop (length normalized - 7) normalized))
    [fr_PhysicalName field; fr_Name field].

Definition withLiteral (f : QuantaQueryFragment) (literal : LiteralExpr) : QuantaQueryFragment :=
  mkFragment (fg_Index f) (fg_Role f) (fg_Field f) (fg_Operation f) (fg_BSIOp f) (fg_Value f) (fg_Values f)
    (fg_Begin f) (fg_End f) (Some literal) (fg_Literals f) (fg_LiteralRange f) (fg_RangeCoalesceAllowed f)
    (fg_ShardWindow f) (fg_Negate f) (fg_NullCheck f).

Definition withLiterals (f : QuantaQueryFragment) (literals : list LiteralExpr) (negate : bool) : QuantaQueryFragment :=
  mkFragment (fg_Index f) (fg_Role f) (fg_Field f) (fg_Operation f) (fg_BSIOp f) (fg_Value f) (fg_Values f)
    (fg_Begin f) (fg_End f) (fg_Literal f) literals (fg_LiteralRange f) (fg_RangeCoalesceAllowed f)
    (fg_ShardWindow f) negate (fg_NullCheck f).

Definition quantaIntermediateLiteralComparisonFragment (op : BinaryOp) (field : FieldRef) (value : LiteralExpr)
    : outcome QuantaQueryFragment :=
  match op with
  | OpEqual | OpNotEqual =>
    let operation := quantaIntermediateEqualityOperation op in
    if quantaIntermediateRownumField field then
      rownum ← outcomeOf (quantaIntermediateBigInt value)
        (quantaIntermediateDiagnostics (str "rownum predicates require integer values"));
      mret (withLiteral (fieldFragment field operation BSIOpNone None [Some rownum]) value)
    else Lowered (withLiteral (fieldFragment field operation BSIOpNone None []) value)
  | _ => blocked "only equality predicates are lowered for non-BSI fields in this slice"
  end.

Definition quantaIntermediateBoolDirectComparisonFragment (op : BinaryOp) (field : FieldRef) (value : LiteralExpr)
    : outcome QuantaQueryFragment :=
  match op with
  | OpEqual | OpNotEqual =>
    normalized ← quantaIntermediateNormalizeBoolValue value;
    boolID ← outcomeOf (quantaIntermediateBigInt normalized)
      (quantaIntermediateDiagnostics (str "BoolDirect predicates require boolean-compatible values"));
    mret (fieldFragment field (quantaIntermediateEqualityOperation op) BSIOpNone None [Some boolID])
  | _ => blocked "only equality predicates are lowered for BoolDirect fields"
  end.

Definition quantaIntermediateStringLexBSIComparisonFragment (op : BinaryOp) (field : FieldRef) (value : LiteralExpr)
    : outcome QuantaQueryFragment :=
  match op with
  | OpEqual | OpNotEqual =>
    if needsRemainder field
    then blocked "StringLexBSI predicates requiring remainder lookup are not lowered in this slice"
    else
      text ← outcomeOf (asString value) (quantaIntermediateDiagnostics (str "StringLexBSI predicates require string values"));
      mret (fieldFragment field (quantaIntermediateEqualityOperation op) BSIOpEQ
        (Some (quantaIntermediateStringLexBSIValue text (en_PrefixLength (fr_Encoding field)))) [])
  | _ => blocked "only equality predicates are lowered for StringLexBSI fields"
  end.

Definition lowerTextSearchPredicate (predicate : Predicate) : outcome QuantaQueryFragment :=
  match pd_Expr predicate with
  | ETextSearch field hashes =>
    if decide (hashes = []) then blocked "MATCH ... AGAINST must be materialized before lowering"
    else Lowered (mkFragment (ti_Table (fr_Table field)) (quantaIntermediateTableRole (fr_Table field))
      (str "__qs_search_hash__" ++ quantaIntermediateFieldName field) OperationIntersect BSIOpBatchEQ None hashes
      None None None [] None false false false false)
  | _ => Skipped
  end.

Definition quantaIntermediateNormalizeStringLexBSIValue (field : FieldRef) (value : LiteralExpr) : outcome LiteralExpr :=
  text ← outcomeOf (asString value)
    (quantaIntermediateDiagnostics (str "StringLexBSI BETWEEN predicates require string values"));
  mret (mkLiteral ValueInt (GBigInt (Some
    (quantaIntermediateStringLexBSIValue text (en_PrefixLength (fr_Encoding field)))))).

(** Both bounds of BETWEEN, the lower one first. *)
Definition normalizeBounds (normalize : LiteralExpr -> outcome LiteralExpr) (bounds : LiteralExpr * LiteralExpr)
    : outcome (LiteralExpr * LiteralExpr) :=
  lower ← normalize bounds.1;
  upper ← normalize bounds.2;
  mret (lower, upper).

Definition lowerBetweenPredicate (predicate : Predicate) (parameters : list ParameterBinding)
    : outcome QuantaQueryFragment :=
  match quantaIntermediateBetweenParts (pd_Expr predicate) with
  | None => Skipped
  | Some (field, lowerExpr, upperExpr, negate) =>
    lower ← quantaIntermediateValue now lowerExpr parameters;
    upper ← quantaIntermediateValue now upperExpr parameters;
    if negb (bool_decide (fr_Index field = IndexBSI)) && negb (bool_decide (fr_Index field = IndexDateTime))
    then Lowered (mkFragment (ti_Table (fr_Table field)) (quantaIntermediateTableRole (fr_Table field))
      (quantaIntermediateFieldName field) OperationIntersect BSIOpNone None [] None None None []
      (Some (lower, upper)) false false negate false)
    else
      bounds ← (if decide (fr_Index field = IndexDateTime)
                then normalizeBounds (quantaIntermediateNormalizeTimeValue now field) (lower, upper)
                else Lowered (lower, upper));
      bounds ← (if 0 <? en_Scale (fr_Encoding field)
                then normalizeBounds (quantaIntermediateNormalizeScaledNumericValue field) bounds
                else Lowered bounds);
      bounds ← (if isStringLexBSI field then
                  if needsRemainder field
                  then blocked "StringLexBSI BETWEEN predicates requiring remainder lookup are not lowered in this slice"
                  else normalizeBounds (quantaIntermediateNormalizeStringLexBSIValue field) bounds
                else Lowered bounds);
      let only := quantaIntermediateDiagnostics (str "only integer BSI BETWEEN values are lowered in this slice") in
      begin ← outcomeOf (quantaIntermediateBigInt bounds.1) only;
      end_ ← outcomeOf (quantaIntermediateBigInt bounds.2) only;
      mret (rangeOfField field (if negate then OperationDifference else OperationIntersect) begin end_ lower upper)
  end.

Definition quantaIntermediateLikeExactOp (op : BinaryOp) : BinaryOp :=
  if decide (op = OpNotLike) then OpNotEqual else OpEqual.

Definition lowerStringLexBSILikePredicate (predicate : Predicate) (parameters : list ParameterBinding)
    : outcome QuantaQueryFragment :=
  match quantaIntermediateStringLexBSILikeParts (pd_Expr predicate) with
  | None => Skipped
  | Some (op, field, valueExpr) =>
    value ← quantaIntermediateValue now valueExpr parameters;
    label ← outcomeOf (asString value)
      (quantaIntermediateDiagnostics (str "StringLexBSI LIKE predicates require string values"));
    match simpleLikePattern label with
    | likePatternExact =>
      if needsRemainder field then Skipped
      else quantaIntermediateStringLexBSIComparisonFragment (quantaIntermediateLikeExactOp op) field value
    | likePatternPrefix =>
      match prefixRangeFragment field (if decide (op = OpNotLike) then OperationDifference else OperationIntersect)
              (removelast label) with
      | Some fragment => Lowered fragment
      | None => Skipped
      end
    | _ => Skipped
    end
  end.

(** ** Dictionary fields *)

Definition quantaIntermediateDictionaryRef (field : FieldRef) : DictionaryRef :=
  if DictionaryRef_Valid (fr_Dictionary field) then fr_Dictionary field
  else mkDictionaryRef (ti_Schema (fr_Table field)) (ti_Table (fr_Table field)) (quantaIntermediateFieldName field).

Definition quantaIntermediateStringEnumFragment (field : FieldRef) (values : list Z) (literals : list LiteralExpr)
    : QuantaQueryFragment :=
  withLiterals (fieldFragment field OperationIntersect BSIOpNone None (map Some values)) literals false.

(** An identifier no label has. *)
Definition quantaIntermediateImpossibleStringEnumID : Z := 2 ^ 64 - 1.

Definition quantaIntermediateMissingStringEnumFragment (field : FieldRef) (literal : LiteralExpr) : QuantaQueryFragment :=
  quantaIntermediateStringEnumFragment field [quantaIntermediateImpossibleStringEnumID]
    (if decide (lt_Kind literal = ValueUnknown) then [] else [literal]).

Definition quantaIntermediateDictionaryLabelNotFound (diagnostics : DiagnosticSet) : bool :=
  negb (bool_decide (diagnostics = [])) &&
  forallb (fun d => bool_decide (dg_Code d = DiagnosticDictionaryLabelNotFound)) diagnostics.

Definition stringEnumID (field : FieldRef) (value : LiteralExpr) : outcome Z :=
  label ← outcomeOf (asString value) (quantaIntermediateDiagnostics (str "StringEnum predicates require string labels"));
  match Dictionaries with
  | None => Skipped
  | Some resolver =>
    let '(entry, diagnostics) := LookupLabel resolver (quantaIntermediateDictionaryRef field) label in
    if BlocksNative diagnostics then Blocked diagnostics else Lowered (de_ID entry)
  end.

Definition stringEnumPrefixIDs (field : FieldRef) (prefix : bytes) : outcome (list DictionaryEntry) :=
  match Dictionaries with
  | None => Skipped
  | Some resolver =>
    let '(entries, diagnostics) := LookupPrefix resolver (quantaIntermediateDictionaryRef field) prefix in
    if BlocksNative diagnostics then Blocked diagnostics else Lowered entries
  end.

Definition differenceIf (negated : bool) (fragment : QuantaQueryFragment) : QuantaQueryFragment :=
  if negated then withFragmentOperation fragment OperationDifference else fragment.

(** The fragment of the label of a literal, which may be missing in the dictionary. *)
Definition stringEnumLabelFragment (field : FieldRef) (value : LiteralExpr) (negated : bool) : outcome QuantaQueryFragment :=
  match stringEnumID field value with
  | Lowered id => Lowered (differenceIf negated (quantaIntermediateStringEnumFragment field [id] [value]))
  | Blocked diagnostics =>
    if quantaIntermediateDictionaryLabelNotFound diagnostics
    then Lowered (differenceIf negated (quantaIntermediateMissingStringEnumFragment field value))
    else Blocked diagnostics
  | Skipped => Skipped
  end.

(** The identifiers of the labels of a list, without those missing in the dictionary. *)
Fixpoint stringEnumIDs (field : FieldRef) (items : list Expr) (parameters : list ParameterBinding)
    : outcome (list (Z * LiteralExpr)) :=
  match items with
  | [] => Lowered []
  | item :: items =>
    value ← quantaIntermediateValue now item parameters;
    match stringEnumID field value with
    | Lowered id => rest ← stringEnumIDs field items parameters; mret ((id, value) :: rest)
    | Blocked diagnostics =>
      if quantaIntermediateDictionaryLabelNotFound diagnostics then stringEnumIDs field items parameters
      else Blocked diagnostics
    | Skipped => Skipped
    end
  end.

Definition lowerStringEnumInPredicate (predicate : Predicate) (parameters : list ParameterBinding)
    : outcome QuantaQueryFragment :=
  match quantaIntermediateInParts (pd_Expr predicate) with
  | None => Skipped
  | Some (field, items) =>
    if negb (isStringEnum field) then Skipped
    else
      ids ← stringEnumIDs field items parameters;
      mret (differenceIf (quantaIntermediateInNegated (pd_Expr predicate))
        (match ids with
         | [] => quantaIntermediateMissingStringEnumFragment field noLiteral
         | _ => quantaIntermediateStringEnumFragment field (map fst ids) (map snd ids)
         end))
  end.

Definition lowerStringEnumLikePredicate (predicate : Predicate) (parameters : list ParameterBinding)
    : outcome QuantaQueryFragment :=
  match quantaIntermediateStringEnumLikeParts (pd_Expr predicate) with
  | None => Skipped
  | Some (op, field, valueExpr) =>
    value ← quantaIntermediateValue now valueExpr parameters;
    label ← outcomeOf (asString value) (quantaIntermediateDiagnostics (str "StringEnum LIKE predicates require string labels"));
    let negated := bool_decide (op = OpNotLike) in
    match simpleLikePattern label with
    | likePatternExact => stringEnumLabelFragment field value negated
    | likePatternPrefix =>
      entries ← stringEnumPrefixIDs field (removelast label);
      mret (differenceIf negated
        (match entries with
         | [] => quantaIntermediateMissingStringEnumFragment field value
         | _ => quantaIntermediateStringEnumFragment field (map de_ID entries)
                  (map (fun e => stringLiteral (de_Label e)) entries)
         end))
    | _ => Skipped
    end
  end.

Definition lowerStringEnumPredicate (predicate : Predicate) (parameters : list ParameterBinding)
    : outcome QuantaQueryFragment :=
  orElse (lowerStringEnumInPredicate predicate parameters)
    (orElse (lowerStringEnumLikePredicate predicate parameters)
      (match quantaIntermediateStringEnumComparisonParts (pd_Expr predicate) with
       | None => Skipped
       | Some (op, field, valueExpr) =>
         value ← quantaIntermediateValue now valueExpr parameters;
         if decide (lt_Kind value = ValueNull) then quantaIntermediateNullCheckFragment op field
         else stringEnumLabelFragment field value (bool_decide (op = OpNotEqual))
       end)).

(** ** Lists *)

Fixpoint mapOutcome {A B} (f : A -> outcome B) (l : list A) : outcome (list B) :=
  match l with
  | [] => Lowered []
  | a :: l => b ← f a; bs ← mapOutcome f l; mret (b :: bs)
  end.

Definition lowerStringLexBSIInPredicate (field : FieldRef) (items : list Expr) (parameters : list ParameterBinding)
    (negate : bool) : outcome QuantaQueryFragment :=
  if needsRemainder field
  then blocked "StringLexBSI IN predicates requiring remainder lookup are not lowered in this slice"
  else
    values ← mapOutcome (fun item =>
      value ← quantaIntermediateValue now item parameters;
      text ← outcomeOf (asString value) (quantaIntermediateDiagnostics (str "StringLexBSI IN predicates require string values"));
      mret (quantaIntermediateStringLexBSIValue text (en_PrefixLength (fr_Encoding field)))) items;
    mret (fieldFragment field (if negate then OperationDifference else OperationIntersect) BSIOpBatchEQ None
      (map Some values)).

Definition lowerLiteralInPredicate (field : FieldRef) (items : list Expr) (parameters : list ParameterBinding)
    (negate : bool) : outcome QuantaQueryFragment :=
  values ← mapOutcome (fun item => quantaIntermediateValue now item parameters) items;
  mret (withLiterals (fieldFragment field OperationIntersect BSIOpNone None []) values negate).

Definition lowerInPredicate (predicate : Predicate) (parameters : list ParameterBinding) : outcome QuantaQueryFragment :=
  match quantaIntermediateInParts (pd_Expr predicate) with
  | None => Skipped
  | Some (field, items) =>
    let negated := quantaIntermediateInNegated (pd_Expr predicate) in
    if isStringLexBSI field then lowerStringLexBSIInPredicate field items parameters negated
    else if negb (bool_decide (fr_Index field = IndexBSI)) && negb (bool_decide (fr_Index field = IndexDateTime))
    then lowerLiteralInPredicate field items parameters negated
    else
      values ← mapOutcome (fun item =>
        literalValue ← quantaIntermediateValue now item parameters;
        value ← (if decide (fr_Index field = IndexDateTime)
                 then quantaIntermediateNormalizeTimeValue now field literalValue else Lowered literalValue);
        bigValue ← outcomeOf (quantaIntermediateBigInt value)
          (quantaIntermediateDiagnostics (str "only integer BSI IN values are lowered in this slice"));
        mret (bigValue, literalValue)) items;
      mret (withLiterals (fieldFragment field OperationIntersect BSIOpBatchEQ None (map (fun v => Some v.1) values))
        (map snd values) negated)
  end.

(** ** Comparisons *)

(** The operator and the value of a comparison as a BSI field stores it. *)
Definition normalizeComparison (op : BinaryOp) (field : FieldRef) (value : LiteralExpr) : outcome (BinaryOp * LiteralExpr) :=
  '(op, value) ← (if decide (fr_Index field = IndexDateTime) then
                    normalized ← quantaIntermediateNormalizeTimeValue now field value;
                    mret (quantaIntermediateNormalizeDiscreteTimeComparison op field value normalized)
                  else Lowered (op, value));
  value ← (if 0 <? en_Scale (fr_Encoding field) then quantaIntermediateNormalizeScaledNumericValue field value
           else Lowered value);
  '(op, value) ← (if decide (fr_Type field = DataTypeInt)
                  then quantaIntermediateNormalizeDiscreteNumericComparison op value else Lowered (op, value));
  value ← (if decide (fr_Type field = DataTypeBool) then quantaIntermediateNormalizeBoolValue value else Lowered value);
  mret (op, value).

Definition comparisonFragment (field : FieldRef) (op : BinaryOp) (value : Z) (literal : LiteralExpr) : QuantaQueryFragment :=
  mkFragment (ti_Table (fr_Table field)) (quantaIntermediateTableRole (fr_Table field)) (quantaIntermediateFieldName field)
    (if decide (op = OpNotEqual) then OperationDifference else OperationIntersect)
    (if decide (op = OpNotEqual) then BSIOpEQ else quantaIntermediateBSIOp op)
    (Some value) [] None None (Some literal) [] None true false false false.

Definition lowerComparison (predicate : Predicate) (parameters : list ParameterBinding) : outcome QuantaQueryFragment :=
  match quantaIntermediateComparisonParts (pd_Expr predicate) with
  | None => blocked "only field-to-value comparison and IN predicates can be lowered"
  | Some (op, field, valueExpr) =>
    value ← quantaIntermediateValue now valueExpr parameters;
    if decide (lt_Kind value = ValueNull) then quantaIntermediateNullCheckFragment op field
    else if isStringLexBSI field then quantaIntermediateStringLexBSIComparisonFragment op field value
    else if bool_decide (fr_Type field = DataTypeBool) && bool_decide (en_LegacyName (fr_Encoding field) = str "BoolDirect")
    then quantaIntermediateBoolDirectComparisonFragment op field value
    else if negb (bool_decide (fr_Index field = IndexBSI)) && negb (bool_decide (fr_Index field = IndexDateTime))
    then quantaIntermediateLiteralComparisonFragment op field value
    else
      '(op, normalized) ← normalizeComparison op field value;
      bigValue ← outcomeOf (quantaIntermediateBigInt normalized)
        (quantaIntermediateDiagnostics (str "only integer BSI comparison values are lowered in this slice"));
      mret (comparisonFragment field op bigValue value)
  end.

Definition lowerPredicate (predicate : Predicate) (parameters : list ParameterBinding) : outcome QuantaQueryFragment :=
  fragment ← orElse (lowerTextSearchPredicate predicate)
    (orElse (lowerBetweenPredicate predicate parameters)
    (orElse (lowerStringLexBSILikePredicate predicate parameters)
    (orElse (lowerStringEnumPredicate predicate parameters)
    (orElse (lowerInPredicate predicate parameters)
      (lowerComparison predicate parameters)))));
  mret (quantaIntermediateApplyCombinator fragment predicate).

(** ** Candidates of predicates that are evaluated on rows *)

Definition lowerStringLexBSIEqualityCandidate (predicate : Predicate) (parameters : list ParameterBinding)
    : outcome QuantaQueryFragment :=
  match quantaIntermediateStringLexBSIEqualityCandidateParts (pd_Expr predicate) with
  | None => Skipped
  | Some (field, valueExpr) =>
    value ← quantaIntermediateValue now valueExpr parameters;
    label ← outcomeOf (asString value)
      (quantaIntermediateDiagnostics (str "StringLexBSI equality predicates require string values"));
    match quantaIntermediateStringLexBSICandidatePrefix label (en_PrefixLength (fr_Encoding field)) ≫=
            prefixRangeFragment field OperationIntersect with
    | Some fragment => Lowered fragment
    | None => Skipped
    end
  end.

Definition lowerStringLexBSIPrefixLikeCandidate (predicate : Predicate) (parameters : list ParameterBinding)
    : outcome QuantaQueryFragment :=
  match quantaIntermediateStringLexBSILikeCandidateParts (pd_Expr predicate) with
  | Some (OpLike, field, valueExpr) =>
    value ← quantaIntermediateValue now valueExpr parameters;
    match asString value with
    | Some label =>
      match simpleLikePattern label with
      | likePatternPrefix =>
        match quantaIntermediateStringLexBSICandidatePrefix (removelast label) (en_PrefixLength (fr_Encoding field)) ≫=
                prefixRangeFragment field OperationIntersect with
        | Some fragment => Lowered fragment
        | None => Skipped
        end
      | _ => Skipped
      end
    | None => Skipped
    end
  | _ => Skipped
  end.

Definition lowerResidualCandidatePredicate (predicate : Predicate) (parameters : list ParameterBinding)
    : outcome QuantaQueryFragment :=
  if decide (pd_Combinator predicate = CombinatorOr \/ pd_Scope predicate = ScopeHaving) then Skipped
  else orElse (lowerStringLexBSIEqualityCandidate predicate parameters)
         (lowerStringLexBSIPrefixLikeCandidate predicate parameters).

(** ** Ranges from two bounds *)

Definition quantaIntermediateLowerBoundOp (op : QuantaBSIOp) : bool :=
  match op with BSIOpGE | BSIOpGT => true | _ => false end.

Definition quantaIntermediateUpperBoundOp (op : QuantaBSIOp) : bool :=
  match op with BSIOpLE | BSIOpLT => true | _ => false end.

Definition quantaIntermediateSameRangeField (l r : QuantaQueryFragment) : bool :=
  bool_decide (fg_Index l = fg_Index r) && bool_decide (fg_Role l = fg_Role r) && bool_decide (fg_Field l = fg_Field r) &&
  bool_decide (fg_Operation l = OperationIntersect) && bool_decide (fg_Operation r = OperationIntersect) &&
  negb (fg_Negate l) && negb (fg_Negate r) && negb (fg_NullCheck l) && negb (fg_NullCheck r) &&
  bool_decide (is_Some (fg_Value l)) && bool_decide (is_Some (fg_Value r)) &&
  fg_RangeCoalesceAllowed l && fg_RangeCoalesceAllowed r.

Definition quantaIntermediateRangePair (l r : QuantaQueryFragment) : bool :=
  quantaIntermediateSameRangeField l r &&
  (quantaIntermediateLowerBoundOp (fg_BSIOp l) && quantaIntermediateUpperBoundOp (fg_BSIOp r) ||
   quantaIntermediateUpperBoundOp (fg_BSIOp l) && quantaIntermediateLowerBoundOp (fg_BSIOp r)).

(** A nil bound would panic; a pair has both. *)
Definition quantaIntermediateInclusiveLowerBound (op : QuantaBSIOp) (value : Z) : Z :=
  if decide (op = BSIOpGT) then value + 1 else value.

Definition quantaIntermediateInclusiveUpperBound (op : QuantaBSIOp) (value : Z) : Z :=
  if decide (op = BSIOpLT) then value - 1 else value.

Definition quantaIntermediateRangeFragment (l r : QuantaQueryFragment) : QuantaQueryFragment :=
  let '(lower, upper) := if quantaIntermediateLowerBoundOp (fg_BSIOp l) then (l, r) else (r, l) in
  mkFragment (fg_Index l) (fg_Role l) (fg_Field l) (fg_Operation l) BSIOpRange None (fg_Values l)
    (quantaIntermediateInclusiveLowerBound (fg_BSIOp lower) <$> fg_Value lower)
    (quantaIntermediateInclusiveUpperBound (fg_BSIOp upper) <$> fg_Value upper)
    (fg_Literal l) (fg_Literals l) (fg_LiteralRange l) (fg_RangeCoalesceAllowed l) (fg_ShardWindow l)
    (fg_Negate l) (fg_NullCheck l).

(** The first element of a list that pairs with [a], and the others. *)
Fixpoint takePair {A} (pair : A -> A -> bool) (a : A) (l : list A) : option (A * list A) :=
  match l with
  | [] => None
  | b :: l => if pair a b then Some (b, l) else '(c, l) ← takePair pair a l; Some (c, b :: l)
  end.

(** Each element is merged with the first later one it pairs with, which is used up; the
    fuel is the length of the list. *)
Fixpoint coalesceFrom {A} (pair : A -> A -> bool) (merge : A -> A -> A) (fuel : nat) (l : list A) : list A :=
  match fuel, l with
  | S fuel, a :: l =>
    match takePair pair a l with
    | Some (b, l) => merge a b :: coalesceFrom pair merge fuel l
    | None => a :: coalesceFrom pair merge fuel l
    end
  | _, _ => l
  end.

Definition quantaIntermediateCoalesceRanges (fragments : list QuantaQueryFragment) : list QuantaQueryFragment :=
  coalesceFrom quantaIntermediateRangePair quantaIntermediateRangeFragment (length fragments) fragments.

Fixpoint filterDomainConjunctsForFactoring (filter : QuantaFilterExpression) : list QuantaFilterExpression :=
  match filter with
  | FEmpty => []
  | FIntersect children => concat (map filterDomainConjunctsForFactoring children)
  | _ => [filter]
  end.

Definition filterDomainConjunctExpression (conjuncts : list QuantaFilterExpression) : QuantaFilterExpression :=
  match conjuncts with
  | [] => FEmpty
  | [conjunct] => conjunct
  | _ => FIntersect conjuncts
  end.

Definition leafPair (l r : QuantaFilterExpression) : bool :=
  match l, r with FLeaf l, FLeaf r => quantaIntermediateRangePair l r | _, _ => false end.

Definition leafRange (l r : QuantaFilterExpression) : QuantaFilterExpression :=
  match l, r with FLeaf l, FLeaf r => FLeaf (quantaIntermediateRangeFragment l r) | _, _ => l end.

Fixpoint quantaIntermediateCoalesceFilterRanges (filter : QuantaFilterExpression) : QuantaFilterExpression :=
  match filter with
  | FUnion children => FUnion (map quantaIntermediateCoalesceFilterRanges children)
  | FIntersect [] => filter
  | FIntersect children =>
    let filter := FIntersect (map quantaIntermediateCoalesceFilterRanges children) in
    let conjuncts := filterDomainConjunctsForFactoring filter in
    if (length conjuncts <? 2)%nat then filter
    else filterDomainConjunctExpression (coalesceFrom leafPair leafRange (length conjuncts) conjuncts)
  | _ => filter
  end.

(** ** Queries *)

Fixpoint lowerFilterExpression (expr : Expr) (parameters : list ParameterBinding) : outcome QuantaFilterExpression :=
  match expr with
  | ENil => Lowered FEmpty
  | EBinary OpAnd lhs rhs =>
    l ← lowerFilterExpression lhs parameters;
    r ← lowerFilterExpression rhs parameters;
    mret (FIntersect [l; r])
  | EBinary OpOr lhs rhs =>
    l ← lowerFilterExpression lhs parameters;
    r ← lowerFilterExpression rhs parameters;
    mret (FUnion [l; r])
  | _ =>
    fragment ← lowerPredicate (mkPredicate expr PredicatePushdown ScopeWhere CombinatorUnknown) parameters;
    mret (FLeaf fragment)
  end.

Fixpoint lowerPredicates (predicates : list Predicate) (parameters : list ParameterBinding)
    : outcome (list QuantaQueryFragment) :=
  match predicates with
  | [] => Lowered []
  | predicate :: predicates =>
    if decide (pd_Placement predicate = PredicateResidualScan) then
      match lowerResidualCandidatePredicate predicate parameters with
      | Lowered fragment => rest ← lowerPredicates predicates parameters; mret (fragment :: rest)
      | Blocked d => Blocked d
      | Skipped => lowerPredicates predicates parameters
      end
    else
      fragment ← lowerPredicate predicate parameters;
      rest ← lowerPredicates predicates parameters;
      mret (fragment :: rest)
  end.

(** The fragments and the filter of a query; its projection is not represented. *)
Definition LowerQuery (query : QueryIR) (parameters : list ParameterBinding)
    : outcome (list QuantaQueryFragment * QuantaFilterExpression) :=
  if negb (qi_Select query) then blocked "only SELECT requests can be lowered"
  else if negb (qi_Sources query =? 1) && (qi_Joins query =? 0) && (qi_Memberships query =? 0)
  then blocked "only one-table queries can be lowered"
  else
    fragments ← lowerPredicates (qi_Predicates query) parameters;
    filter ← lowerFilterExpression (qi_WhereExpr query) parameters;
    mret (quantaIntermediateCoalesceRanges fragments, quantaIntermediateCoalesceFilterRanges filter).

End Lower.
