(* ===== verification/LoweringExact.v ===== *)
(** * What the lowering of a condition means

    A condition of WHERE, as SQL reads it on the contents of a table, and the fragments
    and filter trees it is lowered to, as they read the integers that an index stores.
    The lowering of a supported condition succeeds and selects the same rows, also after
    pairs of bounds were merged into ranges. *)

From S2P Require Import Prelude GoStd GoTime JsonValue JsonText TimeLayout Value GoFloat SqlIR Lowering LexStrings.

(** ** Fragments on stored integers *)

(** The test of a fragment on a stored integer; a nil operand is zero. *)
Definition operandTest (f : QuantaQueryFragment) (v : Z) : bool :=
  match fg_BSIOp f with
  | BSIOpNone => false
  | BSIOpLT => v <? default 0 (fg_Value f)
  | BSIOpLE => v <=? default 0 (fg_Value f)
  | BSIOpEQ => v =? default 0 (fg_Value f)
  | BSIOpGE => default 0 (fg_Value f) <=? v
  | BSIOpGT => default 0 (fg_Value f) <? v
  | BSIOpRange => (default 0 (fg_Begin f) <=? v) && (v <=? default 0 (fg_End f))
  | BSIOpBatchEQ => bool_decide (v ∈ map (default 0) (fg_Values f))
  end.

(** A strong induction principle for filter trees. *)
Lemma filter_ind' (P : QuantaFilterExpression -> Prop) : P FEmpty -> (forall f, P (FLeaf f)) ->
  (forall c, P (FCandidateSet c)) -> (forall l, Forall P l -> P (FIntersect l)) -> (forall l, Forall P l -> P (FUnion l)) ->
  forall t, P t.
Proof.
  intros He Hl Hc Hi Hu. fix IH 1. intros [| | |l|l]; [done|apply Hl|apply Hc|apply Hi|apply Hu];
    induction l as [|t l IHl]; constructor; [apply IH|exact IHl|apply IH|exact IHl].
Qed.

(** The rows of a tree, given those of its fragments; the empty filter has none. *)
Fixpoint treeRows (leaf : QuantaQueryFragment -> Z -> Prop) (t : QuantaFilterExpression) (x : Z) : Prop :=
  match t with
  | FEmpty => False
  | FLeaf f => leaf f x
  | FCandidateSet c => x ∈ cs_Rownums c
  | FIntersect l => foldr (fun t P => treeRows leaf t x /\ P) True l
  | FUnion l => foldr (fun t P => treeRows leaf t x \/ P) False l
  end.

Lemma treeRows_intersect leaf l x : treeRows leaf (FIntersect l) x <-> Forall (fun t => treeRows leaf t x) l.
Proof. cbn [treeRows]. induction l as [|t l IH]; cbn [foldr]; [by split|]. by rewrite Forall_cons, IH. Qed.

Lemma treeRows_union leaf l x : treeRows leaf (FUnion l) x <-> Exists (fun t => treeRows leaf t x) l.
Proof.
  cbn [treeRows]. induction l as [|t l IH]; cbn [foldr]; [by rewrite Exists_nil|]. by rewrite Exists_cons, IH.
Qed.

Section Meaning.

(** The stored integer of a field of a row, and the rows of the table. *)
Context (stored : bytes -> bytes -> Z -> Z -> Prop) (table : Z -> Prop).

(** The rows of a fragment: a null check is about the rows of the table, and so is a
    difference. *)
Definition fragmentRows (f : QuantaQueryFragment) (x : Z) : Prop :=
  if fg_NullCheck f then
    table x /\ (if fg_Negate f then exists v, stored (fg_Index f) (fg_Field f) x v
                else ~ exists v, stored (fg_Index f) (fg_Field f) x v)
  else match fg_Operation f with
       | OperationDifference => table x /\ ~ exists v, stored (fg_Index f) (fg_Field f) x v /\ operandTest f v = true
       | _ => exists v, stored (fg_Index f) (fg_Field f) x v /\ operandTest f v = true
       end.

Definition filterRows : QuantaFilterExpression -> Z -> Prop := treeRows fragmentRows.

Lemma filterRows_intersect l x : filterRows (FIntersect l) x <-> Forall (fun t => filterRows t x) l.
Proof. apply treeRows_intersect. Qed.

Lemma filterRows_union l x : filterRows (FUnion l) x <-> Exists (fun t => filterRows t x) l.
Proof. apply treeRows_union. Qed.

(** ** Merging bounds *)

(** A row has one stored integer per field. *)
Context (Hone : forall index field x v w, stored index field x v -> stored index field x w -> v = w).

Lemma takePair_split {A} (pair : A -> A -> bool) a l b l' : takePair pair a l = Some (b, l') ->
  pair a b = true /\ l ≡ₚ b :: l'.
Proof.
  revert l'. induction l as [|c l IH]; intros l' E; [done|]. cbn in E. destruct (pair a c) eqn:Ep.
  - by injection E as -> ->.
  - destruct (takePair pair a l) as [[d r]|]; [|done]. cbn in E. injection E as -> <-.
    destruct (IH r eq_refl) as [Hp ->]. split; [done|]. apply perm_swap.
Qed.

Lemma coalesceFrom_forall {A} (P : A -> Prop) pair merge :
  (forall a b, pair a b = true -> P (merge a b) <-> P a /\ P b) ->
  forall fuel l, Forall P (coalesceFrom pair merge fuel l) <-> Forall P l.
Proof.
  intros Hm. induction fuel as [|fuel IH]; intros [|a l]; cbn [coalesceFrom]; [done..|].
  destruct (takePair pair a l) as [[b r]|] eqn:E; rewrite !Forall_cons, IH; [|done].
  apply takePair_split in E as [Hp ->]. rewrite Forall_cons, Hm by done. tauto.
Qed.

Lemma stored_both index field x (P Q : Z -> bool) : (exists v, stored index field x v /\ (P v && Q v) = true) <->
  (exists v, stored index field x v /\ P v = true) /\ (exists v, stored index field x v /\ Q v = true).
Proof.
  split; [intros (v & Hv & [? ?]%andb_true_iff); split; by exists v|]. intros [[u [Hv HP]] [w [Hw HQ]]]. exists u.
  rewrite (Hone _ _ _ _ _ Hw Hv) in HQ. by rewrite HP, HQ.
Qed.

(** Two opposite bounds of a field, and the range they make. *)
Lemma range_pair_rows l r x : quantaIntermediateRangePair l r = true ->
  fragmentRows (quantaIntermediateRangeFragment l r) x <-> fragmentRows l x /\ fragmentRows r x.
Proof.
  unfold quantaIntermediateRangePair, quantaIntermediateSameRangeField. intros Hp. b2p. destruct_and?. b2p.
  repeat match goal with H : bool_decide _ = true |- _ => apply bool_decide_eq_true in H end.
  destruct l as [li lr lf lop lb [lv|] ? ? ? ? ? ? ? ? ? ?], r as [ri rr rf rop rb [rv|] ? ? ? ? ? ? ? ? ? ?];
    cbn in *; simplify_eq; try (by match goal with H : is_Some None |- _ => destruct H end).
  repeat match goal with H : ?b = false |- _ => is_var b; subst b end.
  unfold fragmentRows, quantaIntermediateRangeFragment, operandTest.
  destruct lb, rb; cbn in *; try (exfalso; naive_solver); rewrite <- stored_both; apply exist_proper; intros v;
    apply and_iff_compat_l; rewrite !andb_true_iff;
    unfold quantaIntermediateInclusiveLowerBound, quantaIntermediateInclusiveUpperBound; repeat case_decide; try done; lia.
Qed.

Lemma leafPair_rows a b x : leafPair a b = true -> filterRows (leafRange a b) x <-> filterRows a x /\ filterRows b x.
Proof. destruct a, b; try done. apply range_pair_rows. Qed.

(** A tree in which every node has children, and no filter is empty. *)
Fixpoint properFilter (t : QuantaFilterExpression) : bool :=
  match t with
  | FEmpty => false
  | FLeaf _ | FCandidateSet _ => true
  | FIntersect l | FUnion l => negb (bool_decide (length l = 0%nat)) && forallb properFilter l
  end.

Lemma proper_children l : (negb (bool_decide (length l = 0%nat)) && forallb properFilter l) = true <->
  l <> [] /\ Forall (fun t => properFilter t = true) l.
Proof.
  rewrite andb_true_iff, negb_true_iff, bool_decide_eq_false, forallb_forall, Forall_forall.
  setoid_rewrite list_elem_of_In. destruct l; cbn; naive_solver.
Qed.

(** The conjuncts of a proper tree are proper, not empty, and mean the same. *)
Lemma conjuncts_rows t : properFilter t = true ->
  filterDomainConjunctsForFactoring t <> [] /\
  Forall (fun c => properFilter c = true) (filterDomainConjunctsForFactoring t) /\
  forall x, Forall (fun c => filterRows c x) (filterDomainConjunctsForFactoring t) <-> filterRows t x.
Proof.
  induction t as [| | |l IH|l] using filter_ind'; intros Hp; [done|..].
  1-2,4: cbn [filterDomainConjunctsForFactoring]; split_and!; [done|by repeat constructor|];
    intros x; by rewrite Forall_singleton.
  apply proper_children in Hp as [Hne Hp]. cbn [filterDomainConjunctsForFactoring].
  setoid_rewrite filterRows_intersect. induction Hp as [|t l Ht Hl IHl]; [done|]. clear Hne.
  apply Forall_cons in IH as [IHt IH]. destruct (IHt Ht) as (Hne & Hprop & Hrows). cbn [map concat].
  destruct (decide (l = [])) as [->|Hn].
  { cbn [map concat]. rewrite app_nil_r. split_and!; [done..|]. intros x. by rewrite Hrows, Forall_singleton. }
  destruct (IHl IH Hn) as (Hne' & Hprop' & Hrows'). split_and!.
  - intros [E _]%app_eq_nil. done.
  - by apply Forall_app.
  - intros x. by rewrite Forall_app, Forall_cons, Hrows, Hrows'.
Qed.

Lemma conjunct_expression_rows l x : l <> [] ->
  filterRows (filterDomainConjunctExpression l) x <-> Forall (fun c => filterRows c x) l.
Proof.
  destruct l as [|t [|t' l]]; [done|intros _; by rewrite Forall_singleton|intros _].
  change (filterDomainConjunctExpression _) with (FIntersect (t :: t' :: l)). apply filterRows_intersect.
Qed.

Lemma coalesceFrom_nonempty {A} (pair : A -> A -> bool) merge fuel l : l <> [] -> coalesceFrom pair merge fuel l <> [].
Proof. destruct fuel, l; [done..|]. cbn. by destruct (takePair _ _ _) as [[? ?]|]. Qed.

Lemma coalesce_rows t : properFilter t = true ->
  properFilter (quantaIntermediateCoalesceFilterRanges t) = true /\
  forall x, filterRows (quantaIntermediateCoalesceFilterRanges t) x <-> filterRows t x.
Proof.
  induction t as [| | |l IH|l IH] using filter_ind'; intros Hp; try done.
  all: apply proper_children in Hp as [Hne Hp].
  all: set (g := quantaIntermediateCoalesceFilterRanges) in *.
  all: assert (Forall (fun t => properFilter (g t) = true /\ forall x, filterRows (g t) x <-> filterRows t x) l) as Hg
    by (rewrite Forall_forall in IH, Hp |- *; intros t Ht; by apply IH, Hp).
  all: assert (properFilter (FIntersect (map g l)) = true) as Hmap
    by (apply proper_children; split; [by destruct l|]; rewrite Forall_map; by eapply Forall_impl; [exact Hg|intros ? [? ?]]).
  - assert (g (FIntersect l) = let conjuncts := filterDomainConjunctsForFactoring (FIntersect (map g l)) in
      if (length conjuncts <? 2)%nat then FIntersect (map g l)
      else filterDomainConjunctExpression (coalesceFrom leafPair leafRange (length conjuncts) conjuncts)) as ->
      by (by destruct l).
    cbn zeta. set (conjuncts := filterDomainConjunctsForFactoring _).
    destruct (conjuncts_rows _ Hmap) as (Hcn & Hcp & Hcr).
    assert (forall x, filterRows (FIntersect (map g l)) x <-> filterRows (FIntersect l) x) as Hrows.
    { intros x. rewrite !filterRows_intersect, Forall_map. rewrite !Forall_forall. rewrite Forall_forall in Hg. naive_solver. }
    destruct (length conjuncts <? 2)%nat; [done|]. split.
    + assert (Forall (fun c => properFilter c = true) (coalesceFrom leafPair leafRange (length conjuncts) conjuncts)) as Hc.
      { apply coalesceFrom_forall; [|done]. by intros [] []. }
      pose proof (coalesceFrom_nonempty leafPair leafRange (length conjuncts) conjuncts Hcn) as Hn.
      destruct (coalesceFrom _ _ _ _) as [|c [|c' r]]; [done|by inversion Hc|]. by apply proper_children.
    + intros x. rewrite conjunct_expression_rows by by apply coalesceFrom_nonempty.
      rewrite coalesceFrom_forall by (intros; by apply leafPair_rows). unfold conjuncts. by rewrite Hcr.
  - split; [done|]. intros x. cbn [g quantaIntermediateCoalesceFilterRanges]. fold g. rewrite !filterRows_union, Exists_map.
    rewrite !Exists_exists. rewrite Forall_forall in Hg. naive_solver.
Qed.

Lemma coalesce_fragments_rows fragments x :
  Forall (fun f => fragmentRows f x) (quantaIntermediateCoalesceRanges fragments) <->
  Forall (fun f => fragmentRows f x) fragments.
Proof. apply coalesceFrom_forall. intros. by apply range_pair_rows. Qed.

(** C11. Merging opposite bounds of a field into ranges keeps the rows, both of a conjunction
    of fragments and of a filter tree, whatever bounds are merged and in which order. *)
Theorem coalescing_preserves_rows fragments t x : properFilter t = true ->
  (Forall (fun f => fragmentRows f x) (quantaIntermediateCoalesceRanges fragments) <->
   Forall (fun f => fragmentRows f x) fragments) /\
  (filterRows (quantaIntermediateCoalesceFilterRanges t) x <-> filterRows t x).
Proof. intros Hp. split; [apply coalesce_fragments_rows|by apply coalesce_rows]. Qed.

End Meaning.

(** ** Conditions of WHERE *)

(** The contents of a cell that an index stores as an integer. *)
Inductive cell : Type := CInt (z : Z) | CText (s : bytes).

#[warnings="-register-all"]
Inductive sqlCondition : Type :=
  | SCompare (op : BinaryOp) (field : FieldRef) (operand : Expr) (mirrored : bool)
  | SBetween (field : FieldRef) (lower upper : Expr) (negated : bool)
  | SIn (field : FieldRef) (items : list Expr)
  | SNull (field : FieldRef) (negated : bool)
  | SText (field : FieldRef) (operand : Expr) (negated : bool)
  | SPrefix (field : FieldRef) (pattern : Expr) (negated : bool)
  | SAnd (l r : sqlCondition)
  | SOr (l r : sqlCondition).

(** The expression of a condition. *)
Fixpoint exprOf (c : sqlCondition) : Expr :=
  match c with
  | SCompare op field operand mirrored =>
    if mirrored then EBinary op operand (EField field) else EBinary op (EField field) operand
  | SBetween field lower upper negated =>
    EBinary (if negated then OpNotBetween else OpBetween) (EField field) (EList [lower; upper])
  | SIn field items => EBinary OpIn (EField field) (EList items)
  | SNull field negated => EBinary (if negated then OpNotEqual else OpEqual) (EField field) (ELiteral (mkLiteral ValueNull GNil))
  | SText field operand negated => EBinary (if negated then OpNotEqual else OpEqual) (EField field) operand
  | SPrefix field pattern negated => EBinary (if negated then OpNotLike else OpLike) (EField field) pattern
  | SAnd l r => EBinary OpAnd (exprOf l) (exprOf r)
  | SOr l r => EBinary OpOr (exprOf l) (exprOf r)
  end.

Definition compares (op : BinaryOp) (a b : Z) : bool :=
  match op with
  | OpEqual => a =? b | OpNotEqual => negb (a =? b) | OpLess => a <? b | OpLessEqual => a <=? b
  | OpGreater => b <? a | OpGreaterEqual => b <=? a | _ => false
  end.

(** Fields of integers and of short strings. *)
Definition integerField (field : FieldRef) : bool :=
  bool_decide (fr_Index field = IndexBSI) && bool_decide (fr_Type field = DataTypeInt) &&
  (en_Scale (fr_Encoding field) <=? 0) && negb (isStringLexBSI field).

Definition textField (field : FieldRef) : bool :=
  bool_decide (fr_Index field = IndexBSI) && isStringLexBSI field && (0 <? en_PrefixLength (fr_Encoding field)) &&
  negb (needsRemainder field).

(** The integer that stands for a cell. *)
Definition encodes (field : FieldRef) (c : cell) (v : Z) : Prop :=
  match c with
  | CInt z => integerField field = true /\ v = z
  | CText s => textField field = true /\ plainText (en_PrefixLength (fr_Encoding field)) s /\
               v = quantaIntermediateStringLexBSIValue s (en_PrefixLength (fr_Encoding field))
  end.

Definition units (z : Z) : Z := z * f64_one.

(** The number a literal stands for, in units of [f64_one]; floats with an int64. *)
Definition numberOf (l : LiteralExpr) : option Z :=
  if decide (lt_Kind l = ValueNull) then None else
  match lt_Value l with
  | GInt _ z => Some (units z)
  | GBigInt z => units <$> z
  | GFloat64 bits =>
    if negb (f64_exponent bits =? 2047) && (Z.abs (float64_value bits) <=? units (2 ^ 63 - 1))
    then Some (float64_value bits) else None
  | GString s => let value := TrimSpace s in
                 if decide (value = []) then None else units <$> BigInt_SetString value
  | _ => None
  end.

Definition isInteger (r : Z) : bool := r mod f64_one =? 0.

Section Conditions.

Context `{TextLib} (now : Time) (parameters : list ParameterBinding).

Definition literalOf (e : Expr) : option LiteralExpr :=
  if quantaIntermediateValueExpr e
  then match quantaIntermediateValue now e parameters with Lowered l => Some l | _ => None end else None.

Definition operandNumber (e : Expr) : option Z := literalOf e ≫= numberOf.
Definition operandText (e : Expr) : option bytes :=
  l ← literalOf e; asString l.

(** The prefix of a pattern that ends in a percent sign and has no other. *)
Definition patternPrefix (e : Expr) : option bytes :=
  p ← operandText e;
  match simpleLikePattern p with likePatternPrefix => Some (removelast p) | _ => None end.

(** The conditions the theorems are about: comparisons of integer fields with numbers,
    for equality with integers, and of short strings with short strings. *)
Fixpoint supported (c : sqlCondition) : bool :=
  match c with
  | SCompare op field operand _ =>
    integerField field && quantaIntermediateSupportedComparison op &&
    match operandNumber operand with
    | Some r => isInteger r || negb (bool_decide (op = OpEqual \/ op = OpNotEqual))
    | None => false
    end
  | SBetween field lower upper _ =>
    integerField field && default false (isInteger <$> operandNumber lower) && default false (isInteger <$> operandNumber upper)
  | SIn field items =>
    integerField field && negb (bool_decide (length items = 0%nat)) &&
    forallb (fun e => default false (isInteger <$> operandNumber e)) items
  | SNull field _ => integerField field || textField field
  | SText field operand _ =>
    textField field &&
    match operandText operand with
    | Some s => bool_decide (plainText (en_PrefixLength (fr_Encoding field)) s) | None => false
    end
  | SPrefix field pattern _ =>
    textField field &&
    match patternPrefix pattern with
    | Some p => negb (bool_decide (p = [])) && bool_decide (plainText (en_PrefixLength (fr_Encoding field)) p)
    | None => false
    end
  | SAnd l r | SOr l r => supported l && supported r
  end.

(** The fields a condition names. *)
Fixpoint fieldsOf (c : sqlCondition) : list FieldRef :=
  match c with
  | SCompare _ field _ _ | SBetween field _ _ _ | SIn field _ | SNull field _ | SText field _ _ | SPrefix field _ _ => [field]
  | SAnd l r | SOr l r => fieldsOf l ++ fieldsOf r
  end.

Section Rows.

(** The contents of the table by index, field and row, and its rows. *)
Context (contents : bytes -> bytes -> Z -> option cell) (table : Z -> Prop).

Definition cellOf (field : FieldRef) (x : Z) : option cell :=
  contents (ti_Table (fr_Table field)) (quantaIntermediateFieldName field) x.

(** A test of the cell of a row; its negation holds for the other rows of the table,
    also for those without a cell. *)
Definition cellTest (field : FieldRef) (negated : bool) (test : cell -> Prop) (x : Z) : Prop :=
  let positive := exists c, cellOf field x = Some c /\ test c in
  if negated then table x /\ ~ positive else positive.

Definition integerTest (test : Z -> bool) (c : cell) : Prop := match c with CInt z => test z = true | CText _ => False end.
Definition textTest (test : bytes -> Prop) (c : cell) : Prop := match c with CText s => test s | CInt _ => False end.

Fixpoint conditionRows (c : sqlCondition) (x : Z) : Prop :=
  match c with
  | SCompare op field operand mirrored =>
    let r := default 0 (operandNumber operand) in
    if decide (op = OpNotEqual) then cellTest field true (integerTest (fun z => units z =? r)) x
    else cellTest field false (integerTest (fun z => if mirrored then compares op r (units z) else compares op (units z) r)) x
  | SBetween field lower upper negated =>
    cellTest field negated (integerTest (fun z => (default 0 (operandNumber lower) <=? units z) &&
                                                  (units z <=? default 0 (operandNumber upper)))) x
  | SIn field items =>
    cellTest field false (integerTest (fun z => existsb (fun e => bool_decide (operandNumber e = Some (units z))) items)) x
  | SNull field negated =>
    table x /\ (if negated then is_Some (cellOf field x) else cellOf field x = None)
  | SText field operand negated => cellTest field negated (textTest (fun s => operandText operand = Some s)) x
  | SPrefix field pattern negated =>
    cellTest field negated (textTest (fun s => exists p, patternPrefix pattern = Some p /\ p `prefix_of` s)) x
  | SAnd l r => conditionRows l x /\ conditionRows r x
  | SOr l r => conditionRows l x \/ conditionRows r x
  end.

End Rows.

(** ** Numbers *)

Lemma units_le a b : units a <= units b <-> a <= b.
Proof. unfold units. assert (0 < f64_one) by (apply Z.pow_pos_nonneg; lia). nia. Qed.

Lemma units_lt a b : units a < units b <-> a < b.
Proof. unfold units. assert (0 < f64_one) by (apply Z.pow_pos_nonneg; lia). nia. Qed.

Lemma units_div r : units (r / f64_one) <= r < units (r / f64_one + 1).
Proof.
  unfold units. assert (0 < f64_one) by (apply Z.pow_pos_nonneg; lia).
  pose proof (Z.mul_div_le r f64_one). pose proof (Z.mul_succ_div_gt r f64_one). nia.
Qed.

Lemma units_integer r : isInteger r = true -> units (r / f64_one) = r.
Proof.
  unfold isInteger, units. intros E%Z.eqb_eq. assert (f64_one <> 0) by (apply Z.pow_nonzero; lia).
  pose proof (Z.div_mod r f64_one). lia.
Qed.

Lemma units_compares op a b : compares op (units a) (units b) = compares op a b.
Proof.
  pose proof (units_le a b). pose proof (units_le b a). pose proof (units_lt a b). pose proof (units_lt b a).
  destruct op; try done; cbn; lia.
Qed.

Lemma isInteger_units z : isInteger (units z) = true.
Proof. unfold isInteger, units. apply Z.eqb_eq, Z.mod_mul, Z.pow_nonzero; lia. Qed.

(** An integer operand is what it stands for. *)
Lemma BigInt_number l r : numberOf l = Some r -> isInteger r = true -> quantaIntermediateBigInt l = Some (r / f64_one).
Proof.
  assert (forall z, units z / f64_one = z) as Hu by (intros z; apply Z.div_mul, Z.pow_nonzero; lia).
  unfold numberOf, quantaIntermediateBigInt. case_decide; [done|]. destruct (lt_Value l) as [| | | |bits|s| |[z|]| |]; try done.
  - intros [= <-] _. by rewrite Hu.
  - case_if; [|done]. b2p. intros [= <-] Hi. assert (f64_integral bits = true) as ->.
    { unfold f64_integral, f64_nan, f64_inf. destruct_and?. b2p.
      rewrite (proj2 (Z.eqb_neq _ _)) by done. cbn. exact Hi. }
    unfold int64_of_f64. destruct_and?. b2p. if_false. f_equal.
    pose proof (units_integer _ Hi) as E'. assert (0 < f64_one) by (apply Z.pow_pos_nonneg; lia).
    set (q := float64_value bits / f64_one) in *. rewrite <- E'. unfold units at 1. rewrite Z.quot_mul by lia.
    assert (Z.abs q <= 2 ^ 63 - 1).
    { rewrite <- E' in *. unfold units in *. nia. }
    unfold int64_of_Z. if_true. done.
  - case_decide; [done|]. destruct (BigInt_SetString _) as [z|]; [|done]. intros [= <-] _. by rewrite Hu.
  - intros [= <-] _. by rewrite Hu.
Qed.

Lemma integerField_parts field : integerField field = true ->
  fr_Index field = IndexBSI /\ fr_Type field = DataTypeInt /\ en_Scale (fr_Encoding field) <= 0 /\ isStringLexBSI field = false.
Proof.
  unfold integerField. intros Hf. b2p. destruct_and?. b2p.
  repeat match goal with H : bool_decide _ = true |- _ => apply bool_decide_eq_true in H end. done.
Qed.

Lemma textField_parts field : textField field = true ->
  fr_Index field = IndexBSI /\ isStringLexBSI field = true /\ 0 < en_PrefixLength (fr_Encoding field) /\ needsRemainder field = false.
Proof.
  unfold textField. intros Hf. b2p. destruct_and?. b2p.
  repeat match goal with H : bool_decide _ = true |- _ => apply bool_decide_eq_true in H end. done.
Qed.

Lemma int64_small z : Z.abs z <= 2 ^ 63 - 1 -> int64_of_Z z = z.
Proof. intros Hz. unfold int64_of_Z. by if_true. Qed.

(** Comparisons of integers with a number between two integers. *)
Lemma floor_compares op z r : isInteger r = false -> op <> OpEqual -> op <> OpNotEqual ->
  quantaIntermediateSupportedComparison op = true ->
  compares op z (match op with OpLess | OpGreaterEqual => - (- r / f64_one) | _ => r / f64_one end) = compares op (units z) r.
Proof.
  intros Hr H1 H2 Hop. pose proof (units_div r) as Hd. assert (0 < f64_one) by (apply Z.pow_pos_nonneg; lia).
  assert (- (- r / f64_one) = r / f64_one + 1) as E.
  { unfold isInteger in Hr. apply Z.eqb_neq in Hr. rewrite Z.div_opp_l_nz by lia. lia. }
  assert (units (r / f64_one) < r) as Hlt.
  { unfold isInteger in Hr. apply Z.eqb_neq in Hr. pose proof (Z.div_mod r f64_one). pose proof (Z.mod_pos_bound r f64_one).
    unfold units. lia. }
  set (q := r / f64_one) in *. pose proof (units_le z q). pose proof (units_le (q + 1) z).
  destruct op; try done; cbn; rewrite ?E; lia.
Qed.

Lemma units_bound r M : Z.abs r <= units M -> Z.abs (r / f64_one) <= M.
Proof.
  intros Hr. pose proof (units_div r). assert (units (- M) = - units M) by (unfold units; lia).
  pose proof (units_lt (- M) (r / f64_one + 1)). pose proof (units_le (r / f64_one) M). lia.
Qed.

(** A literal that is not a float with a fraction is compared as it is. *)
Lemma discrete_integer op l r : numberOf l = Some r -> isInteger r = true ->
  quantaIntermediateNormalizeDiscreteNumericComparison op l = Lowered (op, l).
Proof.
  intros Hn Hr. unfold quantaIntermediateNormalizeDiscreteNumericComparison, quantaIntermediateFloat64Literal.
  unfold numberOf in Hn. case_decide; [done|]. destruct (lt_Value l) as [| | | |bits| | | | |]; try done.
  destruct (negb _ && _) eqn:Ev in Hn; [|done]. injection Hn as <-. b2p. destruct_and?. b2p.
  unfold f64_integral, f64_inf, f64_nan. rewrite (proj2 (Z.eqb_neq (f64_exponent bits) 2047)) by done.
  unfold isInteger in Hr. cbn [andb orb negb]. by rewrite Hr.
Qed.

(** The literal of a number with a fraction is a float64. *)
Lemma fraction_float l r : numberOf l = Some r -> isInteger r = false ->
  exists bits, lt_Value l = GFloat64 bits /\ r = float64_value bits /\ f64_integral bits = false /\ f64_nan bits = false /\
    Z.abs r <= units (2 ^ 63 - 1).
Proof.
  unfold numberOf. intros Hn Hr. case_decide; [done|]. destruct (lt_Value l) as [| |t z| |bits|s| |[z|]| |] eqn:Ev; try done.
  - injection Hn as <-. by rewrite isInteger_units in Hr.
  - destruct (negb _ && _) eqn:Eb in Hn; [|done]. injection Hn as <-. b2p. destruct_and?. b2p. exists bits.
    unfold f64_integral, f64_inf, f64_nan. rewrite (proj2 (Z.eqb_neq (f64_exponent bits) 2047)) by done. by split_and!.
  - case_decide; [done|]. destruct (BigInt_SetString _) as [z|]; [|done]. injection Hn as <-. by rewrite isInteger_units in Hr.
  - injection Hn as <-. by rewrite isInteger_units in Hr.
Qed.

Lemma discrete_fraction op l r : numberOf l = Some r -> isInteger r = false -> op <> OpEqual -> op <> OpNotEqual ->
  quantaIntermediateSupportedComparison op = true ->
  quantaIntermediateNormalizeDiscreteNumericComparison op l =
    Lowered (op, intLiteral (match op with OpLess | OpGreaterEqual => - (- r / f64_one) | _ => r / f64_one end)).
Proof.
  intros Hn Hr H1 H2 Hop. destruct (fraction_float l r Hn Hr) as (bits & Ev & -> & Hint & Hnan & Hb).
  unfold quantaIntermediateNormalizeDiscreteNumericComparison, quantaIntermediateFloat64Literal. rewrite Ev, Hint, Hnan.
  pose proof (units_bound _ _ Hb). pose proof (units_bound (- float64_value bits) (2 ^ 63 - 1)) as Hm. rewrite Z.abs_opp in Hm.
  specialize (Hm Hb). unfold f64_floor, f64_ceil. rewrite !int64_small by lia. by destruct op.
Qed.

(** The operator and the operand of a comparison with a number keep their meaning. *)
Lemma normalize_number op field l r : integerField field = true -> numberOf l = Some r ->
  quantaIntermediateSupportedComparison op = true ->
  isInteger r || negb (bool_decide (op = OpEqual \/ op = OpNotEqual)) = true ->
  exists l' b, normalizeComparison now op field l = Lowered (op, l') /\ quantaIntermediateBigInt l' = Some b /\
    forall z, compares op z b = compares op (units z) r.
Proof.
  intros (Hi & Ht & Hs & _)%integerField_parts Hn Hop Heq. unfold normalizeComparison.
  rewrite decide_False by congruence. cbn [mbind outcome_bind]. assert ((0 <? en_Scale (fr_Encoding field)) = false) as -> by lia.
  cbn [mbind outcome_bind]. rewrite (decide_True (P := _ = DataTypeInt)) by done. destruct (isInteger r) eqn:Er.
  - exists l, (r / f64_one). rewrite (discrete_integer op l r) by done.
    cbn [mbind outcome_bind]. rewrite decide_False by congruence. split_and!; [done|by apply BigInt_number|].
    intros z. by rewrite <- units_compares, units_integer.
  - cbn [orb] in Heq. b2p. apply bool_decide_eq_false in Heq. rewrite (discrete_fraction op l r) by naive_solver.
    cbn [mbind outcome_bind]. rewrite decide_False by congruence. do 2 eexists. split_and!; [done..|].
    intros z. apply floor_compares; naive_solver.
Qed.

(** ** Conditions to fragments *)

(** A fragment that the runtime can send: its operands are there, and it is an
    intersection or a difference; a null check has no comparison. *)
Definition sendable (f : QuantaQueryFragment) : bool :=
  bool_decide (fg_Operation f = OperationIntersect \/ fg_Operation f = OperationDifference) && negb (fg_ShardWindow f) &&
  (if fg_NullCheck f then bool_decide (fg_BSIOp f = BSIOpNone) && bool_decide (fg_Operation f = OperationIntersect)
   else match fg_BSIOp f with
        | BSIOpNone => false
        | BSIOpRange => bool_decide (is_Some (fg_Begin f)) && bool_decide (is_Some (fg_End f))
        | BSIOpBatchEQ => negb (bool_decide (length (fg_Values f) = 0%nat))
        | _ => bool_decide (is_Some (fg_Value f))
        end).

Definition onField (field : FieldRef) (f : QuantaQueryFragment) : Prop :=
  fg_Index f = ti_Table (fr_Table field) /\ fg_Field f = quantaIntermediateFieldName field /\ sendable f = true.

Context (Dictionaries : option DictionaryResolver).

Lemma combinator_plain p (m : outcome QuantaQueryFragment) : pd_Combinator p <> CombinatorOr ->
  (fragment ← m; mret (quantaIntermediateApplyCombinator fragment p)) = m.
Proof.
  intros Hp. destruct m; [|done..]. cbn. unfold quantaIntermediateApplyCombinator. rewrite decide_False; [done|]. tauto.
Qed.

(** Of the attempts on a predicate with [op] between a field and a value, the comparison
    is the one that applies. *)
Lemma lower_comparison p op field e (mirrored : bool) : pd_Combinator p <> CombinatorOr ->
  pd_Expr p = (if mirrored then EBinary op e (EField field) else EBinary op (EField field) e) ->
  quantaIntermediateSupportedComparison op = true -> quantaIntermediateValueExpr e = true -> isStringEnum field = false ->
  lowerPredicate now Dictionaries p parameters = lowerComparison now p parameters /\
  quantaIntermediateComparisonParts (pd_Expr p) =
    Some (if mirrored then default op (quantaIntermediateReverseComparison op) else op, field, e).
Proof.
  intros Hp Ep Hop He Hf. unfold lowerPredicate. rewrite combinator_plain by done. destruct p as [expr pl sc co].
  cbn in Ep. subst expr. split.
  - unfold lowerTextSearchPredicate, lowerBetweenPredicate, lowerStringLexBSILikePredicate, lowerStringEnumPredicate,
      lowerStringEnumInPredicate, lowerStringEnumLikePredicate, lowerInPredicate, quantaIntermediateStringEnumComparisonParts.
    destruct mirrored, op, e; try done; cbn; by rewrite Hf.
  - by destruct mirrored, op, e.
Qed.

Section Exact.

Context (stored : bytes -> bytes -> Z -> Z -> Prop) (table : Z -> Prop) (contents : bytes -> bytes -> Z -> option cell).

(** The index stores the cells of a field, each as its integer. *)
Definition represents (field : FieldRef) : Prop := forall x,
  (forall v, stored (ti_Table (fr_Table field)) (quantaIntermediateFieldName field) x v <->
    exists c, cellOf contents field x = Some c /\ encodes field c v) /\
  (forall c, cellOf contents field x = Some c -> exists v, encodes field c v).

(** The fragment of a condition on a field. *)
Definition lowersTo (field : FieldRef) (p : Predicate) (rows : Z -> Prop) : Prop :=
  exists f, lowerPredicate now Dictionaries p parameters = Lowered f /\ onField field f /\
    forall x, fragmentRows stored table f x <-> rows x.

Lemma fragment_test field f (negated : bool) (test : cell -> Prop) x : represents field -> onField field f ->
  fg_NullCheck f = false -> fg_Operation f = (if negated then OperationDifference else OperationIntersect) ->
  (forall c v, encodes field c v -> test c <-> operandTest f v = true) ->
  fragmentRows stored table f x <-> cellTest contents table field negated test x.
Proof.
  intros Hrep (Ei & Ef & _) En Eo Ht. destruct (Hrep x) as [Hs Hc]. unfold fragmentRows, cellTest. rewrite En, Eo, Ei, Ef.
  assert ((exists v, stored (ti_Table (fr_Table field)) (quantaIntermediateFieldName field) x v /\ operandTest f v = true) <->
    exists c, cellOf contents field x = Some c /\ test c) as E.
  { setoid_rewrite Hs. split.
    - intros (v & (c & Ec & He) & Hv). exists c. split; [done|]. by apply (Ht c v).
    - intros (c & Ec & Htest). destruct (Hc c Ec) as [v He]. exists v. split; [by exists c|]. by apply (Ht c v). }
  destruct negated; by rewrite E.
Qed.

Lemma integer_test field f (negated : bool) (test : Z -> bool) x : represents field -> onField field f ->
  integerField field = true -> fg_NullCheck f = false ->
  fg_Operation f = (if negated then OperationDifference else OperationIntersect) ->
  (forall z, test z = operandTest f z) ->
  fragmentRows stored table f x <-> cellTest contents table field negated (integerTest test) x.
Proof.
  intros Hrep Hon Hf En Eo Ht. apply fragment_test; [done..|]. intros [z|s] v; cbn [encodes integerTest].
  - intros [_ ->]. by rewrite Ht.
  - intros [Htf _]. apply textField_parts in Htf as (_ & E1 & _). apply integerField_parts in Hf as (_ & _ & _ & E2). congruence.
Qed.

Lemma text_test field f (negated : bool) (test : bytes -> Prop) x : represents field -> onField field f ->
  textField field = true -> fg_NullCheck f = false ->
  fg_Operation f = (if negated then OperationDifference else OperationIntersect) ->
  (forall s, plainText (en_PrefixLength (fr_Encoding field)) s ->
    test s <-> operandTest f (quantaIntermediateStringLexBSIValue s (en_PrefixLength (fr_Encoding field))) = true) ->
  fragmentRows stored table f x <-> cellTest contents table field negated (textTest test) x.
Proof.
  intros Hrep Hon Hf En Eo Ht. apply fragment_test; [done..|]. intros [z|s] v; cbn [encodes textTest].
  - intros [Hif _]. apply textField_parts in Hf as (_ & E1 & _). apply integerField_parts in Hif as (_ & _ & _ & E2). congruence.
  - intros (_ & Hs & ->). by apply Ht.
Qed.

Lemma literalOf_value e l : literalOf e = Some l -> quantaIntermediateValueExpr e = true /\
  quantaIntermediateValue now e parameters = Lowered l.
Proof.
  unfold literalOf. destruct (quantaIntermediateValueExpr e); [|done].
  destruct (quantaIntermediateValue now e parameters); [|done..]. by intros [= ->].
Qed.

Lemma operandNumber_literal e r : operandNumber e = Some r -> exists l, quantaIntermediateValueExpr e = true /\
  quantaIntermediateValue now e parameters = Lowered l /\ numberOf l = Some r /\ lt_Kind l <> ValueNull.
Proof.
  unfold operandNumber. destruct (literalOf e) as [l|] eqn:El; [|done]. cbn. intros Hn.
  apply literalOf_value in El as [Hv Hl]. exists l. split_and!; [done..|].
  intros E. unfold numberOf in Hn. by rewrite decide_True in Hn.
Qed.

(** A field with one of the two representations is not a dictionary. *)
Lemma bsi_not_enum field : fr_Index field = IndexBSI -> isStringEnum field = false.
Proof. intros E. unfold isStringEnum. by rewrite E. Qed.

(** The operator seen from the field. *)
Definition fieldOp (op : BinaryOp) (mirrored : bool) : BinaryOp :=
  if mirrored then default op (quantaIntermediateReverseComparison op) else op.

Lemma fieldOp_spec op mirrored : quantaIntermediateSupportedComparison op = true ->
  quantaIntermediateSupportedComparison (fieldOp op mirrored) = true /\
  (fieldOp op mirrored = OpNotEqual <-> op = OpNotEqual) /\
  bool_decide (fieldOp op mirrored = OpEqual \/ fieldOp op mirrored = OpNotEqual) = bool_decide (op = OpEqual \/ op = OpNotEqual) /\
  forall a b, compares (fieldOp op mirrored) a b = if mirrored then compares op b a else compares op a b.
Proof. destruct mirrored, op; try done; intros _; split_and!; try done; intros a b; cbn; lia. Qed.

Lemma comparison_test field op (b : Z) l z : quantaIntermediateSupportedComparison op = true ->
  operandTest (comparisonFragment field op b l) z = (if decide (op = OpNotEqual) then z =? b else compares op z b).
Proof. by destruct op. Qed.

Lemma comparison_sendable field op b l : quantaIntermediateSupportedComparison op = true ->
  sendable (comparisonFragment field op b l) = true.
Proof. by destruct op. Qed.

Lemma lower_compare p op field e mirrored : pd_Combinator p <> CombinatorOr ->
  pd_Expr p = exprOf (SCompare op field e mirrored) -> supported (SCompare op field e mirrored) = true -> represents field ->
  lowersTo field p (conditionRows contents table (SCompare op field e mirrored)).
Proof.
  intros Hp Ep Hs Hrep. cbn [supported] in Hs. apply andb_true_iff in Hs as [[Hf Hop]%andb_true_iff Hr].
  destruct (operandNumber e) as [r|] eqn:Er; [|done]. destruct (operandNumber_literal e r Er) as (l & Hv & Hl & Hn & Hk).
  destruct (fieldOp_spec op mirrored Hop) as (Hop' & Hne & Heq & Hcmp). rewrite <- Heq in Hr.
  destruct (normalize_number _ field l r Hf Hn Hop' Hr) as (l' & b & En & Eb & Hb).
  pose proof (integerField_parts field Hf) as (Ei & Et & _ & Elex).
  destruct (lower_comparison p op field e mirrored Hp Ep Hop Hv (bsi_not_enum _ Ei)) as [Elow Eparts].
  fold (fieldOp op mirrored) in Eparts. exists (comparisonFragment field (fieldOp op mirrored) b l). split_and!.
  - rewrite Elow. unfold lowerComparison. rewrite Eparts, Hl. cbn [mbind outcome_bind]. rewrite decide_False by done.
    rewrite Elex, Et, Ei. cbn [bool_decide negb andb]. rewrite En. cbn [mbind outcome_bind]. by rewrite Eb.
  - split_and!; [done..|]. by apply comparison_sendable.
  - intros x. cbn [conditionRows]. rewrite Er. cbn [default from_option id].
    assert (onField field (comparisonFragment field (fieldOp op mirrored) b l)) as Hon
      by (split_and!; [done..|]; by apply comparison_sendable).
    destruct (decide (op = OpNotEqual)) as [Ene|Ene].
    + apply integer_test; [done..| |].
      * cbn. by rewrite decide_True by by apply Hne.
      * intros z. rewrite comparison_test by done. rewrite decide_True by by apply Hne.
        assert (fieldOp op mirrored = OpNotEqual) as E by by apply Hne. specialize (Hb z). rewrite E in Hb. cbn in Hb.
        destruct (z =? b), (units z =? r); done.
    + apply integer_test; [done..| |].
      * cbn. rewrite decide_False; [done|]. by rewrite Hne.
      * intros z. rewrite comparison_test, decide_False by (try done; by rewrite Hne). by rewrite Hb, Hcmp.
Qed.

Lemma operandInteger e : default false (isInteger <$> operandNumber e) = true -> exists l z,
  operandNumber e = Some (units z) /\ quantaIntermediateValueExpr e = true /\
  quantaIntermediateValue now e parameters = Lowered l /\ quantaIntermediateBigInt l = Some z.
Proof.
  destruct (operandNumber e) as [r|] eqn:Er; [|done]. cbn. intros Hi.
  destruct (operandNumber_literal e r Er) as (l & Hv & Hl & Hn & _). exists l, (r / f64_one).
  rewrite units_integer by done. split_and!; [done..|]. by apply BigInt_number.
Qed.

Lemma lower_between p field lower upper negated : pd_Combinator p <> CombinatorOr ->
  pd_Expr p = exprOf (SBetween field lower upper negated) -> supported (SBetween field lower upper negated) = true ->
  represents field -> lowersTo field p (conditionRows contents table (SBetween field lower upper negated)).
Proof.
  intros Hp Ep Hs Hrep. cbn [supported] in Hs. apply andb_true_iff in Hs as [[Hf Hlo]%andb_true_iff Hhi].
  destruct (operandInteger lower Hlo) as (l & a & Ea & Vl & Ll & Bl).
  destruct (operandInteger upper Hhi) as (u & b & Eb & Vu & Lu & Bu).
  pose proof (integerField_parts field Hf) as (Ei & Et & Hsc & Elex).
  exists (rangeOfField field (if negated then OperationDifference else OperationIntersect) a b l u). split_and!.
  - unfold lowerPredicate. rewrite combinator_plain by done. unfold lowerTextSearchPredicate, lowerBetweenPredicate. rewrite Ep.
    assert (quantaIntermediateBetweenParts (exprOf (SBetween field lower upper negated)) = Some (field, lower, upper, negated)) as ->
      by (destruct negated; cbn; by rewrite Vl, Vu).
    rewrite Ll, Lu, Ei. cbn [orElse mbind outcome_bind bool_decide negb andb].
    rewrite decide_False by done. assert ((0 <? en_Scale (fr_Encoding field)) = false) as -> by lia.
    cbn [mbind outcome_bind]. rewrite Elex. cbn [mbind outcome_bind]. cbn [fst snd]. rewrite Bl, Bu. done.
  - by destruct negated.
  - intros x. cbn [conditionRows]. rewrite Ea, Eb. cbn [default from_option id]. apply integer_test; try done; [by destruct negated|].
    intros z. cbn. pose proof (units_le a z). pose proof (units_le z b). lia.
Qed.

(** The integers of the items of a list. *)
Lemma mapOutcome_integers {B} (f : Expr -> outcome B) (g : B -> Z) items :
  (forall e, e ∈ items -> exists b z, f e = Lowered b /\ g b = z /\ operandNumber e = Some (units z)) ->
  exists bs, mapOutcome f items = Lowered bs /\ length bs = length items /\
    forall z, existsb (fun e => bool_decide (operandNumber e = Some (units z))) items = bool_decide (z ∈ map g bs).
Proof.
  induction items as [|e items IH]; intros Hall; cbn [mapOutcome existsb]; [by exists []|].
  destruct (Hall e ltac:(left)) as (b & z & Eb & Eg & En). destruct IH as (bs & Ebs & Hl & Hm); [intros e' He'; apply Hall; by right|].
  exists (b :: bs). rewrite Eb, Ebs. cbn. split_and!; [done|by rewrite Hl|]. intros w. rewrite Hm, En. subst z.
  rewrite (bool_decide_ext (w ∈ g b :: map g bs) (w = g b \/ w ∈ map g bs)) by by rewrite elem_of_cons.
  rewrite bool_decide_or. f_equal. apply bool_decide_ext. pose proof (units_le (g b) w). pose proof (units_le w (g b)). split.
  - intros [= E]. lia.
  - by intros ->.
Qed.

(** The values of a list, and what is asked of them; a negated list asks the same. *)
Lemma lower_members p field items (negated : bool) : pd_Combinator p <> CombinatorOr ->
  pd_Expr p = EBinary (if negated then OpNotIn else OpIn) (EField field) (EList items) -> supported (SIn field items) = true ->
  exists f, lowerPredicate now Dictionaries p parameters = Lowered f /\
    fg_Index f = ti_Table (fr_Table field) /\ fg_Field f = quantaIntermediateFieldName field /\ fg_Operation f = OperationIntersect /\
    fg_BSIOp f = BSIOpBatchEQ /\ fg_Negate f = negated /\ fg_NullCheck f = false /\ fg_ShardWindow f = false /\ fg_Values f <> [] /\
    forall z, operandTest f z = existsb (fun e => bool_decide (operandNumber e = Some (units z))) items.
Proof.
  intros Hp Ep Hs. cbn [supported] in Hs. apply andb_true_iff in Hs as [[Hf Hne]%andb_true_iff Hall].
  rewrite forallb_forall in Hall. pose proof (integerField_parts field Hf) as (Ei & Et & Hsc & Elex).
  destruct (mapOutcome_integers (fun item =>
        literalValue ← quantaIntermediateValue now item parameters;
        value ← (if decide (fr_Index field = IndexDateTime)
                 then quantaIntermediateNormalizeTimeValue now field literalValue else Lowered literalValue);
        bigValue ← outcomeOf (quantaIntermediateBigInt value)
          (quantaIntermediateDiagnostics (str "only integer BSI IN values are lowered in this slice"));
        mret (bigValue, literalValue)) fst items) as (values & Ev & Hlen & Hm).
  { intros e He%list_elem_of_In%Hall. destruct (operandInteger e He) as (l & z & En & _ & Hl & Hb). exists (z, l), z.
    rewrite Hl. cbn [mbind outcome_bind]. rewrite decide_False by congruence. cbn [mbind outcome_bind]. by rewrite Hb. }
  exists (withLiterals (fieldFragment field OperationIntersect BSIOpBatchEQ None (map (fun v => Some v.1) values))
        (map snd values) negated). split_and!; try done.
  - unfold lowerPredicate. rewrite combinator_plain by done.
    unfold lowerTextSearchPredicate, lowerBetweenPredicate, lowerStringLexBSILikePredicate, lowerStringEnumPredicate,
      lowerStringEnumInPredicate, lowerStringEnumLikePredicate, lowerInPredicate, quantaIntermediateStringEnumComparisonParts.
    rewrite Ep. assert (quantaIntermediateInParts (EBinary (if negated then OpNotIn else OpIn) (EField field) (EList items)) =
      Some (field, items)) as -> by (by destruct negated).
    assert (quantaIntermediateInNegated (EBinary (if negated then OpNotIn else OpIn) (EField field) (EList items)) = negated) as ->
      by (by destruct negated).
    rewrite (bsi_not_enum _ Ei), Elex.
    assert (quantaIntermediateBetweenParts (EBinary (if negated then OpNotIn else OpIn) (EField field) (EList items)) = None) as ->
      by (by destruct negated, items as [|? [|? [|? ?]]]).
    assert (forall accepts, likeParts accepts (EBinary (if negated then OpNotIn else OpIn) (EField field) (EList items)) = None) as Hlike
      by (by destruct negated).
    unfold quantaIntermediateStringLexBSILikeParts, quantaIntermediateStringEnumLikeParts. rewrite !Hlike.
    rewrite (bool_decide_true (fr_Index field = IndexBSI)) by done. cbn [orElse negb andb].
    destruct negated; cbn [orElse quantaIntermediateComparisonParts]; by rewrite Ev.
  - cbn. intros E%(f_equal length). rewrite length_map, Hlen in E. apply negb_true_iff, bool_decide_eq_false in Hne. done.
  - intros z. rewrite Hm. cbn. by rewrite map_map.
Qed.

Lemma lower_in p field items : pd_Combinator p <> CombinatorOr ->
  pd_Expr p = exprOf (SIn field items) -> supported (SIn field items) = true ->
  represents field -> lowersTo field p (conditionRows contents table (SIn field items)).
Proof.
  intros Hp Ep Hs Hrep. destruct (lower_members p field items false Hp Ep Hs) as (f & El & Ei & Ef & Eo & Eb & En & Ec & Ew & Ev & Ht).
  assert (onField field f) as Hon.
  { split_and!; [done..|]. unfold sendable. rewrite Eo, Ew, Ec, Eb. rewrite (bool_decide_false (length (fg_Values f) = 0%nat)); [done|].
    by destruct (fg_Values f). }
  exists f. split_and!; [done..|]. intros x. cbn [conditionRows].
  cbn [supported] in Hs. apply andb_true_iff in Hs as [[Hf _]%andb_true_iff _]. by apply (integer_test field f false).
Qed.

Lemma bsiField_index field : integerField field || textField field = true -> fr_Index field = IndexBSI.
Proof. intros [Hf|Hf]%orb_true_iff; [by apply integerField_parts in Hf as [? _]|by apply textField_parts in Hf as [? _]]. Qed.

Lemma lower_null p field negated : pd_Combinator p <> CombinatorOr ->
  pd_Expr p = exprOf (SNull field negated) -> supported (SNull field negated) = true -> represents field ->
  lowersTo field p (conditionRows contents table (SNull field negated)).
Proof.
  intros Hp Ep Hs Hrep. set (op := if negated then OpNotEqual else OpEqual).
  pose proof (bsi_not_enum _ (bsiField_index field Hs)) as Hen.
  destruct (lower_comparison p op field (ELiteral (mkLiteral ValueNull GNil)) false Hp Ep ltac:(by destruct negated)
    eq_refl Hen) as [Elow Eparts].
  exists (mkFragment (ti_Table (fr_Table field)) (quantaIntermediateTableRole (fr_Table field))
      (quantaIntermediateFieldName field) OperationIntersect BSIOpNone None [] None None None [] None false false negated true).
  split_and!; [|done|].
  - rewrite Elow. unfold lowerComparison. rewrite Eparts. cbn. by destruct negated.
  - intros x. destruct (Hrep x) as [Hst Hc]. cbn. apply and_iff_compat_l.
    assert ((exists v, stored (ti_Table (fr_Table field)) (quantaIntermediateFieldName field) x v) <-> is_Some (cellOf contents field x)) as E.
    { setoid_rewrite Hst. split; [intros (v & c & Ec & _); by exists c|]. intros [c Ec]. destruct (Hc c Ec) as [v Hv]. by exists v, c. }
    destruct negated; rewrite E; [done|]. by rewrite <- eq_None_not_Some.
Qed.

Lemma operandText_literal e s : operandText e = Some s -> exists l, quantaIntermediateValueExpr e = true /\
  quantaIntermediateValue now e parameters = Lowered l /\ asString l = Some s /\ lt_Kind l <> ValueNull.
Proof.
  unfold operandText. destruct (literalOf e) as [l|] eqn:El; [|done]. cbn. intros Hs.
  apply literalOf_value in El as [Hv Hl]. exists l. split_and!; [done..|]. intros E. unfold asString in Hs. by rewrite E in Hs.
Qed.

Lemma lower_text p field e negated : pd_Combinator p <> CombinatorOr ->
  pd_Expr p = exprOf (SText field e negated) -> supported (SText field e negated) = true -> represents field ->
  lowersTo field p (conditionRows contents table (SText field e negated)).
Proof.
  intros Hp Ep Hs Hrep. cbn [supported] in Hs. apply andb_true_iff in Hs as [Hf Ht].
  destruct (operandText e) as [t|] eqn:Et; [|done]. apply bool_decide_eq_true in Ht.
  destruct (operandText_literal e t Et) as (l & Hv & Hl & Hstr & Hk). pose proof (textField_parts field Hf) as (Ei & Elex & Hn & Erem).
  set (op := if negated then OpNotEqual else OpEqual).
  destruct (lower_comparison p op field e false Hp Ep ltac:(by destruct negated) Hv (bsi_not_enum _ Ei)) as [Elow Eparts].
  set (v := quantaIntermediateStringLexBSIValue t (en_PrefixLength (fr_Encoding field))).
  exists (fieldFragment field (if negated then OperationDifference else OperationIntersect) BSIOpEQ (Some v) []). split_and!.
  - rewrite Elow. unfold lowerComparison. rewrite Eparts, Hl. cbn [mbind outcome_bind]. rewrite decide_False by done.
    rewrite Elex. unfold quantaIntermediateStringLexBSIComparisonFragment. rewrite Erem, Hstr. by destruct negated.
  - by destruct negated.
  - intros x. cbn [conditionRows]. apply text_test; try done; [by destruct negated|]. intros s Hs. rewrite Et. cbn.
    rewrite Z.eqb_eq. split; [by intros [= ->]|]. intros E. f_equal. symmetry. by apply (lexValue_inj (en_PrefixLength (fr_Encoding field))).
Qed.

Lemma lower_prefix p field e negated : pd_Combinator p <> CombinatorOr ->
  pd_Expr p = exprOf (SPrefix field e negated) -> supported (SPrefix field e negated) = true -> represents field ->
  lowersTo field p (conditionRows contents table (SPrefix field e negated)).
Proof.
  intros Hp Ep Hs Hrep. cbn [supported] in Hs. apply andb_true_iff in Hs as [Hf Ht].
  destruct (patternPrefix e) as [t|] eqn:Et; [|done]. apply andb_true_iff in Ht as [Hne Hpl].
  apply negb_true_iff, bool_decide_eq_false in Hne. apply bool_decide_eq_true in Hpl.
  pose proof Et as Et'. unfold patternPrefix in Et'. destruct (operandText e) as [pat|] eqn:Epat; [|done]. cbn in Et'.
  destruct (operandText_literal e pat Epat) as (l & Hv & Hl & Hstr & Hk).
  pose proof (textField_parts field Hf) as (Ei & Elex & Hn & Erem).
  destruct (simpleLikePattern pat) eqn:Elike; try done. injection Et' as Et'.
  set (n := en_PrefixLength (fr_Encoding field)) in *. set (op := if negated then OperationDifference else OperationIntersect).
  pose proof (PrefixRange_value t n Hne (proj1 Hpl)) as Hr.
  eexists (rangeOfField field op _ _ (stringLiteral t) (stringLiteral (t ++ upperMark))). split_and!.
  - unfold lowerPredicate. rewrite combinator_plain by done.
    unfold lowerTextSearchPredicate, lowerBetweenPredicate, lowerStringLexBSILikePredicate. rewrite Ep.
    assert (quantaIntermediateBetweenParts (exprOf (SPrefix field e negated)) = None) as ->
      by (destruct negated, e as [| | | |[|? [|? [|? ?]]]| | | |]; done).
    assert (quantaIntermediateStringLexBSILikeParts (exprOf (SPrefix field e negated)) =
      Some (if negated then OpNotLike else OpLike, field, e)) as ->
      by (unfold quantaIntermediateStringLexBSILikeParts; destruct negated; cbn; by rewrite Elex, Erem, Hv).
    cbn [exprOf orElse]. rewrite Hl. cbn [mbind outcome_bind]. rewrite Hstr. cbn [mbind outcome_bind outcomeOf]. rewrite Elike, Et'.
    unfold prefixRangeFragment. fold n. rewrite Hr. by destruct negated.
  - by destruct negated.
  - intros x. cbn [conditionRows]. apply text_test; try done; [by destruct negated|]. intros s Hs. rewrite Et. cbn. fold n.
    rewrite andb_true_iff, !Z.leb_le, StringLexBSIValue_bytes, PrefixRange_bytes, lexBytes_prefix by first [apply Hpl|done].
    naive_solver.
Qed.

(** ** Whole conditions *)

(** A condition that is one predicate. *)
Definition simpleCondition (c : sqlCondition) : bool := match c with SAnd _ _ | SOr _ _ => false | _ => true end.

Lemma lower_simple c p : simpleCondition c = true -> supported c = true -> Forall represents (fieldsOf c) ->
  pd_Combinator p <> CombinatorOr -> pd_Expr p = exprOf c ->
  exists field, field ∈ fieldsOf c /\ lowersTo field p (conditionRows contents table c).
Proof.
  destruct c as [op field e mir|field lo hi neg|field items|field neg|field e neg|field e neg|l r|l r]; try done;
    intros _ Hs Hrep Hp Ep; exists field; (split; [by left|]); apply Forall_inv in Hrep.
  - by apply lower_compare.
  - by apply lower_between.
  - by apply lower_in.
  - by apply lower_null.
  - by apply lower_text.
  - by apply lower_prefix.
Qed.

(** A property of the fragments and one of the candidate sets of a tree. *)
Fixpoint everyLeaf (P : QuantaQueryFragment -> Prop) (C : QuantaCandidateSet -> Prop) (t : QuantaFilterExpression) : Prop :=
  match t with
  | FLeaf f => P f
  | FCandidateSet c => C c
  | FIntersect l | FUnion l => foldr (fun t Q => everyLeaf P C t /\ Q) True l
  | FEmpty => True
  end.

Definition noCandidateSet (_ : QuantaCandidateSet) : Prop := False.

Lemma everyLeaf_children P C l : foldr (fun t Q => everyLeaf P C t /\ Q) True l <-> Forall (everyLeaf P C) l.
Proof. induction l as [|t l IH]; cbn [foldr]; [by split|]. by rewrite Forall_cons, IH. Qed.

Lemma everyLeaf_mono (P Q : QuantaQueryFragment -> Prop) (C D : QuantaCandidateSet -> Prop) t :
  (forall f, P f -> Q f) -> (forall c, C c -> D c) -> everyLeaf P C t -> everyLeaf Q D t.
Proof.
  intros HPQ HCD. induction t as [| | |l IH|l IH] using filter_ind'; cbn [everyLeaf]; try done; [apply HPQ|apply HCD|..];
    rewrite !everyLeaf_children, !Forall_forall; rewrite Forall_forall in IH; auto.
Qed.

Lemma everyLeaf_and (P Q : QuantaQueryFragment -> Prop) (C D : QuantaCandidateSet -> Prop) t :
  everyLeaf P C t -> everyLeaf Q D t -> everyLeaf (fun f => P f /\ Q f) C t.
Proof.
  induction t as [| | |l IH|l IH] using filter_ind'; cbn [everyLeaf]; try done;
    rewrite !everyLeaf_children, !Forall_forall; rewrite Forall_forall in IH; auto.
Qed.

Lemma coalesceFrom_preserves {A} (P : A -> Prop) pair merge :
  (forall a b, pair a b = true -> P a -> P b -> P (merge a b)) ->
  forall fuel l, Forall P l -> Forall P (coalesceFrom pair merge fuel l).
Proof.
  intros Hm. induction fuel as [|fuel IH]; intros [|a l]; cbn [coalesceFrom]; [done..|]. intros [Ha Hl]%Forall_cons.
  destruct (takePair pair a l) as [[b r]|] eqn:E; [|constructor; [done|by apply IH]].
  apply takePair_split in E as [Hp Hperm]. rewrite Hperm in Hl. apply Forall_cons in Hl as [Hb Hl].
  constructor; [by apply Hm|by apply IH].
Qed.

Lemma coalesceFrom_length {A} (pair : A -> A -> bool) merge fuel : forall l, (length (coalesceFrom pair merge fuel l) <= length l)%nat.
Proof.
  induction fuel as [|fuel IH]; intros [|a l]; cbn [coalesceFrom]; try (cbn; lia).
  destruct (takePair pair a l) as [[b r]|] eqn:E; cbn [length]; [|specialize (IH l); lia].
  apply takePair_split in E as [_ Hperm]. apply Permutation_length in Hperm. cbn in Hperm. specialize (IH r). lia.
Qed.

Lemma conjuncts_leaves P C t : everyLeaf P C t -> Forall (everyLeaf P C) (filterDomainConjunctsForFactoring t).
Proof.
  induction t as [| | |l IH|l _] using filter_ind'; cbn [filterDomainConjunctsForFactoring]; try done; try by repeat constructor.
  intros Hl%everyLeaf_children. apply Forall_concat, Forall_map. rewrite Forall_forall in IH, Hl |- *. intros t Ht. by apply IH, Hl.
Qed.

(** Merging bounds keeps what ranges keep. *)
Lemma coalesce_leaves P C t : (forall l r, quantaIntermediateRangePair l r = true -> P l -> P r -> P (quantaIntermediateRangeFragment l r)) ->
  everyLeaf P C t -> everyLeaf P C (quantaIntermediateCoalesceFilterRanges t).
Proof.
  intros HP. induction t as [| | |l IH|l IH] using filter_ind'; try done.
  all: intros Hl%everyLeaf_children; set (g := quantaIntermediateCoalesceFilterRanges) in *.
  all: assert (Forall (everyLeaf P C) (map g l)) as Hg
    by (apply Forall_map; rewrite Forall_forall in IH, Hl |- *; intros t Ht; by apply IH, Hl).
  - destruct l as [|t0 l0] eqn:El; [done|]. rewrite <- El in *.
    assert (g (FIntersect l) = let conjuncts := filterDomainConjunctsForFactoring (FIntersect (map g l)) in
      if (length conjuncts <? 2)%nat then FIntersect (map g l)
      else filterDomainConjunctExpression (coalesceFrom leafPair leafRange (length conjuncts) conjuncts)) as ->
      by (by rewrite El).
    cbn zeta. pose proof (conjuncts_leaves P C (FIntersect (map g l)) (proj2 (everyLeaf_children P C _) Hg)) as Hc.
    set (conjuncts := filterDomainConjunctsForFactoring _) in *.
    destruct (length conjuncts <? 2)%nat; [by apply everyLeaf_children|].
    assert (Forall (everyLeaf P C) (coalesceFrom leafPair leafRange (length conjuncts) conjuncts)) as Hm.
    { apply coalesceFrom_preserves; [|done]. intros [] []; try done. cbn. apply HP. }
    destruct (coalesceFrom _ _ _ _) as [|c [|c' r]]; [done|by inversion Hm|by apply everyLeaf_children].
  - by apply everyLeaf_children.
Qed.

Lemma range_onField field l r : quantaIntermediateRangePair l r = true -> onField field l ->
  onField field (quantaIntermediateRangeFragment l r).
Proof.
  unfold quantaIntermediateRangePair, quantaIntermediateSameRangeField, onField, sendable. intros Hp (El & Fl & Sl).
  b2p. destruct_and?. b2p.
  repeat match goal with H : bool_decide _ = true |- _ => apply bool_decide_eq_true in H end.
  destruct l as [li lr lf lop lb [lv|] ? ? ? ? ? ? ? ? ? ?], r as [ri rr rf rop rb [rv|] ? ? ? ? ? ? ? ? ? ?];
    cbn in *; simplify_eq; try (by match goal with H : is_Some None |- _ => destruct H end).
  unfold quantaIntermediateRangeFragment. cbn. by destruct (quantaIntermediateLowerBoundOp lb); cbn;
    repeat match goal with H : ?b = false |- _ => rewrite ?H in *; clear H end.
Qed.

Lemma lower_filter_simple c : simpleCondition c = true -> supported c = true ->
  lowerFilterExpression now Dictionaries (exprOf c) parameters =
  (fragment ← lowerPredicate now Dictionaries (mkPredicate (exprOf c) PredicatePushdown ScopeWhere CombinatorUnknown) parameters;
   mret (FLeaf fragment)).
Proof.
  destruct c as [op field e mir|field lo hi neg|field items|field neg|field e neg|field e neg|l r|l r]; try done; intros _ Hs;
    try (by destruct neg).
  cbn [supported] in Hs. apply andb_true_iff in Hs as [[_ Hop]%andb_true_iff _]. by destruct op, mir.
Qed.

Lemma lower_condition c : supported c = true -> Forall represents (fieldsOf c) -> exists t,
  lowerFilterExpression now Dictionaries (exprOf c) parameters = Lowered t /\ properFilter t = true /\
  everyLeaf (fun f => exists field, field ∈ fieldsOf c /\ onField field f) noCandidateSet t /\
  forall x, filterRows stored table t x <-> conditionRows contents table c x.
Proof.
  assert (forall c, simpleCondition c = true -> supported c = true -> Forall represents (fieldsOf c) -> exists t,
    lowerFilterExpression now Dictionaries (exprOf c) parameters = Lowered t /\ properFilter t = true /\
    everyLeaf (fun f => exists field, field ∈ fieldsOf c /\ onField field f) noCandidateSet t /\
    forall x, filterRows stored table t x <-> conditionRows contents table c x) as Hleaf.
  { intros d Hd Hs Hrep. destruct (lower_simple d (mkPredicate (exprOf d) PredicatePushdown ScopeWhere CombinatorUnknown)
      Hd Hs Hrep ltac:(done) eq_refl) as (field & Hin & f & Ef & Hon & Hrows).
    exists (FLeaf f). rewrite lower_filter_simple, Ef by done. split_and!; [done..|by exists field|done]. }
  induction c as [| | | | | |l IHl r IHr|l IHl r IHr]; intros Hs Hrep; try (by apply Hleaf); clear Hleaf.
  all: cbn [supported] in Hs; apply andb_true_iff in Hs as [Hsl Hsr]; cbn [fieldsOf] in Hrep; apply Forall_app in Hrep as [Hrl Hrr].
  all: destruct (IHl Hsl Hrl) as (tl & El & Pl & Ll & Rl); destruct (IHr Hsr Hrr) as (tr & Er & Pr & Lr & Rr).
  - exists (FIntersect [tl; tr]). cbn [exprOf lowerFilterExpression]. rewrite El, Er. cbn -[filterRows]. rewrite Pl, Pr. split_and!; [done..| | |done|].
    + eapply everyLeaf_mono; [|done|exact Ll]. intros f (field & Hin & Hon). exists field. set_solver.
    + eapply everyLeaf_mono; [|done|exact Lr]. intros f (field & Hin & Hon). exists field. set_solver.
    + intros x. rewrite filterRows_intersect, !Forall_cons, Rl, Rr, Forall_nil. tauto.
  - exists (FUnion [tl; tr]). cbn [exprOf lowerFilterExpression]. rewrite El, Er. cbn -[filterRows]. rewrite Pl, Pr. split_and!; [done..| | |done|].
    + eapply everyLeaf_mono; [|done|exact Ll]. intros f (field & Hin & Hon). exists field. set_solver.
    + eapply everyLeaf_mono; [|done|exact Lr]. intros f (field & Hin & Hon). exists field. set_solver.
    + intros x. rewrite filterRows_union, !Exists_cons, Rl, Rr, Exists_nil. tauto.
Qed.

(** A predicate that states a simple condition and is lowered in a conjunction. *)
Definition states (p : Predicate) (c : sqlCondition) : Prop :=
  pd_Expr p = exprOf c /\ pd_Combinator p <> CombinatorOr /\ pd_Placement p <> PredicateResidualScan /\
  simpleCondition c = true /\ supported c = true.

Lemma lower_conjunction ps cs : Forall2 states ps cs -> Forall (fun c => Forall represents (fieldsOf c)) cs -> exists fs,
  lowerPredicates now Dictionaries ps parameters = Lowered fs /\ length fs = length cs /\
  Forall (fun f => exists c field, c ∈ cs /\ field ∈ fieldsOf c /\ onField field f) fs /\
  forall x, Forall (fun f => fragmentRows stored table f x) fs <-> Forall (fun c => conditionRows contents table c x) cs.
Proof.
  induction 1 as [|p c ps cs (Ep & Hco & Hpl & Hsi & Hsu) _ IH]; intros Hrep; cbn [lowerPredicates]; [by exists []|].
  apply Forall_cons in Hrep as [Hc Hrep]. destruct (IH Hrep) as (fs & Efs & Hlen & Hon & Hrows).
  destruct (lower_simple c p Hsi Hsu Hc Hco Ep) as (field & Hin & f & Ef & Hf & Hr).
  exists (f :: fs). rewrite decide_False, Ef, Efs by done. split_and!; [done|cbn; congruence| |].
  - constructor; [exists c, field; split_and!; [left|done..]|]. eapply Forall_impl; [exact Hon|].
    intros f' (c' & field' & Hc' & ?). exists c', field'. split; [by right|done].
  - intros x. by rewrite !Forall_cons, Hr, Hrows.
Qed.

Context (Hone : forall index field x v w, stored index field x v -> stored index field x w -> v = w).

(** The fragments and the filter of a query with a conjunction and a condition. *)
Lemma lower_query ps cs where_ : Forall2 states ps cs -> Forall (fun c => Forall represents (fieldsOf c)) cs ->
  (forall c, where_ = Some c -> supported c = true /\ Forall represents (fieldsOf c)) ->
  exists fs t,
    LowerQuery now Dictionaries (mkQueryIR true 1 0 0 ps (from_option exprOf ENil where_)) parameters = Lowered (fs, t) /\
    (cs <> [] -> fs <> []) /\ (length fs <= length cs)%nat /\
    Forall (fun f => exists c field, c ∈ cs /\ field ∈ fieldsOf c /\ onField field f) fs /\
    (forall x, Forall (fun f => fragmentRows stored table f x) fs <-> Forall (fun c => conditionRows contents table c x) cs) /\
    match where_ with
    | None => t = FEmpty
    | Some c => properFilter t = true /\ everyLeaf (fun f => exists field, field ∈ fieldsOf c /\ onField field f) noCandidateSet t /\
                forall x, filterRows stored table t x <-> conditionRows contents table c x
    end.
Proof.
  intros Hps Hcs Hw. destruct (lower_conjunction ps cs Hps Hcs) as (fs & Efs & Hlen & Hfs & Rfs).
  unfold LowerQuery. cbn. rewrite Efs. cbn [mbind outcome_bind].
  assert (Forall (fun f => exists c field, c ∈ cs /\ field ∈ fieldsOf c /\ onField field f) (quantaIntermediateCoalesceRanges fs)) as Hcoal.
  { apply coalesceFrom_preserves; [|done]. intros l r Hp (c & field & Hc & Hf & Hl) _. exists c, field. split_and!; [done..|].
    by apply range_onField. }
  assert (cs <> [] -> quantaIntermediateCoalesceRanges fs <> []) as Hne.
  { intros Hcs'. apply coalesceFrom_nonempty. by destruct fs, cs. }
  assert (length (quantaIntermediateCoalesceRanges fs) <= length cs)%nat as Hle by (rewrite <- Hlen; apply coalesceFrom_length).
  destruct where_ as [c|]; cbn [from_option].
  - destruct (Hw c eq_refl) as [Hs Hrep]. destruct (lower_condition c Hs Hrep) as (t & Et & Pt & Lt & Rt). rewrite Et.
    destruct (coalesce_rows stored table Hone t Pt) as [Pt' Rt']. do 2 eexists. split_and!; [done|done|done|done| |done| |].
    + intros x. by rewrite (coalesce_fragments_rows stored table Hone), Rfs.
    + apply coalesce_leaves; [|done]. intros l r Hp (field & Hin & Hl) _. exists field. split; [done|by apply range_onField].
    + intros x. by rewrite Rt'.
  - do 2 eexists. split_and!; [done|done|done|done| |done]. intros x. by rewrite (coalesce_fragments_rows stored table Hone), Rfs.
Qed.

(** C5. A query with a supported condition is lowered without a diagnostic, and its filter
    selects exactly the rows that satisfy the condition: comparisons with integers and
    with numbers between them, on either side, BETWEEN, IN, null checks, equality and LIKE
    of strings, joined by AND and OR.  A negated test holds for every other row of the
    table, also for rows without a value. *)
Theorem condition_lowering_exact c : supported c = true -> Forall represents (fieldsOf c) -> exists t,
  LowerQuery now Dictionaries (mkQueryIR true 1 0 0 [] (exprOf c)) parameters = Lowered ([], t) /\
  forall x, filterRows stored table t x <-> conditionRows contents table c x.
Proof.
  intros Hs Hrep. destruct (lower_query [] [] (Some c)) as (fs & t & E & _ & _ & Hf & _ & _ & _ & Ht); [constructor|constructor| |].
  - by intros ? [= <-].
  - destruct fs as [|f fs]; [by exists t|]. apply Forall_cons in Hf as [(c' & field & Hin & _) _]. by apply elem_of_nil in Hin.
Qed.

End Exact.

(** ** Bounds that are not exact *)

(** C33. A float64 at or above 2^63 is converted with int64(), which gives the smallest
    integer: a field is compared with that integer, so that no int64 is below the literal,
    although every one is. *)
Theorem float_bound_overflows p field bits : pd_Combinator p <> CombinatorOr -> integerField field = true ->
  pd_Expr p = EBinary OpLess (EField field) (ELiteral (mkLiteral ValueFloat (GFloat64 bits))) ->
  f64_exponent bits <> 2047 -> units (2 ^ 63) <= float64_value bits ->
  exists f, lowerPredicate now Dictionaries p parameters = Lowered f /\
    forall v, in_s 64 v -> compares OpLess (units v) (float64_value bits) = true /\ operandTest f v = false.
Proof.
  intros Hp Hf Ep Hex Hb. pose proof (integerField_parts field Hf) as (Ei & Et & Hsc & Elex).
  destruct (lower_comparison p OpLess field (ELiteral (mkLiteral ValueFloat (GFloat64 bits))) false Hp Ep eq_refl eq_refl
    (bsi_not_enum _ Ei)) as [Elow Eparts].
  assert (2 ^ 63 <= float64_value bits / f64_one) as Hq.
  { pose proof (units_div (float64_value bits)). pose proof (units_lt (2 ^ 63) (float64_value bits / f64_one + 1)). lia. }
  assert (forall z, 2 ^ 63 <= z -> int64_of_Z z = - 2 ^ 63) as Hover by (intros z Hz; unfold int64_of_Z; by if_false).
  exists (comparisonFragment field OpLess (- 2 ^ 63) (mkLiteral ValueFloat (GFloat64 bits))). split.
  - rewrite Elow. unfold lowerComparison. rewrite Eparts. cbn [quantaIntermediateValue mbind outcome_bind]. rewrite decide_False by done.
    rewrite Elex. rewrite (bool_decide_false (fr_Type field = DataTypeBool)), (bool_decide_true (fr_Index field = IndexBSI)) by congruence.
    cbn [negb andb]. unfold normalizeComparison. rewrite (decide_False (P := fr_Index field = IndexDateTime)) by congruence.
    cbn [mbind outcome_bind]. assert ((0 <? en_Scale (fr_Encoding field)) = false) as -> by lia. cbn [mbind outcome_bind].
    rewrite (decide_True (P := fr_Type field = DataTypeInt)) by done.
    unfold quantaIntermediateNormalizeDiscreteNumericComparison. cbn [quantaIntermediateFloat64Literal lt_Value].
    assert (f64_nan bits = false) as -> by (unfold f64_nan; by rewrite (proj2 (Z.eqb_neq (f64_exponent bits) 2047))).
    destruct (f64_integral bits) eqn:Eint; cbn [mbind outcome_bind];
      rewrite (decide_False (P := fr_Type field = DataTypeBool)) by congruence; cbn [mbind outcome_bind mret outcome_ret].
    + unfold quantaIntermediateBigInt. cbn [lt_Value]. rewrite Eint. cbn. unfold int64_of_f64. rewrite (proj2 (Z.eqb_neq _ _)) by done.
      rewrite Z.quot_div_nonneg; [by rewrite Hover|pose proof (units_le 0 (2 ^ 63)) as H0; change (units 0) with 0 in H0; lia|apply Z.pow_pos_nonneg; lia].
    + cbn. unfold f64_ceil. rewrite Hover; [done|]. pose proof (units_div (- float64_value bits)).
      pose proof (units_le (- float64_value bits / f64_one) (- 2 ^ 63)). unfold units in *. lia.
  - intros v Hv. change (- 2 ^ 63 <= v < 2 ^ 63) in Hv. split.
    + apply Z.ltb_lt. pose proof (units_lt v (2 ^ 63)). lia.
    + apply Z.ltb_ge. cbn [fg_Value comparisonFragment default from_option]. unfold id. lia.
Qed.

(** ** Days *)

(** Instants from about 1685 to 2255, in which no encoding overflows. *)
Definition encodable (t : Time) : Prop := 0 <= nanosecond t < 10 ^ 9 /\ Z.abs (unixSec t) <= 9 * 10 ^ 9.

(** The encodings of an instant and of a midnight are ordered as they are. *)
Lemma encoded_before g t d a b : encodable t -> encodable d -> nanosecond d = 0 -> unixSec d mod 86400 = 0 ->
  quantaIntermediateEncodeTimeValue g t = Some a -> quantaIntermediateEncodeTimeValue g d = Some b ->
  (a <? b) = (unixSec t <? unixSec d).
Proof.
  intros [Hn Hs] [_ Hd] E0 Em Ha Hb.
  assert (forall z, Z.abs z <= 9 * 10 ^ 18 + 10 ^ 9 -> wrap_s 64 z = z) as Hw.
  { intros z Hz. apply wrap_s_id; [done|]. unfold in_s. change (2 ^ (64 - 1)) with 9223372036854775808. lia. }
  destruct g; cbn in Ha, Hb; simplify_eq; unfold UnixMilli, UnixMicro, UnixNano, Unix, epochDays; rewrite ?E0.
  - rewrite !Z.quot_div_nonneg by lia. rewrite !Hw by div_lia. div_lia.
  - rewrite !Hw by div_lia. rewrite !Z.quot_mul by lia. div_lia.
  - rewrite !Hw by lia. done.
  - rewrite !Z.quot_div_nonneg by lia. rewrite !Hw by div_lia. div_lia.
  - rewrite !Z.quot_div_nonneg by lia. rewrite !Hw by div_lia. div_lia.
  - rewrite !Hw by lia. lia.
Qed.

(** A date is a midnight. *)
Lemma date_midnight l d : quantaIntermediateDateOnlyLiteral l = Some d -> nanosecond d = 0 /\ unixSec d mod 86400 = 0.
Proof.
  unfold quantaIntermediateDateOnlyLiteral. destruct (lt_Value l) as [| | | | |s| | | |]; try done. case_if; [|done].
  destruct (ParseLayout dateLayout (TrimSpace s)) as [t|] eqn:Ep; [|done]. cbn. intros [= <-]. revert Ep. unfold ParseLayout.
  destruct (parseElements dateLayout (TrimSpace s) _) as [[c rest]|] eqn:Ee; [|done]. cbn [mbind option_bind].
  assert (cv_hour c = 0 /\ cv_min c = 0 /\ cv_sec c = 0 /\ cv_nsec c = 0 /\ cv_zone c = None) as (E1 & E2 & E3 & E4 & E5).
  { revert Ee. generalize (TrimSpace s) as text. intros text. unfold dateLayout. cbn [parseElements].
    destruct (zlen text <? 4); [done|]. destruct (digitsValue 0 (take 4 text)); [|done]. cbn [mbind option_bind].
    destruct (skip false _ _); [|done]. cbn [mbind option_bind]. destruct (getnum true _) as [[? ?]|]; [|done]. cbn [mbind option_bind].
    case_if; [done|]. destruct (skip false _ _); [|done]. cbn [mbind option_bind].
    destruct (getnum true _) as [[? ?]|]; [|done]. cbn [mbind option_bind]. by intros [= <- <-]. }
  rewrite E1, E2, E3, E4, E5. repeat (case_if; [done|]). intros [= <-]. cbn. split; [done|].
  rewrite !Z.add_0_r. apply Z.mod_mul. lia.
Qed.
(** Fields of instants, with an encoding the lowering knows. *)
Definition dateTimeField (field : FieldRef) : bool :=
  bool_decide (fr_Index field = IndexDateTime) && bool_decide (fr_Type field = DataTypeTime) &&
  (en_Scale (fr_Encoding field) <=? 0) && negb (isStringLexBSI field) &&
  match en_Granularity (fr_Encoding field) with TimeGranularityOther _ => false | _ => true end.

Lemma date_parses s d : quantaIntermediateDateOnlyLiteral (stringLiteral s) = Some d ->
  exists t, quantaIntermediateParseTimeValue now (stringLiteral s) = Some t.
Proof.
  unfold quantaIntermediateDateOnlyLiteral. cbn [lt_Value stringLiteral]. case_if; [|done].
  destruct (ParseLayout dateLayout (TrimSpace s)) as [u|] eqn:Eu; [|done]. intros _.
  change (quantaIntermediateParseTimeValue now (stringLiteral s)) with (quantaIntermediateParseTimeString now s).
  unfold quantaIntermediateParseTimeString. case_if; [by eexists|].
  destruct (quantaIntermediateParseRelativeNowTime now (TrimSpace s)); [by eexists|]. cbn [parseFirst]. rewrite Eu.
  clear Eu. repeat (destruct (ParseLayout _ _); [by eexists|]). by eexists.
Qed.

(** The two bounds that a date moves to the next day. *)
Lemma normalize_date op field s d : dateTimeField field = true -> quantaIntermediateDateOnlyLiteral (stringLiteral s) = Some d ->
  op = OpLessEqual \/ op = OpGreater -> exists b,
    quantaIntermediateEncodeTimeValue (en_Granularity (fr_Encoding field)) (AddDays d 1) = Some b /\
    normalizeComparison now op field (stringLiteral s) =
      Lowered (if decide (op = OpLessEqual) then OpLess else OpGreaterEqual, intLiteral b).
Proof.
  unfold dateTimeField. intros Hf Hd Hop. b2p. destruct_and?. b2p.
  repeat match goal with H : bool_decide _ = true |- _ => apply bool_decide_eq_true in H end.
  assert (forall u, is_Some (quantaIntermediateEncodeTimeValue (en_Granularity (fr_Encoding field)) u)) as Henc
    by (intros u; destruct (en_Granularity (fr_Encoding field)); first [done|by eexists]).
  destruct (date_parses s d Hd) as [t Et]. destruct (Henc (AddDays d 1)) as [b Eb]. destruct (Henc t) as [e Ee].
  exists b. split; [done|]. unfold normalizeComparison. rewrite (decide_True (P := fr_Index field = IndexDateTime)) by done.
  unfold quantaIntermediateNormalizeTimeValue. rewrite decide_False by done. rewrite Et, Ee. cbn [mbind outcome_bind].
  unfold quantaIntermediateNormalizeDiscreteTimeComparison, quantaIntermediateNextEncodedTimeValue. rewrite Hd, Eb.
  assert ((0 <? en_Scale (fr_Encoding field)) = false) as -> by lia.
  destruct Hop as [-> | ->]; cbn [lt_Value intLiteral default from_option mret outcome_ret mbind outcome_bind];
    rewrite (decide_False (P := fr_Type field = DataTypeInt)) by congruence; cbn [mret outcome_ret mbind outcome_bind];
    rewrite (decide_False (P := fr_Type field = DataTypeBool)) by congruence; done.
Qed.

(** C28. A date without a time stands for the whole day in an upper bound: [field <= 'date']
    holds exactly for instants before the next midnight, and [field > 'date'] for those
    from it on, in every encoding of instants.  Both the instant and the midnight after
    the date lie within 9 * 10^9 seconds of 1970, from about 1685 to 2255, where no
    encoding overflows ([encodable]). *)
Theorem date_bound_covers_day p op field s d t v : pd_Combinator p <> CombinatorOr ->
  pd_Expr p = EBinary op (EField field) (ELiteral (stringLiteral s)) -> op = OpLessEqual \/ op = OpGreater ->
  dateTimeField field = true -> quantaIntermediateDateOnlyLiteral (stringLiteral s) = Some d ->
  encodable t -> encodable (AddDays d 1) ->
  quantaIntermediateEncodeTimeValue (en_Granularity (fr_Encoding field)) t = Some v ->
  exists f, lowerPredicate now Dictionaries p parameters = Lowered f /\
    operandTest f v = (if decide (op = OpLessEqual) then unixSec t <? unixSec d + 86400 else unixSec d + 86400 <=? unixSec t).
Proof.
  intros Hp Ep Hop Hf Hd Ht Hd1 Ev. destruct (normalize_date op field s d Hf Hd Hop) as (b & Eb & En).
  destruct (date_midnight _ d Hd) as [E0 Em].
  assert (fr_Index field = IndexDateTime /\ fr_Type field = DataTypeTime /\ isStringLexBSI field = false) as (Ei & Et & Elex).
  { unfold dateTimeField in Hf. b2p. destruct_and?. b2p.
    repeat match goal with H : bool_decide _ = true |- _ => apply bool_decide_eq_true in H end. done. }
  destruct (lower_comparison p op field (ELiteral (stringLiteral s)) false Hp Ep ltac:(by destruct Hop as [-> | ->]) eq_refl
    ltac:(unfold isStringEnum; by rewrite Ei)) as [Elow Eparts].
  pose proof (encoded_before _ t (AddDays d 1) v b Ht Hd1 E0 ltac:(cbn; rewrite <- Z.add_mod_idemp_l, Em by lia; done) Ev Eb) as Hlt.
  eexists. split.
  - rewrite Elow. unfold lowerComparison. rewrite Eparts. cbn [quantaIntermediateValue mbind outcome_bind].
    rewrite decide_False by done. rewrite Elex.
    rewrite (bool_decide_false (fr_Type field = DataTypeBool)), (bool_decide_true (fr_Index field = IndexDateTime)) by congruence.
    rewrite andb_false_r. rewrite En. cbn. done.
  - cbn [AddDays unixSec] in Hlt. rewrite Z.mul_1_r in Hlt. clear - Hlt Hop. destruct Hop as [-> | ->].
    + rewrite <- Hlt. done.
    + rewrite Z.leb_antisym, <- Hlt, <- Z.leb_antisym. done.
Qed.

(** ** Candidates *)

(** The text that a predicate on a string asks for: equality, or LIKE with a prefix. *)
Definition residualText (expr : Expr) : option (FieldRef * (bytes -> Prop)) :=
  match quantaIntermediateComparisonParts expr with
  | Some (OpEqual, field, e) => Some (field, fun s => operandText e = Some s)
  | _ => match expr with
         | EBinary OpLike (EField field) e =>
           Some (field, fun s => exists p, patternPrefix e = Some p /\ p `prefix_of` s)
         | _ => None
         end
  end.

(** The range of the first bytes of a text holds every string that begins with it. *)
Lemma candidate_range field text f s :
  quantaIntermediateStringLexBSICandidatePrefix text (en_PrefixLength (fr_Encoding field)) ≫=
    prefixRangeFragment field OperationIntersect = Some f -> text `prefix_of` s ->
  fg_Index f = ti_Table (fr_Table field) /\ fg_Field f = quantaIntermediateFieldName field /\
  fg_Operation f = OperationIntersect /\
  operandTest f (quantaIntermediateStringLexBSIValue s (en_PrefixLength (fr_Encoding field))) = true.
Proof.
  set (n := en_PrefixLength (fr_Encoding field)). unfold quantaIntermediateStringLexBSICandidatePrefix.
  destruct (bool_decide (text = []) || (n <=? 0)) eqn:Ec; [done|]. apply orb_false_iff in Ec as [Ht%bool_decide_eq_false Hn].
  apply Z.leb_gt in Hn. intros Ef Hs.
  assert (exists pre, pre <> [] /\ zlen pre <= n /\ pre `prefix_of` text /\ prefixRangeFragment field OperationIntersect pre = Some f)
    as (pre & Hne & Hl & Hpre & Er).
  { destruct (zlen text <=? n) eqn:E; cbn [mbind option_bind] in Ef; [exists text; split_and!; [done|lia|done..]|].
    exists (take (Z.to_nat n) text). split_and!; [|unfold zlen; rewrite length_take; lia|apply prefix_take|done].
    destruct text; [done|]. by destruct (Z.to_nat n) eqn:En; [lia|]. }
  unfold prefixRangeFragment in Er. fold n in Er. rewrite PrefixRange_value in Er by done. injection Er as <-.
  split_and!; [done..|]. cbn. rewrite andb_true_iff, !Z.leb_le, StringLexBSIValue_bytes, PrefixRange_bytes by done.
  apply lexBytes_prefix_of; [done|]. by trans text.
Qed.

Lemma equality_candidate p f : lowerStringLexBSIEqualityCandidate now p parameters = Lowered f ->
  exists field e text, quantaIntermediateComparisonParts (pd_Expr p) = Some (OpEqual, field, e) /\ operandText e = Some text /\
    quantaIntermediateStringLexBSICandidatePrefix text (en_PrefixLength (fr_Encoding field)) ≫=
      prefixRangeFragment field OperationIntersect = Some f.
Proof.
  unfold lowerStringLexBSIEqualityCandidate, quantaIntermediateStringLexBSIEqualityCandidateParts.
  destruct (quantaIntermediateComparisonParts (pd_Expr p)) as [[[op field] e]|]; [|done]. cbn [mbind option_bind].
  case_decide as Eop; [subst op|done]. destruct (isStringLexBSI field && needsRemainder field); [|done]. cbn [andb].
  destruct (quantaIntermediateValueExpr e) eqn:Ev; [|done].
  destruct (quantaIntermediateValue now e parameters) as [l| |] eqn:El; [|done..]. cbn [mbind outcome_bind].
  destruct (asString l) as [text|] eqn:Et; [|done]. cbn [mbind outcome_bind outcomeOf].
  destruct (_ ≫= prefixRangeFragment field OperationIntersect) as [f'|] eqn:Ef; [|done]. intros [= ->].
  exists field, e, text. split_and!; [done| |done]. unfold operandText, literalOf. by rewrite Ev, El.
Qed.

Lemma like_candidate p f : lowerStringLexBSIPrefixLikeCandidate now p parameters = Lowered f ->
  exists field e text, pd_Expr p = EBinary OpLike (EField field) e /\ patternPrefix e = Some text /\
    quantaIntermediateStringLexBSICandidatePrefix text (en_PrefixLength (fr_Encoding field)) ≫=
      prefixRangeFragment field OperationIntersect = Some f.
Proof.
  unfold lowerStringLexBSIPrefixLikeCandidate, quantaIntermediateStringLexBSILikeCandidateParts, likeParts.
  destruct (pd_Expr p) as [op lhs e| | | | | | | |]; try done. destruct lhs as [|field| | | | | | |]; try done.
  case_decide as Eop; [|done]. destruct (isStringLexBSI field && needsRemainder field); [|done]. cbn [andb].
  destruct (quantaIntermediateValueExpr e) eqn:Ev; [|done]. destruct op; try done.
  destruct (quantaIntermediateValue now e parameters) as [l| |] eqn:El; [|done..]. cbn [mbind outcome_bind].
  destruct (asString l) as [pat|] eqn:Et; [|done]. destruct (simpleLikePattern pat) eqn:Ep; try done.
  destruct (_ ≫= prefixRangeFragment field OperationIntersect) as [f'|] eqn:Ef; [|done]. intros [= ->].
  exists field, e, (removelast pat). split_and!; [done| |done]. unfold patternPrefix, operandText, literalOf.
  rewrite Ev, El. cbn. rewrite Et. cbn. by rewrite Ep.
Qed.

(** C29. The fragment of a predicate that needs the rest of a string keeps every candidate:
    a string that satisfies the predicate has its stored integer in the range. *)
Theorem residual_candidates_complete p f field accepts s : residualText (pd_Expr p) = Some (field, accepts) ->
  lowerResidualCandidatePredicate now p parameters = Lowered f -> accepts s ->
  fg_Index f = ti_Table (fr_Table field) /\ fg_Field f = quantaIntermediateFieldName field /\
  fg_Operation f = OperationIntersect /\
  operandTest f (quantaIntermediateStringLexBSIValue s (en_PrefixLength (fr_Encoding field))) = true.
Proof.
  unfold lowerResidualCandidatePredicate, residualText. case_decide; [done|]. intros Ht Hl Hs.
  destruct (lowerStringLexBSIEqualityCandidate now p parameters) as [f'| |] eqn:Ee; cbn [orElse] in Hl; [|done|].
  - injection Hl as ->. destruct (equality_candidate p f Ee) as (fd & e & text & Ep & Eo & Ef). rewrite Ep in Ht.
    injection Ht as -> <-. apply (candidate_range field text); [done|]. cbn in Hs. rewrite Eo in Hs. by injection Hs as ->.
  - destruct (like_candidate p f Hl) as (fd & e & text & Ep & Eo & Ef). rewrite Ep in Ht. cbn in Ht.
    injection Ht as -> <-. apply (candidate_range field text); [done|]. cbn in Hs. destruct Hs as (q & Eq & Hq). congruence.
Qed.

End Conditions.

(** ** An example *)

Section Example.

#[local] Existing Instance asciiText.

Definition exampleColumn (name : bytes) (type : DataType) (index : IndexKind) (encoding : EncodingProfile) : FieldRef :=
  mkFieldRef (mkTableInstance [] [] (str "users") [] []) name [] type index encoding (mkDictionaryRef [] [] []).

Definition qtyColumn : FieldRef :=
  exampleColumn (str "qty") DataTypeInt IndexBSI (mkEncodingProfile EncodingNumericBSI [] TimeGranularityUnknown 0 0 0).
Definition nameColumn : FieldRef :=
  exampleColumn (str "name") DataTypeString IndexBSI (mkEncodingProfile EncodingStringLexBSI [] TimeGranularityUnknown 0 4 4).
Definition cityColumn : FieldRef :=
  exampleColumn (str "city") DataTypeString IndexBSI (mkEncodingProfile EncodingStringLexBSI [] TimeGranularityUnknown 0 4 0).
Definition tsColumn : FieldRef :=
  exampleColumn (str "ts") DataTypeTime IndexDateTime (mkEncodingProfile EncodingTimeBSI [] TimeGranularitySecond 0 0 0).

Definition exampleContents (index field : bytes) (x : Z) : option cell :=
  if bool_decide (field = str "qty") then if x =? 1 then Some (CInt 5) else if x =? 2 then Some (CInt 9) else None
  else if bool_decide (field = str "name") then if x =? 2 then Some (CText (str "abc")) else None
  else None.

Definition exampleStored (index field : bytes) (x v : Z) : Prop :=
  exists c, exampleContents index field x = Some c /\
    encodes (if bool_decide (field = str "qty") then qtyColumn else nameColumn) c v.

Definition literalExpr (kind : ValueKind) (value : any) : Expr := ELiteral (mkLiteral kind value).

(** 3.5 < qty AND qty <= 7 OR name LIKE 'ab%' *)
Definition exampleCondition : sqlCondition :=
  SOr (SAnd (SCompare OpLess qtyColumn (literalExpr ValueFloat (GFloat64 0x400C000000000000)) true)
         (SCompare OpLessEqual qtyColumn (literalExpr ValueInt (GInt Tint64 7)) false))
    (SPrefix nameColumn (literalExpr ValueString (GString (str "ab%"))) false).

Lemma encodes_one field c v w : encodes field c v -> encodes field c w -> v = w.
Proof. destruct c; cbn; [intros [_ ->] [_ ->]|intros (_ & _ & ->) (_ & _ & ->)]; done. Qed.

Lemma exampleStored_one index field x v w : exampleStored index field x v -> exampleStored index field x w -> v = w.
Proof. intros (c & Ec & Hv) (d & Ed & Hw). rewrite Ec in Ed. injection Ed as <-. by apply (encodes_one _ _ _ _ Hv). Qed.

Lemma example_supported : supported epochTime [] exampleCondition = true.
Proof. by vm_compute. Qed.

Lemma example_represents : Forall (represents exampleStored exampleContents) (fieldsOf exampleCondition).
Proof.
  assert (represents exampleStored exampleContents qtyColumn) as Hq.
  { intros x. split; [done|]. intros c.
    change (cellOf exampleContents qtyColumn x) with
      (if x =? 1 then Some (CInt 5) else if x =? 2 then Some (CInt 9) else None).
    repeat case_if; intros Ec; simplify_eq; by eexists. }
  assert (represents exampleStored exampleContents nameColumn) as Hn.
  { intros x. split; [done|]. intros c.
    change (cellOf exampleContents nameColumn x) with (if x =? 2 then Some (CText (str "abc")) else None).
    case_if; intros Ec; simplify_eq. eexists. cbn [encodes]. split_and!; [done|apply (bool_decide_unpack _); by vm_compute|done]. }
  by do 3 (apply Forall_cons_2; [done|]).
Qed.

(** The same on an example. *)
Lemma condition_lowering_exact_witness : exists t,
  LowerQuery epochTime None (mkQueryIR true 1 0 0 [] (exprOf exampleCondition)) [] = Lowered ([], t) /\
  forall x, filterRows exampleStored (fun _ => True) t x <->
    conditionRows epochTime [] exampleContents (fun _ => True) exampleCondition x.
Proof.
  apply (condition_lowering_exact epochTime [] None exampleStored (fun _ => True) exampleContents exampleStored_one
    exampleCondition example_supported example_represents).
Defined.

(** The same on an example: merging the bounds 3 < qty and qty <= 7. *)
Lemma coalescing_preserves_rows_witness :
  let bounds := [comparisonFragment qtyColumn OpGreater 3 (intLiteral 3); comparisonFragment qtyColumn OpLessEqual 7 (intLiteral 7)] in
  (Forall (fun f => fragmentRows exampleStored (fun _ => True) f 1) (quantaIntermediateCoalesceRanges bounds) <->
   Forall (fun f => fragmentRows exampleStored (fun _ => True) f 1) bounds) /\
  (filterRows exampleStored (fun _ => True) (quantaIntermediateCoalesceFilterRanges (FIntersect (map FLeaf bounds))) 1 <->
   filterRows exampleStored (fun _ => True) (FIntersect (map FLeaf bounds)) 1).
Proof. apply (coalescing_preserves_rows exampleStored (fun _ => True) exampleStored_one). done. Defined.

(** The same on an example: qty < 1e19. *)
Lemma float_bound_overflows_witness :
  exists f, lowerPredicate epochTime None (mkPredicate (EBinary OpLess (EField qtyColumn)
      (ELiteral (mkLiteral ValueFloat (GFloat64 0x43E158E460913D00)))) PredicatePushdown ScopeWhere CombinatorUnknown) [] = Lowered f /\
    forall v, in_s 64 v -> compares OpLess (units v) (float64_value 0x43E158E460913D00) = true /\ operandTest f v = false.
Proof. apply (float_bound_overflows epochTime [] None _ qtyColumn); [done|by vm_compute|done|by vm_compute|by vm_compute]. Defined.

(** The same on an example: 2024-01-02T23:59:59 is not after '2024-01-02'. *)
Lemma date_bound_covers_day_witness :
  exists f, lowerPredicate epochTime None (mkPredicate (EBinary OpLessEqual (EField tsColumn)
      (ELiteral (stringLiteral (str "2024-01-02")))) PredicatePushdown ScopeWhere CombinatorUnknown) [] = Lowered f /\
    operandTest f 1704239999 = true.
Proof.
  destruct (date_bound_covers_day epochTime [] None (mkPredicate (EBinary OpLessEqual (EField tsColumn)
      (ELiteral (stringLiteral (str "2024-01-02")))) PredicatePushdown ScopeWhere CombinatorUnknown) OpLessEqual tsColumn
      (str "2024-01-02") (Date 2024 1 2 0 0 0 0) (Date 2024 1 2 23 59 59 0) 1704239999) as (f & Ef & Ht);
    [done|done|by left|by vm_compute|by vm_compute|by vm_compute|by vm_compute|by vm_compute|].
  exists f. split; [exact Ef|rewrite Ht; by vm_compute].
Defined.

(** The same on an example: city LIKE 'Springf%', with four bytes in the index. *)
Lemma residual_candidates_complete_witness :
  exists f, lowerResidualCandidatePredicate epochTime (mkPredicate (EBinary OpLike (EField cityColumn)
      (ELiteral (stringLiteral (str "Springf%")))) PredicateResidualScan ScopeWhere CombinatorAnd) [] = Lowered f /\
    operandTest f (quantaIntermediateStringLexBSIValue (str "Springfield") 4) = true.
Proof.
  eexists. split; [by vm_compute|].
  eapply (residual_candidates_complete epochTime [] (mkPredicate (EBinary OpLike (EField cityColumn)
      (ELiteral (stringLiteral (str "Springf%")))) PredicateResidualScan ScopeWhere CombinatorAnd) _ cityColumn _ (str "Springfield"));
    [done|by vm_compute|].
  exists (str "Springf"). split; [by vm_compute|by exists (str "ield")].
Defined.

(** A text longer than the index is cut, and then equals the text it is cut to. *)
Lemma long_text_matches : match lowerPredicate epochTime None (mkPredicate (EBinary OpEqual (EField nameColumn)
    (ELiteral (stringLiteral (str "abcde")))) PredicatePushdown ScopeWhere CombinatorUnknown) [] with
  | Lowered f => operandTest f (quantaIntermediateStringLexBSIValue (str "abcd") 4) = true
  | _ => False
  end.
Proof. by vm_compute. Qed.

End Example.
