(* ===== verification/FilterTree.v ===== *)
(** * Evaluation of filter trees

    The evaluator of grouped filters (qsruntime/filter_evaluator.go): unions and
    intersections of the rows of fragments, against the interface of the evaluator of a
    fragment.  Intersections take known candidates first, stop when no row is left, and
    hand the rows found so far to fragments that can use them.  The result of a call is
    the candidate set and the diagnostics, or an error. *)

From S2P Require Import Prelude GoStd GoState SqlIR Lowering LexStrings LoweringExact.

(** ** Sets of rows *)

Definition noCandidates : QuantaCandidateSet := mkCandidateSet [] [].

(** The index of the left set, or that of the right one when the left has none. *)
Definition mergedIndex (left_ right_ : QuantaCandidateSet) : bytes :=
  if decide (cs_Index left_ = []) then cs_Index right_ else cs_Index left_.

(** The positions of each row in a list. *)
Definition rownumPositions (rows : list Z) : gmap Z (list nat) :=
  foldl (fun m '(i, r) => <[r := default [] (m !! r) ++ [i]]> m) ∅ (imap pair rows).

Definition markPositions (positions : gmap Z (list nat)) (matched : list bool) (rows : list Z) : list bool :=
  foldl (fun matched r => foldl (fun matched p => <[p := true]> matched) matched (default [] (positions !! r))) matched rows.

Definition quantaFilterRownumSet (rows : list Z) : gset Z := list_to_set rows.

(** The rows of both sets in the order of the left one; the shorter list is indexed. *)
Definition quantaFilterIntersectCandidateSets (left_ right_ : QuantaCandidateSet) : QuantaCandidateSet :=
  let rows :=
    if (length (cs_Rownums left_) <=? length (cs_Rownums right_))%nat then
      let positions := rownumPositions (cs_Rownums left_) in
      let matched := markPositions positions (replicate (length (cs_Rownums left_)) false) (cs_Rownums right_) in
      map fst (filter (fun p => p.2 = true) (zip (cs_Rownums left_) matched))
    else filter (fun r => r ∈ quantaFilterRownumSet (cs_Rownums right_)) (cs_Rownums left_) in
  mkCandidateSet (mergedIndex left_ right_) rows.

(** The rows of the left set, then those of the right one that are new. *)
Fixpoint appendUnseen (seen : gset Z) (rows : list Z) : list Z :=
  match rows with
  | [] => []
  | r :: rows => if decide (r ∈ seen) then appendUnseen seen rows else r :: appendUnseen ({[r]} ∪ seen) rows
  end.

Definition quantaFilterUnionCandidateSets (left_ right_ : QuantaCandidateSet) : QuantaCandidateSet :=
  mkCandidateSet (mergedIndex left_ right_)
    (cs_Rownums left_ ++ appendUnseen (quantaFilterRownumSet (cs_Rownums left_)) (cs_Rownums right_)).

(** ** The order of an intersection *)

Definition CandidateSetLeaf (t : QuantaFilterExpression) : bool := match t with FCandidateSet _ => true | _ => false end.

Fixpoint quantaFilterExpressionContainsCandidateSetLeaf (t : QuantaFilterExpression) : bool :=
  match t with
  | FCandidateSet _ => true
  | FIntersect l | FUnion l => existsb quantaFilterExpressionContainsCandidateSetLeaf l
  | _ => false
  end.

(** The conjuncts of a child. *)
Fixpoint flattenIntersect (t : QuantaFilterExpression) : list QuantaFilterExpression :=
  match t with FIntersect l => concat (map flattenIntersect l) | _ => [t] end.

Definition quantaFilterFlattenIntersectChildren (children : list QuantaFilterExpression) : list QuantaFilterExpression :=
  concat (map flattenIntersect children).

(** Candidate sets first, then children that contain some, then the others; children
    without any stay as they are. *)
Definition quantaFilterIntersectEvaluationOrder (children : list QuantaFilterExpression) : list QuantaFilterExpression :=
  if (length children <? 2)%nat then children else
  let flattened := quantaFilterFlattenIntersectChildren children in
  let contains := quantaFilterExpressionContainsCandidateSetLeaf in
  let ordered := filter (fun t => CandidateSetLeaf t = true) flattened ++
                 filter (fun t => CandidateSetLeaf t = false /\ contains t = true) flattened in
  if decide (length ordered = 0%nat) then children
  else ordered ++ filter (fun t => CandidateSetLeaf t = false /\ contains t = false) flattened.

(** ** The evaluator *)

(** The evaluator of a fragment, and what it can do with known candidates. *)
Record QuantaFilterLeafEvaluator (S : Type) : Type := mkLeaves {
  EvaluateFilterLeaf : QuantaQueryFragment -> stgo S (QuantaCandidateSet * DiagnosticSet);
  EvaluateFilterLeafWithinCandidateSet :
    option (QuantaQueryFragment -> QuantaCandidateSet -> stgo S (QuantaCandidateSet * DiagnosticSet)) }.
Arguments mkLeaves {S}.
Arguments EvaluateFilterLeaf {S}.
Arguments EvaluateFilterLeafWithinCandidateSet {S}.

Definition DiagnosticInternalInvariant : bytes := str "internal_invariant".

Section Evaluate.

(** The state the fragments are evaluated on, and the context's error in it. *)
Context {S : Type} (ctx_Err : S -> option error).
Context (leaves : option (QuantaFilterLeafEvaluator S)).

Definition checkContext : stgo S unit := fun s => (match ctx_Err s with Some e => Err e | None => Ok () end, s).

Section Children.

Context (evaluate : QuantaFilterExpression -> stgo S (QuantaCandidateSet * DiagnosticSet)).

Fixpoint mergeChildren (merge : QuantaCandidateSet -> QuantaCandidateSet -> QuantaCandidateSet)
    (current : QuantaCandidateSet) (diagnostics : DiagnosticSet) (children : list QuantaFilterExpression)
    : stgo S (QuantaCandidateSet * DiagnosticSet) :=
  match children with
  | [] => mret (current, diagnostics)
  | child :: children =>
    checkContext ≫= fun _ =>
    '(next, childDiagnostics) ← evaluate child;
    let diagnostics := diagnostics ++ childDiagnostics in
    if BlocksNative diagnostics then mret (current, diagnostics)
    else mergeChildren merge (merge current next) diagnostics children
  end.

Definition evaluateFilterChildren (children : list QuantaFilterExpression)
    (merge : QuantaCandidateSet -> QuantaCandidateSet -> QuantaCandidateSet) : stgo S (QuantaCandidateSet * DiagnosticSet) :=
  match children with
  | [] => mret (noCandidates, [])
  | child :: children =>
    '(current, diagnostics) ← evaluate child;
    if BlocksNative diagnostics then mret (current, diagnostics)
    else mergeChildren merge current diagnostics children
  end.

Definition evaluateFilterIntersectChild (child : QuantaFilterExpression) (current : QuantaCandidateSet)
    : stgo S (QuantaCandidateSet * DiagnosticSet) :=
  match child, leaves ≫= EvaluateFilterLeafWithinCandidateSet with
  | FLeaf fragment, Some constrained =>
    if decide (length (cs_Rownums current) = 0%nat) then evaluate child else constrained fragment current
  | _, _ => evaluate child
  end.

Fixpoint intersectChildren (current : QuantaCandidateSet) (diagnostics : DiagnosticSet)
    (children : list QuantaFilterExpression) : stgo S (QuantaCandidateSet * DiagnosticSet) :=
  match children with
  | [] => mret (current, diagnostics)
  | child :: children =>
    checkContext ≫= fun _ =>
    '(next, childDiagnostics) ← evaluateFilterIntersectChild child current;
    let diagnostics := diagnostics ++ childDiagnostics in
    if BlocksNative diagnostics then mret (current, diagnostics)
    else
      let current := quantaFilterIntersectCandidateSets current next in
      if decide (length (cs_Rownums current) = 0%nat) then mret (current, diagnostics)
      else intersectChildren current diagnostics children
  end.

Definition evaluateFilterIntersectChildren (children : list QuantaFilterExpression)
    : stgo S (QuantaCandidateSet * DiagnosticSet) :=
  match quantaFilterIntersectEvaluationOrder children with
  | [] => mret (noCandidates, [])
  | child :: ordered =>
    '(current, diagnostics) ← evaluate child;
    if BlocksNative diagnostics then mret (current, diagnostics)
    else if decide (length (cs_Rownums current) = 0%nat) then mret (current, diagnostics)
    else intersectChildren current diagnostics ordered
  end.

End Children.

(** The fuel is the size of the tree. *)
Fixpoint filterSize (t : QuantaFilterExpression) : nat :=
  match t with
  | FIntersect l | FUnion l => Datatypes.S (sum_list_with filterSize l)
  | _ => 1
  end.

Fixpoint evaluateFilter (fuel : nat) (t : QuantaFilterExpression) : stgo S (QuantaCandidateSet * DiagnosticSet) :=
  match fuel with
  | O => lift Panic
  | Datatypes.S fuel =>
    checkContext ≫= fun _ =>
    match t with
    | FEmpty => mret (noCandidates, [])
    | FLeaf fragment =>
      match leaves with
      | None => mret (noCandidates,
          [ErrorDiagnostic DiagnosticInternalInvariant (str "filter tree evaluator has no leaf evaluator")])
      | Some leaves => EvaluateFilterLeaf leaves fragment
      end
    | FCandidateSet candidates => mret (candidates, [])
    | FIntersect children => evaluateFilterIntersectChildren (evaluateFilter fuel) children
    | FUnion children => evaluateFilterChildren (evaluateFilter fuel) children quantaFilterUnionCandidateSets
    end
  end.

Definition EvaluateFilter (t : QuantaFilterExpression) : stgo S (QuantaCandidateSet * DiagnosticSet) :=
  evaluateFilter (filterSize t) t.

End Evaluate.

(** ** Sets of rows are sets *)

Lemma rownumPositions_spec rows r p : p ∈ default [] (rownumPositions rows !! r) <-> rows !! p = Some r.
Proof.
  induction rows as [|x rows IH] using rev_ind.
  { unfold rownumPositions. cbn. rewrite lookup_empty. cbn. by rewrite elem_of_nil, lookup_nil. }
  assert (rownumPositions (rows ++ [x]) = <[x := default [] (rownumPositions rows !! x) ++ [length rows]]> (rownumPositions rows)) as ->.
  { unfold rownumPositions. rewrite imap_app, foldl_app. cbn. by rewrite Nat.add_0_r. }
  destruct (decide (r = x)) as [->|Hne].
  - rewrite lookup_insert_eq. cbn [default from_option]. unfold id. rewrite elem_of_app, list_elem_of_singleton, IH, lookup_app_Some.
    split; [intros [Hp| ->]; [by left|right]|intros [Hp|[Hle Hx]]; [by left|right]].
    + by rewrite Nat.sub_diag.
    + apply list_lookup_singleton_Some in Hx as [Hx _]. lia.
  - rewrite lookup_insert_ne, IH by done. rewrite lookup_app_Some. split; [by left|]. intros [Hp|[_ Hx]]; [done|].
    apply list_lookup_singleton_Some in Hx as [_ <-]. done.
Qed.

Lemma mark_length ps matched : length (foldl (fun matched p => <[p := true]> matched) matched ps : list bool) = length matched.
Proof. revert matched. induction ps as [|p ps IH]; intros matched; cbn [foldl]; [done|]. by rewrite IH, length_insert. Qed.

Lemma mark_lookup ps matched i : (i < length matched)%nat ->
  foldl (fun matched p => <[p := true]> matched) matched ps !! i = Some true <-> matched !! i = Some true \/ i ∈ ps.
Proof.
  revert matched. induction ps as [|p ps IH]; intros matched Hi; cbn [foldl]; [rewrite elem_of_nil; tauto|].
  rewrite IH, elem_of_cons by by rewrite length_insert. destruct (decide (i = p)) as [->|Hne].
  - rewrite list_lookup_insert_eq by done. tauto.
  - rewrite list_lookup_insert_ne by done. tauto.
Qed.

Lemma markPositions_length positions rows matched : length (markPositions positions matched rows) = length matched.
Proof.
  revert matched. unfold markPositions. induction rows as [|r rows IH]; intros matched; cbn [foldl]; [done|]. by rewrite IH, mark_length.
Qed.

Lemma markPositions_spec positions rows matched i : (i < length matched)%nat ->
  markPositions positions matched rows !! i = Some true <->
    matched !! i = Some true \/ exists r, r ∈ rows /\ i ∈ default [] (positions !! r).
Proof.
  revert matched. unfold markPositions. induction rows as [|r rows IH]; intros matched Hi; cbn [foldl].
  - split; [by left|]. intros [?|(r & Hr & _)]; [done|]. by apply elem_of_nil in Hr.
  - rewrite IH, mark_lookup by by rewrite ?mark_length. setoid_rewrite elem_of_cons. naive_solver.
Qed.

Lemma zip_filter (P : Z -> Prop) `{!forall x, Decision (P x)} (l : list Z) :
  map fst (filter (fun p : Z * bool => p.2 = true) (zip l (map (fun x => bool_decide (P x)) l))) = filter P l.
Proof.
  induction l as [|x l IH]; [done|]. cbn [map zip zip_with]. rewrite !filter_cons. cbn [snd]. rewrite <- IH.
  destruct (decide (P x)) as [Hx|Hx].
  - rewrite bool_decide_true by done. by rewrite decide_True by done.
  - rewrite bool_decide_false by done. by rewrite decide_False by done.
Qed.

(** Both ways to intersect keep the rows of the left set that are in the right one. *)
Lemma intersect_rownums l r :
  cs_Rownums (quantaFilterIntersectCandidateSets l r) = filter (fun x => x ∈ cs_Rownums r) (cs_Rownums l).
Proof.
  unfold quantaFilterIntersectCandidateSets, quantaFilterRownumSet. cbn [cs_Rownums]. case_if.
  - rewrite <- zip_filter. do 3 f_equal. apply list_eq_same_length with (n := length (cs_Rownums l)).
    + by rewrite length_map.
    + by rewrite markPositions_length, length_replicate.
    + intros i b c Hi Hb Hc. rewrite list_lookup_fmap in Hc. destruct (cs_Rownums l !! i) as [x|] eqn:Ex; [|done]. cbn in Hc. injection Hc as <-.
      pose proof (markPositions_spec (rownumPositions (cs_Rownums l)) (cs_Rownums r) (replicate (length (cs_Rownums l)) false) i) as Hm.
      rewrite length_replicate in Hm. specialize (Hm Hi). rewrite Hb in Hm. setoid_rewrite rownumPositions_spec in Hm.
      rewrite lookup_replicate_2 in Hm by done. apply eq_true_iff_eq. rewrite bool_decide_eq_true.
      split; [intros ->; destruct Hm as [Hm _]; destruct (Hm eq_refl) as [?|(y & Hy & Ey)]; congruence|].
      intros Hx. destruct Hm as [_ Hm]. enough (Some b = Some true) by congruence. apply Hm. right. by exists x.
  - apply list_filter_iff. intros x. by rewrite elem_of_list_to_set.
Qed.

Lemma appendUnseen_spec rows x : forall seen, x ∈ appendUnseen seen rows <-> x ∈ rows /\ x ∉ seen.
Proof.
  induction rows as [|r rows IH]; intros seen; cbn [appendUnseen]; [rewrite elem_of_nil; tauto|].
  case_decide as Hr; rewrite ?elem_of_cons, IH, ?elem_of_cons; [|rewrite elem_of_union, elem_of_singleton]; destruct (decide (x = r)); set_solver.
Qed.

Lemma union_rownums l r x :
  x ∈ cs_Rownums (quantaFilterUnionCandidateSets l r) <-> x ∈ cs_Rownums l \/ x ∈ cs_Rownums r.
Proof.
  unfold quantaFilterUnionCandidateSets, quantaFilterRownumSet. cbn [cs_Rownums].
  rewrite elem_of_app, appendUnseen_spec, elem_of_list_to_set. destruct (decide (x ∈ cs_Rownums l)); tauto.
Qed.

(** ** The order keeps the conjunction *)

Lemma flattenIntersect_rows leaf t : properFilter t = true ->
  flattenIntersect t <> [] /\ Forall (fun c => properFilter c = true) (flattenIntersect t) /\
  (forall x, Forall (fun c => treeRows leaf c x) (flattenIntersect t) <-> treeRows leaf t x).
Proof.
  induction t as [| | |l IH|l] using filter_ind'; intros Hp; [done|..].
  1-2,4: cbn [flattenIntersect]; split_and!; [done|by repeat constructor|]; intros x; by rewrite Forall_singleton.
  apply proper_children in Hp as [Hne Hp]. cbn [flattenIntersect].
  setoid_rewrite treeRows_intersect. induction Hp as [|t l Ht Hl IHl]; [done|]. clear Hne.
  apply Forall_cons in IH as [IHt IH]. destruct (IHt Ht) as (Hne & Hprop & Hrows). cbn [map concat].
  destruct (decide (l = [])) as [->|Hn].
  { cbn [map concat]. rewrite app_nil_r. split_and!; [done..|]. intros x. by rewrite Hrows, Forall_singleton. }
  destruct (IHl IH Hn) as (Hne' & Hprop' & Hrows'). split_and!.
  - intros [E _]%app_eq_nil. done.
  - by apply Forall_app.
  - intros x. by rewrite Forall_app, Forall_cons, Hrows, Hrows'.
Qed.

Lemma elem_of_concat_map {A B} (f : A -> list B) l b : b ∈ concat (map f l) <-> exists a, a ∈ l /\ b ∈ f a.
Proof.
  rewrite list_elem_of_In, in_concat. setoid_rewrite in_map_iff. setoid_rewrite <- list_elem_of_In. naive_solver.
Qed.

Lemma flattenIntersect_size t c : c ∈ flattenIntersect t -> (filterSize c <= filterSize t)%nat.
Proof.
  induction t as [| | |l IH|l] using filter_ind'; cbn [flattenIntersect]; try (intros ->%list_elem_of_singleton; done).
  intros (t & Ht & Hc)%elem_of_concat_map.
  rewrite Forall_forall in IH. specialize (IH t Ht Hc). cbn [filterSize].
  pose proof (sum_list_with_in t filterSize l Ht). lia.
Qed.

Lemma flattenIntersect_leaves P C t : everyLeaf P C t -> Forall (everyLeaf P C) (flattenIntersect t).
Proof.
  induction t as [| | |l IH|l _] using filter_ind'; cbn [flattenIntersect]; try by repeat constructor.
  intros Hl%everyLeaf_children. apply Forall_concat, Forall_map. rewrite Forall_forall in IH, Hl |- *. intros t Ht. by apply IH, Hl.
Qed.

(** Three exclusive tests split a list. *)
Lemma filter_three {A} (f g : A -> bool) (l : list A) :
  filter (fun t => f t = true) l ++ filter (fun t => f t = false /\ g t = true) l ++ filter (fun t => f t = false /\ g t = false) l ≡ₚ l.
Proof.
  induction l as [|a l IH]; [done|]. rewrite !filter_cons. destruct (f a) eqn:Ef, (g a) eqn:Eg; rewrite ?Ef, ?Eg;
    repeat (first [rewrite decide_True by done|rewrite decide_False by naive_solver]).
  1-2: cbn [app]; by rewrite IH.
  - cbn [app]. rewrite <- Permutation_middle. by rewrite IH.
  - rewrite app_assoc, <- Permutation_middle, <- app_assoc. by rewrite IH.
Qed.

Lemma order_cases children : quantaFilterIntersectEvaluationOrder children = children \/
  quantaFilterIntersectEvaluationOrder children ≡ₚ quantaFilterFlattenIntersectChildren children.
Proof.
  unfold quantaFilterIntersectEvaluationOrder. case_if; [by left|]. case_decide; [by left|]. right.
  rewrite <- app_assoc. apply filter_three.
Qed.

(** The children in the order of their evaluation mean the same. *)
Lemma order_rows leaf (P : QuantaQueryFragment -> Prop) (C : QuantaCandidateSet -> Prop) children : children <> [] ->
  Forall (fun c => properFilter c = true) children -> Forall (everyLeaf P C) children ->
  let ordered := quantaFilterIntersectEvaluationOrder children in
  ordered <> [] /\ Forall (fun c => properFilter c = true /\ everyLeaf P C c /\ (filterSize c <= sum_list_with filterSize children)%nat) ordered /\
  forall x, Forall (fun c => treeRows leaf c x) ordered <-> Forall (fun c => treeRows leaf c x) children.
Proof.
  intros Hne Hp Hl. cbn zeta. destruct (order_cases children) as [-> | Hperm].
  - split_and!; [done| |done]. rewrite !Forall_forall in *. intros c Hc. split_and!; [by apply Hp|by apply Hl|].
    by apply sum_list_with_in.
  - assert (properFilter (FIntersect children) = true) as Hpi by (by apply proper_children).
    destruct (flattenIntersect_rows leaf (FIntersect children) Hpi) as (Hfn & Hfp & Hfr).
    assert (everyLeaf P C (FIntersect children)) as Hli by (by apply everyLeaf_children).
    pose proof (flattenIntersect_leaves P C (FIntersect children) Hli) as Hfl.
    change (flattenIntersect (FIntersect children)) with (quantaFilterFlattenIntersectChildren children) in *.
    split_and!.
    + intros E. apply Hfn. rewrite E in Hperm. symmetry in Hperm. by apply Permutation_nil_r in Hperm.
    + rewrite Hperm. rewrite Forall_forall in Hfp, Hfl |- *. intros c Hc. split_and!; [by apply Hfp|by apply Hfl|].
      apply elem_of_concat_map in Hc as (t & Ht & Hc). apply flattenIntersect_size in Hc. pose proof (sum_list_with_in t filterSize children Ht). lia.
    + intros x. rewrite Hperm, Hfr. apply treeRows_intersect.
Qed.

(** ** The contract of the fragments, and of the tree *)

Section Exact.

Context {S : Type} (ctx_Err : S -> option error) (leaves : QuantaFilterLeafEvaluator S).

(** In states with [inv] the context is live, and a fragment with [ok] is evaluated to the
    rows of [leaf], which are in the domain; with candidates of the domain it is exact on
    them. *)
Class LeafContract (inv : S -> Prop) (ok : QuantaQueryFragment -> Prop) (domain : Z -> Prop)
    (leaf : QuantaQueryFragment -> Z -> Prop) : Prop := {
  leaf_live : forall s, inv s -> ctx_Err s = None;
  leaf_exact : forall f s, ok f -> inv s -> exists cs d s',
    EvaluateFilterLeaf leaves f s = (Ok (cs, d), s') /\ inv s' /\ BlocksNative d = false /\
    forall x, x ∈ cs_Rownums cs <-> leaf f x;
  leaf_domain : forall f x, ok f -> leaf f x -> domain x;
  leaf_within : forall within f candidates s, EvaluateFilterLeafWithinCandidateSet leaves = Some within ->
    ok f -> Forall domain (cs_Rownums candidates) -> inv s -> exists cs d s', within f candidates s = (Ok (cs, d), s') /\ inv s' /\ BlocksNative d = false /\
    forall x, x ∈ cs_Rownums candidates -> x ∈ cs_Rownums cs <-> leaf f x }.

Context (inv : S -> Prop) (ok : QuantaQueryFragment -> Prop) (domain : Z -> Prop) (leaf : QuantaQueryFragment -> Z -> Prop).
Context `{!LeafContract inv ok domain leaf}.

Definition inDomain (c : QuantaCandidateSet) : Prop := Forall domain (cs_Rownums c).

Lemma treeRows_domain t : properFilter t = true -> everyLeaf ok inDomain t -> forall x, treeRows leaf t x -> domain x.
Proof.
  induction t as [|f|c|l IH|l IH] using filter_ind'; intros Hp Hl x.
  - done.
  - by apply (leaf_domain f).
  - cbn. intros Hx. cbn [everyLeaf] in Hl. unfold inDomain in Hl. rewrite Forall_forall in Hl. by apply Hl.
  - apply proper_children in Hp as [Hne Hp]. apply everyLeaf_children in Hl. rewrite treeRows_intersect.
    destruct l as [|t l]; [done|]. apply Forall_cons in IH as [IH _], Hp as [Hp _], Hl as [Hl _]. intros [Hx _]%Forall_cons. by apply IH.
  - apply proper_children in Hp as [Hne Hp]. apply everyLeaf_children in Hl. rewrite treeRows_union.
    rewrite Forall_forall in IH, Hp, Hl. intros (t & Ht & Hx)%Exists_exists. by apply (IH t Ht (Hp t Ht) (Hl t Ht)).
Qed.

(** An evaluation that succeeds with exactly the rows of [rows]. *)
Definition evaluatesTo (m : stgo S (QuantaCandidateSet * DiagnosticSet)) (rows : Z -> Prop) : Prop := forall s, inv s ->
  exists cs d s', m s = (Ok (cs, d), s') /\ inv s' /\ BlocksNative d = false /\ forall x, x ∈ cs_Rownums cs <-> rows x.

Lemma blocks_app d e : BlocksNative d = false -> BlocksNative e = false -> BlocksNative (d ++ e) = false.
Proof. unfold BlocksNative. intros Hd He. by rewrite existsb_app, Hd, He. Qed.

Lemma context_live {A} (k : unit -> stgo S A) s : inv s -> (checkContext ctx_Err ≫= k) s = k () s.
Proof. intros Hs. unfold mbind, stgo_bind, checkContext. by rewrite (leaf_live s Hs). Qed.

Section Children.

Context (evaluate : QuantaFilterExpression -> stgo S (QuantaCandidateSet * DiagnosticSet)).

Lemma mergeChildren_union children : Forall (fun c => evaluatesTo (evaluate c) (treeRows leaf c)) children ->
  forall current d s, inv s -> BlocksNative d = false -> exists cs d' s',
    mergeChildren ctx_Err evaluate quantaFilterUnionCandidateSets current d children s = (Ok (cs, d'), s') /\ inv s' /\
    BlocksNative d' = false /\
    forall x, x ∈ cs_Rownums cs <-> x ∈ cs_Rownums current \/ Exists (fun c => treeRows leaf c x) children.
Proof.
  induction 1 as [|c children Hc _ IH]; intros current d s Hs Hd; cbn [mergeChildren].
  { exists current, d, s. split_and!; [done..|]. intros x. rewrite Exists_nil. tauto. }
  rewrite context_live by done. destruct (Hc s Hs) as (next & e & s1 & E & Hs1 & He & Hr).
  rewrite (bind_run _ _ _ _ _ E). cbn beta iota. rewrite blocks_app by done.
  destruct (IH (quantaFilterUnionCandidateSets current next) (d ++ e) s1 Hs1 (blocks_app d e Hd He)) as (cs & d' & s' & -> & Hs' & Hd' & Hr').
  exists cs, d', s'. split_and!; [done..|]. intros x. rewrite Hr', union_rownums, Hr, Exists_cons. tauto.
Qed.

Lemma intersectChild_exact c current s : evaluatesTo (evaluate c) (treeRows leaf c) -> everyLeaf ok inDomain c ->
  inDomain current -> inv s ->
  exists cs d s', evaluateFilterIntersectChild (Some leaves) evaluate c current s = (Ok (cs, d), s') /\ inv s' /\
    BlocksNative d = false /\ forall x, x ∈ cs_Rownums current -> x ∈ cs_Rownums cs <-> treeRows leaf c x.
Proof.
  intros Hc Hl Hcur Hs. assert (exists cs d s', evaluate c s = (Ok (cs, d), s') /\ inv s' /\
    BlocksNative d = false /\ forall x, x ∈ cs_Rownums current -> x ∈ cs_Rownums cs <-> treeRows leaf c x) as Hplain.
  { destruct (Hc s Hs) as (cs & d & s' & E & Hs' & Hd & Hr). exists cs, d, s'. split_and!; [done..|]. intros x _. apply Hr. }
  unfold evaluateFilterIntersectChild. destruct c as [|f| | |]; try done. cbn [mbind option_bind].
  destruct (EvaluateFilterLeafWithinCandidateSet leaves) as [within|] eqn:Ew; [|done]. case_decide; [done|].
  by apply (leaf_within within f current s Ew).
Qed.

Lemma empty_rows (l : list Z) : length l = 0%nat -> l = [].
Proof. by destruct l. Qed.

Lemma intersectChildren_exact children :
  Forall (fun c => evaluatesTo (evaluate c) (treeRows leaf c) /\ everyLeaf ok inDomain c) children ->
  forall current d s, inDomain current -> inv s -> BlocksNative d = false -> exists cs d' s',
    intersectChildren ctx_Err (Some leaves) evaluate current d children s = (Ok (cs, d'), s') /\ inv s' /\ BlocksNative d' = false /\
    forall x, x ∈ cs_Rownums cs <-> x ∈ cs_Rownums current /\ Forall (fun c => treeRows leaf c x) children.
Proof.
  induction 1 as [|c children [Hc Hl] _ IH]; intros current d s Hin Hs Hd; cbn [intersectChildren].
  { exists current, d, s. split_and!; [done..|]. intros x. rewrite Forall_nil. tauto. }
  rewrite context_live by done. destruct (intersectChild_exact c current s Hc Hl Hin Hs) as (next & e & s1 & E & Hs1 & He & Hr).
  rewrite (bind_run _ _ _ _ _ E). cbn beta iota. rewrite blocks_app by done.
  set (cur := quantaFilterIntersectCandidateSets current next).
  assert (forall x, x ∈ cs_Rownums cur <-> x ∈ cs_Rownums current /\ treeRows leaf c x) as Hcur.
  { intros x. unfold cur. rewrite intersect_rownums, list_elem_of_filter. specialize (Hr x). tauto. }
  case_decide as E0.
  - apply empty_rows in E0. exists cur, (d ++ e), s1. split_and!; [done|done|by apply blocks_app|].
    intros x. specialize (Hcur x). rewrite E0, elem_of_nil in *. rewrite Forall_cons. tauto.
  - assert (inDomain cur) as Hin'.
    { unfold inDomain in *. rewrite Forall_forall in Hin |- *. intros x [Hx _]%Hcur. by apply Hin. }
    destruct (IH cur (d ++ e) s1 Hin' Hs1 (blocks_app d e Hd He)) as (cs & d' & s' & E' & Hs' & Hd' & Hr').
    exists cs, d', s'. split_and!; [done..|]. intros x. rewrite Hr', Hcur, Forall_cons. tauto.
Qed.

End Children.

Lemma evaluateFilter_exact fuel : forall t, (filterSize t <= fuel)%nat -> properFilter t = true -> everyLeaf ok inDomain t ->
  evaluatesTo (evaluateFilter ctx_Err (Some leaves) fuel t) (treeRows leaf t).
Proof.
  induction fuel as [|fuel IH]; intros t Hsz Hp Hl s Hs; [destruct t; cbn in Hsz; lia|].
  cbn [evaluateFilter]. rewrite context_live by done. destruct t as [|f|c|children|children].
  - done.
  - by apply (leaf_exact f s).
  - by exists c, [], s.
  - cbn [filterSize] in Hsz. apply proper_children in Hp as [Hne Hp]. apply everyLeaf_children in Hl.
    destruct (order_rows leaf ok inDomain children Hne Hp Hl) as (Hon & Hoall & Hor). setoid_rewrite treeRows_intersect.
    unfold evaluateFilterIntersectChildren. destruct (quantaFilterIntersectEvaluationOrder children) as [|c ordered]; [done|].
    assert (Forall (fun c => evaluatesTo (evaluateFilter ctx_Err (Some leaves) fuel c) (treeRows leaf c) /\ everyLeaf ok inDomain c) (c :: ordered)) as Hall.
    { eapply Forall_impl; [exact Hoall|]. intros c' (Hp' & Hl' & Hsz'). split; [|done]. apply IH; [lia|done..]. }
    apply Forall_cons in Hall as [[Hc _] Hrest], Hoall as [(Hpc & Hlc & _) _].
    destruct (Hc s Hs) as (cur & d & s1 & E & Hs1 & Hd & Hr).
    rewrite (bind_run _ _ _ _ _ E). cbn beta iota. rewrite Hd. case_decide as E0.
    + apply empty_rows in E0. exists cur, d, s1. split_and!; [done..|]. intros x. rewrite <- Hor, Forall_cons, <- Hr, E0, elem_of_nil. tauto.
    + assert (inDomain cur) as Hin.
      { apply Forall_forall. intros x Hx%Hr. by apply (treeRows_domain c). }
      destruct (intersectChildren_exact _ ordered Hrest cur d s1 Hin Hs1 Hd) as (cs & d' & s' & E' & Hs' & Hd' & Hr').
      exists cs, d', s'. split_and!; [done..|]. intros x. by rewrite Hr', Hr, <- Hor, Forall_cons.
  - cbn [filterSize] in Hsz. apply proper_children in Hp as [Hne Hp]. apply everyLeaf_children in Hl.
    setoid_rewrite treeRows_union. unfold evaluateFilterChildren. destruct children as [|c children]; [done|].
    assert (Forall (fun c => evaluatesTo (evaluateFilter ctx_Err (Some leaves) fuel c) (treeRows leaf c)) (c :: children)) as Hall.
    { rewrite Forall_forall in Hp, Hl |- *. intros c' Hc'. pose proof (sum_list_with_in c' filterSize (c :: children) Hc').
      apply IH; [lia|by apply Hp|by apply Hl]. }
    apply Forall_cons in Hall as [Hc Hrest]. destruct (Hc s Hs) as (cur & d & s1 & E & Hs1 & Hd & Hr).
    rewrite (bind_run _ _ _ _ _ E). cbn beta iota. rewrite Hd.
    destruct (mergeChildren_union _ children Hrest cur d s1 Hs1 Hd) as (cs & d' & s' & E' & Hs' & Hd' & Hr').
    exists cs, d', s'. split_and!; [done..|]. intros x. by rewrite Hr', Hr, Exists_cons.
Qed.

(** C6. The rows of a filter tree.  With an evaluator of fragments that keeps its contract,
    the evaluation of a tree without empty nodes succeeds, and its rows are exactly those of
    the formula of unions and intersections, whatever the order, the early exits and the
    restriction to known candidates. *)
Theorem filter_tree_exact t s : properFilter t = true -> everyLeaf ok inDomain t -> inv s -> exists cs d s',
  EvaluateFilter ctx_Err (Some leaves) t s = (Ok (cs, d), s') /\ inv s' /\ BlocksNative d = false /\
  forall x, x ∈ cs_Rownums cs <-> treeRows leaf t x.
Proof. intros Hp Hl Hs. by apply (evaluateFilter_exact (filterSize t) t). Qed.


End Exact.

(** ** An example: the state counts the evaluated fragments *)

Section Example.

Definition exampleLeafRows (f : QuantaQueryFragment) : list Z :=
  if decide (fg_Field f = str "a") then [1; 2; 3; 4] else [2; 4; 6].

Definition exampleLeaves : QuantaFilterLeafEvaluator nat := mkLeaves
  (fun f n => (Ok (mkCandidateSet (str "t") (exampleLeafRows f), []), S n))
  (Some (fun f candidates n =>
    (Ok (mkCandidateSet (str "t") (filter (fun x => x ∈ exampleLeafRows f) (cs_Rownums candidates)), []), S n))).

#[local] Instance exampleLeaves_contract :
  LeafContract (fun _ : nat => None) exampleLeaves (fun _ => True) (fun _ => True) (fun _ => True) (fun f x => x ∈ exampleLeafRows f).
Proof.
  split; [done| |done|].
  - intros f s _ _. by eexists _, _, _.
  - intros within f candidates s [= <-] _ _ _. eexists _, _, _. split_and!; [done..|]. intros x Hx. cbn [cs_Rownums].
    rewrite list_elem_of_filter. tauto.
Qed.

Definition exampleLeaf (field : bytes) : QuantaFilterExpression :=
  FLeaf (mkFragment (str "t") [] field OperationIntersect BSIOpNone None [] None None None [] None false false false false).

Definition exampleTree : QuantaFilterExpression :=
  FIntersect [exampleLeaf (str "a"); FUnion [exampleLeaf (str "b"); FCandidateSet (mkCandidateSet (str "t") [3])]].

Lemma filter_tree_exact_witness : exists cs d s',
  EvaluateFilter (fun _ : nat => None) (Some exampleLeaves) exampleTree 0%nat = (Ok (cs, d), s') /\ True /\ BlocksNative d = false /\
  forall x, x ∈ cs_Rownums cs <-> treeRows (fun f x => x ∈ exampleLeafRows f) exampleTree x.
Proof.
  apply (filter_tree_exact (fun _ : nat => None) exampleLeaves (fun _ => True) (fun _ => True) (fun _ => True) (fun f x => x ∈ exampleLeafRows f)
    exampleTree 0%nat); [done|cbn; unfold inDomain; repeat split; by repeat constructor|done].
Defined.

End Example.
