(* ===== verification/DirectQuery.v ===== *)
(** * Bitmap queries of the SQL runtime

    From a lowered request to the bitmap query of the storage client and back
    (qsruntime/quanta_legacy_adapter.go, legacy_bitmap_result.go, RootIndex of
    execution.go, the session handle of legacy_direct_runtime.go, the time columns of
    legacy_direct_relationship_join.go and legacy_catalog.go, LegacyEncodingProfile).
    A table partitioned by time is read in a window of its shards, taken from the
    predicates on its time column.  Probes and execution options are left out. *)

From S2P Require Import Prelude GoStd GoState GoTime TimeLayout Value Catalog Sequencer Bitmaps BSIBinary BitmapQuery NodeQuery ClientQuery SqlIR Lowering.

(** ** Requests *)

Inductive QuantaSeedKind : Type := QuantaSeedTableExistence | QuantaSeedOther (name : bytes).

Record QuantaSeed : Type := mkSeed {
  sd_SeedIndex : bytes;
  sd_SeedRole : bytes;
  sd_SeedField : bytes;
  sd_Kind : QuantaSeedKind;
  sd_Begin : option Z;
  sd_End : option Z;
  sd_ShardWindow : bool }.

Record QuantaProjectionField : Type := mkProjectionField {
  pj_Index : bytes;
  pj_Field : bytes;
  pj_PhysicalName : bytes;
  pj_Type : DataType }.

(** The parts of a request that the bitmap query depends on; of the joins and
    memberships only their number. *)
Record ExecutionRequest : Type := mkRequest {
  rq_Seeds : list QuantaSeed;
  rq_Fragments : list QuantaQueryFragment;
  rq_Filter : QuantaFilterExpression;
  rq_ProjectionFields : list QuantaProjectionField;
  rq_MaterializationFields : list QuantaProjectionField;
  rq_SourceIndexes : list bytes;
  rq_MutationTable : bytes;
  rq_CandidateSet : option QuantaCandidateSet;       (* with HasCandidateSet *)
  rq_Joins : nat;
  rq_Memberships : nat;
  rq_PreserveBitmapFragmentOrder : bool }.

Definition withSeeds (r : ExecutionRequest) (seeds : list QuantaSeed) (fields : list QuantaProjectionField) : ExecutionRequest :=
  mkRequest seeds (rq_Fragments r) (rq_Filter r) fields (rq_MaterializationFields r) (rq_SourceIndexes r)
    (rq_MutationTable r) (rq_CandidateSet r) (rq_Joins r) (rq_Memberships r) (rq_PreserveBitmapFragmentOrder r).

Definition withFragments (r : ExecutionRequest) (fragments : list QuantaQueryFragment) (filter : QuantaFilterExpression)
    (fields : list QuantaProjectionField) (candidates : option QuantaCandidateSet) : ExecutionRequest :=
  mkRequest (rq_Seeds r) fragments filter fields (rq_MaterializationFields r) (rq_SourceIndexes r)
    (rq_MutationTable r) candidates (rq_Joins r) (rq_Memberships r) (rq_PreserveBitmapFragmentOrder r).

(** The first name that is not empty. *)
Definition firstName (names : list bytes) : option bytes := head (filter (fun n => n <> []) names).

Definition RootIndex (r : ExecutionRequest) : option bytes :=
  firstName (map fg_Index (rq_Fragments r) ++ map sd_SeedIndex (rq_Seeds r) ++ map pj_Index (rq_ProjectionFields r) ++
             rq_SourceIndexes r ++ [rq_MutationTable r]).

Definition filterEmpty (t : QuantaFilterExpression) : bool := match t with FEmpty => true | _ => false end.

(** ** Tables *)

Record ShardAttribute : Type := mkShardAttribute {
  sa_FieldName : bytes;
  sa_SourceName : bytes;
  sa_Type : bytes;
  sa_MappingStrategy : bytes;
  sa_MapperConfig : gmap bytes bytes }.

(** The attribute names in the order in which their map is read. *)
Record ShardTable : Type := mkShardTable {
  st_Name : bytes;
  st_PrimaryKey : bytes;
  st_TimeQuantumType : bytes;
  st_TimeQuantumField : bytes;
  st_Attributes : list ShardAttribute;
  st_AttributeNameMap : list (bytes * ShardAttribute) }.

Section Tables.

Context `{TextLib}.

Definition legacyDataType (legacyType : bytes) : DataType :=
  let name := ToLower (TrimSpace legacyType) in
  if bool_decide (name ∈ [str "integer"; str "int"]) then DataTypeInt
  else if bool_decide (name ∈ [str "float"; str "number"; str "decimal"]) then DataTypeFloat
  else if bool_decide (name ∈ [str "date"; str "datetime"; str "time"]) then DataTypeTime
  else if bool_decide (name ∈ [str "boolean"; str "bool"]) then DataTypeBool
  else if bool_decide (name = str "string") then DataTypeString
  else DataTypeUnknown.

Definition LegacyTimeBSIGranularity (config : gmap bytes bytes) : TimeGranularity :=
  match omap (fun key => config !! key) [str "granularity"; str "precision"; str "unit"] with
  | [] => TimeGranularityUnknown
  | raw :: _ =>
    let name := ToLower (TrimSpace raw) in
    if bool_decide (name ∈ [str "s"; str "sec"; str "second"; str "seconds"]) then TimeGranularitySecond
    else if bool_decide (name ∈ [str "ms"; str "milli"; str "millisecond"; str "milliseconds"]) then TimeGranularityMillisecond
    else if bool_decide (name ∈ [str "us"; str "micro"; str "microsecond"; str "microseconds"]) then TimeGranularityMicrosecond
    else if bool_decide (name ∈ [str "ns"; str "nano"; str "nanosecond"; str "nanoseconds"]) then TimeGranularityNanosecond
    else TimeGranularityUnknown
  end.

(** The granularity of a mapping strategy that stores instants; [None] for the others. *)
Definition timeBSIGranularity (legacyName : bytes) (granularity : TimeGranularity) : option TimeGranularity :=
  let name := ToLower (TrimSpace legacyName) in
  if bool_decide (name = ToLower (str "TimestampBSI")) || bool_decide (name = ToLower (str "TimeStampBSI"))
  then Some (match granularity with TimeGranularityUnknown => TimeGranularityMillisecond | g => g end)
  else if bool_decide (name = ToLower (str "SysSecBSI")) then Some TimeGranularitySecond
  else if bool_decide (name = ToLower (str "SysMillisBSI")) then Some TimeGranularityMillisecond
  else if bool_decide (name = ToLower (str "SysMicroBSI")) then Some TimeGranularityMicrosecond
  else if bool_decide (name = ToLower (str "SysNanoBSI")) then Some TimeGranularityNanosecond
  else None.

Definition attributeName (a : ShardAttribute) : bytes :=
  if decide (sa_FieldName a = []) then sa_SourceName a else sa_FieldName a.

Definition isTimeAttribute (a : ShardAttribute) : bool :=
  bool_decide (legacyDataType (sa_Type a) = DataTypeTime) &&
  bool_decide (is_Some (timeBSIGranularity (sa_MappingStrategy a) (LegacyTimeBSIGranularity (sa_MapperConfig a)))).

Definition legacyDirectRelationshipTimeQuantumField (table : option ShardTable) : bytes :=
  match table with
  | None => []
  | Some table =>
    if negb (bool_decide (st_TimeQuantumField table = [])) then st_TimeQuantumField table
    else default [] (head (map attributeName
      (filter (fun a => attributeName a <> [] /\ isTimeAttribute a = true) (st_Attributes table))))
  end.

(** The text after the last dot. *)
Fixpoint afterLastDot (s : bytes) : option bytes :=
  match s with
  | [] => None
  | b :: s => match afterLastDot s with
              | Some rest => Some rest
              | None => if ub b =? 46 then Some s else None
              end
  end.

Definition legacyDirectRelationshipFragmentFieldName (field : bytes) : bytes :=
  match afterLastDot field with Some (b :: rest) => b :: rest | _ => field end.

Definition legacyDirectRelationshipTimeAttribute (table : ShardTable) (field : bytes) : option ShardAttribute :=
  if decide (field = []) then None else
  let name := legacyDirectRelationshipFragmentFieldName field in
  let byName (test : bytes -> bool) := snd <$> head (filter (fun p => test p.1 = true) (st_AttributeNameMap table)) in
  match byName (fun n => bool_decide (n = name)) with
  | Some a => Some a
  | None =>
    match byName (fun n => EqualFold n name) with
    | Some a => Some a
    | None => head (filter (fun a => (EqualFold (sa_FieldName a) name || EqualFold (sa_SourceName a) name) = true) (st_Attributes table))
    end
  end.

Definition legacyDirectRelationshipTimeGranularity (table : ShardTable) (field : bytes) : TimeGranularity :=
  match legacyDirectRelationshipTimeAttribute table field with
  | Some a => default TimeGranularityMillisecond
                (timeBSIGranularity (sa_MappingStrategy a) (LegacyTimeBSIGranularity (sa_MapperConfig a)))
  | None => TimeGranularityMillisecond
  end.

Definition legacyDirectRelationshipTimeMillisToEncoded (table : ShardTable) (field : bytes) (epochMillis : Z) : Z :=
  match legacyDirectRelationshipTimeGranularity table field with
  | TimeGranularityMicrosecond => wrap_s 64 (epochMillis * 1000)
  | TimeGranularitySecond => Z.quot epochMillis 1000
  | TimeGranularityNanosecond => wrap_s 64 (epochMillis * 1000000)
  | TimeGranularityDay => Z.quot epochMillis 86400000
  | _ => epochMillis
  end.

(** 1900-01-01 and 2100-01-01 *)
Definition legacyDirectRelationshipFullTimeRangeBeginMillis : Z := -2208988800000.
Definition legacyDirectRelationshipFullTimeRangeEndMillis : Z := 4102444800000.

Definition legacyDirectTableHasPhysicalShardWindow (table : option ShardTable) : bool :=
  match table with
  | None => false
  | Some t => negb (bool_decide (st_TimeQuantumType t = [])) &&
              negb (bool_decide (legacyDirectRelationshipTimeQuantumField table = []))
  end.

Definition legacyDirectFullTableScanSeedField (table : ShardTable) : bytes :=
  default [] (firstName
    (map TrimSpace (Split (st_PrimaryKey table) (byte_of 43)) ++
     omap (fun a => if EqualFold (sa_FieldName a) (str "rownum") then Some (sa_FieldName a)
                    else if EqualFold (sa_SourceName a) (str "rownum") then Some (sa_SourceName a) else None)
       (st_Attributes table) ++
     [st_TimeQuantumField table] ++ map attributeName (st_Attributes table))).

End Tables.

(** ** The window of shards *)

Section Windows.

Context `{TextLib}.

Definition legacyDirectFragmentFieldMatches (fragment : QuantaQueryFragment) (field : bytes) : bool :=
  EqualFold (fg_Field fragment) field ||
  match afterLastDot (fg_Field fragment) with Some name => EqualFold name field | None => false end.

Definition legacyDirectShardTimePredicate (timeField : bytes) (fragment : QuantaQueryFragment) : bool :=
  legacyDirectFragmentFieldMatches fragment timeField &&
  match fg_BSIOp fragment with BSIOpRange | BSIOpGE | BSIOpGT | BSIOpLE | BSIOpLT => true | _ => false end.

Definition withShardWindowMark (f : QuantaQueryFragment) : QuantaQueryFragment :=
  mkFragment (fg_Index f) (fg_Role f) (fg_Field f) (fg_Operation f) (fg_BSIOp f) (fg_Value f) (fg_Values f) (fg_Begin f)
    (fg_End f) (fg_Literal f) (fg_Literals f) (fg_LiteralRange f) (fg_RangeCoalesceAllowed f) true (fg_Negate f) (fg_NullCheck f).

Definition legacyDirectMarkShardTimePredicates (fragments : list QuantaQueryFragment) (timeField : bytes)
    : list QuantaQueryFragment :=
  map (fun f => if legacyDirectShardTimePredicate timeField f then withShardWindowMark f else f) fragments.

(** A seed that already has a window. *)
Definition seedWindow (seed : QuantaSeed) : option (Z * Z) :=
  match sd_Kind seed, sd_ShardWindow seed, sd_Begin seed, sd_End seed with
  | QuantaSeedTableExistence, true, Some begin, Some end_ => Some (begin, end_)
  | _, _, _, _ => None
  end.

Definition legacyDirectRequestHasShardWindowSeed (r : ExecutionRequest) (index timeField : bytes) : bool :=
  existsb (fun seed =>
    bool_decide (is_Some (seedWindow seed)) && EqualFold (sd_SeedField seed) timeField &&
    (bool_decide (sd_SeedIndex seed = []) || bool_decide (index = []) || EqualFold (sd_SeedIndex seed) index))
    (rq_Seeds r).

Definition legacyProjectionFieldMatchesFragment (field : QuantaProjectionField) (fragment : QuantaQueryFragment) : bool :=
  bool_decide (pj_Index field = fg_Index fragment) &&
  (bool_decide (pj_Field field = fg_Field fragment) || bool_decide (pj_PhysicalName field = fg_Field fragment)).

Definition legacyRequestFragmentIsTimeField (r : ExecutionRequest) (fragment : QuantaQueryFragment) : bool :=
  existsb (fun field => legacyProjectionFieldMatchesFragment field fragment && bool_decide (pj_Type field = DataTypeTime))
    (rq_ProjectionFields r ++ rq_MaterializationFields r).

Definition legacyDirectRequestNeedsSyntheticShardWindow (r : ExecutionRequest) (timeField : bytes) : bool :=
  bool_decide (is_Some (rq_CandidateSet r)) || negb (bool_decide (rq_Joins r = 0%nat)) ||
  negb (bool_decide (rq_Memberships r = 0%nat)) ||
  existsb (fun f => legacyDirectFragmentFieldMatches f timeField || legacyRequestFragmentIsTimeField r f) (rq_Fragments r).

Definition legacyDirectEnsureShardProjectionField (fields : list QuantaProjectionField) (index timeField : bytes)
    : list QuantaProjectionField :=
  if existsb (fun field =>
       (EqualFold (pj_Index field) index || bool_decide (pj_Index field = [])) &&
       (EqualFold (pj_Field field) timeField || EqualFold (pj_PhysicalName field) timeField) &&
       bool_decide (pj_Type field = DataTypeTime)) fields
  then fields
  else mkProjectionField index timeField timeField DataTypeTime :: fields.

Definition tableIndex (r : ExecutionRequest) (table : option ShardTable) : bytes :=
  match table with
  | Some t => if decide (st_Name t = []) then default [] (RootIndex r) else st_Name t
  | None => default [] (RootIndex r)
  end.

Definition legacyDirectExecutionWithShardWindow (r : ExecutionRequest) (table : option ShardTable) : ExecutionRequest :=
  let timeField := legacyDirectRelationshipTimeQuantumField table in
  let index := tableIndex r table in
  let fields := legacyDirectEnsureShardProjectionField (rq_ProjectionFields r) index timeField in
  if bool_decide (timeField = []) || negb (legacyDirectTableHasPhysicalShardWindow table) || bool_decide (index = []) then r
  else if existsb (legacyDirectShardTimePredicate timeField) (rq_Fragments r) then
    withFragments r (legacyDirectMarkShardTimePredicates (rq_Fragments r) timeField) (rq_Filter r) fields (rq_CandidateSet r)
  else if legacyDirectRequestHasShardWindowSeed r index timeField then withSeeds r (rq_Seeds r) fields
  else if legacyDirectRequestNeedsSyntheticShardWindow r timeField || negb (bool_decide (length (rq_Fragments r) = 0%nat))
  then withSeeds r (mkSeed index [] timeField QuantaSeedTableExistence
         (Some legacyDirectRelationshipFullTimeRangeBeginMillis) (Some legacyDirectRelationshipFullTimeRangeEndMillis) true
         :: rq_Seeds r) fields
  else r.

Definition legacyDirectExecutionWithFullTableScanSeed (r : ExecutionRequest) (table : option ShardTable) : ExecutionRequest :=
  match table with
  | None => r
  | Some t =>
    let index := tableIndex r table in
    let timeField := legacyDirectRelationshipTimeQuantumField table in
    let encoded := legacyDirectRelationshipTimeMillisToEncoded t timeField in
    let field := legacyDirectFullTableScanSeedField t in
    if bool_decide (is_Some (rq_CandidateSet r)) || negb (bool_decide (length (rq_Seeds r) = 0%nat)) ||
       negb (bool_decide (length (rq_Fragments r) = 0%nat)) || negb (filterEmpty (rq_Filter r)) || bool_decide (index = [])
    then r
    else if legacyDirectTableHasPhysicalShardWindow table && negb (bool_decide (timeField = [])) then
      withSeeds r (mkSeed index [] timeField QuantaSeedTableExistence
          (Some (encoded legacyDirectRelationshipFullTimeRangeBeginMillis))
          (Some (encoded legacyDirectRelationshipFullTimeRangeEndMillis)) true :: rq_Seeds r)
        (legacyDirectEnsureShardProjectionField (rq_ProjectionFields r) index timeField)
    else if bool_decide (field = []) then r
    else withSeeds r (mkSeed index [] field QuantaSeedTableExistence None None false :: rq_Seeds r) (rq_ProjectionFields r)
  end.

(** ** The bitmap query *)

Definition legacyBitmapQueryEpochValueMillis (epochValue : Z) : Z :=
  let abs := if epochValue <? 0 then wrap_s 64 (- epochValue) else epochValue in
  if 100000000000000000 <=? abs then Z.quot epochValue 1000000
  else if 100000000000000 <=? abs then Z.quot epochValue 1000
  else if (0 <? abs) && (abs <? 100000000000) then wrap_s 64 (epochValue * 1000)
  else epochValue.

Definition legacyBitmapQueryTimeWindowValue (epochValue : Z) : bytes :=
  FormatYMDH (FromUnixMilli (legacyBitmapQueryEpochValueMillis epochValue)).

(** [x.Int64()] of a big integer: its low 64 bits. *)
Definition BigInt_Int64 (z : Z) : Z := wrap_s 64 z.

(** The bounds so far, and whether a predicate gave one. *)
Definition shardBound (acc : Z * Z * bool) (f : QuantaQueryFragment) : Z * Z * bool :=
  let '(lower, upper, found) := acc in
  match fg_ShardWindow f, fg_Value f with
  | true, Some value =>
    match fg_BSIOp f with
    | BSIOpGE | BSIOpGT => (if negb found || (lower <? value) then value else lower, upper, true)
    | BSIOpLE => (lower, if negb found || (value <? upper) then value else upper, true)
    | BSIOpLT => (lower, if negb found || (value - 1 <? upper) then value - 1 else upper, true)
    | _ => acc
    end
  | _, _ => acc
  end.

Definition legacyBitmapQueryTimeWindowFromShardBounds (r : ExecutionRequest) : option (Z * Z) :=
  let '(lower, upper, found) := foldl shardBound
    (legacyDirectRelationshipFullTimeRangeBeginMillis, legacyDirectRelationshipFullTimeRangeEndMillis, false) (rq_Fragments r) in
  if found then Some (BigInt_Int64 lower, BigInt_Int64 upper) else None.

(** The window of a range fragment that is marked for it. *)
Definition fragmentWindow (f : QuantaQueryFragment) : option (Z * Z) :=
  match fg_BSIOp f, fg_Begin f, fg_End f, fg_ShardWindow f with
  | BSIOpRange, Some begin, Some end_, true => Some (begin, end_)
  | _, _, _, _ => None
  end.

(** The first window of the seeds, then of the ranges, then of the bounds. *)
Definition timeWindow (r : ExecutionRequest) : option (Z * Z) :=
  match omap seedWindow (rq_Seeds r) ++ omap fragmentWindow (rq_Fragments r) with
  | (begin, end_) :: _ => Some (BigInt_Int64 begin, BigInt_Int64 end_)
  | [] => legacyBitmapQueryTimeWindowFromShardBounds r
  end.

Definition withWindow (q : BitmapQuery) (fromTime toTime : bytes) : BitmapQuery :=
  mkBitmapQuery fromTime toTime (bq_DisableFragmentFanout q) (bq_root q).

Definition applyDefaultTimeWindow (q : BitmapQuery) : BitmapQuery :=
  withWindow q (if decide (bq_FromTime q = []) then FormatYMDH epochTime else bq_FromTime q)
    (if decide (bq_ToTime q = []) then FormatYMDH epochTime else bq_ToTime q).

Definition applyTimeWindow (q : BitmapQuery) (r : ExecutionRequest) : BitmapQuery :=
  match timeWindow r with
  | Some (begin, end_) => withWindow q (legacyBitmapQueryTimeWindowValue begin) (legacyBitmapQueryTimeWindowValue end_)
  | None => q
  end.

Definition seedFragment (seed : QuantaSeed) : QuantaQueryFragment :=
  mkFragment (sd_SeedIndex seed) (sd_SeedRole seed) (sd_SeedField seed) OperationUnion BSIOpNone None [] (sd_Begin seed) (sd_End seed)
    None [] None false (sd_ShardWindow seed) true true.

Definition operationString (op : QuantaFragmentOperation) : bytes :=
  match op with
  | OperationNone => [] | OperationIntersect => str "INTERSECT" | OperationUnion => str "UNION"
  | OperationDifference => str "DIFFERENCE" | OperationInnerJoin => str "INNER_JOIN" | OperationOuterJoin => str "OUTER_JOIN"
  end.

Definition bsiOpString (op : QuantaBSIOp) : bytes :=
  match op with
  | BSIOpNone => [] | BSIOpLT => str "LT" | BSIOpLE => str "LE" | BSIOpEQ => str "EQ" | BSIOpGE => str "GE"
  | BSIOpGT => str "GT" | BSIOpRange => str "RANGE" | BSIOpBatchEQ => str "BATCH_EQ"
  end.

(** A single value without a comparison is the row of a bitmap field. *)
Definition toQueryFragment (f : QuantaQueryFragment) : QueryFragment :=
  let single := match fg_BSIOp f, fg_Value f, fg_Begin f, fg_End f, fg_Values f with
                | BSIOpNone, None, None, None, [Some v] => Some v
                | _, _, _, _, _ => None
                end in
  mkQueryFragment (fg_Index f) (fg_Field f) (match single with Some v => wrap_u 64 (Z.abs v) | None => 0 end)
    (fg_Value f) (match single with Some _ => [] | None => fg_Values f end)
    (operationString (fg_Operation f)) (bsiOpString (fg_BSIOp f)) (fg_Begin f) (fg_End f) [] [] 0
    (fg_NullCheck f) (fg_Negate f) false.

Definition ToBitmapQuery (r : ExecutionRequest) : BitmapQuery :=
  foldl (fun q f => addFragment q (FNode (toQueryFragment f) [])) NewBitmapQuery
    (map seedFragment (rq_Seeds r) ++ rq_Fragments r).

Definition ToBitmapQueryFromRequest (r : ExecutionRequest) : BitmapQuery :=
  let q := ToBitmapQuery r in
  applyTimeWindow (applyDefaultTimeWindow
    (mkBitmapQuery (bq_FromTime q) (bq_ToTime q) (rq_PreserveBitmapFragmentOrder r) (bq_root q))) r.

(** ** Validation *)

Definition DiagnosticUnsupportedSQL : bytes := str "unsupported_sql".
Definition DiagnosticUnsupportedPredicate : bytes := str "unsupported_predicate".
Definition DiagnosticInvalidExecutionOption : bytes := str "invalid_execution_option".

(** A diagnostic when a test fails. *)
Definition unless (test : bool) (code : bytes) (message : bytes) : DiagnosticSet :=
  if test then [] else [ErrorDiagnostic code message].

Definition validateSeed (i : Z) (seed : QuantaSeed) : DiagnosticSet :=
  match sd_Kind seed with
  | QuantaSeedTableExistence => []
  | QuantaSeedOther name =>
    [ErrorDiagnostic DiagnosticUnsupportedSQL (Sprintf "seed %d has unsupported kind %s" [FInt i; FStr (Quote name)])]
  end ++
  unless (negb (bool_decide (sd_SeedIndex seed = []))) DiagnosticInvalidExecutionOption (Sprintf "seed %d has no index" [FInt i]) ++
  unless (negb (bool_decide (sd_SeedField seed = []))) DiagnosticInvalidExecutionOption (Sprintf "seed %d has no field" [FInt i]).

(** The operands a comparison needs. *)
Definition validateOperands (i : Z) (f : QuantaQueryFragment) : DiagnosticSet :=
  match fg_BSIOp f with
  | BSIOpNone => []
  | BSIOpRange =>
    unless (bool_decide (is_Some (fg_Begin f)) && bool_decide (is_Some (fg_End f))) DiagnosticInvalidExecutionOption
      (Sprintf "bitmap fragment %d range operation requires begin and end" [FInt i])
  | BSIOpBatchEQ =>
    unless (negb (bool_decide (length (fg_Values f) = 0%nat))) DiagnosticInvalidExecutionOption
      (Sprintf "bitmap fragment %d batch equality operation requires values" [FInt i])
  | op =>
    unless (bool_decide (is_Some (fg_Value f))) DiagnosticInvalidExecutionOption
      (Sprintf "bitmap fragment %d BSI operation %s requires value" [FInt i; FStr (Quote (bsiOpString op))])
  end.

(** Every comparison of the enumeration is supported. *)
Definition validateFragment (i : Z) (f : QuantaQueryFragment) : DiagnosticSet :=
  unless (negb (bool_decide (fg_Index f = []))) DiagnosticInvalidExecutionOption (Sprintf "bitmap fragment %d has no index" [FInt i]) ++
  unless (negb (bool_decide (fg_Field f = []))) DiagnosticInvalidExecutionOption (Sprintf "bitmap fragment %d has no field" [FInt i]) ++
  unless (negb (bool_decide (fg_Operation f = OperationNone))) DiagnosticUnsupportedPredicate
    (Sprintf "bitmap fragment %d uses unsupported operation %s" [FInt i; FStr (Quote (operationString (fg_Operation f)))]) ++
  validateOperands i f.

Definition ValidateIntermediateQuery (r : ExecutionRequest) : DiagnosticSet :=
  concat (imap (fun i => validateSeed (Z.of_nat i)) (rq_Seeds r)) ++
  concat (imap (fun i => validateFragment (Z.of_nat i)) (rq_Fragments r)).

(** ** Sessions *)

(** The tables a session has open and those of its pool, in the order in which the maps
    are read; a missing buffer or table is [None]. *)
Record LegacyQuantaSessionHandle : Type := mkSession {
  ss_TableName : bytes;
  ss_TableBuffers : list (bytes * option ShardTable);
  ss_TableCache : option (list (bytes * option ShardTable));
  ss_hasBitIndex : bool }.

Definition sameTable (name : bytes) (table : option ShardTable) (wanted : bytes) : bool :=
  EqualFold name wanted || match table with Some t => EqualFold (st_Name t) wanted | None => false end.

Definition cachedRootTable (h : LegacyQuantaSessionHandle) (r : ExecutionRequest) : option ShardTable :=
  let tableName := default (ss_TableName h) (RootIndex r) in
  let buffers := omap (fun p => (fun t => (p.1, t)) <$> p.2) (ss_TableBuffers h) in
  match head (filter (fun p => p.1 = tableName) buffers), head (filter (fun p => sameTable p.1 (Some p.2) tableName = true) buffers) with
  | Some (_, t), _ | None, Some (_, t) => Some t
  | None, None =>
    cache ← ss_TableCache h;
    match head (filter (fun p => p.1 = tableName) cache) with
    | Some (_, table) => table
    | None => '(_, table) ← head (filter (fun p => sameTable p.1 p.2 tableName = true) cache); table
    end
  end.

Definition withShardWindow (h : LegacyQuantaSessionHandle) (r : ExecutionRequest) : ExecutionRequest :=
  let table := cachedRootTable h r in
  legacyDirectExecutionWithFullTableScanSeed (legacyDirectExecutionWithShardWindow r table) table.

End Windows.

Section Sessions.

Context {B I : Type} `{Roaring B} `{!RoaringOps B} `{!BSILib B I} `{!TransposeLib B I} `{TextLib}.
Context (order : list bytes -> list bytes) (sampling : list B -> Z -> list B) (uuids : nat -> bytes).

Record BitmapQueryResult : Type := mkBitmapQueryResult { bqr_Count : Z; bqr_Rownums : list Z }.

Definition noResult : BitmapQueryResult := mkBitmapQueryResult 0 [].

Definition ToBitmapQueryResult (response : B * Z) : BitmapQueryResult :=
  mkBitmapQueryResult response.2 (ToArray response.1).

Definition ToCountOnlyBitmapQueryResult (response : B * Z) : BitmapQueryResult :=
  mkBitmapQueryResult (if response.2 =? 0 then GetCardinality response.1 else response.2) [].

Definition noBitIndex : DiagnosticSet :=
  [ErrorDiagnostic (str "internal_invariant") (str "legacy quanta session has no bitmap index")].

(** The query of a request with its window, unless the session or the request is not valid. *)
Definition queryRequest (h : LegacyQuantaSessionHandle) (r : ExecutionRequest) {A : Type} (none : DiagnosticSet -> A)
    (run : BitmapQuery -> stgo (Client B I) A) : stgo (Client B I) A :=
  if negb (ss_hasBitIndex h) then mret (none noBitIndex)
  else
    let r := withShardWindow h r in
    let diagnostics := ValidateIntermediateQuery r in
    if BlocksNative diagnostics then mret (none diagnostics) else run (ToBitmapQueryFromRequest r).

Definition QueryBitmap (h : LegacyQuantaSessionHandle) (r : ExecutionRequest)
    : stgo (Client B I) (BitmapQueryResult * DiagnosticSet) :=
  queryRequest h r (fun d => (noResult, d)) (fun q =>
    response ← Client_Query order sampling uuids q; mret (ToBitmapQueryResult response, [])).

Definition QueryBitmapCountOnly (h : LegacyQuantaSessionHandle) (r : ExecutionRequest)
    : stgo (Client B I) (BitmapQueryResult * DiagnosticSet) :=
  queryRequest h r (fun d => (noResult, d)) (fun q =>
    response ← Client_Query order sampling uuids q; mret (ToCountOnlyBitmapQueryResult response, [])).

(** The third part of the result tells whether the session could do it. *)
Definition QueryBitmapWithCandidateSet (h : LegacyQuantaSessionHandle) (r : ExecutionRequest) (candidates : QuantaCandidateSet)
    : stgo (Client B I) (BitmapQueryResult * DiagnosticSet * bool) :=
  queryRequest h r (fun d => (noResult, d, true)) (fun q =>
    response ← Client_QueryWithFoundSet order uuids q (cs_Index candidates) (cs_Rownums candidates);
    mret (match response with
          | None => (noResult, [], false)
          | Some response => (ToBitmapQueryResult response, [], true)
          end)).

End Sessions.
