(* ===== verification/DirectFilter.v ===== *)
(** * Evaluation of the fragments of a filter

    The evaluator of a fragment that the filter tree uses (the leaf evaluator of
    qsruntime/direct_bitmap_filter_adapter.go): as a bitmap query of its own, or, when
    candidates are known, on the materialized cells of the candidates.  The sessions
    and the materialization kernel are interfaces.  Cells are compared as in
    direct_bitmap_grouped_aggregate.go and direct_bitmap_runtime.go.  Probes are left
    out. *)

From S2P Require Import Prelude GoStd GoState JsonValue GoTime JsonText TimeLayout Value GoFloat ResultSet SqlIR Lowering LexStrings LoweringExact FilterTree DirectQuery.

(** ** Cells *)

(** Printing and reading of values by the standard library: fmt.Sprint; ParseFloat, or
    else big.Rat, of a trimmed text; numbers of other types by type name and printed form. *)
Class FmtLib : Type := {
  Sprint : any -> bytes;
  ParseNumber : bytes -> option Z;
  OtherNumber : bytes -> bytes -> option Z }.

Class FmtLaws `{FmtLib} : Prop := {
  Sprint_nil : Sprint GNil = str "<nil>";
  Sprint_int : forall t z, Sprint (GInt t z) = FormatInt z;
  Sprint_string : forall s, Sprint (GString s) = s }.

(** A number below another; with an infinity the bits are those of a larger number. *)
Definition numberLess (x y : Z) : bool := negb (f64_nan x) && negb (f64_nan y) && (float64_value x <? float64_value y).

(** The lexical order of strings. *)
Fixpoint stringLess (a b : bytes) : bool :=
  match a, b with
  | _, [] => false
  | [], _ :: _ => true
  | x :: a, y :: b => (ub x <? ub y) || ((ub x =? ub y) && stringLess a b)
  end.

Section Cells.

Context `{TextLib} `{FmtLib}.

Definition layoutDateClockNanoZ : list layoutElement :=
  dateLayout ++ [LText (str " ")] ++ clockLayout ++ [LFraction9; LText (str "Z")].

Fixpoint parseAny (layouts : list (list layoutElement)) (text : bytes) : option Time :=
  match layouts with
  | [] => None
  | l :: layouts => match ParseLayout l text with Some t => Some t | None => parseAny layouts text end
  end.

Definition directBitmapTimeCellValue (cell : ResultCell) : option Time :=
  match cell_Value cell with
  | GTime t => Some t
  | GString s =>
    parseAny [layoutRFC3339Nano; layoutDateClockNanoZ; layoutDateClockMilliZ; layoutDateClock; dateLayout] (TrimSpace s)
  | _ => None
  end.

Definition directBitmapNumericCellValue (cell : ResultCell) : option Z :=
  match cell_Value cell with
  | GInt _ z => Some (float64_of_int z)
  | GFloat32 bits => Some (float64_of_float32 bits)
  | GFloat64 bits => Some bits
  | GString s | GBytes s => ParseNumber (TrimSpace s)
  | GBigInt z => f64_of_Z <$> z
  | GOther name printed => OtherNumber name printed
  | GNil | GBool _ | GTime _ => None
  end.

Definition sameInstant (t u : Time) : bool := (unixSec t =? unixSec u) && (nanosecond t =? nanosecond u).
Definition earlier (t u : Time) : bool :=
  (unixSec t <? unixSec u) || ((unixSec t =? unixSec u) && (nanosecond t <? nanosecond u)).

Definition directBitmapCellEqual (l r : ResultCell) : bool :=
  match directBitmapTimeCellValue l, directBitmapTimeCellValue r with
  | Some t, Some u => sameInstant t u
  | _, _ => bool_decide (cell_Kind l = cell_Kind r) && bool_decide (Sprint (cell_Value l) = Sprint (cell_Value r))
  end.

Definition directBitmapCellLess (l r : ResultCell) : bool :=
  match directBitmapTimeCellValue l, directBitmapTimeCellValue r with
  | Some t, Some u => earlier t u
  | _, _ =>
    match directBitmapNumericCellValue l, directBitmapNumericCellValue r with
    | Some x, Some y => numberLess x y
    | _, _ => stringLess (Sprint (cell_Value l)) (Sprint (cell_Value r))
    end
  end.

Definition literalCell (l : LiteralExpr) : ResultCell := mkCell (lt_Kind l) (lt_Value l).

Definition directBitmapCellComparesLiteral (op : BinaryOp) (cell : ResultCell) (literal : LiteralExpr) : bool :=
  let other := literalCell literal in
  match op with
  | OpEqual => directBitmapCellEqual cell other
  | OpNotEqual => negb (directBitmapCellEqual cell other)
  | OpLess => directBitmapCellLess cell other
  | OpLessEqual => directBitmapCellLess cell other || directBitmapCellEqual cell other
  | OpGreater => directBitmapCellLess other cell
  | OpGreaterEqual => directBitmapCellLess other cell || directBitmapCellEqual cell other
  | _ => false
  end.

Definition directBitmapNullCell (cell : ResultCell) : bool :=
  bool_decide (cell_Kind cell = ValueNull) || match cell_Value cell with GNil => true | _ => false end.

(** ** Fragments on cells *)

Definition directBitmapFilterBigIntLiteral (value : option Z) : LiteralExpr :=
  match value with None => noLiteral | Some z => mkLiteral ValueInt (GInt Tint64 (BigInt_Int64 z)) end.

Definition directBitmapFilterLiteralCellMatch (op : BinaryOp) (cell : ResultCell) (literal : LiteralExpr) : bool :=
  if decide (lt_Kind literal = ValueUnknown) then false else directBitmapCellComparesLiteral op cell literal.

Definition directBitmapFilterFragmentLiteral (f : QuantaQueryFragment) : LiteralExpr :=
  match fg_Literal f with Some l => l | None => directBitmapFilterBigIntLiteral (fg_Value f) end.

Definition directBitmapFilterRangeCellMatch (f : QuantaQueryFragment) (cell : ResultCell) : bool :=
  let '(begin, end_) :=
    match fg_LiteralRange f with
    | Some range => range
    | None => (directBitmapFilterBigIntLiteral (fg_Begin f), directBitmapFilterBigIntLiteral (fg_End f))
    end in
  directBitmapCellComparesLiteral OpGreaterEqual cell begin && directBitmapCellComparesLiteral OpLessEqual cell end_.

Definition directBitmapFilterBatchEqualCellMatch (f : QuantaQueryFragment) (cell : ResultCell) : bool :=
  existsb (directBitmapFilterLiteralCellMatch OpEqual cell) (fg_Literals f ++ map directBitmapFilterBigIntLiteral (fg_Values f)).

Definition directBitmapFilterFragmentPositiveMatch (f : QuantaQueryFragment) (cell : ResultCell) : bool :=
  let compare op := directBitmapFilterLiteralCellMatch op cell (directBitmapFilterFragmentLiteral f) in
  if fg_NullCheck f then directBitmapNullCell cell
  else match fg_BSIOp f with
       | BSIOpRange => directBitmapFilterRangeCellMatch f cell
       | BSIOpBatchEQ => directBitmapFilterBatchEqualCellMatch f cell
       | BSIOpNone =>
         if negb (bool_decide (length (fg_Values f) = 0%nat)) || negb (bool_decide (length (fg_Literals f) = 0%nat))
         then directBitmapFilterBatchEqualCellMatch f cell else compare OpEqual
       | BSIOpEQ => compare OpEqual
       | BSIOpLT => compare OpLess
       | BSIOpLE => compare OpLessEqual
       | BSIOpGE => compare OpGreaterEqual
       | BSIOpGT => compare OpGreater
       end.

Definition directBitmapFilterFragmentMatchesCell (f : QuantaQueryFragment) (cell : ResultCell) : bool :=
  let matched := directBitmapFilterFragmentPositiveMatch f cell in
  if bool_decide (fg_Operation f = OperationDifference) || fg_Negate f then negb matched else matched.

Definition directBitmapFilterLiteralDataType (l : LiteralExpr) : DataType :=
  match lt_Kind l with
  | ValueString => DataTypeString | ValueFloat => DataTypeFloat | ValueBool => DataTypeBool | ValueTime => DataTypeTime
  | _ => DataTypeInt
  end.

Definition directBitmapFilterFragmentDataType (f : QuantaQueryFragment) : DataType :=
  match fg_Literal f, fg_Literals f, fg_LiteralRange f with
  | Some l, _, _ => directBitmapFilterLiteralDataType l
  | None, l :: _, _ => directBitmapFilterLiteralDataType l
  | None, [], Some (l, _) => directBitmapFilterLiteralDataType l
  | None, [], None => DataTypeInt
  end.

Definition directBitmapFilterFragmentCanEvaluateMaterialized (f : QuantaQueryFragment) : bool :=
  fg_NullCheck f || bool_decide (is_Some (fg_Literal f)) || negb (bool_decide (length (fg_Literals f) = 0%nat)) ||
  bool_decide (is_Some (fg_LiteralRange f)).

End Cells.

(** ** Dictionary fields *)

Record CatalogField : Type := mkCatalogField {
  cf_Name : bytes;
  cf_PhysicalName : bytes;
  cf_Index : IndexKind;
  cf_Encoding : EncodingKind;
  cf_Dictionary : DictionaryRef }.

Record CatalogTable : Type := mkCatalogTable { ct_Schema : bytes; ct_Name : bytes; ct_Fields : list CatalogField }.

Section Decision.

Context `{TextLib}.

Definition directBitmapFilterFragmentFieldLookupNames (field : bytes) : list bytes :=
  if decide (field = []) then []
  else match afterLastDot field with
       | Some (b :: name) => if EqualFold (b :: name) field then [field] else [field; b :: name]
       | _ => [field]
       end.

Definition directBitmapFilterFragmentDefinitionMatchesAnyField (d : CatalogField) (fields : list bytes) : bool :=
  existsb (fun field => EqualFold (cf_Name d) field ||
    (negb (bool_decide (cf_PhysicalName d = [])) && EqualFold (cf_PhysicalName d) field)) fields.

(** The table and the definition of the field, when it has a dictionary. *)
Definition directBitmapFilterFragmentStringEnumDecision (catalog : list CatalogTable) (r : ExecutionRequest)
    (f : QuantaQueryFragment) : option (CatalogTable * CatalogField) :=
  let index := if decide (fg_Index f = []) then default [] (RootIndex r) else fg_Index f in
  let fields := directBitmapFilterFragmentFieldLookupNames (fg_Field f) in
  table ← head (filter (fun t => EqualFold (ct_Name t) index = true) catalog);
  d ← head (filter (fun d => directBitmapFilterFragmentDefinitionMatchesAnyField d fields = true) (ct_Fields table));
  if bool_decide (cf_Index d = IndexStringEnum) || bool_decide (cf_Encoding d = EncodingStringEnum) ||
     DictionaryRef_Valid (cf_Dictionary d)
  then Some (table, d) else None.

Definition directBitmapFilterFragmentStringEnumBitmapEligible (f : QuantaQueryFragment) : bool :=
  negb (fg_NullCheck f) && negb (fg_Negate f) && negb (bool_decide (is_Some (fg_LiteralRange f))) &&
  negb (bool_decide (fg_Operation f = OperationDifference)) &&
  match fg_BSIOp f with BSIOpNone | BSIOpEQ => true | _ => false end.

(** The labels of a fragment, when all its literals are strings and there is one. *)
Definition directBitmapFilterFragmentStringEnumExactLiterals (f : QuantaQueryFragment) : option (list bytes) :=
  match option_list (fg_Literal f) ++ fg_Literals f with
  | [] => None
  | literals => mapM asString literals
  end.

Definition physicalField (d : CatalogField) : bytes :=
  if decide (cf_PhysicalName d = []) then cf_Name d else cf_PhysicalName d.

Definition enumDictionaryRef (table : CatalogTable) (d : CatalogField) : DictionaryRef :=
  if DictionaryRef_Valid (cf_Dictionary d) then cf_Dictionary d
  else mkDictionaryRef (ct_Schema table) (ct_Name table) (physicalField d).

(** The identifiers of labels, each once. *)
Fixpoint labelIDs (resolver : DictionaryResolver) (ref : DictionaryRef) (seen : gset Z) (labels : list bytes) : option (list Z) :=
  match labels with
  | [] => Some []
  | label :: labels =>
    let '(entry, diagnostics) := LookupLabel resolver ref label in
    if BlocksNative diagnostics then None
    else if decide (de_ID entry ∈ seen) then labelIDs resolver ref seen labels
    else ids ← labelIDs resolver ref ({[de_ID entry]} ∪ seen) labels; Some (de_ID entry :: ids)
  end.

Definition directBitmapFilterFragmentStringEnumBitmapFragment (resolver : option DictionaryResolver) (f : QuantaQueryFragment)
    (detection : CatalogTable * CatalogField) : option QuantaQueryFragment :=
  let '(table, d) := detection in
  resolver ← resolver;
  if negb (directBitmapFilterFragmentStringEnumBitmapEligible f) then None else
  labels ← directBitmapFilterFragmentStringEnumExactLiterals f;
  let ref := enumDictionaryRef table d in
  if negb (DictionaryRef_Valid ref) then None else
  ids ← labelIDs resolver ref ∅ labels;
  if decide (length ids = 0%nat) then None else
  Some (mkFragment (fg_Index f) (fg_Role f) (if decide (physicalField d = []) then fg_Field f else physicalField d)
    (fg_Operation f) BSIOpNone None (map Some ids) None None (fg_Literal f) (fg_Literals f) None
    (fg_RangeCoalesceAllowed f) (fg_ShardWindow f) (fg_Negate f) (fg_NullCheck f)).

(** How a fragment is evaluated: on cells, as it is, or as a bitmap of its dictionary. *)
Inductive materializationDecision : Type :=
  | Materialize
  | AsBitmap
  | AsDictionaryBitmap (f : QuantaQueryFragment).

Definition directBitmapFilterFragmentMaterializationDecision (catalog : list CatalogTable) (resolver : option DictionaryResolver)
    (r : ExecutionRequest) (f : QuantaQueryFragment) : materializationDecision :=
  match directBitmapFilterFragmentStringEnumDecision catalog r f with
  | Some detection =>
    match directBitmapFilterFragmentStringEnumBitmapFragment resolver f detection with
    | Some bitmapFragment => AsDictionaryBitmap bitmapFragment
    | None => Materialize
    end
  | None => if directBitmapFilterFragmentCanEvaluateMaterialized f then Materialize else AsBitmap
  end.

End Decision.

(** ** The evaluator *)

Record QuantaProjectedRowSet : Type := mkRowSet {
  prs_Rownums : list Z;
  prs_ProjectionVectors : list (list ResultCell) }.

(** A request for the cells of rows, and what the kernel makes of it: a result with its
    diagnostics for each request, and diagnostics of its own. *)
Record QuantaMaterializationRequest : Type := mkMaterialization {
  mz_Index : bytes;
  mz_Rownums : list Z;
  mz_ProjectionFields : list QuantaProjectionField }.

Definition ProjectionMaterializationKernel (S : Type) : Type :=
  QuantaMaterializationRequest -> stgo S (list (QuantaProjectedRowSet * DiagnosticSet) * DiagnosticSet).

Record DirectSessionHandle (S : Type) : Type := mkHandle {
  dh_QueryBitmap : ExecutionRequest -> stgo S (BitmapQueryResult * DiagnosticSet);
  dh_QueryBitmapWithCandidateSet :
    option (ExecutionRequest -> QuantaCandidateSet -> stgo S (BitmapQueryResult * DiagnosticSet * bool));
  dh_Release : stgo S DiagnosticSet }.
Arguments mkHandle {S}.
Arguments dh_QueryBitmap {S}.
Arguments dh_QueryBitmapWithCandidateSet {S}.
Arguments dh_Release {S}.

(** A session for a request; [None] is the nil session. *)
Definition DirectSessionProvider (S : Type) : Type :=
  ExecutionRequest -> stgo S (option (DirectSessionHandle S) * DiagnosticSet).

Definition dictionaryCandidateLimit : Z := 1024.

(** How the cells of candidates are preferred to a bitmap of the dictionary. *)
Definition directBitmapFilterShouldMaterializeDictionaryBitmapWithinCandidates
    (decision : materializationDecision) (candidateRows : Z) : bool :=
  match decision with
  | AsDictionaryBitmap _ => (0 <? candidateRows) && (candidateRows <=? dictionaryCandidateLimit)
  | _ => false
  end.

Section Evaluator.

Context {S : Type} `{TextLib} `{FmtLib}.
Context (sessions : DirectSessionProvider S) (kernel : option (ProjectionMaterializationKernel S)).
Context (catalog : list CatalogTable) (resolver : option DictionaryResolver) (request : ExecutionRequest).

Definition invariantBroken (message : bytes) : QuantaCandidateSet * DiagnosticSet :=
  (noCandidates, [ErrorDiagnostic DiagnosticInternalInvariant message]).

(** The query of a session, restricted to candidates if it can do that. *)
Definition queryLeaf (session : DirectSessionHandle S) (leafRequest : ExecutionRequest) (candidates : option QuantaCandidateSet)
    : stgo S (BitmapQueryResult * DiagnosticSet) :=
  match candidates, dh_QueryBitmapWithCandidateSet session with
  | Some candidates, Some queryWithin =>
    '(result, diagnostics, handled) ← queryWithin leafRequest candidates;
    if handled || BlocksNative diagnostics then mret (result, diagnostics) else dh_QueryBitmap session leafRequest
  | _, _ => dh_QueryBitmap session leafRequest
  end.

(** The request of a fragment alone. *)
Definition leafRequestOf (fragment : QuantaQueryFragment) : ExecutionRequest :=
  withFragments request [fragment] FEmpty (rq_ProjectionFields request) None.

Definition evaluateFilterLeafBitmapWithCandidateSet (fragment : QuantaQueryFragment) (candidates : option QuantaCandidateSet)
    : stgo S (QuantaCandidateSet * DiagnosticSet) :=
  let leafRequest := leafRequestOf fragment in
  '(session, diagnostics) ← sessions leafRequest;
  if BlocksNative diagnostics then mret (noCandidates, diagnostics) else
  match session with
  | None => mret (invariantBroken (str "direct bitmap filter adapter received nil session"))
  | Some session =>
    answer ← try_ (queryLeaf session leafRequest candidates);
    releaseDiagnostics ← dh_Release session;
    match answer with
    | inr e => lift (Err e)
    | inl (result, queryDiagnostics) =>
      let diagnostics := diagnostics ++ queryDiagnostics ++ releaseDiagnostics in
      if BlocksNative diagnostics then mret (noCandidates, diagnostics)
      else
        let index := if decide (fg_Index fragment = []) then default [] (RootIndex leafRequest) else fg_Index fragment in
        mret (mkCandidateSet index (bqr_Rownums result), diagnostics)
    end
  end.

Definition evaluateFilterLeafBitmap (fragment : QuantaQueryFragment) : stgo S (QuantaCandidateSet * DiagnosticSet) :=
  evaluateFilterLeafBitmapWithCandidateSet fragment None.

Definition decisionOf (fragment : QuantaQueryFragment) : materializationDecision :=
  directBitmapFilterFragmentMaterializationDecision catalog resolver request fragment.

Definition directEvaluateFilterLeaf (fragment : QuantaQueryFragment) : stgo S (QuantaCandidateSet * DiagnosticSet) :=
  match decisionOf fragment with
  | AsDictionaryBitmap bitmapFragment => evaluateFilterLeafBitmap bitmapFragment
  | _ => evaluateFilterLeafBitmap fragment
  end.

Definition directBitmapMaterializeWithKernel (kernel : ProjectionMaterializationKernel S) (r : QuantaMaterializationRequest)
    : stgo S (QuantaProjectedRowSet * DiagnosticSet) :=
  '(results, diagnostics) ← kernel r;
  mret (match results with
        | [] => (mkRowSet [] [], if BlocksNative diagnostics then diagnostics
            else diagnostics ++ [ErrorDiagnostic DiagnosticInternalInvariant (str "projection materialization kernel returned no results")])
        | (rowSet, itemDiagnostics) :: _ => (rowSet, diagnostics ++ itemDiagnostics)
        end).

(** The rows whose cell matches; [None] when there are fewer cells than rows. *)
Fixpoint matchingRows (fragment : QuantaQueryFragment) (rows : list Z) (values : list ResultCell) : option (list Z) :=
  match rows, values with
  | [], _ => Some []
  | _ :: _, [] => None
  | r :: rows, cell :: values =>
    matched ← matchingRows fragment rows values;
    Some (if directBitmapFilterFragmentMatchesCell fragment cell then r :: matched else matched)
  end.

Definition evaluateMaterialized (kernel : ProjectionMaterializationKernel S) (index : bytes) (fragment : QuantaQueryFragment)
    (candidates : QuantaCandidateSet) : stgo S (QuantaCandidateSet * DiagnosticSet) :=
  let field := mkProjectionField index (fg_Field fragment) [] (directBitmapFilterFragmentDataType fragment) in
  '(rowSet, diagnostics) ← directBitmapMaterializeWithKernel kernel
    (mkMaterialization (cs_Index candidates) (cs_Rownums candidates) [field]);
  if BlocksNative diagnostics then mret (noCandidates, diagnostics) else
  mret (match prs_ProjectionVectors rowSet with
        | [values] =>
          match matchingRows fragment (prs_Rownums rowSet) values with
          | Some rownums => (mkCandidateSet index rownums, [])
          | None => invariantBroken (str "constrained filter leaf materialization returned fewer values than rownums")
          end
        | _ => invariantBroken (str "constrained filter leaf materialization returned an unexpected projection shape")
        end).

(** Candidates without an index are taken to be of the index of the fragment. *)
Definition directEvaluateFilterLeafWithinCandidateSet (fragment : QuantaQueryFragment) (candidates : QuantaCandidateSet)
    : stgo S (QuantaCandidateSet * DiagnosticSet) :=
  match kernel with
  | None => evaluateFilterLeafBitmap fragment
  | Some kernel =>
    if decide (length (cs_Rownums candidates) = 0%nat) then evaluateFilterLeafBitmap fragment else
    let index := if decide (fg_Index fragment = []) then cs_Index candidates else fg_Index fragment in
    if decide (index = [] \/ (cs_Index candidates <> [] /\ cs_Index candidates <> index)) then evaluateFilterLeafBitmap fragment else
    let decision := decisionOf fragment in
    let within := mkCandidateSet (if decide (cs_Index candidates = []) then index else cs_Index candidates) (cs_Rownums candidates) in
    if directBitmapFilterShouldMaterializeDictionaryBitmapWithinCandidates decision (zlen (cs_Rownums candidates))
    then evaluateMaterialized kernel index fragment candidates
    else match decision with
         | Materialize => evaluateMaterialized kernel index fragment candidates
         | AsBitmap => evaluateFilterLeafBitmapWithCandidateSet fragment (Some within)
         | AsDictionaryBitmap bitmapFragment => evaluateFilterLeafBitmapWithCandidateSet bitmapFragment (Some within)
         end
  end.

Definition directBitmapFilterTreeLeafEvaluator : QuantaFilterLeafEvaluator S :=
  mkLeaves directEvaluateFilterLeaf (Some directEvaluateFilterLeafWithinCandidateSet).

Definition WithCandidateSet (r : ExecutionRequest) (candidates : QuantaCandidateSet) : ExecutionRequest :=
  withFragments r [] FEmpty (rq_ProjectionFields r) (Some candidates).

End Evaluator.

(** The filter of a request whose conditions are all on its own rows, with an adapter that
    may have no session provider.  The probes it records are not modelled. *)
Definition AdaptFilterExpression {S : Type} `{TextLib} `{FmtLib} (sessions : option (DirectSessionProvider S))
    (kernel : option (ProjectionMaterializationKernel S)) (catalog : list CatalogTable) (resolver : option DictionaryResolver)
    (request : ExecutionRequest) (ctx_Err : S -> option error) : stgo S (ExecutionRequest * DiagnosticSet) :=
  if filterEmpty (rq_Filter request) then mret (request, []) else
  match sessions with
  | None => mret (request,
      [ErrorDiagnostic DiagnosticInternalInvariant (str "direct bitmap filter adapter has no session provider")])
  | Some sessions =>
    '(candidates, diagnostics) ← EvaluateFilter ctx_Err
      (Some (directBitmapFilterTreeLeafEvaluator sessions kernel catalog resolver request)) (rq_Filter request);
    if BlocksNative diagnostics then mret (request, diagnostics)
    else
      let index := if decide (cs_Index candidates = []) then default [] (RootIndex request) else cs_Index candidates in
      mret (WithCandidateSet request (mkCandidateSet index (cs_Rownums candidates)), [])
  end.

(** ** Numbers and text *)

Lemma f64_exponent_bits negative e f : 0 <= e < 2048 -> 0 <= f < 2 ^ 52 -> f64_exponent (float64_bits negative e f) = e.
Proof.
  intros He Hf. unfold f64_exponent, float64_bits.
  replace (if negative then 2 ^ 63 else 0) with ((if negative then 2048 else 0) * 2 ^ 52) by (by destruct negative).
  rewrite <- Z.mul_add_distr_r, Z.div_add_l, (Z.div_small f), Z.add_0_r by lia. destruct negative.
  - rewrite <- (Z.mul_1_l 2048) at 1. rewrite Z.add_comm, Z.mod_add by lia. by apply Z.mod_small.
  - by apply Z.mod_small.
Qed.

(** Integers below 2^53 are exact. *)
Lemma float64_of_int_exact z : Z.abs z < 2 ^ 53 ->
  float64_value (float64_of_int z) = units z /\ f64_nan (float64_of_int z) = false.
Proof.
  intros Hz. split; [by apply float64_of_int_value|]. destruct (decide (z = 0)) as [->|Hne]; [by vm_compute|].
  destruct (float64_of_int_small z Hne Hz) as (e & f & -> & He & Hf & _).
  unfold f64_nan. rewrite f64_exponent_bits by lia. by rewrite (proj2 (Z.eqb_neq _ _)) by lia.
Qed.

Lemma numberLess_int a b : Z.abs a < 2 ^ 53 -> Z.abs b < 2 ^ 53 ->
  numberLess (float64_of_int a) (float64_of_int b) = (a <? b).
Proof.
  intros [Ea Na]%float64_of_int_exact [Eb Nb]%float64_of_int_exact. unfold numberLess. rewrite Na, Nb, Ea, Eb. cbn [negb andb].
  pose proof (units_lt a b). lia.
Qed.

Lemma FormatUint_inj a b : 0 <= a < 2 ^ 64 -> 0 <= b < 2 ^ 64 -> FormatUint a = FormatUint b -> a = b.
Proof. intros Ha Hb E. apply (f_equal ParseUint) in E. rewrite !ParseUint_FormatUint in E by done. by simplify_eq. Qed.

(** The text of an integer begins with a digit or a sign. *)
Lemma FormatInt_head z : exists b s, FormatInt z = b :: s /\ (ub b = 45 <-> z < 0) /\ ub b <= 57.
Proof.
  unfold FormatInt. case_if; b2p.
  - exists (byte_of 45), (FormatUint (- z)). split_and!; [done| |done]. by split; [intros _; lia|].
  - pose proof (utoa_digits 20 z ltac:(lia)) as Hg. pose proof (utoa_nonempty 20 z ltac:(lia)) as Hn.
    unfold FormatUint. destruct (utoa_fuel 20 z) as [|b s]; [done|]. exists b, s. cbn [forallb] in Hg. unfold isDigit in Hg. apply andb_true_iff in Hg as [[? ?]%andb_true_iff _]. split_and!; [done|lia..].
Qed.

Lemma FormatInt_inj a b : Z.abs a < 2 ^ 64 -> Z.abs b < 2 ^ 64 -> FormatInt a = FormatInt b -> a = b.
Proof.
  intros Ha Hb E. destruct (FormatInt_head a) as (c & s & Ea & Hca & _), (FormatInt_head b) as (d & t & Eb & Hdb & _).
  assert (c = d) as -> by congruence. revert E. unfold FormatInt. destruct (Z.ltb_spec a 0), (Z.ltb_spec b 0); [| | |].
  - intros [= E%FormatUint_inj]; lia.
  - lia.
  - lia.
  - apply FormatUint_inj; lia.
Qed.

Lemma below_nil z : stringLess (FormatInt z) (str "<nil>") = true /\ stringLess (str "<nil>") (FormatInt z) = false.
Proof.
  destruct (FormatInt_head z) as (b & s & -> & _ & Hb).
  change (str "<nil>") with (byte_of 60 :: str "nil>"). cbn [stringLess]. rewrite ub_byte_of by done.
  change (60 mod 256) with 60. split; [by rewrite (proj2 (Z.ltb_lt _ _)) by lia|]. by rewrite (proj2 (Z.ltb_ge _ _)), (proj2 (Z.eqb_neq _ _)) by lia.
Qed.

(** ** Cells and stored integers *)

(** An integer literal that a float64 represents. *)
Definition integerLiteral (l : LiteralExpr) (z : Z) : Prop :=
  lt_Kind l = ValueInt /\ (exists t, lt_Value l = GInt t z) /\ Z.abs z < 2 ^ 53.

(** Fragments whose literals are the integers they compare with. *)
Definition integerFragment (f : QuantaQueryFragment) : Prop :=
  fg_NullCheck f = false /\
  match fg_BSIOp f with
  | BSIOpNone => False
  | BSIOpRange => exists a b, fg_Begin f = Some a /\ fg_End f = Some b /\ Z.abs a < 2 ^ 53 /\ Z.abs b < 2 ^ 53 /\
                    match fg_LiteralRange f with Some (l, r) => integerLiteral l a /\ integerLiteral r b | None => True end
  | BSIOpBatchEQ => Forall2 (fun l v => exists z, v = Some z /\ integerLiteral l z) (fg_Literals f) (fg_Values f)
  | _ => exists l z, fg_Literal f = Some l /\ fg_Value f = Some z /\ integerLiteral l z
  end.

Definition integerCell (v : Z) : ResultCell := mkCell ValueInt (GInt Tint64 v).
Definition nullResultCell : ResultCell := mkCell ValueNull GNil.

Section Agreement.

Context `{TextLib} `{FmtLib} `{!FmtLaws}.

Lemma integer_equal v l z : integerLiteral l z -> Z.abs v < 2 ^ 53 ->
  directBitmapCellEqual (integerCell v) (literalCell l) = (v =? z).
Proof.
  intros (Hk & (t & Hv) & Hz) Hb. unfold directBitmapCellEqual, literalCell. cbn [directBitmapTimeCellValue cell_Value cell_Kind integerCell].
  rewrite Hk, Hv, bool_decide_true, !Sprint_int by done. cbn [andb]. apply eq_true_iff_eq. rewrite bool_decide_eq_true, Z.eqb_eq.
  split; [|by intros ->]. apply FormatInt_inj; lia.
Qed.

Lemma integer_less v l z : integerLiteral l z -> Z.abs v < 2 ^ 53 ->
  directBitmapCellLess (integerCell v) (literalCell l) = (v <? z) /\
  directBitmapCellLess (literalCell l) (integerCell v) = (z <? v).
Proof.
  intros (Hk & (t & Hv) & Hz) Hb. unfold directBitmapCellLess, directBitmapTimeCellValue, directBitmapNumericCellValue, literalCell.
  cbn [cell_Value integerCell]. rewrite Hv. by rewrite !numberLess_int.
Qed.

Lemma integer_compares op v l z : integerLiteral l z -> Z.abs v < 2 ^ 53 ->
  directBitmapCellComparesLiteral op (integerCell v) l = compares op v z.
Proof.
  intros Hl Hv. unfold directBitmapCellComparesLiteral. destruct (integer_less v l z Hl Hv) as [E1 E2].
  rewrite E1, E2, (integer_equal v l z) by done. destruct op; try done; cbn; lia.
Qed.

Lemma literal_match op v l z : integerLiteral l z -> Z.abs v < 2 ^ 53 ->
  directBitmapFilterLiteralCellMatch op (integerCell v) l = compares op v z.
Proof.
  intros Hl Hv. unfold directBitmapFilterLiteralCellMatch. rewrite decide_False by (destruct Hl; congruence). by apply integer_compares.
Qed.

Lemma bigint_literal z : Z.abs z < 2 ^ 53 -> integerLiteral (directBitmapFilterBigIntLiteral (Some z)) z.
Proof.
  intros Hz. unfold directBitmapFilterBigIntLiteral, integerLiteral. cbn. split_and!; [done| |done]. exists Tint64. f_equal.
  unfold BigInt_Int64. apply wrap_s_id; [done|]. unfold in_s. change (2 ^ (64 - 1)) with 9223372036854775808. lia.
Qed.

Lemma batch_match f v : integerFragment f -> fg_BSIOp f = BSIOpBatchEQ -> Z.abs v < 2 ^ 53 ->
  directBitmapFilterBatchEqualCellMatch f (integerCell v) = operandTest f v.
Proof.
  intros [_ Hf] Eop Hv. rewrite Eop in Hf. unfold directBitmapFilterBatchEqualCellMatch, operandTest. rewrite Eop.
  rewrite existsb_app. assert (forall ls vs, Forall2 (fun l v => exists z, v = Some z /\ integerLiteral l z) ls vs ->
    existsb (directBitmapFilterLiteralCellMatch OpEqual (integerCell v)) ls = bool_decide (v ∈ map (default 0) vs) /\
    existsb (directBitmapFilterLiteralCellMatch OpEqual (integerCell v)) (map directBitmapFilterBigIntLiteral vs) =
      bool_decide (v ∈ map (default 0) vs)) as Hall.
  { induction 1 as [|l w ls vs (z & -> & Hl) _ [IH1 IH2]]; [done|]. cbn [map existsb].
    pose proof (bigint_literal z (proj2 (proj2 Hl))) as Hl'. rewrite (literal_match _ v l z), (literal_match _ v _ z), IH1, IH2 by done.
    change (compares OpEqual v z) with (v =? z). change (default 0 (Some z)) with z.
    assert ((v =? z) || bool_decide (v ∈ map (default 0) vs) = bool_decide (v ∈ z :: map (default 0) vs)) as ->; [|done].
    apply eq_true_iff_eq. rewrite orb_true_iff, !bool_decide_eq_true, elem_of_cons, Z.eqb_eq. done. }
  destruct (Hall _ _ Hf) as [-> ->]. apply orb_diag.
Qed.

Lemma materialized_cells f v : integerFragment f -> Z.abs v < 2 ^ 53 ->
  directBitmapFilterFragmentMatchesCell f (integerCell v) =
    xorb (bool_decide (fg_Operation f = OperationDifference) || fg_Negate f) (operandTest f v).
Proof.
  intros Hf Hv. assert (directBitmapFilterFragmentPositiveMatch f (integerCell v) = operandTest f v) as E.
  { unfold directBitmapFilterFragmentPositiveMatch. rewrite (proj1 Hf).
    destruct (fg_BSIOp f) eqn:Eop; pose proof (proj2 Hf) as Hp; rewrite Eop in Hp; try done.
    6: { destruct Hp as (a & b & Ea & Eb & Ha & Hb & Hr). unfold directBitmapFilterRangeCellMatch, operandTest. rewrite Eop, Ea, Eb.
         destruct (fg_LiteralRange f) as [[l r]|]; [destruct Hr|]; by erewrite !integer_compares by eauto using bigint_literal. }
    6: by apply batch_match.
    all: destruct Hp as (l & z & El & Ez & Hl); unfold directBitmapFilterFragmentLiteral, operandTest; rewrite El, Eop, Ez.
    all: by rewrite (literal_match _ v l z). }
  unfold directBitmapFilterFragmentMatchesCell. rewrite E. by destruct (_ || _).
Qed.

(** C10. The two ways to evaluate a comparison with integers agree: below 2^53 the
    materialized cell of a stored integer matches exactly when the index, asked with the
    lowered operands, holds the integer for a member; a difference or a negation inverts
    the match. *)
Theorem materialized_cells_agree f v : integerFragment f -> Z.abs v < 2 ^ 53 ->
  directBitmapFilterFragmentMatchesCell f (integerCell v) =
    xorb (bool_decide (fg_Operation f = OperationDifference) || fg_Negate f) (operandTest f v).
Proof. apply materialized_cells. Qed.

(** C31. The two ways differ on rows without a value: a NULL cell is printed and compared as
    text, and every integer is printed below "<nil>".  So a row without a value satisfies
    [>] and [>=] of every integer, which no row without a value does in the index. *)
Theorem null_cell_above_integers f l z : fg_NullCheck f = false -> fg_Literal f = Some l -> integerLiteral l z ->
  fg_BSIOp f = BSIOpGT \/ fg_BSIOp f = BSIOpGE ->
  directBitmapFilterFragmentPositiveMatch f nullResultCell = true.
Proof.
  intros Hn El (Hk & (t & Hv) & _) Hop. unfold directBitmapFilterFragmentPositiveMatch, directBitmapFilterFragmentLiteral. rewrite Hn, El.
  assert (directBitmapCellLess (literalCell l) nullResultCell = true) as E.
  { unfold directBitmapCellLess, directBitmapTimeCellValue, directBitmapNumericCellValue, literalCell. cbn [cell_Value nullResultCell].
    rewrite Hv, Sprint_int, Sprint_nil. apply below_nil. }
  destruct Hop as [-> | ->]; unfold directBitmapFilterLiteralCellMatch, directBitmapCellComparesLiteral;
    rewrite decide_False by congruence; by rewrite E.
Qed.

End Agreement.

(** ** The contract of the evaluator *)

Section Contract.

Context {S : Type} `{TextLib} `{FmtLib} `{!FmtLaws}.
Context (sessions : DirectSessionProvider S) (kernel : option (ProjectionMaterializationKernel S)).
Context (catalog : list CatalogTable) (resolver : option DictionaryResolver) (request : ExecutionRequest).
Context (stored : bytes -> bytes -> Z -> Z -> Prop) (table : Z -> Prop) (inv : S -> Prop) (ok : QuantaQueryFragment -> Prop).

(** What sessions promise: a fragment with [ok], asked alone, is answered with its rows. *)
Class SessionContract : Prop := session_answers : forall f s, ok f -> inv s -> exists h d s',
  sessions (leafRequestOf request f) s = (Ok (Some h, d), s') /\ inv s' /\ BlocksNative d = false /\
  (forall s, inv s -> exists r d s', dh_QueryBitmap h (leafRequestOf request f) s = (Ok (r, d), s') /\ inv s' /\
     BlocksNative d = false /\ forall x, x ∈ bqr_Rownums r <-> fragmentRows stored table f x) /\
  (forall s, inv s -> exists d s', dh_Release h s = (Ok d, s') /\ inv s' /\ BlocksNative d = false).

(** The cell of a row: its stored integer or NULL. *)
Definition showsCell (index field : bytes) (x : Z) (c : ResultCell) : Prop :=
  (exists v, stored index field x v /\ c = integerCell v) \/ ((~ exists v, stored index field x v) /\ c = nullResultCell).

(** What the kernel promises: the rows it was asked for, with their cells. *)
Class KernelContract (k : ProjectionMaterializationKernel S) : Prop := kernel_answers : forall index field rows s,
  pj_Type field = DataTypeInt -> inv s -> exists cells d d' s',
    k (mkMaterialization index rows [field]) s = (Ok ([(mkRowSet rows [cells], d)], d'), s') /\ inv s' /\
    BlocksNative d = false /\ BlocksNative d' = false /\ Forall2 (showsCell (pj_Index field) (pj_Field field)) rows cells.

(** Fragments that cells and index read alike: null checks, and comparisons with integers
    of fields that have a value in every row of the table. *)
Definition materializable (f : QuantaQueryFragment) : Prop :=
  fg_Index f <> [] /\ directBitmapFilterFragmentDataType f = DataTypeInt /\ directBitmapFilterFragmentCanEvaluateMaterialized f = true /\
  ((fg_NullCheck f = true /\ fg_Operation f <> OperationDifference) \/
   (integerFragment f /\ fg_Negate f = false /\
    forall x, table x -> exists v, stored (fg_Index f) (fg_Field f) x v /\ Z.abs v < 2 ^ 53)).

Context (Hone : forall index field x v w, stored index field x v -> stored index field x w -> v = w).
Context (Htable : forall index field x v, stored index field x v -> table x).

Lemma fragment_domain f x : fragmentRows stored table f x -> table x.
Proof.
  unfold fragmentRows. destruct (fg_NullCheck f); [by intros []|].
  destruct (fg_Operation f); try (by intros []); intros (v & Hv & _); by eapply Htable.
Qed.

Lemma cell_rows f x c : materializable f -> table x -> showsCell (fg_Index f) (fg_Field f) x c ->
  directBitmapFilterFragmentMatchesCell f c = true <-> fragmentRows stored table f x.
Proof.
  intros (_ & _ & _ & [[Hn Hop]|(Hf & Hneg & Hval)]) Hx Hc.
  - unfold directBitmapFilterFragmentMatchesCell, directBitmapFilterFragmentPositiveMatch, fragmentRows.
    rewrite Hn, bool_decide_false by done. cbn [orb].
    destruct Hc as [(v & Hv & ->)|[Hv ->]]; cbn; destruct (fg_Negate f); cbn; naive_solver.
  - destruct (Hval x Hx) as (v & Hv & Hb). destruct Hc as [(w & Hw & ->)|[Hw _]]; [|exfalso; eauto].
    pose proof (Hone _ _ _ _ _ Hw Hv) as ->.
    rewrite (materialized_cells f v Hf Hb). unfold fragmentRows. rewrite (proj1 Hf), Hneg, orb_false_r.
    assert ((exists w, stored (fg_Index f) (fg_Field f) x w /\ operandTest f w = true) <-> operandTest f v = true) as Hex.
    { split; [intros (w & Hw' & E); by rewrite (Hone _ _ _ _ _ Hv Hw')|by exists v]. }
    destruct (fg_Operation f) eqn:Eop; rewrite Hex; cbn; destruct (operandTest f v); cbn; naive_solver.
Qed.

Lemma matchingRows_spec f rows cells : materializable f -> Forall table rows ->
  Forall2 (showsCell (fg_Index f) (fg_Field f)) rows cells -> exists matched,
    matchingRows f rows cells = Some matched /\ forall x, x ∈ rows -> x ∈ matched <-> fragmentRows stored table f x.
Proof.
  intros Hf Hrows Hcells. enough (exists matched, matchingRows f rows cells = Some matched /\
    forall x, x ∈ matched <-> x ∈ rows /\ fragmentRows stored table f x) as (m & E & Hm).
  { exists m. split; [done|]. intros x Hx. rewrite Hm. tauto. }
  revert Hrows. induction Hcells as [|x c rows cells Hc _ IH]; intros Hrows; [exists []; split; [done|set_solver]|].
  apply Forall_cons in Hrows as [Hx Hrows]. destruct (IH Hrows) as (m & E & Hm). cbn [matchingRows]. rewrite E. cbn [mbind option_bind].
  eexists. split; [done|]. intros y. pose proof (cell_rows f x c Hf Hx Hc) as Hcell.
  destruct (directBitmapFilterFragmentMatchesCell f c); rewrite ?elem_of_cons, Hm.
  - destruct (decide (y = x)) as [->|]; naive_solver.
  - split; [intros [? ?]; by split; [right|]|]. intros [[-> |?] Hy]; [|done]. apply Hcell in Hy. done.
Qed.

Lemma materialized_exact k index f candidates s : KernelContract k -> materializable f -> index = fg_Index f ->
  Forall table (cs_Rownums candidates) -> inv s -> exists cs d s',
    evaluateMaterialized k index f candidates s = (Ok (cs, d), s') /\ inv s' /\ BlocksNative d = false /\
    forall x, x ∈ cs_Rownums candidates -> x ∈ cs_Rownums cs <-> fragmentRows stored table f x.
Proof.
  intros Hk Hf -> Hrows Hs.
  destruct (Hk (cs_Index candidates) (mkProjectionField (fg_Index f) (fg_Field f) [] (directBitmapFilterFragmentDataType f))
    (cs_Rownums candidates) s (proj1 (proj2 Hf)) Hs) as (cells & d & d' & s' & E & Hs' & Hd & Hd' & Hcells).
  destruct (matchingRows_spec f _ cells Hf Hrows Hcells) as (m & Em & Hm).
  exists (mkCandidateSet (fg_Index f) m), [], s'. split_and!; [|done..].
  unfold evaluateMaterialized, directBitmapMaterializeWithKernel.
  rewrite (bind_run _ _ _ (mkRowSet (cs_Rownums candidates) [cells], d' ++ d) s').
  - cbn beta iota. rewrite blocks_app by done. cbn [prs_ProjectionVectors prs_Rownums]. by rewrite Em.
  - by rewrite (bind_run _ _ _ _ _ E).
Qed.

Context `{!SessionContract}.

Lemma leafBitmap_exact f s : ok f -> inv s -> exists cs d s',
  evaluateFilterLeafBitmap sessions request f s = (Ok (cs, d), s') /\ inv s' /\ BlocksNative d = false /\
  forall x, x ∈ cs_Rownums cs <-> fragmentRows stored table f x.
Proof.
  intros Hf Hs. destruct (session_answers f s Hf Hs) as (h & d & s1 & E & Hs1 & Hd & Hq & Hr).
  destruct (Hq s1 Hs1) as (r & dq & s2 & Eq & Hs2 & Hdq & Hrows). destruct (Hr s2 Hs2) as (dr & s3 & Er & Hs3 & Hdr).
  eexists _, (d ++ dq ++ dr), s3. split_and!; [|done|by apply blocks_app; [|apply blocks_app]|].
  - unfold evaluateFilterLeafBitmap, evaluateFilterLeafBitmapWithCandidateSet. cbn zeta. rewrite (bind_run _ _ _ _ _ E). cbn beta iota. rewrite Hd.
    rewrite (bind_run _ _ _ (inl (r, dq)) s2) by (unfold try_, queryLeaf; by rewrite Eq).
    rewrite (bind_run _ _ _ _ _ Er). cbn beta iota. by rewrite (blocks_app _ _ Hd (blocks_app _ _ Hdq Hdr)).
  - done.
Qed.

(** The evaluator keeps the contract of the filter tree, when no fragment is of a
    dictionary field and, with a kernel, every fragment can be read from cells. *)
Lemma direct_leaf_contract ctx_Err : (forall s, inv s -> ctx_Err s = None) ->
  (forall f, ok f -> directBitmapFilterFragmentStringEnumDecision catalog request f = None) ->
  (forall k, kernel = Some k -> KernelContract k /\ forall f, ok f -> materializable f) ->
  LeafContract ctx_Err (directBitmapFilterTreeLeafEvaluator sessions kernel catalog resolver request) inv ok table
    (fragmentRows stored table).
Proof.
  intros Hctx Henum Hkernel. split; [done| |intros f x _; apply fragment_domain|].
  - intros f s Hf Hs. cbn [EvaluateFilterLeaf directBitmapFilterTreeLeafEvaluator]. unfold directEvaluateFilterLeaf, decisionOf,
      directBitmapFilterFragmentMaterializationDecision. rewrite (Henum f Hf). case_if; by apply leafBitmap_exact.
  - intros within f candidates s [= <-] Hf Hrows Hs.
    assert (exists cs d s', evaluateFilterLeafBitmap sessions request f s = (Ok (cs, d), s') /\ inv s' /\ BlocksNative d = false /\
      forall x, x ∈ cs_Rownums candidates -> x ∈ cs_Rownums cs <-> fragmentRows stored table f x) as Hplain.
    { destruct (leafBitmap_exact f s Hf Hs) as (cs & d & s' & E & Hs' & Hd & Hr). exists cs, d, s'. by split_and!. }
    unfold directEvaluateFilterLeafWithinCandidateSet. destruct kernel as [k|]; [|done]. destruct (Hkernel k eq_refl) as [Hk Hm].
    specialize (Hm f Hf). case_decide; [done|]. pose proof Hm as (Hi & _ & Hcan & _). rewrite (decide_False (P := fg_Index f = [])) by done.
    case_decide; [done|]. unfold decisionOf, directBitmapFilterFragmentMaterializationDecision. rewrite (Henum f Hf), Hcan.
    by apply materialized_exact.
Qed.

End Contract.

(** ** An example *)

Section Example.

#[local] Existing Instance asciiText.

(** Printing of the values that the example has. *)
#[local] Instance exampleFmt : FmtLib := {|
  Sprint v := match v with GNil => str "<nil>" | GInt _ z => FormatInt z | GString s | GBytes s => s | _ => [] end;
  ParseNumber _ := None;
  OtherNumber _ _ := None |}.

#[local] Instance exampleFmt_laws : FmtLaws.
Proof. done. Qed.

Definition exampleComparison (op : QuantaBSIOp) (z : Z) : QuantaQueryFragment :=
  mkFragment (str "orders") [] (str "qty") OperationIntersect op (Some z) [] None None
    (Some (mkLiteral ValueInt (GInt Tint64 z))) [] None false false false false.

Lemma exampleComparison_integer op z : Z.abs z < 2 ^ 53 ->
  match op with BSIOpNone | BSIOpRange | BSIOpBatchEQ => False | _ => True end -> integerFragment (exampleComparison op z).
Proof.
  intros Hz Hop. split; [done|]. destruct op; try done; cbn;
    (exists (mkLiteral ValueInt (GInt Tint64 z)), z; split_and!; [done|done|split_and!; [done|by exists Tint64|done]]).
Qed.

Lemma materialized_cells_agree_witness :
  directBitmapFilterFragmentMatchesCell (exampleComparison BSIOpGT 5) (integerCell 7) =
    xorb (bool_decide (fg_Operation (exampleComparison BSIOpGT 5) = OperationDifference) || fg_Negate (exampleComparison BSIOpGT 5))
      (operandTest (exampleComparison BSIOpGT 5) 7).
Proof. apply (materialized_cells_agree (exampleComparison BSIOpGT 5) 7); [by apply exampleComparison_integer|done]. Defined.

Lemma null_cell_above_integers_witness :
  directBitmapFilterFragmentPositiveMatch (exampleComparison BSIOpGT 5) nullResultCell = true.
Proof.
  apply (null_cell_above_integers (exampleComparison BSIOpGT 5) (mkLiteral ValueInt (GInt Tint64 5)) 5); [done|done| |by left].
  split_and!; [done|by exists Tint64|done].
Defined.

End Example.
