(* ===== verification/ShardWindow.v ===== *)
(** * Windows of time-partitioned tables

    A table partitioned by time has a shard for each day or hour; a query is sent with a
    window of hours, which the runtime takes from the predicates on the time column
    (DirectQuery.v) and the node compares with the times of the shards (NodeQuery.v).
    The window of a conjunction has the shards of all rows that satisfy it; that of NOT
    BETWEEN has not. *)

From S2P Require Import Prelude GoStd GoState GoTime TimeLayout Value Catalog Sequencer Bitmaps BSIBinary BitmapQuery NodeQuery ClientQuery ClusterQuery SqlIR Lowering LexStrings LoweringExact DirectQuery.

(** ** Hours and days *)

(** The seconds of a shard. *)
Definition quantumSeconds (tq : bytes) : Z := if decide (tq = str "YMD") then 86400 else 3600.

Definition floorTo (q s : Z) : Z := s / q * q.

Lemma Date_hour t : Date (Year t) (Month t) (Day t) (Hour t) 0 0 0 = mkTime (floorTo 3600 (localSec t)) 0 0.
Proof.
  pose proof (Date_local t 0 ltac:(lia)) as E. unfold Date in *. cbv zeta in *. injection E as E. unfold floorTo. f_equal.
  unfold Minute, Second in E. revert E. generalize (localSec t) as s. intros s E. div_lia.
Qed.

Lemma Date_day t : Date (Year t) (Month t) (Day t) 0 0 0 0 = mkTime (floorTo 86400 (localSec t)) 0 0.
Proof.
  pose proof (Date_local t 0 ltac:(lia)) as E. unfold Date in *. cbv zeta in *. injection E as E. unfold floorTo. f_equal.
  unfold Hour, Minute, Second in E. revert E. generalize (localSec t) as s. intros s E. div_lia.
Qed.

(** Instants between the years 1684 and 2255, in seconds. *)
Definition nearSeconds (s : Z) : Prop := Z.abs s <= 91 * 10 ^ 8.

Lemma nano_near s : nearSeconds s -> UnixNano (mkTime s 0 0) = s * 10 ^ 9.
Proof.
  unfold nearSeconds, UnixNano. cbn [unixSec nanosecond]. intros Hs. rewrite Z.add_0_r. apply wrap_s_id; [done|].
  unfold in_s. change (2 ^ (64 - 1)) with 9223372036854775808. lia.
Qed.

Lemma truncateTime_floor t tq : zoneOffset t = 0 -> Z.abs (unixSec t) <= 9 * 10 ^ 9 + 86400 ->
  truncateTime t tq = floorTo (quantumSeconds tq) (unixSec t) * 10 ^ 9.
Proof.
  intros Hz Hs. assert (localSec t = unixSec t) as El by (unfold localSec; lia).
  unfold truncateTime, quantumSeconds. case_decide; [rewrite Date_day|rewrite Date_hour]; rewrite El; apply nano_near;
    unfold nearSeconds, floorTo; div_lia.
Qed.

Lemma UnixUTC_seconds s : UnixUTC (s * 10 ^ 9) = mkTime s 0 0.
Proof. unfold UnixUTC. by rewrite Z.div_mul, Z.mod_mul by lia. Qed.

Lemma near_year t : Z.abs (localSec t) <= 9 * 10 ^ 9 -> 0 <= Year t < 10000.
Proof.
  intros Hs. pose proof (yearOfDay_spec (civilDay t)) as Hy. unfold Year, civilDay in *.
  set (d := localSec t / 86400 + unixEpochDay) in *.
  assert (unixEpochDay - 104168 <= d <= unixEpochDay + 104168) as Hd by (subst d; div_lia).
  change unixEpochDay with 719162 in Hd. split.
  - destruct (decide (0 <= yearOfDay d)); [done|].
    pose proof (daysBeforeYear_mono (yearOfDay d + 1) 0 ltac:(lia)). assert (daysBeforeYear 0 <= 0) by (by vm_compute). lia.
  - destruct (decide (yearOfDay d < 10000)); [done|].
    pose proof (daysBeforeYear_mono 10000 (yearOfDay d) ltac:(lia)). assert (3600000 <= daysBeforeYear 10000) by (by vm_compute). lia.
Qed.

(** ** Windows *)

(** Bounds that are read as milliseconds, from 1684 to 1966 and from 1973 to 2255. *)
Definition readsAsMillis (b : Z) : Prop := 10 ^ 11 <= Z.abs b <= 9 * 10 ^ 12.

Lemma epochMillis b : readsAsMillis b -> legacyBitmapQueryEpochValueMillis b = b.
Proof.
  unfold readsAsMillis, legacyBitmapQueryEpochValueMillis. intros Hb.
  assert ((if b <? 0 then wrap_s 64 (- b) else b) = Z.abs b) as ->.
  { destruct (Z.ltb_spec b 0); [|lia]. rewrite wrap_s_id; [lia|done|]. unfold in_s. change (2 ^ (64 - 1)) with 9223372036854775808. lia. }
  by repeat if_false.
Qed.

(** The hour of a bound, as the node reads it. *)
Lemma window_hour b : readsAsMillis b ->
  UnixUTC (match ParseYMDH (legacyBitmapQueryTimeWindowValue b) with Some t => UnixNano t | None => 0 end) =
    mkTime (floorTo 3600 (b / 1000)) 0 0.
Proof.
  intros Hb. unfold legacyBitmapQueryTimeWindowValue. rewrite epochMillis by done. unfold readsAsMillis in Hb.
  assert (localSec (FromUnixMilli b) = b / 1000) as El by (unfold localSec, FromUnixMilli; cbn [unixSec zoneOffset]; lia).
  rewrite ParseYMDH_Format by (apply near_year; rewrite El; div_lia).
  rewrite Date_hour, El, nano_near, UnixUTC_seconds by (unfold nearSeconds, floorTo; div_lia). done.
Qed.

Lemma floorTo_hour q s : q = 3600 \/ q = 86400 -> floorTo q (floorTo 3600 s) = floorTo q s.
Proof. unfold floorTo. intros [-> | ->]; div_lia. Qed.

Lemma quantum_cases tq : quantumSeconds tq = 3600 \/ quantumSeconds tq = 86400.
Proof. unfold quantumSeconds. case_decide; auto. Qed.

(** Whether the shard of an instant is in the window of two bounds. *)
Lemma window_shard uuids r b e tq t : timeWindow r = Some (b, e) -> readsAsMillis b -> readsAsMillis e -> Z.abs t <= 9 * 10 ^ 12 ->
  let q := ToBitmapQueryFromRequest r in
  inWindow tq (truncateTime (windowFrom uuids q) tq) (truncateTime (windowTo uuids q) tq) (truncateTime (FromUnixMilli t) tq) =
    (floorTo (quantumSeconds tq) (b / 1000) <=? floorTo (quantumSeconds tq) (t / 1000)) &&
    (floorTo (quantumSeconds tq) (t / 1000) <=? floorTo (quantumSeconds tq) (e / 1000)).
Proof.
  intros Hw Hb He Ht q. unfold windowFrom, windowTo.
  assert (bq_FromTime q = legacyBitmapQueryTimeWindowValue b /\ bq_ToTime q = legacyBitmapQueryTimeWindowValue e) as [Ef Et].
  { unfold q, ToBitmapQueryFromRequest, applyTimeWindow. by rewrite Hw. }
  unfold ToProto. cbn [pq_FromTime pq_ToTime]. rewrite Ef, Et, !window_hour by done. pose proof (quantum_cases tq) as Hq.
  unfold readsAsMillis in *. unfold inWindow.
  assert (truncateTime (FromUnixMilli t) tq = floorTo (quantumSeconds tq) (t / 1000) * 10 ^ 9) as ->
    by (rewrite truncateTime_floor; [done|done|]; unfold FromUnixMilli; cbn [unixSec]; div_lia).
  assert (forall s, Z.abs s <= 9 * 10 ^ 9 -> Z.abs (floorTo 3600 s) <= 9 * 10 ^ 9 + 86400 /\
    Z.abs (floorTo (quantumSeconds tq) s) <= 9 * 10 ^ 9 + 86400) as Hfl.
  { intros s Hs. unfold floorTo. destruct Hq as [-> | ->]; div_lia. }
  rewrite UnixUTC_seconds, !truncateTime_floor; cbn [unixSec zoneOffset]; try done; try (apply Hfl; div_lia).
  rewrite !floorTo_hour by done.
  assert (floorTo (quantumSeconds tq) (floorTo (quantumSeconds tq) (t / 1000)) = floorTo (quantumSeconds tq) (t / 1000)) as ->
    by (unfold floorTo; destruct Hq as [-> | ->]; div_lia).
  generalize (floorTo (quantumSeconds tq) (b / 1000)), (floorTo (quantumSeconds tq) (t / 1000)), (floorTo (quantumSeconds tq) (e / 1000)). lia.
Qed.

(** ** Predicates that give a window *)

(** A marked predicate whose bounds are read as milliseconds. *)
Definition windowBounds (f : QuantaQueryFragment) : Prop := fg_ShardWindow f = true ->
  match fg_BSIOp f with
  | BSIOpRange => exists b e, fg_Begin f = Some b /\ fg_End f = Some e /\ readsAsMillis b /\ readsAsMillis e
  | BSIOpGE | BSIOpGT | BSIOpLE => exists v, fg_Value f = Some v /\ readsAsMillis v
  | BSIOpLT => exists v, fg_Value f = Some v /\ readsAsMillis (v - 1)
  | _ => True
  end.

(** The bounds so far hold the instant. *)
Definition holdsInstant (t : Z) (acc : Z * Z * bool) : Prop :=
  let '(lower, upper, _) := acc in readsAsMillis lower /\ readsAsMillis upper /\ lower <= t <= upper.

Lemma shardBound_holds t acc f : holdsInstant t acc -> windowBounds f -> (fg_ShardWindow f = true -> operandTest f t = true) ->
  holdsInstant t (shardBound acc f).
Proof.
  destruct acc as [[lower upper] found]. intros (Hl & Hu & Ht) Hf Htest. unfold shardBound. destruct (fg_ShardWindow f) eqn:Es; [|done].
  specialize (Hf Es). specialize (Htest eq_refl). unfold operandTest in Htest.
  destruct (fg_BSIOp f) eqn:Eop; try (by destruct (fg_Value f)).
  all: destruct Hf as (v & Ev & Hv); rewrite Ev in *; cbn in Htest; case_if; unfold holdsInstant; split_and!; try done; lia.
Qed.

Lemma shardBounds_hold t fs : Forall windowBounds fs -> (forall f, f ∈ fs -> fg_ShardWindow f = true -> operandTest f t = true) ->
  forall acc, holdsInstant t acc -> holdsInstant t (foldl shardBound acc fs).
Proof.
  induction 1 as [|f fs Hf _ IH]; intros Htest acc Hacc; [done|]. cbn [foldl]. apply IH; [intros g Hg; apply Htest; by right|].
  apply shardBound_holds; [done..|]. apply Htest. left.
Qed.

(** The instants of the full range. *)
Definition fullRange (t : Z) : Prop :=
  legacyDirectRelationshipFullTimeRangeBeginMillis <= t <= legacyDirectRelationshipFullTimeRangeEndMillis.

Lemma Int64_millis b : readsAsMillis b -> BigInt_Int64 b = b.
Proof.
  unfold readsAsMillis. intros Hb. apply wrap_s_id; [done|]. unfold in_s. change (2 ^ (64 - 1)) with 9223372036854775808. lia.
Qed.

(** The window of a request holds the instants that satisfy its marked predicates. *)
Lemma timeWindow_holds r t b e : rq_Seeds r = [] -> Forall windowBounds (rq_Fragments r) ->
  (forall f, f ∈ rq_Fragments r -> fg_ShardWindow f = true -> operandTest f t = true) -> fullRange t ->
  timeWindow r = Some (b, e) -> readsAsMillis b /\ readsAsMillis e /\ b <= t <= e.
Proof.
  intros Hseeds Hb Htest Ht Hw. unfold timeWindow in Hw. rewrite Hseeds in Hw. change (omap seedWindow []) with (@nil (Z * Z)) in Hw.
  cbn [app] in Hw. destruct (omap fragmentWindow (rq_Fragments r)) as [|[b0 e0] l] eqn:Eo.
  - unfold legacyBitmapQueryTimeWindowFromShardBounds in Hw.
    pose proof (shardBounds_hold t (rq_Fragments r) Hb Htest
      (legacyDirectRelationshipFullTimeRangeBeginMillis, legacyDirectRelationshipFullTimeRangeEndMillis, false)) as Hacc.
    destruct (foldl shardBound _ _) as [[lower upper] [|]]; [|done].
    destruct Hacc as (Hl & Hu & Hin); [split; [by vm_compute|split; [by vm_compute|exact Ht]]|]. rewrite !Int64_millis in Hw by done. by simplify_eq.
  - assert ((b0, e0) ∈ omap fragmentWindow (rq_Fragments r)) as (f & Hf & Ef)%list_elem_of_omap by (rewrite Eo; left).
    unfold fragmentWindow in Ef. rewrite Forall_forall in Hb. specialize (Hb f Hf). specialize (Htest f Hf). unfold windowBounds, operandTest in *.
    destruct (fg_BSIOp f) eqn:Eop; try done; try (by destruct (fg_Begin f), (fg_End f)).
    destruct (fg_ShardWindow f); [|by destruct (fg_Begin f), (fg_End f)].
    destruct (Hb eq_refl) as (b1 & e1 & E1 & E2 & H1 & H2). rewrite E1, E2 in *. simplify_eq. specialize (Htest eq_refl). cbn in Htest.
    rewrite !Int64_millis by done. split_and!; [done|done|lia|lia].
Qed.

(** ** Requests on a partitioned table *)

Section Requests.

Context `{TextLib} (table : ShardTable) (uuids : nat -> bytes) (tq : bytes).

Definition timeField : bytes := legacyDirectRelationshipTimeQuantumField (Some table).

(** The table is partitioned by its time column, and has a name. *)
Context (Hfield : timeField <> []) (Hphysical : legacyDirectTableHasPhysicalShardWindow (Some table) = true) (Hname : st_Name table <> []).

(** A predicate on the time column, with bounds in milliseconds. *)
Definition millisPredicate (f : QuantaQueryFragment) : Prop := windowBounds (withShardWindowMark f).

(** The shard of an instant is read. *)
Definition readsShard (r : ExecutionRequest) (t : Z) : bool :=
  let q := ToBitmapQueryFromRequest (legacyDirectExecutionWithShardWindow r (Some table)) in
  inWindow tq (truncateTime (windowFrom uuids q) tq) (truncateTime (windowTo uuids q) tq) (truncateTime (FromUnixMilli t) tq).

Lemma marked_request r : existsb (legacyDirectShardTimePredicate timeField) (rq_Fragments r) = true ->
  rq_Seeds (legacyDirectExecutionWithShardWindow r (Some table)) = rq_Seeds r /\
  rq_Fragments (legacyDirectExecutionWithShardWindow r (Some table)) = legacyDirectMarkShardTimePredicates (rq_Fragments r) timeField.
Proof.
  intros He. unfold legacyDirectExecutionWithShardWindow. fold timeField. rewrite Hphysical, He. unfold tableIndex.
  rewrite (decide_False (P := st_Name table = [])), !bool_decide_false by done. done.
Qed.

(** Fragments of a request before they are marked. *)
Definition unmarked (f : QuantaQueryFragment) : Prop := fg_ShardWindow f = false.

Lemma marked_cases fs g : Forall unmarked fs -> g ∈ legacyDirectMarkShardTimePredicates fs timeField ->
  fg_ShardWindow g = true -> exists f, f ∈ fs /\ legacyDirectShardTimePredicate timeField f = true /\ g = withShardWindowMark f.
Proof.
  unfold legacyDirectMarkShardTimePredicates. rewrite Forall_forall. intros Hu (f & -> & Hf)%list_elem_of_fmap Hg.
  specialize (Hu f Hf). destruct (legacyDirectShardTimePredicate timeField f) eqn:E; [by exists f|congruence].
Qed.

Lemma found_stays fs : forall lower upper, (foldl shardBound (lower, upper, true) fs).2 = true.
Proof.
  induction fs as [|f fs IH]; intros lower upper; [done|]. cbn [foldl]. unfold shardBound at 2.
  destruct (fg_ShardWindow f), (fg_Value f), (fg_BSIOp f); apply IH.
Qed.

(** A marked bound makes a window. *)
Lemma window_found r f : rq_Seeds r = [] -> f ∈ rq_Fragments r -> fg_ShardWindow f = true -> windowBounds f ->
  match fg_BSIOp f with BSIOpRange | BSIOpGE | BSIOpGT | BSIOpLE | BSIOpLT => true | _ => false end = true ->
  exists b e, timeWindow r = Some (b, e).
Proof.
  intros Hseeds Hf Hm Hb Hop. unfold timeWindow. rewrite Hseeds. change (omap seedWindow []) with (@nil (Z * Z)). cbn [app].
  destruct (omap fragmentWindow (rq_Fragments r)) as [|[b e] l] eqn:Eo; [|by eexists _, _].
  unfold legacyBitmapQueryTimeWindowFromShardBounds. apply list_elem_of_split in Hf as (l1 & l2 & El).
  assert (fg_BSIOp f <> BSIOpRange) as Hnr.
  { intros E. specialize (Hb Hm). rewrite E in Hb. destruct Hb as (b & e & E1 & E2 & _).
    assert ((b, e) ∈ omap fragmentWindow (rq_Fragments r)) as Hin; [|rewrite Eo in Hin; by apply elem_of_nil in Hin].
    apply list_elem_of_omap. exists f. split; [rewrite El; set_solver|]. unfold fragmentWindow. by rewrite E, E1, E2, Hm. }
  rewrite El, foldl_app. cbn [foldl]. destruct (foldl shardBound _ l1) as [[lower upper] found].
  assert (exists lower' upper', shardBound (lower, upper, found) f = (lower', upper', true)) as (lower' & upper' & E).
  { specialize (Hb Hm). unfold shardBound. rewrite Hm. destruct (fg_BSIOp f); try done; destruct Hb as (v & -> & _); by eexists _, _. }
  rewrite E. pose proof (found_stays l2 lower' upper') as Hs. destruct (foldl shardBound _ l2) as [[? ?] ?]. cbn in Hs. subst. by eexists _, _.
Qed.

Lemma floorTo_mono q a b : 0 < q -> a <= b -> floorTo q a <= floorTo q b.
Proof. intros Hq Hab. unfold floorTo. pose proof (Z.div_le_mono a b q Hq Hab). nia. Qed.

(** The instant satisfies a positive predicate: one that is neither subtracted nor negated. *)
Definition instantSatisfies (f : QuantaQueryFragment) (t : Z) : Prop :=
  fg_Operation f = OperationIntersect /\ fg_Negate f = false /\ operandTest f t = true.

(** C9. Pruning by time is safe: with positive predicates on the time column in a
    conjunction, the window of the query has the shard of every instant from 1900 to 2100
    that satisfies them, for days and for hours, when the bounds are milliseconds of a size
    that is not taken for another unit. *)
Theorem shard_window_covers r t : rq_Seeds r = [] -> Forall unmarked (rq_Fragments r) ->
  existsb (legacyDirectShardTimePredicate timeField) (rq_Fragments r) = true ->
  (forall f, f ∈ rq_Fragments r -> legacyDirectShardTimePredicate timeField f = true -> millisPredicate f /\ instantSatisfies f t) ->
  fullRange t -> readsShard r t = true.
Proof.
  intros Hseeds Hu He Hp Ht. destruct (marked_request r He) as [Es Ef]. set (r' := legacyDirectExecutionWithShardWindow r (Some table)) in *.
  rewrite Hseeds in Es. assert (Forall windowBounds (rq_Fragments r')) as Hb.
  { rewrite Ef. apply Forall_forall. intros g Hg Hm. destruct (marked_cases _ g Hu Hg Hm) as (f & Hf & Hpf & ->). by apply (Hp f). }
  assert (forall g, g ∈ rq_Fragments r' -> fg_ShardWindow g = true -> operandTest g t = true) as Htest.
  { rewrite Ef. intros g Hg Hm. destruct (marked_cases _ g Hu Hg Hm) as (f & Hf & Hpf & ->). by apply (Hp f). }
  assert (exists b e, timeWindow r' = Some (b, e)) as (b & e & Hw).
  { apply existsb_exists in He as (f & Hf & Hpf). rewrite <- list_elem_of_In in Hf.
    apply (window_found r' (withShardWindowMark f)); [done| |done|by apply (Hp f)|].
    - rewrite Ef. apply list_elem_of_fmap. exists f. by rewrite Hpf.
    - unfold legacyDirectShardTimePredicate in Hpf. by apply andb_true_iff in Hpf as [_ ?]. }
  destruct (timeWindow_holds r' t b e Es Hb Htest Ht Hw) as (Hrb & Hre & Hin).
  unfold readsShard. fold r'. rewrite (window_shard uuids r' b e tq t Hw Hrb Hre) by (unfold fullRange in Ht;
    change legacyDirectRelationshipFullTimeRangeBeginMillis with (-2208988800000) in Ht;
    change legacyDirectRelationshipFullTimeRangeEndMillis with 4102444800000 in Ht; lia).
  assert (0 < quantumSeconds tq) by (destruct (quantum_cases tq) as [-> | ->]; done).
  apply andb_true_iff. split; apply Z.leb_le, floorTo_mono; try done; div_lia.
Qed.

(** C32. NOT BETWEEN on the time column is marked like BETWEEN: the window is the excluded
    range, and the shard of an instant on an earlier or later day, which satisfies the
    condition, is not read. *)
Theorem not_between_reads_excluded r f b e t : rq_Seeds r = [] -> rq_Fragments r = [f] ->
  legacyDirectFragmentFieldMatches f timeField = true -> fg_Operation f = OperationDifference -> fg_BSIOp f = BSIOpRange ->
  fg_Begin f = Some b -> fg_End f = Some e -> readsAsMillis b -> readsAsMillis e -> Z.abs t <= 9 * 10 ^ 12 ->
  floorTo (quantumSeconds tq) (t / 1000) < floorTo (quantumSeconds tq) (b / 1000) \/
    floorTo (quantumSeconds tq) (e / 1000) < floorTo (quantumSeconds tq) (t / 1000) ->
  operandTest f t = false /\ readsShard r t = false.
Proof.
  intros Hseeds Hr Hm Hop Hbsi Eb Ee Hb He Ht Hout.
  assert (0 < quantumSeconds tq) as Hq by (destruct (quantum_cases tq) as [-> | ->]; done).
  assert (legacyDirectShardTimePredicate timeField f = true) as Hpf by (unfold legacyDirectShardTimePredicate; by rewrite Hm, Hbsi).
  destruct (marked_request r) as [Es Ef]; [rewrite Hr; cbn [existsb]; by rewrite Hpf|]. split.
  - unfold operandTest. rewrite Hbsi, Eb, Ee. cbn. destruct (decide (b <= t <= e)) as [Hin|]; [exfalso|lia].
    pose proof (floorTo_mono (quantumSeconds tq) (b / 1000) (t / 1000) Hq ltac:(div_lia)).
    pose proof (floorTo_mono (quantumSeconds tq) (t / 1000) (e / 1000) Hq ltac:(div_lia)). lia.
  - unfold readsShard. rewrite (window_shard uuids _ b e tq t); [|..|done|done|done].
    + destruct Hout; [|rewrite andb_comm]; apply andb_false_iff; left; by apply Z.leb_gt.
    + unfold timeWindow. rewrite Es, Ef, Hseeds, Hr. unfold legacyDirectMarkShardTimePredicates. cbn [map]. rewrite Hpf.
      change (omap seedWindow []) with (@nil (Z * Z)). cbn. unfold fragmentWindow. cbn. rewrite Hbsi, Eb, Ee.
      by rewrite !Int64_millis.
Qed.

End Requests.

(** ** An example: events partitioned by the day of a column ts *)

Section Example.

#[local] Existing Instance asciiText.

Definition eventsTable : ShardTable := mkShardTable (str "events") (str "id") (str "YMD") (str "ts") [] [].

(** A bound on ts, and a range. *)
Definition tsBound (op : QuantaBSIOp) (v : Z) : QuantaQueryFragment :=
  mkFragment (str "events") [] (str "ts") OperationIntersect op (Some v) [] None None None [] None true false false false.

Definition tsOutside (b e : Z) : QuantaQueryFragment :=
  mkFragment (str "events") [] (str "ts") OperationDifference BSIOpRange None [] (Some b) (Some e) None [] None false false false false.

Definition eventsRequest (fs : list QuantaQueryFragment) : ExecutionRequest := mkRequest [] fs FEmpty [] [] [] [] None 0 0 false.

Lemma events_field : timeField eventsTable <> [].
Proof. done. Qed.

Lemma events_physical : legacyDirectTableHasPhysicalShardWindow (Some eventsTable) = true.
Proof. by vm_compute. Qed.

Lemma events_name : st_Name eventsTable <> [].
Proof. done. Qed.

(** ts >= 2024-01-01 AND ts < 2024-02-01, and an instant of 15 January. *)
Lemma shard_window_covers_witness :
  readsShard eventsTable exampleIds (str "YMD") (eventsRequest [tsBound BSIOpGE 1704067200000; tsBound BSIOpLT 1706745600000]) 1705312800000 = true.
Proof.
  apply (shard_window_covers eventsTable exampleIds (str "YMD") events_field events_physical events_name); [done| | | |].
  - by repeat constructor.
  - by vm_compute.
  - intros f Hf _. apply list_elem_of_In in Hf. destruct Hf as [<-|[<-|[]]]; (split; [|done]); intros _; cbn [fg_BSIOp withShardWindowMark tsBound].
    + exists 1704067200000. split; [done|]. unfold readsAsMillis. lia.
    + exists 1706745600000. split; [done|]. unfold readsAsMillis. lia.
  - split; by vm_compute.
Defined.

(** ts NOT BETWEEN 2024-01-01 AND 2024-02-01, and an instant of 2 March. *)
Lemma not_between_reads_excluded_witness :
  operandTest (tsOutside 1704067200000 1706745600000) 1709337600000 = false /\
  readsShard eventsTable exampleIds (str "YMD") (eventsRequest [tsOutside 1704067200000 1706745600000]) 1709337600000 = false.
Proof.
  apply (not_between_reads_excluded eventsTable exampleIds (str "YMD") events_field events_physical events_name
    (eventsRequest [tsOutside 1704067200000 1706745600000]) (tsOutside 1704067200000 1706745600000) 1704067200000 1706745600000 1709337600000);
    [done|done|by vm_compute|done|done|done|done|unfold readsAsMillis; lia|unfold readsAsMillis; lia|lia|]. right. by vm_compute.
Defined.

End Example.
