(* ===== verification/SqlQuery.v ===== *)
(** * SQL conditions on a node

    The SQL runtime on an in-process node of tables that are not partitioned by time: a
    condition is lowered, its fragments are sent as bitmap queries or read from cells,
    and the rows found are those that satisfy the condition.  Windows of tables that are
    partitioned, and a comparison that the two ways read differently, are treated
    after that. *)

From S2P Require Import Prelude GoStd GoState GoTime TimeLayout Value GoFloat ResultSet Catalog Sequencer Bitmaps BSIBinary BitmapQuery NodeQuery NodeExact NodeWrite ClientQuery ClientExact Fanout ClusterQuery SqlIR Lowering LexStrings LoweringExact FilterTree DirectQuery DirectFilter.

(** ** Values of a node *)

Section Node.

Context {B I : Type} `{RoaringOpsLaws B} `{!BSILib B I} `{!BSILaws B I} `{!TransposeLib B I}.

Implicit Types (m : BitmapIndex B I).

(** The value of a field of a row, in the only shard of a field that is not partitioned. *)
Definition storedValue m (index field : bytes) (x v : Z) : Prop := shardValue m index field 0 x = Some v.

(** The rows of a table: those with a value of the first field of its key. *)
Definition tableRow m (index : bytes) (x : Z) : Prop :=
  exists key, tableKey m index = Some key /\ exists v, storedValue m index key x v.

Record plainField m (index field : bytes) : Prop := {
  pl_known : knownField m index field;
  pl_bsi : isBSI m index field = Ok true;
  pl_quantum : quantumOf m index field = [];
  pl_shards : forall ts bsi, bsiShards m index field !! ts = Some bsi -> ts = 0 }.

Lemma storedValue_one m index field x v w : storedValue m index field x v -> storedValue m index field x w -> v = w.
Proof. unfold storedValue. congruence. Qed.

Lemma hasValue_stored m fromTime toTime index field x v : plainField m index field ->
  hasValue m fromTime toTime index field x v <-> storedValue m index field x v.
Proof.
  intros Hp. unfold hasValue, storedValue, shardValue.
  assert (forall ts, valueShard m fromTime toTime index field ts = (ts =? 0)) as Hw
    by (intros ts; unfold valueShard; by rewrite (pl_quantum _ _ _ Hp)).
  setoid_rewrite Hw. split.
  - intros (ts & bsi & Hs & ->%Z.eqb_eq & Hv). by rewrite Hs.
  - destruct (bsiShards m index field !! 0) as [bsi|] eqn:E; [|done]. intros Hv. by exists 0, bsi.
Qed.

Lemma rowExists_stored m fromTime toTime index field x : plainField m index field ->
  rowExists m fromTime toTime index field x <-> exists v, storedValue m index field x v.
Proof.
  intros Hp. rewrite rowExists_cells. unfold storedValue, existenceShard. rewrite (pl_quantum _ _ _ Hp). split.
  - intros (ts & [v Hv] & _). exists v. unfold shardValue in *. destruct (bsiShards m index field !! ts) as [bsi|] eqn:E; [|done].
    pose proof (pl_shards _ _ _ Hp _ _ E) as ->. by rewrite E.
  - intros [v Hv]. exists 0. split; [by exists v|done].
Qed.

(** The first field of the key of a table, when it is not partitioned. *)
Definition plainTable m (index : bytes) : Prop := exists key, tableKey m index = Some key /\ plainField m index key.

Lemma inTable_stored m fromTime toTime index x : plainTable m index ->
  inTable m fromTime toTime index x <-> tableRow m index x.
Proof.
  intros (key & Ek & Hp). unfold inTable, tableRow. rewrite Ek.
  split; intros (? & [= <-] & Hx); exists key; (split; [done|]); by apply (rowExists_stored m fromTime toTime).
Qed.

(** ** Fragments on the wire *)

Lemma operation_value op : op = OperationIntersect \/ op = OperationDifference ->
  default INTERSECT (OpType_value (operationString op)) = if decide (op = OperationDifference) then DIFFERENCE else INTERSECT.
Proof. by intros [-> | ->]. Qed.

Lemma sent_condition f v : sendable f = true -> fg_NullCheck f = false ->
  conditionOf (toQueryFragment f) v = operandTest f v /\ default BSI_NA (BSIOp_value (bsiOpString (fg_BSIOp f))) <> BSI_NA.
Proof.
  unfold sendable, conditionOf, operandTest, toQueryFragment. intros [_ Hs]%andb_true_iff Hn. rewrite Hn in Hs.
  cbn [qf_BSIOp qf_Value qf_Begin qf_End qf_Values].
  by destruct (fg_BSIOp f).
Qed.

Lemma fragmentRows_ext stored stored' table f x :
  (forall v, stored (fg_Index f) (fg_Field f) x v <-> stored' (fg_Index f) (fg_Field f) x v) ->
  fragmentRows stored table f x <-> fragmentRows stored' table f x.
Proof.
  intros E. unfold fragmentRows. destruct (fg_NullCheck f), (fg_Negate f), (fg_Operation f); by setoid_rewrite E.
Qed.

(** The values of one table. *)
Definition tableValue m (table index field : bytes) (x v : Z) : Prop := index = table /\ storedValue m index field x v.

Lemma tableValue_one m table index field x v w : tableValue m table index field x v -> tableValue m table index field x w -> v = w.
Proof. intros [_ Hv] [_ Hw]. by eapply storedValue_one. Qed.

(** What a fragment of a plain field means on the node. *)
Lemma sent_rows m index fromTime toTime f x : plainTable m index -> plainField m index (fg_Field f) ->
  fg_Index f = index -> sendable f = true ->
  let v := asked (toQueryFragment f) in
  satisfies (matches m fromTime toTime) v x /\ (pf_NullCheck v || bool_decide (pf_Operation v = DIFFERENCE) = true -> tableRow m index x) <->
  fragmentRows (tableValue m index) (tableRow m index) f x.
Proof.
  intros Ht Hp Hi Hs. cbn zeta. pose proof Hs as Hs'. unfold sendable in Hs'. apply andb_true_iff in Hs' as [Hop Hrest].
  apply andb_true_iff in Hop as [Hop%bool_decide_eq_true _].
  assert (forall v, tableValue m index (fg_Index f) (fg_Field f) x v <-> storedValue m (fg_Index f) (fg_Field f) x v) as Hst
    by (intros v; unfold tableValue; tauto).
  rewrite (fragmentRows_ext _ (storedValue m) _ f x Hst). unfold satisfies, fragmentRows, matches, asked.
  cbn [pf_NullCheck pf_Negate pf_Operation pf_Index pf_Field pf_BsiOp fragmentProto qf_NullCheck qf_Negate qf_Operation qf_Index qf_Field qf_BSIOp toQueryFragment].
  rewrite Hi, (pl_bsi _ _ _ Hp), operation_value by done. destruct (fg_NullCheck f) eqn:En; cbn [andb orb default from_option go_option id].
  - pose proof (rowExists_stored m fromTime toTime index (fg_Field f) x Hp). destruct (fg_Negate f); tauto.
  - rewrite (decide_True (P := default BSI_NA (BSIOp_value (bsiOpString (fg_BSIOp f))) <> BSI_NA)) by (by apply (sent_condition f 0)).
    assert (forall P : Z -> Prop, (forall v, P v <-> hasValue m fromTime toTime index (fg_Field f) x v /\
      condition (fragmentProto (toQueryFragment f) [] []) v = true) -> (exists v, P v) <->
      exists v, storedValue m index (fg_Field f) x v /\ operandTest f v = true) as Hex.
    { intros P HP. setoid_rewrite HP. setoid_rewrite wire_condition. setoid_rewrite (fun v => proj1 (sent_condition f v Hs En)).
      by setoid_rewrite (fun v => hasValue_stored m fromTime toTime index (fg_Field f) x v Hp). }
    specialize (Hex _ (fun v => iff_refl _)).
    cbn beta in Hex. destruct Hop as [-> | ->]; [rewrite (decide_False (P := OperationIntersect = OperationDifference)) by done|rewrite decide_True by done].
    + rewrite Hex, bool_decide_false by done. split; [by intros []|]. by intros He.
    + rewrite Hex, bool_decide_true by done. naive_solver.
Qed.

(** ** The query of a request *)

Context `{TextLib}.
Context (order : list bytes -> list bytes) (Ho : forall l, order l ≡ₚ l) (sampling : list B -> Z -> list B).
Context (uuids : nat -> bytes) (Hinj : Inj eq eq uuids).

Definition nodeTree (f : QuantaQueryFragment) (fs : list QuantaQueryFragment) : FragmentTree :=
  FNode (toQueryFragment f) (map (fun g => FNode (toQueryFragment g) []) fs).

Lemma nodeTree_fragments f fs : fragments (nodeTree f fs) = map toQueryFragment (fs ++ [f]).
Proof.
  unfold nodeTree. cbn [fragments]. rewrite map_app. f_equal. induction fs as [|g fs IH]; [done|]. cbn [map concat]. by rewrite IH.
Qed.

Lemma addFragments q f children fs : bq_root q = Some (FNode (toQueryFragment f) children) -> fg_Index f <> [] ->
  foldl (fun q f => addFragment q (FNode (toQueryFragment f) [])) q fs =
    withRoot q (FNode (toQueryFragment f) (children ++ map (fun g => FNode (toQueryFragment g) []) fs)).
Proof.
  intros Hq Hf. revert q children Hq. induction fs as [|g fs IH]; intros q children Hq; cbn [foldl map].
  - rewrite app_nil_r. unfold withRoot. rewrite <- Hq. by destruct q.
  - assert (addFragment q (FNode (toQueryFragment g) []) = withRoot q (FNode (toQueryFragment f) (children ++ [FNode (toQueryFragment g) []]))) as ->.
    { unfold addFragment. rewrite Hq. by rewrite decide_False. }
    rewrite (IH _ (children ++ [FNode (toQueryFragment g) []])) by done. by rewrite <- app_assoc.
Qed.

(** Without marked predicates and seeds the window is the hour of the epoch. *)
Lemma request_query r f fs : rq_Seeds r = [] -> rq_Fragments r = f :: fs -> Forall (fun g => fg_ShardWindow g = false) (f :: fs) ->
  fg_Index f <> [] ->
  ToBitmapQueryFromRequest r =
    mkBitmapQuery (FormatYMDH epochTime) (FormatYMDH epochTime) (rq_PreserveBitmapFragmentOrder r) (Some (nodeTree f fs)).
Proof.
  intros Hseeds Hfs Hsw Hi. unfold ToBitmapQueryFromRequest, ToBitmapQuery, applyTimeWindow, timeWindow. rewrite Hseeds, Hfs.
  change (omap seedWindow []) with (@nil (Z * Z)). cbn [map app foldl addFragment NewBitmapQuery bq_root].
  rewrite (addFragments _ f [] fs) by done.
  assert (omap fragmentWindow (f :: fs) = []) as ->.
  { clear -Hsw. induction Hsw as [|g l Hg _ IH]; [done|]. cbn. unfold fragmentWindow at 1. rewrite Hg. by destruct (fg_BSIOp g), (fg_Begin g), (fg_End g). }
  assert (legacyBitmapQueryTimeWindowFromShardBounds r = None) as ->; [|done].
  unfold legacyBitmapQueryTimeWindowFromShardBounds. rewrite Hfs.
  assert (forall acc, foldl shardBound acc (f :: fs) = acc) as ->; [|done]. clear -Hsw.
  induction Hsw as [|g l Hg _ IH]; intros acc; [done|]. cbn [foldl]. rewrite IH.
  unfold shardBound. destruct acc as [[? ?] ?]. by rewrite Hg.
Qed.

Lemma imap_nothing {A C} (g : nat -> A -> list C) l : (forall i a, a ∈ l -> g i a = []) -> concat (imap g l) = [].
Proof.
  revert g. induction l as [|a l IH]; intros g Hg; [done|]. rewrite imap_cons. cbn [concat].
  rewrite (Hg 0%nat a), IH; [done|intros i b Hb; apply Hg; by right|by left].
Qed.

(** Requests that are valid. *)
Lemma request_valid r index : rq_Seeds r = [] -> Forall (fun f => fg_Index f = index /\ fg_Field f <> [] /\ sendable f = true) (rq_Fragments r) ->
  index <> [] -> ValidateIntermediateQuery r = [].
Proof.
  intros Hseeds Hfs Hi. unfold ValidateIntermediateQuery. rewrite Hseeds. cbn [imap concat app].
  assert (forall i f, fg_Index f = index /\ fg_Field f <> [] /\ sendable f = true -> validateFragment i f = []) as Hv.
  { intros i f (E & Hf & Hs). unfold validateFragment. rewrite E, !bool_decide_false by done. cbn [negb unless app].
    unfold sendable in Hs. apply andb_true_iff in Hs as [[Hop%bool_decide_eq_true _]%andb_true_iff Hs].
    rewrite bool_decide_false by (destruct Hop; congruence). cbn [negb unless app]. unfold validateOperands.
    destruct (fg_NullCheck f); [apply andb_true_iff in Hs as [->%bool_decide_eq_true _]; done|].
    destruct (fg_BSIOp f); try done; by rewrite Hs. }
  rewrite Forall_forall in Hfs. apply imap_nothing. intros i f Hf. by apply Hv, Hfs.
Qed.

(** ** Sessions on an in-process node *)

Context (m : BitmapIndex B I) (index : bytes) (active : list (BitmapIndex B I)).
Context (Hag : shardsAgree m) (Ht : plainTable m index).
Context (Htable : forall field x v, storedValue m index field x v -> tableRow m index x).
Context (h : LegacyQuantaSessionHandle) (Hbit : ss_hasBitIndex h = true).
Context (Hquantum : forall r, RootIndex r = Some index -> legacyDirectRelationshipTimeQuantumField (cachedRootTable h r) = []).

(** The node, with any coherent seed cache. *)
Definition nodeState (s : Client B I) : Prop := exists seeds,
  s = mkClient (Some (withSeedCache m seeds)) active /\ seedsCoherent (withSeedCache m seeds).

(** Fragments on the table that can be sent. *)
Definition tableFragment (f : QuantaQueryFragment) : Prop :=
  fg_Index f = index /\ plainField m index (fg_Field f) /\ sendable f = true.

Lemma fragment_table f x : fragmentRows (tableValue m index) (tableRow m index) f x -> tableRow m index x.
Proof. apply fragment_domain. intros i field y v [-> Hv]. by eapply Htable. Qed.

Lemma answer_rows fromTime toTime fs x : fs <> [] -> Forall tableFragment fs ->
  answer (matches m fromTime toTime) (inTable m fromTime toTime index) (map asked (map toQueryFragment fs)) x <->
  Forall (fun f => fragmentRows (tableValue m index) (tableRow m index) f x) fs.
Proof.
  intros Hne Hfs. unfold answer. rewrite (inTable_stored m fromTime toTime index x Ht), map_map, Forall_forall. rewrite Forall_forall in Hfs.
  pose proof (fun f Hf => sent_rows m index fromTime toTime f x Ht (proj1 (proj2 (Hfs f Hf))) (proj1 (Hfs f Hf)) (proj2 (proj2 (Hfs f Hf)))) as Hrow.
  cbn zeta in Hrow. split.
  - intros [Hall Hneed] f Hf. apply (Hrow f Hf). split; [apply Hall, list_elem_of_fmap; by exists f|]. intros _.
    destruct (needsTable _) eqn:En; [by apply Hneed|]. unfold needsTable in En. apply orb_false_iff in En as [Enull Eint%negb_false_iff].
    apply existsb_exists in Eint as (v & Hv & Eop%bool_decide_eq_true). rewrite <- list_elem_of_In in Hv.
    pose proof Hv as (g & -> & Hg)%list_elem_of_fmap. apply (fragment_table g). apply (Hrow g Hg). split; [by apply Hall|].
    rewrite Eop, bool_decide_false, orb_false_r by done. intros E. exfalso. apply not_true_iff_false in Enull. apply Enull, existsb_exists.
    eexists. split; [by apply list_elem_of_In|done].
  - intros Hall. split.
    + intros v (f & -> & Hf)%list_elem_of_fmap. apply (Hrow f Hf), Hall, Hf.
    + intros _. destruct fs as [|f fs]; [done|]. apply (fragment_table f), Hall. left.
Qed.

Lemma table_askable seeds fs : Forall tableFragment fs -> zlen fs < 2 ^ 31 ->
  askable (withSeedCache m seeds) index (map toQueryFragment fs).
Proof.
  intros Hfs Hl. split.
  - apply Forall_map. eapply Forall_impl; [exact Hfs|]. intros f (Hi & Hp & _). cbn. split_and!; [done| |done|done]. apply Hp.
  - unfold conjunctive. rewrite map_map. apply Forall_map. eapply Forall_impl; [exact Hfs|].
    intros f (_ & _ & Hs). cbn [asked pf_Operation fragmentProto qf_Operation toQueryFragment].
    unfold sendable in Hs. apply andb_true_iff in Hs as [[Hop%bool_decide_eq_true _]%andb_true_iff _].
    rewrite operation_value by done. case_decide; [by right|by left].
  - unfold zlen in *. by rewrite length_map.
  - destruct Ht as (key & Ek & Hk). exists key. split; [exact Ek|apply Hk].
Qed.

Lemma root_fragment r f fs : rq_Fragments r = f :: fs -> fg_Index f <> [] -> RootIndex r = Some (fg_Index f).
Proof. intros E Hf. unfold RootIndex, firstName. rewrite E. cbn [map app]. by rewrite filter_cons, decide_True. Qed.

Lemma withShardWindow_plain r f fs : rq_Fragments r = f :: fs -> fg_Index f = index -> index <> [] -> withShardWindow h r = r.
Proof.
  intros E Hi Hne. unfold withShardWindow. set (table := cachedRootTable h r).
  assert (legacyDirectRelationshipTimeQuantumField table = []) as Eq by (apply Hquantum; rewrite (root_fragment r f fs); congruence).
  assert (legacyDirectExecutionWithShardWindow r table = r) as ->.
  { unfold legacyDirectExecutionWithShardWindow. by rewrite Eq. }
  unfold legacyDirectExecutionWithFullTableScanSeed. destruct table as [t|]; [|done]. rewrite E.
  by rewrite (bool_decide_false (length (f :: fs) = 0%nat)), !orb_true_r by done.
Qed.

(** The operands of a comparison lie between two values of its field. *)
Definition spanned (f : QuantaQueryFragment) : Prop :=
  Forall (between (storedValue m index (fg_Field f))) (operands (asked (toQueryFragment f))).

Lemma spanned_ranged seeds fromTime toTime f : tableFragment f -> spanned f ->
  ranged (withSeedCache m seeds) fromTime toTime (asked (toQueryFragment f)).
Proof.
  intros (Hi & Hp & _) Hf. eapply Forall_impl; [exact Hf|]. intros a. apply between_ext. intros x v. cbn [pf_Index pf_Field asked fragmentProto
    toQueryFragment qf_Index qf_Field]. rewrite Hi. apply (hasValue_stored m fromTime toTime index (fg_Field f) x v Hp).
Qed.

(** Two fragments at most, or a row with a value in every field that is compared. *)
Definition fullRow (fs : list QuantaQueryFragment) (x : Z) : Prop :=
  (length fs <= 2)%nat \/ Forall (fun f => exists v, storedValue m index (fg_Field f) x v) fs.

Lemma fullRow_comparable seeds fromTime toTime fs x : Forall tableFragment fs -> fullRow fs x ->
  comparable (shardValue m) (withSeedCache m seeds) fromTime toTime (map toQueryFragment fs) x.
Proof.
  intros Hfs [Hl|Hall]; [left; by rewrite length_map|right]. apply Forall_map, Forall_forall. intros f Hf _.
  rewrite Forall_forall in Hfs, Hall. destruct (Hfs f Hf) as (Hi & Hp & _). destruct (Hall f Hf) as [v Hv]. exists v.
  exists 0. cbn [pf_Index pf_Field asked fragmentProto toQueryFragment qf_Index qf_Field]. rewrite Hi. split; [exact Hv|].
  unfold valueShard. change (quantumOf (withSeedCache m seeds)) with (quantumOf m). by rewrite (pl_quantum _ _ _ Hp).
Qed.

(** A request on the table, asked of the node: the rows of all its fragments, and no other
    of the rows with a value in every field compared. *)
Lemma request_rows r f fs s : rq_Seeds r = [] -> rq_Fragments r = f :: fs -> Forall tableFragment (f :: fs) ->
  Forall spanned (f :: fs) -> zlen (f :: fs) < 2 ^ 31 -> nodeState s -> exists result s',
    QueryBitmap order sampling uuids h r s = (Ok (result, []), s') /\ nodeState s' /\
    bqr_Count result = wrap_u 64 (zlen (bqr_Rownums result)) /\
    forall x, let meant := Forall (fun f => fragmentRows (tableValue m index) (tableRow m index) f x) (f :: fs) in
      (meant -> x ∈ bqr_Rownums result) /\ (fullRow (f :: fs) x -> x ∈ bqr_Rownums result -> meant).
Proof.
  intros Hseeds Hr Hfs Hspan Hl (seeds & -> & Hs). pose proof (Forall_inv Hfs) as (Hi & Hp & _).
  assert (index <> []) as Hne by apply (pl_known _ _ _ Hp).
  assert (Forall (fun g => fg_ShardWindow g = false) (f :: fs)) as Hsw.
  { eapply Forall_impl; [exact Hfs|]. intros g (_ & _ & Hg). unfold sendable in Hg.
    apply andb_true_iff in Hg as [[_ Hg%negb_true_iff]%andb_true_iff _]. done. }
  assert (Forall (fun f => fg_Index f = index /\ fg_Field f <> [] /\ sendable f = true) (rq_Fragments r)) as Hvalid.
  { rewrite Hr. eapply Forall_impl; [exact Hfs|]. intros g (Eg & Hg & Hsg). split_and!; [done|apply (pl_known _ _ _ Hg)|done]. }
  set (q := mkBitmapQuery (FormatYMDH epochTime) (FormatYMDH epochTime) (rq_PreserveBitmapFragmentOrder r) (Some (nodeTree f fs))).
  set (m1 := withSeedCache m seeds) in *. assert (fs ++ [f] ≡ₚ f :: fs) as Hperm by (symmetry; apply Permutation_cons_append).
  assert (askable m1 index (fragments (nodeTree f fs))) as Hask.
  { rewrite nodeTree_fragments. apply table_askable; [by rewrite Hperm|]. unfold zlen in *. by rewrite Hperm. }
  destruct (askable_answerable m1 index uuids q (nodeTree f fs) Hinj eq_refl Hask) as (Ha & Hc & Hcar).
  destruct (local_query_rows order sampling m1 (ToProto uuids q) index (bq_DisableFragmentFanout q) active Ho Ha Hc Hag Hs)
    as (result & seeds' & Eq & Hs' & Hrows).
  { apply (sent_ranged uuids Hinj q (nodeTree f fs) eq_refl m1 index Hask). rewrite nodeTree_fragments. apply Forall_map.
    rewrite Hperm. apply Forall_forall. intros g Hg. rewrite Forall_forall in Hfs, Hspan. by apply spanned_ranged; auto. }
  exists (ToBitmapQueryResult (result, wrap_u 64 (GetCardinality result))), (mkClient (Some (withSeedCache m seeds')) active).
  split_and!.
  - unfold QueryBitmap, queryRequest. rewrite Hbit, (withShardWindow_plain r f fs Hr Hi Hne). cbn [negb].
    rewrite (request_valid r index Hseeds Hvalid Hne).
    rewrite (request_query r f fs Hseeds Hr Hsw) by congruence. cbn [BlocksNative existsb]. fold q. by rewrite (bind_run _ _ _ _ _ Eq).
  - by exists seeds'.
  - cbn [bqr_Count bqr_Rownums ToBitmapQueryResult fst snd]. by rewrite GetCardinality_ToArray.
  - intros x. cbn [bqr_Rownums ToBitmapQueryResult fst]. cbn zeta. rewrite elem_of_ToArray. specialize (Hrows x). revert Hrows.
    rewrite (sent_satisfying uuids Hinj q (nodeTree f fs) eq_refl m1 index Hask x). unfold satisfying. rewrite nodeTree_fragments in *.
    pose proof (answer_rows (windowFrom uuids q) (windowTo uuids q) (fs ++ [f]) x ltac:(by destruct fs) ltac:(by rewrite Hperm)) as Hans.
    match type of Hans with _ <-> Forall ?P _ => assert (Forall P (fs ++ [f]) <-> Forall P (f :: fs)) as Ef by (by rewrite Hperm) end.
    rewrite Ef in Hans. intros [Hcomp Hsound]. split; [intros Hx; by apply Hcomp, Hans|]. intros Hfull Hx. apply Hans. revert Hx. apply Hsound. eapply (comparable_settled m1 (shardValue m)); [done|done|exact Hcar|].
    apply fullRow_comparable; [by rewrite Hperm|]. unfold fullRow in *. by rewrite Hperm.
Qed.


(** One fragment is read without candidates. *)
Lemma single_request f x (rows : list Z) :
  (let meant := Forall (fun f => fragmentRows (tableValue m index) (tableRow m index) f x) [f] in
   (meant -> x ∈ rows) /\ (fullRow [f] x -> x ∈ rows -> meant)) ->
  x ∈ rows <-> fragmentRows (tableValue m index) (tableRow m index) f x.
Proof.
  cbn zeta. rewrite Forall_singleton. intros [Hcomp Hsound]. split; [|done]. apply Hsound. left. cbn. lia.
Qed.

(** ** Conditions *)

Context (now : Time) (parameters : list ParameterBinding) (Dictionaries : option DictionaryResolver).
Context (contents : bytes -> bytes -> Z -> option cell).

(** A field of the table whose values the node stores. *)
Definition storedField (field : FieldRef) : Prop :=
  ti_Table (fr_Table field) = index /\ plainField m index (quantaIntermediateFieldName field) /\
  represents (tableValue m index) contents field.

Lemma onField_table field f : storedField field -> onField field f -> tableFragment f.
Proof. intros (Ei & Hp & _) (Fi & Ff & Hs). split_and!; [congruence|by rewrite Ff|done]. Qed.

(** Two conditions at most, or a row with a value in every field of the conditions. *)
Definition fullConditions (cs : list sqlCondition) (x : Z) : Prop :=
  (length cs <= 2)%nat \/ forall c field, c ∈ cs -> field ∈ fieldsOf c ->
    exists v, storedValue m index (quantaIntermediateFieldName field) x v.

(** C2. A query whose conditions are a conjunction, from SQL to its rows: the supported
    conditions are lowered without a diagnostic, the runtime sends them to the node as one
    bitmap query, and the result has every row that satisfies all of them, and no other of
    the rows with a value in each of their fields; with two conditions at most it has no
    other row at all.  The count is the number of rows.  The table is not partitioned by
    time, its rows have the first field of its key, no row has two values of a field, and
    the operands sent lie between two values of their field. *)
Theorem sql_conjunction_exact ps cs r s : cs <> [] -> Forall2 (states now parameters) ps cs -> zlen cs < 2 ^ 31 ->
  Forall (fun c => Forall storedField (fieldsOf c)) cs -> rq_Seeds r = [] -> nodeState s ->
  (forall fs, LowerQuery now Dictionaries (mkQueryIR true 1 0 0 ps ENil) parameters = Lowered (fs, FEmpty) -> Forall spanned fs) ->
  exists fs, LowerQuery now Dictionaries (mkQueryIR true 1 0 0 ps ENil) parameters = Lowered (fs, FEmpty) /\
    exists result s', QueryBitmap order sampling uuids h (withFragments r fs FEmpty (rq_ProjectionFields r) None) s = (Ok (result, []), s') /\
      nodeState s' /\ bqr_Count result = wrap_u 64 (zlen (bqr_Rownums result)) /\
      forall x, let meant := Forall (fun c => conditionRows now parameters contents (tableRow m index) c x) cs in
        (meant -> x ∈ bqr_Rownums result) /\
        (fullConditions cs x -> x ∈ bqr_Rownums result -> meant).
Proof.
  intros Hcs Hps Hl Hfields Hseeds Hs Hspan.
  destruct (lower_query now parameters Dictionaries (tableValue m index) (tableRow m index) contents (tableValue_one m index) ps cs None)
    as (fs & t & E & Hne & Hlen & Hon & Hrows & ->); [done| |done|].
  { eapply Forall_impl; [exact Hfields|]. intros c Hc. eapply Forall_impl; [exact Hc|]. by intros field (_ & _ & Hrep). }
  exists fs. split; [done|]. destruct fs as [|f fs]; [by destruct (Hne Hcs)|].
  assert (Forall tableFragment (f :: fs)) as Hfs.
  { eapply Forall_impl; [exact Hon|]. intros g (c & field & Hc & Hf & Hg). rewrite Forall_forall in Hfields.
    specialize (Hfields c Hc). rewrite Forall_forall in Hfields. by eapply onField_table; [apply Hfields|]. }
  destruct (request_rows (withFragments r (f :: fs) FEmpty (rq_ProjectionFields r) None) f fs s Hseeds eq_refl Hfs
    (Hspan _ E) ltac:(unfold zlen in *; lia) Hs) as (result & s' & Eq & Hs' & Hcount & Hr).
  exists result, s'. split_and!; [done..|]. intros x. cbn zeta. rewrite <- (Hrows x). split; [apply Hr|].
  intros Hfull. apply Hr. destruct Hfull as [Hf|Hf]; [left; lia|right]. apply Forall_forall. intros g Hg.
  rewrite Forall_forall in Hon. destruct (Hon g Hg) as (c & field & Hc & Hfield & (_ & Ef & _)). rewrite Ef. exact (Hf c field Hc Hfield).
Qed.

(** C30. NOT IN returns the members: a list of integers is lowered to the same comparison
    with and without NOT, marked as negated, and the node ignores the mark.  The rows of NOT
    IN are exactly those of IN, while a materialized cell is tested with the negation.  The
    table is not partitioned by time, its rows have the first field of its key, and no row
    has two values of a field. *)
Theorem not_in_returns_members `{!FmtLib} `{!FmtLaws} p field items r s : pd_Combinator p <> CombinatorOr ->
  pd_Expr p = EBinary OpNotIn (EField field) (EList items) -> supported now parameters (SIn field items) = true ->
  storedField field -> rq_Seeds r = [] -> nodeState s -> exists f,
    lowerPredicate now Dictionaries p parameters = Lowered f /\
    (exists result s', QueryBitmap order sampling uuids h (withFragments r [f] FEmpty (rq_ProjectionFields r) None) s = (Ok (result, []), s') /\
      forall x, x ∈ bqr_Rownums result <-> conditionRows now parameters contents (tableRow m index) (SIn field items) x) /\
    (forall v, integerFragment f -> Z.abs v < 2 ^ 53 -> directBitmapFilterFragmentMatchesCell f (integerCell v) = negb (operandTest f v)).
Proof.
  intros Hp Ep Hsup Hfield Hseeds Hs.
  destruct (lower_members now parameters Dictionaries p field items true Hp Ep Hsup) as (f & El & Ei & Ef & Eo & Eb & En & Ec & Ew & Ev & Ht').
  assert (onField field f) as Hon.
  { split_and!; [done..|]. unfold sendable. rewrite Eo, Ew, Ec, Eb. rewrite (bool_decide_false (length (fg_Values f) = 0%nat)); [done|].
    by destruct (fg_Values f). }
  exists f. split_and!; [done| |].
  - assert (spanned f) as Hspan by (unfold spanned, operands; cbn [pf_BsiOp asked fragmentProto toQueryFragment qf_BSIOp]; rewrite Eb; constructor).
    destruct (request_rows (withFragments r [f] FEmpty (rq_ProjectionFields r) None) f [] s Hseeds eq_refl
      (Forall_cons_2 _ _ _ (onField_table field f Hfield Hon) (Forall_nil_2 _)) (Forall_cons_2 _ _ _ Hspan (Forall_nil_2 _))
      ltac:(done) Hs) as (result & s' & Eq & _ & _ & Hr).
    exists result, s'. split; [done|]. intros x. rewrite (single_request f x _ (Hr x)). cbn [conditionRows].
    cbn [supported] in Hsup. apply andb_true_iff in Hsup as [[Hf _]%andb_true_iff _]. apply (integer_test _ _ _ field f false); [apply Hfield|done..].
  - intros v Hint Hv. rewrite (materialized_cells f v Hint Hv), Eo, En. cbn. done.
Qed.

(** ** Filters *)

Context `{!FmtLib} `{!FmtLaws}.

(** The session of the node. *)
Definition nodeSessions : DirectSessionProvider (Client B I) := fun _ =>
  mret (Some (mkHandle (QueryBitmap order sampling uuids h) (Some (QueryBitmapWithCandidateSet order uuids h)) (mret [])), []).

Context (kernel : option (ProjectionMaterializationKernel (Client B I))).
Context (catalog : list CatalogTable) (resolver : option DictionaryResolver).

Lemma node_sessions request (ok : QuantaQueryFragment -> Prop) : rq_Seeds request = [] -> (forall f, ok f -> tableFragment f /\ spanned f) ->
  SessionContract nodeSessions request (tableValue m index) (tableRow m index) nodeState ok.
Proof.
  intros Hseeds Hok f s Hf Hs. eexists _, [], s. split_and!; [done|done|done| |].
  - intros s1 Hs1. destruct (Hok f Hf) as [Htf Hspan]. cbn [dh_QueryBitmap].
    destruct (request_rows (leafRequestOf request f) f [] s1 Hseeds eq_refl (Forall_cons_2 _ _ _ Htf (Forall_nil_2 _))
      (Forall_cons_2 _ _ _ Hspan (Forall_nil_2 _)) ltac:(done) Hs1) as (result & s2 & E & Hs2 & _ & Hr).
    exists result, [], s2. split_and!; [done..|]. intros x. exact (single_request f x _ (Hr x)).
  - intros s1 Hs1. by exists [], s1.
Qed.

(** C1. A query with a condition of AND and OR, from SQL to its rows: a supported condition
    is lowered to a filter tree, and the evaluation of the tree on the node, by bitmap
    queries and, with a materialization kernel, on the cells of candidates, leaves a
    candidate set with exactly the rows that satisfy the condition.  The table is not
    partitioned by time, its rows have the first field of its key, no row has two values of
    a field, and the operands sent lie between two values of their field.  With a kernel the
    leaves are null checks, or integer comparisons on fields in which every row of the table
    has a value, operands and values being below 2^53. *)
Theorem sql_filter_exact c r s : supported now parameters c = true -> Forall storedField (fieldsOf c) ->
  rq_Seeds r = [] -> nodeState s ->
  (forall t, LowerQuery now Dictionaries (mkQueryIR true 1 0 0 [] (exprOf c)) parameters = Lowered ([], t) -> everyLeaf spanned noCandidateSet t) ->
  (forall request field f, field ∈ fieldsOf c -> onField field f -> directBitmapFilterFragmentStringEnumDecision catalog request f = None) ->
  (forall k t, kernel = Some k -> LowerQuery now Dictionaries (mkQueryIR true 1 0 0 [] (exprOf c)) parameters = Lowered ([], t) ->
     KernelContract (tableValue m index) nodeState k /\ everyLeaf (materializable (tableValue m index) (tableRow m index)) noCandidateSet t) ->
  exists t, LowerQuery now Dictionaries (mkQueryIR true 1 0 0 [] (exprOf c)) parameters = Lowered ([], t) /\
    let request := withFragments r [] t (rq_ProjectionFields r) None in
    exists candidates s', AdaptFilterExpression (Some nodeSessions) kernel catalog resolver request (fun _ => None) s =
        (Ok (WithCandidateSet request candidates, []), s') /\ nodeState s' /\
      forall x, x ∈ cs_Rownums candidates <-> conditionRows now parameters contents (tableRow m index) c x.
Proof.
  intros Hsup Hfields Hseeds Hs Hspan Henum Hkernel.
  destruct (lower_query now parameters Dictionaries (tableValue m index) (tableRow m index) contents (tableValue_one m index) [] [] (Some c))
    as (fs & t & E & _ & Hlen & _ & _ & Hp & Hl & Hrows); [done|done| |].
  { intros ? [= <-]. split; [done|]. eapply Forall_impl; [exact Hfields|]. by intros field (_ & _ & Hrep). }
  destruct fs; [|cbn in Hlen; lia]. exists t. split; [done|]. intros request.
  pose proof (everyLeaf_and _ _ _ _ t Hl (Hspan t E)) as Hl'.
  set (ok f := ((exists field, field ∈ fieldsOf c /\ onField field f) /\ spanned f) /\
    forall k, kernel = Some k -> materializable (tableValue m index) (tableRow m index) f).
  assert (forall f, ok f -> tableFragment f /\ spanned f) as Hok.
  { intros f [[(field & Hin & Hf) Hsp] _]. split; [|done]. rewrite Forall_forall in Hfields. by eapply onField_table; [apply Hfields|]. }
  assert (everyLeaf ok (inDomain (tableRow m index)) t) as Hleaves.
  { destruct kernel as [k|].
    - destruct (Hkernel k t eq_refl E) as [_ Hm]. eapply everyLeaf_mono; [| |exact (everyLeaf_and _ _ _ _ t Hl' Hm)]; [|done].
      intros f [Hf Hmat]. by split.
    - eapply everyLeaf_mono; [| |exact Hl']; [|done]. intros f Hf. by split. }
  pose proof (node_sessions request ok Hseeds Hok) as Hsess.
  assert (LeafContract (fun _ => None) (directBitmapFilterTreeLeafEvaluator nodeSessions kernel catalog resolver request) nodeState ok
    (tableRow m index) (fragmentRows (tableValue m index) (tableRow m index))) as Hcontract.
  { apply direct_leaf_contract; [apply tableValue_one|intros i field x v [-> Hv]; by eapply Htable|done|done| |].
    - intros f [[(field & Hin & Hf) _] _]. by eapply Henum.
    - intros k Ek. split; [by apply (Hkernel k t)|]. intros f [_ Hm]. by eapply Hm. }
  destruct (evaluateFilter_exact _ _ _ _ _ _ (filterSize t) t ltac:(done) Hp Hleaves s Hs) as (cs & d & s' & Ev & Hs' & Hd & Hr).
  eexists _, s'. split_and!; [|done|].
  - unfold AdaptFilterExpression. change (rq_Filter request) with t. destruct t as [|f|c0|l|l]; [done|..]; cbn [filterEmpty]; unfold EvaluateFilter;
      rewrite (bind_run _ _ _ _ _ Ev); cbn beta iota; by rewrite Hd.
  - intros x. cbn [cs_Rownums]. rewrite Hr. apply Hrows.
Qed.

End Node.

(** ** An example: (qty > 5 OR id < 15) AND qty <= 7 *)

Section Example.

#[local] Existing Instance asciiText.
#[local] Existing Instance exampleFmt.
#[local] Existing Instance exampleFmt_laws.
#[local] Existing Instance listRoaring.
#[local] Existing Instance listRoaring_laws.
#[local] Existing Instance listRoaringOps.
#[local] Existing Instance listRoaringOps_laws.
#[local] Existing Instance listBSI.
#[local] Existing Instance listBSI_laws.
#[local] Existing Instance listTranspose.

Definition idColumn : FieldRef :=
  exampleColumn (str "id") DataTypeInt IndexBSI (mkEncodingProfile EncodingNumericBSI [] TimeGranularityUnknown 0 0 0).

Definition compareColumn (op : BinaryOp) (field : FieldRef) (z : Z) : sqlCondition :=
  SCompare op field (literalExpr ValueInt (GInt Tint64 z)) false.

Definition nodeCondition : sqlCondition :=
  SAnd (SOr (compareColumn OpGreater qtyColumn 5) (compareColumn OpLess idColumn 15)) (compareColumn OpLessEqual qtyColumn 7).

Definition nodeContents (index field : bytes) (x : Z) : option cell :=
  if decide (index = str "users") then CInt <$> shardValue exampleLocal index field 0 x else None.

(** The cells of the node. *)
Definition nodeKernel : ProjectionMaterializationKernel (Client (list Z) (list (Z * Z))) := fun r s =>
  let cell field x := if decide (pj_Index field = str "users")
    then from_option integerCell nullResultCell (shardValue exampleLocal (pj_Index field) (pj_Field field) 0 x) else nullResultCell in
  (Ok ([(mkRowSet (mz_Rownums r) (map (fun field => map (cell field) (mz_Rownums r)) (mz_ProjectionFields r)), [])], []), s).

Definition nodeSession : LegacyQuantaSessionHandle := mkSession (str "users") [] None true.

Lemma exampleField_plain field : field = str "id" \/ field = str "qty" -> plainField exampleLocal (str "users") field.
Proof.
  intros Hf. split; [by apply exampleField_known| | |].
  - by destruct Hf as [-> | ->]; vm_compute.
  - by destruct Hf as [-> | ->]; vm_compute.
  - assert (map_Forall (fun ts (_ : list (Z * Z)) => ts = 0) (bsiShards exampleLocal (str "users") field)) as Hall.
    { apply (bool_decide_unpack _). by destruct Hf as [-> | ->]; vm_compute. }
    intros ts bsi E. exact (Hall _ _ E).
Qed.

Lemma exampleTable_plain : plainTable exampleLocal (str "users").
Proof. exists (str "id"). split; [by vm_compute|]. apply exampleField_plain. by left. Qed.

(** Rows 1 and 2 have the values. *)
Lemma example_rows field x v : storedValue exampleLocal (str "users") field x v -> x = 1 \/ x = 2.
Proof.
  intros Hv. assert (map_Forall (fun _ => map_Forall (fun _ (bsi : list (Z * Z)) => Forall (fun p => p.1 = 1 \/ p.1 = 2) bsi)) (bi_bsiCache exampleLocal)) as Hall
    by (apply (bool_decide_unpack _); by vm_compute).
  unfold storedValue, shardValue in Hv. destruct (bsiShards exampleLocal (str "users") field !! 0) as [bsi|] eqn:E; [|done].
  apply bsiShards_lookup in E as (shards & Es & E). specialize (Hall _ _ Es _ _ E). cbn [mbind option_bind] in Hv.
  change (listValue bsi x = Some v) in Hv. clear -Hall Hv. induction Hall as [|[y w] bsi Hy _ IH]; [done|].
  cbn [listValue] in Hv. cbn in Hy. case_decide; [naive_solver|by apply IH].
Qed.

Lemma example_stored field : field = str "id" \/ field = str "qty" -> forall x, x = 1 \/ x = 2 ->
  exists v, storedValue exampleLocal (str "users") field x v /\ Z.abs v < 2 ^ 53.
Proof.
  unfold storedValue. intros [-> | ->] x [-> | ->]; [exists 10|exists 20|exists 5|exists 7]; split; by vm_compute.
Qed.

Lemma example_table x : tableRow exampleLocal (str "users") x -> x = 1 \/ x = 2.
Proof. intros (key & _ & v & Hv). by eapply example_rows. Qed.

Lemma example_covers field x v : storedValue exampleLocal (str "users") field x v -> tableRow exampleLocal (str "users") x.
Proof.
  intros Hx%example_rows. exists (str "id"). split; [by vm_compute|].
  destruct (example_stored (str "id") ltac:(by left) x Hx) as (w & Hw & _). by exists w.
Qed.

Lemma example_storedField field : field = idColumn \/ field = qtyColumn -> storedField exampleLocal (str "users") nodeContents field.
Proof.
  intros Hf. split_and!; [by destruct Hf as [-> | ->]|apply exampleField_plain; destruct Hf as [-> | ->]; [by left|by right]|].
  assert (integerField field = true) as Hi by (by destruct Hf as [-> | ->]).
  assert (ti_Table (fr_Table field) = str "users") as Et by (by destruct Hf as [-> | ->]).
  intros x. unfold cellOf, nodeContents, tableValue, storedValue. rewrite Et, decide_True by done.
  destruct (shardValue exampleLocal (str "users") (quantaIntermediateFieldName field) 0 x) as [w|]; cbn; split.
  - intros v. split; [intros [_ [= ->]]; by exists (CInt v)|]. intros (c & [= <-] & _ & ->). done.
  - intros c [= <-]. by exists w.
  - intros v. split; [by intros [_ ?]|]. by intros (c & ? & _).
  - done.
Qed.

Lemma example_kernel : KernelContract (tableValue exampleLocal (str "users")) (nodeState exampleLocal []) nodeKernel.
Proof.
  intros ix field rows s _ Hs. unfold nodeKernel. cbn [mz_Rownums mz_ProjectionFields map]. eexists _, [], [], s. split_and!; [done..|].
  induction rows as [|x rows IH]; [constructor|]. cbn [map]. constructor; [|exact IH]. unfold showsCell, tableValue, storedValue.
  case_decide as E; [|right; split; [by intros (v & ? & _)|done]].
  destruct (shardValue exampleLocal (pj_Index field) (pj_Field field) 0 x) as [v|]; [left; by exists v|right].
  split; [by intros (v & _ & ?)|done].
Qed.

(** Both ways to evaluate the leaves. *)
Definition nodeFragment (op : QuantaBSIOp) (field : bytes) (z : Z) : QuantaQueryFragment :=
  mkFragment (str "users") (str "users") field OperationIntersect op (Some z) [] None None
    (Some (mkLiteral ValueInt (GInt Tint64 z))) [] None true false false false.

Lemma example_leaf op field z : op = BSIOpGT \/ op = BSIOpLT \/ op = BSIOpLE -> field = str "id" \/ field = str "qty" -> Z.abs z < 2 ^ 53 ->
  materializable (tableValue exampleLocal (str "users")) (tableRow exampleLocal (str "users"))
    (nodeFragment op field z).
Proof.
  intros Hop Hf Hz. split_and!; [done|done|done|right]. split_and!; [split; [done|]|done|].
  - cbn. assert (integerLiteral (mkLiteral ValueInt (GInt Tint64 z)) z) as Hl by (split_and!; [done|by exists Tint64|done]).
    destruct Hop as [-> |[-> | ->]]; by eexists _, z.
  - intros x Hx%example_table. destruct (example_stored field Hf x Hx) as (v & Hv & Hb). by exists v.
Qed.

Lemma example_session (r : ExecutionRequest) : legacyDirectRelationshipTimeQuantumField (cachedRootTable nodeSession r) = [].
Proof. done. Qed.

Definition nodeRequest : ExecutionRequest := mkRequest [] [] FEmpty [] [] [str "users"] [] None 0 0 false.

Lemma example_state : nodeState exampleLocal [] (mkClient (Some exampleLocal) []).
Proof. exists ∅. split; [done|]. by apply empty_seeds. Qed.

Lemma nodeCondition_lowered : LowerQuery epochTime None (mkQueryIR true 1 0 0 [] (exprOf nodeCondition)) [] = Lowered ([],
  FIntersect [FUnion [FLeaf (nodeFragment BSIOpGT (str "qty") 5); FLeaf (nodeFragment BSIOpLT (str "id") 15)];
              FLeaf (nodeFragment BSIOpLE (str "qty") 7)]).
Proof. by vm_compute. Qed.

(** Operands between the values of qty, and of id. *)
Lemma example_qty a : bool_decide (5 <= a <= 7) = true -> between (storedValue exampleLocal (str "users") (str "qty")) a.
Proof. intros Ha%bool_decide_eq_true x v _. exists 1, 5, 2, 7. split_and!; [by vm_compute|by vm_compute|lia|lia]. Qed.

Lemma example_id a : bool_decide (10 <= a <= 20) = true -> between (storedValue exampleLocal (str "users") (str "id")) a.
Proof. intros Ha%bool_decide_eq_true x v _. exists 1, 10, 2, 20. split_and!; [by vm_compute|by vm_compute|lia|lia]. Qed.

Lemma sql_filter_exact_witness : exists t,
  LowerQuery epochTime None (mkQueryIR true 1 0 0 [] (exprOf nodeCondition)) [] = Lowered ([], t) /\
  let request := withFragments nodeRequest [] t (rq_ProjectionFields nodeRequest) None in
  exists candidates s', AdaptFilterExpression (Some (nodeSessions (B := list Z) (fun l => l) (fun l _ => l) exampleIds nodeSession))
      (Some nodeKernel) [] None request (fun _ => None) (mkClient (Some exampleLocal) []) =
      (Ok (WithCandidateSet request candidates, []), s') /\ nodeState exampleLocal [] s' /\
    forall x, x ∈ cs_Rownums candidates <->
      conditionRows epochTime [] nodeContents (tableRow exampleLocal (str "users")) nodeCondition x.
Proof.
  apply (sql_filter_exact (fun l => l) (fun l => reflexivity l) (fun l _ => l) exampleIds exampleIds_inj exampleLocal (str "users") []
    example_agree exampleTable_plain example_covers nodeSession eq_refl (fun r _ => example_session r) epochTime [] None nodeContents
    (Some nodeKernel) [] None nodeCondition nodeRequest); [by vm_compute| |done|apply example_state| |done|].
  - repeat (constructor; [apply example_storedField; auto|]). constructor.
  - intros t E. rewrite nodeCondition_lowered in E. injection E as <-. cbn [everyLeaf foldr].
    split_and!; try done; (constructor; [|constructor]); [apply example_qty|apply example_id|apply example_qty]; by vm_compute.
  - intros k t [= <-] E. split; [apply example_kernel|]. rewrite nodeCondition_lowered in E. injection E as <-.
    cbn [everyLeaf foldr]. split_and!; try done; apply example_leaf; auto; done.
Defined.

(** qty > 4 AND qty <= 7 AND id <> 20, the first two merged. *)
Definition nodeConditions : list sqlCondition :=
  [compareColumn OpGreater qtyColumn 4; compareColumn OpLessEqual qtyColumn 7; compareColumn OpNotEqual idColumn 20].

Definition nodePredicates : list Predicate :=
  map (fun c => mkPredicate (exprOf c) PredicatePushdown ScopeWhere CombinatorAnd) nodeConditions.

Lemma nodePredicates_lowered : LowerQuery epochTime None (mkQueryIR true 1 0 0 nodePredicates ENil) [] = Lowered (
  [mkFragment (str "users") (str "users") (str "qty") OperationIntersect BSIOpRange None [] (Some 5) (Some 7)
     (Some (mkLiteral ValueInt (GInt Tint64 4))) [] None true false false false;
   mkFragment (str "users") (str "users") (str "id") OperationDifference BSIOpEQ (Some 20) [] None None
     (Some (mkLiteral ValueInt (GInt Tint64 20))) [] None true false false false], FEmpty).
Proof. by vm_compute. Qed.

Lemma sql_conjunction_exact_witness : exists fs,
  LowerQuery epochTime None (mkQueryIR true 1 0 0 nodePredicates ENil) [] = Lowered (fs, FEmpty) /\
  exists result s', QueryBitmap (B := list Z) (fun l => l) (fun l _ => l) exampleIds nodeSession
      (withFragments nodeRequest fs FEmpty (rq_ProjectionFields nodeRequest) None) (mkClient (Some exampleLocal) []) = (Ok (result, []), s') /\
    nodeState exampleLocal [] s' /\ bqr_Count result = wrap_u 64 (zlen (bqr_Rownums result)) /\
    forall x, let meant := Forall (fun c => conditionRows epochTime [] nodeContents (tableRow exampleLocal (str "users")) c x) nodeConditions in
      (meant -> x ∈ bqr_Rownums result) /\
      (fullConditions exampleLocal (str "users") nodeConditions x -> x ∈ bqr_Rownums result -> meant).
Proof.
  apply (sql_conjunction_exact (fun l => l) (fun l => reflexivity l) (fun l _ => l) exampleIds exampleIds_inj exampleLocal (str "users") []
    example_agree exampleTable_plain example_covers nodeSession eq_refl (fun r _ => example_session r) epochTime [] None nodeContents
    nodePredicates nodeConditions nodeRequest); [done| |done| |done|apply example_state|].
  - do 3 (constructor; [split_and!; by vm_compute|]). constructor.
  - do 3 (constructor; [constructor; [apply example_storedField; auto|constructor]|]). constructor.
  - intros fs E. rewrite nodePredicates_lowered in E. injection E as <-. constructor; [|constructor; [|constructor]].
    + do 2 (constructor; [apply example_qty; by vm_compute|]). constructor.
    + constructor; [apply example_id; by vm_compute|constructor].
Defined.

(** qty NOT IN (5, 9) *)
Definition exampleItems : list Expr := [literalExpr ValueInt (GInt Tint64 5); literalExpr ValueInt (GInt Tint64 9)].

Definition notInPredicate : Predicate :=
  mkPredicate (EBinary OpNotIn (EField qtyColumn) (EList exampleItems)) PredicatePushdown ScopeWhere CombinatorAnd.

Lemma not_in_returns_members_witness : exists f,
  lowerPredicate epochTime None notInPredicate [] = Lowered f /\
  (exists result s', QueryBitmap (B := list Z) (fun l => l) (fun l _ => l) exampleIds nodeSession
      (withFragments nodeRequest [f] FEmpty (rq_ProjectionFields nodeRequest) None) (mkClient (Some exampleLocal) []) = (Ok (result, []), s') /\
    forall x, x ∈ bqr_Rownums result <->
      conditionRows epochTime [] nodeContents (tableRow exampleLocal (str "users")) (SIn qtyColumn exampleItems) x) /\
  (forall v, integerFragment f -> Z.abs v < 2 ^ 53 -> directBitmapFilterFragmentMatchesCell f (integerCell v) = negb (operandTest f v)).
Proof.
  apply (not_in_returns_members (fun l => l) (fun l => reflexivity l) (fun l _ => l) exampleIds exampleIds_inj exampleLocal (str "users") []
    example_agree exampleTable_plain example_covers nodeSession eq_refl (fun r _ => example_session r) epochTime [] None nodeContents
    notInPredicate qtyColumn exampleItems nodeRequest); [done|done|by vm_compute|apply example_storedField; auto|done|apply example_state].
Defined.

End Example.
